(* ===== verification/_CoqProject ===== *)
-Q . S2P
Prelude.v
Bytes.v
Ordered.v
Types.v
Tree.v
TreeInv.v
TreePaths.v
Wire.v
Encoding.v
NetEncoding.v
LocalEncoding.v
StateEncoding.v
CodecClaims.v
ReplayWindow.v
Crypto.v
Directory.v
KeyStore.v
Wrap.v
Aead.v
KeyStoreInv.v
KeyStoreOps.v
KeyStoreOpen.v
KeyStoreMachine.v
KeyStoreFrame.v
KeyStoreReopen.v
KeyStoreClaims.v
World.v
Transaction.v
Replica.v
Chunks.v
Durable.v
Pull.v
PullClaims.v
HostState.v
Host.v
HostOps.v
Member.v
HostFrame.v
HostCommit.v
HostInv.v
Bootstrap.v
HostMachine.v
HostMethods.v
HostClaims.v
Vault.v
MemberInv.v
MemberMachine.v
MemberClaims.v
Frame.v
Codes.v
Link.v
Session.v
SessionInv.v
SessionContact.v
ContactEnds.v
SessionClaims.v
Hosting.v
Channel.v
Serve.v
Join.v
Joined.v
KeyCalls.v
MemberCalls.v
HostingInv.v
JoinInv.v
JoinedInv.v
ServeClaims.v
JoinClaims.v
Chars.v
Lines.v
Base64.v
Profiles.v
ProfileClaims.v
VaultDirs.v
VaultDirClaims.v
Admin.v
AdminMeta.v
AdminClaims.v
