(* ===== verification/Prelude.v ===== *)
(** * quantum-fs: a verification development for the backend crate

    quantum-fs is an end-to-end encrypted file vault shared by a small group of machines.  Each
    member has an identity (ML-DSA-65 signing key and X-Wing encapsulation key), agrees an AES
    key per peer and epoch by sending a wrapped key, and exchanges sealed packets; one member
    hosts the vault: a directory tree, signed manifests and an instruction log that the others
    apply, with mailboxes for those who are away.  A directory service maps join codes to
    addresses.  All paths below are under [src/backend/src/].

    ** The parts

    - [Prelude]: results and errors ([error.rs]), the state-error monad in which stateful methods
      are written, its weakest preconditions [wp] and the tactic [wp_step]; lemma [wp_bind] and
      its fellows decompose a method along its source.
    - [Bytes], [Ordered]: fixed-width integers with their checked and saturating operations, byte
      arrays, UTF-8, [BTreeMap]s as [gmap]s listed in key order, and [atomic_write], a file
      write that may fail before or after the rename.
    - [Types]: the data exchanged and stored, field by field.
    - [Tree], [TreeInv], [TreePaths]: [store/tree.rs].  A tree is its map from (parent, name) to
      entries; [tree_ok] is the invariant, [climb] the relation that justifies the walks to the
      root (their fuel, one more than the number of entries, is proved enough).
    - [Wire], [Encoding], [NetEncoding], [LocalEncoding], [StateEncoding]: [encoding.rs].
      Encoders are functions to bytes or an error; decoders run in a monad over a reader.  The
      class [DecSpec] relates a decoder to what it consumes and composes; [Codec] and
      [SignedCodec] state that a decoder inverts an encoder exactly.  [CodecClaims] states the
      result for each format.
    - [ReplayWindow]: [protocol/packet.rs], refined by the list of accepted numbers.
    - [Crypto]: [crypto/sign.rs], [crypto/identity.rs], over classes for the primitives.
    - [Directory]: [net/directory.rs], the store of routes and its requests.
    - [KeyStore], [Wrap], [Aead]: [keystore.rs], [crypto/wrap.rs], [crypto/aead.rs].  A
      [StoreInner] holds the fields of the source's struct and its two files; each method is a
      state transformer.  [KeyStoreInv] states the invariant, [KeyStoreOps] preserves it through
      every method, [KeyStoreOpen] through opening from disk, [KeyStoreMachine] through any
      sequence of commands, crashes and restarts, [KeyStoreReopen] says how opening the files of a
      store ends, and [KeyStoreClaims] draws the consequences.
    - [World]: a machine: its key store, its files by name, the number of oracle calls made.  The
      class [Oracle] answers what a method may not decide: clock readings, random bytes and how
      each file write ends.  [HWorld] and [HPutChunk] are the handles on it.
    - [Transaction]: [store/transaction.rs], the journalled publication of the replica file and
      the admission file together.
    - [Replica], [Chunks], [Durable]: [store/], trust in manifests ([crypto/trust.rs]), what a
      snapshot retains, the content-addressed chunk store and the snapshot with its chunk files.
    - [Pull], [PullClaims]: [sync/pull.rs], the exchange of chunks between members.
    - [HostState], [Host], [HostOps]: [sync/host.rs] and [sync/host/], the vault's host.
      [HostState] has the state and the pure functions on it (acknowledgements, the log, the
      recovered mailboxes, the bootstrap history), [Host] the service and its commit,
      [HostOps] the public methods.
    - [Member]: the member's replica: instructions, draining a mailbox, its snapshot.
    - [HostFrame], [HostCommit], [HostInv]: which methods leave the state alone; what a commit
      does, step by step; the invariant [host_ok].
    - [Bootstrap]: the history a new member is sent.
    - [HostMachine], [HostMethods]: the relation [evolves] between a state and a later one, the
      interface [HostRelation] through which a method is shown to keep the invariant and follow
      [evolves], and each public method shown to; [HostClaims] draws the consequences for any
      sequence of calls.
    - [Vault]: [vault_step], what an instruction means to the vault, refined by the host's commit
      and by the member's application of it; replaying a bootstrap.
    - [MemberInv], [MemberMachine], [MemberClaims]: what applying one instruction does; the
      invariant [member_ok] and the relation [follows] through every method of a replica; members
      in step with their host, after live controls and after a bootstrap.
    - [Frame], [Codes]: [net/frame.rs], join codes and vault ids in base 32 ([net/mod.rs]) and short
      codes ([net/short_code.rs]).
    - [Link], [Session]: [net/session.rs].  A connection is what the reads to come give, how the
      writes end and the tasks that run meanwhile; the handshake of the two sides over it.
      [KeyStoreFrame], [SessionInv], [SessionContact] and [SessionClaims] show what it keeps;
      [ContactEnds] says which of a member's own failures can end a first contact.
    - [Hosting]: [net/vaults.rs] and the hosts of [net/join.rs], which the vault set and the
      connections share by address.  [Channel], [Serve]: the host's side of a connection, from the
      handshake to its end ([net/join.rs]).  [KeyCalls], [MemberCalls]: what the methods do to the
      key store; [HostingInv], [ServeClaims].
    - [Join], [Joined]: the member's side: joining, and its calls on the connection; [JoinInv],
      [JoinedInv], [JoinClaims].
    - [Chars], [Lines]: text as scalar values, numbers and identifiers in it, and lines of it over a
      connection that delivers them in pieces.
    - [Base64], [Profiles], [ProfileClaims]: [net/profiles.rs], the display names.
    - [VaultDirs], [VaultDirClaims]: [store/vaults.rs], the directories of vaults; each step on the
      disk may fail before or after it took effect.
    - [Admin], [AdminMeta], [AdminClaims]: [net/admin.rs], the administration port, over [Hosting]
      and [VaultDirs]; what other tasks do while it awaits is a parameter.

    ** What is shown

    Key store: no nonce is used twice under a key slot and no epoch gets a second wrap, across
    crashes; its files read back after any crash, and opening them prepares a fresh epoch for every
    peer it makes keys for or is refused for a listed reason; a wrapped key arrives and sealed packets open.  Replay window:
    exactly the fresh numbers in range.  Tree: always rooted, acyclic, uniquely linked, paths and
    ids in bijection.  Directory: reopens, bounded, refuses replays.  Encodings: exactly which
    bytes each decoder accepts.  Storage: a snapshot, with its chunks, and a pair of files are
    replaced entirely or not at all, whichever write is interrupted.  Pull: only trusted and wanted
    chunks enter a store.  Host: after any calls the tree, files, membership, log and mailboxes
    agree; what a member has not acknowledged can be recovered in order; a commit is all or
    nothing; kicks last; a flush acknowledges what it carried.  Members: the vault a
    replica shows is the replay of its log; instructions the host commits have the same effect
    on a member; the bootstrap history leads a new member to the host's vault.  Connections:
    whatever arrives, is not written or runs meanwhile, a handshake, a served connection, a join
    and the calls on a joined connection keep the invariants of key store, host and replica; only
    who signed its request and presents the code in force is admitted; an upload stays within its
    budget; two members who meet for the first time agree on a key unless one's own store or system
    fails it.  Directories: a migration loses nothing wherever it is interrupted; what is listed
    to be hosted is what there is.  Ports: a name that is put is got, and the file of names opens
    as the last put that was written; without the token nothing changes and no code is told; what
    a rotation leaves.

    ** Conventions and limits

    Cryptographic primitives, SHA-256 and socket addresses are type classes with the laws their
    documentation states; nothing assumes that a hash has no collisions at large, but importing a
    peer's document over an older one assumes those two verification keys do not collide
    ([no_vk_collision]).  [usize] has 64 bits; [fits] bounds a byte string by it.  A mutex makes
    a method one step.  The loop that orders the bootstrap's links is bounded by the number of
    links; [link_loop_replays] shows that is enough on a tree in order.  The host machine's
    command for attaching an admission is never given one that denies a member, which the code
    would accept ([command_ok]).

    Three theorems carry a condition on what else runs.  A handshake that preserves the confirmed
    pairs starts in a [settled] store, without a candidate at its confirmed pair's epoch.  A
    rotation is exact when other tasks leave its vault alone ([leaves_vault]).  A name that is put
    is got when no other connection is served in between: [serve_profiles] is one connection by
    itself, and what many do to the store is a sequence of their requests ([handle_all]).  Each
    has an example of what happens without it, or a theorem that does without it.

    What a connection delivers is a finite list of frames and then an end or an error.  The code
    reads an answer until its end without bounding the number of frames, so a peer can keep such
    a loop reading; nothing is claimed about the number of frames a loop reads.

    ** Not modelled

    Sockets and the accept loops around a connection with their permits, threads, elapsing
    timeouts, file permissions, symbolic links, the lock on a data directory, log lines and
    terminal output; start-up and configuration ([daemon.rs], [config.rs], [main.rs]); the
    asynchronous variants of pulls with their timeouts; and the desktop client, which drives the
    backend from a file browser. *)
From stdpp Require Export base tactics decidable countable numbers list list_numbers gmap sorting strings.
From Stdlib Require Export Strings.Byte.
From Stdlib Require Import Lia.

(** ** Notations and tactics *)

Declare Scope qfs_scope.
Delimit Scope qfs_scope with qfs.
Open Scope qfs_scope.
#[export] Set Warnings "-clear-no-such-hyp".

Abbreviation byte := Byte.byte.
Abbreviation bytes := (list byte).

(** Case analysis on the first [match]/[if] scrutinee found in a hypothesis. *)
Ltac case_in H :=
  match type of H with
  | context [match ?x with _ => _ end] =>
      lazymatch x with
      | context [match _ with _ => _ end] => fail
      | _ => destruct x eqn:?
      end
  end.

(** Case analysis on the first [match]/[if] scrutinee found in the goal. *)
Ltac case_goal :=
  match goal with
  | |- context [match ?x with _ => _ end] =>
      lazymatch x with
      | context [match _ with _ => _ end] => fail
      | _ => destruct x eqn:?
      end
  end.

(** ** Errors and the result type ([backend/src/error.rs]) *)

(** A handful of [io::ErrorKind] values: the ones the code inspects, and the rest. *)
Inductive io_error := NotFound | UnexpectedEof | OtherIo.

(** [Error] of [error.rs].  The [Io] payload keeps the error kind only; vault and peer
    identifiers of [VaultSessionConflict] are carried as their raw bytes. *)
Inductive Error :=
  | NotImplemented (operation : string)
  | InvalidInput (message : string)
  | AuthenticationFailed
  | KeyUnavailable
  | State (message : string)
  | ReplayRejected
  | EpochConflict (retry_epoch : N)
  | VaultSessionConflict (peer_id bound requested : bytes)
  | Io (error : io_error).

Inductive Result (A : Type) :=
  | Ok (value : A)
  | Err (error : Error).
Arguments Ok {A} value.
Arguments Err {A} error.

Definition res_bind {A B} (r : Result A) (k : A → Result B) : Result B :=
  match r with
  | Ok x => k x
  | Err e => Err e
  end.

Notation "'let?' x := e 'in' k" := (res_bind e (λ x, k))
  (at level 10, x pattern, e at level 200, k at level 200,
   format "'[v' 'let?'  x  :=  '[' e ']'  'in' '/' k ']'") : qfs_scope.

(** [guard?]: an early return of [e] unless the condition holds. *)
Notation "'guard?' b 'else' e 'in' k" := (if b : bool then k else Err e)
  (at level 10, b at level 200, e at level 200, k at level 200,
   format "'[v' 'guard?'  '[' b ']'  'else'  '[' e ']'  'in' '/' k ']'") : qfs_scope.

(** [Option::ok_or]. *)
Definition ok_or {A} (o : option A) (e : Error) : Result A :=
  match o with
  | Some x => Ok x
  | None => Err e
  end.

Definition is_ok {A} (r : Result A) : bool :=
  match r with Ok _ => true | Err _ => false end.

Definition result_ok {A} (r : Result A) : option A :=
  match r with Ok x => Some x | Err _ => None end.

#[export] Instance io_error_eq_dec : EqDecision io_error.
Proof. solve_decision. Defined.

#[export] Instance byte_eq_dec : EqDecision byte := Byte.byte_eq_dec.

#[export] Instance Error_eq_dec : EqDecision Error.
Proof. solve_decision. Defined.
#[export] Instance Result_eq_dec `{EqDecision A} : EqDecision (Result A).
Proof. solve_decision. Defined.

(** Decides a closed proposition by evaluation. *)
Ltac vm_decide := refine (bool_decide_eq_true_1 _ _); vm_compute; reflexivity.

(** ** State and errors

    A method that takes [&mut self]: it returns a result and the state it leaves, which an
    error does not undo. *)
Definition SM (S A : Type) : Type := S → Result A * S.

Definition sm_ret {S A} (x : A) : SM S A := λ s, (Ok x, s).
Definition sm_err {S A} (e : Error) : SM S A := λ s, (Err e, s).
Definition sm_bind {S A B} (m : SM S A) (k : A → SM S B) : SM S B := λ s,
  match m s with
  | (Ok x, s') => k x s'
  | (Err e, s') => (Err e, s')
  end.
Definition sm_get {S} : SM S S := λ s, (Ok s, s).
Definition sm_put {S} (s : S) : SM S unit := λ _, (Ok tt, s).
(** [x?] on a result that does not touch the state. *)
Definition sm_lift {S A} (r : Result A) : SM S A := λ s, (r, s).

Notation "'do!' x := m 'in' k" := (sm_bind m (λ x, k))
  (at level 10, x pattern, m at level 200, k at level 200,
   format "'[v' 'do!'  x  :=  '[' m ']'  'in' '/' k ']'") : qfs_scope.
Notation "'check!' b 'else' e 'in' k" := (if b : bool then k else sm_err e)
  (at level 10, b at level 200, e at level 200, k at level 200,
   format "'[v' 'check!'  '[' b ']'  'else'  '[' e ']'  'in' '/' k ']'") : qfs_scope.

Lemma sm_bind_Ok {S A B} (m : SM S A) (k : A → SM S B) s y s' :
  sm_bind m k s = (Ok y, s') ↔ ∃ x s1, m s = (Ok x, s1) ∧ k x s1 = (Ok y, s').
Proof. unfold sm_bind. destruct (m s) as [[x|e] s1]; naive_solver. Qed.

Lemma sm_bind_Err {S A B} (m : SM S A) (k : A → SM S B) s e s' :
  sm_bind m k s = (Err e, s') ↔
  m s = (Err e, s') ∨ ∃ x s1, m s = (Ok x, s1) ∧ k x s1 = (Err e, s').
Proof. unfold sm_bind. destruct (m s) as [[x|e'] s1]; naive_solver. Qed.

(** [P] holds of every state the method can leave, whatever it returns. *)
Definition sm_inv {S A} (P : S → Prop) (m : SM S A) : Prop :=
  ∀ s, P s → P (m s).2.

Lemma sm_inv_ret {S A} (P : S → Prop) (x : A) : sm_inv P (sm_ret x).
Proof. by intros s. Qed.
Lemma sm_inv_err {S A} (P : S → Prop) e : sm_inv P (sm_err (A := A) e).
Proof. by intros s. Qed.
Lemma sm_inv_get {S} (P : S → Prop) : sm_inv P sm_get.
Proof. by intros s. Qed.
Lemma sm_inv_lift {S A} (P : S → Prop) (r : Result A) : sm_inv P (sm_lift r).
Proof. by intros s. Qed.
Lemma sm_inv_bind {S A B} (P : S → Prop) (m : SM S A) (k : A → SM S B) :
  sm_inv P m → (∀ x, sm_inv P (k x)) → sm_inv P (sm_bind m k).
Proof.
  intros Hm Hk s Hs. unfold sm_bind. specialize (Hm s Hs).
  destruct (m s) as [[x|e] s1]; [by apply Hk|done].
Qed.
Lemma sm_inv_if {S A} (P : S → Prop) (b : bool) (m1 m2 : SM S A) :
  sm_inv P m1 → sm_inv P m2 → sm_inv P (if b then m1 else m2).
Proof. by destruct b. Qed.
Create HintDb sm_inv.
#[export] Hint Resolve sm_inv_ret sm_inv_err sm_inv_get sm_inv_lift sm_inv_bind sm_inv_if
  : sm_inv.

(** Inverts the steps of a method that succeeded. *)
Ltac sm_destruct :=
  repeat match goal with
  | H : sm_bind _ _ _ = (Ok _, _) |- _ =>
      let x := fresh "x" in let s := fresh "s" in
      let H1 := fresh "H" in let H2 := fresh "H" in
      apply sm_bind_Ok in H as (x & s & H1 & H2)
  | H : sm_ret _ _ = (Ok _, _) |- _ => injection H as <- <-
  | H : sm_get _ = (Ok _, _) |- _ => injection H as <- <-
  | H : sm_put _ _ = (Ok _, _) |- _ => injection H as <- <-
  | H : sm_lift _ _ = (Ok _, _) |- _ => injection H as H <-
  | H : sm_err _ _ = (Ok _, _) |- _ => discriminate H
  | H : (if ?b then _ else sm_err _) _ = (Ok _, _) |- _ =>
      let E := fresh "Hguard" in destruct b eqn:E; [|discriminate H]
  end.

(** What a method run from [s] guarantees: [Q] of the result and the state it leaves, or [E] of
    the state an error leaves. *)
Definition wp {S A} (m : SM S A) (Q : A → S → Prop) (E : S → Prop) (s : S) : Prop :=
  match m s with
  | (Ok x, s') => Q x s'
  | (Err _, s') => E s'
  end.

Lemma wp_bind {S A B} (m : SM S A) (k : A → SM S B) Q E s :
  wp m (λ x, wp (k x) Q E) E s → wp (sm_bind m k) Q E s.
Proof. unfold wp, sm_bind. by destruct (m s) as [[x|e] s']. Qed.
Lemma wp_ret {S A} (x : A) Q E (s : S) : Q x s → wp (sm_ret x) Q E s.
Proof. done. Qed.
Lemma wp_err {S A} e Q E (s : S) : E s → wp (sm_err (A := A) e) Q E s.
Proof. done. Qed.
Lemma wp_get {S} Q E (s : S) : Q s s → wp sm_get Q E s.
Proof. done. Qed.
Lemma wp_put {S} (s' : S) Q E s : Q tt s' → wp (sm_put s') Q E s.
Proof. done. Qed.
Lemma wp_lift {S A} (r : Result A) Q E (s : S) :
  (∀ x, r = Ok x → Q x s) → ((∃ e, r = Err e) → E s) → wp (sm_lift r) Q E s.
Proof. unfold wp, sm_lift. destruct r; eauto. Qed.
Lemma wp_if {S A} (b : bool) (m1 m2 : SM S A) Q E s :
  (b = true → wp m1 Q E s) → (b = false → wp m2 Q E s) → wp (if b then m1 else m2) Q E s.
Proof. destruct b; auto. Qed.
Lemma wp_mono {S A} (m : SM S A) (Q Q' : A → S → Prop) (E E' : S → Prop) s :
  wp m Q E s → (∀ x s', Q x s' → Q' x s') → (∀ s', E s' → E' s') → wp m Q' E' s.
Proof. unfold wp. destruct (m s) as [[x|e] s']; eauto. Qed.
Lemma wp_state {S A} (m : SM S A) (P : S → Prop) s : wp m (λ _, P) P s ↔ P (m s).2.
Proof. unfold wp. by destruct (m s) as [[x|e] s']. Qed.
Lemma wp_any {S A} (m : SM S A) s : wp m (λ _ _, True) (λ _, True) s.
Proof. unfold wp. by destruct (m s) as [[]]. Qed.
Lemma wp_Ok {S A} (m : SM S A) Q E s x s' : wp m Q E s → m s = (Ok x, s') → Q x s'.
Proof. unfold wp. intros H Hm. by rewrite Hm in H. Qed.

(** [m], and [h] on the error it ends with: the [if let Err(error)] of a rollback. *)
Definition sm_catch {S A} (m : SM S A) (h : Error → SM S A) : SM S A := λ s,
  match m s with
  | (Ok x, s') => (Ok x, s')
  | (Err e, s') => h e s'
  end.

(** A method of a part of the state. *)
Definition sm_zoom {S T A} (get : T → S) (set : S → T → T) (m : SM S A) : SM T A := λ t,
  let '(r, s) := m (get t) in (r, set s t).

(** [for] loops: for the effect, for a collected list, with an accumulator. *)
Fixpoint sm_each {S A} (f : A → SM S unit) (l : list A) : SM S unit :=
  match l with
  | [] => sm_ret tt
  | x :: l => sm_bind (f x) (λ _, sm_each f l)
  end.
Fixpoint sm_map {S A B} (f : A → SM S B) (l : list A) : SM S (list B) :=
  match l with
  | [] => sm_ret []
  | x :: l => sm_bind (f x) (λ y, sm_bind (sm_map f l) (λ ys, sm_ret (y :: ys)))
  end.
Fixpoint sm_fold {S A B} (f : B → A → SM S B) (l : list A) (b : B) : SM S B :=
  match l with
  | [] => sm_ret b
  | x :: l => sm_bind (f b x) (sm_fold f l)
  end.

Lemma wp_catch {S A} (m : SM S A) h Q E s :
  wp m Q (λ s', ∀ e, wp (h e) Q E s') s → wp (sm_catch m h) Q E s.
Proof. unfold wp at 1 3, sm_catch. destruct (m s) as [[x|e] s']; [done|]. intros Hh. apply Hh. Qed.
Lemma wp_zoom {S T A} (get : T → S) (set : S → T → T) (m : SM S A) Q E t :
  wp m (λ x s, Q x (set s t)) (λ s, E (set s t)) (get t) → wp (sm_zoom get set m) Q E t.
Proof. unfold wp, sm_zoom. by destruct (m (get t)) as [[x|e] s]. Qed.
Lemma wp_each {S A} (f : A → SM S unit) (I E : S → Prop) l s :
  I s → (∀ x s, x ∈ l → I s → wp (f x) (λ _, I) E s) → wp (sm_each f l) (λ _, I) E s.
Proof.
  intros Hs Hf. revert s Hs. induction l as [|x l IH]; intros s Hs; [done|].
  apply wp_bind. eapply wp_mono; [by apply Hf; [left|]| |done].
  cbn beta. intros _ s' Hs'. apply IH; [|done]. intros y s1 Hy. apply Hf. by right.
Qed.
Lemma wp_map {S A B} (f : A → SM S B) (I : list B → S → Prop) (E : S → Prop) l s :
  (∀ done x rest s, l = done ++ x :: rest → ∀ ys, length ys = length done → I ys s →
     wp (f x) (λ y, I (ys ++ [y])) E s) →
  I [] s → wp (sm_map f l) I E s.
Proof.
  intros Hf Hs.
  assert (Hgen : ∀ rest done ys s, l = done ++ rest → length ys = length done → I ys s →
    wp (sm_map f rest) (λ zs, I (ys ++ zs)) E s); [|by apply (Hgen l [] [])].
  clear s Hs. induction rest as [|x rest IH]; intros pre ys s Hl Hlen Hs.
  { apply wp_ret. by rewrite app_nil_r. }
  apply wp_bind. eapply wp_mono; [by eapply Hf| |done]. cbn beta. intros y s1 Hs1.
  apply wp_bind. eapply wp_mono; [apply (IH (pre ++ [x]) (ys ++ [y])); [by rewrite <-app_assoc| |done]| |done].
  { rewrite !length_app, Hlen. done. }
  cbn beta. intros zs s2 Hs2. apply wp_ret. by rewrite <-app_assoc in Hs2.
Qed.
Lemma wp_fold {S A B} (f : B → A → SM S B) (I : B → S → Prop) (E : S → Prop) l b s :
  I b s → (∀ b x s, x ∈ l → I b s → wp (f b x) I E s) → wp (sm_fold f l b) I E s.
Proof.
  intros Hs Hf. revert b s Hs. induction l as [|x l IH]; intros b s Hs; [done|].
  apply wp_bind. eapply wp_mono; [by apply Hf; [left|]| |done].
  cbn beta. intros b' s' Hs'. apply IH; [|done]. intros b1 y s1 Hy. apply Hf. by right.
Qed.

(** One step through a method's body. *)
Ltac wp_step :=
  lazymatch goal with
  | |- wp (sm_bind _ _) _ _ _ => apply wp_bind
  | |- wp (sm_ret _) _ _ _ => apply wp_ret
  | |- wp (sm_err _) _ _ _ => apply wp_err
  | |- wp sm_get _ _ _ => apply wp_get
  | |- wp (sm_put _) _ _ _ => apply wp_put
  | |- wp (sm_lift _) _ _ _ => apply wp_lift; [intros ? ?|intros _]
  | |- wp (if _ then _ else _) _ _ _ => apply wp_if; intros ?
  | |- wp (sm_catch _ _) _ _ _ => apply wp_catch
  | |- wp (sm_zoom _ _ _) _ _ _ => apply wp_zoom
  end.
