(* ===== verification/Bytes.v ===== *)
(** * Machine bytes, fixed arrays and fixed-width integers

    Bytes are [Byte.byte]; [\[u8; n\]] is the record [array n]; [u64] is a number below
    [2^64] by construction, with the checked and saturating operations the source uses.
    Big-endian conversions ([to_be_bytes], [from_be_bytes]) and UTF-8 validity close
    the file. *)
From S2P Require Export Prelude.
From Stdlib Require Import Lia ZifyN ZifyNat.

Open Scope N_scope.

(** ** Bytes *)


Definition byte_N (b : byte) : N := Byte.to_N b.

(** [n as u8]: truncation to the low eight bits. *)
Definition byte_of_N (n : N) : byte := default Byte.x00 (Byte.of_N (n mod 256)).

Lemma byte_N_bound b : byte_N b < 256.
Proof. pose proof (Byte.to_N_bounded b). unfold byte_N. lia. Qed.

Lemma byte_N_inj b1 b2 : byte_N b1 = byte_N b2 → b1 = b2.
Proof.
  unfold byte_N. intros H. apply (f_equal Byte.of_N) in H.
  rewrite !Byte.of_to_N in H. congruence.
Qed.

Lemma byte_N_of_N n : byte_N (byte_of_N n) = n mod 256.
Proof.
  unfold byte_of_N, byte_N.
  destruct (Byte.of_N (n mod 256)) as [b|] eqn:E; simpl.
  - by apply Byte.to_of_N.
  - apply Byte.of_N_None_iff in E. pose proof (N.mod_upper_bound n 256). lia.
Qed.

Lemma byte_of_N_small n : n < 256 → byte_N (byte_of_N n) = n.
Proof. intros. rewrite byte_N_of_N. by apply N.mod_small. Qed.

Lemma byte_of_N_byte_N b : byte_of_N (byte_N b) = b.
Proof. apply byte_N_inj. apply byte_of_N_small, byte_N_bound. Qed.

#[export] Program Instance byte_countable : Countable byte :=
  inj_countable' byte_N byte_of_N _.
Next Obligation. intros b. apply byte_of_N_byte_N. Qed.

(** [u8::from(flag)]. *)
Definition byte_of_bool (b : bool) : byte := if b then Byte.x01 else Byte.x00.

(** Lengths, as the [usize] a [len()] call returns. *)
Definition lenN {A} (l : list A) : N := N.of_nat (length l).

Lemma lenN_app {A} (l1 l2 : list A) : lenN (l1 ++ l2) = lenN l1 + lenN l2.
Proof. unfold lenN. rewrite length_app. lia. Qed.

Lemma lenN_nil {A} : lenN (@nil A) = 0.
Proof. done. Qed.

Lemma lenN_cons {A} (x : A) l : lenN (x :: l) = lenN l + 1.
Proof. unfold lenN. simpl. lia. Qed.

(** ** Fixed-width unsigned integers *)

Definition u64_limit : N := 18446744073709551616.
Definition u32_limit : N := 4294967296.

Record u64 := U64 { u64_N :> N; u64_ok : Is_true (u64_N <? u64_limit) }.

Lemma Is_true_irrel (b : bool) (p q : Is_true b) : p = q.
Proof. destruct b; [by destruct p, q | destruct p]. Qed.

Lemma u64_eq (a b : u64) : u64_N a = u64_N b → a = b.
Proof.
  destruct a as [a pa], b as [b pb]; simpl; intros <-.
  f_equal; apply Is_true_irrel.
Qed.

Lemma u64_bound (a : u64) : u64_N a < u64_limit.
Proof. destruct a as [a pa]; simpl. apply Is_true_true, N.ltb_lt in pa. done. Qed.

(** Decides a boolean's truth with [I] as the evidence, so that checked values compute to
    normal forms. *)
Definition is_true_dec (b : bool) : {Is_true b} + {¬ Is_true b} :=
  match b with
  | true => left I
  | false => right (λ f, f)
  end.

(** [u64::try_from], and the check behind every [checked_*] operation. *)
Definition u64_of_N (n : N) : option u64 :=
  match is_true_dec (n <? u64_limit) with
  | left p => Some (U64 n p)
  | right _ => None
  end.

Lemma u64_of_N_Some n a : u64_of_N n = Some a ↔ u64_N a = n.
Proof.
  unfold u64_of_N. destruct (is_true_dec _) as [p|p]; split.
  - by intros [= <-].
  - intros <-. f_equal. by apply u64_eq.
  - done.
  - intros <-. destruct (p (u64_ok a)).
Qed.

Lemma u64_of_N_is_Some n : n < u64_limit → ∃ a, u64_of_N n = Some a ∧ u64_N a = n.
Proof.
  intros Hn. unfold u64_of_N. destruct (is_true_dec _) as [p|p]; [by eexists|].
  destruct p. by apply Is_true_true, N.ltb_lt.
Qed.

Lemma u64_of_N_None n : u64_of_N n = None ↔ u64_limit <= n.
Proof.
  split.
  - intros H. destruct (N.lt_ge_cases n u64_limit) as [Hn|]; [|done].
    destruct (u64_of_N_is_Some n Hn) as (?&?&_). congruence.
  - intros Hn. destruct (u64_of_N n) as [a|] eqn:E; [|done].
    apply u64_of_N_Some in E. pose proof (u64_bound a). lia.
Qed.

Lemma u64_of_N_u64_N (a : u64) : u64_of_N a = Some a.
Proof. by apply u64_of_N_Some. Qed.

(** Literals: [u64! 7]. *)
Notation "'u64!' n" := (U64 n I) (at level 9, n at level 0, only parsing) : qfs_scope.

Definition u64_zero : u64 := u64! 0.

#[export] Instance u64_eq_dec : EqDecision u64.
Proof.
  intros a b. destruct (decide (u64_N a = u64_N b)) as [H|H].
  - left. by apply u64_eq.
  - right. by intros ->.
Defined.

#[export] Program Instance u64_countable : Countable u64 :=
  inj_countable u64_N u64_of_N _.
Next Obligation. apply u64_of_N_u64_N. Qed.

Definition u64_checked_add (a : u64) (n : N) : option u64 := u64_of_N (a + n).

Definition u64_checked_sub (a : u64) (n : N) : option u64 :=
  if n <=? a then u64_of_N (a - n) else None.

(** Truncated subtraction never overflows. *)
Definition u64_saturating_sub (a b : u64) : u64 := default u64_zero (u64_of_N (a - b)).

Definition u64_max (a b : u64) : u64 := if a <=? b then b else a.

Lemma u64_checked_sub_Some (a : u64) n b :
  u64_checked_sub a n = Some b ↔ n <= u64_N a ∧ u64_N b = u64_N a - n.
Proof.
  unfold u64_checked_sub. destruct (N.leb_spec n (u64_N a)); [rewrite u64_of_N_Some; tauto|].
  split; [done|lia].
Qed.

Lemma u64_checked_add_Some (a : u64) n b :
  u64_checked_add a n = Some b ↔ u64_N b = a + n.
Proof. apply u64_of_N_Some. Qed.

Lemma u64_max_N (a b : u64) : u64_N (u64_max a b) = N.max a b.
Proof. unfold u64_max. destruct (N.leb_spec a b); lia. Qed.

Lemma u64_saturating_sub_N (a b : u64) : u64_N (u64_saturating_sub a b) = a - b.
Proof.
  unfold u64_saturating_sub. pose proof (u64_bound a).
  destruct (u64_of_N_is_Some (a - b)) as (c & -> & Hc); [lia|done].
Qed.

(** ** Fixed-length arrays *)

Record array (n : nat) :=
  Array { array_bytes :> bytes; array_ok : Is_true (length array_bytes =? n)%nat }.
Arguments Array {n} array_bytes array_ok.
Arguments array_bytes {n} a : rename.
Arguments array_ok {n} a : rename.

Lemma array_eq {n} (a b : array n) : array_bytes a = array_bytes b → a = b.
Proof.
  destruct a as [a pa], b as [b pb]; simpl; intros <-.
  f_equal; apply Is_true_irrel.
Qed.

Lemma length_array {n} (a : array n) : length a = n.
Proof. destruct a as [a pa]; simpl. by apply Is_true_true, Nat.eqb_eq in pa. Qed.

#[export] Instance array_eq_dec n : EqDecision (array n).
Proof.
  intros a b. destruct (decide (array_bytes a = array_bytes b)) as [H|H].
  - left. by apply array_eq.
  - right. by intros ->.
Defined.

(** [<\[u8; n\]>::try_from(slice)]. *)
Definition array_of_bytes (n : nat) (l : bytes) : option (array n) :=
  match is_true_dec (length l =? n)%nat with
  | left p => Some (Array l p)
  | right _ => None
  end.

Lemma array_of_bytes_Some n l (a : array n) :
  array_of_bytes n l = Some a ↔ array_bytes a = l.
Proof.
  unfold array_of_bytes. destruct (is_true_dec _) as [p|p]; split.
  - by intros [= <-].
  - intros <-. f_equal. by apply array_eq.
  - done.
  - intros <-. destruct (p (array_ok a)).
Qed.

Lemma array_of_bytes_is_Some n l :
  length l = n → ∃ a, array_of_bytes n l = Some a ∧ array_bytes a = l.
Proof.
  intros Hn. unfold array_of_bytes. destruct (is_true_dec _) as [p|p]; [by eexists|].
  destruct p. by apply Is_true_true, Nat.eqb_eq.
Qed.

Lemma array_of_bytes_array {n} (a : array n) : array_of_bytes n a = Some a.
Proof. by apply array_of_bytes_Some. Qed.

(** [\[b; n\]]. *)
Fixpoint array_fill_ok (n : nat) (b : byte) : Is_true (length (replicate n b) =? n)%nat :=
  match n with
  | O => I
  | S n => array_fill_ok n b
  end.

Definition array_fill (n : nat) (b : byte) : array n := Array (replicate n b) (array_fill_ok n b).

(** ** Big-endian conversions *)

(** [n.to_be_bytes()] for a [k]-byte integer: most significant byte first. *)
Fixpoint be_bytes (k : nat) (n : N) : bytes :=
  match k with
  | O => []
  | S k' => byte_of_N (N.shiftr n (8 * N.of_nat k')) :: be_bytes k' n
  end.

(** [from_be_bytes]. *)
Definition be_val (l : bytes) : N := foldl (λ acc b, acc * 256 + byte_N b) 0 l.

Lemma length_be_bytes k n : length (be_bytes k n) = k.
Proof. induction k; simpl; congruence. Qed.

Lemma be_val_go l acc :
  foldl (λ acc b, acc * 256 + byte_N b) acc l = acc * 256 ^ lenN l + be_val l.
Proof.
  unfold be_val. revert acc. induction l as [|b l IH]; intros acc.
  - rewrite (@lenN_nil byte). simpl. lia.
  - simpl foldl. rewrite IH, (IH (0 * 256 + byte_N b)), lenN_cons, N.add_1_r, N.pow_succ_r'. lia.
Qed.

Lemma be_val_cons b l : be_val (b :: l) = byte_N b * 256 ^ lenN l + be_val l.
Proof. unfold be_val at 1. simpl. rewrite be_val_go. lia. Qed.

Lemma be_val_bound l : be_val l < 256 ^ lenN l.
Proof.
  induction l as [|b l IH]; [rewrite (@lenN_nil byte); done|].
  rewrite be_val_cons, lenN_cons, N.add_1_r, N.pow_succ_r'.
  pose proof (byte_N_bound b). nia.
Qed.

Lemma lenN_be_bytes k n : lenN (be_bytes k n) = N.of_nat k.
Proof. unfold lenN. by rewrite length_be_bytes. Qed.

Lemma be_val_be_bytes_mod k n : be_val (be_bytes k n) = n mod 256 ^ N.of_nat k.
Proof.
  induction k as [|k IH]; [by rewrite N.mod_1_r|].
  simpl be_bytes. rewrite be_val_cons, IH, lenN_be_bytes, byte_N_of_N.
  rewrite N.shiftr_div_pow2, N.pow_mul_r. change (2 ^ 8) with 256.
  replace (N.of_nat (S k)) with (N.of_nat k + 1) by lia.
  rewrite N.pow_add_r, N.pow_1_r, N.Div0.mod_mul_r. lia.
Qed.

Lemma be_val_be_bytes k n : n < 256 ^ N.of_nat k → be_val (be_bytes k n) = n.
Proof. intros. rewrite be_val_be_bytes_mod. by apply N.mod_small. Qed.

Lemma be_val_inj l1 l2 : length l1 = length l2 → be_val l1 = be_val l2 → l1 = l2.
Proof.
  revert l2. induction l1 as [|b1 l1 IH]; intros [|b2 l2]; simpl; try done.
  intros [= Hl]. rewrite !be_val_cons. unfold lenN. rewrite Hl.
  pose proof (be_val_bound l1) as H1. pose proof (be_val_bound l2) as H2.
  unfold lenN in H1, H2. rewrite Hl in H1. intros H.
  assert (byte_N b1 = byte_N b2) by nia.
  f_equal; [by apply byte_N_inj|]. apply IH; [done|]. nia.
Qed.

Lemma be_bytes_be_val l : be_bytes (length l) (be_val l) = l.
Proof.
  apply be_val_inj; [apply length_be_bytes|].
  apply be_val_be_bytes. apply be_val_bound.
Qed.

Lemma be_bytes_inj k n1 n2 :
  n1 < 256 ^ N.of_nat k → n2 < 256 ^ N.of_nat k →
  be_bytes k n1 = be_bytes k n2 → n1 = n2.
Proof.
  intros H1 H2 H. apply (f_equal be_val) in H. by rewrite !be_val_be_bytes in H.
Qed.

(** Arrays are keys of maps: encoded by their value, so that small ids stay small. *)
#[export] Program Instance array_countable n : Countable (array n) :=
  inj_countable (λ a, be_val (array_bytes a)) (λ v, array_of_bytes n (be_bytes n v)) _.
Next Obligation.
  intros n a. apply array_of_bytes_Some.
  pose proof (be_bytes_be_val (array_bytes a)) as H. by rewrite length_array in H.
Qed.

(** The array holding a number, big-endian: ids for examples. *)
Definition array_N (n : nat) (v : N) : array n :=
  default (array_fill n Byte.x00) (array_of_bytes n (be_bytes n v)).

(** [u64::to_be_bytes] and [u64::from_be_bytes]. *)
Definition u64_to_be (a : u64) : bytes := be_bytes 8 a.
Definition u64_from_be (a : array 8) : u64 := default u64_zero (u64_of_N (be_val a)).

Lemma length_u64_to_be a : length (u64_to_be a) = 8%nat.
Proof. apply length_be_bytes. Qed.

Lemma u64_from_be_N (a : array 8) : u64_N (u64_from_be a) = be_val a.
Proof.
  unfold u64_from_be. destruct (u64_of_N_is_Some (be_val a)) as (c & -> & ?); [|done].
  pose proof (be_val_bound a). unfold lenN in *. by rewrite length_array in *.
Qed.

Lemma be_val_u64_to_be a : be_val (u64_to_be a) = u64_N a.
Proof. apply be_val_be_bytes, u64_bound. Qed.

Lemma u64_to_be_from_be (a : array 8) : u64_to_be (u64_from_be a) = a.
Proof.
  unfold u64_to_be. rewrite u64_from_be_N.
  rewrite <-(length_array a) at 1. apply be_bytes_be_val.
Qed.

Lemma u64_to_be_inj a b : u64_to_be a = u64_to_be b → a = b.
Proof.
  intros H. apply u64_eq. apply (f_equal be_val) in H. by rewrite !be_val_u64_to_be in H.
Qed.

#[global] Arguments be_bytes : simpl never.
#[global] Arguments u64_to_be : simpl never.
#[global] Arguments lenN : simpl never.
#[global] Arguments byte_N : simpl never.
#[global] Arguments byte_of_bool : simpl never.

(** ** UTF-8

    A Rust [String] is a byte sequence accepted by [str::from_utf8]; this is the standard
    table of well-formed byte sequences. *)

Definition in_range (lo hi : N) (b : byte) : bool := (lo <=? byte_N b) && (byte_N b <=? hi).

(** The ranges the bytes after a leading byte must fall in. *)
Definition utf8_ranges (a : byte) : option (list (N * N)) :=
  let cont := (128, 191) in
  if byte_N a <? 128 then Some []
  else if in_range 194 223 a then Some [cont]
  else if byte_N a =? 224 then Some [(160, 191); cont]
  else if byte_N a =? 237 then Some [(128, 159); cont]
  else if in_range 225 239 a then Some [cont; cont]
  else if byte_N a =? 240 then Some [(144, 191); cont; cont]
  else if byte_N a =? 244 then Some [(128, 143); cont; cont]
  else if in_range 241 243 a then Some [cont; cont; cont]
  else None.

Fixpoint utf8_from (expected : list (N * N)) (l : bytes) : bool :=
  match l with
  | [] => match expected with [] => true | _ => false end
  | b :: l =>
      match expected with
      | (lo, hi) :: expected => in_range lo hi b && utf8_from expected l
      | [] => match utf8_ranges b with
              | Some expected => utf8_from expected l
              | None => false
              end
      end
  end.

(** [str::from_utf8] accepts the bytes. *)
Definition utf8_valid (l : bytes) : bool := utf8_from [] l.

(** Well-formed sequences concatenate. *)
Lemma utf8_valid_app a b :
  utf8_valid a = true → utf8_valid b = true → utf8_valid (a ++ b) = true.
Proof.
  unfold utf8_valid. intros Ha Hb. revert Ha. generalize (@nil (N * N)) at 1 2 as e.
  induction a as [|x a IH]; intros e; simpl.
  - by destruct e.
  - destruct e as [|[lo hi] e].
    + destruct (utf8_ranges x); [apply IH|done].
    + rewrite !andb_true_iff. intros [? ?]. split; [done|by apply IH].
Qed.

(** [String]: bytes known to be UTF-8. *)
Record text := Text { text_bytes :> bytes; text_ok : Is_true (utf8_valid text_bytes) }.

Lemma text_eq (a b : text) : text_bytes a = text_bytes b → a = b.
Proof.
  destruct a as [a pa], b as [b pb]; simpl; intros <-.
  f_equal; apply Is_true_irrel.
Qed.

#[export] Instance text_eq_dec : EqDecision text.
Proof.
  intros a b. destruct (decide (text_bytes a = text_bytes b)) as [H|H].
  - left. by apply text_eq.
  - right. by intros ->.
Defined.

(** [String::from_utf8]. *)
Definition text_of_bytes (l : bytes) : option text :=
  match is_true_dec (utf8_valid l) with
  | left p => Some (Text l p)
  | right _ => None
  end.

Lemma text_of_bytes_Some l (a : text) : text_of_bytes l = Some a ↔ text_bytes a = l.
Proof.
  unfold text_of_bytes. destruct (is_true_dec _) as [p|p]; split.
  - by intros [= <-].
  - intros <-. f_equal. by apply text_eq.
  - done.
  - intros <-. destruct (p (text_ok a)).
Qed.

Lemma text_of_bytes_text (a : text) : text_of_bytes a = Some a.
Proof. by apply text_of_bytes_Some. Qed.

#[export] Program Instance text_countable : Countable text :=
  inj_countable text_bytes text_of_bytes _.
Next Obligation. apply text_of_bytes_text. Qed.

(** ASCII literals as bytes: [b"..."]. *)
Definition bstr (s : string) : bytes := String.list_byte_of_string s.

(** [str::trim().is_empty()]: nothing but whitespace.  Only the one-byte whitespace
    characters are recognised here; see [blank_text] for the full table. *)
Definition is_ascii_space (b : byte) : bool :=
  (byte_N b =? 32) || in_range 9 13 b.

(** Strings consisting of Unicode [White_Space] characters only, as UTF-8: U+0009-000D,
    U+0020, U+0085, U+00A0, U+1680, U+2000-200A, U+2028, U+2029, U+202F, U+205F, U+3000. *)
Fixpoint blank_text (l : bytes) : bool :=
  match l with
  | [] => true
  | a :: l1 =>
      if is_ascii_space a then blank_text l1 else
      match l1 with
      | b :: l2 =>
          if (byte_N a =? 194) && ((byte_N b =? 133) || (byte_N b =? 160)) then blank_text l2
          else
          match l2 with
          | c :: l3 =>
              (if byte_N a =? 225 then (byte_N b =? 154) && (byte_N c =? 128)
               else if byte_N a =? 226 then
                 ((byte_N b =? 128)
                  && (in_range 128 138 c || in_range 168 169 c || (byte_N c =? 175)))
                 || ((byte_N b =? 129) && (byte_N c =? 159))
               else (byte_N a =? 227) && (byte_N b =? 128) && (byte_N c =? 128))
              && blank_text l3
          | [] => false
          end
      | [] => false
      end
  end.

(** ** File writes

    What became of one [atomic_private_write]: it may fail after the rename, when the new
    bytes are already in place. *)
Inductive WriteOutcome :=
  | Written
  | WriteFailed (error : Error) (renamed : bool).

(** The size check, then the write over the [old] content. *)
Definition atomic_write (maximum : N) (too_large : string) (io : WriteOutcome)
    (old : option bytes) (content : bytes) : Result unit * option bytes :=
  if maximum <? lenN content then (Err (InvalidInput too_large), old)
  else
    match io with
    | Written => (Ok tt, Some content)
    | WriteFailed e renamed => (Err e, if renamed then Some content else old)
    end.
