(* ===== verification/Ordered.v ===== *)
(** * Orders and ordered collections

    [Ord] is the derived ordering of the source's types ([#\[derive(PartialOrd, Ord)\]]):
    numeric on integers, lexicographic on arrays, strings and tuples.  A [BTreeMap] is a
    [gmap] and a [BTreeSet] a [gset]; what iterates over one in key order goes through
    [sorted_entries] and [sorted_elements], whose strictly increasing keys determine the
    collection. *)
From S2P Require Export Bytes.
From Stdlib Require Import Lia ZifyN ZifyNat.

Open Scope N_scope.

(** ** The order class *)

Class Ord (A : Type) := ltb : A → A → bool.

Class OrdLaws (A : Type) `{Ord A} := {
  ltb_irrefl (a : A) : ltb a a = false;
  ltb_trans (a b c : A) : ltb a b = true → ltb b c = true → ltb a c = true;
  ltb_antisym (a b : A) : ltb a b = false → ltb b a = false → a = b;
}.

Infix "<?o" := ltb (at level 70) : qfs_scope.

(** [a >= b]. *)
Definition geb `{Ord A} (a b : A) : bool := negb (ltb a b).

Definition key_lt `{Ord A} (a b : A) : Prop := ltb a b = true.

Section laws.
Context `{OrdLaws A}.

Lemma ltb_asym (a b : A) : ltb a b = true → ltb b a = false.
Proof.
  intros H1. destruct (ltb b a) eqn:H2; [|done].
  pose proof (ltb_trans _ _ _ H1 H2) as H3. by rewrite ltb_irrefl in H3.
Qed.

Lemma ltb_total (a b : A) : ltb a b = true ∨ a = b ∨ ltb b a = true.
Proof.
  destruct (ltb a b) eqn:?; [by left|]. destruct (ltb b a) eqn:?; [by auto|].
  right; left. by apply ltb_antisym.
Qed.

Lemma geb_false (a b : A) : geb a b = false ↔ key_lt a b.
Proof. unfold geb, key_lt. by rewrite negb_false_iff. Qed.

#[export] Instance key_lt_trans : Transitive (key_lt (A := A)).
Proof. intros a b c. apply ltb_trans. Qed.

Lemma key_lt_irrefl (a : A) : ¬ key_lt a a.
Proof. unfold key_lt. by rewrite ltb_irrefl. Qed.

(** [a <= b], the total order a sorted sequence is built with. *)
Definition key_le (a b : A) : Prop := ltb b a = false.

#[export] Instance key_le_dec (a b : A) : Decision (key_le a b).
Proof. unfold key_le. apply _. Defined.

#[export] Instance key_le_total : Total key_le.
Proof. intros a b. unfold key_le. destruct (ltb b a) eqn:E; [right; by apply ltb_asym|by left]. Qed.

#[export] Instance key_le_trans : Transitive key_le.
Proof.
  intros a b c. unfold key_le. intros H1 H2. destruct (ltb c a) eqn:E; [|done].
  destruct (ltb_total a b) as [?|[->|?]]; [|congruence|congruence].
  pose proof (ltb_trans c a b E ltac:(done)). congruence.
Qed.

#[export] Instance key_le_antisym : AntiSymm (=) key_le.
Proof. intros a b. unfold key_le. intros. by apply ltb_antisym. Qed.
End laws.

(** ** Instances *)

#[export] Instance N_ord : Ord N := N.ltb.
#[export] Instance N_ord_laws : OrdLaws N.
Proof.
  split; unfold ltb, N_ord; intros *.
  - apply N.ltb_irrefl.
  - rewrite !N.ltb_lt. lia.
  - rewrite !N.ltb_ge. lia.
Qed.

(** The order of a type embedded in an ordered one. *)
Lemma ord_laws_inj {A B} `{OrdLaws B} (f : A → B) `{HA : Ord A} :
  (∀ a b : A, ltb a b = ltb (f a) (f b)) → (∀ a b, f a = f b → a = b) → OrdLaws A.
Proof.
  intros Hf Hinj. split; intros *; rewrite !Hf.
  - apply ltb_irrefl.
  - apply ltb_trans.
  - intros. by apply Hinj, ltb_antisym.
Qed.

#[export] Instance byte_ord : Ord byte := λ a b, byte_N a <? byte_N b.
#[export] Instance byte_ord_laws : OrdLaws byte.
Proof. apply (ord_laws_inj byte_N); [done|apply byte_N_inj]. Qed.

#[export] Instance u64_ord : Ord u64 := λ a b, u64_N a <? u64_N b.
#[export] Instance u64_ord_laws : OrdLaws u64.
Proof. apply (ord_laws_inj u64_N); [done|apply u64_eq]. Qed.

Fixpoint list_ltb `{Ord A} (l1 l2 : list A) : bool :=
  match l1, l2 with
  | _, [] => false
  | [], _ :: _ => true
  | a :: l1, b :: l2 => ltb a b || (negb (ltb b a) && list_ltb l1 l2)
  end.

#[export] Instance list_ord `{Ord A} : Ord (list A) := list_ltb.
#[export] Instance list_ord_laws `{OrdLaws A} : OrdLaws (list A).
Proof.
  split; unfold ltb, list_ord.
  - intros l. induction l as [|a l IH]; simpl; [done|]. by rewrite ltb_irrefl, IH.
  - intros l1. induction l1 as [|a l1 IH]; intros [|b l2] [|c l3]; simpl; try done.
    rewrite !orb_true_iff, !andb_true_iff, !negb_true_iff.
    intros [?|[Hba ?]] [?|[Hcb ?]].
    + left. by apply (ltb_trans a b c).
    + destruct (ltb_total b c) as [?|[->|?]]; [left; by apply (ltb_trans a b c)|by left|congruence].
    + destruct (ltb_total a b) as [?|[->|?]]; [left; by apply (ltb_trans a b c)|by left|congruence].
    + destruct (ltb_total a b) as [?|[->|?]]; [| |congruence].
      * left. destruct (ltb_total b c) as [?|[->|?]]; [by apply (ltb_trans a b c)|done|congruence].
      * destruct (ltb_total b c) as [?|[->|?]]; [by left| |congruence].
        right. split; [apply ltb_irrefl|]. by apply (IH l2).
  - intros l1. induction l1 as [|a l1 IH]; intros [|b l2]; simpl; try done.
    rewrite !orb_false_iff, !andb_false_iff, !negb_false_iff.
    intros [Hab [?|?]] [Hba [?|?]]; try congruence.
    f_equal; [by apply ltb_antisym|by apply IH].
Qed.

#[export] Instance array_ord n : Ord (array n) :=
  λ a b, ltb (array_bytes a) (array_bytes b).
#[export] Instance array_ord_laws n : OrdLaws (array n).
Proof. apply (ord_laws_inj array_bytes); [done|apply array_eq]. Qed.

#[export] Instance text_ord : Ord text := λ a b, ltb (text_bytes a) (text_bytes b).
#[export] Instance text_ord_laws : OrdLaws text.
Proof. apply (ord_laws_inj text_bytes); [done|apply text_eq]. Qed.

#[export] Instance prod_ord `{Ord A, Ord B} : Ord (A * B) :=
  λ p q, ltb p.1 q.1 || (negb (ltb q.1 p.1) && ltb p.2 q.2).
#[export] Instance prod_ord_laws `{OrdLaws A, OrdLaws B} : OrdLaws (A * B).
Proof.
  split; unfold ltb, prod_ord.
  - intros [a b]; simpl. by rewrite !ltb_irrefl.
  - intros [a1 b1] [a2 b2] [a3 b3]; simpl.
    rewrite !orb_true_iff, !andb_true_iff, !negb_true_iff.
    destruct (ltb_total a1 a2) as [?|[->|?]], (ltb_total a2 a3) as [?|[->|?]];
      intros [?|[? ?]] [?|[? ?]]; try congruence;
      first [ left; by apply (ltb_trans a1 a2 a3)
            | left; done
            | right; split; [apply ltb_irrefl|by apply (ltb_trans b1 b2 b3)] ].
  - intros [a1 b1] [a2 b2]; simpl.
    rewrite !orb_false_iff, !andb_false_iff, !negb_false_iff.
    intros [? [?|?]] [? [?|?]]; try congruence.
    f_equal; by apply ltb_antisym.
Qed.

(** ** Strictly sorted sequences *)

(** [previous.is_some_and(|value| value >= x)]. *)
Definition prev_geb `{Ord A} (previous : option A) (x : A) : bool :=
  match previous with
  | Some value => geb value x
  | None => false
  end.

(** A sequence that passes the decoders' running order check. *)
Fixpoint sorted_from `{Ord A} (previous : option A) (l : list A) : Prop :=
  match l with
  | [] => True
  | x :: l => prev_geb previous x = false ∧ sorted_from (Some x) l
  end.

#[export] Instance sorted_from_dec `{Ord A} previous (l : list A) :
  Decision (sorted_from previous l).
Proof.
  revert previous. induction l as [|x l IH]; intros previous; simpl; [apply _|].
  destruct (prev_geb previous x); [right; by intros [? _]|].
  destruct (IH (Some x)); [left; done|right; by intros [_ ?]].
Defined.

Section sorted.
Context `{OrdLaws A}.

Lemma sorted_from_Some x (l : list A) :
  sorted_from (Some x) l ↔ StronglySorted key_lt (x :: l).
Proof.
  revert x. induction l as [|y l IH]; intros x; simpl.
  - split; [|done]. repeat constructor.
  - rewrite IH, geb_false. split.
    + intros [Hxy Hs]. constructor; [done|].
      inversion Hs as [|?? Hl HF]; subst. constructor; [done|].
      eapply Forall_impl; [exact HF|]. intros z Hz. by trans y.
    + intros Hs. inversion Hs as [|?? Hl HF]; subst. inversion HF; subst. done.
Qed.

Lemma sorted_from_None (l : list A) : sorted_from None l ↔ StronglySorted key_lt l.
Proof.
  destruct l as [|x l]; simpl; [split; [constructor|done]|].
  rewrite sorted_from_Some. naive_solver.
Qed.

Lemma StronglySorted_NoDup (l : list A) : StronglySorted key_lt l → NoDup l.
Proof.
  induction 1 as [|x l Hs IH HF]; constructor; [|done].
  intros Hx. rewrite Forall_forall in HF. by apply (key_lt_irrefl x), HF.
Qed.

Lemma StronglySorted_lt_le (l : list A) : StronglySorted key_lt l → StronglySorted key_le l.
Proof.
  induction 1 as [|x l Hs IH HF]; constructor; [done|].
  eapply Forall_impl; [exact HF|]. intros y. apply ltb_asym.
Qed.

Lemma StronglySorted_le_lt (l : list A) :
  NoDup l → StronglySorted key_le l → StronglySorted key_lt l.
Proof.
  intros Hnd Hs. induction Hs as [|x l Hs IH HF]; [constructor|].
  apply NoDup_cons in Hnd; destruct Hnd as [Hx Hnd]. constructor; [by apply IH|].
  rewrite Forall_forall in *. intros y Hy. specialize (HF y Hy).
  destruct (ltb_total x y) as [?|[->|?]]; [done| |unfold key_le in HF; congruence].
  by destruct Hx.
Qed.

Lemma sorted_permutation_unique (l1 l2 : list A) :
  StronglySorted key_lt l1 → StronglySorted key_lt l2 → l1 ≡ₚ l2 → l1 = l2.
Proof.
  intros H1%StronglySorted_lt_le H2%StronglySorted_lt_le HP.
  by apply (StronglySorted_unique key_le).
Qed.
End sorted.

(** ** Ordered iteration *)

Lemma size_list_to_set_le `{Countable K} (l : list K) :
  (size (list_to_set (C := gset K) l) ≤ length l)%nat.
Proof.
  induction l as [|x l IH]; [done|]. rewrite list_to_set_cons. simpl length.
  rewrite size_union_alt, size_singleton.
  assert (size (list_to_set (C := gset K) l ∖ {[x]}) ≤ size (list_to_set (C := gset K) l))%nat.
  { apply subseteq_size. set_solver. }
  lia.
Qed.

Section entries.
Context `{Countable K, !Ord K, !OrdLaws K}.

Definition entry_le {A} (p q : K * A) : Prop := key_le p.1 q.1.

#[export] Instance entry_le_dec {A} (p q : K * A) : Decision (entry_le p q).
Proof. unfold entry_le. apply _. Defined.

#[export] Instance entry_le_total {A} : Total (entry_le (A := A)).
Proof. intros p q. apply (total key_le). Qed.

#[export] Instance entry_le_trans {A} : Transitive (entry_le (A := A)).
Proof. intros p q r. unfold entry_le. apply (transitivity (R := key_le)). Qed.

(** The entries of a [BTreeMap], in iteration order. *)
Definition sorted_entries {A} (m : gmap K A) : list (K * A) :=
  merge_sort entry_le (map_to_list m).

(** The elements of a [BTreeSet], in iteration order. *)
Definition sorted_elements (s : gset K) : list K := merge_sort key_le (elements s).

(** [BTreeMap::first_key_value]. *)
Definition first_entry {A} (m : gmap K A) : option (K * A) := head (sorted_entries m).

Lemma sorted_entries_perm {A} (m : gmap K A) : sorted_entries m ≡ₚ map_to_list m.
Proof. apply merge_sort_Permutation. Qed.

Lemma elem_of_sorted_entries {A} (m : gmap K A) k v :
  (k, v) ∈ sorted_entries m ↔ m !! k = Some v.
Proof. by rewrite sorted_entries_perm, elem_of_map_to_list. Qed.

Lemma sorted_entries_NoDup {A} (m : gmap K A) : NoDup (sorted_entries m).*1.
Proof. rewrite sorted_entries_perm. apply NoDup_fst_map_to_list. Qed.

Lemma length_sorted_entries {A} (m : gmap K A) : length (sorted_entries m) = size m.
Proof. rewrite sorted_entries_perm. apply length_map_to_list. Qed.

Lemma list_to_map_sorted_entries {A} (m : gmap K A) : list_to_map (sorted_entries m) = m.
Proof.
  rewrite <-(list_to_map_to_list m) at 2.
  apply list_to_map_proper; [apply sorted_entries_NoDup|apply sorted_entries_perm].
Qed.

Lemma sorted_entries_sorted {A} (m : gmap K A) :
  StronglySorted key_lt (sorted_entries m).*1.
Proof.
  apply StronglySorted_le_lt; [apply sorted_entries_NoDup|].
  apply (StronglySorted_fmap fst entry_le); [done|].
  by apply (StronglySorted_merge_sort entry_le).
Qed.

Lemma sorted_keys_entries {A} (l : list (K * A)) :
  StronglySorted key_lt l.*1 → StronglySorted (λ p q, key_lt p.1 q.1) l.
Proof.
  induction l as [|p l IH]; intros Hs; [constructor|].
  inversion Hs as [|?? Hl HF]; subst. constructor; [by apply IH|].
  by rewrite Forall_fmap in HF.
Qed.

Lemma sorted_keys_unique {A} (l1 l2 : list (K * A)) :
  StronglySorted key_lt l1.*1 → StronglySorted key_lt l2.*1 → l1 ≡ₚ l2 → l1 = l2.
Proof.
  intros H1 H2 HP.
  apply (StronglySorted_unique_strong (λ p q, key_lt p.1 q.1)); [| | |done].
  - intros p q _ _ Hpq Hqp. by destruct (key_lt_irrefl p.1); trans q.1.
  - by apply sorted_keys_entries.
  - by apply sorted_keys_entries.
Qed.

Lemma sorted_entries_list_to_map {A} (l : list (K * A)) :
  StronglySorted key_lt l.*1 → sorted_entries (list_to_map l) = l.
Proof.
  intros Hl. pose proof (StronglySorted_NoDup _ Hl) as Hnd.
  apply sorted_keys_unique; [apply sorted_entries_sorted|done|].
  rewrite sorted_entries_perm. by apply map_to_list_to_map.
Qed.

Lemma sorted_entries_inj {A} (m1 m2 : gmap K A) :
  sorted_entries m1 = sorted_entries m2 → m1 = m2.
Proof.
  intros H1. by rewrite <-(list_to_map_sorted_entries m1), H1, list_to_map_sorted_entries.
Qed.

Lemma elem_of_sorted_elements (s : gset K) k : k ∈ sorted_elements s ↔ k ∈ s.
Proof. unfold sorted_elements. by rewrite merge_sort_Permutation, elem_of_elements. Qed.

Lemma sorted_elements_sorted (s : gset K) : StronglySorted key_lt (sorted_elements s).
Proof.
  apply StronglySorted_le_lt.
  - unfold sorted_elements. rewrite merge_sort_Permutation. apply NoDup_elements.
  - by apply (StronglySorted_merge_sort key_le).
Qed.

Lemma length_sorted_elements (s : gset K) : length (sorted_elements s) = size s.
Proof. unfold sorted_elements. by rewrite merge_sort_Permutation. Qed.

Lemma list_to_set_sorted_elements (s : gset K) : list_to_set (sorted_elements s) = s.
Proof. apply set_eq. intros k. by rewrite elem_of_list_to_set, elem_of_sorted_elements. Qed.

Lemma sorted_elements_list_to_set (l : list K) :
  StronglySorted key_lt l → sorted_elements (list_to_set l) = l.
Proof.
  intros Hl. apply sorted_permutation_unique; [apply sorted_elements_sorted|done|].
  unfold sorted_elements. rewrite merge_sort_Permutation.
  apply elements_list_to_set. by apply StronglySorted_NoDup.
Qed.

(** The least key comes first. *)
Lemma first_entry_Some {A} (m : gmap K A) k v :
  first_entry m = Some (k, v) ↔
  m !! k = Some v ∧ (∀ k' v', m !! k' = Some v' → k' = k ∨ key_lt k k').
Proof.
  unfold first_entry. pose proof (sorted_entries_sorted m) as Hs.
  setoid_rewrite <-elem_of_sorted_entries.
  destruct (sorted_entries m) as [|[k0 v0] l]; simpl in *.
  { split; [done|]. intros [?%not_elem_of_nil _]. done. }
  inversion Hs as [|?? _ HF]; subst. rewrite Forall_forall in HF.
  assert (Hlt : ∀ k' v', (k', v') ∈ l → key_lt k0 k').
  { intros k' v' Hin. apply HF. by apply (list_elem_of_fmap_2 fst _ (k', v')). }
  split.
  - intros [= -> ->]. split; [left|]. intros k' v' [[= -> ->]|Hin]%elem_of_cons; [by left|].
    right. by apply (Hlt k' v').
  - intros [[[= -> ->]|Hin]%elem_of_cons Hall]; [done|].
    destruct (Hall k0 v0) as [->|Hk]; [left| |].
    + by destruct (key_lt_irrefl k); apply (Hlt k v).
    + destruct (key_lt_irrefl k0). trans k; [by apply (Hlt k v)|done].
Qed.

Lemma first_entry_None {A} (m : gmap K A) : first_entry m = None ↔ m = ∅.
Proof.
  unfold first_entry. rewrite <-map_to_list_empty_iff, <-length_zero_iff_nil.
  rewrite <-(sorted_entries_perm m), length_zero_iff_nil.
  by destruct (sorted_entries m).
Qed.
End entries.

(** [map.values()] in key order, and [map.len()]. *)
Definition map_values {K V} `{Countable K, !Ord K, !OrdLaws K} (m : gmap K V) : list V :=
  snd <$> sorted_entries m.
Definition map_len {K V} `{Countable K} (m : gmap K V) : N := N.of_nat (size m).

Lemma sorted_entries_len {K V} `{Countable K, !Ord K, !OrdLaws K} (m : gmap K V) :
  lenN (sorted_entries m) = map_len m.
Proof. unfold lenN, map_len. by rewrite length_sorted_entries. Qed.

Lemma elem_of_map_values {K V} `{Countable K, !Ord K, !OrdLaws K} (m : gmap K V) v :
  v ∈ map_values m ↔ ∃ k, m !! k = Some v.
Proof.
  unfold map_values. rewrite list_elem_of_fmap. split.
  - intros ([k v'] & -> & Hin%elem_of_sorted_entries). eauto.
  - intros [k Hk]. exists (k, v). split; [done|]. by apply elem_of_sorted_entries.
Qed.

Lemma map_values_perm {K V} `{Countable K, !Ord K, !OrdLaws K} (m : gmap K V) :
  map_values m ≡ₚ (map_to_list m).*2.
Proof. unfold map_values. by rewrite sorted_entries_perm. Qed.

Lemma map_len_mono {K V} `{Countable K} (m m' : gmap K V) : m ⊆ m' → map_len m <= map_len m'.
Proof. intros Hm. unfold map_len. apply map_subseteq_size in Hm. lia. Qed.

Lemma map_len_insert {K V} `{Countable K} (m : gmap K V) k v :
  map_len (<[k := v]> m) = if bool_decide (m !! k = None) then map_len m + 1 else map_len m.
Proof.
  unfold map_len. rewrite map_size_insert. destruct (m !! k); case_bool_decide; try done; lia.
Qed.
