(* ===== verification/Types.v ===== *)
(** * Shared data types

    The identifiers of [ids.rs] and [net/mod.rs] and the plain records and enums that the
    wire codec, the stores and the network components exchange, field by field as the
    source declares them.  Field names carry a short prefix where two records share one. *)
From S2P Require Export Ordered.

Open Scope N_scope.

(** ** 32-bit counters *)

Record u32 := U32 { u32_N :> N; u32_ok : Is_true (u32_N <? u32_limit) }.

Lemma u32_eq (a b : u32) : u32_N a = u32_N b → a = b.
Proof.
  destruct a as [a pa], b as [b pb]; simpl; intros <-.
  f_equal; apply Is_true_irrel.
Qed.

Lemma u32_bound (a : u32) : u32_N a < u32_limit.
Proof. destruct a as [a pa]; simpl. apply Is_true_true, N.ltb_lt in pa. done. Qed.

Definition u32_of_N (n : N) : option u32 :=
  match is_true_dec (n <? u32_limit) with
  | left p => Some (U32 n p)
  | right _ => None
  end.

Lemma u32_of_N_Some n a : u32_of_N n = Some a ↔ u32_N a = n.
Proof.
  unfold u32_of_N. destruct (is_true_dec _) as [p|p]; split.
  - by intros [= <-].
  - intros <-. f_equal. by apply u32_eq.
  - done.
  - intros <-. destruct (p (u32_ok a)).
Qed.

(** ** Identifiers *)

Abbreviation PeerId := (array 32) (only parsing).
Abbreviation FileId := (array 32) (only parsing).
Abbreviation ChunkId := (array 32) (only parsing).
Abbreviation VaultId := (array 32) (only parsing).
Abbreviation JoinCode := (array 16) (only parsing).
Abbreviation Epoch := u64 (only parsing).
Abbreviation Seq := u64 (only parsing).
Abbreviation FlushChallenge := (array 32) (only parsing).

(** ** Packets ([protocol/packet.rs], [protocol/pull.rs]) *)

Definition PROTOCOL_VERSION : byte := Byte.x01.

Record PacketHeader := mkPacketHeader {
  hdr_version : byte;
  hdr_sender_id : PeerId;
  hdr_receiver_id : PeerId;
  hdr_epoch : Epoch;
  hdr_seq : Seq;
}.

Record ControlPacket := mkControlPacket {
  cp_header : PacketHeader;
  cp_ciphertext : bytes;
}.

Inductive Direction := Inbound | Outbound.
Inductive PayloadType := Packet | ChunkBody.

#[export] Instance PayloadType_eq_dec : EqDecision PayloadType.
Proof. solve_decision. Defined.
#[export] Instance Direction_eq_dec : EqDecision Direction.
Proof. solve_decision. Defined.

Record ChunkBodyFrame := mkChunkBodyFrame {
  cb_header : PacketHeader;
  cb_file_id : FileId;
  cb_index : u64;
  cb_ciphertext : bytes;
}.

(** ** Signed documents *)

(** [crypto/identity.rs] *)
Record IdentityDocument := mkIdentityDocument {
  doc_peer_id : PeerId;
  doc_ek : bytes;
  doc_vk : bytes;
  doc_created_at : u64;
  doc_signature : bytes;
}.

(** [crypto/wrap.rs] *)
Record WrapMessage := mkWrapMessage {
  wm_kem_ct : bytes;
  wm_wrap_ct : bytes;
  wm_epoch : Epoch;
  wm_min_id : PeerId;
  wm_max_id : PeerId;
  wm_signature : bytes;
}.

(** [protocol/manifest.rs] *)
Record Manifest := mkManifest {
  mf_file_id : FileId;
  mf_chunk_ids : list ChunkId;
  mf_size : u64;
  mf_writer_id : PeerId;
  mf_version : u64;
  mf_signature : bytes;
}.

(** ** The directory tree's entries ([store/tree.rs]) *)

Record Dirent := mkDirent {
  de_parent : FileId;
  de_name : text;
  de_child : FileId;
  de_is_dir : bool;
}.

(** ** Host controls and mailboxes ([sync/host.rs], [encoding.rs]) *)

Inductive ControlUpdate :=
  | NewManifest (manifest : Manifest)
  | Add (file_id : FileId)
  | Kick (peer_id : PeerId)
  | Clear (file_id : FileId)
  | Remove (file_id : FileId)
  | Link (parent : FileId) (name : text) (child : FileId) (is_dir : bool)
  | Unlink (parent : FileId) (name : text)
  | Rename (src_parent : FileId) (src_name : text) (dst_parent : FileId) (dst_name : text).

Record ControlRecord := mkControlRecord {
  cr_id : u64;
  cr_update : ControlUpdate;
}.

Inductive QueueContent :=
  | QControl (record : ControlRecord)
  | QChunk (file_id : FileId) (index : u64) (chunk_id : ChunkId).

Record MailboxEnvelope := mkMailboxEnvelope {
  env_recipient_id : PeerId;
  env_sender_id : PeerId;
  env_epoch : Epoch;
  env_seq : Seq;
  env_queued_at : u64;
  env_ciphertext : bytes;
}.

Inductive MailboxFrame :=
  | FControl (ciphertext : bytes)
  | FChunkBody (file_id : FileId) (index : u64) (ciphertext : bytes).

(** ** Vault admission ([net/join.rs]) *)

Record VaultMetadata := mkVaultMetadata {
  vm_vault_id : VaultId;
  vm_join_code : JoinCode;
  vm_issued_at : u64;
  vm_members : list PeerId;
  vm_denied : gset PeerId;
}.

Record JoinRequest := mkJoinRequest {
  jr_vault_id : VaultId;
  jr_join_code : JoinCode;
  jr_document : IdentityDocument;
  jr_signature : bytes;
}.

Record NetWelcome := mkNetWelcome {
  nw_vault_id : VaultId;
  nw_members : list IdentityDocument;
  nw_historical : list IdentityDocument;
  nw_denied : gset PeerId;
}.

Record FlushOffer := mkFlushOffer {
  fo_challenge : FlushChallenge;
  fo_frame_count : u32;
  fo_historical : list IdentityDocument;
  fo_bootstrap_through : option u64;
}.

Inductive NetControl :=
  | JoinAccepted (vault_id : VaultId) (members historical : list IdentityDocument)
      (denied : gset PeerId)
  | JoinRejected (bound requested : VaultId)
  | AdmissionDenied
  | FlushEnd (digest : array 32)
  | FlushApplied (digest : array 32)
  | Ready
  | Heartbeat
  | HeartbeatApplied (through : u64).

(** ** The durable replica snapshot ([store/replica.rs]) *)

Record ReplicaMetadata := mkReplicaMetadata {
  rm_expected_root : FileId;
  rm_dirents : list Dirent;
  rm_members : gset PeerId;
  rm_manifests : gmap FileId Manifest;
  rm_log : list ControlRecord;
  rm_next_control : u64;
  rm_mailboxes : gmap PeerId (list QueueContent);
  rm_acked_through : gmap PeerId u64;
  rm_chunk_index : gmap ChunkId (FileId * u64);
  rm_denied : gset PeerId;
  rm_admission : option VaultMetadata;
  rm_historical_members : gset PeerId;
  rm_identity_documents : gmap PeerId IdentityDocument;
  rm_bootstrap_through : gmap PeerId u64;
}.

(** ** The persisted key store ([keystore.rs]) *)

Record PersistedPair := mkPersistedPair {
  pp_peer_id : PeerId;
  pp_epoch : Epoch;
  pp_initiator : PeerId;
  pp_wrap : WrapMessage;
}.

Record PersistedKey := mkPersistedKey {
  pk_slot : u64;
  pk_peer_id : PeerId;
  pk_epoch : Epoch;
  pk_key : array 32;
}.

Record PersistedState := mkPersistedState {
  ps_local_id : PeerId;
  ps_next_slot : u64;
  ps_peers : list IdentityDocument;
  ps_pairs : list PersistedPair;
  ps_candidates : list PersistedPair;
  ps_keys : list PersistedKey;
  ps_epoch_watermarks : list (PeerId * Epoch);
}.

(** ** Decidable equality *)

#[export] Instance PacketHeader_eq_dec : EqDecision PacketHeader.
Proof. solve_decision. Defined.
#[export] Instance IdentityDocument_eq_dec : EqDecision IdentityDocument.
Proof. solve_decision. Defined.
#[export] Instance WrapMessage_eq_dec : EqDecision WrapMessage.
Proof. solve_decision. Defined.
#[export] Instance Manifest_eq_dec : EqDecision Manifest.
Proof. solve_decision. Defined.
#[export] Instance Dirent_eq_dec : EqDecision Dirent.
Proof. solve_decision. Defined.
#[export] Instance ControlUpdate_eq_dec : EqDecision ControlUpdate.
Proof. solve_decision. Defined.
#[export] Instance ControlRecord_eq_dec : EqDecision ControlRecord.
Proof. solve_decision. Defined.
#[export] Instance ControlPacket_eq_dec : EqDecision ControlPacket.
Proof. solve_decision. Defined.
#[export] Instance MailboxEnvelope_eq_dec : EqDecision MailboxEnvelope.
Proof. solve_decision. Defined.
