(* ===== verification/Tree.v ===== *)
(** * The directory tree ([store/tree.rs])

    A vault's tree is the map from (parent, name) to directory entry, with an explicit root
    entry.  The loops that walk towards the root take fuel; a tree with [n] entries never
    needs more than [n + 2] steps. *)
From S2P Require Export Types.
From Stdlib Require Import Lia ZifyN ZifyNat.

Open Scope N_scope.

Definition MAX_COMPONENT_BYTES : N := 255.
Definition MAX_PATH_BYTES : N := 4096.

(** [usize::checked_add] *)
Definition usize_add (a b : N) : option N :=
  if a + b <? u64_limit then Some (a + b) else None.

Definition text_empty : text := Text [] I.

(** ** Names and paths *)

Definition contains_byte (b : byte) (l : bytes) : bool := bool_decide (b ∈ l).

Definition is_ascii_alphabetic (b : byte) : bool := in_range 65 90 b || in_range 97 122 b.

Definition has_drive_prefix (path : bytes) : bool :=
  match path with
  | a :: b :: _ => is_ascii_alphabetic a && bool_decide (b = Byte.x3a)
  | _ => false
  end.

Definition validate_name (name : bytes) : Result unit :=
  if bool_decide (name = []) || bool_decide (name = bstr ".") || bool_decide (name = bstr "..")
  then Err (InvalidInput "invalid empty or dot path component")
  else if MAX_COMPONENT_BYTES <? lenN name
  then Err (InvalidInput "path component exceeds 255 bytes")
  else if contains_byte Byte.x2f name || contains_byte Byte.x5c name
          || contains_byte Byte.x00 name || has_drive_prefix name
  then Err (InvalidInput "path component contains a forbidden character")
  else Ok tt.

(** [str::split('/')] *)
Fixpoint split_slash (l : bytes) : list bytes :=
  match l with
  | [] => [[]]
  | b :: l =>
      if bool_decide (b = Byte.x2f) then [] :: split_slash l
      else match split_slash l with
           | c :: cs => (b :: c) :: cs
           | [] => [[b]]
           end
  end.

Fixpoint validate_names (l : list bytes) : Result unit :=
  match l with
  | [] => Ok tt
  | name :: l => let? _ := validate_name name in validate_names l
  end.

(** [path.strip_prefix('/').unwrap_or(path)] *)
Definition strip_slash (path : bytes) : bytes :=
  match path with
  | Byte.x2f :: rest => rest
  | _ => path
  end.

Definition path_components (path : text) : Result (list bytes) :=
  if MAX_PATH_BYTES <? lenN (text_bytes path)
  then Err (InvalidInput "path exceeds 4096 bytes")
  else if contains_byte Byte.x00 path || contains_byte Byte.x5c path
  then Err (InvalidInput "path contains a forbidden character")
  else
    let path := strip_slash path in
    if bool_decide (head path = Some Byte.x2f) || has_drive_prefix path
    then Err (InvalidInput "path is not vault-relative")
    else if bool_decide (path = []) then Ok []
    else
      let components := split_slash path in
      let? _ := validate_names components in
      Ok components.

(** ** The tree *)

Record DirectoryTree := mkDirectoryTree {
  tr_expected_root : FileId;
  tr_entries : gmap (FileId * text) Dirent;
}.

#[export] Instance DirectoryTree_eq_dec : EqDecision DirectoryTree.
Proof. solve_decision. Defined.

Definition root_dirent (root : FileId) : Dirent := mkDirent root text_empty root true.

Definition DirectoryTree_new (expected_root : FileId) : DirectoryTree :=
  mkDirectoryTree expected_root {[ (expected_root, text_empty) := root_dirent expected_root ]}.

Definition tree_values (t : DirectoryTree) : list Dirent := (sorted_entries (tr_entries t)).*2.

Definition dirents (t : DirectoryTree) : list Dirent := tree_values t.

Definition is_linked_file (t : DirectoryTree) (file_id : FileId) : bool :=
  existsb (λ e, bool_decide (de_child e = file_id) && negb (de_is_dir e)) (tree_values t).

Definition is_dir (t : DirectoryTree) (file_id : FileId) : bool :=
  bool_decide (file_id = tr_expected_root t)
  || existsb (λ e, bool_decide (de_child e = file_id) && de_is_dir e) (tree_values t).

(** [values().find(|entry| entry.child == id)] *)
Definition find_child (t : DirectoryTree) (id : FileId) : option Dirent :=
  List.find (λ e, bool_decide (de_child e = id)) (tree_values t).

Fixpoint path_len_loop (t : DirectoryTree) (fuel : nat) (child : FileId)
    (component_bytes component_count : N) (seen : gset FileId) : option (Result N) :=
  match fuel with
  | O => None
  | S fuel =>
      if bool_decide (child = tr_expected_root t) then
        Some (let? length :=
                ok_or (usize_add component_bytes (component_count - 1))
                  (InvalidInput "path length overflow") in
              if MAX_PATH_BYTES <? length
              then Err (InvalidInput "path exceeds 4096 bytes") else Ok length)
      else if bool_decide (child ∈ seen)
      then Some (Err (InvalidInput "directory tree contains a cycle"))
      else match find_child t child with
           | None => Some (Err (InvalidInput "directory entry is unreachable"))
           | Some entry =>
               match usize_add component_bytes (lenN (text_bytes (de_name entry))) with
               | None => Some (Err (InvalidInput "path length overflow"))
               | Some total =>
                   path_len_loop t fuel (de_parent entry) total (component_count + 1)
                     ({[child]} ∪ seen)
               end
           end
  end.

(** Fuel for a walk towards the root. *)
Definition walk_fuel (t : DirectoryTree) : nat := S (S (size (tr_entries t))).

#[global] Arguments walk_fuel : simpl never.

Definition out_of_fuel {A} : Result A := Err (State "walk out of fuel").

Definition path_len (t : DirectoryTree) (child : FileId) : Result N :=
  if bool_decide (child = tr_expected_root t) then Ok 0
  else default out_of_fuel (path_len_loop t (walk_fuel t) child 0 0 ∅).

(** The cycle check [validate_graph] runs before measuring the path. *)
Fixpoint reach_loop (t : DirectoryTree) (fuel : nat) (current : FileId)
    (seen : gset FileId) : option (Result unit) :=
  match fuel with
  | O => None
  | S fuel =>
      if bool_decide (current = tr_expected_root t) then Some (Ok tt)
      else if bool_decide (current ∈ seen)
      then Some (Err (InvalidInput "directory tree contains a cycle"))
      else match find_child t current with
           | None => Some (Err (InvalidInput "directory entry is unreachable"))
           | Some entry => reach_loop t fuel (de_parent entry) ({[current]} ∪ seen)
           end
  end.

Definition validate_entry (t : DirectoryTree) (entry : Dirent) : Result unit :=
  if negb (is_dir t (de_parent entry))
  then Err (InvalidInput "dirent parent is not a directory")
  else
    let? _ := default out_of_fuel (reach_loop t (walk_fuel t) (de_child entry) ∅) in
    let? _ := path_len t (de_child entry) in
    Ok tt.

Fixpoint validate_entries (t : DirectoryTree) (l : list Dirent) : Result unit :=
  match l with
  | [] => Ok tt
  | entry :: l =>
      let? _ := (if bool_decide (text_bytes (de_name entry) = []) then Ok tt
                 else validate_entry t entry) in
      validate_entries t l
  end.

Definition validate_graph (t : DirectoryTree) : Result unit :=
  validate_entries t (tree_values t).

(** One pass of [from_dirents]: the running key, the children seen, the map built. *)
Fixpoint from_dirents_loop (root : FileId) (l : list Dirent)
    (previous : option (FileId * text)) (children : gset FileId)
    (entries : gmap (FileId * text) Dirent) : Result (gmap (FileId * text) Dirent) :=
  match l with
  | [] => Ok entries
  | entry :: l =>
      let key := (de_parent entry, de_name entry) in
      if prev_geb previous key
      then Err (InvalidInput "dirents are not canonically ordered")
      else if bool_decide (text_bytes (de_name entry) = []) then
        if negb (bool_decide (de_parent entry = root))
           || negb (bool_decide (de_child entry = root)) || negb (de_is_dir entry)
        then Err (InvalidInput "invalid root dirent")
        else from_dirents_loop root l (Some key) children (<[key := entry]> entries)
      else
        let? _ := validate_name (de_name entry) in
        if bool_decide (de_child entry = root) || bool_decide (de_child entry ∈ children)
        then Err (InvalidInput "file id has multiple directory links")
        else from_dirents_loop root l (Some key) ({[de_child entry]} ∪ children)
               (<[key := entry]> entries)
  end.

Definition from_dirents (expected_root : FileId) (l : list Dirent) : Result DirectoryTree :=
  if bool_decide (l = []) then Ok (DirectoryTree_new expected_root) else
  let? entries := from_dirents_loop expected_root l None ∅ ∅ in
  match entries !! (expected_root, text_empty) with
  | None => Err (InvalidInput "missing root dirent")
  | Some _ =>
      let tree := mkDirectoryTree expected_root entries in
      let? _ := validate_graph tree in
      Ok tree
  end.

(** ** Lookups *)

(** [entries.get(&(current, component.to_owned()))] *)
Definition tree_get (t : DirectoryTree) (parent : FileId) (name : bytes) : option Dirent :=
  match text_of_bytes name with
  | Some n => tr_entries t !! (parent, n)
  | None => None
  end.

Fixpoint resolve_from (t : DirectoryTree) (current : FileId) (components : list bytes)
    : Result FileId :=
  match components with
  | [] => Ok current
  | component :: rest =>
      match tree_get t current component with
      | None => Err (State "path does not exist")
      | Some entry => resolve_from t (de_child entry) rest
      end
  end.

Definition resolve (t : DirectoryTree) (path : text) : Result FileId :=
  let? components := path_components path in
  resolve_from t (tr_expected_root t) components.

Fixpoint resolve_parents (t : DirectoryTree) (parent : FileId) (components : list bytes)
    : Result FileId :=
  match components with
  | [] => Ok parent
  | component :: rest =>
      match tree_get t parent component with
      | None => Err (State "parent path does not exist")
      | Some entry =>
          if negb (de_is_dir entry) then Err (State "path parent is not a directory")
          else resolve_parents t (de_child entry) rest
      end
  end.

(** [split_last] *)
Fixpoint split_last {A} (l : list A) : option (A * list A) :=
  match l with
  | [] => None
  | x :: l =>
      match split_last l with
      | None => Some (x, [])
      | Some (y, init) => Some (y, x :: init)
      end
  end.

Definition resolve_parent (t : DirectoryTree) (path : text) : Result (FileId * bytes) :=
  let? components := path_components path in
  match split_last components with
  | None => Err (InvalidInput "root has no parent")
  | Some (name, parents) =>
      let? parent := resolve_parents t (tr_expected_root t) parents in
      Ok (parent, name)
  end.

(** ** Updates *)

Definition link (t : DirectoryTree) (parent : FileId) (name : text) (child : FileId)
    (is_directory : bool) : Result DirectoryTree :=
  let? _ := validate_name name in
  if negb (is_dir t parent) then Err (State "link parent is not a directory")
  else if bool_decide (child = tr_expected_root t)
          || existsb (λ e, bool_decide (de_child e = child)) (tree_values t)
  then Err (State "file id is already linked")
  else
    let key := (parent, name) in
    match tr_entries t !! key with
    | Some _ => Err (State "directory name already exists")
    | None =>
        let? parent_len := path_len t parent in
        let separator := if bool_decide (parent = tr_expected_root t) then 0 else 1 in
        match (usize_add parent_len separator
                 ≫= λ length, usize_add length (lenN (text_bytes name))) with
        | Some length =>
            if MAX_PATH_BYTES <? length then Err (InvalidInput "path exceeds 4096 bytes")
            else Ok (mkDirectoryTree (tr_expected_root t)
                       (<[key := mkDirent parent name child is_directory]> (tr_entries t)))
        | None => Err (InvalidInput "path exceeds 4096 bytes")
        end
    end.

Definition unlink (t : DirectoryTree) (parent : FileId) (name : text)
    : Result (DirectoryTree * FileId) :=
  let? _ := validate_name name in
  let key := (parent, name) in
  match tr_entries t !! key with
  | None => Err (State "directory entry does not exist")
  | Some entry =>
      if de_is_dir entry
         && existsb (λ child, bool_decide (de_parent child = de_child entry)) (tree_values t)
      then Err (State "directory is not empty")
      else Ok (mkDirectoryTree (tr_expected_root t) (delete key (tr_entries t)),
               de_child entry)
  end.

(** [while candidate != root]: no [seen] set guards this loop. *)
Fixpoint is_descendant_loop (t : DirectoryTree) (fuel : nat) (candidate ancestor : FileId)
    : option bool :=
  match fuel with
  | O => None
  | S fuel =>
      if bool_decide (candidate = tr_expected_root t) then Some false
      else if bool_decide (candidate = ancestor) then Some true
      else match find_child t candidate with
           | None => Some false
           | Some entry => is_descendant_loop t fuel (de_parent entry) ancestor
           end
  end.

Definition is_descendant (t : DirectoryTree) (candidate ancestor : FileId) : option bool :=
  is_descendant_loop t (walk_fuel t) candidate ancestor.

Definition rename (t : DirectoryTree) (src_parent : FileId) (src_name : text)
    (dst_parent : FileId) (dst_name : text) : Result DirectoryTree :=
  let? _ := validate_name src_name in
  let? _ := validate_name dst_name in
  if negb (is_dir t dst_parent) then Err (State "rename destination is not a directory")
  else
    let source_key := (src_parent, src_name) in
    let destination_key := (dst_parent, dst_name) in
    if bool_decide (source_key = destination_key) then
      match tr_entries t !! source_key with
      | Some _ => Ok t
      | None => Err (State "rename source does not exist")
      end
    else
      match tr_entries t !! destination_key with
      | Some _ => Err (State "rename destination already exists")
      | None =>
          match tr_entries t !! source_key with
          | None => Err (State "rename source does not exist")
          | Some entry =>
              if bool_decide (text_bytes (de_name entry) = [])
              then Err (InvalidInput "cannot rename the vault root")
              else
                let? below :=
                  ok_or (if de_is_dir entry then is_descendant t dst_parent (de_child entry)
                         else Some false)
                    (State "walk out of fuel") in
                if below : bool
                then Err (State "cannot move a directory into its descendant")
                else
                let moved := mkDirent dst_parent dst_name (de_child entry) (de_is_dir entry) in
                let staged :=
                  mkDirectoryTree (tr_expected_root t)
                    (<[destination_key := moved]> (delete source_key (tr_entries t))) in
                let? _ := validate_graph staged in
                Ok staged
          end
      end.

Definition remove_id (t : DirectoryTree) (file_id : FileId) : Result DirectoryTree :=
  if bool_decide (file_id = tr_expected_root t)
  then Err (InvalidInput "cannot remove the vault root")
  else
    match List.find (λ p, bool_decide (de_child p.2 = file_id)) (sorted_entries (tr_entries t))
    with
    | None => Ok t
    | Some ((parent, name), _) =>
        let? (t', _) := unlink t parent name in
        Ok t'
    end.
