(* ===== verification/TreeInv.v ===== *)
(** * Invariant and theorems of the directory tree

    [tree_ok] is what [from_dirents] establishes and every update preserves: keys agree with
    entries, the root entry is present and alone in having an empty name, every id is linked
    once, every parent is a directory, and every entry reaches the root by a path of at most
    [MAX_PATH_BYTES] bytes. *)
From S2P Require Export Tree.
From Stdlib Require Import Lia ZifyN ZifyNat.

Open Scope N_scope.

Record tree_ok (t : DirectoryTree) : Prop := {
  ok_keys k e : tr_entries t !! k = Some e → k = (de_parent e, de_name e);
  ok_root : tr_entries t !! (tr_expected_root t, text_empty)
            = Some (root_dirent (tr_expected_root t));
  ok_names k e : tr_entries t !! k = Some e → text_bytes (de_name e) = [] →
                 e = root_dirent (tr_expected_root t);
  ok_valid k e : tr_entries t !! k = Some e → text_bytes (de_name e) ≠ [] →
                 validate_name (de_name e) = Ok tt ∧ de_child e ≠ tr_expected_root t;
  ok_unique k1 e1 k2 e2 : tr_entries t !! k1 = Some e1 → tr_entries t !! k2 = Some e2 →
                          de_child e1 = de_child e2 → k1 = k2;
  ok_graph k e : tr_entries t !! k = Some e → text_bytes (de_name e) ≠ [] →
                 is_dir t (de_parent e) = true ∧ ∃ n, path_len t (de_child e) = Ok n;
}.

(** ** Enumerations *)

Lemma elem_of_values t e : e ∈ tree_values t ↔ ∃ k, tr_entries t !! k = Some e.
Proof.
  unfold tree_values. rewrite list_elem_of_fmap. split.
  - intros ([k e'] & -> & Hin). exists k. by apply elem_of_sorted_entries.
  - intros (k & Hk). exists (k, e). by rewrite elem_of_sorted_entries.
Qed.

Lemma existsb_values (f : Dirent → bool) t :
  existsb f (tree_values t) = true ↔ ∃ k e, tr_entries t !! k = Some e ∧ f e = true.
Proof.
  rewrite existsb_exists. setoid_rewrite <-list_elem_of_In. setoid_rewrite elem_of_values.
  naive_solver.
Qed.

Lemma existsb_values_false (f : Dirent → bool) t :
  existsb f (tree_values t) = false ↔ ∀ k e, tr_entries t !! k = Some e → f e = false.
Proof.
  rewrite <-not_true_iff_false, existsb_values. split.
  - intros H k e Hk. apply not_true_iff_false. intros Hf. apply H. eauto.
  - intros H (k & e & Hk & Hf). rewrite (H k e Hk) in Hf. done.
Qed.

Lemma is_dir_true t f :
  is_dir t f = true ↔
  f = tr_expected_root t ∨
  ∃ k e, tr_entries t !! k = Some e ∧ de_child e = f ∧ de_is_dir e = true.
Proof.
  unfold is_dir. rewrite orb_true_iff, bool_decide_eq_true, existsb_values.
  setoid_rewrite andb_true_iff. setoid_rewrite bool_decide_eq_true. done.
Qed.

Lemma find_child_Some t c e :
  find_child t c = Some e → de_child e = c ∧ ∃ k, tr_entries t !! k = Some e.
Proof.
  intros [Hin%list_elem_of_In Hc%bool_decide_eq_true]%find_some.
  by apply elem_of_values in Hin.
Qed.

Lemma find_child_None t c k e :
  find_child t c = None → tr_entries t !! k = Some e → de_child e ≠ c.
Proof.
  intros Hn Hk. eapply find_none in Hn; [by apply bool_decide_eq_false in Hn|].
  apply list_elem_of_In, elem_of_values. eauto.
Qed.

Definition unique_children (t : DirectoryTree) : Prop := ∀ k1 e1 k2 e2,
  tr_entries t !! k1 = Some e1 → tr_entries t !! k2 = Some e2 →
  de_child e1 = de_child e2 → k1 = k2.

Lemma find_child_unique t k e :
  unique_children t → tr_entries t !! k = Some e → find_child t (de_child e) = Some e.
Proof.
  intros Hu Hk. destruct (find_child t (de_child e)) as [e'|] eqn:E.
  - apply find_child_Some in E as [Hc (k' & Hk')].
    rewrite (Hu _ _ _ _ Hk' Hk Hc) in Hk'. congruence.
  - by destruct (find_child_None _ _ _ _ E Hk).
Qed.

(** ** Walks towards the root *)

(** [climb t c b n]: [n] entries lead from [c] to the root; their names hold [b] bytes. *)
Inductive climb (t : DirectoryTree) : FileId → N → nat → Prop :=
  | climb_root : climb t (tr_expected_root t) 0 0
  | climb_step c e b n :
      c ≠ tr_expected_root t → find_child t c = Some e → climb t (de_parent e) b n →
      climb t c (lenN (text_bytes (de_name e)) + b) (S n).

Lemma climb_det t c b1 n1 b2 n2 : climb t c b1 n1 → climb t c b2 n2 → b1 = b2 ∧ n1 = n2.
Proof.
  intros H. revert b2 n2. induction H as [|c e b n Hc He H IH]; intros b2 n2 H2; inversion H2;
    simplify_eq; try done.
  match goal with H : climb _ (de_parent _) _ _ |- _ => apply IH in H end. naive_solver.
Qed.

Definition children (t : DirectoryTree) : gset FileId :=
  list_to_set (de_child <$> tree_values t).

Lemma elem_of_children t c e : find_child t c = Some e → c ∈ children t.
Proof.
  intros [Hc Hk]%find_child_Some. unfold children. apply elem_of_list_to_set.
  rewrite <-Hc. apply list_elem_of_fmap_2. by apply elem_of_values.
Qed.

Lemma size_children t : (size (children t) ≤ size (tr_entries t))%nat.
Proof.
  unfold children. etransitivity; [apply size_list_to_set_le|].
  unfold tree_values. by rewrite !length_fmap, length_sorted_entries.
Qed.

(** The [seen] set bounds both guarded walks. *)
Lemma seen_grows t c e (seen : gset FileId) fuel :
  find_child t c = Some e → c ∉ seen → seen ⊆ children t →
  (size (children t) < S fuel + size seen)%nat →
  {[c]} ∪ seen ⊆ children t ∧ (size (children t) < fuel + size ({[c]} ∪ seen))%nat.
Proof.
  intros He Hc Hs Hf. apply elem_of_children in He. split; [set_solver|].
  rewrite size_union by set_solver. rewrite size_singleton. lia.
Qed.

Lemma path_len_loop_total t fuel c b n seen :
  seen ⊆ children t → (size (children t) < fuel + size seen)%nat →
  path_len_loop t fuel c b n seen ≠ None.
Proof.
  revert c b n seen. induction fuel as [|fuel IH]; intros c b n seen Hs Hf; simpl.
  { apply subseteq_size in Hs. lia. }
  repeat case_bool_decide; [done|done|].
  destruct (find_child t c) as [e|] eqn:He; [|done].
  destruct (usize_add _ _); [|done].
  apply IH; by eapply seen_grows.
Qed.

Lemma reach_loop_total t fuel c seen :
  seen ⊆ children t → (size (children t) < fuel + size seen)%nat →
  reach_loop t fuel c seen ≠ None.
Proof.
  revert c seen. induction fuel as [|fuel IH]; intros c seen Hs Hf; simpl.
  { apply subseteq_size in Hs. lia. }
  repeat case_bool_decide; [done|done|].
  destruct (find_child t c) as [e|] eqn:He; [|done].
  apply IH; by eapply seen_grows.
Qed.

Lemma walk_fuel_enough t : (size (children t) < walk_fuel t + size (∅ : gset FileId))%nat.
Proof. pose proof (size_children t). unfold walk_fuel. lia. Qed.

(** A successful measurement follows a climb. *)
Lemma path_len_loop_climb t fuel c b n seen r :
  path_len_loop t fuel c b n seen = Some (Ok r) →
  ∃ b' n', climb t c b' n' ∧ (n' < fuel)%nat
    ∧ r = b + b' + (n + N.of_nat n' - 1) ∧ r <= MAX_PATH_BYTES.
Proof.
  revert c b n seen. induction fuel as [|fuel IH]; intros c b n seen; simpl; [done|].
  case_bool_decide as Hroot.
  { subst c. unfold usize_add. destruct (_ <? u64_limit); [|done]. cbn.
    destruct (N.ltb_spec MAX_PATH_BYTES (b + (n - 1))); [done|]. intros [= <-].
    exists 0, 0%nat. repeat split; [constructor|lia|lia|lia]. }
  case_bool_decide; [done|]. destruct (find_child t c) as [e|] eqn:He; [|done].
  unfold usize_add. destruct (_ <? u64_limit); [|done].
  intros (b' & n' & Hclimb & Hn & -> & Hmax)%IH.
  exists (lenN (text_bytes (de_name e)) + b'), (S n').
  repeat split; [by econstructor|lia|lia|lia].
Qed.

Lemma path_len_climb t c r :
  path_len t c = Ok r →
  ∃ b n, climb t c b n ∧ (n < walk_fuel t)%nat ∧ r = b + (N.of_nat n - 1) ∧ r <= MAX_PATH_BYTES.
Proof.
  unfold path_len. case_bool_decide as Hroot.
  - intros [= <-]. subst c. exists 0, 0%nat. repeat split; [constructor|unfold walk_fuel; lia|].
    unfold MAX_PATH_BYTES. lia.
  - destruct (path_len_loop _ _ _ _ _ _) as [[r'|]|] eqn:E; try done. intros [= ->].
    apply path_len_loop_climb in E as (b & n & ? & ? & -> & ?). exists b, n. by repeat split.
Qed.

(** Conversely, a climb short enough is measured. *)
Lemma climb_path_len_loop t fuel c b n seen b' n' :
  climb t c b' n' → b + b' + (n + N.of_nat n' - 1) <= MAX_PATH_BYTES →
  (∀ s, s ∈ seen → ∃ bs ns, climb t s bs ns ∧ (n' < ns)%nat) →
  path_len_loop t fuel c b n seen = None
  ∨ path_len_loop t fuel c b n seen = Some (Ok (b + b' + (n + N.of_nat n' - 1))).
Proof.
  intros Hclimb. revert fuel b n seen.
  induction Hclimb as [|c e b' n' Hc He Hclimb IH]; intros fuel b n seen Hmax Hseen;
    (destruct fuel as [|fuel]; [by left|]); simpl.
  - rewrite bool_decide_eq_true_2 by done. right. unfold usize_add, MAX_PATH_BYTES, u64_limit in *.
    rewrite (proj2 (N.ltb_lt _ _)) by lia. cbn.
    rewrite (proj2 (N.ltb_ge _ _)) by lia. do 2 f_equal. lia.
  - rewrite bool_decide_eq_false_2 by done.
    rewrite bool_decide_eq_false_2.
    2: { intros (bs & ns & Hs & Hlt)%Hseen.
         pose proof (climb_step t c e b' n' Hc He Hclimb) as H2.
         destruct (climb_det _ _ _ _ _ _ Hs H2). lia. }
    rewrite He. unfold usize_add, MAX_PATH_BYTES, u64_limit in *.
    rewrite (proj2 (N.ltb_lt _ _)) by lia.
    destruct (IH fuel (b + lenN (text_bytes (de_name e))) (n + 1) ({[c]} ∪ seen)) as [->| ->];
      [lia| |by left|right; do 2 f_equal; lia].
    intros s [->%elem_of_singleton|Hs]%elem_of_union.
    + eexists _, _. split; [by econstructor|lia].
    + destruct (Hseen s Hs) as (bs & ns & ? & ?). exists bs, ns. split; [done|lia].
Qed.

Lemma climb_path_len t c b n :
  climb t c b n → b + (N.of_nat n - 1) <= MAX_PATH_BYTES →
  path_len t c = Ok (b + (N.of_nat n - 1)).
Proof.
  intros Hclimb Hmax. unfold path_len. case_bool_decide as Hroot.
  - subst c. inversion Hclimb; [done|]. done.
  - destruct (climb_path_len_loop t (walk_fuel t) c 0 0 ∅ b n Hclimb) as [E| ->].
    + lia.
    + set_solver.
    + by destruct (path_len_loop_total t (walk_fuel t) c 0 0 ∅ (empty_subseteq _) (walk_fuel_enough t)).
    + done.
Qed.

Lemma climb_reach_loop t fuel c seen b n :
  climb t c b n → (∀ s, s ∈ seen → ∃ bs ns, climb t s bs ns ∧ (n < ns)%nat) →
  reach_loop t fuel c seen = None ∨ reach_loop t fuel c seen = Some (Ok tt).
Proof.
  intros Hclimb. revert fuel seen.
  induction Hclimb as [|c e b n Hc He Hclimb IH]; intros fuel seen Hseen;
    (destruct fuel as [|fuel]; [by left|]); simpl.
  - rewrite bool_decide_eq_true_2 by done. by right.
  - rewrite bool_decide_eq_false_2 by done.
    rewrite bool_decide_eq_false_2.
    2: { intros (bs & ns & Hs & Hlt)%Hseen.
         pose proof (climb_step t c e b n Hc He Hclimb) as H2.
         destruct (climb_det _ _ _ _ _ _ Hs H2). lia. }
    rewrite He. apply IH. intros s [->%elem_of_singleton|Hs]%elem_of_union.
    + eexists _, _. split; [by econstructor|lia].
    + destruct (Hseen s Hs) as (bs & ns & ? & ?). exists bs, ns. split; [done|lia].
Qed.

Lemma validate_entry_Ok t e :
  validate_entry t e = Ok tt ↔
  is_dir t (de_parent e) = true ∧ ∃ n, path_len t (de_child e) = Ok n.
Proof.
  unfold validate_entry. destruct (is_dir t (de_parent e)); cbn; [|naive_solver].
  split.
  - destruct (default out_of_fuel _); [|done]. cbn. destruct (path_len t (de_child e)); [|done].
    eauto.
  - intros [_ (n & Hn)]. rewrite Hn. apply path_len_climb in Hn as (b & k & Hclimb & _).
    destruct (climb_reach_loop t (walk_fuel t) (de_child e) ∅ b k Hclimb) as [E| ->];
      [set_solver| |done].
    by destruct (reach_loop_total t (walk_fuel t) (de_child e) ∅ (empty_subseteq _)
                   (walk_fuel_enough t)).
Qed.

Lemma validate_entries_Ok t l :
  validate_entries t l = Ok tt ↔
  ∀ e, e ∈ l → text_bytes (de_name e) ≠ [] → validate_entry t e = Ok tt.
Proof.
  induction l as [|e l IH]; simpl; [split; [by intros _ ? ?%not_elem_of_nil|done]|].
  setoid_rewrite elem_of_cons. case_bool_decide as Hn; cbn.
  - rewrite IH. naive_solver.
  - destruct (validate_entry t e) as [[]|] eqn:E; cbn.
    + rewrite IH. naive_solver.
    + split; [done|]. intros H. rewrite H in E; [done|by left|done].
Qed.

Lemma validate_graph_Ok t :
  validate_graph t = Ok tt ↔
  ∀ k e, tr_entries t !! k = Some e → text_bytes (de_name e) ≠ [] →
    is_dir t (de_parent e) = true ∧ ∃ n, path_len t (de_child e) = Ok n.
Proof.
  unfold validate_graph. rewrite validate_entries_Ok.
  setoid_rewrite validate_entry_Ok. setoid_rewrite elem_of_values. naive_solver.
Qed.

(** [tree_ok] is the four local conditions and [validate_graph]. *)
Lemma tree_ok_intro t :
  (∀ k e, tr_entries t !! k = Some e → k = (de_parent e, de_name e)) →
  tr_entries t !! (tr_expected_root t, text_empty) = Some (root_dirent (tr_expected_root t)) →
  (∀ k e, tr_entries t !! k = Some e → text_bytes (de_name e) = [] →
    e = root_dirent (tr_expected_root t)) →
  (∀ k e, tr_entries t !! k = Some e → text_bytes (de_name e) ≠ [] →
    validate_name (de_name e) = Ok tt ∧ de_child e ≠ tr_expected_root t) →
  unique_children t → validate_graph t = Ok tt → tree_ok t.
Proof. intros ????? Hg. pose proof (proj1 (validate_graph_Ok t) Hg). by split. Qed.

Lemma validate_name_nonempty n u : validate_name n = Ok u → n ≠ [].
Proof.
  unfold validate_name. intros H ->. by rewrite bool_decide_eq_true_2 in H.
Qed.

Lemma tree_ok_new root : tree_ok (DirectoryTree_new root).
Proof.
  apply tree_ok_intro; unfold DirectoryTree_new; cbn.
  - intros k e [<- <-]%lookup_singleton_Some. done.
  - apply lookup_singleton_eq.
  - by intros k e [<- <-]%lookup_singleton_Some.
  - by intros k e [<- <-]%lookup_singleton_Some.
  - unfold unique_children. cbn. intros k1 e1 k2 e2 [<- <-]%lookup_singleton_Some [<- <-]%lookup_singleton_Some. done.
  - apply validate_graph_Ok. cbn. by intros k e [<- <-]%lookup_singleton_Some.
Qed.

(** ** [from_dirents] *)

(** What one accepted pass guarantees about the entries it adds. *)
Definition entries_ok (root : FileId) (children : gset FileId)
    (entries : gmap (FileId * text) Dirent) : Prop :=
  (∀ k e, entries !! k = Some e → k = (de_parent e, de_name e)) ∧
  (∀ k e, entries !! k = Some e → text_bytes (de_name e) = [] → e = root_dirent root) ∧
  (∀ k e, entries !! k = Some e → text_bytes (de_name e) ≠ [] →
    validate_name (de_name e) = Ok tt ∧ de_child e ≠ root ∧ de_child e ∈ children) ∧
  (∀ k1 e1 k2 e2, entries !! k1 = Some e1 → entries !! k2 = Some e2 →
    de_child e1 = de_child e2 → k1 = k2).

Lemma text_empty_eq (n : text) : text_bytes n = [] → n = text_empty.
Proof. intros. by apply text_eq. Qed.

Lemma prev_geb_false_lt {K} `{Ord K, !OrdLaws K} (p : option K) (x : K) :
  prev_geb p x = false ↔ ∀ y, p = Some y → key_lt y x.
Proof. destruct p as [y|]; cbn; [rewrite geb_false|]; naive_solver. Qed.

Lemma from_dirents_loop_ok root l previous seen entries entries' :
  entries_ok root seen entries →
  (∀ k e, entries !! k = Some e → ∃ p, previous = Some p ∧ (k = p ∨ key_lt k p)) →
  from_dirents_loop root l previous seen entries = Ok entries' →
  ∃ seen', entries_ok root seen' entries'.
Proof.
  revert previous seen entries. induction l as [|e l IH]; intros previous seen entries Hok Hprev.
  { cbn. intros [= ->]. eauto. }
  cbn. destruct (prev_geb previous (de_parent e, de_name e)) eqn:Hgeb; [done|].
  assert (Hfresh : entries !! (de_parent e, de_name e) = None).
  { destruct (entries !! _) as [e'|] eqn:E; [|done].
    destruct (Hprev _ _ E) as (p & -> & Hp). cbn in Hgeb. apply geb_false in Hgeb.
    destruct Hp as [<-|Hp]; [by destruct (key_lt_irrefl _ Hgeb)|].
    destruct (key_lt_irrefl p). by trans (de_parent e, de_name e). }
  assert (Hprev' : ∀ k e', <[(de_parent e, de_name e) := e]> entries !! k = Some e' →
    ∃ p, Some (de_parent e, de_name e) = Some p ∧ (k = p ∨ key_lt k p)).
  { intros k e' [[<- _]|[_ Hk]]%lookup_insert_Some; [eauto|].
    destruct (Hprev _ _ Hk) as (p & -> & Hp). cbn in Hgeb. apply geb_false in Hgeb.
    eexists. split; [done|]. right. destruct Hp as [->|Hp]; [done|by trans p]. }
  destruct Hok as (Hkeys & Hnames & Hvalid & Huniq).
  case_bool_decide as Hname.
  - destruct (_ || _) eqn:Hbad; [done|]. apply IH; [|done].
    rewrite !orb_false_iff, !negb_false_iff, !bool_decide_eq_true in Hbad.
    destruct Hbad as [[Hp Hc] Hd].
    assert (He : e = root_dirent root).
    { destruct e as [p n c d]. cbn in *. subst. by rewrite (text_empty_eq n Hname). }
    assert (Hother : ∀ k e', entries !! k = Some e' → de_child e' ≠ root).
    { intros k e' Hk. destruct (decide (text_bytes (de_name e') = [])) as [Hn|Hn].
      - pose proof (Hnames _ _ Hk Hn) as ->. rewrite (Hkeys _ _ Hk) in Hk.
        subst e. cbn in *. congruence.
      - by apply (Hvalid _ _ Hk). }
    split; [|split; [|split]].
    + intros k e' [[<- <-]|[_ Hk]]%lookup_insert_Some; [done|eauto].
    + intros k e' [[<- <-]|[_ Hk]]%lookup_insert_Some; [done|eauto].
    + intros k e' [[<- <-]|[_ Hk]]%lookup_insert_Some; [done|eauto].
    + intros k1 e1 k2 e2 [[<- <-]|[_ Hk1]]%lookup_insert_Some
        [[<- <-]|[_ Hk2]]%lookup_insert_Some Hc'; [done| | |by eapply Huniq].
      * destruct (Hother _ _ Hk2). congruence.
      * destruct (Hother _ _ Hk1). congruence.
  - destruct (validate_name (de_name e)) as [[]|] eqn:Hv; [|done]. cbn.
    destruct (_ || _) eqn:Hbad; [done|]. apply IH; [|done].
    rewrite !orb_false_iff, !bool_decide_eq_false in Hbad. destruct Hbad as [Hroot Hseen].
    assert (Hother : ∀ k e', entries !! k = Some e' → de_child e' ≠ de_child e).
    { intros k e' Hk. destruct (decide (text_bytes (de_name e') = [])) as [Hn|Hn].
      - pose proof (Hnames _ _ Hk Hn) as ->. cbn. congruence.
      - destruct (Hvalid _ _ Hk Hn) as (_ & _ & ?). congruence. }
    split; [|split; [|split]].
    + intros k e' [[<- <-]|[_ Hk]]%lookup_insert_Some; [done|eauto].
    + intros k e' [[<- <-]|[_ Hk]]%lookup_insert_Some; [done|eauto].
    + intros k e' [[<- <-]|[_ Hk]]%lookup_insert_Some Hn; [set_solver|].
      destruct (Hvalid _ _ Hk Hn) as (? & ? & ?). set_solver.
    + intros k1 e1 k2 e2 [[<- <-]|[_ Hk1]]%lookup_insert_Some
        [[<- <-]|[_ Hk2]]%lookup_insert_Some Hc'; [done| | |by eapply Huniq].
      * destruct (Hother _ _ Hk2). congruence.
      * destruct (Hother _ _ Hk1). congruence.
Qed.

Lemma from_dirents_ok root l t : from_dirents root l = Ok t → tree_ok t ∧ tr_expected_root t = root.
Proof.
  unfold from_dirents. case_bool_decide.
  { intros [= <-]. split; [apply tree_ok_new|done]. }
  destruct (from_dirents_loop root l None ∅ ∅) as [entries|] eqn:Hloop; [|done]. cbn [res_bind].
  destruct (entries !! (root, text_empty)) as [r|] eqn:Hr; [|done].
  destruct (validate_graph _) as [[]|] eqn:Hg; [|done]. intros [= <-]. split; [|done].
  apply from_dirents_loop_ok in Hloop as (seen & Hkeys & Hnames & Hvalid & Huniq).
  - apply tree_ok_intro; cbn; [done| |done| |done|done].
    + pose proof (Hkeys _ _ Hr) as Hk. rewrite Hr. f_equal. apply (Hnames _ _ Hr).
      by injection Hk as _ <-.
    + intros k e Hk Hn. destruct (Hvalid k e Hk Hn) as (? & ? & _). done.
  - split; [|split; [|split]]; by intros ??.
  - by intros ??.
Qed.

(** ** Entries in canonical order *)

Definition dirent_key (e : Dirent) : FileId * text := (de_parent e, de_name e).

Definition insert_all (entries : gmap (FileId * text) Dirent) (l : list Dirent) :=
  foldl (λ m e, <[dirent_key e := e]> m) entries l.

Lemma insert_all_lookup l entries k :
  NoDup (dirent_key <$> l) →
  insert_all entries l !! k =
  match (list_to_map ((λ e, (dirent_key e, e)) <$> l) : gmap (FileId * text) Dirent) !! k with
  | Some e => Some e
  | None => entries !! k
  end.
Proof.
  revert entries. induction l as [|e l IH]; intros entries Hnd; [done|].
  csimpl. apply NoDup_cons in Hnd as [He Hnd]. cbn [insert_all foldl]. fold (insert_all).
  rewrite IH by done. destruct (decide (k = dirent_key e)) as [->|Hk].
  - rewrite lookup_insert_eq, lookup_insert_eq.
    rewrite not_elem_of_list_to_map_1; [done|].
    rewrite <-list_fmap_compose. unfold compose. cbn. done.
  - by rewrite !lookup_insert_ne.
Qed.

Lemma insert_all_empty l :
  NoDup (dirent_key <$> l) → insert_all ∅ l = list_to_map ((λ e, (dirent_key e, e)) <$> l).
Proof.
  intros Hnd. apply map_eq. intros k. rewrite insert_all_lookup by done.
  rewrite lookup_empty. by destruct (_ !! k).
Qed.

Lemma from_dirents_loop_result root l previous seen entries entries' :
  from_dirents_loop root l previous seen entries = Ok entries' →
  sorted_from previous (dirent_key <$> l) ∧ entries' = insert_all entries l.
Proof.
  revert previous seen entries. induction l as [|e l IH]; intros previous seen entries; cbn.
  { by intros [= ->]. }
  fold (dirent_key e). destruct (prev_geb previous (dirent_key e)) eqn:Hgeb; [done|].
  case_bool_decide.
  - destruct (_ || _); [done|]. intros [? ->]%IH. done.
  - destruct (validate_name _); [|done]. cbn. destruct (_ || _); [done|].
    intros [? ->]%IH. done.
Qed.

Lemma from_dirents_loop_complete root l previous seen entries :
  sorted_from previous (dirent_key <$> l) →
  (∀ e, e ∈ l → text_bytes (de_name e) = [] → e = root_dirent root) →
  (∀ e, e ∈ l → text_bytes (de_name e) ≠ [] →
    validate_name (de_name e) = Ok tt ∧ de_child e ≠ root ∧ de_child e ∉ seen) →
  NoDup (de_child <$> l) →
  from_dirents_loop root l previous seen entries = Ok (insert_all entries l).
Proof.
  revert previous seen entries. induction l as [|e l IH]; intros previous seen entries; [done|].
  cbn. fold (dirent_key e). intros [Hgeb Hs] Hnames Hvalid [Hc Hnd]%NoDup_cons. rewrite Hgeb.
  case_bool_decide as Hn.
  - pose proof (Hnames e ltac:(left) Hn) as He.
    assert (de_parent e = root ∧ de_child e = root ∧ de_is_dir e = true) as (H1 & H2 & H3)
      by (by rewrite He).
    rewrite !bool_decide_eq_true_2 by done. rewrite H3. cbn. apply IH; [done| | |done].
    + intros e' He'. apply Hnames. by right.
    + intros e' He'. apply Hvalid. by right.
  - destruct (Hvalid e ltac:(left) Hn) as (-> & Hroot & Hseen). cbn.
    rewrite !bool_decide_eq_false_2 by done. cbn. apply IH; [done| | |done].
    + intros e' He'. apply Hnames. by right.
    + intros e' He' Hn'. destruct (Hvalid e' ltac:(by right) Hn') as (? & ? & ?).
      repeat split; [done|done|]. apply not_elem_of_union. split; [|done].
      intros Heq%elem_of_singleton. apply Hc. rewrite <-Heq. by apply list_elem_of_fmap_2.
Qed.

Lemma tree_values_keyed t :
  tree_ok t → (λ e, (dirent_key e, e)) <$> tree_values t = sorted_entries (tr_entries t).
Proof.
  intros Ht. unfold tree_values. rewrite <-list_fmap_compose.
  rewrite <-(list_fmap_id (sorted_entries _)) at 2. apply list_fmap_ext.
  intros i [k e] Hi. cbn. apply list_elem_of_lookup_2, elem_of_sorted_entries in Hi.
  by rewrite (ok_keys t Ht k e Hi).
Qed.

Lemma tree_values_keys t :
  tree_ok t → dirent_key <$> tree_values t = (sorted_entries (tr_entries t)).*1.
Proof.
  intros Ht. rewrite <-tree_values_keyed by done. by rewrite <-list_fmap_compose.
Qed.

Lemma tree_values_children_NoDup t : tree_ok t → NoDup (de_child <$> tree_values t).
Proof.
  intros Ht. apply NoDup_fmap_2_strong.
  - intros e1 e2 [k1 H1]%elem_of_values [k2 H2]%elem_of_values Hc.
    rewrite (ok_unique t Ht _ _ _ _ H1 H2 Hc) in H1. congruence.
  - apply (NoDup_fmap_1 dirent_key). rewrite tree_values_keys by done.
    apply sorted_entries_NoDup.
Qed.

Lemma from_dirents_dirents t :
  tree_ok t → from_dirents (tr_expected_root t) (dirents t) = Ok t.
Proof.
  intros Ht. unfold from_dirents, dirents.
  assert (Hin : root_dirent (tr_expected_root t) ∈ tree_values t).
  { apply elem_of_values. eauto using ok_root. }
  rewrite bool_decide_eq_false_2.
  2: { intros E. rewrite E in Hin. by apply not_elem_of_nil in Hin. }
  rewrite from_dirents_loop_complete.
  - cbn [res_bind]. rewrite insert_all_empty.
    2: { rewrite tree_values_keys by done. apply sorted_entries_NoDup. }
    rewrite tree_values_keyed, list_to_map_sorted_entries by done.
    rewrite (ok_root t Ht).
    assert (mkDirectoryTree (tr_expected_root t) (tr_entries t) = t) as -> by (by destruct t).
    by rewrite (proj2 (validate_graph_Ok t) (ok_graph t Ht)).
  - rewrite tree_values_keys by done. apply sorted_from_None, sorted_entries_sorted.
  - intros e [k Hk]%elem_of_values. by apply (ok_names t Ht k).
  - intros e [k Hk]%elem_of_values Hn. destruct (ok_valid t Ht k e Hk Hn). set_solver.
  - by apply tree_values_children_NoDup.
Qed.

Lemma dirents_from_dirents root l t :
  from_dirents root l = Ok t → l ≠ [] → dirents t = l.
Proof.
  unfold from_dirents. intros H Hl. rewrite bool_decide_eq_false_2 in H by done.
  destruct (from_dirents_loop _ _ _ _ _) as [entries|] eqn:Hloop; [|done]. cbn in H.
  apply from_dirents_loop_result in Hloop as [Hs ->].
  apply sorted_from_None in Hs.
  destruct (insert_all ∅ l !! _); [|done]. destruct (validate_graph _); [|done].
  injection H as <-. unfold dirents, tree_values. cbn.
  rewrite insert_all_empty by (by apply StronglySorted_NoDup).
  rewrite sorted_entries_list_to_map.
  - rewrite <-list_fmap_compose. apply list_fmap_id.
  - by rewrite <-list_fmap_compose.
Qed.

(** ** [link] *)

Lemma climb_mono t t' c b n :
  tr_expected_root t' = tr_expected_root t →
  (∀ c e, find_child t c = Some e → find_child t' c = Some e) →
  climb t c b n → climb t' c b n.
Proof.
  intros Hr Hf. induction 1 as [|c e b n Hc He H IH].
  - rewrite <-Hr. constructor.
  - econstructor; [by rewrite Hr|by apply Hf|done].
Qed.

Lemma is_dir_mono t t' f :
  tr_expected_root t' = tr_expected_root t → tr_entries t ⊆ tr_entries t' →
  is_dir t f = true → is_dir t' f = true.
Proof.
  intros Hr Hsub. rewrite !is_dir_true, Hr. intros [->|(k & e & Hk & ?)]; [by left|].
  right. exists k, e. split; [|done]. by eapply lookup_weaken.
Qed.

Lemma link_Ok t p n c d t' :
  link t p n c d = Ok t' →
  validate_name n = Ok tt ∧ is_dir t p = true ∧ c ≠ tr_expected_root t
  ∧ (∀ k e, tr_entries t !! k = Some e → de_child e ≠ c)
  ∧ tr_entries t !! (p, n) = None
  ∧ (∃ len, path_len t p = Ok len
      ∧ len + (if bool_decide (p = tr_expected_root t) then 0 else 1) + lenN (text_bytes n)
        <= MAX_PATH_BYTES)
  ∧ t' = mkDirectoryTree (tr_expected_root t) (<[(p, n) := mkDirent p n c d]> (tr_entries t)).
Proof.
  unfold link. destruct (validate_name n) as [[]|]; [|done]. cbn [res_bind].
  destruct (is_dir t p); [|done]. cbn [negb].
  destruct (_ || _) eqn:Hc; [done|]. apply orb_false_iff in Hc as [Hc1 Hc2].
  apply bool_decide_eq_false in Hc1. rewrite existsb_values_false in Hc2.
  destruct (tr_entries t !! (p, n)); [done|].
  destruct (path_len t p) as [len|]; [|done]. cbn [res_bind].
  unfold usize_add. destruct (_ <? u64_limit); [|done]. cbn.
  destruct (_ <? u64_limit); [|done].
  destruct (N.ltb_spec MAX_PATH_BYTES
    (len + (if bool_decide (p = tr_expected_root t) then 0 else 1) + lenN (text_bytes n)));
    [done|]. intros [= <-]. repeat split; try done.
  - intros k e' Hk'; revert k e' Hk'; intros k e Hk. specialize (Hc2 k e Hk). by apply bool_decide_eq_false in Hc2.
  - by exists len.
Qed.

Lemma tree_ok_link t p n c d t' : tree_ok t → link t p n c d = Ok t' → tree_ok t'.
Proof.
  intros Ht (Hv & Hdir & Hroot & Hfresh & Hkey & (len & Hlen & Hmax) & ->)%link_Ok.
  set (t' := mkDirectoryTree _ _).
  assert (Hsub : tr_entries t ⊆ tr_entries t') by (by apply insert_subseteq).
  assert (Hu : unique_children t').
  { intros k1 e1 k2 e2. cbn. intros [[<- <-]|[_ H1]]%lookup_insert_Some
      [[<- <-]|[_ H2]]%lookup_insert_Some Hc; [done| | |by eapply (ok_unique t Ht)].
    - by destruct (Hfresh _ _ H2).
    - by destruct (Hfresh _ _ H1). }
  assert (Hfind : ∀ x e, find_child t x = Some e → find_child t' x = Some e).
  { intros x e [<- [k Hk]]%find_child_Some. apply (find_child_unique t' k); [done|].
    by eapply lookup_weaken. }
  assert (Hne : text_bytes n ≠ []) by (by eapply validate_name_nonempty).
  apply tree_ok_intro; [| | | |done|].
  - intros k e; cbn; intros [[<- <-]|[_ Hk]]%lookup_insert_Some; [done|by apply (ok_keys t Ht)].
  - cbn. eapply (lookup_weaken (tr_entries t) (tr_entries t')); [apply (ok_root t Ht)|done].
  - intros k e; cbn; intros [[<- <-]|[_ Hk]]%lookup_insert_Some; [done|by apply (ok_names t Ht k)].
  - intros k e; cbn; intros [[<- <-]|[_ Hk]]%lookup_insert_Some; [done|by apply (ok_valid t Ht k)].
  - apply validate_graph_Ok. intros k e; cbn; intros [[<- <-]|[_ Hk]]%lookup_insert_Some Hn; cbn.
    + split; [by apply (is_dir_mono t)|].
      apply path_len_climb in Hlen as (b & m & Hclimb & _ & -> & _).
      apply (climb_mono t t') in Hclimb; [|done|done].
      assert (Hstep : climb t' c (lenN (text_bytes n) + b) (S m)).
      { apply (climb_step t' c (mkDirent p n c d)); [done| |done].
        apply (find_child_unique t' (p, n) (mkDirent p n c d)); [done|]. apply lookup_insert_eq. }
      eexists. apply (climb_path_len _ _ _ _ Hstep).
      case_bool_decide.
      { assert (m = 0)%nat as -> by (inversion Hclimb; done). lia. }
      assert (m ≠ 0)%nat by (intros ->; inversion Hclimb; done). lia.
    + destruct (ok_graph t Ht k e Hk Hn) as [Hd (r & Hr)]. split; [by apply (is_dir_mono t)|].
      apply path_len_climb in Hr as (b & m & Hclimb & _ & -> & Hr).
      apply (climb_mono t t') in Hclimb; [|done|done].
      eexists. by apply climb_path_len.
Qed.

(** ** [unlink] and [remove_id] *)

Lemma unlink_Ok t p n t' c :
  unlink t p n = Ok (t', c) →
  validate_name n = Ok tt ∧ ∃ e, tr_entries t !! (p, n) = Some e ∧ c = de_child e
    ∧ (de_is_dir e = true →
       ∀ k e', tr_entries t !! k = Some e' → de_parent e' ≠ de_child e)
    ∧ t' = mkDirectoryTree (tr_expected_root t) (delete (p, n) (tr_entries t)).
Proof.
  unfold unlink. destruct (validate_name n) as [[]|]; [|done]. cbn [res_bind].
  destruct (tr_entries t !! (p, n)) as [e|]; [|done].
  destruct (de_is_dir e) eqn:Hd; cbn [andb].
  - destruct (existsb _ _) eqn:Hex; [done|]. intros [= <- <-].
    rewrite existsb_values_false in Hex. split; [done|]. exists e. repeat split; try done.
    intros _ k e' Hk. specialize (Hex k e' Hk). by apply bool_decide_eq_false in Hex.
  - intros [= <- <-]. split; [done|]. exists e. do 2 (split; [done|]). split; [|done].
    intros Htrue. congruence.
Qed.

(** Only a directory is a parent. *)
Lemma not_parent t k e :
  tree_ok t → tr_entries t !! k = Some e → text_bytes (de_name e) ≠ [] →
  (de_is_dir e = true → ∀ k e', tr_entries t !! k = Some e' → de_parent e' ≠ de_child e) →
  ∀ k' e', tr_entries t !! k' = Some e' → de_parent e' ≠ de_child e.
Proof.
  intros Ht Hk Hn Hempty k' e' Hk' Hp. destruct (ok_valid t Ht k e Hk Hn) as [_ Hroot].
  destruct (decide (text_bytes (de_name e') = [])) as [Hn'|Hn'].
  { rewrite (ok_names t Ht _ _ Hk' Hn') in Hp. cbn in Hp. congruence. }
  destruct (ok_graph t Ht _ _ Hk' Hn') as [[Hd|(k2 & e2 & Hk2 & Hc2 & Hd2)]%is_dir_true _];
    [congruence|].
  rewrite Hp in Hc2. rewrite (ok_unique t Ht _ _ _ _ Hk2 Hk Hc2) in Hk2.
  simplify_eq. by eapply Hempty.
Qed.

Lemma tree_ok_unlink t p n t' c : tree_ok t → unlink t p n = Ok (t', c) → tree_ok t'.
Proof.
  intros Ht (Hv & e & He & -> & Hempty & ->)%unlink_Ok. set (t' := mkDirectoryTree _ _).
  assert (Hne : text_bytes (de_name e) ≠ []).
  { pose proof (ok_keys t Ht _ _ He) as Hk. injection Hk as _ <-. by eapply validate_name_nonempty. }
  pose proof (not_parent t _ e Ht He Hne Hempty) as Hnp.
  destruct (ok_valid t Ht _ e He Hne) as [_ Hroot].
  assert (Hu : unique_children t').
  { intros k1 e1 k2 e2. cbn. intros [_ H1]%lookup_delete_Some [_ H2]%lookup_delete_Some.
    by apply (ok_unique t Ht). }
  assert (Hother : ∀ k e', tr_entries t !! k = Some e' → de_child e' ≠ de_child e →
    tr_entries t' !! k = Some e').
  { intros k e' Hk Hc. cbn. apply lookup_delete_Some. split; [|done]. intros <-. congruence. }
  assert (Hclimb : ∀ x b m, climb t x b m → x ≠ de_child e → climb t' x b m).
  { induction 1 as [|x e' b m Hx He' H IH]; intros Hxe; [exact (climb_root t')|].
    apply find_child_Some in He' as [<- [k Hk]]. econstructor; [done| |].
    - apply (find_child_unique t' k e'); [done|by apply Hother].
    - apply IH. by apply (Hnp k). }
  apply tree_ok_intro; [| | | |done|].
  - intros k e'; cbn; intros [_ Hk]%lookup_delete_Some. by apply (ok_keys t Ht).
  - apply (Hother _ (root_dirent (tr_expected_root t))); [apply (ok_root t Ht)|cbn; congruence].
  - intros k e'; cbn; intros [_ Hk]%lookup_delete_Some. by apply (ok_names t Ht k).
  - intros k e'; cbn; intros [_ Hk]%lookup_delete_Some. by apply (ok_valid t Ht k).
  - apply validate_graph_Ok. intros k e'; cbn; intros [Hk Hk']%lookup_delete_Some Hn.
    destruct (ok_graph t Ht k e' Hk' Hn) as [Hd (r & Hr)]. split.
    + apply is_dir_true. apply is_dir_true in Hd as [->|(k2 & e2 & Hk2 & Hc2 & Hd2)]; [by left|].
      right. exists k2, e2. split; [|done]. apply Hother; [done|]. rewrite Hc2. by apply (Hnp k).
    + apply path_len_climb in Hr as (b & m & Hr & _ & -> & Hmax).
      apply Hclimb in Hr; [eexists; by apply climb_path_len|].
      intros Hc. apply Hk. symmetry. by apply (ok_unique t Ht _ _ _ _ Hk' He).
Qed.

Lemma tree_ok_remove_id t f t' : tree_ok t → remove_id t f = Ok t' → tree_ok t'.
Proof.
  intros Ht. unfold remove_id. case_bool_decide; [done|].
  destruct (List.find _ _) as [[[p n] e]|]; [|by intros [= <-]].
  destruct (unlink t p n) as [[t1 c]|] eqn:Hu; [|done]. intros [= <-].
  by eapply tree_ok_unlink.
Qed.

(** ** [rename] *)

Lemma rename_Ok t sp sn dp dn t' :
  rename t sp sn dp dn = Ok t' →
  (t' = t ∧ sp = dp ∧ sn = dn ∧ is_Some (tr_entries t !! (sp, sn))) ∨
  (validate_name dn = Ok tt ∧ is_dir t dp = true ∧ (sp, sn) ≠ (dp, dn)
   ∧ tr_entries t !! (dp, dn) = None
   ∧ ∃ e, tr_entries t !! (sp, sn) = Some e ∧ text_bytes (de_name e) ≠ []
     ∧ t' = mkDirectoryTree (tr_expected_root t)
              (<[(dp, dn) := mkDirent dp dn (de_child e) (de_is_dir e)]>
                 (delete (sp, sn) (tr_entries t)))
     ∧ validate_graph t' = Ok tt).
Proof.
  unfold rename. destruct (validate_name sn) as [[]|]; [|done]. cbn [res_bind].
  destruct (validate_name dn) as [[]|]; [|done]. cbn [res_bind].
  destruct (is_dir t dp); [|done]. cbn [negb]. case_bool_decide as Heq.
  { injection Heq as -> ->. destruct (tr_entries t !! (dp, dn)) eqn:E; [|done].
    intros [= <-]. left. eauto. }
  destruct (tr_entries t !! (dp, dn)); [done|].
  destruct (tr_entries t !! (sp, sn)) as [e|]; [|done].
  case_bool_decide; [done|]. destruct (ok_or _ _) as [[]|]; [done| |done]. cbn [res_bind].
  destruct (validate_graph _) as [[]|] eqn:Hg; [|done]. intros [= <-]. right.
  repeat split; try done. exists e. by repeat split.
Qed.

Lemma tree_ok_rename t sp sn dp dn t' :
  tree_ok t → rename t sp sn dp dn = Ok t' → tree_ok t'.
Proof.
  intros Ht [(-> & _)|(Hv & Hd & Hne & Hnone & e & He & Hn & -> & Hg)]%rename_Ok; [done|].
  assert (Hother : ∀ k e', delete (sp, sn) (tr_entries t) !! k = Some e' →
    tr_entries t !! k = Some e' ∧ de_child e' ≠ de_child e).
  { intros k e' [Hk Hk']%lookup_delete_Some. split; [done|].
    intros Hc. apply Hk. symmetry. by eapply (ok_unique t Ht). }
  destruct (ok_valid t Ht _ e He Hn) as [_ Hroot].
  apply tree_ok_intro; cbn; [| | | | |done].
  - intros k e' [[<- <-]|[_ Hk]]%lookup_insert_Some; [done|].
    apply (ok_keys t Ht). by apply Hother.
  - rewrite lookup_insert_ne, lookup_delete_ne; [apply (ok_root t Ht)| |].
    + intros [= -> ->]. rewrite (ok_root t Ht) in He. by simplify_eq.
    + intros [= -> ->]. by rewrite (ok_root t Ht) in Hnone.
  - intros k e' [[<- <-]|[_ Hk]]%lookup_insert_Some; cbn.
    + intros. by destruct (validate_name_nonempty _ _ Hv).
    + apply (ok_names t Ht k). by apply Hother.
  - intros k e' [[<- <-]|[_ Hk]]%lookup_insert_Some; cbn; [done|].
    apply (ok_valid t Ht k). by apply Hother.
  - intros k1 e1 k2 e2. cbn. intros [[<- <-]|[_ H1]]%lookup_insert_Some
      [[<- <-]|[_ H2]]%lookup_insert_Some Hc; [done| | |].
    + by destruct (Hother _ _ H2).
    + by destruct (Hother _ _ H1).
    + apply Hother in H1 as [H1 _], H2 as [H2 _]. by eapply (ok_unique t Ht).
Qed.
