(* ===== verification/TreePaths.v ===== *)
(** * Paths through the directory tree

    How the string paths of [resolve] relate to the tree: joining and splitting components,
    existence and uniqueness of the path to an id, the effect of the updates on resolution,
    and the termination of the descendant walk.  The file ends with the tree's properties. *)
From S2P Require Export TreeInv.
From Stdlib Require Import Lia ZifyN ZifyNat.

Open Scope N_scope.

(** ** Joining and splitting *)

Definition slash : bytes := [Byte.x2f].
#[global] Arguments slash : simpl never.

Fixpoint join_slash (l : list bytes) : bytes :=
  match l with
  | [] => []
  | [c] => c
  | c :: l => c ++ slash ++ join_slash l
  end.

Lemma split_slash_app c l :
  Byte.x2f ∉ c → split_slash (c ++ slash ++ l) = c :: split_slash l.
Proof.
  induction c as [|b c IH]; intros Hc; cbn.
  - unfold slash. cbn. by rewrite bool_decide_eq_true_2.
  - apply not_elem_of_cons in Hc as [Hb Hc]. rewrite bool_decide_eq_false_2 by done.
    rewrite IH by done. done.
Qed.

Lemma split_slash_single c : Byte.x2f ∉ c → split_slash c = [c].
Proof.
  induction c as [|b c IH]; intros Hc; cbn; [done|].
  apply not_elem_of_cons in Hc as [Hb Hc]. rewrite bool_decide_eq_false_2 by done.
  by rewrite IH.
Qed.

Lemma split_join l :
  l ≠ [] → (∀ c, c ∈ l → Byte.x2f ∉ c) → split_slash (join_slash l) = l.
Proof.
  induction l as [|c l IH]; intros Hl Hc; [done|].
  destruct l as [|c' l].
  - cbn. apply split_slash_single, Hc. left.
  - change (join_slash (c :: c' :: l)) with (c ++ slash ++ join_slash (c' :: l)).
    rewrite split_slash_app by (apply Hc; left). rewrite IH; [done|done|].
    intros x Hx. apply Hc. by right.
Qed.

Lemma lenN_join l :
  lenN (join_slash l) = foldr (λ c acc, lenN c + acc) 0 l + (lenN l - 1).
Proof.
  induction l as [|c l IH]; [done|]. destruct l as [|c' l].
  - cbn. unfold lenN. simpl. lia.
  - change (join_slash (c :: c' :: l)) with (c ++ slash ++ join_slash (c' :: l)).
    rewrite !lenN_app, IH. cbn [foldr]. rewrite !lenN_cons. change (lenN slash) with 1. lia.
Qed.

Lemma elem_of_join b l : b ∈ join_slash l → b = Byte.x2f ∨ ∃ c, c ∈ l ∧ b ∈ c.
Proof.
  induction l as [|c l IH]; [by intros ?%not_elem_of_nil|]. destruct l as [|c' l].
  - cbn. intros Hb. right. exists c. by split; [left|].
  - change (join_slash (c :: c' :: l)) with (c ++ slash ++ join_slash (c' :: l)).
    rewrite !elem_of_app. intros [Hb|[Hb|Hb]].
    + right. exists c. by split; [left|].
    + left. by apply list_elem_of_singleton in Hb.
    + apply IH in Hb as [->|(x & Hx & Hb)]; [by left|]. right. exists x. by split; [right|].
Qed.

Lemma validate_name_Ok n u :
  validate_name n = Ok u →
  n ≠ [] ∧ (Byte.x2f ∉ n) ∧ (Byte.x5c ∉ n) ∧ (Byte.x00 ∉ n) ∧ has_drive_prefix n = false.
Proof.
  intros H. pose proof (validate_name_nonempty _ _ H) as Hn. unfold validate_name in H.
  destruct (_ || _); [done|]. destruct (_ <? _); [done|].
  destruct (_ || _) eqn:E in H; [done|].
  unfold contains_byte in E. rewrite !orb_false_iff, !bool_decide_eq_false in E. naive_solver.
Qed.

Lemma has_drive_prefix_join l :
  (∀ c, c ∈ l → validate_name c = Ok tt) → has_drive_prefix (join_slash l) = false.
Proof.
  intros Hl. destruct l as [|c l]; [done|].
  destruct (validate_name_Ok c tt (Hl c ltac:(left))) as (Hne & _ & _ & _ & Hd).
  destruct l as [|c' l]; [done|].
  change (join_slash (c :: c' :: l)) with (c ++ slash ++ join_slash (c' :: l)).
  destruct c as [|a [|b c]]; [done| |done].
  unfold slash. cbn. by rewrite bool_decide_eq_false_2, andb_false_r.
Qed.

Lemma validate_names_Ok l : (∀ c, c ∈ l → validate_name c = Ok tt) → validate_names l = Ok tt.
Proof.
  induction l as [|c l IH]; intros Hl; [done|]. cbn. rewrite (Hl c) by left. cbn.
  apply IH. intros x Hx. apply Hl. by right.
Qed.

Lemma head_join c l b :
  (∀ x, x ∈ c :: l → validate_name x = Ok tt) → head (join_slash (c :: l)) = Some b →
  b ≠ Byte.x2f.
Proof.
  intros Hl. destruct (validate_name_Ok c tt (Hl c ltac:(left))) as (Hne & Hs & _).
  destruct c as [|a c]; [done|]. intros Hb.
  assert (b = a) as -> by (destruct l; cbn in Hb; congruence).
  intros ->. apply Hs. left.
Qed.

Lemma strip_slash_id l : head l ≠ Some Byte.x2f → strip_slash l = l.
Proof. destruct l as [|[] l]; done. Qed.

(** The components of the path written from valid names are those names. *)
Lemma path_components_join (p : text) l :
  text_bytes p = join_slash l → (∀ c, c ∈ l → validate_name c = Ok tt) →
  lenN (join_slash l) <= MAX_PATH_BYTES → path_components p = Ok l.
Proof.
  intros Hp Hl Hlen. unfold path_components. rewrite Hp.
  rewrite (proj2 (N.ltb_ge _ _)) by done.
  assert (Hchars : ∀ b, b = Byte.x00 ∨ b = Byte.x5c → contains_byte b (join_slash l) = false).
  { intros b Hb. apply bool_decide_eq_false.
    intros [->|(c & Hc & Hbc)]%elem_of_join; [naive_solver|].
    destruct (validate_name_Ok c tt (Hl c Hc)) as (_ & _ & ? & ? & _). naive_solver. }
  rewrite !Hchars by auto. cbn [orb].
  assert (Hhead : head (join_slash l) ≠ Some Byte.x2f).
  { destruct l as [|c l]; [done|]. intros Hb. by eapply (head_join c l). }
  rewrite strip_slash_id by done. rewrite bool_decide_eq_false_2 by done.
  rewrite has_drive_prefix_join by done. cbn [orb].
  destruct l as [|c l].
  { by rewrite bool_decide_eq_true_2. }
  rewrite bool_decide_eq_false_2.
  - rewrite split_join; [|done|].
    + rewrite validate_names_Ok by done. done.
    + intros x Hx. by destruct (validate_name_Ok x tt (Hl x Hx)) as (_ & ? & _).
  - destruct (validate_name_Ok c tt (Hl c ltac:(left))) as (Hne & _).
    destruct c; [done|]. by destruct l.
Qed.

(** Whatever [path_components] accepts is a list of valid names. *)
Lemma path_components_valid p l c :
  path_components p = Ok l → c ∈ l → validate_name c = Ok tt.
Proof.
  unfold path_components. destruct (_ <? _); [done|]. destruct (_ || _); [done|].
  destruct (_ || _); [done|]. case_bool_decide; [by intros [= <-] ?%not_elem_of_nil|].
  destruct (validate_names _) as [[]|] eqn:E; [|done]. intros [= <-]. revert E.
  generalize (split_slash (strip_slash p)). intros l'.
  induction l' as [|c' l' IH]; cbn; [by intros _ ?%not_elem_of_nil|].
  destruct (validate_name c') as [[]|] eqn:E; [|done]. cbn.
  intros Hv [->|Hc]%elem_of_cons; [done|by apply IH].
Qed.

(** ** Resolution *)

Lemma tree_get_Some t p n e :
  tree_get t p n = Some e ↔ ∃ x : text, text_bytes x = n ∧ tr_entries t !! (p, x) = Some e.
Proof.
  unfold tree_get. destruct (text_of_bytes n) as [x|] eqn:E.
  - apply text_of_bytes_Some in E as <-. split; [eauto|].
    intros (y & Hy & ?). by apply text_eq in Hy as ->.
  - split; [done|]. intros (x & <- & _). by rewrite text_of_bytes_text in E.
Qed.

Lemma resolve_from_app t cur l1 l2 x :
  resolve_from t cur (l1 ++ l2) = Ok x ↔
  ∃ y, resolve_from t cur l1 = Ok y ∧ resolve_from t y l2 = Ok x.
Proof.
  revert cur. induction l1 as [|n l1 IH]; intros cur; cbn; [naive_solver|].
  destruct (tree_get t cur n); [apply IH|naive_solver].
Qed.

Lemma resolve_from_snoc t cur l n x :
  resolve_from t cur (l ++ [n]) = Ok x ↔
  ∃ y e, resolve_from t cur l = Ok y ∧ tree_get t y n = Some e ∧ de_child e = x.
Proof.
  rewrite resolve_from_app. cbn. split.
  - intros (y & Hy & H). destruct (tree_get t y n) as [e|] eqn:E; [|done]. naive_solver.
  - intros (y & e & Hy & E & <-). exists y. by rewrite E.
Qed.

(** A climb spells a path downwards. *)
Lemma climb_names t c b n :
  tree_ok t → climb t c b n →
  ∃ l : list text, length l = n
    ∧ (∀ x : text, x ∈ l → validate_name x = Ok tt)
    ∧ foldr (λ x acc, lenN (text_bytes x) + acc) 0 l = b
    ∧ resolve_from t (tr_expected_root t) (text_bytes <$> l) = Ok c.
Proof.
  intros Ht. induction 1 as [|c e b n Hc He Hclimb (l & Hl & Hv & Hb & Hres)].
  { exists []. repeat split. by intros ? ?%not_elem_of_nil. }
  apply find_child_Some in He as [<- [k Hk]].
  assert (Hn : text_bytes (de_name e) ≠ []).
  { intros Hn. by rewrite (ok_names t Ht k e Hk Hn) in Hc. }
  destruct (ok_valid t Ht k e Hk Hn) as [Hve _].
  pose proof (ok_keys t Ht k e Hk) as ->.
  exists (l ++ [de_name e]). split; [rewrite length_app; simpl; lia|]. split; [|split].
  - intros x [Hx| ->%list_elem_of_singleton]%elem_of_app; [by apply Hv|done].
  - rewrite foldr_app. cbn. rewrite <-Hb. clear. induction l; cbn; lia.
  - rewrite fmap_app. apply resolve_from_snoc. exists (de_parent e), e.
    split; [done|]. split; [|done]. apply tree_get_Some. by exists (de_name e).
Qed.

Lemma text_join_valid (l : list text) : utf8_valid (join_slash (text_bytes <$> l)) = true.
Proof.
  assert (Hx : ∀ x : text, utf8_valid x = true) by (intros [x p]; by apply Is_true_true).
  induction l as [|x l IH]; [done|]. destruct l as [|y l]; [apply Hx|].
  change (join_slash (text_bytes <$> x :: y :: l))
    with (text_bytes x ++ slash ++ join_slash (text_bytes <$> y :: l)).
  apply utf8_valid_app; [apply Hx|]. by apply utf8_valid_app.
Qed.

Lemma resolve_path t (l : list text) c :
  (∀ x : text, x ∈ l → validate_name x = Ok tt) →
  foldr (λ x acc, lenN (text_bytes x) + acc) 0 l + (lenN l - 1) <= MAX_PATH_BYTES →
  resolve_from t (tr_expected_root t) (text_bytes <$> l) = Ok c →
  ∃ p : text, text_bytes p = join_slash (text_bytes <$> l)
    ∧ path_components p = Ok (text_bytes <$> l) ∧ resolve t p = Ok c.
Proof.
  intros Hv Hlen Hres. pose proof (text_join_valid l) as Hvalid.
  destruct (text_of_bytes (join_slash (text_bytes <$> l))) as [p|] eqn:Hp.
  2: { unfold text_of_bytes in Hp. destruct (is_true_dec _) as [|Hp']; [done|].
       destruct Hp'. by apply Is_true_true. }
  apply text_of_bytes_Some in Hp. exists p. split; [done|].
  assert (Hcomp : path_components p = Ok (text_bytes <$> l)).
  { apply path_components_join; [done| |].
    - intros c' (x & -> & Hx)%list_elem_of_fmap. by apply Hv.
    - rewrite lenN_join. unfold lenN at 2. rewrite length_fmap. fold (lenN l).
      assert (foldr (λ c acc, lenN c + acc) 0 (text_bytes <$> l)
              = foldr (λ x acc, lenN (text_bytes x) + acc) 0 l) as ->; [|done].
      clear. induction l; csimpl; congruence. }
  split; [done|]. unfold resolve. by rewrite Hcomp.
Qed.

(** Two resolutions of one id took the same components. *)
Lemma resolve_from_unique t l1 l2 c :
  tree_ok t → (∀ x, x ∈ l1 → x ≠ []) → (∀ x, x ∈ l2 → x ≠ []) →
  resolve_from t (tr_expected_root t) l1 = Ok c →
  resolve_from t (tr_expected_root t) l2 = Ok c → l1 = l2.
Proof.
  intros Ht. revert l2 c. induction l1 as [|n1 l1 IH] using rev_ind; intros l2 c H1 H2 Hr1 Hr2.
  - destruct l2 as [|n2 l2 _] using rev_ind; [done|].
    injection Hr1 as <-. apply resolve_from_snoc in Hr2 as (y & e & _ & (x & <- & He)%tree_get_Some & Hc).
    assert (Hn : text_bytes x ≠ []) by (apply H2, elem_of_app; right; left).
    pose proof (ok_keys t Ht _ _ He) as [= _ ->].
    by destruct (ok_valid t Ht _ _ He Hn).
  - apply resolve_from_snoc in Hr1 as (y1 & e1 & Hl1 & (x1 & <- & He1)%tree_get_Some & Hc1).
    assert (Hn1 : text_bytes x1 ≠ []) by (apply H1, elem_of_app; right; left).
    destruct l2 as [|n2 l2 _] using rev_ind.
    + injection Hr2 as <-. pose proof (ok_keys t Ht _ _ He1) as [= _ ->].
      by destruct (ok_valid t Ht _ _ He1 Hn1).
    + apply resolve_from_snoc in Hr2 as (y2 & e2 & Hl2 & (x2 & <- & He2)%tree_get_Some & Hc2).
      assert (Hk : (y1, x1) = (y2, x2)) by (eapply (ok_unique t Ht); [done|done|congruence]).
      injection Hk as <- <-. f_equal. apply (IH l2 y1); [| |done|done].
      * intros x Hx. apply H1, elem_of_app. by left.
      * intros x Hx. apply H2, elem_of_app. by left.
Qed.

(** ** The descendant walk *)

(** [a] is [c] or one of the directories above it, the root excluded. *)
Inductive above (t : DirectoryTree) (a : FileId) : FileId → Prop :=
  | above_self : a ≠ tr_expected_root t → above t a a
  | above_up c e : c ≠ tr_expected_root t → find_child t c = Some e →
                   above t a (de_parent e) → above t a c.

Lemma is_descendant_loop_spec t fuel c a r :
  is_descendant_loop t fuel c a = Some r → r = true ↔ above t a c.
Proof.
  revert c. induction fuel as [|fuel IH]; intros c; cbn; [done|].
  case_bool_decide as Hroot.
  { intros [= <-]. split; [done|]. intros H. by inversion H; subst. }
  case_bool_decide as Ha.
  { intros [= <-]. split; [|done]. intros _. subst. by constructor. }
  destruct (find_child t c) as [e|] eqn:He.
  - intros Hr%IH. rewrite Hr. split; [intros; by eapply above_up|].
    intros H. inversion H; subst; [done|]. by simplify_eq.
  - intros [= <-]. split; [done|]. intros H. inversion H; subst; [done|]. by simplify_eq.
Qed.

Lemma is_descendant_loop_climb t fuel c a b n :
  climb t c b n → (n < fuel)%nat → is_descendant_loop t fuel c a ≠ None.
Proof.
  intros H. revert fuel. induction H as [|c e b n Hc He H IH]; intros fuel Hf;
    (destruct fuel as [|fuel]; [lia|]); cbn.
  - by rewrite bool_decide_eq_true_2.
  - rewrite bool_decide_eq_false_2 by done. case_bool_decide; [done|]. rewrite He.
    apply IH. lia.
Qed.

Lemma is_descendant_total t c a : tree_ok t → is_descendant t c a ≠ None.
Proof.
  intros Ht. unfold is_descendant. destruct (find_child t c) as [e|] eqn:He.
  - apply find_child_Some in He as [<- [k Hk]].
    destruct (decide (text_bytes (de_name e) = [])) as [Hn|Hn].
    + rewrite (ok_names t Ht k e Hk Hn). cbn. eapply is_descendant_loop_climb; [constructor|].
      unfold walk_fuel. lia.
    + destruct (ok_graph t Ht k e Hk Hn) as [_ (r & Hr)].
      apply path_len_climb in Hr as (b & n & Hclimb & Hlt & _).
      by eapply is_descendant_loop_climb.
  - unfold walk_fuel. cbn. case_bool_decide; [done|]. case_bool_decide; [done|]. by rewrite He.
Qed.

(** ** Properties *)

(** The trees a program can hold: loaded from entries, then updated. *)
Inductive tree_reachable (root : FileId) : DirectoryTree → Prop :=
  | reach_load l t : from_dirents root l = Ok t → tree_reachable root t
  | reach_link t p n c d t' :
      tree_reachable root t → link t p n c d = Ok t' → tree_reachable root t'
  | reach_unlink t p n t' c :
      tree_reachable root t → unlink t p n = Ok (t', c) → tree_reachable root t'
  | reach_rename t sp sn dp dn t' :
      tree_reachable root t → rename t sp sn dp dn = Ok t' → tree_reachable root t'
  | reach_remove t f t' :
      tree_reachable root t → remove_id t f = Ok t' → tree_reachable root t'.

Lemma unlink_root t p n t' c :
  unlink t p n = Ok (t', c) → tr_expected_root t' = tr_expected_root t.
Proof. by intros (_ & e & _ & _ & _ & ->)%unlink_Ok. Qed.

Lemma tree_reachable_ok root t : tree_reachable root t → tree_ok t ∧ tr_expected_root t = root.
Proof.
  induction 1 as [l t H|t p n c d t' _ [Ht Hr] H|t p n t' c _ [Ht Hr] H
                 |t sp sn dp dn t' _ [Ht Hr] H|t f t' _ [Ht Hr] H].
  - by apply from_dirents_ok in H.
  - split; [by eapply tree_ok_link|]. by apply link_Ok in H as (_ & _ & _ & _ & _ & _ & ->).
  - split; [by eapply tree_ok_unlink|]. by rewrite (unlink_root _ _ _ _ _ H).
  - split; [by eapply tree_ok_rename|].
    by apply rename_Ok in H as [(-> & _)|(_ & _ & _ & _ & e & _ & _ & -> & _)].
  - split; [by eapply tree_ok_remove_id|]. revert H. unfold remove_id.
    case_bool_decide; [done|]. destruct (List.find _ _) as [[[p n] e]|]; [|by intros [= <-]].
    destruct (unlink t p n) as [[t1 c]|] eqn:Hu; [|done]. intros [= <-].
    by rewrite (unlink_root _ _ _ _ _ Hu).
Qed.

(** What a successful [link] adds to resolution, and that it adds nothing else. *)
Lemma resolve_from_link t p n c d t' l x :
  tree_ok t → link t p n c d = Ok t' → (∀ y, y ∈ l → y ≠ []) →
  resolve_from t' (tr_expected_root t) l = Ok x ↔
  resolve_from t (tr_expected_root t) l = Ok x ∨
  (x = c ∧ ∃ l', l = l' ++ [text_bytes n] ∧ resolve_from t (tr_expected_root t) l' = Ok p).
Proof.
  intros Ht Hlink Hl.
  pose proof (tree_ok_link _ _ _ _ _ _ Ht Hlink) as Ht'.
  apply link_Ok in Hlink as (_ & Hdir & Hroot & Hfresh & Hkey & _ & Heq).
  assert (Hgrow : ∀ l cur y, resolve_from t cur l = Ok y → resolve_from t' cur l = Ok y).
  { clear l Hl. induction l as [|m l IH]; intros cur y; cbn; [done|].
    destruct (tree_get t cur m) as [e|] eqn:He; [|done].
    apply tree_get_Some in He as (z & <- & He).
    assert (tree_get t' cur z = Some e) as ->; [|apply IH].
    apply tree_get_Some. exists z. split; [done|]. subst t'. cbn.
    rewrite lookup_insert_ne; [done|]. intros [= <- <-]. congruence. }
  assert (Hnotdir : is_dir t c = false).
  { apply not_true_iff_false. intros [?|(k & e & Hk & Hc & _)]%is_dir_true; [done|].
    by destruct (Hfresh k e Hk). }
  split.
  - revert x. induction l as [|m l IH] using rev_ind; intros x; [by left|].
    intros (y & e & Hy & (z & <- & He)%tree_get_Some & Hx)%resolve_from_snoc.
    destruct (IH ltac:(intros; apply Hl, elem_of_app; by left) y Hy) as [Hy'|[-> _]].
    + subst t'. cbn in He. apply lookup_insert_Some in He as [[[= -> ->] <-]|[_ He]].
      * right. split; [done|]. eauto.
      * left. apply resolve_from_snoc. exists y, e. split; [done|]. split; [|done].
        apply tree_get_Some. eauto.
    + exfalso. subst t'. cbn in He. apply lookup_insert_Some in He as [[[= -> ->] _]|[_ He]].
      { congruence. }
      pose proof (ok_keys t Ht _ _ He) as [= Hc Hz].
      assert (text_bytes (de_name e) ≠ []).
      { rewrite <-Hz. apply Hl, elem_of_app. right. by left. }
      destruct (ok_graph t Ht _ _ He) as [Hd _]; [done|]. congruence.
  - intros [H|(-> & l' & -> & Hp)]; [by apply Hgrow|].
    apply resolve_from_snoc. exists p, (mkDirent p n c d). split; [by apply Hgrow|].
    split; [|done]. apply tree_get_Some. exists n. split; [done|].
    subst t'. apply lookup_insert_eq.
Qed.

(** C25: every tree obtained by loading entries and then linking, unlinking, renaming and
    removing satisfies the invariant: keys match entries, the root entry is present, ids are
    linked once, parents are directories, and every entry reaches the root by a path of at
    most 4096 bytes (no cycle is ever formed). *)
Theorem tree_invariant root t :
  tree_reachable root t → tree_ok t ∧ tr_expected_root t = root.
Proof. apply tree_reachable_ok. Qed.

(** A well-formed tree is rebuilt from its own entry list, and an accepted non-empty
    list is returned unchanged by [dirents]: the entry list is a canonical form. *)
Theorem dirents_canonical root t l :
  tree_reachable root t →
  from_dirents root (dirents t) = Ok t ∧
  (∀ t', from_dirents root l = Ok t' → l ≠ [] → dirents t' = l).
Proof.
  intros [Ht <-]%tree_reachable_ok. split; [by apply from_dirents_dirents|].
  intros t' H Hl. by apply dirents_from_dirents in H.
Qed.

(** C28: in a reachable tree every linked id has a path that [resolve] accepts, within the
    path length limit, and any two paths that resolve to it have the same components. *)
Theorem resolve_bijective root t k e :
  tree_reachable root t → tr_entries t !! k = Some e →
  ∃ p comps, path_components p = Ok comps ∧ resolve t p = Ok (de_child e)
    ∧ lenN (text_bytes p) <= MAX_PATH_BYTES
    ∧ ∀ p', resolve t p' = Ok (de_child e) → path_components p' = Ok comps.
Proof.
  intros [Ht _]%tree_reachable_ok Hk.
  assert (∃ b n, climb t (de_child e) b n ∧ b + (N.of_nat n - 1) <= MAX_PATH_BYTES)
    as (b & n & Hclimb & Hmax).
  { destruct (decide (text_bytes (de_name e) = [])) as [Hn|Hn].
    - rewrite (ok_names t Ht k e Hk Hn). exists 0, 0%nat. split; [constructor|].
      unfold MAX_PATH_BYTES. lia.
    - destruct (ok_graph t Ht k e Hk Hn) as [_ (r & Hr)].
      apply path_len_climb in Hr as (b & n & Hclimb & _ & -> & Hr). eauto. }
  destruct (climb_names t _ b n Ht Hclimb) as (l & Hlen & Hv & Hb & Hres).
  assert (Hsize : foldr (λ x acc, lenN (text_bytes x) + acc) 0 l + (lenN l - 1) <= MAX_PATH_BYTES).
  { unfold lenN at 2. by rewrite Hb, Hlen. }
  destruct (resolve_path t l _ Hv Hsize Hres) as (p & Hp & Hcomp & Hpr).
  exists p, (text_bytes <$> l). split; [done|]. split; [done|]. split.
  { revert Hcomp. unfold path_components.
    by destruct (N.ltb_spec MAX_PATH_BYTES (lenN (text_bytes p))). }
  intros p' Hp'. unfold resolve in Hp'.
  destruct (path_components p') as [l'|] eqn:Hc'; [|done]. cbn in Hp'. f_equal.
  eapply (resolve_from_unique t); [done| | |done|done].
  - intros x Hx. by eapply validate_name_nonempty, path_components_valid.
  - intros x (y & -> & Hy)%list_elem_of_fmap. by eapply validate_name_nonempty, Hv.
Qed.

(** After a successful [link] exactly one more id resolves: a path leads to the new
    child when its parent path led to the link's parent and its last component is the new
    name; every other path resolves as before. *)
Theorem link_resolves root t p n c d t' path comps x :
  tree_reachable root t → link t p n c d = Ok t' → path_components path = Ok comps →
  resolve t' path = Ok x ↔
  resolve t path = Ok x ∨
  (x = c ∧ ∃ above_, comps = above_ ++ [text_bytes n] ∧ resolve_from t root above_ = Ok p).
Proof.
  intros [Ht <-]%tree_reachable_ok Hlink Hcomp. unfold resolve. rewrite Hcomp. cbn.
  assert (tr_expected_root t' = tr_expected_root t) as ->.
  { by apply link_Ok in Hlink as (_ & _ & _ & _ & _ & _ & ->). }
  eapply resolve_from_link; [done|done|]. intros y Hy.
  by eapply validate_name_nonempty, path_components_valid.
Qed.

(** C27: in a reachable tree the unguarded walk of [is_descendant] terminates within the
    fuel, and answers whether [ancestor] is [candidate] or a directory above it. *)
Theorem is_descendant_terminates root t candidate ancestor :
  tree_reachable root t →
  ∃ r, is_descendant t candidate ancestor = Some r ∧ (r = true ↔ above t ancestor candidate).
Proof.
  intros [Ht _]%tree_reachable_ok.
  destruct (is_descendant t candidate ancestor) as [r|] eqn:E.
  - exists r. split; [done|]. by eapply is_descendant_loop_spec.
  - by destruct (is_descendant_total t candidate ancestor Ht).
Qed.

(** C26: a successful [rename] to another place frees the source name, puts the same id under
    the destination name, and leaves every other entry, and so the set of linked ids,
    unchanged. *)
Theorem rename_moves root t sp sn dp dn t' :
  tree_reachable root t → rename t sp sn dp dn = Ok t' → (sp, sn) ≠ (dp, dn) →
  ∃ e, tr_entries t !! (sp, sn) = Some e
    ∧ tr_entries t' !! (sp, sn) = None
    ∧ tr_entries t' !! (dp, dn) = Some (mkDirent dp dn (de_child e) (de_is_dir e))
    ∧ (∀ k, k ≠ (sp, sn) → k ≠ (dp, dn) → tr_entries t' !! k = tr_entries t !! k)
    ∧ (∀ id, (∃ k e', tr_entries t' !! k = Some e' ∧ de_child e' = id) ↔
             (∃ k e', tr_entries t !! k = Some e' ∧ de_child e' = id))
    ∧ (de_is_dir e = true → ¬ above t (de_child e) dp).
Proof.
  intros [Ht _]%tree_reachable_ok Hr Hne. pose proof Hr as Hr'.
  apply rename_Ok in Hr as [(_ & -> & -> & _)|(_ & _ & _ & Hnone & e & He & _ & -> & _)]; [done|].
  exists e. cbn. split; [done|]. split; [|split; [|split; [|split]]].
  - by rewrite lookup_insert_ne, lookup_delete_eq.
  - by rewrite lookup_insert_eq.
  - intros k H1 H2. by rewrite lookup_insert_ne, lookup_delete_ne.
  - intros id. split.
    + intros (k & e' & [[<- <-]|[_ [_ Hk]%lookup_delete_Some]]%lookup_insert_Some & Hid);
        [|by eauto]. exists (sp, sn), e. done.
    + intros (k & e' & Hk & Hid). destruct (decide (k = (sp, sn))) as [->|Hks].
      * exists (dp, dn). eexists. rewrite lookup_insert_eq. split; [done|]. cbn. congruence.
      * exists k, e'. rewrite lookup_insert_ne, lookup_delete_ne; [done|done|congruence].
  - intros Hd Habove. revert Hr'. unfold rename.
    destruct (validate_name sn) as [[]|]; [|done]. destruct (validate_name dn) as [[]|]; [|done].
    cbn [res_bind]. destruct (is_dir t dp); [|done]. cbn [negb].
    rewrite bool_decide_eq_false_2 by done. rewrite Hnone, He, Hd.
    case_bool_decide; [done|].
    destruct (is_descendant t dp (de_child e)) as [r|] eqn:E; [|done]. cbn.
    apply is_descendant_loop_spec in E. by rewrite (proj2 E Habove).
Qed.

(** ** Witnesses *)

Definition ex_root : FileId := array_N 32 1.
Definition ex_dir : FileId := array_N 32 2.
Definition ex_file : FileId := array_N 32 3.
Definition ex_name (s : string) : text := default text_empty (text_of_bytes (bstr s)).

Definition ex_tree : DirectoryTree :=
  match link (DirectoryTree_new ex_root) ex_root (ex_name "docs") ex_dir true with
  | Ok t => t
  | Err _ => DirectoryTree_new ex_root
  end.

Definition ex_tree2 : DirectoryTree :=
  match link ex_tree ex_dir (ex_name "a.txt") ex_file false with
  | Ok t => t
  | Err _ => ex_tree
  end.

Lemma ex_tree2_reachable : tree_reachable ex_root ex_tree2.
Proof.
  assert (H0 : tree_reachable ex_root (DirectoryTree_new ex_root)) by (by apply (reach_load _ [])).
  assert (H1 : tree_reachable ex_root ex_tree).
  { apply (reach_link _ _ ex_root (ex_name "docs") ex_dir true _ H0). vm_decide. }
  apply (reach_link _ _ ex_dir (ex_name "a.txt") ex_file false _ H1). vm_decide.
Qed.

Lemma tree_invariant_witness : tree_ok ex_tree2 ∧ tr_expected_root ex_tree2 = ex_root.
Proof. apply tree_invariant. apply ex_tree2_reachable. Defined.

Lemma dirents_canonical_witness :
  from_dirents ex_root (dirents ex_tree2) = Ok ex_tree2 ∧
  (∀ t', from_dirents ex_root (dirents ex_tree2) = Ok t' → dirents ex_tree2 ≠ [] →
    dirents t' = dirents ex_tree2).
Proof. apply (dirents_canonical ex_root ex_tree2). apply ex_tree2_reachable. Defined.

Lemma resolve_bijective_witness :
  ∃ p comps, path_components p = Ok comps ∧ resolve ex_tree2 p = Ok ex_file
    ∧ lenN (text_bytes p) <= MAX_PATH_BYTES
    ∧ ∀ p', resolve ex_tree2 p' = Ok ex_file → path_components p' = Ok comps.
Proof.
  apply (resolve_bijective ex_root ex_tree2 (ex_dir, ex_name "a.txt")
           (mkDirent ex_dir (ex_name "a.txt") ex_file false)).
  - apply ex_tree2_reachable.
  - vm_decide.
Defined.

Lemma ex_tree_reachable : tree_reachable ex_root ex_tree.
Proof.
  apply (reach_link _ (DirectoryTree_new ex_root) ex_root (ex_name "docs") ex_dir true).
  - by apply (reach_load _ []).
  - vm_decide.
Qed.

Lemma link_resolves_witness :
  resolve ex_tree2 (ex_name "/docs/a.txt") = Ok ex_file ↔
  resolve ex_tree (ex_name "/docs/a.txt") = Ok ex_file ∨
  (ex_file = ex_file ∧ ∃ above_, [bstr "docs"; bstr "a.txt"] = above_ ++ [bstr "a.txt"]
     ∧ resolve_from ex_tree ex_root above_ = Ok ex_dir).
Proof.
  apply (link_resolves ex_root ex_tree ex_dir (ex_name "a.txt") ex_file false ex_tree2).
  - apply ex_tree_reachable.
  - vm_decide.
  - vm_decide.
Defined.

Lemma is_descendant_terminates_witness :
  ∃ r, is_descendant ex_tree2 ex_file ex_dir = Some r ∧ (r = true ↔ above ex_tree2 ex_dir ex_file).
Proof. apply (is_descendant_terminates ex_root). apply ex_tree2_reachable. Defined.

Definition ex_renamed : DirectoryTree :=
  match rename ex_tree2 ex_dir (ex_name "a.txt") ex_root (ex_name "b.txt") with
  | Ok t => t
  | Err _ => ex_tree2
  end.

Lemma rename_moves_witness :
  ∃ e, tr_entries ex_tree2 !! (ex_dir, ex_name "a.txt") = Some e
    ∧ tr_entries ex_renamed !! (ex_dir, ex_name "a.txt") = None
    ∧ tr_entries ex_renamed !! (ex_root, ex_name "b.txt")
      = Some (mkDirent ex_root (ex_name "b.txt") (de_child e) (de_is_dir e))
    ∧ (∀ k, k ≠ (ex_dir, ex_name "a.txt") → k ≠ (ex_root, ex_name "b.txt") →
         tr_entries ex_renamed !! k = tr_entries ex_tree2 !! k)
    ∧ (∀ id, (∃ k e', tr_entries ex_renamed !! k = Some e' ∧ de_child e' = id) ↔
             (∃ k e', tr_entries ex_tree2 !! k = Some e' ∧ de_child e' = id))
    ∧ (de_is_dir e = true → ¬ above ex_tree2 (de_child e) ex_root).
Proof.
  apply (rename_moves ex_root).
  - apply ex_tree2_reachable.
  - vm_decide.
  - vm_decide.
Defined.
