(* ===== verification/Wire.v ===== *)
(** * Wire codec combinators

    The byte writers ([push_length], [push_variable]) and the [Reader] of [encoding.rs],
    with the reasoning principle every codec proof of the development uses: a decoder
    is described by the relation between the value it returns, the bytes it consumes and
    the bytes it leaves ([spec]), and that relation composes through the decoder's control
    flow. *)
From S2P Require Export Types.
From Stdlib Require Import Lia ZifyN ZifyNat.

Open Scope N_scope.

(** ** Writers

    An encoder is the bytes it appends to [out], or its first error. *)

Definition cat (a b : Result bytes) : Result bytes :=
  let? x := a in let? y := b in Ok (x ++ y).
Infix "+++" := cat (at level 60, right associativity) : qfs_scope.

(** [out.extend_from_slice(value)] and [out.push(value)]. *)
Definition put (value : bytes) : Result bytes := Ok value.
Definition put_byte (value : byte) : Result bytes := Ok [value].
Definition put_u64 (value : u64) : Result bytes := Ok (u64_to_be value).

Definition push_length (len : N) : Result bytes :=
  if len <? u32_limit then Ok (be_bytes 4 len)
  else Err (InvalidInput "variable field exceeds u32 encoding limit").

Definition push_variable (value : bytes) : Result bytes :=
  push_length (lenN value) +++ put value.

(** [push_variable(out, &encode(..)?)?]. *)
Definition push_encoded (value : Result bytes) : Result bytes :=
  let? v := value in push_variable v.

(** [for x in l { .. }] over an encoder of [x]. *)
Fixpoint put_each {A} (f : A → Result bytes) (l : list A) : Result bytes :=
  match l with
  | [] => Ok []
  | x :: l => f x +++ put_each f l
  end.

(** The same with a running order check on the elements' keys. *)
Fixpoint put_sorted {A K} `{Ord K} (key : A → K) (e : Error) (f : A → Result bytes)
    (previous : option K) (l : list A) : Result bytes :=
  match l with
  | [] => Ok []
  | x :: l =>
      if prev_geb previous (key x) then Err e
      else f x +++ put_sorted key e f (Some (key x)) l
  end.

(** ** The reader *)

(** [usize] is 64 bits wide. *)
Definition usize_limit : N := u64_limit.

Record Reader := mkReader {
  rd_bytes : bytes;
  rd_position : N;
}.

Definition Reader_new (l : bytes) : Reader := mkReader l 0.

(** [self.bytes.len().saturating_sub(self.position)] *)
Definition remaining (r : Reader) : N := lenN (rd_bytes r) - rd_position r.

(** A decoding step: a result and the advanced reader, or an error. *)
Definition Dec (A : Type) : Type := Reader → Result (A * Reader).

Definition dec_ret {A} (x : A) : Dec A := λ r, Ok (x, r).
Definition dec_err {A} (e : Error) : Dec A := λ _, Err e.
Definition dec_bind {A B} (d : Dec A) (k : A → Dec B) : Dec B := λ r,
  match d r with
  | Ok (x, r') => k x r'
  | Err e => Err e
  end.

(** [x?] on a result that does not come from the reader. *)
Definition dec_lift {A} (x : Result A) : Dec A := λ r,
  match x with
  | Ok v => Ok (v, r)
  | Err e => Err e
  end.

Notation "'let!' x := d 'in' k" := (dec_bind d (λ x, k))
  (at level 10, x pattern, d at level 200, k at level 200,
   format "'[v' 'let!'  x  :=  '[' d ']'  'in' '/' k ']'") : qfs_scope.

Notation "'guard!' b 'else' e 'in' k" := (if b : bool then k else dec_err e)
  (at level 10, b at level 200, e at level 200, k at level 200,
   format "'[v' 'guard!'  '[' b ']'  'else'  '[' e ']'  'in' '/' k ']'") : qfs_scope.

Definition dec_remaining : Dec N := λ r, Ok (remaining r, r).

Definition take (len : N) : Dec bytes := λ r,
  let end_ := rd_position r + len in
  if usize_limit <=? end_ then Err (InvalidInput "local encoding length overflow")
  else if lenN (rd_bytes r) <? end_ then Err (InvalidInput "truncated local encoding")
  else Ok (firstn (N.to_nat len) (skipn (N.to_nat (rd_position r)) (rd_bytes r)),
           mkReader (rd_bytes r) end_).

(** [copy_from_slice] would panic on a length mismatch, which [take] excludes. *)
Definition dec_array (n : nat) : Dec (array n) :=
  let! value := take (N.of_nat n) in
  match array_of_bytes n value with
  | Some a => dec_ret a
  | None => dec_err (InvalidInput "unreachable")
  end.

Definition dec_u32 : Dec u32 :=
  let! a := dec_array 4 in dec_ret (default (U32 0 I) (u32_of_N (be_val a))).

Definition dec_byte : Dec byte :=
  let! a := dec_array 1 in dec_ret (default Byte.x00 (head (array_bytes a))).

Definition dec_u64 : Dec u64 := let! a := dec_array 8 in dec_ret (u64_from_be a).

Definition dec_variable : Dec bytes := let! len := dec_u32 in take len.

Definition dec_count (minimum_record_size : N) : Dec N :=
  let! count := dec_u32 in
  let! available := dec_remaining in
  guard! u32_N count <=? available / minimum_record_size
    else InvalidInput "invalid local encoding record count" in
  dec_ret (u32_N count).

Definition LOCAL_FORMAT_VERSION : byte := Byte.x01.

Definition require_prefix (prefix : bytes) : Dec unit :=
  let! value := take (lenN prefix) in
  guard! bool_decide (value = prefix) else InvalidInput "invalid local encoding magic" in
  dec_ret tt.

Definition require_version : Dec unit :=
  let! value := take 1 in
  guard! bool_decide (value = [LOCAL_FORMAT_VERSION])
    else InvalidInput "unsupported local encoding version" in
  dec_ret tt.

Definition finish : Dec unit := λ r,
  if remaining r =? 0 then Ok (tt, r)
  else Err (InvalidInput "trailing local encoding bytes").

(** A whole input: the decoder, from the first byte. *)
Definition run {A} (d : Dec A) (l : bytes) : Result A :=
  match d (Reader_new l) with
  | Ok (x, _) => Ok x
  | Err e => Err e
  end.

(** [for _ in 0..n { v.push(..) }] *)
Fixpoint dec_repeat {A} (n : nat) (d : Dec A) : Dec (list A) :=
  match n with
  | O => dec_ret []
  | S n => let! x := d in let! l := dec_repeat n d in dec_ret (x :: l)
  end.

(** The same with the previous element's key passed to each iteration. *)
Fixpoint dec_sorted {A K} (key : A → K) (n : nat) (previous : option K)
    (body : option K → Dec A) : Dec (list A) :=
  match n with
  | O => dec_ret []
  | S n =>
      let! x := body previous in
      let! l := dec_sorted key n (Some (key x)) body in
      dec_ret (x :: l)
  end.

(** A count, and as many elements. *)
Definition dec_vec {A} (minimum_record_size : N) (d : Dec A) : Dec (list A) :=
  let! count := dec_count minimum_record_size in dec_repeat (N.to_nat count) d.

Definition dec_sorted_vec {A K} (key : A → K) (minimum_record_size : N)
    (body : option K → Dec A) : Dec (list A) :=
  let! count := dec_count minimum_record_size in
  dec_sorted key (N.to_nat count) None body.

(** ** Relational specifications of decoders *)

Definition rest (r : Reader) : bytes := skipn (N.to_nat (rd_position r)) (rd_bytes r).

(** A slice is shorter than [usize::MAX] bytes. *)
Definition fits (l : bytes) : Prop := lenN l < usize_limit.

Definition reader_wf (r : Reader) : Prop :=
  rd_position r <= lenN (rd_bytes r) ∧ fits (rd_bytes r).

Definition consumes (r : Reader) (bs : bytes) (r' : Reader) : Prop :=
  rest r = bs ++ rest r' ∧ rd_bytes r' = rd_bytes r ∧
  rd_position r' = rd_position r + lenN bs.

(** [DecSpec d R]: [d] returns [x], leaving [tl], exactly when it can read a [bs]
    with [R x bs tl]. *)
Class DecSpec {A} (d : Dec A) (R : A → bytes → bytes → Prop) : Prop :=
  dec_spec : ∀ r x r', reader_wf r →
    d r = Ok (x, r') ↔ ∃ bs, R x bs (rest r') ∧ consumes r bs r'.
#[export] Hint Mode DecSpec ! ! - : typeclass_instances.

(** The decoder inverts the encoder [f]. *)
Definition encodes {A} (f : A → Result bytes) : A → bytes → bytes → Prop :=
  λ x bs _, f x = Ok bs.

Lemma rest_length r : reader_wf r → lenN (rest r) = remaining r.
Proof.
  intros [Hp _]. unfold rest, remaining, lenN in *. rewrite length_skipn. lia.
Qed.

Lemma consumes_wf r bs r' : reader_wf r → consumes r bs r' → reader_wf r'.
Proof.
  intros [Hp Hf] (Hr & Hb & Hpos). unfold reader_wf. rewrite Hb, Hpos. split; [|done].
  pose proof (rest_length r (conj Hp Hf)) as Hl. rewrite Hr, lenN_app in Hl.
  unfold remaining in Hl. lia.
Qed.

Lemma consumes_nil r r' : consumes r [] r' ↔ r' = r.
Proof.
  split.
  - intros (_ & Hb & Hp). destruct r, r'; simpl in *. f_equal; [done|].
    rewrite Hp. unfold lenN. simpl. lia.
  - intros ->. unfold consumes. rewrite (@lenN_nil byte). simpl. repeat split; lia.
Qed.

Lemma consumes_app r b1 b2 r'' :
  consumes r (b1 ++ b2) r'' ↔ ∃ r', consumes r b1 r' ∧ consumes r' b2 r''.
Proof.
  split.
  - intros (Hr & Hb & Hp).
    exists (mkReader (rd_bytes r) (rd_position r + lenN b1)).
    assert (rest (mkReader (rd_bytes r) (rd_position r + lenN b1)) = b2 ++ rest r'') as Hr1.
    { unfold rest at 1. simpl. rewrite N2Nat.inj_add, Nat.add_comm, <-skipn_skipn.
      fold (rest r). rewrite Hr, <-app_assoc. unfold lenN. rewrite Nat2N.id.
      by rewrite drop_app_length. }
    rewrite lenN_app in Hp. unfold consumes. rewrite Hr1. simpl.
    rewrite Hr, app_assoc. repeat split; [done|lia].
  - intros (r' & (Hr & Hb & Hp) & (Hr' & Hb' & Hp')).
    unfold consumes. rewrite Hr, Hr', app_assoc, lenN_app. repeat split; [congruence|lia].
Qed.

#[export] Instance spec_ret {A} (y : A) :
  DecSpec (dec_ret y) (λ x bs tl, x = y ∧ bs = []).
Proof.
  intros r x r' Hwf. unfold dec_ret. split.
  - intros [= -> ->]. exists []. split; [done|]. by apply consumes_nil.
  - intros (bs & [-> ->] & ->%consumes_nil). done.
Qed.

#[export] Instance spec_err {A} e : DecSpec (@dec_err A e) (λ _ _ _, False).
Proof. intros r x r' _. unfold dec_err. naive_solver. Qed.

#[export] Instance spec_lift {A} (v : Result A) :
  DecSpec (dec_lift v) (λ x bs tl, v = Ok x ∧ bs = []).
Proof.
  intros r x r' Hwf. unfold dec_lift. destruct v as [v|e].
  - rewrite (spec_ret v r x r' Hwf). naive_solver.
  - naive_solver.
Qed.

#[export] Instance spec_bind {A B} (d : Dec A) (k : A → Dec B) R S :
  DecSpec d R → (∀ x, DecSpec (k x) (S x)) →
  DecSpec (dec_bind d k)
    (λ y bs tl, ∃ x b1 b2, S x y b2 tl ∧ R x b1 (b2 ++ tl) ∧ bs = b1 ++ b2).
Proof.
  intros Hd Hk r y r'' Hwf. unfold dec_bind. split.
  - destruct (d r) as [[x r']|] eqn:E; [|done]. intros E'.
    apply Hd in E as (b1 & HR & Hc); [|done].
    apply Hk in E' as (b2 & HS & Hc'); [|by eapply consumes_wf].
    exists (b1 ++ b2). split; [|apply consumes_app; eauto].
    exists x, b1, b2. destruct Hc' as (Hr & _). rewrite <-Hr. done.
  - intros (bs & (x & b1 & b2 & HS & HR & ->) & Hc).
    apply consumes_app in Hc as (r' & Hc & Hc').
    assert (d r = Ok (x, r')) as ->.
    { apply Hd; [done|]. exists b1. split; [|done]. destruct Hc' as (-> & _). done. }
    apply Hk; [by eapply consumes_wf|]. eauto.
Qed.

#[export] Instance spec_if {A} (b : bool) (d1 d2 : Dec A) R1 R2 :
  DecSpec d1 R1 → DecSpec d2 R2 →
  DecSpec (if b then d1 else d2) (λ x bs tl, if b then R1 x bs tl else R2 x bs tl).
Proof. by destruct b. Qed.

#[export] Instance spec_guard {A} (b : bool) (d : Dec A) e R :
  DecSpec d R → DecSpec (if b then d else dec_err e) (λ x bs tl, b = true ∧ R x bs tl) | 0.
Proof.
  intros Hd r x r' Hwf. destruct b.
  - rewrite (Hd r x r' Hwf). naive_solver.
  - unfold dec_err. naive_solver.
Qed.

#[export] Instance spec_option {A B} (o : option B) (d1 : B → Dec A) d2 R1 R2 :
  (∀ v, DecSpec (d1 v) (R1 v)) → DecSpec d2 R2 →
  DecSpec (match o with Some v => d1 v | None => d2 end)
    (λ x bs tl, match o with Some v => R1 v x bs tl | None => R2 x bs tl end).
Proof. by destruct o. Qed.

#[export] Instance spec_pair {A B C} (p : B * C) (d : B → C → Dec A) R :
  (∀ v w, DecSpec (d v w) (R v w)) →
  DecSpec (let (v, w) := p in d v w) (λ x bs tl, R p.1 p.2 x bs tl).
Proof. by destruct p. Qed.

Lemma spec_iff {A} (d : Dec A) R R' :
  DecSpec d R → (∀ x bs tl, R x bs tl ↔ R' x bs tl) → DecSpec d R'.
Proof. intros Hd HR r x r' Hwf. rewrite (Hd r x r' Hwf). naive_solver. Qed.

#[export] Instance spec_remaining :
  DecSpec dec_remaining (λ n bs tl, n = lenN tl ∧ bs = []).
Proof.
  intros r x r' Hwf. unfold dec_remaining. split.
  - intros [= <- <-]. exists []. rewrite rest_length by done.
    split; [done|]. by apply consumes_nil.
  - intros (bs & [-> ->] & ->%consumes_nil). by rewrite rest_length.
Qed.

#[export] Instance spec_take n :
  DecSpec (take n) (λ v bs tl, bs = v ∧ lenN v = n).
Proof.
  intros r v r' Hwf. pose proof (rest_length r Hwf) as Hl. destruct Hwf as [Hp Hf].
  unfold fits, remaining in *. unfold take. split.
  - destruct (N.leb_spec usize_limit (rd_position r + n)); [done|].
    destruct (N.ltb_spec (lenN (rd_bytes r)) (rd_position r + n)); [done|].
    intros [= <- <-]. fold (rest r).
    assert (lenN (firstn (N.to_nat n) (rest r)) = n) as Hn.
    { unfold lenN in *. rewrite length_firstn. lia. }
    eexists. split; [done|]. unfold consumes. simpl. rewrite Hn.
    split; [|done]. unfold rest. simpl.
    rewrite N2Nat.inj_add, Nat.add_comm, <-skipn_skipn. symmetry. apply firstn_skipn.
  - intros (bs & [-> <-] & Hr & Hb & Hpos).
    rewrite Hr, lenN_app in Hl.
    destruct (N.leb_spec usize_limit (rd_position r + lenN v)); [lia|].
    destruct (N.ltb_spec (lenN (rd_bytes r)) (rd_position r + lenN v)); [lia|].
    fold (rest r). rewrite Hr. unfold lenN at 1. rewrite Nat2N.id, take_app_length.
    destruct r'; simpl in *. by subst.
Qed.

#[export] Instance spec_finish : DecSpec finish (λ _ bs tl, bs = [] ∧ tl = []).
Proof.
  intros r [] r' Hwf. unfold finish. rewrite <-(rest_length r Hwf). split.
  - destruct (N.eqb_spec (lenN (rest r)) 0) as [E|]; [|done]. intros [= <-].
    exists []. split; [|by apply consumes_nil]. split; [done|].
    unfold lenN in E. destruct (rest r); [done|simpl in E; lia].
  - intros (bs & [-> Hr] & ->%consumes_nil). by rewrite Hr.
Qed.

(** A decoder whose every success leaves no input behind decides the whole input. *)
Lemma run_spec {A} (d : Dec A) R l x :
  DecSpec d R → (∀ x bs tl, R x bs tl → tl = []) → fits l → run d l = Ok x ↔ R x l [].
Proof.
  intros Hd Hnil Hl. unfold run.
  assert (Hwf : reader_wf (Reader_new l)) by (split; [apply N.le_0_l|done]).
  split.
  - destruct (d (Reader_new l)) as [[y r']|] eqn:E; [|done]. intros [= ->].
    apply Hd in E as (bs & HR & Hc & _); [|done]. pose proof (Hnil _ _ _ HR) as Hr'.
    rewrite Hr' in *. unfold rest in Hc. simpl in Hc. by rewrite app_nil_r in Hc; subst.
  - intros HR.
    assert (d (Reader_new l) = Ok (x, mkReader l (lenN l))) as ->; [|done].
    assert (rest (mkReader l (lenN l)) = []) as Hr.
    { unfold rest, lenN. simpl. rewrite Nat2N.id. apply drop_all. }
    apply Hd; [done|]. exists l. rewrite Hr. split; [done|].
    unfold consumes. rewrite Hr, app_nil_r. by repeat split.
Qed.

(** ** Encoders, inverted and introduced *)

Lemma cat_Ok a b l :
  a +++ b = Ok l ↔ ∃ x y, a = Ok x ∧ b = Ok y ∧ l = x ++ y.
Proof.
  unfold cat. destruct a as [x|], b as [y|]; simpl; naive_solver.
Qed.

Lemma cat_intro a b x y : a = Ok x → b = Ok y → a +++ b = Ok (x ++ y).
Proof. by intros -> ->. Qed.

Lemma cat_assoc a b c : (a +++ b) +++ c = a +++ (b +++ c).
Proof.
  destruct a, b, c; simpl; try done. unfold cat; simpl. by rewrite app_assoc.
Qed.

Lemma cat_nil_r a : a +++ put [] = a.
Proof. unfold cat, put. destruct a; simpl; [by rewrite app_nil_r|done]. Qed.

Lemma put_Ok v l : put v = Ok l ↔ l = v.
Proof. unfold put. naive_solver. Qed.
Lemma put_byte_Ok v l : put_byte v = Ok l ↔ l = [v].
Proof. unfold put_byte. naive_solver. Qed.
Lemma put_u64_Ok v l : put_u64 v = Ok l ↔ l = u64_to_be v.
Proof. unfold put_u64. naive_solver. Qed.

Lemma push_length_Ok n l : push_length n = Ok l ↔ n < u32_limit ∧ l = be_bytes 4 n.
Proof. unfold push_length. destruct (N.ltb_spec n u32_limit); naive_solver lia. Qed.

Lemma push_variable_Ok v l :
  push_variable v = Ok l ↔ lenN v < u32_limit ∧ l = be_bytes 4 (lenN v) ++ v.
Proof.
  unfold push_variable. rewrite cat_Ok. setoid_rewrite push_length_Ok.
  setoid_rewrite put_Ok. naive_solver.
Qed.

Lemma push_encoded_Ok v l :
  push_encoded v = Ok l ↔ ∃ x, v = Ok x ∧ push_variable x = Ok l.
Proof. unfold push_encoded. destruct v; simpl; naive_solver. Qed.

Lemma push_variable_fits v l : push_variable v = Ok l → fits v.
Proof.
  rewrite push_variable_Ok. unfold fits, usize_limit, u64_limit, u32_limit. lia.
Qed.

Lemma push_variable_len v l : push_variable v = Ok l → lenN l = 4 + lenN v.
Proof. rewrite push_variable_Ok. intros [_ ->]. by rewrite lenN_app, lenN_be_bytes. Qed.

#[global] Opaque put put_byte put_u64 push_length push_variable cat push_encoded.

(** ** Primitive decoders *)

Lemma array_bytes_eq {n} (a : array n) l : array_of_bytes n l = Some a → l = a.
Proof. by intros ->%array_of_bytes_Some. Qed.

#[export] Instance spec_array n :
  DecSpec (dec_array n) (encodes (λ a, put (array_bytes a))).
Proof.
  eapply spec_iff.
  { apply spec_bind; [apply _|]. intros v.
    apply (spec_option (array_of_bytes n v)); [intros a; apply spec_ret|apply spec_err]. }
  intros a bs tl. unfold encodes. rewrite put_Ok. split.
  - intros (v & b1 & b2 & Ha & [-> _] & ->).
    destruct (array_of_bytes n v) as [a'|] eqn:E; [|done].
    destruct Ha as [-> ->]. rewrite app_nil_r. by apply array_bytes_eq.
  - intros ->. exists a, a, []. rewrite array_of_bytes_array, app_nil_r.
    repeat split. unfold lenN. by rewrite length_array.
Qed.

#[export] Instance spec_u64 : DecSpec dec_u64 (encodes put_u64).
Proof.
  eapply spec_iff; [apply _|]. intros x bs tl. unfold encodes.
  setoid_rewrite put_Ok. rewrite put_u64_Ok. split.
  - intros (a & b1 & b2 & [-> ->] & -> & ->). by rewrite app_nil_r, u64_to_be_from_be.
  - intros ->.
    destruct (array_of_bytes_is_Some 8 (u64_to_be x) (length_u64_to_be x)) as (a & _ & Ha).
    exists a, a, []. rewrite app_nil_r, Ha. repeat split.
    apply u64_to_be_inj. by rewrite u64_to_be_from_be, Ha.
Qed.

#[export] Instance spec_u32 : DecSpec dec_u32 (encodes (λ n, push_length (u32_N n))).
Proof.
  assert (Hval : ∀ a : array 4,
    u32_N (default (U32 0 I) (u32_of_N (be_val a))) = be_val a).
  { intros a. pose proof (be_val_bound a) as Hb. unfold lenN in Hb. rewrite length_array in Hb.
    unfold u32_of_N. destruct (is_true_dec _) as [|p]; [done|].
    destruct p. by apply Is_true_true, N.ltb_lt. }
  eapply spec_iff; [apply _|]. intros x bs tl. unfold encodes.
  setoid_rewrite put_Ok. rewrite push_length_Ok. split.
  - intros (a & b1 & b2 & [-> ->] & -> & ->). split; [apply u32_bound|].
    rewrite app_nil_r, Hval. rewrite <-(length_array a) at 2.
    symmetry. apply be_bytes_be_val.
  - intros [Hx ->].
    destruct (array_of_bytes_is_Some 4 (be_bytes 4 x) (length_be_bytes 4 _)) as (a & _ & Ha).
    exists a, a, []. rewrite app_nil_r. repeat split; [|by rewrite Ha].
    apply u32_eq. rewrite Hval, Ha, be_val_be_bytes; [done|exact Hx].
Qed.

#[export] Instance spec_byte : DecSpec dec_byte (encodes put_byte).
Proof.
  eapply spec_iff; [apply _|]. intros x bs tl. unfold encodes.
  setoid_rewrite put_Ok. rewrite put_byte_Ok. split.
  - intros (a & b1 & b2 & [-> ->] & -> & ->). pose proof (length_array a) as Ha.
    destruct (array_bytes a) as [|b [|]]; try done.
  - intros ->. destruct (array_of_bytes_is_Some 1 [x] eq_refl) as (a & _ & Ha).
    exists a, a, []. rewrite Ha. done.
Qed.

#[export] Instance spec_variable : DecSpec dec_variable (encodes push_variable).
Proof.
  eapply spec_iff; [apply _|]. intros x bs tl. unfold encodes.
  setoid_rewrite push_length_Ok. rewrite push_variable_Ok. split.
  - intros (n & b1 & b2 & [-> Hn] & [? ->] & ->). by rewrite Hn.
  - intros [Hx ->]. destruct (u32_of_N (lenN x)) as [n|] eqn:E.
    + apply u32_of_N_Some in E. exists n, (be_bytes 4 (lenN x)), x. by rewrite E.
    + unfold u32_of_N in E. destruct (is_true_dec _) as [|p]; [done|].
      destruct p. by apply Is_true_true, N.ltb_lt.
Qed.

#[export] Instance spec_require_prefix p : DecSpec (require_prefix p) (encodes (λ _, put p)).
Proof.
  eapply spec_iff; [apply _|]. intros [] bs tl. unfold encodes. rewrite put_Ok. split.
  - intros (v & b1 & b2 & (Hb & _ & ->) & [-> _] & ->).
    apply bool_decide_eq_true in Hb as ->. apply app_nil_r.
  - intros ->. exists p, p, []. rewrite app_nil_r. repeat split. by apply bool_decide_eq_true.
Qed.

#[export] Instance spec_require_version :
  DecSpec require_version (encodes (λ _, put_byte LOCAL_FORMAT_VERSION)).
Proof.
  eapply spec_iff; [apply _|]. intros [] bs tl. unfold encodes. rewrite put_byte_Ok. split.
  - intros (v & b1 & b2 & (Hb & _ & ->) & [-> _] & ->).
    apply bool_decide_eq_true in Hb as ->. apply app_nil_r.
  - intros ->. exists [LOCAL_FORMAT_VERSION], [LOCAL_FORMAT_VERSION], [].
    done.
Qed.

(** [if reader.byte()? != v { return Err(e) }] *)
Definition dec_expect_byte (v : byte) (e : Error) : Dec unit :=
  let! x := dec_byte in guard! bool_decide (x = v) else e in dec_ret tt.

#[export] Instance spec_expect_byte v e : DecSpec (dec_expect_byte v e) (encodes (λ _, put_byte v)).
Proof.
  eapply spec_iff; [apply _|]. intros [] bs tl. unfold encodes. split.
  - intros (x & b1 & b2 & (Hb & _ & ->) & Hx & ->). rewrite app_nil_r.
    by apply bool_decide_eq_true in Hb as ->.
  - intros Hv. exists v, bs, []. rewrite app_nil_r. repeat split; [|done].
    by apply bool_decide_eq_true.
Qed.

#[export] Instance spec_count m :
  DecSpec (dec_count m) (λ n bs tl, push_length n = Ok bs ∧ n <= lenN tl / m).
Proof.
  eapply spec_iff; [apply _|]. intros n bs tl. unfold encodes. cbn beta.
  setoid_rewrite push_length_Ok. split.
  - intros (c & b1 & b2 & (w & b3 & b4 & (Hle & -> & ->) & [-> ->] & ->) & [Hc ->] & ->).
    apply N.leb_le in Hle. by rewrite !app_nil_r, ?app_nil_l in *.
  - intros [[Hn ->] Hle].
    unfold u32_of_N. destruct (is_true_dec (n <? u32_limit)) as [p|p].
    + exists (U32 n p), (be_bytes 4 n), []. rewrite app_nil_r. split; [|done].
      exists (lenN tl), [], []. repeat split. by apply N.leb_le.
    + destruct p. by apply Is_true_true, N.ltb_lt.
Qed.

(** ** Minimum sizes *)

Class MinLen {A} (f : A → Result bytes) (m : N) : Prop :=
  min_len : ∀ x b, f x = Ok b → m <= lenN b.
#[export] Hint Mode MinLen ! ! - : typeclass_instances.

Lemma put_array_len {n} (a : array n) b : put (array_bytes a) = Ok b → lenN b = N.of_nat n.
Proof. intros ->%put_Ok. unfold lenN. by rewrite length_array. Qed.

Lemma put_u64_len a b : put_u64 a = Ok b → lenN b = 8.
Proof. intros ->%put_u64_Ok. unfold lenN. by rewrite length_u64_to_be. Qed.

Lemma put_byte_len a b : put_byte a = Ok b → lenN b = 1.
Proof. by intros ->%put_byte_Ok. Qed.

Lemma push_length_len n b : push_length n = Ok b → lenN b = 4.
Proof. intros [_ ->]%push_length_Ok. by rewrite lenN_be_bytes. Qed.

Lemma push_encoded_len v b : push_encoded v = Ok b → 4 <= lenN b.
Proof. rewrite push_encoded_Ok. intros (x & _ & Hx%push_variable_len). lia. Qed.

#[export] Instance push_encoded_min {A} (f : A → Result bytes) :
  MinLen (λ x, push_encoded (f x)) 4.
Proof. intros x b. apply push_encoded_len. Qed.

#[export] Instance put_array_min : MinLen (λ a : array 32, put (array_bytes a)) 32.
Proof. by intros a b ->%put_array_len. Qed.

(** ** Sequences and ordered collections *)

Lemma put_each_Ok_cons {A} (f : A → Result bytes) x l bs :
  put_each f (x :: l) = Ok bs ↔
  ∃ b1 b2, f x = Ok b1 ∧ put_each f l = Ok b2 ∧ bs = b1 ++ b2.
Proof. simpl. apply cat_Ok. Qed.

Lemma put_each_min {A} (f : A → Result bytes) m l bs :
  (∀ x b, f x = Ok b → m <= lenN b) → put_each f l = Ok bs → m * lenN l <= lenN bs.
Proof.
  intros Hm. revert bs. induction l as [|x l IH]; intros bs.
  - intros [= <-]. rewrite (@lenN_nil A). lia.
  - intros (b1 & b2 & Hx%Hm & Hl%IH & ->)%put_each_Ok_cons.
    rewrite lenN_cons, lenN_app. lia.
Qed.

Lemma put_sorted_Ok {A K} `{Ord K} (key : A → K) e (f : A → Result bytes) previous l bs :
  put_sorted key e f previous l = Ok bs ↔
  put_each f l = Ok bs ∧ sorted_from previous (key <$> l).
Proof.
  revert previous bs. induction l as [|x l IH]; intros previous bs; simpl; [naive_solver|].
  destruct (prev_geb previous (key x)); [naive_solver|].
  rewrite !cat_Ok. setoid_rewrite IH. naive_solver.
Qed.

Lemma put_each_fmap {A B} (g : A → B) (f : B → Result bytes) l :
  put_each f (g <$> l) = put_each (λ x, f (g x)) l.
Proof. induction l as [|x l IH]; [done|]. csimpl. by rewrite IH. Qed.

Lemma put_each_ext {A} (f g : A → Result bytes) l :
  (∀ x, x ∈ l → f x = g x) → put_each f l = put_each g l.
Proof.
  induction l as [|x l IH]; intros Hfg; simpl; [done|].
  rewrite (Hfg x), IH; [done| |left]. intros y Hy. apply Hfg. by right.
Qed.

#[export] Instance spec_repeat {A} n (d : Dec A) f :
  DecSpec d (encodes f) →
  DecSpec (dec_repeat n d) (λ l bs _, length l = n ∧ put_each f l = Ok bs).
Proof.
  intros Hd. induction n as [|n IH]; simpl.
  - eapply spec_iff; [apply _|]. intros l bs tl. destruct l; naive_solver.
  - eapply spec_iff; [apply _|]. intros l bs tl. unfold encodes. split.
    + intros (x & b1 & b2 & (l' & b3 & b4 & (-> & ->) & (<- & Hl) & ->) & Hx & ->).
      split; [done|]. apply put_each_Ok_cons. rewrite app_nil_r. eauto.
    + destruct l as [|x l]; [intros [? _]; done|].
      intros [[= Hn] (b1 & b2 & Hx & Hl & ->)%put_each_Ok_cons].
      exists x, b1, b2. split; [|done]. exists l, b2, []. by rewrite app_nil_r.
Qed.

#[export] Instance spec_sorted {A K} `{Ord K} (key : A → K) n previous body f :
  (∀ p, DecSpec (body p) (λ x bs _, prev_geb p (key x) = false ∧ f x = Ok bs)) →
  DecSpec (dec_sorted key n previous body)
    (λ l bs _, length l = n ∧ sorted_from previous (key <$> l) ∧ put_each f l = Ok bs).
Proof.
  intros Hd. revert previous. induction n as [|n IH]; intros previous; simpl.
  - eapply spec_iff; [apply _|]. intros l bs tl. destruct l; naive_solver.
  - eapply spec_iff; [apply _|]. intros l bs tl. split.
    + intros (x & b1 & b2 & (l' & b3 & b4 & (-> & ->) & (<- & Hs & Hl) & ->) & [Hp Hx] & ->).
      split; [done|]. split; [done|]. apply put_each_Ok_cons. rewrite app_nil_r. eauto.
    + destruct l as [|x l]; [intros [? _]; done|].
      intros ([= Hn] & [Hp Hs] & (b1 & b2 & Hx & Hl & ->)%put_each_Ok_cons).
      exists x, b1, b2. split; [|done]. exists l, b2, []. by rewrite app_nil_r.
Qed.

(** The bound a [count] call puts on its result always holds for as many elements as it
    announces. *)
Lemma counted {A} (f : A → Result bytes) m (l : list A) bs tl :
  MinLen f (Npos m) → put_each f l = Ok bs → lenN l <= lenN (bs ++ tl) / Npos m.
Proof.
  intros Hmin Hl%(put_each_min f (Npos m) l bs Hmin).
  apply N.div_le_lower_bound; [lia|]. rewrite lenN_app. lia.
Qed.

#[export] Instance spec_vec {A} m (d : Dec A) f :
  DecSpec d (encodes f) → MinLen f (Npos m) →
  DecSpec (dec_vec (Npos m) d) (encodes (λ l, push_length (lenN l) +++ put_each f l)).
Proof.
  intros Hd Hmin. unfold dec_vec. eapply spec_iff; [apply _|].
  intros l bs tl. unfold encodes. rewrite cat_Ok. split.
  - intros (n & b1 & b2 & [Hn Hl] & [Hb _] & ->).
    exists b1, b2. split; [|done]. rewrite <-Hb. unfold lenN. by rewrite Hn, N2Nat.id.
  - intros (b1 & b2 & Hb & Hl & ->). exists (lenN l), b1, b2.
    unfold lenN at 1. rewrite Nat2N.id. repeat split; try done. by eapply counted.
Qed.

(** One iteration of a loop that rejects an element out of order and otherwise inverts
    [f]. *)
Class SortedBody {A K} `{Ord K} (key : A → K) (body : option K → Dec A)
    (f : A → Result bytes) : Prop :=
  sorted_body : ∀ p,
    DecSpec (body p) (λ x bs _, prev_geb p (key x) = false ∧ f x = Ok bs).
#[export] Hint Mode SortedBody ! ! - ! ! - : typeclass_instances.

#[export] Instance spec_sorted_vec {A K} `{Ord K} (key : A → K) m body f e :
  SortedBody key body f → MinLen f (Npos m) →
  DecSpec (dec_sorted_vec key (Npos m) body)
    (encodes (λ l, push_length (lenN l) +++ put_sorted key e f None l)).
Proof.
  intros Hd Hmin. unfold dec_sorted_vec. eapply spec_iff.
  { apply spec_bind; [apply _|]. intros n. apply spec_sorted, Hd. }
  intros l bs tl. unfold encodes. rewrite cat_Ok. setoid_rewrite put_sorted_Ok. split.
  - intros (n & b1 & b2 & (Hn & Hs & Hl) & [Hb _] & ->).
    exists b1, b2. split; [|done]. rewrite <-Hb. unfold lenN. by rewrite Hn, N2Nat.id.
  - intros (b1 & b2 & Hb & [Hl Hs] & ->). exists (lenN l), b1, b2.
    unfold lenN at 1. rewrite Nat2N.id. repeat split; try done. by eapply counted.
Qed.

(** A [BTreeMap] is written in key order and read back through the order check. *)
Definition put_map {K A} `{Countable K, !Ord K, !OrdLaws K} (f : K * A → Result bytes)
    (m : gmap K A) : Result bytes :=
  push_length (lenN (sorted_entries m)) +++ put_each f (sorted_entries m).

Definition put_set {K} `{Countable K, !Ord K, !OrdLaws K} (f : K → Result bytes)
    (s : gset K) : Result bytes :=
  push_length (lenN (sorted_elements s)) +++ put_each f (sorted_elements s).

Definition dec_map {K A} `{Countable K, !Ord K} (minimum_record_size : N)
    (body : option K → Dec (K * A)) : Dec (gmap K A) :=
  let! l := dec_sorted_vec fst minimum_record_size body in dec_ret (list_to_map l).

Definition dec_set {K} `{Countable K, !Ord K} (minimum_record_size : N)
    (body : option K → Dec K) : Dec (gset K) :=
  let! l := dec_sorted_vec id minimum_record_size body in dec_ret (list_to_set l).

#[export] Instance spec_map {K A} `{Countable K, !Ord K, !OrdLaws K} m
    (body : option K → Dec (K * A)) f :
  SortedBody fst body f → MinLen f (Npos m) →
  DecSpec (dec_map (Npos m) body) (encodes (put_map f)).
Proof.
  intros Hd Hmin. unfold dec_map.
  pose proof (spec_sorted_vec fst m body f AuthenticationFailed Hd Hmin) as Hv.
  eapply spec_iff; [apply _|].
  intros mp bs tl. unfold encodes, put_map. setoid_rewrite cat_Ok.
  setoid_rewrite put_sorted_Ok. setoid_rewrite sorted_from_None. split.
  - intros (l & b1 & b2 & [-> ->] & (b3 & b4 & Hb & [Hl Hs] & ->) & ->).
    exists b3, b4. rewrite sorted_entries_list_to_map by done. by rewrite app_nil_r.
  - intros (b1 & b2 & Hb & Hl & ->). exists (sorted_entries mp), (b1 ++ b2), [].
    rewrite list_to_map_sorted_entries, app_nil_r. repeat split.
    exists b1, b2. pose proof (sorted_entries_sorted mp). done.
Qed.

#[export] Instance spec_set {K} `{Countable K, !Ord K, !OrdLaws K} m
    (body : option K → Dec K) f :
  SortedBody id body f → MinLen f (Npos m) →
  DecSpec (dec_set (Npos m) body) (encodes (put_set f)).
Proof.
  intros Hd Hmin. unfold dec_set.
  pose proof (spec_sorted_vec id m body f AuthenticationFailed Hd Hmin) as Hv.
  eapply spec_iff; [apply _|].
  intros s bs tl. unfold encodes, put_set. setoid_rewrite cat_Ok.
  setoid_rewrite put_sorted_Ok. setoid_rewrite list_fmap_id.
  setoid_rewrite sorted_from_None. split.
  - intros (l & b1 & b2 & [-> ->] & (b3 & b4 & Hb & [Hl Hs] & ->) & ->).
    exists b3, b4. rewrite sorted_elements_list_to_set by done. by rewrite app_nil_r.
  - intros (b1 & b2 & Hb & Hl & ->). exists (sorted_elements s), (b1 ++ b2), [].
    rewrite list_to_set_sorted_elements, app_nil_r. repeat split.
    exists b1, b2. pose proof (sorted_elements_sorted s). done.
Qed.

(** ** Nested encodings *)

(** A decoder of a whole byte string that inverts an encoder. *)
Class Codec {A} (dec : bytes → Result A) (enc : A → Result bytes) : Prop :=
  codec_iff : ∀ l x, fits l → dec l = Ok x ↔ enc x = Ok l.
#[export] Hint Mode Codec ! ! - : typeclass_instances.

(** A decoder of a signed document given as its message and its detached signature. *)
Class SignedCodec {A} (dec : bytes → bytes → Result A) (enc : A → Result bytes)
    (sig : A → bytes) : Prop :=
  signed_iff : ∀ m s x, fits m → dec m s = Ok x ↔ enc x = Ok m ∧ sig x = s.
#[export] Hint Mode SignedCodec ! ! - - : typeclass_instances.

(** The encoder's relation, at the end of the input. *)
Definition encodes_all {A} (f : A → Result bytes) : A → bytes → bytes → Prop :=
  λ x bs tl, f x = Ok bs ∧ tl = [].

Lemma run_codec {A} (d : Dec A) f : DecSpec d (encodes_all f) → Codec (run d) f.
Proof.
  intros Hd l x Hl. rewrite (run_spec d (encodes_all f) l x Hd); [|by intros ??? [_ ?]|done].
  unfold encodes_all. naive_solver.
Qed.

Lemma run_signed {A} (d : bytes → Dec A) f sig :
  (∀ s, DecSpec (d s) (λ x bs tl, f x = Ok bs ∧ sig x = s ∧ tl = [])) →
  SignedCodec (λ m s, run (d s) m) f sig.
Proof.
  intros Hd m s x Hm. rewrite (run_spec (d s) _ m x (Hd s)); [|naive_solver|done].
  naive_solver.
Qed.

(** [decode(reader.variable()?)?] *)
Definition dec_nested {A} (dec : bytes → Result A) : Dec A :=
  let! value := dec_variable in dec_lift (dec value).

#[export] Instance spec_nested {A} (dec : bytes → Result A) enc :
  Codec dec enc → DecSpec (dec_nested dec) (encodes (λ x, push_encoded (enc x))).
Proof.
  intros Hc. eapply spec_iff; [apply _|]. intros x bs tl. unfold encodes.
  rewrite push_encoded_Ok. split.
  - intros (v & b1 & b2 & [Hd ->] & Hv & ->). rewrite app_nil_r. exists v. split; [|done].
    apply (codec_iff (dec := dec)); [by eapply push_variable_fits|done].
  - intros (v & Hx & Hv). exists v, bs, []. rewrite app_nil_r. repeat split; [|done].
    apply (codec_iff (dec := dec)); [by eapply push_variable_fits|done].
Qed.

(** The same for a decoder without a codec law. *)
#[export] Instance spec_nested_raw {A} (dec : bytes → Result A) :
  DecSpec (dec_nested dec) (λ x bs _, ∃ v, push_variable v = Ok bs ∧ dec v = Ok x) | 100.
Proof.
  eapply spec_iff; [apply _|]. intros x bs tl. unfold encodes. split.
  - intros (v & b1 & b2 & [Hd ->] & Hv & ->). rewrite app_nil_r. eauto.
  - intros (v & Hv & Hd). exists v, bs, []. by rewrite app_nil_r.
Qed.

(** A message and its signature, each length-prefixed. *)
Definition dec_signed {A} (dec : bytes → bytes → Result A) : Dec A :=
  let! message := dec_variable in
  let! signature := dec_variable in
  dec_lift (dec message signature).

#[export] Instance spec_signed {A} (dec : bytes → bytes → Result A) enc sig :
  SignedCodec dec enc sig →
  DecSpec (dec_signed dec) (encodes (λ x, push_encoded (enc x) +++ push_variable (sig x))).
Proof.
  intros Hc. eapply spec_iff; [apply _|]. intros x bs tl. unfold encodes.
  rewrite cat_Ok. setoid_rewrite push_encoded_Ok. split.
  - intros (m & b1 & b2 & (s & b3 & b4 & [Hd ->] & Hs & ->) & Hm & ->). rewrite app_nil_r.
    apply (signed_iff (dec := dec)) in Hd as [Hx <-]; [|by eapply push_variable_fits]. eauto 10.
  - intros (b1 & b2 & (m & Hx & Hm) & Hs & ->). exists m, b1, b2. split; [|done].
    exists (sig x), b2, []. rewrite app_nil_r. repeat split; [|done].
    apply (signed_iff (dec := dec)); [by eapply push_variable_fits|done].
Qed.

#[global] Typeclasses Opaque dec_nested dec_signed.

(** [previous.is_some_and(|p| p >= x)] as the guard of one iteration. *)
Definition dec_in_order {A K} `{Ord K} (key : A → K) (d : Dec A) (e : Error)
    (previous : option K) : Dec A :=
  let! x := d in
  guard! negb (prev_geb previous (key x)) else e in
  dec_ret x.

#[export] Instance sorted_in_order {A K} `{Ord K} (key : A → K) (d : Dec A) f e :
  DecSpec d (encodes f) → SortedBody key (dec_in_order key d e) f.
Proof.
  intros Hd p. eapply spec_iff; [apply _|]. intros x bs tl. unfold encodes. split.
  - intros (y & b1 & b2 & (Hp & -> & ->) & Hx & ->). rewrite app_nil_r.
    by apply negb_true_iff in Hp.
  - intros [Hp Hx]. exists x, bs, []. rewrite app_nil_r. repeat split; [|done].
    by rewrite Hp.
Qed.

(** A key, the order check, then the key's value. *)
Definition dec_entry_in_order {K V} `{Ord K} (dk : Dec K) (e : Error) (dv : K → Dec V)
    (previous : option K) : Dec (K * V) :=
  let! k := dk in
  guard! negb (prev_geb previous k) else e in
  let! v := dv k in
  dec_ret (k, v).

Lemma sorted_entry_in_order {K V} `{Ord K} (dk : Dec K) (dv : K → Dec V) fk fv e :
  DecSpec dk (encodes fk) → (∀ k, DecSpec (dv k) (encodes (fv k))) →
  SortedBody fst (dec_entry_in_order dk e dv) (λ p, fk p.1 +++ fv p.1 p.2).
Proof.
  intros Hk Hv p. eapply spec_iff; [apply _|]. intros [k v] bs tl. unfold encodes. cbn.
  rewrite cat_Ok. split.
  - intros (k' & b1 & b2 & (Hp & v' & b3 & b4 & ([= -> ->] & ->) & Hv' & ->) & Hk' & ->).
    apply negb_true_iff in Hp. rewrite app_nil_r. eauto 10.
  - intros (Hp & b1 & b2 & Hk' & Hv' & ->). exists k, b1, b2. split; [|done].
    rewrite Hp. split; [done|]. exists v, b2, []. by rewrite app_nil_r.
Qed.

(** [while] distinct elements come: [if v.contains(&x) { return Err(e) }; v.push(x)]. *)
Fixpoint dec_distinct {A} `{EqDecision A} (n : nat) (seen : list A) (d : Dec A) (e : Error)
    : Dec (list A) :=
  match n with
  | O => dec_ret []
  | S n =>
      let! x := d in
      guard! negb (bool_decide (x ∈ seen)) else e in
      let! l := dec_distinct n (seen ++ [x]) d e in
      dec_ret (x :: l)
  end.

Lemma spec_distinct {A} `{EqDecision A} n seen (d : Dec A) e f :
  DecSpec d (encodes f) →
  DecSpec (dec_distinct n seen d e)
    (λ l bs _, length l = n ∧ (NoDup l ∧ ∀ x, x ∈ l → x ∉ seen) ∧ put_each f l = Ok bs).
Proof.
  intros Hd. revert seen. induction n as [|n IH]; intros seen; simpl.
  - eapply spec_iff; [apply _|]. intros l bs tl. destruct l; [|naive_solver].
    split; [intros [_ ->]|]; [|naive_solver]. split; [done|]. split; [|done].
    split; [constructor|]. by intros ? ?%not_elem_of_nil.
  - eapply spec_iff; [apply _|]. intros l bs tl. unfold encodes. split.
    + intros (x & b1 & b2 & (Hx & l' & b3 & b4 & (-> & ->) & (<- & [Hnd Hs] & Hl) & ->) & Hb & ->).
      apply negb_true_iff, bool_decide_eq_false in Hx. split; [done|]. split.
      * split; [constructor; [|done]|].
        -- intros Hin. apply (Hs x Hin), elem_of_app. right. by left.
        -- intros y [->|Hy]%elem_of_cons; [done|]. intros Hys. apply (Hs y Hy), elem_of_app. by left.
      * apply put_each_Ok_cons. rewrite app_nil_r. eauto.
    + destruct l as [|x l]; [intros [? _]; done|].
      intros ([= Hn] & [[Hx Hnd]%NoDup_cons Hs] & (b1 & b2 & Hb & Hl & ->)%put_each_Ok_cons).
      exists x, b1, b2. split; [|done]. split.
      { apply negb_true_iff, bool_decide_eq_false, Hs. left. }
      exists l, b2, []. rewrite app_nil_r. split; [done|]. split; [|done]. split; [done|].
      split; [|done]. split; [done|]. intros y Hy [Hys| ->%list_elem_of_singleton]%elem_of_app; [|done].
      apply (Hs y); [by right|done].
Qed.

(** Sequences of elements whose decoder is only related to their bytes. *)
Inductive each {A} (R : A → bytes → Prop) : list A → bytes → Prop :=
  | each_nil : each R [] []
  | each_cons x l b1 b2 : R x b1 → each R l b2 → each R (x :: l) (b1 ++ b2).

Lemma each_min {A} (R : A → bytes → Prop) m l bs :
  (∀ x b, R x b → m <= lenN b) → each R l bs → m * lenN l <= lenN bs.
Proof.
  intros Hm. induction 1 as [|x l b1 b2 Hx Hl IH].
  - rewrite (@lenN_nil A). lia.
  - apply Hm in Hx. rewrite lenN_cons, lenN_app. lia.
Qed.

Lemma put_each_each {A} (f : A → Result bytes) R l bs :
  (∀ x b, f x = Ok b → R x b) → put_each f l = Ok bs → each R l bs.
Proof.
  intros Hf. revert bs. induction l as [|x l IH]; intros bs.
  - intros [= <-]. constructor.
  - intros (b1 & b2 & Hx & Hl & ->)%put_each_Ok_cons. constructor; auto.
Qed.

Lemma spec_repeat_rel {A} n (d : Dec A) R :
  DecSpec d (λ x bs _, R x bs) →
  DecSpec (dec_repeat n d) (λ l bs _, length l = n ∧ each R l bs).
Proof.
  intros Hd. induction n as [|n IH]; simpl.
  - eapply spec_iff; [apply _|]. intros l bs tl. split.
    + intros [-> ->]. split; [done|constructor].
    + destruct l; [|by intros []]. intros [_ H]. by inversion H.
  - eapply spec_iff; [apply _|]. intros l bs tl. split.
    + intros (x & b1 & b2 & (l' & b3 & b4 & (-> & ->) & (<- & Hl) & ->) & Hx & ->).
      split; [done|]. rewrite app_nil_r. by constructor.
    + destruct l as [|x l]; [intros [? _]; done|].
      intros [[= Hn] H]. inversion H as [|? ? b1 b2 Hx Hl]; subst.
      exists x, b1, b2. split; [|done]. exists l, b2, []. by rewrite app_nil_r.
Qed.

Lemma spec_vec_rel {A} m (d : Dec A) R :
  DecSpec d (λ x bs _, R x bs) → (∀ x b, R x b → Npos m <= lenN b) →
  DecSpec (dec_vec (Npos m) d)
    (λ l bs _, ∃ b1 b2, push_length (lenN l) = Ok b1 ∧ each R l b2 ∧ bs = b1 ++ b2).
Proof.
  intros Hd Hmin. unfold dec_vec. eapply spec_iff.
  { apply spec_bind; [apply _|]. intros n. by apply spec_repeat_rel. }
  intros l bs tl. split.
  - intros (n & b1 & b2 & [Hn Hl] & [Hb _] & ->).
    exists b1, b2. split; [|done]. rewrite <-Hb. unfold lenN. by rewrite Hn, N2Nat.id.
  - intros (b1 & b2 & Hb & Hl & ->). exists (lenN l), b1, b2.
    unfold lenN at 1. rewrite Nat2N.id. repeat split; try done.
    apply N.div_le_lower_bound; [lia|]. rewrite lenN_app.
    pose proof (each_min R _ _ _ Hmin Hl). lia.
Qed.

(** ** Proof automation for codecs *)

Ltac fits_tac := first [assumption | eapply push_variable_fits; eassumption].

(** Takes a composed decoder relation or an inverted encoder apart. *)
Ltac codec_destruct :=
  repeat match goal with
  | H : _ ∧ _ |- _ => destruct H
  | H : ∃ _, _ |- _ => destruct H
  | H : False |- _ => destruct H
  | H : false = true |- _ => discriminate H
  | H : _ +++ _ = Ok _ |- _ => apply cat_Ok in H
  | H : push_encoded _ = Ok _ |- _ => apply push_encoded_Ok in H
  | H : encodes _ _ _ _ |- _ => unfold encodes in H; cbn beta in H
  | H : encodes_all _ _ _ _ |- _ => unfold encodes_all in H; cbn beta in H
  | H : (if ?b then _ else Err _) = Ok _ |- _ =>
      let E := fresh "Eguard" in destruct b eqn:E; [|discriminate H]
  | H : (if ?b then Err _ else _) = Ok _ |- _ =>
      let E := fresh "Eguard" in destruct b eqn:E; [discriminate H|]
  | H : Ok _ = Ok _ |- _ => injection H as H
  | H : ?dec _ _ = Ok _ |- _ => apply (signed_iff (dec := dec)) in H; [|fits_tac]
  | H : ?dec _ = Ok _ |- _ => apply (codec_iff (dec := dec)) in H; [|fits_tac]
  end.

(** Rebuilds an encoding out of the pieces in the context. *)
Ltac codec_pieces :=
  repeat first
    [ rewrite app_nil_r
    | rewrite app_nil_l
    | apply cat_intro; [solve [codec_pieces]|]
    | apply push_encoded_Ok; eexists; split; eassumption
    | eassumption ].

(** Splits a composed decoder relation into its pieces, innermost first. *)
Ltac codec_split :=
  repeat match goal with
  | |- ∃ _, _ => eexists
  | |- _ ∧ _ => split
  end.

Ltac codec_solve :=
  lazymatch goal with
  | |- @eq bytes _ _ => first [eassumption | reflexivity | by rewrite ?app_nil_r, <-?app_assoc]
  | |- _ +++ _ = Ok _ => first [eassumption | codec_pieces]
  | |- push_encoded _ = Ok _ => codec_pieces
  | |- negb _ = true => first [assumption | apply negb_true_iff; assumption]
  | |- bool_decide _ = true => apply bool_decide_eq_true; assumption
  | |- ?dec _ _ = Ok _ =>
      first [ eassumption
            | apply (signed_iff (dec := dec)); [|split; [eassumption|reflexivity]]; fits_tac ]
  | |- ?dec _ = Ok _ =>
      first [ eassumption
            | apply (codec_iff (dec := dec)); [|eassumption]; fits_tac ]
  | |- _ => first [eassumption | reflexivity | done]
  end.

Ltac codec_conj := repeat match goal with |- _ ∧ _ => split end.

Ltac codec_forward :=
  intros; codec_destruct; subst; codec_conj;
  first [assumption | solve [codec_pieces] | done | idtac].
Ltac codec_backward := intros; codec_destruct; subst; codec_split; codec_solve.

(** The relation of a decoder against the one its encoder [e] gives; the decoded value is a
    record or a tuple. *)
Ltac codec e :=
  eapply spec_iff; [typeclasses eauto|];
  let x := fresh "x" in
  intros x ? ?; unfold encodes, encodes_all; cbn beta; unfold e;
  split; [codec_forward | try destruct x; cbn; codec_backward].

(** Case analysis on a kind byte: the decoder's comparisons against a variable [k], and
    against a known byte. *)
Ltac kind_cases k :=
  repeat match goal with
  | H : context [byte_N k =? ?n] |- _ =>
      let E := fresh "E" in
      destruct (N.eqb_spec (byte_N k) n) as [E|_];
      [ let v := eval vm_compute in (byte_of_N n) in
        assert (k = v) as -> by (apply byte_N_inj; exact E); clear E
      | ]
  end.

Ltac kind_eval :=
  repeat match goal with
  | |- context [byte_N ?k =? ?n] =>
      let v := eval vm_compute in (byte_N k =? n) in change (byte_N k =? n) with v
  end; cbv iota.

Ltac kind_known :=
  match goal with
  | H : put_byte ?k = Ok ?b |- ∃ _, _ => is_constructor k; exists k, b
  end;
  eexists; split; [kind_eval|].

(** Bounds the length of an encoding from below, piece by piece. *)
Ltac codec_len :=
  repeat match goal with
  | H : put (array_bytes _) = Ok _ |- _ => apply put_array_len in H
  | H : put_u64 _ = Ok _ |- _ => apply put_u64_len in H
  | H : put_byte _ = Ok _ |- _ => apply put_byte_len in H
  | H : push_length _ = Ok _ |- _ => apply push_length_len in H
  | H : push_variable _ = Ok _ |- _ => apply push_variable_len in H
  | H : _ = Ok _ |- _ => apply min_len in H
  end;
  rewrite ?lenN_app; lia.

Ltac codec_min e := intros ? ?; unfold e; intros; codec_destruct; subst; codec_len.
