(* ===== verification/Encoding.v ===== *)
(** * The canonical wire encoding ([encoding.rs]), part 1

    AAD layouts, GCM nonces, signed-message layouts, identity and wrap documents,
    packets, chunk frames, manifests, control records and mailbox frames.  [sha2] is a
    parameter: a function from byte strings to 32-byte digests. *)
From S2P Require Export Wire.
From Stdlib Require Import Lia ZifyN ZifyNat.

Open Scope N_scope.

(** SHA-256 of the concatenation of the [update] calls' arguments. *)
Class Sha256 := sha256 : bytes → array 32.

Definition WRAP_GCM_NONCE : array 12 := array_fill 12 Byte.x00.
Definition PEER_ID_DOMAIN : bytes := bstr "qfs/v1/peer".
Definition WRAP_PAIR_DOMAIN : bytes := bstr "qfs/v1/wrap/pair/".

Section hashes.
Context `{Sha256}.

Definition peer_id (vk : bytes) : PeerId := sha256 (PEER_ID_DOMAIN ++ vk).

Definition chunk_id_preimage (file_id : FileId) (index : u64) (plaintext : bytes) : bytes :=
  array_bytes file_id ++ u64_to_be index ++ plaintext.

Definition chunk_id (file_id : FileId) (index : u64) (plaintext : bytes) : ChunkId :=
  sha256 (chunk_id_preimage file_id index plaintext).
End hashes.

(** ** Fixed layouts *)

Definition require_sorted_pair (min_id max_id : PeerId) : Result unit :=
  if geb min_id max_id
  then Err (InvalidInput "wrap requires min_id < max_id as unsigned bytes")
  else Ok tt.

Definition wrap_hkdf_info (min_id max_id : PeerId) (epoch : Epoch) : Result bytes :=
  let? _ := require_sorted_pair min_id max_id in
  Ok (WRAP_PAIR_DOMAIN ++ array_bytes min_id ++ [Byte.x3a] ++ array_bytes max_id
      ++ [Byte.x2f] ++ u64_to_be epoch).

Definition packet_aad (header : PacketHeader) : bytes :=
  [hdr_version header] ++ array_bytes (hdr_sender_id header)
  ++ array_bytes (hdr_receiver_id header) ++ u64_to_be (hdr_epoch header)
  ++ u64_to_be (hdr_seq header).

Definition chunk_aad (header : PacketHeader) (file_id : FileId) (index : u64) : bytes :=
  packet_aad header ++ array_bytes file_id ++ u64_to_be index.

#[global] Arguments packet_aad : simpl never.
#[global] Arguments chunk_aad : simpl never.

(** [aad\[from..to\]], copied into a fixed array. *)
Definition slice (n : nat) (from : nat) (l : bytes) : option (array n) :=
  array_of_bytes n (firstn n (skipn from l)).

Definition decode_aad (aad : bytes) : Result (PacketHeader * PayloadType) :=
  let? payload_type :=
    (if lenN aad =? 81 then Ok Packet
     else if lenN aad =? 121 then Ok ChunkBody
     else Err (InvalidInput "invalid AEAD AAD length")) in
  match head aad, slice 32 1 aad, slice 32 33 aad, slice 8 65 aad, slice 8 73 aad with
  | Some version, Some sender_id, Some receiver_id, Some epoch, Some seq =>
      guard? bool_decide (version = PROTOCOL_VERSION)
        else InvalidInput "unsupported packet version" in
      Ok (mkPacketHeader version sender_id receiver_id (u64_from_be epoch) (u64_from_be seq),
          payload_type)
  | _, _, _, _, _ => Err (InvalidInput "invalid AEAD AAD length")
  end.

Definition wrap_aad (min_id max_id : PeerId) (epoch : Epoch) : Result bytes :=
  let? _ := require_sorted_pair min_id max_id in
  Ok (array_bytes min_id ++ array_bytes max_id ++ u64_to_be epoch).

(** The GCM nonce of a packet: payload type and direction bits, then the counter. *)
Definition nonce (header : PacketHeader) (payload_type : PayloadType) : array 12 :=
  let type_bit := if decide (payload_type = ChunkBody) then 1 else 0 in
  let dir_bit := if ltb (hdr_receiver_id header) (hdr_sender_id header) then 1 else 0 in
  let first := byte_of_N (N.lor (N.shiftl type_bit 7) (N.shiftl dir_bit 6)) in
  default (array_fill 12 Byte.x00)
    (array_of_bytes 12
       ([first; Byte.x00; Byte.x00; Byte.x00] ++ u64_to_be (hdr_seq header))).

(** ** Identity and wrap documents *)

Definition identity_m (document : IdentityDocument) : Result bytes :=
  put (array_bytes (doc_peer_id document)) +++ push_variable (doc_ek document)
  +++ push_variable (doc_vk document) +++ put_u64 (doc_created_at document).

Definition encode_identity (document : IdentityDocument) : Result bytes :=
  push_encoded (identity_m document) +++ push_variable (doc_signature document).

Definition dec_identity_m (signature : bytes) : Dec IdentityDocument :=
  let! peer_id := dec_array 32 in
  let! ek := dec_variable in
  let! vk := dec_variable in
  let! created_at := dec_u64 in
  let! _ := finish in
  dec_ret (mkIdentityDocument peer_id ek vk created_at signature).

Definition decode_identity_document (message signature : bytes) : Result IdentityDocument :=
  run (dec_identity_m signature) message.

Definition decode_identity (l : bytes) : Result IdentityDocument :=
  run (let! message := dec_variable in
       let! signature := dec_variable in
       let! _ := finish in
       dec_lift (decode_identity_document message signature)) l.

#[export] Instance identity_signed :
  SignedCodec decode_identity_document identity_m doc_signature.
Proof. apply run_signed. intros s. codec identity_m. Qed.

#[export] Instance identity_codec : Codec decode_identity encode_identity.
Proof.
  apply run_codec. codec encode_identity. 
Qed.

#[export] Instance identity_m_min : MinLen identity_m 48.
Proof. codec_min identity_m. Qed.
#[export] Instance encode_identity_min : MinLen encode_identity 56.
Proof. codec_min encode_identity. Qed.

Definition wrap_m (message : WrapMessage) : Result bytes :=
  let? _ := require_sorted_pair (wm_min_id message) (wm_max_id message) in
  push_variable (wm_kem_ct message) +++ push_variable (wm_wrap_ct message)
  +++ put_u64 (wm_epoch message) +++ put (array_bytes (wm_min_id message))
  +++ put (array_bytes (wm_max_id message)).

Definition encode_wrap (message : WrapMessage) : Result bytes :=
  push_encoded (wrap_m message) +++ push_variable (wm_signature message).

Definition dec_wrap_m (signature : bytes) : Dec WrapMessage :=
  let! kem_ct := dec_variable in
  let! wrap_ct := dec_variable in
  let! epoch := dec_u64 in
  let! min_id := dec_array 32 in
  let! max_id := dec_array 32 in
  let! _ := finish in
  let! _ := dec_lift (require_sorted_pair min_id max_id) in
  dec_ret (mkWrapMessage kem_ct wrap_ct epoch min_id max_id signature).

Definition decode_wrap_message (message signature : bytes) : Result WrapMessage :=
  run (dec_wrap_m signature) message.

Definition decode_wrap (l : bytes) : Result WrapMessage :=
  run (let! message := dec_variable in
       let! signature := dec_variable in
       let! _ := finish in
       dec_lift (decode_wrap_message message signature)) l.

(** ** Packets *)

Definition encode_control_packet (packet : ControlPacket) : Result bytes :=
  put (packet_aad (cp_header packet)) +++ push_variable (cp_ciphertext packet).

Definition dec_control_packet : Dec ControlPacket :=
  let! aad := take 81 in
  let! (header, payload_type) := dec_lift (decode_aad aad) in
  guard! bool_decide (payload_type = Packet)
    else InvalidInput "control packet has chunk AAD" in
  let! ciphertext := dec_variable in
  let! _ := finish in
  dec_ret (mkControlPacket header ciphertext).

Definition decode_control_packet (l : bytes) : Result ControlPacket :=
  run dec_control_packet l.

Definition encode_chunk_body_frame (frame : ChunkBodyFrame) : Result bytes :=
  put (chunk_aad (cb_header frame) (cb_file_id frame) (cb_index frame))
  +++ push_variable (cb_ciphertext frame).

Definition dec_chunk_body_frame : Dec ChunkBodyFrame :=
  let! aad := take 121 in
  let! (header, payload_type) := dec_lift (decode_aad aad) in
  guard! bool_decide (payload_type = ChunkBody)
    else InvalidInput "chunk body frame has packet AAD" in
  let! file_id := dec_lift (ok_or (slice 32 81 aad) (InvalidInput "unreachable")) in
  let! index := dec_lift (ok_or (slice 8 113 aad) (InvalidInput "unreachable")) in
  let! ciphertext := dec_variable in
  let! _ := finish in
  dec_ret (mkChunkBodyFrame header file_id (u64_from_be index) ciphertext).

Definition decode_chunk_body_frame (l : bytes) : Result ChunkBodyFrame :=
  run dec_chunk_body_frame l.

(** ** Epoch hints and wrap acknowledgements *)

Definition epoch_hint_m (peer_id : PeerId) (epoch : Epoch) : bytes :=
  array_bytes peer_id ++ u64_to_be epoch.

Definition decode_epoch_hint (l : bytes) : Result (PeerId * Epoch) :=
  run (let! peer_id := dec_array 32 in
       let! epoch := dec_u64 in
       let! _ := finish in
       dec_ret (peer_id, epoch)) l.

Definition encode_wrap_ack (epoch : Epoch) (retry_pending : bool) : bytes :=
  u64_to_be epoch ++ [byte_of_bool retry_pending].

(** [match reader.byte()? { 0 => false, 1 => true, _ => return Err(..) }] *)
Definition dec_flag (message : string) : Dec bool :=
  let! flag := dec_byte in
  if byte_N flag =? 0 then dec_ret false
  else if byte_N flag =? 1 then dec_ret true
  else dec_err (InvalidInput message).

Definition decode_wrap_ack (l : bytes) : Result (Epoch * bool) :=
  run (let! epoch := dec_u64 in
       let! retry_pending := dec_flag "invalid WrapAck retry flag" in
       let! _ := finish in
       dec_ret (epoch, retry_pending)) l.

(** ** Manifests and control records *)

Definition manifest_m (manifest : Manifest) : Result bytes :=
  put (array_bytes (mf_file_id manifest)) +++ put_u64 (mf_version manifest)
  +++ put_u64 (mf_size manifest) +++ put (array_bytes (mf_writer_id manifest))
  +++ (push_length (lenN (mf_chunk_ids manifest))
       +++ put_each (λ c, put (array_bytes c)) (mf_chunk_ids manifest)).

Definition dec_manifest_m (signature : bytes) : Dec Manifest :=
  let! file_id := dec_array 32 in
  let! version := dec_u64 in
  let! size := dec_u64 in
  let! writer_id := dec_array 32 in
  let! chunk_ids := dec_vec 32 (dec_array 32) in
  let! _ := finish in
  dec_ret (mkManifest file_id chunk_ids size writer_id version signature).

Definition decode_manifest_message (message signature : bytes) : Result Manifest :=
  run (dec_manifest_m signature) message.

Definition dec_utf8 (message : string) : Dec text :=
  let! name := dec_variable in
  dec_lift (ok_or (text_of_bytes name) (InvalidInput message)).

Definition dec_name : Dec text := dec_utf8 "directory name is not UTF-8".

Definition encode_control_update (update : ControlUpdate) : Result bytes :=
  match update with
  | NewManifest manifest =>
      put_byte Byte.x00
      +++ (push_encoded (manifest_m manifest) +++ push_variable (mf_signature manifest))
  | Add file_id => put_byte Byte.x01 +++ put (array_bytes file_id)
  | Clear file_id => put_byte Byte.x02 +++ put (array_bytes file_id)
  | Remove file_id => put_byte Byte.x03 +++ put (array_bytes file_id)
  | Link parent name child is_dir =>
      put_byte Byte.x04 +++ put (array_bytes parent) +++ push_variable (text_bytes name)
      +++ put (array_bytes child) +++ put_byte (byte_of_bool is_dir)
  | Unlink parent name =>
      put_byte Byte.x05 +++ put (array_bytes parent) +++ push_variable (text_bytes name)
  | Rename src_parent src_name dst_parent dst_name =>
      put_byte Byte.x06 +++ put (array_bytes src_parent)
      +++ push_variable (text_bytes src_name)
      +++ put (array_bytes dst_parent) +++ push_variable (text_bytes dst_name)
  | Kick peer_id => put_byte Byte.x07 +++ put (array_bytes peer_id)
  end.

Definition encode_control_record (record : ControlRecord) : Result bytes :=
  put_u64 (cr_id record) +++ encode_control_update (cr_update record).

Definition dec_control_update : Dec ControlUpdate :=
  let! kind := dec_byte in
  if byte_N kind =? 0 then
    let! manifest := dec_signed decode_manifest_message in dec_ret (NewManifest manifest)
  else if byte_N kind =? 1 then let! f := dec_array 32 in dec_ret (Add f)
  else if byte_N kind =? 2 then let! f := dec_array 32 in dec_ret (Clear f)
  else if byte_N kind =? 3 then let! f := dec_array 32 in dec_ret (Remove f)
  else if byte_N kind =? 4 then
    let! parent := dec_array 32 in
    let! name := dec_name in
    let! child := dec_array 32 in
    let! is_dir := dec_flag "invalid Link directory flag" in
    dec_ret (Link parent name child is_dir)
  else if byte_N kind =? 5 then
    let! parent := dec_array 32 in
    let! name := dec_name in
    dec_ret (Unlink parent name)
  else if byte_N kind =? 6 then
    let! src_parent := dec_array 32 in
    let! src_name := dec_name in
    let! dst_parent := dec_array 32 in
    let! dst_name := dec_name in
    dec_ret (Rename src_parent src_name dst_parent dst_name)
  else if byte_N kind =? 7 then let! p := dec_array 32 in dec_ret (Kick p)
  else dec_err (InvalidInput "unknown control record kind").

Definition decode_control_record (l : bytes) : Result ControlRecord :=
  run (let! id := dec_u64 in
       let! update := dec_control_update in
       let! _ := finish in
       dec_ret (mkControlRecord id update)) l.

(** ** Mailbox framing *)

Definition encode_mailbox_frame (frame : MailboxFrame) : Result bytes :=
  match frame with
  | FControl ciphertext => put_byte Byte.x00 +++ push_variable ciphertext
  | FChunkBody file_id index ciphertext =>
      put_byte Byte.x01 +++ put (array_bytes file_id) +++ put_u64 index
      +++ push_variable ciphertext
  end.

Definition decode_mailbox_frame (l : bytes) : Result MailboxFrame :=
  run (let! kind := dec_byte in
       let! frame :=
         (if byte_N kind =? 0 then
            let! ciphertext := dec_variable in dec_ret (FControl ciphertext)
          else if byte_N kind =? 1 then
            let! file_id := dec_array 32 in
            let! index := dec_u64 in
            let! ciphertext := dec_variable in
            dec_ret (FChunkBody file_id index ciphertext)
          else dec_err (InvalidInput "unknown mailbox frame kind")) in
       let! _ := finish in
       dec_ret frame) l.

Definition envelope_header (envelope : MailboxEnvelope) : PacketHeader :=
  mkPacketHeader PROTOCOL_VERSION (env_sender_id envelope) (env_recipient_id envelope)
    (env_epoch envelope) (env_seq envelope).

Definition encode_mailbox_envelope (envelope : MailboxEnvelope) : Result bytes :=
  let header := envelope_header envelope in
  let? frame := decode_mailbox_frame (env_ciphertext envelope) in
  match frame with
  | FControl ciphertext =>
      put_byte Byte.x00
      +++ push_encoded (encode_control_packet (mkControlPacket header ciphertext))
  | FChunkBody file_id index ciphertext =>
      put_byte Byte.x01
      +++ push_encoded
            (encode_chunk_body_frame (mkChunkBodyFrame header file_id index ciphertext))
  end.

Definition envelope_of (header : PacketHeader) (ciphertext : bytes) : MailboxEnvelope :=
  mkMailboxEnvelope (hdr_receiver_id header) (hdr_sender_id header) (hdr_epoch header)
    (hdr_seq header) u64_zero ciphertext.

Definition decode_mailbox_envelope (l : bytes) : Result MailboxEnvelope :=
  run (let! kind := dec_byte in
       let! (header, ciphertext) :=
         (if byte_N kind =? 0 then
            let! packet := dec_nested decode_control_packet in
            let! ciphertext :=
              dec_lift (encode_mailbox_frame (FControl (cp_ciphertext packet))) in
            dec_ret (cp_header packet, ciphertext)
          else if byte_N kind =? 1 then
            let! frame := dec_nested decode_chunk_body_frame in
            let! ciphertext :=
              dec_lift (encode_mailbox_frame
                (FChunkBody (cb_file_id frame) (cb_index frame) (cb_ciphertext frame))) in
            dec_ret (cb_header frame, ciphertext)
          else dec_err (InvalidInput "unknown mailbox transport kind")) in
       let! _ := finish in
       dec_ret (envelope_of header ciphertext)) l.

Definition mailbox_wire_m (envelopes : list MailboxEnvelope) : Result bytes :=
  push_length (lenN envelopes)
  +++ put_each (λ e, push_encoded (encode_mailbox_envelope e)) envelopes.

Section digests.
Context `{Sha256}.

Definition mailbox_digest (envelopes : list MailboxEnvelope) : Result (array 32) :=
  let? wire := mailbox_wire_m envelopes in Ok (sha256 wire).

Definition flush_transport_digest (envelopes : list MailboxEnvelope)
    (historical : list IdentityDocument) : Result (array 32) :=
  let? mailbox := mailbox_digest envelopes in
  if bool_decide (historical = []) then Ok mailbox else
  let? committed :=
    put (array_bytes mailbox) +++ push_length (lenN historical)
    +++ put_each (λ d, push_encoded (encode_identity d)) historical in
  Ok (sha256 committed).

Definition flush_transport_digest_with_bootstrap (envelopes : list MailboxEnvelope)
    (historical : list IdentityDocument) (bootstrap_through : option u64)
    : Result (array 32) :=
  let? digest := flush_transport_digest envelopes historical in
  match bootstrap_through with
  | None => Ok digest
  | Some through =>
      Ok (sha256 (bstr "qfs/v1/bootstrap/" ++ array_bytes digest ++ u64_to_be through))
  end.
End digests.

Definition flush_m (challenge : FlushChallenge) : array 32 := challenge.

(** ** Codec laws *)

Lemma require_sorted_pair_Ok min_id max_id u :
  require_sorted_pair min_id max_id = Ok u ↔ key_lt min_id max_id.
Proof.
  unfold require_sorted_pair. rewrite <-geb_false. destruct u, (geb min_id max_id); naive_solver.
Qed.

#[export] Instance wrap_signed : SignedCodec decode_wrap_message wrap_m wm_signature.
Proof.
  apply run_signed. intros s. eapply spec_iff; [typeclasses eauto|].
  intros m bs tl. unfold encodes, wrap_m. split.
  - codec_forward. cbn.
    match goal with H : require_sorted_pair _ _ = Ok _ |- _ => rewrite H end. cbn.
    codec_pieces.
  - destruct m. cbn. destruct (require_sorted_pair _ _) as [[]|] eqn:E; cbn; [|naive_solver].
    codec_backward.
Qed.

#[export] Instance wrap_codec : Codec decode_wrap encode_wrap.
Proof. apply run_codec. codec encode_wrap. Qed.

#[export] Instance wrap_m_min : MinLen wrap_m 80.
Proof.
  intros m b. unfold wrap_m. destruct (require_sorted_pair _ _); cbn; [|done].
  intros. codec_destruct; subst; codec_len.
Qed.

#[export] Instance manifest_signed :
  SignedCodec decode_manifest_message manifest_m mf_signature.
Proof. apply run_signed. intros s. codec manifest_m. Qed.

Lemma text_of_bytes_ok_or l e (t : text) : ok_or (text_of_bytes l) e = Ok t ↔ text_bytes t = l.
Proof. rewrite <-text_of_bytes_Some. destruct (text_of_bytes l); naive_solver. Qed.

#[export] Instance spec_utf8 e : DecSpec (dec_utf8 e) (encodes (λ t, push_variable (text_bytes t))).
Proof.
  eapply spec_iff; [typeclasses eauto|]. intros t bs tl. unfold encodes.
  setoid_rewrite text_of_bytes_ok_or. split.
  - intros (n & b1 & b2 & [-> ->] & ? & ->). by rewrite app_nil_r.
  - intros Ht. exists t, bs, []. by rewrite app_nil_r.
Qed.

#[export] Instance spec_flag e : DecSpec (dec_flag e) (encodes (λ b, put_byte (byte_of_bool b))).
Proof.
  eapply spec_iff; [typeclasses eauto|]. intros b bs tl. unfold encodes.
  rewrite put_byte_Ok. setoid_rewrite put_byte_Ok. split.
  - intros (k & b1 & b2 & Hk & -> & ->).
    destruct (N.eqb_spec (byte_N k) 0) as [Hk0|]; [|destruct (N.eqb_spec (byte_N k) 1) as [Hk1|]; [|by destruct Hk]];
      destruct_and? Hk; subst b b2; simpl; f_equal; apply byte_N_inj;
      first [rewrite Hk0 | rewrite Hk1]; reflexivity.
  - intros ->. exists (byte_of_bool b), [byte_of_bool b], []. by destruct b.
Qed.

(** *** AAD layouts *)

Lemma slice_app {n} p (a : array n) q : slice n (length p) (p ++ array_bytes a ++ q) = Some a.
Proof.
  unfold slice. rewrite drop_app_length, take_app_length' by (symmetry; apply length_array).
  apply array_of_bytes_array.
Qed.

Lemma slice_at {n} k p (a : array n) q l :
  l = p ++ array_bytes a ++ q → length p = k → slice n k l = Some a.
Proof. intros -> <-. apply slice_app. Qed.

Lemma split_array n l : (n ≤ length l)%nat → ∃ (a : array n) q, l = array_bytes a ++ q.
Proof.
  intros Hl. destruct (array_of_bytes_is_Some n (firstn n l)) as (a & _ & Ha).
  { rewrite length_firstn. lia. }
  exists a, (skipn n l). by rewrite Ha, take_drop.
Qed.

Lemma length_packet_aad h : length (packet_aad h) = 81%nat.
Proof.
  unfold packet_aad. rewrite !length_app, !length_array, !length_u64_to_be. done.
Qed.

Lemma length_chunk_aad h f i : length (chunk_aad h f i) = 121%nat.
Proof.
  unfold chunk_aad. rewrite !length_app, length_packet_aad, length_array, length_u64_to_be. done.
Qed.

Lemma u64_be_array (a : u64) : ∃ e : array 8, array_bytes e = u64_to_be a ∧ u64_from_be e = a.
Proof.
  destruct (array_of_bytes_is_Some 8 (u64_to_be a) (length_u64_to_be a)) as (e & _ & He).
  exists e. split; [done|]. apply u64_to_be_inj. by rewrite u64_to_be_from_be.
Qed.

(** Every input of at least 81 bytes is a packet AAD and a remainder. *)
Lemma split_packet_aad l :
  (81 ≤ length l)%nat → ∃ h q, l = packet_aad h ++ q.
Proof.
  intros Hl. destruct l as [|v l]; [simpl in Hl; lia|].
  destruct (split_array 32 l) as (s & l1 & ->); [simpl in Hl; lia|].
  simpl in Hl. rewrite length_app, length_array in Hl.
  destruct (split_array 32 l1) as (r & l2 & ->); [lia|]. rewrite length_app, length_array in Hl.
  destruct (split_array 8 l2) as (e & l3 & ->); [lia|]. rewrite length_app, length_array in Hl.
  destruct (split_array 8 l3) as (q & l4 & ->); [lia|].
  exists (mkPacketHeader v s r (u64_from_be e) (u64_from_be q)), l4.
  unfold packet_aad. cbn [hdr_version hdr_sender_id hdr_receiver_id hdr_epoch hdr_seq].
  rewrite !u64_to_be_from_be. by rewrite <-!app_assoc.
Qed.

Lemma decode_aad_packet h q :
  decode_aad (packet_aad h ++ q) =
  let? payload_type :=
    (if lenN (packet_aad h ++ q) =? 81 then Ok Packet
     else if lenN (packet_aad h ++ q) =? 121 then Ok ChunkBody
     else Err (InvalidInput "invalid AEAD AAD length")) in
  guard? bool_decide (hdr_version h = PROTOCOL_VERSION)
    else InvalidInput "unsupported packet version" in
  Ok (h, payload_type).
Proof.
  unfold decode_aad. f_equal. destruct h as [v s r e n].
  destruct (u64_be_array e) as (e' & He & <-), (u64_be_array n) as (n' & Hn & <-).
  unfold packet_aad. cbn [hdr_version hdr_sender_id hdr_receiver_id hdr_epoch hdr_seq].
  rewrite <-He, <-Hn.
  set (l := ([v] ++ s ++ r ++ e' ++ n') ++ q).
  assert (head l = Some v) as -> by done.
  assert (slice 32 1 l = Some s) as ->.
  { apply (slice_at 1 [v] s (r ++ e' ++ n' ++ q)); [|done]. unfold l. by rewrite <-!app_assoc. }
  assert (slice 32 33 l = Some r) as ->.
  { apply (slice_at 33 ([v] ++ s) r (e' ++ n' ++ q)); unfold l; [by rewrite <-!app_assoc|].
    by rewrite !length_app, !length_array. }
  assert (slice 8 65 l = Some e') as ->.
  { apply (slice_at 65 ([v] ++ s ++ r) e' (n' ++ q)); unfold l; [by rewrite <-!app_assoc|].
    by rewrite !length_app, !length_array. }
  assert (slice 8 73 l = Some n') as ->.
  { apply (slice_at 73 ([v] ++ s ++ r ++ e') n' q); unfold l; [by rewrite <-!app_assoc|].
    by rewrite !length_app, !length_array. }
  done.
Qed.

Lemma lenN_packet_aad h : lenN (packet_aad h) = 81.
Proof. unfold lenN. by rewrite length_packet_aad. Qed.

Lemma decode_aad_Packet l h :
  decode_aad l = Ok (h, Packet) ↔ l = packet_aad h ∧ hdr_version h = PROTOCOL_VERSION.
Proof.
  split.
  - intros H. destruct (decide (81 ≤ length l)%nat) as [Hl|Hl].
    + destruct (split_packet_aad l Hl) as (h' & q & ->). rewrite decode_aad_packet in H.
      destruct (N.eqb_spec (lenN (packet_aad h' ++ q)) 81) as [E|]; cbn [res_bind] in H.
      * rewrite lenN_app, lenN_packet_aad in E. unfold lenN in E.
        destruct q; [|simpl in E; lia]. case_bool_decide; [|done].
        injection H as ->. by rewrite app_nil_r.
      * destruct (_ =? 121); [|done]. cbn in H. case_bool_decide; done.
    + unfold decode_aad in H. destruct (N.eqb_spec (lenN l) 81); [unfold lenN in *; lia|].
      destruct (N.eqb_spec (lenN l) 121); [unfold lenN in *; lia|by cbn [res_bind] in H].
  - intros [-> Hv]. rewrite <-(app_nil_r (packet_aad h)), decode_aad_packet.
    rewrite app_nil_r, lenN_packet_aad. cbn. by rewrite bool_decide_eq_true_2.
Qed.

Lemma decode_aad_ChunkBody l h :
  decode_aad l = Ok (h, ChunkBody) ↔
  (∃ f i, l = chunk_aad h f i) ∧ hdr_version h = PROTOCOL_VERSION.
Proof.
  split.
  - intros H. destruct (decide (81 ≤ length l)%nat) as [Hl|Hl].
    + destruct (split_packet_aad l Hl) as (h' & q & ->). rewrite decode_aad_packet in H.
      destruct (N.eqb_spec (lenN (packet_aad h' ++ q)) 81) as [E|]; cbn [res_bind] in H.
      { case_bool_decide; done. }
      destruct (N.eqb_spec (lenN (packet_aad h' ++ q)) 121) as [E|]; [|by cbn [res_bind] in H].
      cbn [res_bind] in H. case_bool_decide; [|done]. injection H as ->. split; [|done].
      rewrite lenN_app, lenN_packet_aad in E. unfold lenN in E.
      destruct (split_array 32 q) as (f & q1 & ->); [lia|].
      rewrite length_app, length_array in E.
      destruct (split_array 8 q1) as (i & q2 & ->); [lia|].
      rewrite length_app, length_array in E. destruct q2; [|simpl in E; lia].
      exists f, (u64_from_be i). unfold chunk_aad. by rewrite u64_to_be_from_be, app_nil_r.
    + unfold decode_aad in H. destruct (N.eqb_spec (lenN l) 81); [unfold lenN in *; lia|].
      destruct (N.eqb_spec (lenN l) 121); [unfold lenN in *; lia|by cbn [res_bind] in H].
  - intros [(f & i & ->) Hv]. unfold chunk_aad. rewrite decode_aad_packet.
    fold (chunk_aad h f i). unfold lenN. rewrite length_chunk_aad. cbn.
    by rewrite bool_decide_eq_true_2.
Qed.

Lemma slice_chunk_aad h f i :
  slice 32 81 (chunk_aad h f i) = Some f ∧
  ∃ e, slice 8 113 (chunk_aad h f i) = Some e ∧ u64_from_be e = i.
Proof.
  destruct (u64_be_array i) as (e & He & <-). unfold chunk_aad. rewrite <-He. split.
  - apply (slice_at 81 (packet_aad h) f (array_bytes e)); [done|apply length_packet_aad].
  - exists e. split; [|done]. apply (slice_at 113 (packet_aad h ++ f) e []).
    + by rewrite app_nil_r, <-app_assoc.
    + by rewrite length_app, length_packet_aad, length_array.
Qed.

Lemma packet_aad_inj h1 h2 : packet_aad h1 = packet_aad h2 → h1 = h2.
Proof.
  destruct h1 as [v1 s1 r1 e1 q1], h2 as [v2 s2 r2 e2 q2]. unfold packet_aad.
  cbn [hdr_version hdr_sender_id hdr_receiver_id hdr_epoch hdr_seq].
  intros [[= <-] H]%app_inj_1; [|done].
  apply app_inj_1 in H as [->%array_eq H]; [|by rewrite !length_array].
  apply app_inj_1 in H as [->%array_eq H]; [|by rewrite !length_array].
  apply app_inj_1 in H as [->%u64_to_be_inj ->%u64_to_be_inj]; [done|].
  by rewrite !length_u64_to_be.
Qed.

Lemma chunk_aad_inj h1 f1 i1 h2 f2 i2 :
  chunk_aad h1 f1 i1 = chunk_aad h2 f2 i2 → h1 = h2 ∧ f1 = f2 ∧ i1 = i2.
Proof.
  unfold chunk_aad. intros [H1%packet_aad_inj H]%app_inj_1; [|by rewrite !length_packet_aad].
  apply app_inj_1 in H as [H2%array_eq H3%u64_to_be_inj]; [done|by rewrite !length_array].
Qed.

(** *** Packet frames: the encoders' images are exactly the decodable version-1 frames *)

Lemma dec_control_packet_spec :
  DecSpec dec_control_packet
    (λ p bs tl, encode_control_packet p = Ok bs
                ∧ hdr_version (cp_header p) = PROTOCOL_VERSION ∧ tl = []).
Proof.
  eapply spec_iff; [typeclasses eauto|]. intros p bs tl. unfold encodes, encode_control_packet.
  split.
  - intros (aad & b1 & b2 & ([h t] & b3 & b4 & (Ht & c & b5 & b6 & H & Hc & ->) & [Ha ->] & ->)
            & [-> _] & ->). cbn in *. apply bool_decide_eq_true in Ht as ->.
    destruct H as (_ & b7 & b8 & [-> ->] & [-> Htl] & ->). rewrite app_nil_l in Htl.
    apply decode_aad_Packet in Ha as [-> Hv]. rewrite !app_nil_r, ?app_nil_l. cbn.
    repeat split; [|done|done]. by apply cat_intro.
  - intros (Hp & Hv & ->). destruct p as [h c]. cbn in *.
    apply cat_Ok in Hp as (b1 & b2 & ->%put_Ok & Hc & ->).
    exists (packet_aad h), (packet_aad h), b2. split; [|by rewrite lenN_packet_aad].
    exists (h, Packet), [], b2. split; [|by rewrite decode_aad_Packet].
    cbn. split; [by apply bool_decide_eq_true|]. exists c, b2, []. rewrite app_nil_r.
    split; [|done]. by exists tt, [], [].
Qed.

Lemma dec_chunk_body_frame_spec :
  DecSpec dec_chunk_body_frame
    (λ p bs tl, encode_chunk_body_frame p = Ok bs
                ∧ hdr_version (cb_header p) = PROTOCOL_VERSION ∧ tl = []).
Proof.
  eapply spec_iff; [typeclasses eauto|].
  intros p bs tl. unfold encodes, encode_chunk_body_frame. split.
  - intros (aad & b1 & b2 & ([h t] & b3 & b4 & (Ht & f & b5 & b6 & (i & b7 & b8 & (c & b9 & b10 &
            (_ & b11 & b12 & [-> ->] & [-> Htl] & ->) & Hc & ->) & [Hi ->] & ->) & [Hf ->] & ->)
            & [Ha ->] & ->) & [-> _] & ->).
    cbn in *. apply bool_decide_eq_true in Ht as ->.
    apply decode_aad_ChunkBody in Ha as [(f' & i' & ->) Hv].
    destruct (slice_chunk_aad h f' i') as [Hf' (e & He & Hie)].
    rewrite Hf' in Hf. rewrite He in Hi. cbn in *. injection Hf as <-. injection Hi as <-.
    rewrite !app_nil_r, ?app_nil_l. cbn. rewrite Hie.
    repeat split; [|done|done]. by apply cat_intro.
  - intros (Hp & Hv & ->). destruct p as [h f i c]. cbn in *.
    apply cat_Ok in Hp as (b1 & b2 & ->%put_Ok & Hc & ->).
    destruct (slice_chunk_aad h f i) as [Hf (e & He & Hie)].
    exists (chunk_aad h f i), (chunk_aad h f i), b2. split.
    2: { unfold lenN. by rewrite length_chunk_aad. }
    exists (h, ChunkBody), [], b2. split.
    2: { split; [|done]. split; [|done]. apply decode_aad_ChunkBody. eauto. }
    cbn. split; [by apply bool_decide_eq_true|].
    exists f, [], b2. rewrite Hf. split; [|done]. exists e, [], b2. rewrite He. split; [|done].
    exists c, b2, []. rewrite app_nil_r, Hie. split; [|done]. by exists tt, [], [].
Qed.

#[export] Instance spec_control_update :
  DecSpec dec_control_update (encodes encode_control_update).
Proof.
  eapply spec_iff; [typeclasses eauto|]. intros u bs tl. unfold encodes. cbn beta. split.
  - intros (kind & b1 & b2 & H & Hk & ->). kind_cases kind;
      codec_destruct; subst; cbn; codec_pieces.
  - destruct u; cbn; intros; codec_destruct; subst; kind_known; codec_backward.
Qed.

Lemma decode_control_packet_iff l p :
  fits l →
  decode_control_packet l = Ok p ↔
  encode_control_packet p = Ok l ∧ hdr_version (cp_header p) = PROTOCOL_VERSION.
Proof.
  intros Hl. unfold decode_control_packet.
  rewrite (run_spec _ _ l p dec_control_packet_spec); naive_solver.
Qed.

Lemma decode_chunk_body_frame_iff l p :
  fits l →
  decode_chunk_body_frame l = Ok p ↔
  encode_chunk_body_frame p = Ok l ∧ hdr_version (cb_header p) = PROTOCOL_VERSION.
Proof.
  intros Hl. unfold decode_chunk_body_frame.
  rewrite (run_spec _ _ l p dec_chunk_body_frame_spec); naive_solver.
Qed.

#[export] Instance control_record_codec : Codec decode_control_record encode_control_record.
Proof. apply run_codec. codec encode_control_record. Qed.

#[export] Instance control_update_min : MinLen encode_control_update 1.
Proof. intros u b. destruct u; cbn; intros; codec_destruct; subst; codec_len. Qed.

#[export] Instance control_record_min : MinLen encode_control_record 9.
Proof. codec_min encode_control_record. Qed.

#[export] Instance mailbox_frame_codec : Codec decode_mailbox_frame encode_mailbox_frame.
Proof.
  apply run_codec. eapply spec_iff; [typeclasses eauto|].
  intros f bs tl. unfold encodes, encodes_all. cbn beta. split.
  - intros (kind & b1 & b2 & (f' & b3 & b4 & H' & H & ->) & Hk & ->).
    kind_cases kind; codec_destruct; subst; cbn; codec_conj; first [assumption|codec_pieces].
  - destruct f; cbn; intros; codec_destruct; subst; kind_known; codec_backward.
Qed.

(** *** Mailbox envelopes *)

Lemma encode_envelope_control e c l :
  encode_mailbox_frame (FControl c) = Ok (env_ciphertext e) → fits (env_ciphertext e) →
  encode_mailbox_envelope e = Ok l ↔
  ∃ b v, put_byte Byte.x00 = Ok b
    ∧ encode_control_packet (mkControlPacket (envelope_header e) c) = Ok v
    ∧ ∃ b', push_variable v = Ok b' ∧ l = b ++ b'.
Proof.
  intros Hc Hf. unfold encode_mailbox_envelope.
  apply (codec_iff (dec := decode_mailbox_frame)) in Hc as ->; [|done].
  cbn [res_bind]. rewrite cat_Ok. setoid_rewrite push_encoded_Ok. naive_solver.
Qed.

Lemma encode_envelope_chunk e f i c l :
  encode_mailbox_frame (FChunkBody f i c) = Ok (env_ciphertext e) → fits (env_ciphertext e) →
  encode_mailbox_envelope e = Ok l ↔
  ∃ b v, put_byte Byte.x01 = Ok b
    ∧ encode_chunk_body_frame (mkChunkBodyFrame (envelope_header e) f i c) = Ok v
    ∧ ∃ b', push_variable v = Ok b' ∧ l = b ++ b'.
Proof.
  intros Hc Hf. unfold encode_mailbox_envelope.
  apply (codec_iff (dec := decode_mailbox_frame)) in Hc as ->; [|done].
  cbn [res_bind]. rewrite cat_Ok. setoid_rewrite push_encoded_Ok. naive_solver.
Qed.

Lemma envelope_header_of h c :
  hdr_version h = PROTOCOL_VERSION → envelope_header (envelope_of h c) = h.
Proof. destruct h; cbn. by intros ->. Qed.

Lemma envelope_of_header e :
  env_queued_at e = u64_zero → envelope_of (envelope_header e) (env_ciphertext e) = e.
Proof. destruct e; cbn. by intros ->. Qed.

Lemma decode_mailbox_envelope_iff l e :
  fits l → fits (env_ciphertext e) →
  decode_mailbox_envelope l = Ok e ↔
  encode_mailbox_envelope e = Ok l ∧ env_queued_at e = u64_zero.
Proof.
  intros Hl Hc. unfold decode_mailbox_envelope.
  erewrite run_spec; [|typeclasses eauto| |done].
  2: { intros x bs tl H. cbn beta in H. codec_destruct. by subst. }
  cbn beta. split.
  - intros (kind & b1 & b2 & ([h c] & b3 & b4 & H' & H & ->) & Hk & ->).
    cbn in H'. unfold encodes in Hk. kind_cases kind; codec_destruct; subst; cbn in *;
      rewrite !app_nil_r in *; simplify_eq.
    + match goal with H : decode_control_packet _ = Ok _ |- _ =>
        apply decode_control_packet_iff in H as [? ?]; [|fits_tac] end.
      split; [|done]. eapply encode_envelope_control; [done|done|].
      rewrite envelope_header_of by done. destruct x. eauto 10.
    + match goal with H : decode_chunk_body_frame _ = Ok _ |- _ =>
        apply decode_chunk_body_frame_iff in H as [? ?]; [|fits_tac] end.
      split; [|done]. eapply encode_envelope_chunk; [done|done|].
      rewrite envelope_header_of by done. destruct x. eauto 10.
  - intros [He Hq]. rewrite <-(envelope_of_header e Hq).
    destruct (decode_mailbox_frame (env_ciphertext e)) as [f|] eqn:Hf.
    2: { unfold encode_mailbox_envelope in He. by rewrite Hf in He. }
    apply (codec_iff (dec := decode_mailbox_frame)) in Hf; [|done].
    destruct f as [c|f i c].
    + apply (encode_envelope_control e c l Hf Hc) in He as (b & v & Hk & Hv & b' & Hb & ->).
      kind_known; [|split; [done|reflexivity]].
      exists (envelope_header e, env_ciphertext e), b', []. cbn. rewrite app_nil_r.
      split; [by exists tt, [], []|]. split; [|done].
      exists (mkControlPacket (envelope_header e) c), b', [].
      split; [|split; [|by rewrite app_nil_r]].
      * exists (env_ciphertext e), [], []. done.
      * exists v. split; [done|].
        apply decode_control_packet_iff; [fits_tac|]. done.
    + apply (encode_envelope_chunk e f i c l Hf Hc) in He as (b & v & Hk & Hv & b' & Hb & ->).
      kind_known; [|split; [done|reflexivity]].
      exists (envelope_header e, env_ciphertext e), b', []. cbn. rewrite app_nil_r.
      split; [by exists tt, [], []|]. split; [|done]. split; [done|].
      exists (mkChunkBodyFrame (envelope_header e) f i c), b', [].
      split; [|split; [|by rewrite app_nil_r]].
      * exists (env_ciphertext e), [], []. done.
      * exists v. split; [done|].
        apply decode_chunk_body_frame_iff; [fits_tac|]. done.
Qed.

(** ** Nonces *)

Lemma nonce_bytes h pt :
  array_bytes (nonce h pt)
  = byte_of_N (N.lor (N.shiftl (if decide (pt = ChunkBody) then 1 else 0) 7)
                 (N.shiftl (if ltb (hdr_receiver_id h) (hdr_sender_id h) then 1 else 0) 6))
    :: [Byte.x00; Byte.x00; Byte.x00] ++ u64_to_be (hdr_seq h).
Proof.
  unfold nonce. match goal with |- context [array_of_bytes 12 ?l] => set (raw := l) end.
  destruct (array_of_bytes 12 raw) as [a|] eqn:Ha.
  - apply array_of_bytes_Some in Ha. cbn. by rewrite Ha.
  - assert (length raw = 12%nat) as Hl by (unfold raw; by rewrite length_app, length_u64_to_be).
    apply array_of_bytes_is_Some in Hl as (a & Hr & _). congruence.
Qed.

(** A nonce gives back the payload type, the direction and the sequence number. *)
Lemma nonce_inj h pt h' pt' :
  nonce h pt = nonce h' pt' →
  pt = pt' ∧ hdr_seq h = hdr_seq h'
  ∧ ltb (hdr_receiver_id h) (hdr_sender_id h) = ltb (hdr_receiver_id h') (hdr_sender_id h').
Proof.
  intros H. apply (f_equal array_bytes) in H. rewrite !nonce_bytes in H.
  pose proof (f_equal head H) as Hfirst. cbn [head] in Hfirst.
  pose proof (f_equal (skipn 4) H : u64_to_be (hdr_seq h) = u64_to_be (hdr_seq h')) as Hseq.
  apply u64_to_be_inj in Hseq. split; [|split; [done|]].
  - destruct (ltb _ _), (ltb _ _), pt, pt'; by vm_compute in Hfirst.
  - destruct (ltb _ _), (ltb _ _), pt, pt'; by vm_compute in Hfirst.
Qed.

(** A concrete hash, at which theorems about any hash are instantiated: the last 32 bytes of
    its input, zero-padded. *)
Definition sample_sha256 : Sha256 := λ l,
  default (array_fill 32 Byte.x00)
    (array_of_bytes 32 (rev (firstn 32 (rev l ++ repeat Byte.x00 32)))).
