(* ===== verification/NetEncoding.v ===== *)
(** * The canonical wire encoding ([encoding.rs]), part 2: network messages

    Directory advertisements and forget requests, join requests and welcomes, flush offers,
    encrypted network controls, pull requests and have queries. *)
From S2P Require Export Encoding.
From Stdlib Require Import Lia ZifyN ZifyNat.

Open Scope N_scope.

(** ** Socket addresses

    [SocketAddr::to_string] and [SocketAddr::from_str]: printing yields UTF-8 text that
    parses back.  Several texts may denote one address (leading zeros in a port, IPv6
    abbreviations), so nothing is said about printing a parsed text. *)
Class SocketAddrs := {
  SocketAddr : Type;
  #[global] SocketAddr_eq_dec :: EqDecision SocketAddr;
  addr_to_string : SocketAddr → text;
  addr_from_str : text → option SocketAddr;
  addr_port : SocketAddr → N;
  (** [addr.ip().is_unspecified()] *)
  addr_is_unspecified : SocketAddr → bool;
  addr_from_to a : addr_from_str (addr_to_string a) = Some a;
}.

(** ** Join requests ([net/join.rs]) *)

Definition join_request_m (request : JoinRequest) : Result bytes :=
  put (array_bytes (jr_vault_id request)) +++ put (array_bytes (jr_join_code request))
  +++ identity_m (jr_document request).

Definition encode_join_request (request : JoinRequest) : Result bytes :=
  push_encoded (join_request_m request) +++ push_variable (jr_signature request).

Definition dec_join_request_m (exchanged : IdentityDocument) (signature : bytes)
    : Dec JoinRequest :=
  let! vault_id := dec_array 32 in
  let! join_code := dec_array 16 in
  let! available := dec_remaining in
  let! identity := take available in
  let! expected := dec_lift (identity_m exchanged) in
  guard! bool_decide (identity = expected) else AuthenticationFailed in
  let! _ := finish in
  dec_ret (mkJoinRequest vault_id join_code exchanged signature).

Definition decode_join_request (l : bytes) (exchanged : IdentityDocument)
    : Result JoinRequest :=
  run (let! message := dec_variable in
       let! signature := dec_variable in
       let! _ := finish in
       dec_lift (run (dec_join_request_m exchanged signature) message)) l.

(** ** Welcomes *)

(** [push_variable(out, &encode_identity(document)?)?] *)
Definition put_identity (document : IdentityDocument) : Result bytes :=
  push_encoded (encode_identity document).

Definition dec_identity : Dec IdentityDocument := dec_nested decode_identity.

Definition put_peer (p : PeerId) : Result bytes := put (array_bytes p).
Definition dec_peer : Dec PeerId := dec_array 32.

(** The version-1 extension: historical writers in peer order, then the denylist. *)
Definition encode_welcome_extension (ext : list IdentityDocument * gset PeerId)
    : Result bytes :=
  put_byte Byte.x01
  +++ (push_length (lenN ext.1)
       +++ put_sorted doc_peer_id (InvalidInput "welcome history is not canonical")
             put_identity None ext.1)
  +++ put_set put_peer ext.2.

Definition dec_welcome_extension : Dec (list IdentityDocument * gset PeerId) :=
  let! _ := dec_expect_byte Byte.x01 (InvalidInput "unsupported welcome extension version") in
  let! historical := dec_sorted_vec doc_peer_id 4
    (dec_in_order doc_peer_id dec_identity
       (InvalidInput "welcome history is not canonical")) in
  let! denied := dec_set 32
    (dec_in_order id dec_peer (InvalidInput "welcome denylist is not canonical")) in
  let! _ := finish in
  dec_ret (historical, denied).

Definition decode_welcome_extension (l : bytes) := run dec_welcome_extension l.

(** The part every version writes. *)
Definition encode_welcome_base (vault_id : VaultId) (members : list IdentityDocument)
    : Result bytes :=
  put (array_bytes vault_id) +++ (push_length (lenN members) +++ put_each put_identity members).

Definition encode_net_welcome (welcome : NetWelcome) : Result bytes :=
  encode_welcome_base (nw_vault_id welcome) (nw_members welcome)
  +++ push_encoded (encode_welcome_extension (nw_historical welcome, nw_denied welcome)).

Definition dec_net_welcome : Dec NetWelcome :=
  let! vault_id := dec_array 32 in
  let! members := dec_vec 56 dec_identity in
  let! available := dec_remaining in
  let! (historical, denied) :=
    (if available =? 0 then dec_ret ([], ∅)
     else dec_nested decode_welcome_extension) in
  let! _ := finish in
  dec_ret (mkNetWelcome vault_id members historical denied).

Definition decode_net_welcome (l : bytes) : Result NetWelcome := run dec_net_welcome l.

(** ** Flush offers *)

Definition MAX_FLUSH_FRAMES : N := 1000000.

Definition put_u32 (n : u32) : Result bytes := push_length (u32_N n).

Definition encode_flush_extension (ext : list IdentityDocument * option u64) : Result bytes :=
  put_byte (match ext.2 with Some _ => Byte.x02 | None => Byte.x01 end)
  +++ (push_length (lenN ext.1)
       +++ put_sorted doc_peer_id (InvalidInput "flush history is not canonical")
             put_identity None ext.1)
  +++ match ext.2 with Some through => put_u64 through | None => put [] end.

Definition encode_flush_offer (offer : FlushOffer) : Result bytes :=
  if MAX_FLUSH_FRAMES <? fo_frame_count offer
  then Err (InvalidInput "flush frame count exceeds cap")
  else
    put (array_bytes (fo_challenge offer)) +++ put_u32 (fo_frame_count offer)
    +++ (if negb (bool_decide (fo_historical offer = []))
            || bool_decide (is_Some (fo_bootstrap_through offer))
         then push_encoded
                (encode_flush_extension (fo_historical offer, fo_bootstrap_through offer))
         else put []).

Definition dec_flush_extension : Dec (list IdentityDocument * option u64) :=
  let! version := dec_byte in
  guard! (byte_N version =? 1) || (byte_N version =? 2)
    else InvalidInput "unsupported flush offer extension version" in
  let! historical := dec_sorted_vec doc_peer_id 4
    (dec_in_order doc_peer_id dec_identity (InvalidInput "flush history is not canonical")) in
  let! bootstrap_through :=
    (if byte_N version =? 2 then let! through := dec_u64 in dec_ret (Some through)
     else dec_ret None) in
  let! _ := finish in
  dec_ret (historical, bootstrap_through).

Definition decode_flush_extension (l : bytes) := run dec_flush_extension l.

Definition dec_flush_offer : Dec FlushOffer :=
  let! challenge := dec_array 32 in
  let! frame_count := dec_u32 in
  let! available := dec_remaining in
  let! (historical, bootstrap_through) :=
    (if available =? 0 then dec_ret ([], None)
     else dec_nested decode_flush_extension) in
  let! _ := finish in
  if MAX_FLUSH_FRAMES <? frame_count
  then dec_err (InvalidInput "flush frame count exceeds cap")
  else dec_ret (mkFlushOffer challenge frame_count historical bootstrap_through).

Definition decode_flush_offer (l : bytes) : Result FlushOffer := run dec_flush_offer l.

(** ** Encrypted network controls *)

Definition encode_net_control (control : NetControl) : Result bytes :=
  match control with
  | JoinAccepted vault_id members historical denied =>
      put_byte Byte.x01
      +++ encode_net_welcome (mkNetWelcome vault_id members historical denied)
  | FlushEnd digest => put_byte Byte.x02 +++ put (array_bytes digest)
  | FlushApplied digest => put_byte Byte.x03 +++ put (array_bytes digest)
  | Ready => put_byte Byte.x04
  | Heartbeat => put_byte Byte.x05
  | HeartbeatApplied through => put_byte Byte.x05 +++ put_u64 through
  | JoinRejected bound requested =>
      put_byte Byte.x06 +++ put (array_bytes bound) +++ put (array_bytes requested)
  | AdmissionDenied => put_byte Byte.x07
  end.

Definition join_accepted (welcome : NetWelcome) : NetControl :=
  JoinAccepted (nw_vault_id welcome) (nw_members welcome) (nw_historical welcome)
    (nw_denied welcome).

Definition dec_net_control : Dec NetControl :=
  let! kind := dec_byte in
  let! control :=
    (if byte_N kind =? 1 then
       let! available := dec_remaining in
       let! payload := take available in
       let! welcome := dec_lift (decode_net_welcome payload) in
       dec_ret (join_accepted welcome)
     else if byte_N kind =? 2 then let! d := dec_array 32 in dec_ret (FlushEnd d)
     else if byte_N kind =? 3 then let! d := dec_array 32 in dec_ret (FlushApplied d)
     else if byte_N kind =? 4 then dec_ret Ready
     else if byte_N kind =? 5 then
       let! available := dec_remaining in
       if available =? 0 then dec_ret Heartbeat
       else if available =? 8 then let! t := dec_u64 in dec_ret (HeartbeatApplied t)
       else dec_err (InvalidInput "invalid heartbeat control length")
     else if byte_N kind =? 6 then
       let! bound := dec_array 32 in
       let! requested := dec_array 32 in
       dec_ret (JoinRejected bound requested)
     else if byte_N kind =? 7 then dec_ret AdmissionDenied
     else dec_err (InvalidInput "unknown encrypted network control kind")) in
  let! _ := finish in
  dec_ret control.

Definition decode_net_control (l : bytes) : Result NetControl := run dec_net_control l.

(** ** Pull requests ([protocol/pull.rs]) *)

Definition MAX_PULL_CHUNK_IDS : N := 32.

(** The list is private: every value comes from [PullRequest_new]. *)
Record PullRequest := mkPullRequest { pr_chunk_ids : list ChunkId }.

Definition PullRequest_new (chunk_ids : list ChunkId) : Result PullRequest :=
  if MAX_PULL_CHUNK_IDS <? lenN chunk_ids
  then Err (InvalidInput "pull request exceeds the 32 chunk identifier cap")
  else Ok (mkPullRequest chunk_ids).

Definition put_chunk_ids (l : list ChunkId) : Result bytes :=
  push_length (lenN l) +++ put_each (λ c, put (array_bytes c)) l.

Definition encode_pull_request (request : PullRequest) : Result bytes :=
  put_chunk_ids (pr_chunk_ids request).

Definition dec_pull_request : Dec PullRequest :=
  let! count := dec_u32 in
  guard! u32_N count <=? MAX_PULL_CHUNK_IDS
    else InvalidInput "pull request exceeds the 32 chunk identifier cap" in
  let! available := dec_remaining in
  guard! u32_N count <=? available / 32 else InvalidInput "truncated pull request" in
  let! chunk_ids := dec_repeat (N.to_nat count) (dec_array 32) in
  let! _ := finish in
  dec_lift (PullRequest_new chunk_ids).

Definition decode_pull_request (l : bytes) : Result PullRequest := run dec_pull_request l.

(** ** Have queries ([protocol/locate.rs]) *)

Definition HAVE_MAGIC : bytes := bstr "qfs/v1/have/".
Definition MAX_HAVE_CHUNK_IDS : N := 32.

Definition require_count (count : N) : Result unit :=
  if (1 <=? count) && (count <=? MAX_HAVE_CHUNK_IDS) then Ok tt
  else Err (InvalidInput "have query requires between 1 and 32 chunk identifiers").

(** [usize::div_ceil(8)] *)
Definition div_ceil8 (n : N) : N := (n + 7) / 8.

Record HaveQuery := mkHaveQuery { hq_file_id : FileId; hq_chunk_ids : list ChunkId }.

Definition HaveQuery_new (file_id : FileId) (chunk_ids : list ChunkId) : Result HaveQuery :=
  let? _ := require_count (lenN chunk_ids) in Ok (mkHaveQuery file_id chunk_ids).

Record HaveReply := mkHaveReply {
  hr_file_id : FileId;
  hr_chunk_ids : list ChunkId;
  hr_have_bitset : bytes;
}.

Definition HaveReply_validate (reply : HaveReply) (query : HaveQuery) : Result unit :=
  let? _ := require_count (lenN (hr_chunk_ids reply)) in
  if negb (bool_decide (hr_file_id reply = hq_file_id query))
     || negb (bool_decide (hr_chunk_ids reply = hq_chunk_ids query))
  then Err AuthenticationFailed
  else if negb (lenN (hr_have_bitset reply) =? div_ceil8 (lenN (hr_chunk_ids reply)))
  then Err (InvalidInput "have reply bitset length mismatch")
  else Ok tt.

Definition HaveReply_new (query : HaveQuery) (have_bitset : bytes) : Result HaveReply :=
  let reply := mkHaveReply (hq_file_id query) (hq_chunk_ids query) have_bitset in
  let? _ := HaveReply_validate reply query in
  Ok reply.

Definition HaveReply_has (reply : HaveReply) (index : nat) : bool :=
  (index <? length (hr_chunk_ids reply))%nat
  && match hr_have_bitset reply !! (index / 8)%nat with
     | Some byte =>
         negb (N.land (byte_N byte) (N.shiftl 1 (N.of_nat (index mod 8))) =? 0)
     | None => false
     end.

Definition encode_have_query (query : HaveQuery) : Result bytes :=
  let? _ := require_count (lenN (hq_chunk_ids query)) in
  put HAVE_MAGIC +++ put_byte Byte.x01 +++ put (array_bytes (hq_file_id query))
  +++ put_chunk_ids (hq_chunk_ids query).

Definition dec_have_query : Dec HaveQuery :=
  let! _ := require_prefix HAVE_MAGIC in
  let! _ := dec_expect_byte Byte.x01 (InvalidInput "invalid have query kind") in
  let! file_id := dec_array 32 in
  let! count := dec_u32 in
  let! _ := dec_lift (require_count count) in
  let! available := dec_remaining in
  guard! u32_N count <=? available / 32 else InvalidInput "truncated have query" in
  let! chunk_ids := dec_repeat (N.to_nat count) (dec_array 32) in
  let! _ := finish in
  dec_lift (HaveQuery_new file_id chunk_ids).

Definition decode_have_query (l : bytes) : Result HaveQuery := run dec_have_query l.

Definition encode_have_reply (reply : HaveReply) : Result bytes :=
  let? _ := require_count (lenN (hr_chunk_ids reply)) in
  if negb (lenN (hr_have_bitset reply) =? div_ceil8 (lenN (hr_chunk_ids reply)))
  then Err (InvalidInput "have reply bitset length mismatch")
  else
    put HAVE_MAGIC +++ put_byte Byte.x02 +++ put (array_bytes (hr_file_id reply))
    +++ put_chunk_ids (hr_chunk_ids reply) +++ put (hr_have_bitset reply).

(** [count.checked_mul(32)] cannot overflow: [count] is at most 32. *)
Definition dec_have_reply : Dec HaveReply :=
  let! _ := require_prefix HAVE_MAGIC in
  let! _ := dec_expect_byte Byte.x02 (InvalidInput "invalid have reply kind") in
  let! file_id := dec_array 32 in
  let! count := dec_u32 in
  let! _ := dec_lift (require_count count) in
  let! available := dec_remaining in
  guard! available =? u32_N count * 32 + div_ceil8 count
    else InvalidInput "have reply length mismatch" in
  let! chunk_ids := dec_repeat (N.to_nat count) (dec_array 32) in
  let! have_bitset := take (div_ceil8 count) in
  let! _ := finish in
  dec_ret (mkHaveReply file_id chunk_ids have_bitset).

Definition decode_have_reply (l : bytes) : Result HaveReply := run dec_have_reply l.

(** ** Directory records ([net/directory.rs]) *)

Record DirForget := mkDirForget {
  df_peer_id : PeerId;
  df_vault_id : VaultId;
  df_join_code : JoinCode;
  df_issued_at : u64;
  df_signature : bytes;
}.

Definition dir_forget_m (request : DirForget) : Result bytes :=
  put (array_bytes (df_peer_id request)) +++ put (array_bytes (df_vault_id request))
  +++ put (array_bytes (df_join_code request)) +++ put_u64 (df_issued_at request).

Definition encode_dir_forget (request : DirForget) : Result bytes :=
  push_encoded (dir_forget_m request) +++ push_variable (df_signature request).

Definition dec_dir_forget_m (signature : bytes) : Dec DirForget :=
  let! peer_id := dec_array 32 in
  let! vault_id := dec_array 32 in
  let! join_code := dec_array 16 in
  let! issued_at := dec_u64 in
  let! _ := finish in
  dec_ret (mkDirForget peer_id vault_id join_code issued_at signature).

Definition decode_dir_forget_message (message signature : bytes) : Result DirForget :=
  run (dec_dir_forget_m signature) message.

Definition decode_dir_forget (l : bytes) : Result DirForget :=
  run (let! message := dec_variable in
       let! signature := dec_variable in
       let! _ := finish in
       dec_lift (decode_dir_forget_message message signature)) l.

Section directory.
Context `{SocketAddrs}.

Record DirectoryAd := mkDirectoryAd {
  ad_peer_id : PeerId;
  ad_vault_id : VaultId;
  ad_addr : SocketAddr;
  ad_ek : bytes;
  ad_vk : bytes;
  ad_issued_at : u64;
  ad_signature : bytes;
}.

Definition directory_ad_m (ad : DirectoryAd) : Result bytes :=
  put (array_bytes (ad_peer_id ad)) +++ put (array_bytes (ad_vault_id ad))
  +++ push_variable (text_bytes (addr_to_string (ad_addr ad)))
  +++ push_variable (ad_ek ad) +++ push_variable (ad_vk ad) +++ put_u64 (ad_issued_at ad).

Definition encode_directory_ad (ad : DirectoryAd) : Result bytes :=
  push_encoded (directory_ad_m ad) +++ push_variable (ad_signature ad).

Definition dec_directory_ad_m (signature : bytes) : Dec DirectoryAd :=
  let! peer_id := dec_array 32 in
  let! vault_id := dec_array 32 in
  let! text := dec_utf8 "directory address is not UTF-8" in
  let! addr := dec_lift (ok_or (addr_from_str text)
    (InvalidInput "directory address is not a numeric socket address")) in
  let! ek := dec_variable in
  let! vk := dec_variable in
  let! issued_at := dec_u64 in
  let! _ := finish in
  dec_ret (mkDirectoryAd peer_id vault_id addr ek vk issued_at signature).

Definition decode_directory_ad_message (message signature : bytes) : Result DirectoryAd :=
  run (dec_directory_ad_m signature) message.

Definition decode_directory_ad (l : bytes) : Result DirectoryAd :=
  run (let! message := dec_variable in
       let! signature := dec_variable in
       let! _ := finish in
       dec_lift (decode_directory_ad_message message signature)) l.
End directory.

(** ** Codec laws *)

#[export] Instance put_identity_min : MinLen put_identity 56.
Proof.
  intros d b. unfold put_identity. rewrite push_encoded_Ok.
  intros (x & Hx%min_len & Hb%push_variable_len). lia.
Qed.
#[export] Instance put_identity_min4 : MinLen put_identity 4 | 10.
Proof. intros d b. apply push_encoded_len. Qed.
#[export] Instance put_peer_min : MinLen put_peer 32.
Proof. intros p b. by apply min_len. Qed.

#[export] Instance spec_identity : DecSpec dec_identity (encodes put_identity).
Proof. apply spec_nested, _. Qed.
#[export] Instance spec_peer : DecSpec dec_peer (encodes put_peer).
Proof. apply spec_array. Qed.
#[global] Typeclasses Opaque dec_identity dec_peer.

#[export] Instance welcome_extension_codec :
  Codec decode_welcome_extension encode_welcome_extension.
Proof. apply run_codec. codec encode_welcome_extension. Qed.

(** What a welcome decodes from: its encoding, or the encoding of earlier versions, which
    ends after the members and means an empty history and denylist. *)
Definition welcome_wire (w : NetWelcome) (l : bytes) : Prop :=
  encode_net_welcome w = Ok l ∨
  (nw_historical w = [] ∧ nw_denied w = ∅
   ∧ encode_welcome_base (nw_vault_id w) (nw_members w) = Ok l).

Lemma lenN_pos_ne (l : bytes) : 0 < lenN l → (lenN l =? 0) = false.
Proof. intros. apply N.eqb_neq. lia. Qed.

Lemma dec_net_welcome_spec :
  DecSpec dec_net_welcome (λ w bs tl, welcome_wire w bs ∧ tl = []).
Proof.
  eapply spec_iff; [typeclasses eauto|]. intros w bs tl. unfold encodes, welcome_wire. cbn beta.
  unfold encode_net_welcome. split.
  - intros (v & b1 & b2 & (m & b3 & b4 & (n & b5 & b6 & ([h d] & b7 & b8 & H & H' & ->)
            & [-> ->] & ->) & Hm & ->) & Hv & ->).
    cbn in H. destruct H as (_ & b9 & b10 & [-> ->] & [-> Htl] & ->). cbn in Htl. subst tl.
    cbn. rewrite !app_nil_r in *. cbn in *. split; [|done].
    destruct (lenN b7 =? 0); codec_destruct; subst; cbn.
    + right. unfold encode_welcome_base. codec_conj; [congruence|congruence|].
      rewrite app_nil_r. codec_pieces.
    + left. unfold encode_welcome_base. rewrite cat_assoc. codec_pieces.
  - destruct w as [v m h d]. cbn. unfold encode_welcome_base. intros [[H|(-> & -> & H)] ->].
    + rewrite !cat_assoc in H. apply cat_Ok in H as (b1 & b2 & H1 & H2 & ->).
      rewrite <-cat_assoc in H2. apply cat_Ok in H2 as (b3 & b4 & H3 & H4 & ->).
      exists v, b1, (b3 ++ b4). split; [|done]. exists m, b3, b4. split; [|done].
      exists (lenN b4), [], b4. rewrite app_nil_r. split; [|done].
      exists (h, d), b4, []. rewrite app_nil_r. cbn. split; [by exists tt, [], []|].
      rewrite lenN_pos_ne; [done|]. apply push_encoded_len in H4. lia.
    + apply cat_Ok in H as (b1 & b2 & H1 & H2 & ->).
      exists v, b1, b2. split; [|done]. exists m, b2, []. split; [|by rewrite app_nil_r].
      exists 0, [], []. split; [|done]. exists ([], ∅), [], []. cbn. split; [|done].
      by exists tt, [], [].
Qed.

Lemma decode_net_welcome_iff l w :
  fits l → decode_net_welcome l = Ok w ↔ welcome_wire w l.
Proof.
  intros Hl. unfold decode_net_welcome.
  rewrite (run_spec _ _ l w dec_net_welcome_spec); naive_solver.
Qed.

#[export] Instance flush_extension_codec :
  Codec decode_flush_extension encode_flush_extension.
Proof.
  apply run_codec. eapply spec_iff; [typeclasses eauto|].
  intros [h o] bs tl. unfold encodes, encodes_all, encode_flush_extension. cbn beta. split.
  - intros (k & b1 & b2 & H & Hk & ->). codec_destruct. kind_cases k; codec_destruct;
      subst; cbn; simplify_eq; cbn; codec_conj; rewrite ?cat_nil_r; solve [done|codec_pieces].
  - cbn. destruct o; rewrite ?cat_nil_r; intros; codec_destruct; subst; kind_known; codec_backward.
Qed.

(** What a flush offer decodes from: its encoding, or one with the extension an empty offer
    does not need. *)
Definition flush_offer_wire (o : FlushOffer) (l : bytes) : Prop :=
  encode_flush_offer o = Ok l ∨
  (fo_historical o = [] ∧ fo_bootstrap_through o = None
   ∧ fo_frame_count o <= MAX_FLUSH_FRAMES
   ∧ (put (array_bytes (fo_challenge o)) +++ put_u32 (fo_frame_count o)
      +++ push_encoded (encode_flush_extension ([], None))) = Ok l).

Lemma dec_flush_offer_spec :
  DecSpec dec_flush_offer (λ o bs tl, flush_offer_wire o bs ∧ tl = []).
Proof.
  eapply spec_iff; [typeclasses eauto|].
  intros o bs tl. unfold encodes, flush_offer_wire, encode_flush_offer. cbn beta. split.
  - intros (c & b1 & b2 & (n & b3 & b4 & (a & b5 & b6 & ([h t] & b7 & b8 & H & H' & ->)
            & [-> ->] & ->) & Hn & ->) & Hc & ->).
    cbn in H. destruct H as (_ & b9 & b10 & H & [-> Htl] & ->). cbn in Htl.
    destruct (N.ltb_spec MAX_FLUSH_FRAMES n) as [|Hle]; [done|].
    destruct H as [-> ->]. cbn in Htl. subst tl. cbn. rewrite !app_nil_r in *.
    split; [|done]. rewrite (proj2 (N.ltb_ge _ _)) by done.
    destruct (lenN b7 =? 0) eqn:E.
    + destruct H' as [[= -> ->] ->]. left. cbn. rewrite cat_nil_r, app_nil_r. codec_pieces.
    + cbn. destruct (negb (bool_decide (h = [])) || bool_decide (is_Some t)) eqn:Eb.
      * left. codec_pieces.
      * apply orb_false_iff in Eb as [Eh Et]. apply negb_false_iff, bool_decide_eq_true in Eh.
        apply bool_decide_eq_false in Et. subst h.
        destruct t; [by destruct Et|]. right. repeat split; [done|].
        apply cat_intro; [done|]. apply cat_intro; done.
  - destruct o as [c n h t]. cbn. intros [H ->]. rewrite app_nil_r || idtac.
    assert (n <= MAX_FLUSH_FRAMES ∧ ∃ ext,
      (put (array_bytes c) +++ put_u32 n +++ ext) = Ok bs
      ∧ ((ext = put [] ∧ h = [] ∧ t = None) ∨ ext = push_encoded (encode_flush_extension (h, t))))
      as (Hle & ext & Hbs & Hext).
    { destruct H as [H|(-> & -> & Hle & H)]; [|eauto].
      destruct (N.ltb_spec MAX_FLUSH_FRAMES n) as [|Hle]; [done|]. split; [done|].
      eexists. split; [exact H|]. destruct (_ || _) eqn:Eb; [by right|left].
      apply orb_false_iff in Eb as [Eh Et]. apply negb_false_iff, bool_decide_eq_true in Eh.
      apply bool_decide_eq_false in Et. destruct t; [by destruct Et|done]. }
    apply cat_Ok in Hbs as (b1 & b2 & H1 & (b3 & b4 & H3 & H4 & ->)%cat_Ok & ->).
    exists c, b1, (b3 ++ b4). split; [|done]. exists n, b3, b4. split; [|done].
    exists (lenN b4), [], b4. rewrite app_nil_r. split; [|done].
    exists (h, t), b4, []. rewrite app_nil_r. cbn.
    rewrite (proj2 (N.ltb_ge _ _)) by done. split; [by exists tt, [], []|]. split; [|done].
    destruct Hext as [(-> & -> & ->)| ->].
    + apply put_Ok in H4 as ->. done.
    + rewrite lenN_pos_ne; [done|]. apply push_encoded_len in H4. lia.
Qed.

Lemma decode_flush_offer_iff l o :
  fits l → decode_flush_offer l = Ok o ↔ flush_offer_wire o l.
Proof.
  intros Hl. unfold decode_flush_offer.
  rewrite (run_spec _ _ l o dec_flush_offer_spec); naive_solver.
Qed.

Definition net_control_wire (c : NetControl) (l : bytes) : Prop :=
  encode_net_control c = Ok l ∨
  ∃ w l', c = join_accepted w ∧ welcome_wire w l' ∧ l = Byte.x01 :: l'.

Lemma fits_app_r b l : fits (b ++ l) → fits l.
Proof. unfold fits. rewrite lenN_app. lia. Qed.

Lemma decode_net_control_iff l c :
  fits l → decode_net_control l = Ok c ↔ net_control_wire c l.
Proof.
  intros Hl. unfold decode_net_control.
  erewrite run_spec; [|typeclasses eauto| |done].
  2: { intros x bs tl H. cbn beta in H. codec_destruct. by subst. }
  cbn beta. unfold encodes, net_control_wire. split.
  - intros (k & b1 & b2 & (c' & b3 & b4 & (_ & b5 & b6 & [-> ->] & [-> Htl] & ->) & H & ->) & Hk & ->).
    cbn in H. rewrite !app_nil_r in *. kind_cases k; codec_destruct; subst.
    + right. apply put_byte_Ok in Hk as ->. rewrite !app_nil_r in *. cbn.
      match goal with H : decode_net_welcome ?v = Ok ?w |- _ =>
        apply decode_net_welcome_iff in H; [by exists w, v|by apply (fits_app_r [Byte.x01])] end.
    + left. cbn. codec_pieces.
    + left. cbn. codec_pieces.
    + left. cbn. codec_pieces.
    + left. rewrite !app_nil_r in H. destruct (lenN x1 =? 0).
      * codec_destruct; subst. cbn. by rewrite app_nil_r.
      * codec_destruct; subst. cbn. codec_pieces.
    + left. cbn. codec_pieces.
    + left. cbn. codec_pieces.
  - match goal with |- _ → ?G => assert (∀ w l',
      welcome_wire w l' → l = Byte.x01 :: l' → c = join_accepted w → G) as Hjoin end.
    { intros w l' Hw -> ->. exists Byte.x01, [Byte.x01], l'.
      split; [|split; [by apply put_byte_Ok|done]].
      exists (join_accepted w), l', []. split; [by exists tt, [], []|].
      split; [|by rewrite app_nil_r]. kind_eval.
      exists (lenN (l' ++ [])), [], l'. split; [|done].
      exists l', l', []. rewrite !app_nil_r. split; [|done]. exists w, [], [].
      split; [done|]. split; [|done]. split; [|done].
      apply decode_net_welcome_iff; [by apply (fits_app_r [Byte.x01])|done]. }
    intros [H|(w & l' & -> & Hw & ->)]; [|by eapply Hjoin].
    destruct c; cbn in H; codec_destruct; subst.
    { eapply Hjoin; [by left|by (apply put_byte_Ok in H as ->)|done]. }
    all: kind_known; [|split; [done|try (by rewrite app_nil_r); reflexivity]].
    all: eexists _, _, []; split; [by exists tt, [], []|]; rewrite ?app_nil_r; split; [|done].
    all: clear Hjoin Hl.
    7: { match goal with H : put_u64 _ = Ok ?b |- _ =>
           exists (lenN b), [], b; rewrite app_nil_r, (put_u64_len _ _ H) end.
         split; [|done]. change (8 =? 0) with false. cbv iota. codec_backward. }
    6: { by exists 0, [], []. }
    all: codec_backward.
Qed.

(** ** Join requests *)

Lemma decode_join_request_iff l d r :
  fits l →
  decode_join_request l d = Ok r ↔ encode_join_request r = Ok l ∧ jr_document r = d.
Proof.
  intros Hl.
  assert (Hm : ∀ m s, fits m → run (dec_join_request_m d s) m = Ok r ↔
    join_request_m r = Ok m ∧ jr_signature r = s ∧ jr_document r = d).
  { intros m s Hf. erewrite run_spec; [|typeclasses eauto| |done].
    2: { intros x bs tl H. cbn beta in H. codec_destruct. by subst. }
    cbn beta. unfold encodes, join_request_m. split.
    - intros. codec_destruct; subst. cbn in *.
      match goal with H : bool_decide _ = true |- _ => apply bool_decide_eq_true in H as -> end.
      codec_conj; [codec_pieces|done|done].
    - destruct r. cbn. intros. codec_destruct; subst.
      eexists _, _, _; split; [|split; [eassumption|reflexivity]].
      eexists _, _, _; split; [|split; [eassumption|reflexivity]].
      match goal with H : identity_m _ = Ok ?v |- _ => exists (lenN v), [], v;
        split; [|split; [by rewrite app_nil_r|done]]; exists v, v, [];
        split; [|by rewrite app_nil_r]; exists v, [], []; split; [|by rewrite H] end.
      split; [by apply bool_decide_eq_true|]. by exists tt, [], []. }
  unfold decode_join_request. erewrite run_spec; [|typeclasses eauto| |done].
  2: { intros x bs tl H. cbn beta in H. codec_destruct. by subst. }
  cbn beta. unfold encodes, encode_join_request. split.
  - intros. codec_destruct; subst. cbn in *.
    match goal with H : run _ _ = Ok _ |- _ => apply Hm in H; [|fits_tac] end.
    codec_destruct. subst. split; [|done]. rewrite !app_nil_r. codec_pieces.
  - intros. codec_destruct; subst.
    match goal with
    | Hr : join_request_m r = Ok ?m, Hm' : push_variable ?m = Ok ?a,
      Hs : push_variable (jr_signature r) = Ok ?b |- _ =>
        exists m, a, b; split; [exists (jr_signature r), b, []|done]
    end.
    split; [|split; [done|by rewrite app_nil_r]].
    exists tt, [], []. split; [|done]. split; [|done]. apply Hm; [fits_tac|done].
Qed.

(** ** Pull requests and have queries *)

Lemma put_chunk_ids_Ok l bs :
  put_chunk_ids l = Ok bs ↔
  ∃ b1 b2, push_length (lenN l) = Ok b1
    ∧ put_each (λ c : ChunkId, put (array_bytes c)) l = Ok b2 ∧ bs = b1 ++ b2.
Proof. apply cat_Ok. Qed.

Lemma put_each_arrays_len {n} (l : list (array n)) bs :
  put_each (λ c, put (array_bytes c)) l = Ok bs → lenN bs = N.of_nat n * lenN l.
Proof.
  revert bs. induction l as [|c l IH]; intros bs.
  - intros [= <-]. rewrite (@lenN_nil byte), (@lenN_nil (array n)). lia.
  - intros (b1 & b2 & Hc%put_array_len & Hl%IH & ->)%put_each_Ok_cons.
    rewrite lenN_app, lenN_cons, Hc, Hl. lia.
Qed.

Lemma u32_lenN {A} (n : u32) (l : list A) : length l = N.to_nat n → u32_N n = lenN l.
Proof. intros H. unfold lenN. by rewrite H, N2Nat.id. Qed.

Lemma u32_of_lenN {A} (l : list A) b :
  push_length (lenN l) = Ok b → ∃ n : u32, u32_N n = lenN l ∧ push_length (u32_N n) = Ok b.
Proof.
  intros Hb. pose proof Hb as [Hl _]%push_length_Ok.
  destruct (u32_of_N (lenN l)) as [n|] eqn:E.
  - apply u32_of_N_Some in E. exists n. by rewrite E.
  - unfold u32_of_N in E. destruct (is_true_dec _) as [|p]; [done|].
    destruct p. by apply Is_true_true, N.ltb_lt.
Qed.

Lemma PullRequest_new_Ok l r :
  PullRequest_new l = Ok r ↔ lenN l <= MAX_PULL_CHUNK_IDS ∧ r = mkPullRequest l.
Proof.
  unfold PullRequest_new. destruct (N.ltb_spec MAX_PULL_CHUNK_IDS (lenN l)).
  - split; [done|]. intros [? _]. lia.
  - split; [by intros [= <-]|by intros [_ ->]].
Qed.

Lemma decode_pull_request_iff l r :
  fits l →
  decode_pull_request l = Ok r ↔
  encode_pull_request r = Ok l ∧ lenN (pr_chunk_ids r) <= MAX_PULL_CHUNK_IDS.
Proof.
  intros Hl. unfold decode_pull_request. erewrite run_spec; [|typeclasses eauto| |done].
  2: { intros x bs tl H. cbn beta in H. codec_destruct. by subst. }
  cbn beta. unfold encodes, encode_pull_request. split.
  - intros. codec_destruct; subst.
    match goal with H : PullRequest_new _ = Ok _ |- _ => apply PullRequest_new_Ok in H as [? ->] end.
    cbn in *. split; [|done]. apply put_chunk_ids_Ok. rewrite ?app_nil_r.
    match goal with H : length _ = N.to_nat _ |- _ => rewrite (u32_lenN _ _ H) in * end. eauto.
  - intros [(b1 & b2 & Hb & Hids & ->)%put_chunk_ids_Ok Hmax]. destruct r as [ids]. cbn in *.
    destruct (u32_of_lenN _ _ Hb) as (n & Hn & Hb'). exists n, b1, b2. split; [|done].
    rewrite Hn. split; [by apply N.leb_le|]. exists (lenN b2), [], b2. split; [|by rewrite app_nil_r].
    pose proof (put_each_arrays_len _ _ Hids) as Hlen. rewrite Hlen. split.
    { apply N.leb_le. change (N.of_nat 32) with 32. rewrite N.mul_comm, N.div_mul by done. reflexivity. }
    exists ids, b2, []. split; [|split; [|by rewrite app_nil_r]].
    + exists tt, [], []. split; [|done]. split; [|done]. by apply PullRequest_new_Ok.
    + unfold lenN. by rewrite Nat2N.id.
Qed.

#[export] Instance dir_forget_signed :
  SignedCodec decode_dir_forget_message dir_forget_m df_signature.
Proof. apply run_signed. intros s. codec dir_forget_m. Qed.

#[export] Instance dir_forget_codec : Codec decode_dir_forget encode_dir_forget.
Proof. apply run_codec. codec encode_dir_forget. Qed.

Lemma require_count_Ok n u : require_count n = Ok u ↔ 1 <= n ∧ n <= MAX_HAVE_CHUNK_IDS.
Proof.
  unfold require_count. destruct u.
  destruct (N.leb_spec 1 n), (N.leb_spec n MAX_HAVE_CHUNK_IDS); simpl; naive_solver lia.
Qed.

Lemma HaveQuery_new_Ok f l q :
  HaveQuery_new f l = Ok q ↔ require_count (lenN l) = Ok tt ∧ q = mkHaveQuery f l.
Proof. unfold HaveQuery_new. destruct (require_count (lenN l)) as [[]|]; naive_solver. Qed.

(** The identifiers of a decoded list, and the count before them. *)
Lemma chunk_ids_intro (n : u32) l b1 b2 :
  length l = N.to_nat n → push_length (u32_N n) = Ok b1 →
  put_each (λ a : array 32, put (array_bytes a)) l = Ok b2 → put_chunk_ids l = Ok (b1 ++ b2).
Proof. intros Hn%u32_lenN Hb Hl. rewrite Hn in Hb. apply put_chunk_ids_Ok. eauto. Qed.

#[export] Instance have_query_codec : Codec decode_have_query encode_have_query.
Proof.
  intros l q Hl. unfold decode_have_query. erewrite run_spec; [|typeclasses eauto| |done].
  2: { intros x bs tl H. cbn beta in H. codec_destruct. by subst. }
  cbn beta. unfold encodes, encode_have_query. split.
  - intros. codec_destruct; subst.
    match goal with H : HaveQuery_new _ _ = Ok _ |- _ => apply HaveQuery_new_Ok in H as [Hc ->] end.
    cbn [hq_file_id hq_chunk_ids] in *. rewrite Hc. cbn [res_bind]. rewrite ?app_nil_r, ?app_nil_l.
    repeat (apply cat_intro; [eassumption|]). by eapply chunk_ids_intro.
  - destruct q as [f ids]. cbn [hq_file_id hq_chunk_ids].
    destruct (require_count (lenN ids)) as [[]|] eqn:Hc; cbn [res_bind]; [|done]. intros.
    codec_destruct; subst.
    match goal with H : put_chunk_ids _ = Ok _ |- _ =>
      apply put_chunk_ids_Ok in H as (b1 & b2 & Hb & Hids & ->) end.
    destruct (u32_of_lenN _ _ Hb) as (n & Hn & Hb').
    pose proof (put_each_arrays_len _ _ Hids) as Hlen.
    exists tt. eexists _, _; split; [|split; [eassumption|reflexivity]].
    exists tt. eexists _, _; split; [|split; [eassumption|reflexivity]].
    eexists _, _, _; split; [|split; [eassumption|reflexivity]].
    exists n, b1, b2; split; [|done]. exists tt, [], b2. rewrite Hn.
    split; [|done]. exists (lenN b2), [], b2. split; [|by rewrite app_nil_r]. split.
    { apply N.leb_le. rewrite Hlen. change (N.of_nat 32) with 32.
      rewrite N.mul_comm, N.div_mul by done. reflexivity. }
    exists ids, b2, []. split; [|split; [|by rewrite app_nil_r]].
    + exists tt, [], []. split; [|done]. split; [|done]. by apply HaveQuery_new_Ok.
    + unfold lenN. by rewrite Nat2N.id.
Qed.

#[export] Instance have_reply_codec : Codec decode_have_reply encode_have_reply.
Proof.
  intros l q Hl. unfold decode_have_reply. erewrite run_spec; [|typeclasses eauto| |done].
  2: { intros x bs tl H. cbn beta in H. codec_destruct. by subst. }
  cbn beta. unfold encodes, encode_have_reply. split.
  - intros. codec_destruct; subst. cbn [hr_file_id hr_chunk_ids hr_have_bitset].
    match goal with Hn : length _ = N.to_nat _ |- _ =>
      pose proof (u32_lenN _ _ Hn) as Hl' end.
    rewrite Hl' in *.
    match goal with H : require_count _ = Ok _ |- _ => rewrite H end. cbn [res_bind].
    match goal with H : lenN _ = div_ceil8 _ |- _ => apply N.eqb_eq in H; rewrite H end.
    cbn [negb]. rewrite ?app_nil_r, ?app_nil_l.
    repeat (apply cat_intro; [eassumption|]). rewrite app_assoc.
    apply cat_intro; [apply put_chunk_ids_Ok; eauto|]. by apply put_Ok.
  - destruct q as [f ids bits]. cbn [hr_file_id hr_chunk_ids hr_have_bitset].
    destruct (require_count (lenN ids)) as [[]|] eqn:Hc; cbn [res_bind]; [|done].
    destruct (N.eqb_spec (lenN bits) (div_ceil8 (lenN ids))) as [Hbits|]; cbn [negb]; [|done].
    intros. codec_destruct; subst.
    match goal with H : put_chunk_ids _ = Ok _ |- _ =>
      apply put_chunk_ids_Ok in H as (b1 & b2 & Hb & Hids & ->) end.
    match goal with H : put bits = Ok _ |- _ => apply put_Ok in H as -> end.
    destruct (u32_of_lenN _ _ Hb) as (n & Hn & Hb').
    pose proof (put_each_arrays_len _ _ Hids) as Hlen.
    exists tt. eexists _, _; split; [|split; [eassumption|reflexivity]].
    exists tt. eexists _, _; split; [|split; [eassumption|reflexivity]].
    eexists _, _, _; split; [|split; [eassumption|reflexivity]].
    exists n, b1, (b2 ++ bits); split; [|split; [done|by rewrite app_assoc]].
    exists tt, [], (b2 ++ bits). rewrite Hn.
    split; [|done]. exists (lenN (b2 ++ bits)), [], (b2 ++ bits).
    split; [|by rewrite app_nil_r]. split.
    { apply N.eqb_eq. rewrite lenN_app, Hlen, Hbits. change (N.of_nat 32) with 32. 
      by rewrite (N.mul_comm 32). }
    exists ids, b2, bits. split; [|split; [|done]].
    + exists bits, bits, []. split; [|split; [done|by rewrite app_nil_r]].
      exists tt, [], []. done.
    + unfold lenN. by rewrite Nat2N.id.
Qed.

(** ** Directory advertisements *)

Section directory_laws.
Context `{SocketAddrs}.

Lemma ok_or_addr a e : ok_or (addr_from_str (addr_to_string a)) e = Ok a.
Proof. by rewrite addr_from_to. Qed.

Lemma decode_directory_ad_message_intro ad m :
  fits m → directory_ad_m ad = Ok m →
  decode_directory_ad_message m (ad_signature ad) = Ok ad.
Proof.
  intros Hm Had. unfold decode_directory_ad_message.
  erewrite run_spec; [|typeclasses eauto| |done].
  2: { intros x bs tl Hx. cbn beta in Hx. codec_destruct. by subst. }
  cbn beta. unfold encodes. revert Had. unfold directory_ad_m. destruct ad. cbn. intros.
  codec_destruct; subst.
  codec_split; first [apply ok_or_addr | codec_solve].
Qed.

Lemma decode_directory_ad_intro ad l :
  fits l → encode_directory_ad ad = Ok l → decode_directory_ad l = Ok ad.
Proof.
  intros Hl Had. unfold decode_directory_ad.
  erewrite run_spec; [|typeclasses eauto| |done].
  2: { intros x bs tl Hx. cbn beta in Hx. codec_destruct. by subst. }
  cbn beta. unfold encodes. unfold encode_directory_ad in Had. codec_destruct. subst.
  match goal with
  | Hr : directory_ad_m ad = Ok ?m, Hm' : push_variable ?m = Ok ?a,
    Hs : push_variable (ad_signature ad) = Ok ?b |- _ =>
      exists m, a, b; split; [exists (ad_signature ad), b, []|done]
  end.
  split; [|split; [done|by rewrite app_nil_r]].
  exists tt, [], []. split; [|done]. split; [|done].
  apply decode_directory_ad_message_intro; [fits_tac|done].
Qed.
End directory_laws.

(** Addresses that are their own text, to instantiate theorems about any address type. *)
Definition sample_addrs : SocketAddrs := {|
  SocketAddr := text;
  addr_to_string := id;
  addr_from_str := Some;
  addr_port := λ t, lenN (text_bytes t);
  addr_is_unspecified := λ _, false;
  addr_from_to := λ _, eq_refl;
|}.
