(* ===== verification/LocalEncoding.v ===== *)
(** * The local persistent encodings ([encoding.rs])

    Vault metadata, the replica snapshot, the admission transaction, the migration marker,
    the key store and the directory: the files a node reads back after a restart. *)
From S2P Require Export NetEncoding TreePaths.
From Stdlib Require Import Lia ZifyN ZifyNat.

Open Scope N_scope.

Definition STORE_STATE_MAGIC : bytes := bstr "qfs/local/keys/".
Definition DIRECTORY_STATE_MAGIC : bytes := bstr "qfs/local/directory/".
Definition VAULT_METADATA_MAGIC : bytes := bstr "qfs/local/vault/".
Definition REPLICA_MAGIC : bytes := bstr "qfs/local/replica/".
Definition ADMISSION_TRANSACTION_MAGIC : bytes := bstr "qfs/local/admission-txn/".
Definition MAX_REPLICA_BYTES : N := 16777216.
Definition MAX_VAULT_METADATA_BYTES : N := 1048576.
Definition MAX_DIRECTORY_RECORDS : N := 10000.
Definition MAX_ADMISSION_CANDIDATES : N := 32.
Definition HASH_LEN : N := 32.

(** ** Vault metadata *)

Definition encode_vault_metadata_base (m : VaultMetadata) : Result bytes :=
  put VAULT_METADATA_MAGIC +++ put_byte LOCAL_FORMAT_VERSION
  +++ put (array_bytes (vm_vault_id m)) +++ put (array_bytes (vm_join_code m))
  +++ put_u64 (vm_issued_at m)
  +++ (push_length (lenN (vm_members m)) +++ put_each put_peer (vm_members m)).

Definition encode_denied_extension (denied : gset PeerId) : Result bytes :=
  put_byte Byte.x01 +++ put_set put_peer denied.

Definition encode_vault_metadata (m : VaultMetadata) : Result bytes :=
  encode_vault_metadata_base m +++ push_encoded (encode_denied_extension (vm_denied m)).

Definition dec_denied_extension : Dec (gset PeerId) :=
  let! _ := dec_expect_byte Byte.x01
    (InvalidInput "unsupported vault metadata extension version") in
  let! denied := dec_set 32
    (dec_in_order id dec_peer (InvalidInput "vault denylist is not canonical")) in
  let! _ := finish in
  dec_ret denied.

Definition decode_denied_extension (l : bytes) := run dec_denied_extension l.

Definition dec_vault_metadata : Dec VaultMetadata :=
  let! _ := require_prefix VAULT_METADATA_MAGIC in
  let! _ := require_version in
  let! vault_id := dec_array 32 in
  let! join_code := dec_array 16 in
  let! issued_at := dec_u64 in
  let! count := dec_count 32 in
  let! members := dec_distinct (N.to_nat count) [] dec_peer
    (InvalidInput "duplicate vault member") in
  let! available := dec_remaining in
  let! denied :=
    (if available =? 0 then dec_ret ∅ else dec_nested decode_denied_extension) in
  let! _ := finish in
  dec_ret (mkVaultMetadata vault_id join_code issued_at members denied).

Definition decode_vault_metadata (l : bytes) : Result VaultMetadata := run dec_vault_metadata l.

(** ** The replica snapshot *)

Definition put_dirent (e : Dirent) : Result bytes :=
  put (array_bytes (de_parent e)) +++ push_variable (text_bytes (de_name e))
  +++ put (array_bytes (de_child e)) +++ put_byte (byte_of_bool (de_is_dir e)).

Definition dec_dirent : Dec Dirent :=
  let! parent := dec_array 32 in
  let! name := dec_name in
  let! child := dec_array 32 in
  let! is_directory := dec_flag "invalid dirent directory flag" in
  dec_ret (mkDirent parent name child is_directory).

Definition put_manifest_entry (p : FileId * Manifest) : Result bytes :=
  if negb (bool_decide (mf_file_id p.2 = p.1))
  then Err (InvalidInput "manifest map key does not match file id")
  else push_encoded (manifest_m p.2) +++ push_variable (mf_signature p.2).

(** The key of a manifest is the file id it carries. *)
Definition dec_manifest_entry : Dec (FileId * Manifest) :=
  let! manifest := dec_signed decode_manifest_message in
  dec_ret (mf_file_id manifest, manifest).

Definition put_record (r : ControlRecord) : Result bytes := push_encoded (encode_control_record r).
Definition dec_record : Dec ControlRecord := dec_nested decode_control_record.

Definition put_queue_content (c : QueueContent) : Result bytes :=
  match c with
  | QControl record => put_byte Byte.x00 +++ put_record record
  | QChunk file_id index chunk_id =>
      put_byte Byte.x01 +++ put (array_bytes file_id) +++ put_u64 index
      +++ put (array_bytes chunk_id)
  end.

Definition dec_queue_content : Dec QueueContent :=
  let! kind := dec_byte in
  if byte_N kind =? 0 then let! record := dec_record in dec_ret (QControl record)
  else if byte_N kind =? 1 then
    let! file_id := dec_array 32 in
    let! index := dec_u64 in
    let! chunk_id := dec_array 32 in
    dec_ret (QChunk file_id index chunk_id)
  else dec_err (InvalidInput "unknown durable mailbox content kind").

Definition put_queue (q : list QueueContent) : Result bytes :=
  push_length (lenN q) +++ put_each put_queue_content q.

Definition put_mailbox (p : PeerId * list QueueContent) : Result bytes :=
  put_peer p.1 +++ put_queue p.2.

Definition put_peer_u64 (p : PeerId * u64) : Result bytes := put_peer p.1 +++ put_u64 p.2.

Definition put_chunk_entry (p : ChunkId * (FileId * u64)) : Result bytes :=
  put_peer p.1 +++ (put (array_bytes p.2.1) +++ put_u64 p.2.2).

Definition dec_chunk_location : Dec (FileId * u64) :=
  let! file_id := dec_array 32 in
  let! index := dec_u64 in
  dec_ret (file_id, index).

Definition put_document_entry (p : PeerId * IdentityDocument) : Result bytes :=
  put_peer p.1
  +++ (if negb (bool_decide (doc_peer_id p.2 = p.1))
       then Err (InvalidInput "identity document map key does not match peer id")
       else put_identity p.2).

Definition dec_document_for (peer : PeerId) : Dec IdentityDocument :=
  let! document := dec_identity in
  guard! bool_decide (doc_peer_id document = peer)
    else InvalidInput "identity document map key does not match peer id" in
  dec_ret document.

Definition put_admission (a : option VaultMetadata) : Result bytes :=
  match a with
  | Some admission => put_byte Byte.x01 +++ push_encoded (encode_vault_metadata admission)
  | None => put_byte Byte.x00
  end.

Definition dec_admission : Dec (option VaultMetadata) :=
  let! flag := dec_byte in
  if byte_N flag =? 0 then dec_ret None
  else if byte_N flag =? 1 then
    let! admission := dec_nested decode_vault_metadata in dec_ret (Some admission)
  else dec_err (InvalidInput "invalid replica admission flag").

(** Bootstrap coverage is for members, below the next control id. *)
Definition coverage_ok (members : gset PeerId) (next_control : u64) (p : PeerId * u64) : bool :=
  bool_decide (p.1 ∈ members) && (u64_N p.2 <? next_control).

Definition put_coverage (members : gset PeerId) (next_control : u64) (p : PeerId * u64)
    : Result bytes :=
  if negb (coverage_ok members next_control p)
  then Err (InvalidInput "invalid replica bootstrap coverage")
  else put_peer_u64 p.

Definition dec_coverage (members : gset PeerId) (next_control : u64)
    (previous : option PeerId) : Dec (PeerId * u64) :=
  let! peer := dec_peer in
  let! through := dec_u64 in
  guard! negb (prev_geb previous peer) && coverage_ok members next_control (peer, through)
    else InvalidInput "invalid replica bootstrap coverage" in
  dec_ret (peer, through).

Definition replica_extension : Type :=
  gset PeerId * option VaultMetadata * gset PeerId * gmap PeerId IdentityDocument
  * gmap PeerId u64.

Definition encode_replica_extension (m : ReplicaMetadata) : Result bytes :=
  put_byte Byte.x02 +++ put_set put_peer (rm_denied m) +++ put_admission (rm_admission m)
  +++ put_set put_peer (rm_historical_members m)
  +++ put_map put_document_entry (rm_identity_documents m)
  +++ put_map (put_coverage (rm_members m) (rm_next_control m)) (rm_bootstrap_through m).

Definition dec_replica_extension (members : gset PeerId) (next_control : u64)
    : Dec replica_extension :=
  let! version := dec_byte in
  guard! (byte_N version =? 1) || (byte_N version =? 2)
    else InvalidInput "unsupported replica extension version" in
  let! denied := dec_set 32
    (dec_in_order id dec_peer (InvalidInput "replica denylist is not canonical")) in
  let! admission := dec_admission in
  let! historical := dec_set 32
    (dec_in_order id dec_peer (InvalidInput "historical members are not canonical")) in
  let! documents := dec_map 36
    (dec_entry_in_order dec_peer (InvalidInput "identity documents are not canonical")
       dec_document_for) in
  let! bootstrap :=
    (if 2 <=? byte_N version then dec_map 40 (dec_coverage members next_control)
     else dec_ret ∅) in
  let! _ := finish in
  dec_ret (denied, admission, historical, documents, bootstrap).

Definition encode_replica_body (m : ReplicaMetadata) : Result bytes :=
  put (array_bytes (rm_expected_root m))
  +++ (let? tree := from_dirents (rm_expected_root m) (rm_dirents m) in
       push_length (lenN (dirents tree)) +++ put_each put_dirent (dirents tree))
  +++ put_set put_peer (rm_members m)
  +++ put_map put_manifest_entry (rm_manifests m)
  +++ (push_length (lenN (rm_log m))
       +++ put_sorted cr_id (InvalidInput "instruction log is not strictly ordered")
             put_record None (rm_log m))
  +++ put_u64 (rm_next_control m)
  +++ put_map put_mailbox (rm_mailboxes m)
  +++ put_map put_peer_u64 (rm_acked_through m)
  +++ put_map put_chunk_entry (rm_chunk_index m)
  +++ push_encoded (encode_replica_extension m).

Definition dec_replica_body (expected_root : FileId) : Dec ReplicaMetadata :=
  let! stored_root := dec_array 32 in
  guard! bool_decide (stored_root = expected_root)
    else State "replica belongs to a different vault root" in
  let! entries := dec_vec 69 dec_dirent in
  let! tree := dec_lift (from_dirents expected_root entries) in
  let! members := dec_set 32
    (dec_in_order id dec_peer (InvalidInput "replica members are not canonical")) in
  let! manifests := dec_map 8
    (dec_in_order fst dec_manifest_entry (InvalidInput "replica manifests are not canonical")) in
  let! log := dec_sorted_vec cr_id 4
    (dec_in_order cr_id dec_record (InvalidInput "instruction log is not strictly ordered")) in
  let! next_control := dec_u64 in
  let! mailboxes := dec_map 36
    (dec_entry_in_order dec_peer (InvalidInput "replica mailboxes are not canonical")
       (λ _, dec_vec 1 dec_queue_content)) in
  let! acked_through := dec_map 40
    (dec_entry_in_order dec_peer (InvalidInput "replica acknowledgements are not canonical")
       (λ _, dec_u64)) in
  let! chunk_index := dec_map 72
    (dec_entry_in_order dec_peer (InvalidInput "replica chunk index is not canonical")
       (λ _, dec_chunk_location)) in
  let! available := dec_remaining in
  let! ext :=
    (if available =? 0 then dec_ret (∅, None, members, ∅, ∅)
     else dec_nested (run (dec_replica_extension members next_control))) in
  let! _ := finish in
  let '(denied, admission, historical_members, identity_documents, bootstrap_through) := ext in
  dec_ret (mkReplicaMetadata expected_root (dirents tree) members manifests log next_control
             mailboxes acked_through chunk_index denied admission historical_members
             identity_documents bootstrap_through).

Section replica.
Context `{Sha256}.

Definition encode_replica (m : ReplicaMetadata) (generation : u64) : Result bytes :=
  let? body := encode_replica_body m in
  if MAX_REPLICA_BYTES <? lenN body
  then Err (InvalidInput "replica metadata is too large")
  else if u32_limit <=? lenN body
  then Err (InvalidInput "replica metadata is too large")
  else
    let out := REPLICA_MAGIC ++ [LOCAL_FORMAT_VERSION] ++ u64_to_be generation
               ++ be_bytes 4 (lenN body) ++ body in
    let out := out ++ array_bytes (sha256 out) in
    if MAX_REPLICA_BYTES <? lenN out
    then Err (InvalidInput "replica metadata is too large")
    else Ok out.

(** [bytes\[from..from + len\]] *)
Definition sub (from len : N) (l : bytes) : bytes :=
  firstn (N.to_nat len) (skipn (N.to_nat from) l).

Definition decode_replica (l : bytes) (expected_root : FileId)
    : Result (u64 * ReplicaMetadata) :=
  let magic_len := lenN REPLICA_MAGIC in
  let header_len := magic_len + 1 + 8 + 4 in
  if (MAX_REPLICA_BYTES <? lenN l) || (lenN l <? header_len + HASH_LEN)
  then Err (InvalidInput "invalid replica metadata length")
  else if negb (bool_decide (sub 0 magic_len l = REPLICA_MAGIC))
  then Err (InvalidInput "invalid replica metadata magic")
  else if negb (bool_decide (sub magic_len 1 l = [LOCAL_FORMAT_VERSION]))
  then Err (InvalidInput "unsupported replica metadata version")
  else
    let? generation :=
      ok_or (array_of_bytes 8 (sub (magic_len + 1) 8 l))
        (InvalidInput "truncated replica metadata") in
    let? len :=
      ok_or (array_of_bytes 4 (sub (magic_len + 9) 4 l))
        (InvalidInput "truncated replica metadata") in
    let body_len := be_val (array_bytes len) in
    let? body_end :=
      ok_or (usize_add header_len body_len)
        (InvalidInput "replica metadata length overflow") in
    let? expected_len :=
      ok_or (usize_add body_end HASH_LEN)
        (InvalidInput "replica metadata length overflow") in
    if negb (expected_len =? lenN l)
    then Err (InvalidInput "replica metadata length mismatch")
    else if negb (bool_decide
                    (array_bytes (sha256 (sub 0 body_end l)) = skipn (N.to_nat body_end) l))
    then Err AuthenticationFailed
    else
      let? metadata := run (dec_replica_body expected_root) (sub header_len body_len l) in
      Ok (u64_from_be generation, metadata).

(** ** The admission transaction *)

Definition encode_admission_transaction (old_replica old_admission : bytes) : Result bytes :=
  if (MAX_REPLICA_BYTES <? lenN old_replica)
     || (MAX_VAULT_METADATA_BYTES <? lenN old_admission)
  then Err (InvalidInput "admission transaction field is too large")
  else
    let? out := put ADMISSION_TRANSACTION_MAGIC +++ put_byte LOCAL_FORMAT_VERSION
                +++ push_variable old_replica +++ push_variable old_admission in
    Ok (out ++ array_bytes (sha256 out)).

Definition dec_admission_transaction : Dec (bytes * bytes) :=
  let! _ := require_prefix ADMISSION_TRANSACTION_MAGIC in
  let! _ := require_version in
  let! old_replica := dec_variable in
  let! old_admission := dec_variable in
  guard! negb ((MAX_REPLICA_BYTES <? lenN old_replica)
               || (MAX_VAULT_METADATA_BYTES <? lenN old_admission))
    else InvalidInput "admission transaction field is too large" in
  let! _ := finish in
  dec_ret (old_replica, old_admission).

Definition decode_admission_transaction (l : bytes) : Result (bytes * bytes) :=
  let magic_len := lenN ADMISSION_TRANSACTION_MAGIC in
  let maximum :=
    magic_len + 1 + 4 + MAX_REPLICA_BYTES + 4 + MAX_VAULT_METADATA_BYTES + HASH_LEN in
  if (maximum <? lenN l) || (lenN l <? magic_len + 1 + 8 + HASH_LEN)
  then Err (InvalidInput "invalid admission transaction length")
  else
    let content_len := lenN l - HASH_LEN in
    let content := sub 0 content_len l in
    if negb (bool_decide
               (array_bytes (sha256 content) = skipn (N.to_nat content_len) l))
    then Err AuthenticationFailed
    else run dec_admission_transaction content.
End replica.

Definition encode_vault_migration (vault_id : VaultId) (phase : byte) : Result bytes :=
  if 3 <? byte_N phase then Err (InvalidInput "invalid vault migration phase")
  else Ok (array_bytes vault_id ++ [phase]).

Definition decode_vault_migration (l : bytes) : Result (VaultId * byte) :=
  match array_of_bytes 32 (firstn 32 l), skipn 32 l with
  | Some vault_id, [phase] =>
      if 3 <? byte_N phase then Err (InvalidInput "invalid vault migration marker")
      else Ok (vault_id, phase)
  | _, _ => Err (InvalidInput "invalid vault migration marker")
  end.

(** ** Codec laws *)

#[export] Instance denied_extension_codec :
  Codec decode_denied_extension encode_denied_extension.
Proof. apply run_codec. codec encode_denied_extension. Qed.

(** What vault metadata decodes from: its encoding, or the one that ends after the members
    and means an empty denylist. *)
Definition vault_metadata_wire (m : VaultMetadata) (l : bytes) : Prop :=
  encode_vault_metadata m = Ok l ∨ (vm_denied m = ∅ ∧ encode_vault_metadata_base m = Ok l).

Lemma put_peers_lenN (l : list PeerId) b : put_each put_peer l = Ok b → lenN b = 32 * lenN l.
Proof. apply (put_each_arrays_len (n := 32)). Qed.

Lemma dec_vault_metadata_spec :
  DecSpec dec_vault_metadata
    (λ m bs tl, (vault_metadata_wire m bs ∧ NoDup (vm_members m)) ∧ tl = []).
Proof.
  pose proof (λ n, spec_distinct n [] dec_peer (InvalidInput "duplicate vault member") _ spec_peer).
  eapply spec_iff; [typeclasses eauto|]. intros m bs tl. unfold encodes, vault_metadata_wire.
  cbn beta. unfold encode_vault_metadata. split.
  - intros (? & b1 & b2 & (? & b3 & b4 & (v & b5 & b6 & (c & b7 & b8 & (i & b9 & b10 &
      (n & b11 & b12 & (ms & b13 & b14 & (a & b15 & b16 & (d & b17 & b18 & (? & b19 & b20 &
        [-> ->] & [-> Htl] & ->) & Hd & ->) & [-> ->] & ->) & (Hn & [Hnd _] & Hms) & ->)
        & [Hl _] & ->) & Hi & ->) & Hc & ->) & Hv & ->) & Hver & ->) & Hpre & ->).
    cbn in Htl. subst tl. rewrite !app_nil_r in *. cbn [app] in *.
    assert (Hbase : ∀ d, encode_vault_metadata_base (mkVaultMetadata v c i ms d)
      = Ok (b1 ++ b3 ++ b5 ++ b7 ++ b9 ++ b11 ++ b13)).
    { intros d'. unfold encode_vault_metadata_base. cbn.
      assert (push_length (lenN ms) = Ok b11).
      { unfold lenN. by rewrite Hn, N2Nat.id. }
      repeat (apply cat_intro; [done|]). done. }
    split; [split; [|done]|done]. destruct (lenN b17 =? 0).
    + destruct Hd as [-> ->]. right. split; [done|]. rewrite app_nil_r. apply Hbase.
    + left. cbn. rewrite (Hbase d).
      change (b1 ++ b3 ++ b5 ++ b7 ++ b9 ++ b11 ++ b13 ++ b17)
        with (b1 ++ b3 ++ b5 ++ b7 ++ b9 ++ b11 ++ (b13 ++ b17)).
      apply cat_Ok. eexists _, _. split; [done|]. split; [done|]. by rewrite <-!app_assoc.
  - intros [[Hw Hnd] ->]. destruct m as [v c i ms d]. cbn in *.
    assert (∃ base ext, encode_vault_metadata_base (mkVaultMetadata v c i ms d) = Ok base
      ∧ bs = base ++ ext ∧ ((ext = [] ∧ d = ∅) ∨ push_encoded (encode_denied_extension d) = Ok ext))
      as (base & ext & Hb & -> & Hext).
    { destruct Hw as [(base & ext & ? & ? & ->)%cat_Ok|[-> ?]]; [by eauto 10|].
      exists bs, []. rewrite app_nil_r. auto 10. }
    clear Hw. unfold encode_vault_metadata_base in Hb. cbn in Hb. codec_destruct. subst.
    match goal with H : push_length (lenN ms) = Ok ?bl, H' : put_each put_peer ms = Ok ?bm |- _ =>
      rename H into Hlen, H' into Hms end.
    rewrite <-!app_assoc.
    eexists tt, _, _; split; [|split; [eassumption|reflexivity]].
    eexists tt, _, _; split; [|split; [eassumption|reflexivity]].
    eexists _, _, _; split; [|split; [eassumption|reflexivity]].
    eexists _, _, _; split; [|split; [eassumption|reflexivity]].
    eexists _, _, _; split; [|split; [eassumption|reflexivity]].
    eexists (lenN ms), _, _; split; [|split; [split; [exact Hlen|]|reflexivity]].
    2: { rewrite app_nil_r, lenN_app, (put_peers_lenN _ _ Hms).
         apply N.div_le_lower_bound; [done|]. lia. }
    exists ms. eexists _, ext; split; [|split; [|reflexivity]].
    2: { unfold lenN. rewrite Nat2N.id. split; [done|]. split; [|exact Hms].
         split; [done|]. intros ? _. apply not_elem_of_nil. }
    exists (lenN ext), [], ext. rewrite app_nil_r. split; [|done].
    exists d, ext, []. rewrite app_nil_r. split; [by exists tt, [], []|]. split; [|done].
    destruct Hext as [[-> ->]|He]; [done|].
    rewrite lenN_pos_ne; [done|]. apply push_encoded_len in He. lia.
Qed.

(** Decoding vault metadata reads exactly its two wire forms, and never repeats a member. *)
Lemma decode_vault_metadata_spec l m : fits l →
  decode_vault_metadata l = Ok m ↔ vault_metadata_wire m l ∧ NoDup (vm_members m).
Proof.
  intros Hl. unfold decode_vault_metadata.
  rewrite (run_spec _ _ l m dec_vault_metadata_spec); [|naive_solver|done]. naive_solver.
Qed.

(** ** Replica pieces *)

#[export] Instance spec_dirent : DecSpec dec_dirent (encodes put_dirent).
Proof. codec put_dirent. Qed.
#[export] Instance dirent_min : MinLen put_dirent 69.
Proof. codec_min put_dirent. Qed.

#[export] Instance spec_manifest_entry : DecSpec dec_manifest_entry (encodes put_manifest_entry).
Proof.
  eapply spec_iff; [typeclasses eauto|]. intros [k m] bs tl. unfold encodes, put_manifest_entry.
  cbn. split.
  - intros (m' & b1 & b2 & [[= -> ->] ->] & Hm & ->). by rewrite bool_decide_eq_true_2, app_nil_r.
  - case_bool_decide; [|done]. subst. cbn. intros Hm. exists m, bs, [].
    by rewrite app_nil_r.
Qed.
#[export] Instance manifest_entry_min : MinLen put_manifest_entry 8.
Proof. codec_min put_manifest_entry. Qed.

#[export] Instance spec_record : DecSpec dec_record (encodes put_record).
Proof. unfold dec_record, put_record. typeclasses eauto. Qed.
#[export] Instance record_min : MinLen put_record 4.
Proof. intros r b. apply push_encoded_len. Qed.

#[export] Instance spec_queue_content : DecSpec dec_queue_content (encodes put_queue_content).
Proof.
  eapply spec_iff; [typeclasses eauto|]. intros x bs tl. unfold encodes. cbn beta. split.
  - intros. codec_destruct. subst. kind_cases x0; codec_destruct; subst;
      unfold put_queue_content; codec_pieces.
  - destruct x; unfold put_queue_content; intros; codec_destruct; subst; kind_known;
      codec_split; codec_solve.
Qed.
#[export] Instance queue_content_min : MinLen put_queue_content 1.
Proof. intros [] ?; unfold put_queue_content; intros; codec_destruct; subst; codec_len. Qed.

#[export] Instance spec_queue : DecSpec (dec_vec 1 dec_queue_content) (encodes put_queue).
Proof. apply spec_vec; typeclasses eauto. Qed.

#[export] Instance sorted_mailbox e :
  SortedBody fst (dec_entry_in_order dec_peer e (λ _, dec_vec 1 dec_queue_content)) put_mailbox.
Proof. apply (sorted_entry_in_order dec_peer _ put_peer (λ _, put_queue)); typeclasses eauto. Qed.
#[export] Instance mailbox_min : MinLen put_mailbox 36.
Proof. intros ? ?. unfold put_mailbox, put_queue, put_peer.
  intros; codec_destruct; subst; codec_len. Qed.

#[export] Instance sorted_peer_u64 e :
  SortedBody fst (dec_entry_in_order dec_peer e (λ _, dec_u64)) put_peer_u64.
Proof. apply (sorted_entry_in_order dec_peer _ put_peer (λ _, put_u64)); typeclasses eauto. Qed.
#[export] Instance peer_u64_min : MinLen put_peer_u64 40.
Proof. codec_min put_peer_u64. Qed.

Definition put_chunk_location (c : FileId * u64) : Result bytes :=
  put (array_bytes c.1) +++ put_u64 c.2.
#[export] Instance spec_chunk_location : DecSpec dec_chunk_location (encodes put_chunk_location).
Proof. codec put_chunk_location. Qed.
#[export] Instance sorted_chunk_entry e :
  SortedBody fst (dec_entry_in_order dec_peer e (λ _, dec_chunk_location)) put_chunk_entry.
Proof.
  apply (sorted_entry_in_order dec_peer _ put_peer (λ _, put_chunk_location)); typeclasses eauto.
Qed.
#[export] Instance chunk_entry_min : MinLen put_chunk_entry 72.
Proof. codec_min put_chunk_entry. Qed.

Definition put_document_of (k : PeerId) (d : IdentityDocument) : Result bytes :=
  if negb (bool_decide (doc_peer_id d = k))
  then Err (InvalidInput "identity document map key does not match peer id")
  else put_identity d.
#[export] Instance spec_document_for k : DecSpec (dec_document_for k) (encodes (put_document_of k)).
Proof.
  eapply spec_iff; [typeclasses eauto|]. intros d bs tl. unfold encodes, put_document_of. split.
  - intros (d' & b1 & b2 & (Hk & -> & ->) & Hd & ->). by rewrite Hk, app_nil_r.
  - case_bool_decide; [|done]. intros Hd. exists d, bs, []. rewrite app_nil_r.
    by rewrite bool_decide_eq_true_2.
Qed.
#[export] Instance sorted_document_entry e :
  SortedBody fst (dec_entry_in_order dec_peer e dec_document_for) put_document_entry.
Proof. apply (sorted_entry_in_order dec_peer _ put_peer put_document_of); typeclasses eauto. Qed.
#[export] Instance document_entry_min : MinLen put_document_entry 36.
Proof.
  intros ? ?. unfold put_document_entry, put_identity, put_peer.
  intros; codec_destruct; subst; codec_len.
Qed.

#[export] Instance sorted_coverage members next :
  SortedBody fst (dec_coverage members next) (put_coverage members next).
Proof.
  intros p. eapply spec_iff; [typeclasses eauto|]. intros [k v] bs tl.
  unfold encodes, put_coverage, put_peer_u64. cbn. split.
  - intros (k' & b1 & b2 & (v' & b3 & b4 & (Hg & [= -> ->] & ->) & Hv & ->) & Hk & ->).
    apply andb_true_iff in Hg as [Hp%negb_true_iff ->]. rewrite app_nil_r.
    split; [done|]. by apply cat_intro.
  - intros [Hp Hb]. destruct (coverage_ok members next (k, v)) eqn:Hc; [|done]. cbn in Hb.
    apply cat_Ok in Hb as (b1 & b2 & Hk & Hv & ->).
    exists k, b1, b2. split; [|done]. exists v, b2, []. rewrite app_nil_r, Hp.
    by repeat split.
Qed.
#[export] Instance coverage_min members next : MinLen (put_coverage members next) 40.
Proof.
  intros [k v] b. unfold put_coverage. destruct (negb _); [done|]. apply min_len.
Qed.

(** ** The replica extension *)

Definition admission_ok (a : option VaultMetadata) : Prop :=
  ∀ adm, a = Some adm → NoDup (vm_members adm).

Definition admission_wire (a : option VaultMetadata) (bs : bytes) : Prop :=
  match a with
  | None => put_byte Byte.x00 = Ok bs
  | Some adm => ∃ v, put_byte Byte.x01 +++ push_variable v = Ok bs ∧ decode_vault_metadata v = Ok adm
  end.

#[export] Instance spec_admission : DecSpec dec_admission (λ a bs _, admission_wire a bs).
Proof.
  eapply spec_iff; [typeclasses eauto|]. intros a bs tl. unfold encodes. cbn beta. split.
  - intros. codec_destruct. subst. kind_cases x; codec_destruct; subst; rewrite ?app_nil_r; [done|].
    eexists. split; [codec_pieces|done].
  - destruct a; cbn; intros; codec_destruct; subst.
    + kind_known; codec_split; codec_solve.
    + eexists Byte.x00, bs, []. rewrite app_nil_r. done.
Qed.

Lemma put_admission_wire a bs :
  admission_ok a → put_admission a = Ok bs → admission_wire a bs.
Proof.
  destruct a as [adm|]; [|done]. intros Hok. cbn. intros. codec_destruct. subst.
  eexists. split; [codec_pieces|].
  apply decode_vault_metadata_spec; [by eapply push_variable_fits|].
  split; [by left|by apply Hok].
Qed.

Lemma put_map_lookup {K A} `{Countable K, !Ord K, !OrdLaws K} (f : K * A → Result bytes)
    (m : gmap K A) b k v :
  put_map f m = Ok b → m !! k = Some v → ∃ b', f (k, v) = Ok b'.
Proof.
  unfold put_map. intros (b1 & b2 & _ & Hl & _)%cat_Ok Hk%elem_of_sorted_entries.
  revert b2 Hl Hk. induction (sorted_entries m) as [|x l IH]; intros b2.
  - by intros _ ?%not_elem_of_nil.
  - intros (b3 & b4 & Hx & Hl & _)%put_each_Ok_cons [<-|Hin]%elem_of_cons; eauto.
Qed.

(** The keys of the replica's maps agree with the values they index, and bootstrap coverage
    is for members, below the next control id. *)
Definition documents_keyed (docs : gmap PeerId IdentityDocument) : Prop :=
  ∀ k d, docs !! k = Some d → doc_peer_id d = k.
Definition manifests_keyed (ms : gmap FileId Manifest) : Prop :=
  ∀ k m, ms !! k = Some m → mf_file_id m = k.
Definition coverage_bounded (members : gset PeerId) (next : u64) (c : gmap PeerId u64) : Prop :=
  ∀ k t, c !! k = Some t → k ∈ members ∧ u64_N t < u64_N next.

Lemma put_documents_keyed docs b : put_map put_document_entry docs = Ok b → documents_keyed docs.
Proof.
  intros Hb k d (b' & Hk)%(put_map_lookup _ _ _ _ _ Hb). unfold put_document_entry in Hk. cbn in Hk.
  apply cat_Ok in Hk as (? & ? & _ & Hd & _). by case_bool_decide.
Qed.

Lemma put_manifests_keyed ms b : put_map put_manifest_entry ms = Ok b → manifests_keyed ms.
Proof.
  intros Hb k m (b' & Hk)%(put_map_lookup _ _ _ _ _ Hb). unfold put_manifest_entry in Hk.
  cbn in Hk. by case_bool_decide.
Qed.

Lemma put_coverage_bounded members next c b :
  put_map (put_coverage members next) c = Ok b → coverage_bounded members next c.
Proof.
  intros Hb k t (b' & Hk)%(put_map_lookup _ _ _ _ _ Hb). unfold put_coverage in Hk.
  destruct (coverage_ok members next (k, t)) eqn:Hc; [|done].
  apply andb_true_iff in Hc as [Hm%bool_decide_eq_true Ht%N.ltb_lt]. done.
Qed.

Definition extension_sound (members : gset PeerId) (next : u64) (e : replica_extension) : Prop :=
  documents_keyed e.1.2 ∧ coverage_bounded members next e.2.

Definition replica_extension_of (m : ReplicaMetadata) : replica_extension :=
  (rm_denied m, rm_admission m, rm_historical_members m, rm_identity_documents m,
   rm_bootstrap_through m).

Lemma decode_extension_intro m l :
  fits l → admission_ok (rm_admission m) → encode_replica_extension m = Ok l →
  run (dec_replica_extension (rm_members m) (rm_next_control m)) l
  = Ok (replica_extension_of m).
Proof.
  intros Hl Hok He. unfold encode_replica_extension in He.
  eapply run_spec; [typeclasses eauto| |done|].
  { cbn beta. intros. codec_destruct. by subst. }
  cbn beta. unfold encodes.
  repeat match goal with H : _ +++ _ = Ok _ |- _ =>
    apply cat_Ok in H as (? & ? & ? & ? & ->) end.
  match goal with H : put_admission _ = Ok _ |- _ =>
    apply put_admission_wire in H; [|done] end.
  eexists Byte.x02, _, _. split; [|split; [eassumption|reflexivity]].
  split; [reflexivity|].
  change (2 <=? byte_N Byte.x02) with true. cbv iota.
  codec_split; codec_solve.
Qed.

Lemma decode_extension_sound members next l e :
  fits l → run (dec_replica_extension members next) l = Ok e → extension_sound members next e.
Proof.
  intros Hl H. eapply run_spec in H; [|typeclasses eauto| |done].
  2: { cbn beta. intros. codec_destruct. by subst. }
  cbn beta in H. codec_destruct. subst. unfold extension_sound. cbn. split.
  - by eapply put_documents_keyed.
  - destruct (2 <=? byte_N x); codec_destruct; subst; [by eapply put_coverage_bounded|].
    by intros ? ? ?.
Qed.

(** ** The replica body *)

Definition with_dirents (m : ReplicaMetadata) (l : list Dirent) : ReplicaMetadata :=
  mkReplicaMetadata (rm_expected_root m) l (rm_members m) (rm_manifests m) (rm_log m)
    (rm_next_control m) (rm_mailboxes m) (rm_acked_through m) (rm_chunk_index m) (rm_denied m)
    (rm_admission m) (rm_historical_members m) (rm_identity_documents m)
    (rm_bootstrap_through m).

(** What a decoded replica satisfies whatever bytes it came from. *)
Record replica_sound (root : FileId) (m : ReplicaMetadata) : Prop := {
  rs_root : rm_expected_root m = root;
  rs_tree : ∃ t, tree_ok t ∧ tr_expected_root t = root ∧ rm_dirents m = dirents t;
  rs_manifests : manifests_keyed (rm_manifests m);
  rs_log : sorted_from None (cr_id <$> rm_log m);
  rs_documents : documents_keyed (rm_identity_documents m);
  rs_coverage : coverage_bounded (rm_members m) (rm_next_control m) (rm_bootstrap_through m);
}.

Lemma decode_replica_body_intro m l :
  fits l → admission_ok (rm_admission m) → encode_replica_body m = Ok l →
  ∃ t, from_dirents (rm_expected_root m) (rm_dirents m) = Ok t ∧
       run (dec_replica_body (rm_expected_root m)) l = Ok (with_dirents m (dirents t)).
Proof.
  intros Hl Hok He. unfold encode_replica_body in He.
  destruct (from_dirents (rm_expected_root m) (rm_dirents m)) as [t|] eqn:Ht; cycle 1.
  { cbn in He. codec_destruct. done. }
  cbn [res_bind] in He. exists t. split; [done|].
  eapply run_spec; [typeclasses eauto| |done|].
  { cbn beta. intros. codec_destruct. by subst. }
  cbn beta. unfold encodes.
  do 9 (apply cat_Ok in He as (? & ? & ? & He & ->)).
  apply push_encoded_Ok in He as (ext & Hext & Hv).
  pose proof (push_variable_len _ _ Hv) as Hlen.
  pose proof (push_variable_fits _ _ Hv) as Hfit.
  pose proof (decode_extension_intro m ext Hfit Hok Hext) as Hd.
  eexists _, _, _; split; [|split; [eassumption|reflexivity]].
  split; [by apply bool_decide_eq_true|].
  eexists (dirents t), _, _; split; [|split; [eassumption|reflexivity]].
  eexists t, [], _; split; [|split; [|reflexivity]].
  2: { split; [|done]. destruct (from_dirents_ok _ _ _ Ht) as [Hto <-].
       by apply from_dirents_dirents. }
  do 7 (eexists _, _, _; split; [|split; [eassumption|reflexivity]]).
  eexists _, [], x9; split; [|split; [split; reflexivity|reflexivity]].
  exists (replica_extension_of m), x9, []. rewrite !app_nil_r.
  rewrite lenN_pos_ne by lia.
  split; [by exists tt, [], []|]. eauto.
Qed.

Lemma decode_replica_body_sound root l m :
  fits l → run (dec_replica_body root) l = Ok m → replica_sound root m.
Proof.
  intros Hl H. eapply run_spec in H; [|typeclasses eauto| |done].
  2: { cbn beta. intros. codec_destruct. by subst. }
  cbn beta in H. codec_destruct. subst.
  match goal with H : if _ then _ = (∅, None, ?ms, ∅, ∅) ∧ _ else _ |- _ =>
    rename H into Hext; assert (He : extension_sound ms x17 x32) end.
  { destruct (lenN _ =? 0).
    - destruct Hext as [-> _]. split; cbn; by intros ? ? ?.
    - destruct Hext as (v & Hv%push_variable_fits & Hd). by eapply decode_extension_sound. }
  destruct He as [Hdocs Hcov].
  split; cbn; try done.
  - exists x5. match goal with H : from_dirents _ _ = Ok _ |- _ =>
      apply from_dirents_ok in H as [? ?] end. done.
  - by eapply put_manifests_keyed.
  - match goal with H : put_sorted _ _ _ _ _ = Ok _ |- _ =>
      by apply put_sorted_Ok in H as [_ ?] end.
    Unshelve. all: exact AuthenticationFailed.
Qed.

(** ** The replica frame *)

Lemma sub_at (l a b c : bytes) from len :
  l = a ++ b ++ c → lenN a = from → lenN b = len → sub from len l = b.
Proof.
  intros -> <- <-. unfold sub, lenN. rewrite !Nat2N.id, drop_app_length. apply take_app_length.
Qed.

Lemma sub_fits from len l : fits l → fits (sub from len l).
Proof.
  unfold fits, sub, lenN. rewrite length_firstn, length_skipn. lia.
Qed.

Lemma array_of_bytes_eq {n} (a : array n) l : l = array_bytes a → array_of_bytes n l = Some a.
Proof. intros ->. apply array_of_bytes_array. Qed.

Lemma be_bytes_array n (x : N) :
  x < 256 ^ N.of_nat n → ∃ a, array_of_bytes n (be_bytes n x) = Some a ∧ be_val a = x.
Proof.
  intros Hx. destruct (array_of_bytes_is_Some n (be_bytes n x) (length_be_bytes n x))
    as (a & Ha & Hb).
  exists a. rewrite Ha. split; [done|]. rewrite Hb. by apply be_val_be_bytes.
Qed.

Lemma u64_to_be_array (x : u64) :
  ∃ a, array_of_bytes 8 (u64_to_be x) = Some a ∧ u64_from_be a = x.
Proof.
  destruct (array_of_bytes_is_Some 8 (u64_to_be x) (length_u64_to_be x)) as (a & Ha & Hb).
  exists a. rewrite Ha. split; [done|]. apply u64_to_be_inj. by rewrite u64_to_be_from_be, Hb.
Qed.

Section frame.
Context `{Sha256}.

Lemma replica_frame_decode root (generation : u64) body :
  lenN body + 63 <= MAX_REPLICA_BYTES →
  let content := REPLICA_MAGIC ++ [LOCAL_FORMAT_VERSION] ++ u64_to_be generation
                 ++ be_bytes 4 (lenN body) ++ body in
  decode_replica (content ++ array_bytes (sha256 content)) root
  = let? m := run (dec_replica_body root) body in Ok (generation, m).
Proof.
  intros Hlen content.
  assert (Hm : lenN REPLICA_MAGIC = 18) by reflexivity.
  assert (Hc : lenN content = 31 + lenN body).
  { subst content. rewrite !lenN_app, lenN_be_bytes, Hm. unfold lenN at 1 2.
    rewrite length_u64_to_be. simpl. lia. }
  assert (Hh : lenN (array_bytes (sha256 content)) = 32).
  { unfold lenN. by rewrite length_array. }
  unfold decode_replica. cbv zeta. rewrite Hm, lenN_app, Hc, Hh.
  unfold HASH_LEN, MAX_REPLICA_BYTES in *.
  rewrite (proj2 (N.ltb_ge _ _)) by lia. rewrite (proj2 (N.ltb_ge _ _)) by lia. cbn [orb].
  set (h := array_bytes (sha256 content)) in *.
  assert (Hv : lenN [LOCAL_FORMAT_VERSION] = 1) by done.
  assert (Hg : lenN (u64_to_be generation) = 8).
  { unfold lenN. by rewrite length_u64_to_be. }
  assert (Hl : lenN (be_bytes 4 (lenN body)) = 4) by apply lenN_be_bytes.
  rewrite (sub_at _ [] REPLICA_MAGIC ([LOCAL_FORMAT_VERSION] ++ u64_to_be generation
             ++ be_bytes 4 (lenN body) ++ body ++ h));
    [|by (unfold content; rewrite <-!app_assoc)|done|done].
  rewrite bool_decide_eq_true_2 by done. cbn [negb].
  rewrite (sub_at _ REPLICA_MAGIC [LOCAL_FORMAT_VERSION] (u64_to_be generation
             ++ be_bytes 4 (lenN body) ++ body ++ h));
    [|by (unfold content; rewrite <-!app_assoc)|done|done].
  rewrite bool_decide_eq_true_2 by done. cbn [negb].
  rewrite (sub_at _ (REPLICA_MAGIC ++ [LOCAL_FORMAT_VERSION]) (u64_to_be generation)
             (be_bytes 4 (lenN body) ++ body ++ h));
    [|by (unfold content; rewrite <-!app_assoc)|done|done].
  destruct (u64_to_be_array generation) as (g & -> & Hgen). cbn [ok_or res_bind].
  rewrite (sub_at _ (REPLICA_MAGIC ++ [LOCAL_FORMAT_VERSION] ++ u64_to_be generation)
             (be_bytes 4 (lenN body)) (body ++ h));
    [|by (unfold content; rewrite <-!app_assoc)| |done].
  2: { rewrite !lenN_app, Hm, Hg. done. }
  destruct (be_bytes_array 4 (lenN body)) as (n & -> & Hn).
  { change (256 ^ N.of_nat 4) with 4294967296. lia. }
  cbn [ok_or res_bind]. rewrite Hn. unfold usize_add, usize_limit, u64_limit.
  repeat (rewrite (proj2 (N.ltb_lt _ _)) by lia; cbn [ok_or res_bind]).
  rewrite (proj2 (N.eqb_eq _ _)) by lia. cbn [negb].
  replace (18 + 1 + 8 + 4 + lenN body) with (lenN content) by lia.
  rewrite (sub_at _ [] content h); [|done..].
  rewrite bool_decide_eq_true_2; cycle 1.
  { unfold lenN. by rewrite Nat2N.id, drop_app_length. }
  cbn [negb].
  rewrite (sub_at _ (REPLICA_MAGIC ++ [LOCAL_FORMAT_VERSION] ++ u64_to_be generation
             ++ be_bytes 4 (lenN body)) body h);
    [|by (unfold content; rewrite <-!app_assoc)| |done].
  2: { rewrite !lenN_app, Hm, Hg, Hl. done. }
  by rewrite Hgen.
Qed.

(** An encoded replica decodes to the replica it encodes, its dirents in the tree's
    order. *)
Lemma decode_replica_encode m generation l :
  admission_ok (rm_admission m) → encode_replica m generation = Ok l →
  ∃ t, from_dirents (rm_expected_root m) (rm_dirents m) = Ok t ∧
       decode_replica l (rm_expected_root m) = Ok (generation, with_dirents m (dirents t)).
Proof.
  intros Hok He. unfold encode_replica in He.
  destruct (encode_replica_body m) as [body|] eqn:Hb; [|done]. cbn [res_bind] in He.
  destruct (N.ltb_spec MAX_REPLICA_BYTES (lenN body)); [done|].
  destruct (u32_limit <=? lenN body); [done|]. cbv zeta in He.
  set (content := REPLICA_MAGIC ++ _) in He.
  destruct (N.ltb_spec MAX_REPLICA_BYTES (lenN (content ++ array_bytes (sha256 content))))
    as [|Hle]; [done|].
  injection He as <-.
  assert (Hfit : fits body).
  { unfold fits, usize_limit, u64_limit, MAX_REPLICA_BYTES in *. lia. }
  destruct (decode_replica_body_intro m body Hfit Hok Hb) as (t & Ht & Hd).
  exists t. split; [done|]. subst content.
  etransitivity; [apply replica_frame_decode|by rewrite Hd].
  rewrite !lenN_app, lenN_be_bytes in Hle.
  unfold lenN at 1 2 3 5 in Hle. rewrite length_u64_to_be, length_array in Hle.
  simpl in Hle. lia.
Qed.

(** Whatever bytes a replica is read from, they end with the digest of the rest and the
    replica is well formed. *)
Lemma decode_replica_sound l root generation m :
  decode_replica l root = Ok (generation, m) →
  (∃ content, l = content ++ array_bytes (sha256 content)) ∧ replica_sound root m.
Proof.
  unfold decode_replica. cbv zeta. intros Hd.
  repeat match type of Hd with
  | (if ?b then Err _ else _) = _ => let E := fresh "E" in destruct b eqn:E; [done|]
  | (let? _ := ok_or ?o _ in _) = _ =>
      let E := fresh "E" in destruct o eqn:E; [cbn [ok_or res_bind] in Hd|done]
  end.
  apply negb_false_iff, bool_decide_eq_true in E7.
  apply orb_false_iff in E as [E%N.ltb_ge _].
  destruct (run _ _) as [m'|] eqn:Hrun; [|done]. injection Hd as _ ->.
  split.
  - exists (sub 0 n l). rewrite E7. unfold sub. simpl. by rewrite take_drop.
  - eapply decode_replica_body_sound, Hrun. apply sub_fits.
    unfold fits, usize_limit, u64_limit, MAX_REPLICA_BYTES in *. lia.
Qed.

(** ** The admission transaction *)

Lemma dec_admission_transaction_spec :
  DecSpec dec_admission_transaction
    (encodes_all (λ p,
       if negb ((MAX_REPLICA_BYTES <? lenN p.1) || (MAX_VAULT_METADATA_BYTES <? lenN p.2))
       then put ADMISSION_TRANSACTION_MAGIC +++ put_byte LOCAL_FORMAT_VERSION
            +++ push_variable p.1 +++ push_variable p.2
       else Err (InvalidInput "admission transaction field is too large"))).
Proof.
  eapply spec_iff; [typeclasses eauto|]. intros [a b] bs tl. unfold encodes, encodes_all. cbn beta.
  split.
  - intros. codec_destruct. subst.
    match goal with H : (_, _) = (_, _) |- _ => injection H as -> -> end. cbn [fst snd].
    match goal with H : _ = true |- _ => rewrite H end. codec_forward.
  - intros. codec_destruct. subst. cbn [fst snd] in *. codec_split; try codec_solve; assumption.
Qed.

Lemma admission_transaction_len a b l :
  put ADMISSION_TRANSACTION_MAGIC +++ put_byte LOCAL_FORMAT_VERSION
    +++ push_variable a +++ push_variable b = Ok l →
  lenN l = 33 + lenN a + lenN b.
Proof.
  intros. codec_destruct. subst.
  repeat match goal with
  | H : put_byte _ = Ok _ |- _ => apply put_byte_len in H
  | H : push_variable _ = Ok _ |- _ => apply push_variable_len in H
  | H : put _ = Ok _ |- _ => apply put_Ok in H as ->
  end.
  rewrite !lenN_app. change (lenN ADMISSION_TRANSACTION_MAGIC) with 24. lia.
Qed.

Lemma sub_split n l : n <= lenN l → l = sub 0 n l ++ skipn (N.to_nat n) l.
Proof. intros _. unfold sub. simpl. by rewrite take_drop. Qed.

(** Reading the transaction back inverts writing it, and nothing else decodes. *)
Lemma decode_admission_transaction_encode l a b :
  decode_admission_transaction l = Ok (a, b) ↔ encode_admission_transaction a b = Ok l.
Proof.
  unfold decode_admission_transaction, encode_admission_transaction. cbv zeta.
  change (lenN ADMISSION_TRANSACTION_MAGIC) with 24.
  unfold MAX_REPLICA_BYTES, MAX_VAULT_METADATA_BYTES, HASH_LEN.
  change (24 + 1 + 4 + 16777216 + 4 + 1048576 + 32) with 17825857.
  change (24 + 1 + 8 + 32) with 65.
  split.
  - destruct (_ || _) eqn:Hb; [done|]. apply orb_false_iff in Hb as [Hle%N.ltb_ge Hge%N.ltb_ge].
    set (content := sub 0 (lenN l - 32) l).
    destruct (bool_decide_reflect (array_bytes (sha256 content)
      = skipn (N.to_nat (lenN l - 32)) l)) as [Hs|]; [|done]. cbn [negb]. intros Hd.
    unfold run in Hd.
    apply (run_spec _ _ content (a, b) dec_admission_transaction_spec) in Hd.
    + destruct Hd as [Hd _]. unfold MAX_REPLICA_BYTES, MAX_VAULT_METADATA_BYTES in Hd.
      cbn [fst snd] in Hd. destruct (_ || _) eqn:Hb; [done|]. cbn [negb] in Hd.
      rewrite Hd. cbn [res_bind]. rewrite Hs. f_equal. unfold content. symmetry. apply sub_split. lia.
    + by intros ??? [_ ?].
    + apply sub_fits. unfold fits, usize_limit, u64_limit. lia.
  - destruct (_ || _) eqn:Hb; [done|].
    destruct (put ADMISSION_TRANSACTION_MAGIC +++ _) as [out|] eqn:Hout; [|done].
    cbn [res_bind]. intros [= <-]. pose proof (admission_transaction_len _ _ _ Hout) as Hlen.
    apply orb_false_iff in Hb as [Ha%N.ltb_ge Hb%N.ltb_ge].
    assert (Hh : lenN (array_bytes (sha256 out)) = 32).
    { unfold lenN. by rewrite length_array. }
    rewrite lenN_app, Hh.
    rewrite (proj2 (N.ltb_ge _ _)) by lia. rewrite (proj2 (N.ltb_ge _ _)) by lia. cbn [orb].
    replace (lenN out + 32 - 32) with (lenN out) by lia.
    rewrite (sub_at _ [] out (array_bytes (sha256 out))) by done.
    rewrite bool_decide_eq_true_2.
    2: { unfold lenN. by rewrite Nat2N.id, drop_app_length. }
    cbn [negb].
    apply (run_spec _ _ out (a, b) dec_admission_transaction_spec).
    + by intros ??? [_ ?].
    + unfold fits, usize_limit, u64_limit. lia.
    + split; [|done]. cbn [fst snd]. unfold MAX_REPLICA_BYTES, MAX_VAULT_METADATA_BYTES.
      rewrite (proj2 (N.ltb_ge _ _)) by lia. by rewrite (proj2 (N.ltb_ge _ _)) by lia.
Qed.
End frame.

(** The migration marker is a vault id and a phase up to 3. *)
Lemma decode_vault_migration_iff l v p :
  decode_vault_migration l = Ok (v, p) ↔ encode_vault_migration v p = Ok l.
Proof.
  unfold decode_vault_migration, encode_vault_migration. split.
  - destruct (array_of_bytes 32 (firstn 32 l)) as [v'|] eqn:Hv; [|done].
    destruct (skipn 32 l) as [|p' [|]] eqn:Hp; try done.
    destruct (3 <? byte_N p') eqn:H3; [done|]. intros [= -> ->]. rewrite H3. f_equal.
    rewrite <-(firstn_skipn 32 l), Hp. f_equal. symmetry. by apply array_bytes_eq.
  - destruct (3 <? byte_N p) eqn:H3; [done|]. intros [= <-].
    rewrite take_app_length', drop_app_length' by (by rewrite length_array).
    by rewrite array_of_bytes_array, H3.
Qed.
