(* ===== verification/StateEncoding.v ===== *)
(** * The key store and directory files ([encoding.rs])

    [encode_store_state] and [encode_directory_state] with their readers, including the
    store's earlier form without epoch watermarks and the optional candidate extension. *)
From S2P Require Export LocalEncoding.
From Stdlib Require Import Lia ZifyN ZifyNat.

Open Scope N_scope.

(** ** The key store *)

(** The fields of a pair after its peer id. *)
Definition put_pair_tail (pair : PersistedPair) : Result bytes :=
  put_u64 (pp_epoch pair) +++ put (array_bytes (pp_initiator pair))
  +++ push_encoded (wrap_m (pp_wrap pair)) +++ push_variable (wm_signature (pp_wrap pair)).

Definition put_pair (pair : PersistedPair) : Result bytes :=
  put_peer (pp_peer_id pair) +++ put_pair_tail pair.

Definition dec_pair_tail (peer_id : PeerId) : Dec PersistedPair :=
  let! epoch := dec_u64 in
  let! initiator := dec_array 32 in
  let! wrap := dec_signed decode_wrap_message in
  dec_ret (mkPersistedPair peer_id epoch initiator wrap).

Definition dec_pair : Dec PersistedPair :=
  let! peer_id := dec_peer in dec_pair_tail peer_id.

(** One iteration of the candidate loop. *)
Definition dec_candidate (previous : option PeerId) : Dec PersistedPair :=
  let! peer_id := dec_peer in
  guard! negb (prev_geb previous peer_id)
    else InvalidInput "candidate pairs are not canonical" in
  dec_pair_tail peer_id.

Definition put_key (key : PersistedKey) : Result bytes :=
  put_u64 (pk_slot key) +++ put (array_bytes (pk_peer_id key)) +++ put_u64 (pk_epoch key)
  +++ put (array_bytes (pk_key key)).

Definition dec_key : Dec PersistedKey :=
  let! slot := dec_u64 in
  let! peer_id := dec_array 32 in
  let! epoch := dec_u64 in
  let! key := dec_array 32 in
  dec_ret (mkPersistedKey slot peer_id epoch key).

Definition put_document (document : IdentityDocument) : Result bytes :=
  push_encoded (identity_m document) +++ push_variable (doc_signature document).
Definition dec_document : Dec IdentityDocument := dec_signed decode_identity_document.

Definition dec_peer_u64 : Dec (PeerId * u64) :=
  let! peer_id := dec_peer in
  let! value := dec_u64 in
  dec_ret (peer_id, value).

Definition encode_candidates (candidates : list PersistedPair) : Result bytes :=
  put_byte Byte.x01 +++ push_length (lenN candidates)
  +++ put_sorted pp_peer_id (InvalidInput "candidate pairs are not canonical") put_pair None
        candidates.

Definition put_candidates (candidates : list PersistedPair) : Result bytes :=
  if lenN candidates =? 0 then put []
  else if MAX_ADMISSION_CANDIDATES <? lenN candidates
  then Err (InvalidInput "candidate pair cap exceeded")
  else push_encoded (encode_candidates candidates).

Definition encode_store_state (state : PersistedState) : Result bytes :=
  put STORE_STATE_MAGIC +++ put_byte LOCAL_FORMAT_VERSION
  +++ put (array_bytes (ps_local_id state)) +++ put_u64 (ps_next_slot state)
  +++ (push_length (lenN (ps_peers state)) +++ put_each put_document (ps_peers state))
  +++ (push_length (lenN (ps_pairs state)) +++ put_each put_pair (ps_pairs state))
  +++ (push_length (lenN (ps_keys state)) +++ put_each put_key (ps_keys state))
  +++ (push_length (lenN (ps_epoch_watermarks state))
       +++ put_each put_peer_u64 (ps_epoch_watermarks state))
  +++ put_candidates (ps_candidates state).

Definition dec_candidates : Dec (list PersistedPair) :=
  let! _ := dec_expect_byte Byte.x01
    (InvalidInput "unsupported candidate extension version") in
  let! count := dec_count 160 in
  guard! count <=? MAX_ADMISSION_CANDIDATES else InvalidInput "candidate pair cap exceeded" in
  let! candidates := dec_sorted pp_peer_id (N.to_nat count) None dec_candidate in
  let! _ := finish in
  dec_ret candidates.

Definition dec_store_state : Dec PersistedState :=
  let! _ := require_prefix STORE_STATE_MAGIC in
  let! _ := require_version in
  let! local_id := dec_array 32 in
  let! next_slot := dec_u64 in
  let! peers := dec_vec 52 dec_document in
  let! pairs := dec_vec 160 dec_pair in
  let! keys := dec_vec 80 dec_key in
  let! available := dec_remaining in
  let! epoch_watermarks :=
    (if available =? 0 then dec_ret [] else dec_vec 40 dec_peer_u64) in
  let! available := dec_remaining in
  let! candidates :=
    (if available =? 0 then dec_ret [] else dec_nested (run dec_candidates)) in
  let! _ := finish in
  dec_ret (mkPersistedState local_id next_slot peers pairs candidates keys epoch_watermarks).

Definition decode_store_state (l : bytes) : Result PersistedState := run dec_store_state l.

(** ** The directory *)

Record DirectoryWatermark := mkDirectoryWatermark {
  dw_peer_id : PeerId;
  dw_vault_id : VaultId;
  dw_issued_at : u64;
  dw_vk : bytes;
}.

Definition put_watermark (w : DirectoryWatermark) : Result bytes :=
  put (array_bytes (dw_peer_id w)) +++ put (array_bytes (dw_vault_id w))
  +++ put_u64 (dw_issued_at w) +++ push_variable (dw_vk w).

Definition dec_watermark : Dec DirectoryWatermark :=
  let! peer_id := dec_array 32 in
  let! vault_id := dec_array 32 in
  let! issued_at := dec_u64 in
  let! vk := dec_variable in
  dec_ret (mkDirectoryWatermark peer_id vault_id issued_at vk).

(** [count(minimum)?] with a cap on the number of records. *)
Definition dec_vec_capped {A} (minimum : N) (error : Error) (d : Dec A) : Dec (list A) :=
  let! count := dec_count minimum in
  guard! count <=? MAX_DIRECTORY_RECORDS else error in
  dec_repeat (N.to_nat count) d.

Section directory.
Context `{SocketAddrs}.

Record DirectoryState := mkDirectoryState {
  dst_ads : list (JoinCode * DirectoryAd);
  dst_watermarks : list DirectoryWatermark;
}.

Definition put_ad (p : JoinCode * DirectoryAd) : Result bytes :=
  put (array_bytes p.1) +++ push_encoded (encode_directory_ad p.2).

Definition dec_ad : Dec (JoinCode * DirectoryAd) :=
  let! join_code := dec_array 16 in
  let! ad := dec_nested decode_directory_ad in
  dec_ret (join_code, ad).

Definition encode_directory_state (state : DirectoryState) : Result bytes :=
  put DIRECTORY_STATE_MAGIC +++ put_byte LOCAL_FORMAT_VERSION
  +++ (push_length (lenN (dst_ads state)) +++ put_each put_ad (dst_ads state))
  +++ (push_length (lenN (dst_watermarks state))
       +++ put_each put_watermark (dst_watermarks state)).

Definition dec_directory_state : Dec DirectoryState :=
  let! _ := require_prefix DIRECTORY_STATE_MAGIC in
  let! _ := require_version in
  let! ads := dec_vec_capped 20 (InvalidInput "directory ad count exceeds cap") dec_ad in
  let! watermarks := dec_vec_capped 76
    (InvalidInput "directory watermark count exceeds cap") dec_watermark in
  let! _ := finish in
  dec_ret (mkDirectoryState ads watermarks).

Definition decode_directory_state (l : bytes) : Result DirectoryState :=
  run dec_directory_state l.
End directory.

(** ** Codec laws *)

#[export] Instance spec_pair_tail k :
  DecSpec (dec_pair_tail k) (λ p bs _, pp_peer_id p = k ∧ put_pair_tail p = Ok bs).
Proof.
  eapply spec_iff; [typeclasses eauto|]. intros p bs tl. unfold encodes, put_pair_tail. split.
  - codec_forward.
  - destruct p. cbn. codec_backward.
Qed.

#[export] Instance spec_pair : DecSpec dec_pair (encodes put_pair).
Proof.
  eapply spec_iff; [typeclasses eauto|]. intros p bs tl. unfold encodes, put_pair. split.
  - codec_forward.
  - codec_backward.
Qed.

#[export] Instance sorted_candidate : SortedBody pp_peer_id dec_candidate put_pair.
Proof.
  intros p. eapply spec_iff; [typeclasses eauto|]. intros x bs tl. unfold encodes, put_pair. split.
  - intros (k & b1 & b2 & (Hp%negb_true_iff & <- & Hx) & Hk & ->). split; [done|]. by apply cat_intro.
  - intros [Hp (b1 & b2 & Hk & Hx & ->)%cat_Ok]. exists (pp_peer_id x), b1, b2.
    by rewrite Hp.
Qed.

Lemma put_pair_tail_min p b : put_pair_tail p = Ok b → 128 <= lenN b.
Proof.
  unfold put_pair_tail. intros. codec_destruct. subst.
  match goal with H : wrap_m _ = Ok _ |- _ => apply wrap_m_min in H end. codec_len.
Qed.
#[export] Instance pair_min : MinLen put_pair 160.
Proof.
  intros p b. unfold put_pair, put_peer. intros. codec_destruct. subst.
  match goal with H : put_pair_tail _ = Ok _ |- _ => apply put_pair_tail_min in H end. codec_len.
Qed.

#[export] Instance spec_key : DecSpec dec_key (encodes put_key).
Proof. codec put_key. Qed.
#[export] Instance key_min : MinLen put_key 80.
Proof. codec_min put_key. Qed.

#[export] Instance spec_document : DecSpec dec_document (encodes put_document).
Proof. unfold dec_document, put_document. typeclasses eauto. Qed.
#[export] Instance document_min : MinLen put_document 52.
Proof.
  intros d b. unfold put_document. intros. codec_destruct. subst.
  match goal with H : identity_m _ = Ok _ |- _ => apply identity_m_min in H end. codec_len.
Qed.

#[export] Instance spec_peer_u64 : DecSpec dec_peer_u64 (encodes put_peer_u64).
Proof. codec put_peer_u64. Qed.

Lemma decode_candidates_spec :
  DecSpec dec_candidates
    (λ l bs tl, (lenN l <= MAX_ADMISSION_CANDIDATES ∧ encode_candidates l = Ok bs) ∧ tl = []).
Proof.
  pose proof (λ n, spec_sorted pp_peer_id n None dec_candidate put_pair
    (sorted_body (key := pp_peer_id))) as Hsorted.
  eapply spec_iff; [typeclasses eauto|]. intros l bs tl. unfold encodes, encode_candidates. split.
  - intros ([] & b1 & b2 & (n & b3 & b4 & (Hcap & l' & b5 & b6 & ([] & b7 & b8 & [-> ->] & [-> Htl] & ->)
      & (Hn & Hs & Hl) & ->) & [Hb _] & ->) & Hv & ->).
    cbn in Htl. subst tl. apply N.leb_le in Hcap. rewrite !app_nil_r.
    assert (lenN l' = n) as <- by (unfold lenN; by rewrite Hn, N2Nat.id).
    split; [split; [done|]|done].
    repeat (apply cat_intro; [done|]). by apply put_sorted_Ok.
  - intros [[Hcap He] ->]. codec_destruct. subst.
    match goal with H : put_sorted _ _ _ _ _ = Ok _ |- _ =>
      pose proof H as Hput; apply put_sorted_Ok in H as [Hl Hs] end.
    exists tt, x, (x1 ++ x2). split; [|done].
    exists (lenN l), x1, x2. split; [|split; [split; [done|]|done]].
    2: { rewrite app_nil_r, <-(app_nil_r x2). eapply (counted put_pair); [apply _|done]. }
    split; [by apply N.leb_le|]. exists l, x2, []. rewrite app_nil_r.
    split; [by exists tt, [], []|]. split; [|done]. unfold lenN. by rewrite Nat2N.id.
Qed.

Lemma decode_store_state_intro s l :
  fits l → encode_store_state s = Ok l → decode_store_state l = Ok s.
Proof.
  intros Hl He. pose proof decode_candidates_spec as Hc. unfold decode_store_state.
  eapply run_spec; [typeclasses eauto| |done|].
  { cbn beta. intros. codec_destruct. by subst. }
  unfold encode_store_state in He. do 8 (apply cat_Ok in He as (? & ? & ? & He & ->)).
  match goal with H : push_length (lenN (ps_epoch_watermarks s)) +++ _ = Ok ?b |- _ =>
    rename b into bw, H into Hw end.
  match type of He with _ = Ok ?b => rename b into bc end.
  cbn beta. unfold encodes.
  eexists tt, _, _; split; [|split; [eassumption|reflexivity]].
  eexists tt, _, _; split; [|split; [eassumption|reflexivity]].
  do 5 (eexists _, _, _; split; [|split; [eassumption|reflexivity]]).
  eexists _, [], (bw ++ bc); split; [|split; [split; reflexivity|reflexivity]].
  exists (ps_epoch_watermarks s), bw, bc. split; [|split; [|done]]; cycle 1.
  { rewrite lenN_pos_ne; [exact Hw|]. rewrite !lenN_app. apply cat_Ok in Hw as (? & ? & Hw%push_length_len & _ & ->).
    rewrite lenN_app. lia. }
  eexists _, [], bc; split; [|split; [split; reflexivity|reflexivity]].
  exists (ps_candidates s), bc, []. rewrite !app_nil_r. split; [|split; [|done]].
  { exists tt, [], []. destruct s. done. }
  unfold put_candidates in He. destruct (N.eqb_spec (lenN (ps_candidates s)) 0) as [Hz|Hz].
  - apply put_Ok in He as ->. split; [|done]. unfold lenN in Hz. apply nil_length_inv. lia.
  - destruct (N.ltb_spec MAX_ADMISSION_CANDIDATES (lenN (ps_candidates s))) as [|Hcap]; [done|].
    rewrite lenN_pos_ne by (apply push_encoded_len in He; lia).
    apply push_encoded_Ok in He as (v & Hv & Hp). exists v. split; [done|].
    apply (run_spec _ _ v _ Hc); [naive_solver|by eapply push_variable_fits|done].
Qed.

(** ** The directory *)

#[export] Instance spec_watermark : DecSpec dec_watermark (encodes put_watermark).
Proof. codec put_watermark. Qed.
#[export] Instance watermark_min : MinLen put_watermark 76.
Proof. codec_min put_watermark. Qed.

Lemma spec_vec_capped {A} m e (d : Dec A) R :
  DecSpec d (λ x bs _, R x bs) → (∀ x b, R x b → Npos m <= lenN b) →
  DecSpec (dec_vec_capped (Npos m) e d)
    (λ l bs _, lenN l <= MAX_DIRECTORY_RECORDS ∧
       ∃ b1 b2, push_length (lenN l) = Ok b1 ∧ each R l b2 ∧ bs = b1 ++ b2).
Proof.
  intros Hd Hmin. unfold dec_vec_capped. eapply spec_iff.
  { apply spec_bind; [apply _|]. intros n. apply spec_guard, spec_repeat_rel, Hd. }
  intros l bs tl. cbn beta. split.
  - intros (n & b1 & b2 & [Hcap%N.leb_le [Hn Hl]] & [Hb _] & ->).
    assert (lenN l = n) as <- by (unfold lenN; by rewrite Hn, N2Nat.id).
    split; [done|]. by exists b1, b2.
  - intros (Hcap & b1 & b2 & Hb & Hl & ->). exists (lenN l), b1, b2.
    unfold lenN at 2. rewrite Nat2N.id. split; [split; [by apply N.leb_le|split; [done|exact Hl]]|].
    split; [split; [done|]|done].
    apply N.div_le_lower_bound; [lia|]. rewrite lenN_app.
    pose proof (each_min R _ _ _ Hmin Hl). lia.
Qed.

Section directory_laws.
Context `{SocketAddrs}.

Definition ad_wire (p : JoinCode * DirectoryAd) (bs : bytes) : Prop :=
  ∃ v, put (array_bytes p.1) +++ push_variable v = Ok bs ∧ decode_directory_ad v = Ok p.2.

#[local] Instance spec_ad : DecSpec dec_ad (λ p bs _, ad_wire p bs).
Proof.
  eapply spec_iff; [typeclasses eauto|]. intros p bs tl. unfold encodes, ad_wire. split.
  - intros (c & b1 & b2 & (ad & b3 & b4 & [-> ->] & (v & Hv & Hd) & ->) & Hc & ->).
    exists v. rewrite app_nil_r. split; [by apply cat_intro|done].
  - intros (v & (b1 & b2 & Hc & Hv & ->)%cat_Ok & Hd). exists p.1, b1, b2. split; [|done].
    exists p.2, b2, []. rewrite app_nil_r. destruct p. eauto 10.
Qed.

Lemma ad_wire_min p b : ad_wire p b → 20 <= lenN b.
Proof.
  intros (v & (b1 & b2 & Hc%put_array_len & Hv%push_variable_len & ->)%cat_Ok & _).
  rewrite lenN_app. lia.
Qed.

Lemma put_ad_wire p b : put_ad p = Ok b → ad_wire p b.
Proof.
  unfold put_ad. intros (b1 & b2 & Hc & (v & Ha & Hv)%push_encoded_Ok & ->)%cat_Ok.
  exists v. split; [by apply cat_intro|].
  apply decode_directory_ad_intro; [by eapply push_variable_fits|done].
Qed.

Lemma decode_directory_state_intro s l :
  fits l → lenN (dst_ads s) <= MAX_DIRECTORY_RECORDS →
  lenN (dst_watermarks s) <= MAX_DIRECTORY_RECORDS →
  encode_directory_state s = Ok l → decode_directory_state l = Ok s.
Proof.
  intros Hl Hads Hws He.
  pose proof (spec_vec_capped 20 (InvalidInput "directory ad count exceeds cap") dec_ad
    ad_wire _ ad_wire_min) as Hc1.
  pose proof (spec_vec_capped 76 (InvalidInput "directory watermark count exceeds cap")
    dec_watermark (λ w b, put_watermark w = Ok b) spec_watermark watermark_min) as Hc2.
  unfold decode_directory_state. eapply run_spec; [typeclasses eauto| |done|].
  { cbn beta. intros. codec_destruct. by subst. }
  unfold encode_directory_state in He. do 3 (apply cat_Ok in He as (? & ? & ? & He & ->)).
  cbn beta. unfold encodes.
  eexists tt, _, _; split; [|split; [eassumption|reflexivity]].
  eexists tt, _, _; split; [|split; [eassumption|reflexivity]].
  eexists _, _, _; split; [|split; [|reflexivity]].
  2: { split; [exact Hads|]. match goal with H : push_length (lenN (dst_ads s)) +++ _ = _ |- _ =>
         apply cat_Ok in H as (b1 & b2 & ? & Hp & ->) end.
       exists b1, b2. split; [done|]. split; [|done].
       by apply (put_each_each put_ad); [apply put_ad_wire|]. }
  eexists (dst_watermarks s), _, []. rewrite app_nil_r. split; [|split; [|reflexivity]].
  { exists tt, [], []. destruct s. done. }
  split; [done|]. apply cat_Ok in He as (b1 & b2 & ? & Hp & ->).
  exists b1, b2. split; [done|]. split; [|done]. by apply (put_each_each put_watermark).
Qed.
End directory_laws.
