(* ===== verification/CodecClaims.v ===== *)
(** * What the encodings guarantee

    Each theorem says exactly which byte strings a decoder accepts and what it returns: for most
    formats those its encoder writes and no others, so a document has one encoding and a relay
    or a disk cannot alter it unnoticed; for the extensible ones, also the shorter or longer
    forms the reader tolerates.  [fits] bounds a byte string by the address space. *)
From S2P Require Export StateEncoding.
From Stdlib Require Import Lia ZifyN ZifyNat.

Open Scope N_scope.

(** ** Properties *)

(** A control record decodes from its encoding and from nothing else. *)
Theorem control_record_canonical l r :
  fits l → decode_control_record l = Ok r ↔ encode_control_record r = Ok l.
Proof. apply control_record_codec. Qed.

(** Identity documents, wrap messages and the signed part of manifests each decode from
    their encoding and from nothing else, with the signature they were given. *)
Theorem signed_documents_canonical l s d w m :
  fits l →
  (decode_identity l = Ok d ↔ encode_identity d = Ok l)
  ∧ (decode_wrap l = Ok w ↔ encode_wrap w = Ok l)
  ∧ (decode_manifest_message l s = Ok m ↔ manifest_m m = Ok l ∧ mf_signature m = s).
Proof. intros Hl. split; [by apply identity_codec|]. split; [by apply wrap_codec|by apply manifest_signed]. Qed.

(** A mailbox envelope decodes from its encoding and from nothing else; the time it was
    queued is not sent, and reads as zero. *)
Theorem mailbox_envelope_canonical l e :
  fits l → fits (env_ciphertext e) →
  decode_mailbox_envelope l = Ok e ↔ encode_mailbox_envelope e = Ok l ∧ env_queued_at e = u64_zero.
Proof. apply decode_mailbox_envelope_iff. Qed.

(** Two packets of one pair have the same GCM nonce only when they carry the same payload
    type and sequence number and travel in the same direction; the associated data is parsed
    back to exactly that header and type. *)
Theorem nonce_and_aad_faithful h pt h' pt' file_id index :
  hdr_version h = PROTOCOL_VERSION →
  (nonce h pt = nonce h' pt' → pt = pt' ∧ hdr_seq h = hdr_seq h'
     ∧ ¬ (hdr_sender_id h = hdr_receiver_id h' ∧ hdr_receiver_id h = hdr_sender_id h'
          ∧ hdr_sender_id h ≠ hdr_receiver_id h))
  ∧ decode_aad (packet_aad h) = Ok (h, Packet)
  ∧ decode_aad (chunk_aad h file_id index) = Ok (h, ChunkBody).
Proof.
  intros Hv. split; [|split; [by apply decode_aad_Packet|apply decode_aad_ChunkBody; eauto]].
  intros (Hpt & Hseq & Hdir)%nonce_inj. split; [done|]. split; [done|].
  intros (Hs & Hr & Hne). rewrite <-Hs, <-Hr in Hdir.
  destruct (ltb_total (hdr_receiver_id h) (hdr_sender_id h)) as [Hlt|[Heq|Hlt]]; [|congruence|];
    pose proof (ltb_asym _ _ Hlt); congruence.
Qed.

(** A control frame of a peer connection decodes from its encoding; an accepted join also
    from the short form without the historical members and denials it does not carry. *)
Theorem net_control_wire_exact l c :
  fits l → decode_net_control l = Ok c ↔ net_control_wire c l.
Proof. apply decode_net_control_iff. Qed.

(** A join request decodes, beside its identity document, from its encoding and from nothing
    else; a pull request decodes from its encoding when it asks for at most the cap. *)
Theorem requests_canonical l d r q :
  fits l →
  (decode_join_request l d = Ok r ↔ encode_join_request r = Ok l ∧ jr_document r = d)
  ∧ (decode_pull_request l = Ok q ↔ encode_pull_request q = Ok l ∧ lenN (pr_chunk_ids q) <= MAX_PULL_CHUNK_IDS).
Proof. intros Hl. split; [by apply decode_join_request_iff|by apply decode_pull_request_iff]. Qed.

(** A flush offer decodes from its encoding, and, when it has neither historical members nor
    a bootstrap mark, also from a longer form with an empty extension that the encoder never
    writes: the decoder is not canonical. *)
Theorem flush_offer_wire_exact l o :
  fits l →
  decode_flush_offer l = Ok o ↔
  encode_flush_offer o = Ok l
  ∨ (fo_historical o = [] ∧ fo_bootstrap_through o = None ∧ fo_frame_count o <= MAX_FLUSH_FRAMES
     ∧ (put (array_bytes (fo_challenge o)) +++ put_u32 (fo_frame_count o)
        +++ push_encoded (encode_flush_extension ([], None))) = Ok l).
Proof. apply decode_flush_offer_iff. Qed.

(** Chunk location queries and replies decode from their encodings and from nothing else. *)
Theorem have_messages_canonical l q r :
  fits l → (decode_have_query l = Ok q ↔ encode_have_query q = Ok l)
           ∧ (decode_have_reply l = Ok r ↔ encode_have_reply r = Ok l).
Proof. intros Hl. split; [by apply have_query_codec|by apply have_reply_codec]. Qed.

(** Vault metadata decodes from its encoding, or, when nobody is denied, from the form
    without the list, provided no member is listed twice. *)
Theorem vault_metadata_exact l m :
  fits l →
  decode_vault_metadata l = Ok m ↔
  (encode_vault_metadata m = Ok l ∨ (vm_denied m = ∅ ∧ encode_vault_metadata_base m = Ok l))
  ∧ NoDup (vm_members m).
Proof. apply decode_vault_metadata_spec. Qed.

Section hashed.
Context `{Sha256}.

(** A replica snapshot that was written is read back: same generation, same contents, the
    directory entries listed in the tree's order. *)
Theorem replica_roundtrip m generation l :
  admission_ok (rm_admission m) → encode_replica m generation = Ok l →
  ∃ t, from_dirents (rm_expected_root m) (rm_dirents m) = Ok t ∧
       decode_replica l (rm_expected_root m) = Ok (generation, with_dirents m (dirents t)).
Proof. apply decode_replica_encode. Qed.

(** A snapshot is accepted only with the hash of its content appended, and what it holds
    satisfies the conditions the host relies on ([replica_sound]). *)
Theorem replica_accepts_sound l root generation m :
  decode_replica l root = Ok (generation, m) →
  (∃ content, l = content ++ array_bytes (sha256 content)) ∧ replica_sound root m.
Proof. apply decode_replica_sound. Qed.

(** An admission transaction file is accepted exactly when it is what the writer wrote. *)
Theorem admission_transaction_exact l a b :
  decode_admission_transaction l = Ok (a, b) ↔ encode_admission_transaction a b = Ok l.
Proof. apply decode_admission_transaction_encode. Qed.
End hashed.

(** A vault migration marker is accepted exactly when it is what the writer wrote. *)
Theorem vault_migration_exact l v p :
  decode_vault_migration l = Ok (v, p) ↔ encode_vault_migration v p = Ok l.
Proof. apply decode_vault_migration_iff. Qed.

(** The key store's state file reads back as the state that was written. *)
Theorem store_state_roundtrip s l :
  fits l → encode_store_state s = Ok l → decode_store_state l = Ok s.
Proof. apply decode_store_state_intro. Qed.

(** ** Witnesses *)

Lemma fits_small (l : bytes) n : lenN l = n → n < 1000000 → fits l.
Proof. intros Hl Hn. unfold fits, usize_limit, u64_limit. lia. Qed.

Ltac fits_concrete := eapply fits_small; [vm_compute; reflexivity|reflexivity].

Definition sample_id : array 32 := array_N 32 5.
Definition sample_record : ControlRecord := mkControlRecord (u64! 9) (Remove sample_id).
Definition sample_identity : IdentityDocument :=
  mkIdentityDocument sample_id [Byte.x01] [Byte.x02] (u64! 3) [Byte.x04].
Definition sample_envelope : MailboxEnvelope :=
  mkMailboxEnvelope (array_N 32 6) sample_id (u64! 1) (u64! 2) u64_zero
    [Byte.x00; Byte.x00; Byte.x00; Byte.x00; Byte.x01; Byte.x2a].
Definition sample_manifest : Manifest := mkManifest sample_id [] u64_zero sample_id u64_zero [].
Definition encoded (r : Result bytes) : bytes := match r with Ok l => l | Err _ => [] end.

Lemma control_record_canonical_witness :
  decode_control_record (encoded (encode_control_record sample_record)) = Ok sample_record.
Proof. apply control_record_canonical; [fits_concrete|vm_compute; reflexivity]. Defined.

Lemma signed_documents_canonical_witness :
  decode_identity (encoded (encode_identity sample_identity)) = Ok sample_identity.
Proof.
  refine (proj2 (proj1 (signed_documents_canonical _ [] sample_identity
    (mkWrapMessage [] [] u64_zero sample_id sample_id [])
    sample_manifest _)) _); [fits_concrete|vm_compute; reflexivity].
Defined.

Lemma mailbox_envelope_canonical_witness :
  decode_mailbox_envelope (encoded (encode_mailbox_envelope sample_envelope)) = Ok sample_envelope.
Proof.
  apply mailbox_envelope_canonical; [fits_concrete|fits_concrete|].
  split; [vm_compute; reflexivity|reflexivity].
Defined.

Definition sample_header (seq : u64) : PacketHeader :=
  mkPacketHeader PROTOCOL_VERSION sample_id (array_N 32 6) (u64! 1) seq.

Lemma nonce_and_aad_faithful_witness :
  decode_aad (packet_aad (sample_header (u64! 1))) = Ok (sample_header (u64! 1), Packet).
Proof.
  exact (proj1 (proj2 (nonce_and_aad_faithful (sample_header (u64! 1)) Packet
    (sample_header (u64! 2)) Packet sample_id u64_zero eq_refl))).
Defined.

Definition sample_control : NetControl := JoinAccepted sample_id [sample_identity] [] ∅.

Lemma net_control_wire_exact_witness :
  decode_net_control (encoded (encode_net_control sample_control)) = Ok sample_control.
Proof.
  apply net_control_wire_exact; [fits_concrete|]. left. vm_compute. reflexivity.
Defined.

Lemma requests_canonical_witness :
  let q := mkPullRequest [sample_id; sample_id] in
  decode_pull_request (encoded (encode_pull_request q)) = Ok q.
Proof.
  intros q.
  refine (proj2 (proj2 (requests_canonical _ sample_identity
    (mkJoinRequest sample_id (array_N 16 1) sample_identity []) q _)) _); [fits_concrete|].
  split; [vm_compute; reflexivity|vm_compute; discriminate].
Defined.

(** The longer form of an empty offer, which is not what the encoder writes. *)
Definition sample_offer : FlushOffer := mkFlushOffer sample_id (U32 2 I) [] None.
Definition sample_offer_long : bytes :=
  encoded (put (array_bytes sample_id) +++ put_u32 (U32 2 I)
           +++ push_encoded (encode_flush_extension ([], None))).

Lemma flush_offer_wire_exact_witness :
  decode_flush_offer sample_offer_long = Ok sample_offer
  ∧ encode_flush_offer sample_offer ≠ Ok sample_offer_long.
Proof.
  split; [|vm_compute; discriminate].
  apply flush_offer_wire_exact; [fits_concrete|]. right.
  split; [reflexivity|]. split; [reflexivity|]. split; [vm_compute; discriminate|vm_compute; reflexivity].
Defined.

Lemma have_messages_canonical_witness :
  let q := mkHaveQuery sample_id [sample_id] in
  decode_have_query (encoded (encode_have_query q)) = Ok q.
Proof.
  intros q. refine (proj2 (proj1 (have_messages_canonical _ q (mkHaveReply sample_id [] []) _)) _);
    [fits_concrete|vm_compute; reflexivity].
Defined.

Definition sample_metadata : VaultMetadata :=
  mkVaultMetadata sample_id (array_N 16 1) (u64! 4) [sample_id; array_N 32 6] ∅.

Lemma sample_members_NoDup : NoDup (vm_members sample_metadata).
Proof. apply (bool_decide_unpack _). vm_compute. exact I. Qed.

Lemma vault_metadata_exact_witness :
  decode_vault_metadata (encoded (encode_vault_metadata sample_metadata)) = Ok sample_metadata.
Proof.
  apply vault_metadata_exact; [fits_concrete|].
  split; [left; vm_compute; reflexivity|exact sample_members_NoDup].
Defined.

Definition sample_replica : ReplicaMetadata :=
  mkReplicaMetadata sample_id [] ∅ ∅ [sample_record] (u64! 10) ∅ ∅ ∅ ∅ (Some sample_metadata) ∅ ∅ ∅.

Section hashed_witnesses.
#[local] Existing Instance sample_sha256.

Definition sample_replica_file : bytes := encoded (encode_replica sample_replica (u64! 3)).

Lemma sample_replica_encodes :
  encode_replica sample_replica (u64! 3) = Ok sample_replica_file.
Proof.
  assert (Hok : is_ok (encode_replica sample_replica (u64! 3)) = true) by (vm_compute; reflexivity).
  unfold sample_replica_file. by destruct (encode_replica _ _).
Qed.

Lemma sample_admission_ok : admission_ok (rm_admission sample_replica).
Proof. intros adm [= <-]. exact sample_members_NoDup. Qed.

Lemma replica_roundtrip_witness :
  ∃ t, decode_replica sample_replica_file sample_id
       = Ok (u64! 3, with_dirents sample_replica (dirents t)).
Proof.
  destruct (replica_roundtrip sample_replica (u64! 3) sample_replica_file
    sample_admission_ok sample_replica_encodes) as (t & _ & Hd).
  exact (ex_intro _ t Hd).
Defined.

Lemma replica_accepts_sound_witness :
  ∃ content, sample_replica_file = content ++ array_bytes (sha256 content).
Proof.
  assert (Hok : is_ok (decode_replica sample_replica_file sample_id) = true) by (vm_compute; reflexivity).
  destruct (decode_replica sample_replica_file sample_id) as [[g m]|e] eqn:Hd; [|discriminate Hok].
  exact (proj1 (replica_accepts_sound _ _ g m Hd)).
Defined.
End hashed_witnesses.

Definition sample_state : PersistedState :=
  mkPersistedState sample_id (u64! 3) [sample_identity] [] [] []
    [(sample_id, u64! 2)].

Lemma store_state_roundtrip_witness :
  decode_store_state (encoded (encode_store_state sample_state)) = Ok sample_state.
Proof. apply store_state_roundtrip; [fits_concrete|vm_compute; reflexivity]. Defined.
