(* ===== verification/ReplayWindow.v ===== *)
(** * The replay window ([protocol/packet.rs])

    A window of 1024 sequence numbers below the highest accepted one, kept as sixteen
    64-bit words.  [window_refines] relates it to the list of the sequence numbers accepted
    so far; the theorems at the end are stated of that list. *)
From S2P Require Export Types.
From Stdlib Require Import Lia ZifyN ZifyNat.

Open Scope N_scope.

Definition REPLAY_WINDOW_SIZE : N := 1024.

Record ReplayWindowKey := mkReplayWindowKey {
  rk_peer_id : PeerId;
  rk_epoch : Epoch;
  rk_direction : Direction;
  rk_payload_type : PayloadType;
}.
#[export] Instance ReplayWindowKey_eq_dec : EqDecision ReplayWindowKey.
Proof. solve_decision. Defined.

(** [seen] holds [REPLAY_WINDOW_SIZE / 64] words. *)
Record ReplayWindowState := mkReplayWindowState {
  highest_seen : option u64;
  seen : list N;
}.

Definition WORDS : nat := 16.

Definition default_window : ReplayWindowState := mkReplayWindowState None (repeat 0 WORDS).

(** [1u64 << (distance % 64)] *)
Definition bit_mask (distance : N) : N := N.shiftl 1 (distance mod 64).

(** The word index is in range for every distance below the window size. *)
Definition word (words : list N) (distance : N) : N :=
  default 0 (words !! N.to_nat (distance / 64)).

Definition bit_is_set (words : list N) (distance : N) : bool :=
  negb (N.land (word words distance) (bit_mask distance) =? 0).

Definition set_bit (words : list N) (distance : N) : list N :=
  alter (λ w, N.lor w (bit_mask distance)) (N.to_nat (distance / 64)) words.

(** [for old_distance in 0..(REPLAY_WINDOW_SIZE - advance)] *)
Fixpoint shift_loop (words : list N) (advance : N) (fuel : nat) (old_distance : N)
    (shifted : list N) : list N :=
  match fuel with
  | O => shifted
  | S fuel =>
      shift_loop words advance fuel (old_distance + 1)
        (if bit_is_set words old_distance then set_bit shifted (old_distance + advance)
         else shifted)
  end.

Definition shift (words : list N) (advance : N) : list N :=
  if REPLAY_WINDOW_SIZE <=? advance then repeat 0 (length words)
  else shift_loop words advance (N.to_nat (REPLAY_WINDOW_SIZE - advance)) 0 (repeat 0 WORDS).

Definition check (w : ReplayWindowState) (s : Seq) : Result unit :=
  match highest_seen w with
  | None => Ok tt
  | Some highest =>
      if u64_N highest <? u64_N s then Ok tt
      else
        let distance := u64_N highest - u64_N s in
        if (REPLAY_WINDOW_SIZE <=? distance) || bit_is_set (seen w) distance
        then Err ReplayRejected
        else Ok tt
  end.

Definition accept (w : ReplayWindowState) (s : Seq) : Result ReplayWindowState :=
  let? _ := check w s in
  Ok match highest_seen w with
     | None => mkReplayWindowState (Some s) (set_bit (seen w) 0)
     | Some highest =>
         if u64_N highest <? u64_N s
         then mkReplayWindowState (Some s) (set_bit (shift (seen w) (u64_N s - u64_N highest)) 0)
         else mkReplayWindowState (Some highest) (set_bit (seen w) (u64_N highest - u64_N s))
     end.

(** Offering a list of sequence numbers in turn: the window afterwards and the numbers it
    accepted, latest first. *)
Fixpoint offer (w : ReplayWindowState) (accepted : list u64) (l : list u64)
    : ReplayWindowState * list u64 :=
  match l with
  | [] => (w, accepted)
  | s :: l =>
      match accept w s with
      | Ok w' => offer w' (s :: accepted) l
      | Err _ => offer w accepted l
      end
  end.

(** ** Bits *)

Lemma land_mask w k : negb (N.land w (N.shiftl 1 k) =? 0) = N.testbit w k.
Proof.
  rewrite N.shiftl_1_l. destruct (N.testbit w k) eqn:Hk.
  - apply negb_true_iff, N.eqb_neq. intros H0.
    assert (Hb : N.testbit (N.land w (2 ^ k)) k = true).
    { by rewrite N.land_spec, Hk, N.pow2_bits_true. }
    by rewrite H0, N.bits_0 in Hb.
  - apply negb_false_iff, N.eqb_eq, N.bits_inj_0. intros n.
    rewrite N.land_spec, N.pow2_bits_eqb.
    destruct (N.eqb_spec k n) as [->|]; [by rewrite Hk|by rewrite andb_false_r].
Qed.

Lemma bit_is_set_testbit words d :
  bit_is_set words d = N.testbit (word words d) (d mod 64).
Proof. apply land_mask. Qed.

Lemma length_set_bit words d : length (set_bit words d) = length words.
Proof. apply length_alter. Qed.

(** Setting a bit sets that bit only. *)
Lemma bit_set_bit words d d' :
  length words = WORDS → d < REPLAY_WINDOW_SIZE → d' < REPLAY_WINDOW_SIZE →
  bit_is_set (set_bit words d) d' = (d =? d') || bit_is_set words d'.
Proof.
  unfold REPLAY_WINDOW_SIZE. intros Hlen Hd Hd'. rewrite !bit_is_set_testbit.
  unfold word, set_bit, bit_mask. rewrite list_lookup_alter. case_decide as Heq.
  - rewrite <-Heq.
    destruct (lookup_lt_is_Some_2 words (N.to_nat (d / 64))) as [w Hw].
    { rewrite Hlen. unfold WORDS. assert (d / 64 < 16) by (apply N.Div0.div_lt_upper_bound; lia). lia. }
    rewrite Hw. simpl.
    rewrite N.lor_spec, orb_comm, N.shiftl_1_l, N.pow2_bits_eqb.
    f_equal. pose proof (N.div_mod d 64). pose proof (N.div_mod d' 64).
    destruct (N.eqb_spec d d') as [->|]; [apply N.eqb_refl|apply N.eqb_neq; lia].
  - destruct (N.eqb_spec d d') as [->|]; [done|]. done.
Qed.

Lemma bit_repeat n d : bit_is_set (repeat 0 n) d = false.
Proof.
  rewrite bit_is_set_testbit. unfold word.
  destruct (repeat 0 n !! _) as [w|] eqn:Hw; [|apply N.bits_0].
  apply list_elem_of_lookup_2, list_elem_of_In, repeat_spec in Hw as ->. apply N.bits_0.
Qed.

Lemma length_shift_loop words advance fuel d shifted :
  length (shift_loop words advance fuel d shifted) = length shifted.
Proof.
  revert d shifted. induction fuel as [|fuel IH]; intros d shifted; cbn [shift_loop]; [done|].
  rewrite IH. destruct (bit_is_set words d); [apply length_set_bit|done].
Qed.

Lemma bit_shift_loop words advance fuel d shifted d' :
  length shifted = WORDS → d + N.of_nat fuel + advance = REPLAY_WINDOW_SIZE →
  d' < REPLAY_WINDOW_SIZE →
  bit_is_set (shift_loop words advance fuel d shifted) d'
  = bit_is_set shifted d' || ((d + advance <=? d') && bit_is_set words (d' - advance)).
Proof.
  revert d shifted. induction fuel as [|fuel IH]; intros d shifted Hlen Hf Hd'; cbn [shift_loop].
  - rewrite (proj2 (N.leb_gt _ _)) by lia. by rewrite orb_false_r.
  - rewrite IH; [| |lia|done].
    2: { destruct (bit_is_set words d); [by rewrite length_set_bit|done]. }
    assert (Hsplit : bit_is_set (if bit_is_set words d then set_bit shifted (d + advance)
                                 else shifted) d'
                     = bit_is_set shifted d' || ((d + advance =? d') && bit_is_set words d)).
    { destruct (bit_is_set words d).
      - rewrite bit_set_bit by (done || lia). by rewrite andb_true_r, orb_comm.
      - by rewrite andb_false_r, orb_false_r. }
    rewrite Hsplit, <-orb_assoc. f_equal.
    destruct (N.eqb_spec (d + advance) d') as [<-|Hne].
    + rewrite N.add_sub, (proj2 (N.leb_gt _ _)) by lia.
      by rewrite N.leb_refl, orb_false_r.
    + cbn. f_equal. destruct (N.leb_spec (d + advance) d'), (N.leb_spec (d + 1 + advance) d'); lia.
Qed.

(** Shifting moves each bit up and drops those that leave the window. *)
Lemma bit_shift words advance d :
  length words = WORDS → d < REPLAY_WINDOW_SIZE →
  bit_is_set (shift words advance) d = (advance <=? d) && bit_is_set words (d - advance).
Proof.
  intros Hlen Hd. unfold shift. destruct (N.leb_spec REPLAY_WINDOW_SIZE advance).
  - rewrite bit_repeat, (proj2 (N.leb_gt _ _)) by lia. done.
  - rewrite bit_shift_loop; [|apply repeat_length|lia|done]. by rewrite bit_repeat.
Qed.

Lemma length_shift words advance : length words = WORDS → length (shift words advance) = WORDS.
Proof.
  intros Hlen. unfold shift. destruct (_ <=? _); [by rewrite repeat_length|].
  rewrite length_shift_loop. apply repeat_length.
Qed.

(** ** Refinement to the accepted numbers *)

Record window_refines (w : ReplayWindowState) (accepted : list u64) : Prop := {
  wr_words : length (seen w) = WORDS;
  wr_highest : match highest_seen w with
               | None => accepted = []
               | Some h => h ∈ accepted ∧ ∀ a, a ∈ accepted → u64_N a <= u64_N h
               end;
  wr_bits d : d < REPLAY_WINDOW_SIZE →
    bit_is_set (seen w) d = true ↔
    ∃ h a, highest_seen w = Some h ∧ a ∈ accepted ∧ u64_N a + d = u64_N h;
}.

Lemma refines_default : window_refines default_window [].
Proof.
  split; [apply repeat_length|done|]. intros d _.
  change (seen default_window) with (repeat 0 WORDS). rewrite bit_repeat.
  split; [done|]. by intros (h & a & ? & _).
Qed.

(** What the window promises: a number is accepted when it is new and less than
    [REPLAY_WINDOW_SIZE] below every accepted number. *)
Definition fresh (accepted : list u64) (s : u64) : Prop :=
  (s ∉ accepted) ∧ ∀ a, a ∈ accepted → u64_N a < u64_N s + REPLAY_WINDOW_SIZE.

Lemma check_refines w accepted s :
  window_refines w accepted → (check w s = Ok tt) ↔ fresh accepted s.
Proof.
  intros [Hlen Hh Hb]. unfold check, fresh. destruct (highest_seen w) as [h|].
  2: { subst. split; [|done]. intros _.
       split; [apply not_elem_of_nil|]. by intros a ?%not_elem_of_nil. }
  destruct Hh as [Hin Hmax]. destruct (N.ltb_spec (u64_N h) (u64_N s)) as [Hlt|Hle].
  { split; [|done]. intros _. split; [intros Hs%Hmax; lia|]. intros a Ha%Hmax. lia. }
  destruct (N.leb_spec REPLAY_WINDOW_SIZE (u64_N h - u64_N s)) as [Hd|Hd]; cbn.
  { split; [done|]. intros [_ Hs]. apply Hs in Hin. lia. }
  specialize (Hb _ Hd). destruct (bit_is_set _ _).
  - split; [done|]. intros [Hs _]. destruct Hs.
    destruct (proj1 Hb eq_refl) as (h' & a & [= <-] & Ha & Heq).
    assert (s = a) as -> by (apply u64_eq; lia). done.
  - split; [|done]. intros _. split.
    + intros Hs. assert (false = true); [|done]. apply Hb. exists h, s. split; [done|].
      split; [done|]. lia.
    + intros a Ha%Hmax. lia.
Qed.

Lemma accept_check w s w' : accept w s = Ok w' → check w s = Ok tt.
Proof. unfold accept. by destruct (check w s) as [[]|]. Qed.

Lemma accept_refines w accepted s w' :
  window_refines w accepted → accept w s = Ok w' → window_refines w' (s :: accepted).
Proof.
  intros Hw Ha. pose proof (accept_check _ _ _ Ha) as Hc.
  pose proof Hw as [Hlen Hh Hb]. unfold accept in Ha. rewrite Hc in Ha. cbn in Ha.
  assert (Hz : 0 < REPLAY_WINDOW_SIZE) by done.
  destruct (highest_seen w) as [h|] eqn:Eh; injection Ha as <-; cycle 1.
  { subst. split; cbn.
    - by rewrite length_set_bit.
    - split; [left|]. intros a [->|?%not_elem_of_nil]%elem_of_cons; [lia|done].
    - intros d Hd. rewrite bit_set_bit by done. rewrite orb_true_iff, N.eqb_eq, Hb by done. split.
      + intros [<-|(? & ? & ? & _)]; [|done]. exists s, s. split; [done|]. split; [left|lia].
      + intros (h' & a & [= <-] & [->|?%not_elem_of_nil]%elem_of_cons & ?); [left; lia|done]. }
  destruct Hh as [Hin Hmax]. destruct (N.ltb_spec (u64_N h) (u64_N s)) as [Hlt|Hle].
  - split; cbn.
    + by rewrite length_set_bit, length_shift.
    + split; [left|]. intros a [->|?%Hmax]%elem_of_cons; lia.
    + intros d Hd. rewrite bit_set_bit by (done || by apply length_shift).
      rewrite bit_shift by done. rewrite orb_true_iff, N.eqb_eq, andb_true_iff, N.leb_le. split.
      * intros [<-|[Hle Hbit]]; [exists s, s; split; [done|]; split; [left|lia]|].
        apply Hb in Hbit as (h' & a & [= <-] & Ha & Heq); [|lia].
        exists s, a. split; [done|]. split; [by right|lia].
      * intros (h' & a & [= <-] & [->|Ha]%elem_of_cons & Heq); [left; lia|right].
        pose proof (Hmax _ Ha). split; [lia|]. apply Hb; [lia|]. exists h, a. split; [done|].
        split; [done|]. lia.
  - assert (Hd0 : u64_N h - u64_N s < REPLAY_WINDOW_SIZE).
    { apply (check_refines _ _ _ Hw) in Hc as [_ Hf]. apply Hf in Hin. lia. }
    split; cbn.
    + by rewrite length_set_bit.
    + split; [by right|]. intros a [->|?%Hmax]%elem_of_cons; lia.
    + intros d Hd. rewrite bit_set_bit by done. rewrite orb_true_iff, N.eqb_eq, Hb by done. split.
      * intros [<-|(h' & a & [= <-] & Ha & Heq)].
        -- exists h, s. split; [done|]. split; [left|lia].
        -- exists h, a. split; [done|]. split; [by right|lia].
      * intros (h' & a & [= <-] & [->|Ha]%elem_of_cons & Heq); [left; lia|right]. eauto.
Qed.

(** An accepted number was fresh, and a fresh number is accepted. *)
Lemma accept_fresh w accepted s :
  window_refines w accepted → (∃ w', accept w s = Ok w') ↔ fresh accepted s.
Proof.
  intros Hw. rewrite <-(check_refines _ _ _ Hw). split.
  - intros [w' Ha]. by eapply accept_check.
  - intros Hc. unfold accept. rewrite Hc. cbn. eauto.
Qed.

Lemma accept_err w s e : accept w s = Err e → e = ReplayRejected.
Proof.
  unfold accept, check. destruct (highest_seen w); cbn; [|done].
  repeat case_match; cbn; congruence.
Qed.

Lemma offer_refines w accepted l w' accepted' :
  window_refines w accepted → NoDup accepted → offer w accepted l = (w', accepted') →
  window_refines w' accepted' ∧ NoDup accepted' ∧ accepted ⊆ accepted'.
Proof.
  revert w accepted. induction l as [|s l IH]; intros w accepted Hw Hnd; cbn [offer].
  - by intros [= <- <-].
  - destruct (accept w s) as [w1|] eqn:Ha; [|by apply IH].
    intros Ho. apply IH in Ho as (? & ? & ?).
    + split; [done|]. split; [done|]. set_solver.
    + by eapply accept_refines.
    + constructor; [|done]. apply (accept_fresh _ _ _ Hw). eauto.
Qed.

(** ** Claims *)

(** C24: at every point of any sequence of offers to a new window, the window's check accepts
    exactly the sequence numbers that were never accepted and lie less than 1024 below every
    accepted one; any other is refused as a replay.  The sixteen-word bitmap, its shift and its
    bit arithmetic therefore implement the list of accepted numbers. *)
Theorem replay_window_exact l w accepted s :
  offer default_window [] l = (w, accepted) →
  ((check w s = Ok tt) ↔ (s ∉ accepted) ∧ ∀ a, a ∈ accepted → u64_N a < u64_N s + REPLAY_WINDOW_SIZE)
  ∧ (check w s = Ok tt ∨ check w s = Err ReplayRejected).
Proof.
  intros Ho. apply offer_refines in Ho as (Hw & _ & _); [|apply refines_default|constructor].
  split; [by apply check_refines|]. unfold check.
  destruct (highest_seen w); [|by left]. repeat case_match; auto.
Qed.

Lemma replay_window_exact_witness :
  ∃ w accepted,
    offer default_window [] [u64! 5; u64! 2000; u64! 976; u64! 977; u64! 977] = (w, accepted)
    ∧ ((check w (u64! 977) = Ok tt) ↔ (u64! 977 ∉ accepted)
         ∧ ∀ a, a ∈ accepted → u64_N a < u64_N (u64! 977) + REPLAY_WINDOW_SIZE).
Proof.
  eexists _, _. split; [vm_compute; reflexivity|].
  apply (replay_window_exact [u64! 5; u64! 2000; u64! 976; u64! 977; u64! 977]).
  vm_compute. reflexivity.
Defined.

(** No sequence number is ever accepted twice by one window, whatever is offered. *)
Theorem replay_never_twice l : NoDup (offer default_window [] l).2.
Proof.
  destruct (offer default_window [] l) as [w accepted] eqn:Ho.
  by apply offer_refines in Ho as (_ & ? & _); [|apply refines_default|constructor].
Qed.
