(* ===== verification/Crypto.v ===== *)
(** * Signatures, key encapsulation and identities ([crypto/sign.rs], [crypto/identity.rs])

    The ML-DSA-65, X-Wing and HKDF crates are parameters with their documented laws; the
    checks the code wraps around them are definitions. *)
From S2P Require Export StateEncoding.
From Stdlib Require Import Lia ZifyN ZifyNat.

Open Scope N_scope.

(** The [ml_dsa] crate: keys and signatures parsed from bytes, FIPS 204 signing with a
    context, and verification of what was signed under the same context. *)
Class MlDsa65 := {
  VerifyingKey : Type;
  MlDsaSignature : Type;
  verifying_key_of_slice : bytes → option VerifyingKey;
  signature_of_slice : bytes → option MlDsaSignature;
  verify_with_context : VerifyingKey → bytes → bytes → MlDsaSignature → bool;
  (** [signing_key(seed).verifying_key().encode()] *)
  mldsa_verification_key : array 32 → bytes;
  (** [sign_deterministic(message, context)]; [None] when the context is too long. *)
  sign_deterministic : array 32 → bytes → bytes → option bytes;
  sign_deterministic_verifies seed message context signature :
    sign_deterministic seed message context = Some signature →
    ∃ key sig,
      verifying_key_of_slice (mldsa_verification_key seed) = Some key
      ∧ signature_of_slice signature = Some sig
      ∧ verify_with_context key message context sig = true;
}.

(** The [x_wing] crate. *)
Class XWing := {
  encapsulation_key_valid : bytes → bool;
  xwing_public_key : array 32 → bytes;
  (** A key, 64 bytes of randomness, and the ciphertext with the shared secret. *)
  encapsulate_deterministic : bytes → array 64 → option (array 32 * bytes);
  xwing_decapsulate : array 32 → bytes → option (array 32);
  xwing_public_key_valid seed : encapsulation_key_valid (xwing_public_key seed) = true;
  xwing_correct seed random secret ciphertext :
    encapsulate_deterministic (xwing_public_key seed) random = Some (secret, ciphertext) →
    xwing_decapsulate seed ciphertext = Some secret;
}.

(** The [aes_gcm] crate: AES-256-GCM under a key, a nonce and associated data. *)
Class AesGcm := {
  gcm_encrypt : array 32 → array 12 → bytes → bytes → option bytes;
  gcm_decrypt : array 32 → array 12 → bytes → bytes → option bytes;
  gcm_decrypt_encrypt key nonce aad message ciphertext :
    gcm_encrypt key nonce aad message = Some ciphertext →
    gcm_decrypt key nonce aad ciphertext = Some message;
}.

(** [Hkdf::<Sha256>::new(Some(&[]), secret).expand(info, 32 bytes)]. *)
Class HkdfSha256 := hkdf_expand : array 32 → bytes → array 32.

Definition IDENTITY_CONTEXT : bytes := bstr "qfs/v1/id".
Definition WRAP_CONTEXT : bytes := bstr "qfs/v1/wrap".
Definition MANIFEST_CONTEXT : bytes := bstr "qfs/v1/manifest".
Definition FLUSH_CONTEXT : bytes := bstr "qfs/v1/flush".
Definition DIRECTORY_CONTEXT : bytes := bstr "qfs/v1/dir".
Definition JOIN_CONTEXT : bytes := bstr "qfs/v1/join".

Definition require_protocol_context (context : bytes) : Result unit :=
  if bool_decide (context = IDENTITY_CONTEXT) || bool_decide (context = WRAP_CONTEXT)
     || bool_decide (context = MANIFEST_CONTEXT) || bool_decide (context = FLUSH_CONTEXT)
     || bool_decide (context = DIRECTORY_CONTEXT) || bool_decide (context = JOIN_CONTEXT)
  then Ok tt
  else Err (InvalidInput "unsupported ML-DSA context").

Section sign.
Context `{MlDsa65}.

(** [RustCryptoPureMlDsa::sign] with a signing key's seed. *)
Definition sign (seed : array 32) (context message : bytes) : Result bytes :=
  let? _ := require_protocol_context context in
  ok_or (sign_deterministic seed message context) AuthenticationFailed.

Definition verify (verification_key context message signature : bytes) : Result unit :=
  let? _ := require_protocol_context context in
  let? key := ok_or (verifying_key_of_slice verification_key) AuthenticationFailed in
  let? signature := ok_or (signature_of_slice signature) AuthenticationFailed in
  if verify_with_context key message context signature then Ok tt
  else Err AuthenticationFailed.

Lemma sign_verify seed context message signature :
  sign seed context message = Ok signature →
  verify (mldsa_verification_key seed) context message signature = Ok tt.
Proof.
  unfold sign, verify. destruct (require_protocol_context context) as [[]|]; [|done]. cbn.
  destruct (sign_deterministic seed message context) as [s|] eqn:Hs; [|done].
  cbn. intros [= ->]. apply sign_deterministic_verifies in Hs as (key & sig & -> & -> & Hv).
  cbn. by rewrite Hv.
Qed.
End sign.

Definition validate_public_key `{XWing} (l : bytes) : Result unit :=
  if encapsulation_key_valid l then Ok tt else Err AuthenticationFailed.

(** ** Identities *)

Section identity.
Context `{Sha256, MlDsa65, XWing}.

Definition verify_identity (document : IdentityDocument) : Result unit :=
  let? _ := validate_public_key (doc_ek document) in
  if negb (bool_decide (doc_peer_id document = peer_id (doc_vk document)))
  then Err AuthenticationFailed
  else
    let? m := identity_m document in
    verify (doc_vk document) IDENTITY_CONTEXT m (doc_signature document).

(** [LocalIdentity], its two key handles as their seeds. *)
Record LocalIdentity := mkLocalIdentity {
  li_document : IdentityDocument;
  li_signing_seed : array 32;
  li_kem_seed : array 32;
}.

Definition from_seeds (signing_seed kem_seed : array 32) (document : IdentityDocument)
    : Result LocalIdentity :=
  let? _ := verify_identity document in
  if negb (bool_decide (doc_vk document = mldsa_verification_key signing_seed))
     || negb (bool_decide (doc_ek document = xwing_public_key kem_seed))
  then Err AuthenticationFailed
  else Ok (mkLocalIdentity document signing_seed kem_seed).

(** [LocalIdentity::new] *)
Definition new_identity (signing_seed kem_seed : array 32) (created_at : u64)
    : Result LocalIdentity :=
  let vk := mldsa_verification_key signing_seed in
  let document := mkIdentityDocument (peer_id vk) (xwing_public_key kem_seed) vk created_at [] in
  let? m := identity_m document in
  let? signature := sign signing_seed IDENTITY_CONTEXT m in
  Ok (mkLocalIdentity
        (mkIdentityDocument (peer_id vk) (xwing_public_key kem_seed) vk created_at signature)
        signing_seed kem_seed).

(** [LocalIdentity::generate] and [rotate_ek], the entropy and the clock as arguments. *)
Definition generate (signing_seed kem_seed : array 32) (now : u64) : Result LocalIdentity :=
  new_identity signing_seed kem_seed now.

Definition rotate_ek (local : LocalIdentity) (kem_seed : array 32) (now : u64)
    : Result LocalIdentity :=
  let? next_created_at :=
    ok_or (u64_checked_add (doc_created_at (li_document local)) 1)
      (State "identity creation time exhausted") in
  new_identity (li_signing_seed local) kem_seed (u64_max now next_created_at).

(** *** The identity file *)

Definition LOCAL_IDENTITY_MAGIC : bytes := bstr "qfs/local/identity/".

Definition encode_local_identity (local : LocalIdentity) : Result bytes :=
  let? document_m := identity_m (li_document local) in
  put LOCAL_IDENTITY_MAGIC +++ put_byte LOCAL_FORMAT_VERSION
  +++ put (array_bytes (li_signing_seed local)) +++ put (array_bytes (li_kem_seed local))
  +++ push_variable document_m +++ push_variable (doc_signature (li_document local)).

Definition dec_local_identity : Dec (array 32 * array 32 * bytes * bytes) :=
  let! _ := require_prefix LOCAL_IDENTITY_MAGIC in
  let! _ := require_version in
  let! signing_seed := dec_array 32 in
  let! kem_seed := dec_array 32 in
  let! document_m := dec_variable in
  let! signature := dec_variable in
  let! _ := finish in
  dec_ret (signing_seed, kem_seed, document_m, signature).

Definition decode_local_identity (l : bytes) : Result LocalIdentity :=
  let? (signing_seed, kem_seed, document_m, signature) := run dec_local_identity l in
  let? document := decode_identity_document document_m signature in
  from_seeds signing_seed kem_seed document.

Lemma new_identity_Ok signing_seed kem_seed created_at local :
  new_identity signing_seed kem_seed created_at = Ok local →
  from_seeds signing_seed kem_seed (li_document local) = Ok local
  ∧ doc_created_at (li_document local) = created_at
  ∧ li_signing_seed local = signing_seed
  ∧ doc_peer_id (li_document local) = peer_id (mldsa_verification_key signing_seed).
Proof.
  unfold new_identity. destruct (identity_m _) as [m|] eqn:Hm; [|done]. cbn [res_bind].
  destruct (sign _ _ _) as [s|] eqn:Hs; [|done]. cbn [res_bind]. intros [= <-]. cbn.
  split; [|done]. unfold from_seeds, verify_identity, validate_public_key. cbn.
  rewrite xwing_public_key_valid. cbn.
  rewrite bool_decide_eq_true_2 by done. cbn.
  unfold identity_m in *. cbn in *. rewrite Hm. cbn. rewrite (sign_verify _ _ _ _ Hs). cbn.
  by rewrite !bool_decide_eq_true_2.
Qed.
End identity.

(** ** Concrete instances

    Signatures that spell out what they sign and a key encapsulation that reveals its secret:
    not secure, but they satisfy the laws, so theorems stated under them can be evaluated. *)

Program Definition sample_mldsa : MlDsa65 := {|
  VerifyingKey := bytes;
  MlDsaSignature := bytes;
  verifying_key_of_slice := Some;
  signature_of_slice := Some;
  verify_with_context key message context signature :=
    bool_decide (signature = key ++ context ++ message);
  mldsa_verification_key := array_bytes;
  sign_deterministic seed message context := Some (array_bytes seed ++ context ++ message);
|}.
Next Obligation.
  intros seed message context signature [= <-]. eexists _, _.
  split; [done|]. split; [done|]. by apply bool_decide_eq_true.
Qed.

(** A cipher that prefixes the message with what it must be opened under. *)
Program Definition sample_gcm : AesGcm := {|
  gcm_encrypt key nonce aad message :=
    Some (array_bytes key ++ array_bytes nonce ++ aad ++ message);
  gcm_decrypt key nonce aad ciphertext :=
    let header := array_bytes key ++ array_bytes nonce ++ aad in
    if bool_decide (firstn (length header) ciphertext = header)
    then Some (skipn (length header) ciphertext) else None;
|}.
Next Obligation.
  intros key nonce aad message ciphertext. cbn [gcm_encrypt]. intros [= <-].
  rewrite !app_assoc, <-(app_assoc key).
  rewrite take_app_length, drop_app_length. by rewrite bool_decide_eq_true_2.
Qed.

Definition sample_hkdf : HkdfSha256 := λ secret _, secret.

Definition first_32 (l : bytes) : option (array 32) := array_of_bytes 32 (firstn 32 l).

Program Definition sample_xwing : XWing := {|
  encapsulation_key_valid l := bool_decide (lenN l = 32);
  xwing_public_key := array_bytes;
  encapsulate_deterministic ek random :=
    option_map (λ secret, (secret, array_bytes random)) (first_32 (array_bytes random));
  xwing_decapsulate seed ciphertext := first_32 ciphertext;
|}.
Next Obligation.
  intros seed. apply bool_decide_eq_true. unfold lenN. by rewrite length_array.
Qed.
Next Obligation.
  intros seed random secret ciphertext. cbn.
  destruct (first_32 random) eqn:E; cbn; [|done]. intros [= <- <-]. done.
Qed.

Section claims.
Context `{Sha256, MlDsa65, XWing}.

Lemma decode_local_identity_encode local l :
  fits l → from_seeds (li_signing_seed local) (li_kem_seed local) (li_document local) = Ok local →
  encode_local_identity local = Ok l → decode_local_identity l = Ok local.
Proof.
  intros Hl Hseeds He. unfold encode_local_identity in He.
  destruct (identity_m (li_document local)) as [m|] eqn:Hm; [|done]. cbn [res_bind] in He.
  assert (Hrun : run dec_local_identity l
    = Ok (li_signing_seed local, li_kem_seed local, m, doc_signature (li_document local))).
  { eapply run_spec; [typeclasses eauto| |done|].
    { cbn beta. intros. codec_destruct. by subst. }
    cbn beta. unfold encodes. codec_destruct. subst. codec_split; codec_solve. }
  unfold decode_local_identity. rewrite Hrun. cbn [res_bind].
  assert (decode_identity_document m (doc_signature (li_document local)) = Ok (li_document local))
    as ->; [|done].
  apply (signed_iff (dec := decode_identity_document)); [|done].
  codec_destruct. fits_tac.
Qed.

(** An identity that [generate] or [rotate_ek] returns verifies, keeps the principal of its
    signing key, and is read back from its own file exactly as it was: the file's two seeds
    rebuild the keys the document names. *)
Theorem local_identity_roundtrip signing_seed kem_seed created_at local l :
  new_identity signing_seed kem_seed created_at = Ok local →
  encode_local_identity local = Ok l → fits l →
  verify_identity (li_document local) = Ok tt
  ∧ doc_peer_id (li_document local) = peer_id (mldsa_verification_key signing_seed)
  ∧ decode_local_identity l = Ok local.
Proof.
  intros Hn He Hl. pose proof (new_identity_Ok _ _ _ _ Hn) as (Hs & _ & Hseed & Hp).
  split; [|split; [done|]].
  - unfold from_seeds in Hs. by destruct (verify_identity _) as [[]|].
  - apply decode_local_identity_encode; [done| |done]. rewrite Hseed.
    unfold new_identity in Hn. destruct (identity_m _); [|done]. cbn in Hn.
    destruct (sign _ _ _); [|done]. injection Hn as <-. exact Hs.
Qed.
End claims.

Lemma local_identity_roundtrip_witness :
  let seed := array_N 32 7 in
  ∃ local l,
    @new_identity sample_sha256 sample_mldsa sample_xwing seed seed (u64! 5) = Ok local
    ∧ @decode_local_identity sample_sha256 sample_mldsa sample_xwing l = Ok local.
Proof.
  intros seed.
  destruct (@new_identity sample_sha256 sample_mldsa sample_xwing seed seed (u64! 5))
    as [local|] eqn:Hn; [|vm_compute in Hn; discriminate Hn].
  assert (Hl : @from_seeds sample_sha256 sample_mldsa sample_xwing seed seed (li_document local)
    = Ok local) by apply (@new_identity_Ok sample_sha256 sample_mldsa sample_xwing _ _ _ _ Hn).
  destruct (@encode_local_identity local) as [l|] eqn:He.
  2: { exfalso. clear Hl. vm_compute in Hn. injection Hn as <-. vm_compute in He. discriminate He. }
  exists local, l. split; [done|].
  apply (@local_identity_roundtrip sample_sha256 sample_mldsa sample_xwing seed seed (u64! 5));
    [exact Hn|exact He|].
  clear Hl. vm_compute in Hn. injection Hn as <-. vm_compute in He. injection He as <-.
  vm_compute. reflexivity.
Defined.
