(* ===== verification/Directory.v ===== *)
(** * The join-code directory ([net/directory.rs])

    The directory server's store of signed advertisements: publishing, looking up and retiring
    a vault's route, expiry, the per-peer and total caps, the issue-time watermarks that reject
    replays, and the file the store is written to and reopened from.  Sockets and the clock
    are inputs; the outcome of each file write is an input of the operation that performs it. *)
From S2P Require Export Crypto.
From Stdlib Require Import Lia ZifyN ZifyNat.

Open Scope N_scope.

Definition MAX_AD_AGE_SECS : N := 7 * 24 * 60 * 60.
Definition MAX_FUTURE_SKEW_SECS : N := 120.
Definition MAX_ADS_PER_PEER : N := 32.
Definition MAX_TOTAL_ADS : N := 10000.
Definition MAX_STATE_BYTES : N := 128 * 1024 * 1024.

Definition DIR_LOOKUP_KIND : N := 5.
Definition DIR_AD_KIND : N := 6.
Definition DIR_PUT_KIND : N := 7.
Definition DIR_FORGET_KIND : N := 8.

(** [now.saturating_add(n)] *)
Definition u64_saturating_add (a : u64) (n : N) : N := N.min (u64_N a + n) (u64_limit - 1).

(** [now.saturating_sub(issued_at) > MAX_AD_AGE_SECS] *)
Definition is_expired (issued_at now : u64) : bool :=
  MAX_AD_AGE_SECS <? u64_N now - u64_N issued_at.

Definition require_current (issued_at now : u64) : Result unit :=
  if u64_saturating_add now MAX_FUTURE_SKEW_SECS <? u64_N issued_at
  then Err (InvalidInput "directory record is too far in the future")
  else if is_expired issued_at now
  then Err (InvalidInput "directory record is expired")
  else Ok tt.

Section directory.
Context `{Sha256, SocketAddrs, MlDsa65, XWing}.

Definition require_advertisable (addr : SocketAddr) : Result unit :=
  if (addr_port addr =? 0) || addr_is_unspecified addr
  then Err (InvalidInput "directory address is not connectable")
  else Ok tt.

Definition verify_ad_signature (ad : DirectoryAd) : Result unit :=
  let? _ := require_advertisable (ad_addr ad) in
  let? _ := validate_public_key (ad_ek ad) in
  if negb (bool_decide (ad_peer_id ad = peer_id (ad_vk ad)))
  then Err AuthenticationFailed
  else
    let? m := directory_ad_m ad in
    verify (ad_vk ad) DIRECTORY_CONTEXT m (ad_signature ad).

Definition verify_ad (ad : DirectoryAd) (now : u64) : Result unit :=
  let? _ := require_current (ad_issued_at ad) now in
  verify_ad_signature ad.

(** [DirectoryAd::sign], the identity and the signing seed of the key store as arguments. *)
Definition sign_ad (identity : IdentityDocument) (seed : array 32) (vault_id : VaultId)
    (addr : SocketAddr) (issued_at : u64) : Result DirectoryAd :=
  let? _ := require_advertisable addr in
  let ad signature :=
    mkDirectoryAd (doc_peer_id identity) vault_id addr (doc_ek identity) (doc_vk identity)
      issued_at signature in
  let? m := directory_ad_m (ad []) in
  let? signature := sign seed DIRECTORY_CONTEXT m in
  Ok (ad signature).

Definition verify_forget (request : DirForget) (verification_key : bytes) (now : u64)
    : Result unit :=
  let? _ := require_current (df_issued_at request) now in
  if negb (bool_decide (df_peer_id request = peer_id verification_key))
  then Err AuthenticationFailed
  else
    let? m := dir_forget_m request in
    verify verification_key DIRECTORY_CONTEXT m (df_signature request).

(** The store; [ds_file] is the file at [path]. *)
Record DirectoryStore := mkDirectoryStore {
  ds_ads : gmap JoinCode DirectoryAd;
  ds_watermarks : gmap (PeerId * VaultId) DirectoryWatermark;
  ds_failed : bool;
  ds_file : option bytes;
}.

Definition Dir (A : Type) : Type := SM DirectoryStore A.

Definition require_healthy : Dir unit :=
  do! s := sm_get in
  check! negb (ds_failed s)
    else State "directory persistence failed; reopen required" in
  sm_ret tt.

Definition pruned (now : u64)
    : Dir (gmap JoinCode DirectoryAd * gmap (PeerId * VaultId) DirectoryWatermark) :=
  do! s := sm_get in
  sm_ret (filter (λ p, is_expired (ad_issued_at p.2) now = false) (ds_ads s),
          filter (λ p, is_expired (dw_issued_at p.2) now = false) (ds_watermarks s)).

Definition state_of (ads : gmap JoinCode DirectoryAd)
    (watermarks : gmap (PeerId * VaultId) DirectoryWatermark) : DirectoryState :=
  mkDirectoryState (sorted_entries ads) (map_values watermarks).

(** [atomic_private_write]: the size check, then the write. *)
Definition atomic_private_write (io : WriteOutcome) (content : bytes) : Dir unit :=
  do! s := sm_get in
  if MAX_STATE_BYTES <? lenN content
  then sm_err (InvalidInput "directory store is too large")
  else
    match io with
    | Written =>
        sm_put (mkDirectoryStore (ds_ads s) (ds_watermarks s) (ds_failed s) (Some content))
    | WriteFailed e renamed =>
        do! _ := sm_put (mkDirectoryStore (ds_ads s) (ds_watermarks s) (ds_failed s)
                           (if renamed then Some content else ds_file s)) in
        sm_err e
    end.

(** Any error of the write leaves the store failed and its maps unchanged. *)
Definition commit (io : WriteOutcome) (ads : gmap JoinCode DirectoryAd)
    (watermarks : gmap (PeerId * VaultId) DirectoryWatermark) : Dir unit :=
  do! content := sm_lift (encode_directory_state (state_of ads watermarks)) in
  λ s,
    match atomic_private_write io content s with
    | (Ok _, s') => (Ok tt, mkDirectoryStore ads watermarks (ds_failed s') (ds_file s'))
    | (Err e, s') =>
        (Err e, mkDirectoryStore (ds_ads s') (ds_watermarks s') true (ds_file s'))
    end.

(** [ads.values().filter(|existing| existing.peer_id == peer).count()] *)
Definition count_peer (l : list DirectoryAd) (peer : PeerId) : N :=
  lenN (filter (λ ad, ad_peer_id ad = peer) l).
Definition peer_count (ads : gmap JoinCode DirectoryAd) (peer : PeerId) : N :=
  count_peer (map_values ads) peer.

Definition watermark_of_ad (ad : DirectoryAd) : DirectoryWatermark :=
  mkDirectoryWatermark (ad_peer_id ad) (ad_vault_id ad) (ad_issued_at ad) (ad_vk ad).

(** [DirectoryStore::put] *)
Definition dir_put (io : WriteOutcome) (code : JoinCode) (ad : DirectoryAd) (now : u64)
    : Dir unit :=
  do! _ := require_healthy in
  do! _ := sm_lift (verify_ad ad now) in
  do! (ads, watermarks) := pruned now in
  let existing := ads !! code in
  check! match existing with
         | Some existing => bool_decide (ad_peer_id existing = ad_peer_id ad)
         | None => true
         end else AuthenticationFailed in
  let pair := (ad_peer_id ad, ad_vault_id ad) in
  check! match watermarks !! pair with
         | Some watermark => negb (u64_N (ad_issued_at ad) <=? u64_N (dw_issued_at watermark))
         | None => true
         end else ReplayRejected in
  check! negb (bool_decide (watermarks !! pair = None) && (MAX_TOTAL_ADS <=? map_len watermarks))
    else InvalidInput "directory watermark cap reached" in
  let replaces_same_peer :=
    match existing with
    | Some existing => bool_decide (ad_peer_id existing = ad_peer_id ad)
    | None => false
    end in
  check! negb (negb replaces_same_peer
               && (MAX_ADS_PER_PEER <=? peer_count ads (ad_peer_id ad)))
    else InvalidInput "directory peer ad cap reached" in
  check! negb (bool_decide (existing = None) && (MAX_TOTAL_ADS <=? map_len ads))
    else InvalidInput "directory ad cap reached" in
  commit io (<[code := ad]> ads) (<[pair := watermark_of_ad ad]> watermarks).

(** [DirectoryStore::lookup]: it commits when pruning removed something. *)
Definition dir_lookup (io : WriteOutcome) (code : JoinCode) (now : u64)
    : Dir (option DirectoryAd) :=
  do! _ := require_healthy in
  do! (ads, watermarks) := pruned now in
  do! s := sm_get in
  do! _ :=
    (if negb (map_len ads =? map_len (ds_ads s))
        || negb (map_len watermarks =? map_len (ds_watermarks s))
     then commit io ads watermarks
     else sm_ret tt) in
  do! s := sm_get in
  sm_ret (ds_ads s !! code).

(** [DirectoryStore::forget] *)
Definition dir_forget (io : WriteOutcome) (request : DirForget) (now : u64) : Dir unit :=
  do! _ := require_healthy in
  do! (ads, watermarks) := pruned now in
  check! match ads !! df_join_code request with
         | Some existing =>
             bool_decide (ad_peer_id existing = df_peer_id request)
             && bool_decide (ad_vault_id existing = df_vault_id request)
         | None => true
         end else AuthenticationFailed in
  let pair := (df_peer_id request, df_vault_id request) in
  do! watermark := sm_lift (ok_or (watermarks !! pair) AuthenticationFailed) in
  do! _ := sm_lift (verify_forget request (dw_vk watermark) now) in
  check! negb (u64_N (df_issued_at request) <=? u64_N (dw_issued_at watermark))
    else ReplayRejected in
  commit io (delete (df_join_code request) ads)
    (<[pair := mkDirectoryWatermark (df_peer_id request) (df_vault_id request)
                 (df_issued_at request) (dw_vk watermark)]> watermarks).

(** ** Opening the file *)

Fixpoint open_ads (l : list (JoinCode * DirectoryAd)) (ads : gmap JoinCode DirectoryAd)
    : Result (gmap JoinCode DirectoryAd) :=
  match l with
  | [] => Ok ads
  | (code, ad) :: l =>
      let? _ := verify_ad_signature ad in
      if bool_decide (is_Some (ads !! code))
      then Err (InvalidInput "duplicate directory join code")
      else open_ads l (<[code := ad]> ads)
  end.

Fixpoint open_watermarks (l : list DirectoryWatermark)
    (watermarks : gmap (PeerId * VaultId) DirectoryWatermark)
    : Result (gmap (PeerId * VaultId) DirectoryWatermark) :=
  match l with
  | [] => Ok watermarks
  | w :: l =>
      if negb (bool_decide (dw_peer_id w = peer_id (dw_vk w))) then Err AuthenticationFailed
      else
        let key := (dw_peer_id w, dw_vault_id w) in
        if bool_decide (is_Some (watermarks !! key))
        then Err (InvalidInput "duplicate directory watermark")
        else open_watermarks l (<[key := w]> watermarks)
  end.

(** [require_peer_caps], over the values in key order. *)
Fixpoint peer_caps_loop (l : list DirectoryAd) (counts : gmap PeerId N) : Result unit :=
  match l with
  | [] => Ok tt
  | ad :: l =>
      let count := default 0 (counts !! ad_peer_id ad) + 1 in
      if MAX_ADS_PER_PEER <? count
      then Err (InvalidInput "directory peer ad cap exceeded")
      else peer_caps_loop l (<[ad_peer_id ad := count]> counts)
  end.
Definition require_peer_caps (ads : gmap JoinCode DirectoryAd) : Result unit :=
  peer_caps_loop (map_values ads) ∅.

Fixpoint require_watermarks (l : list DirectoryAd)
    (watermarks : gmap (PeerId * VaultId) DirectoryWatermark) : Result unit :=
  match l with
  | [] => Ok tt
  | ad :: l =>
      let? watermark := ok_or (watermarks !! (ad_peer_id ad, ad_vault_id ad))
        (InvalidInput "directory ad has no watermark") in
      if (u64_N (dw_issued_at watermark) <? u64_N (ad_issued_at ad))
         || negb (bool_decide (dw_vk watermark = ad_vk ad))
      then Err (InvalidInput "directory ad watermark mismatch")
      else require_watermarks l watermarks
  end.

(** [read_private]'s size bound, then the checks of [DirectoryStore::open]. *)
Definition dir_open (file : option bytes) : Result DirectoryStore :=
  let? state :=
    match file with
    | Some content =>
        if MAX_STATE_BYTES <? lenN content
        then Err (InvalidInput "directory store is too large")
        else if bool_decide (content = []) then Ok (mkDirectoryState [] [])
        else decode_directory_state content
    | None => Ok (mkDirectoryState [] [])
    end in
  let? ads := open_ads (dst_ads state) ∅ in
  let? watermarks := open_watermarks (dst_watermarks state) ∅ in
  if (MAX_TOTAL_ADS <? map_len ads) || (MAX_TOTAL_ADS <? map_len watermarks)
  then Err (InvalidInput "directory store exceeds entry cap")
  else
    let? _ := require_peer_caps ads in
    let? _ := require_watermarks (map_values ads) watermarks in
    Ok (mkDirectoryStore ads watermarks false file).

(** ** One request ([handle_connection]) *)

Definition decode_join_code (payload : bytes) : Result JoinCode :=
  ok_or (array_of_bytes 16 payload)
    (InvalidInput "directory lookup requires a 16-byte join code").

Definition decode_put (payload : bytes) : Result (JoinCode * DirectoryAd) :=
  if lenN payload <? 16 then Err (InvalidInput "directory put omits join code")
  else
    let? code := decode_join_code (firstn 16 payload) in
    let? ad := decode_directory_ad (skipn 16 payload) in
    Ok (code, ad).

(** The response frame's kind and payload; an error closes the connection. *)
Definition handle_request (io : WriteOutcome) (now : u64) (kind : N) (payload : bytes)
    : Dir (N * bytes) :=
  if kind =? DIR_LOOKUP_KIND then
    do! code := sm_lift (decode_join_code payload) in
    do! found := dir_lookup io code now in
    do! ad := sm_lift (ok_or found (InvalidInput "directory join code not found")) in
    do! content := sm_lift (encode_directory_ad ad) in
    sm_ret (DIR_AD_KIND, content)
  else if kind =? DIR_PUT_KIND then
    do! (code, ad) := sm_lift (decode_put payload) in
    do! _ := dir_put io code ad now in
    sm_ret (DIR_PUT_KIND, [])
  else if kind =? DIR_FORGET_KIND then
    do! request := sm_lift (decode_dir_forget payload) in
    do! _ := dir_forget io request now in
    sm_ret (DIR_FORGET_KIND, [])
  else sm_err (InvalidInput "unsupported directory request type").
End directory.
#[global] Arguments commit : simpl never.

(** ** The invariant: what [dir_open] requires of a file *)

Section directory_laws.
Context `{Sha256, SocketAddrs, MlDsa65, XWing}.

Definition watermark_key (w : DirectoryWatermark) : PeerId * VaultId :=
  (dw_peer_id w, dw_vault_id w).

Record dir_ok (ads : gmap JoinCode DirectoryAd)
    (watermarks : gmap (PeerId * VaultId) DirectoryWatermark) : Prop := {
  dir_signed c ad : ads !! c = Some ad → verify_ad_signature ad = Ok tt;
  dir_keyed k w : watermarks !! k = Some w → watermark_key w = k ∧ dw_peer_id w = peer_id (dw_vk w);
  dir_ads_cap : map_len ads <= MAX_TOTAL_ADS;
  dir_watermarks_cap : map_len watermarks <= MAX_TOTAL_ADS;
  dir_peer_cap p : peer_count ads p <= MAX_ADS_PER_PEER;
  dir_covered c ad : ads !! c = Some ad →
    ∃ w, watermarks !! (ad_peer_id ad, ad_vault_id ad) = Some w
         ∧ u64_N (ad_issued_at ad) <= u64_N (dw_issued_at w) ∧ dw_vk w = ad_vk ad;
}.

(** Opening the file gives these maps. *)
Definition file_holds (file : option bytes) (ads : gmap JoinCode DirectoryAd)
    (watermarks : gmap (PeerId * VaultId) DirectoryWatermark) : Prop :=
  dir_open file = Ok (mkDirectoryStore ads watermarks false file).

Record store_ok (s : DirectoryStore) : Prop := {
  st_maps : dir_ok (ds_ads s) (ds_watermarks s);
  st_file : ∃ ads watermarks, dir_ok ads watermarks ∧ file_holds (ds_file s) ads watermarks;
  st_current : ds_failed s = false → file_holds (ds_file s) (ds_ads s) (ds_watermarks s);
}.

Lemma verify_ad_signature_peer ad :
  verify_ad_signature ad = Ok tt → ad_peer_id ad = peer_id (ad_vk ad).
Proof.
  unfold verify_ad_signature. destruct (require_advertisable _) as [[]|]; [|done]. cbn.
  destruct (validate_public_key _) as [[]|]; [|done]. cbn. by case_bool_decide.
Qed.

(** *** Counting a peer's advertisements *)

Lemma count_peer_perm l l' p : l ≡ₚ l' → count_peer l p = count_peer l' p.
Proof. intros Hl. unfold count_peer, lenN. by rewrite Hl. Qed.

Lemma count_peer_cons ad l p :
  count_peer (ad :: l) p = (if bool_decide (ad_peer_id ad = p) then 1 else 0) + count_peer l p.
Proof.
  unfold count_peer. rewrite filter_cons. case_bool_decide as Hp.
  - rewrite decide_True by done. rewrite lenN_cons. lia.
  - by rewrite decide_False.
Qed.

Lemma peer_count_insert ads c ad p :
  peer_count (<[c := ad]> ads) p
  = (if bool_decide (ad_peer_id ad = p) then 1 else 0) + peer_count (delete c ads) p.
Proof.
  unfold peer_count. rewrite <-count_peer_cons. apply count_peer_perm.
  rewrite <-insert_delete_eq, map_values_perm, map_to_list_insert by apply lookup_delete_eq.
  csimpl. by rewrite map_values_perm.
Qed.

Lemma peer_count_mono ads ads' p :
  ads ⊆ ads' → peer_count ads p <= peer_count ads' p.
Proof.
  intros (k & Hk)%map_to_list_submseteq%submseteq_Permutation. unfold peer_count.
  rewrite (count_peer_perm _ _ _ (map_values_perm ads)),
    (count_peer_perm _ _ _ (map_values_perm ads')).
  rewrite (count_peer_perm (map_to_list ads').*2 ((map_to_list ads).*2 ++ k.*2)) by (by rewrite Hk, fmap_app).
  unfold count_peer. rewrite filter_app, lenN_app. lia.
Qed.

Lemma peer_count_delete_Some ads c ad p :
  ads !! c = Some ad → ad_peer_id ad = p → 1 + peer_count (delete c ads) p = peer_count ads p.
Proof.
  intros Hc Hp. rewrite <-(insert_id ads c ad Hc) at 2. rewrite peer_count_insert.
  by rewrite bool_decide_eq_true_2.
Qed.

(** *** Preservation on the maps *)

Lemma not_expired_le a w now :
  u64_N a <= u64_N w → is_expired a now = false → is_expired w now = false.
Proof. unfold is_expired. rewrite !N.ltb_ge. lia. Qed.

Lemma dir_ok_pruned ads watermarks now :
  dir_ok ads watermarks →
  dir_ok (filter (λ p, is_expired (ad_issued_at p.2) now = false) ads)
         (filter (λ p, is_expired (dw_issued_at p.2) now = false) watermarks).
Proof.
  intros [Hs Hk Ha Hw Hp Hc]. split.
  - intros c ad [Had _]%map_lookup_filter_Some. eauto.
  - intros k w [Hw' _]%map_lookup_filter_Some. eauto.
  - etransitivity; [apply map_len_mono, map_filter_subseteq|done].
  - etransitivity; [apply map_len_mono, map_filter_subseteq|done].
  - intros p. etransitivity; [apply peer_count_mono, map_filter_subseteq|done].
  - intros c ad [Had He]%map_lookup_filter_Some.
    destruct (Hc c ad Had) as (w & Hw' & Hle & Hvk). exists w.
    split; [|done]. apply map_lookup_filter_Some. split; [done|].
    by eapply not_expired_le.
Qed.

Lemma dir_ok_put ads watermarks code ad :
  dir_ok ads watermarks → verify_ad_signature ad = Ok tt →
  (∀ existing, ads !! code = Some existing → ad_peer_id existing = ad_peer_id ad) →
  (∀ w, watermarks !! (ad_peer_id ad, ad_vault_id ad) = Some w →
    u64_N (dw_issued_at w) < u64_N (ad_issued_at ad) ∧ dw_vk w = ad_vk ad) →
  (watermarks !! (ad_peer_id ad, ad_vault_id ad) = None → map_len watermarks < MAX_TOTAL_ADS) →
  (ads !! code = None → peer_count ads (ad_peer_id ad) < MAX_ADS_PER_PEER
                        ∧ map_len ads < MAX_TOTAL_ADS) →
  dir_ok (<[code := ad]> ads)
    (<[(ad_peer_id ad, ad_vault_id ad) := watermark_of_ad ad]> watermarks).
Proof.
  intros [Hs Hk Ha Hw Hp Hc] Hv Hsame Hnew Hwcap Hacap. split.
  - intros c ad' [[-> <-]|[? ?]]%lookup_insert_Some; eauto.
  - intros k w [[<- <-]|[? ?]]%lookup_insert_Some; [|eauto].
    split; [done|]. by apply verify_ad_signature_peer.
  - rewrite map_len_insert. case_bool_decide as Hn; [|done]. apply Hacap in Hn. lia.
  - rewrite map_len_insert. case_bool_decide as Hn; [|done]. apply Hwcap in Hn. lia.
  - intros p. rewrite peer_count_insert. destruct (ads !! code) as [old|] eqn:Hold.
    + case_bool_decide as He.
      * rewrite (peer_count_delete_Some _ _ old); [done|done|]. by rewrite (Hsame old).
      * etransitivity; [|apply (Hp p)].
        pose proof (peer_count_mono (delete code ads) ads p (delete_subseteq ads code)). lia.
    + rewrite delete_id by done. case_bool_decide as He; [subst|apply Hp].
      destruct (Hacap eq_refl). lia.
  - intros c ad' [[-> <-]|[Hne Hc']]%lookup_insert_Some.
    + exists (watermark_of_ad ad). by rewrite lookup_insert_eq.
    + destruct (Hc c ad' Hc') as (w & Hw' & Hle & Hvk).
      destruct (decide ((ad_peer_id ad, ad_vault_id ad) = (ad_peer_id ad', ad_vault_id ad')))
        as [Heq|Hne'].
      * rewrite <-Heq in Hw'. destruct (Hnew w Hw') as [Hlt Hvk'].
        rewrite <-Heq. exists (watermark_of_ad ad). rewrite lookup_insert_eq. cbn.
        split; [done|]. split; [lia|congruence].
      * exists w. by rewrite lookup_insert_ne.
Qed.

Lemma dir_ok_forget ads watermarks code peer vault issued_at w :
  dir_ok ads watermarks → watermarks !! (peer, vault) = Some w →
  u64_N (dw_issued_at w) < u64_N issued_at →
  dir_ok (delete code ads)
    (<[(peer, vault) := mkDirectoryWatermark peer vault issued_at (dw_vk w)]> watermarks).
Proof.
  intros [Hs Hk Ha Hw Hp Hc] Hw' Hlt.
  pose proof (delete_subseteq ads code) as Hsub. split.
  - intros c ad [_ ?]%lookup_delete_Some. eauto.
  - intros k w' [[<- <-]|[? ?]]%lookup_insert_Some; [|eauto].
    split; [done|]. cbn. destruct (Hk _ _ Hw') as [[= <- _] ?]. done.
  - etransitivity; [by apply map_len_mono|done].
  - rewrite map_len_insert. case_bool_decide; congruence || done.
  - intros p. etransitivity; [by apply peer_count_mono|done].
  - intros c ad [_ Hc']%lookup_delete_Some.
    destruct (Hc c ad Hc') as (w0 & Hw0 & Hle & Hvk).
    destruct (decide ((peer, vault) = (ad_peer_id ad, ad_vault_id ad))) as [Heq|Hne].
    + rewrite <-Heq, Hw' in Hw0. injection Hw0 as <-. rewrite <-Heq.
      eexists. rewrite lookup_insert_eq. split; [done|]. cbn. split; [lia|done].
    + exists w0. by rewrite lookup_insert_ne.
Qed.

(** *** Opening *)

Lemma open_ads_Ok l acc m :
  open_ads l acc = Ok m ↔
  NoDup l.*1 ∧ (∀ c, c ∈ l.*1 → acc !! c = None)
  ∧ (∀ c ad, (c, ad) ∈ l → verify_ad_signature ad = Ok tt) ∧ m = list_to_map l ∪ acc.
Proof.
  revert acc. induction l as [|[c ad] l IH]; intros acc; cbn [open_ads].
  - split.
    + intros [= <-]. split; [constructor|]. split; [by intros ? ?%not_elem_of_nil|].
      split; [by intros ? ? ?%not_elem_of_nil|]. cbn. by rewrite map_empty_union.
    + intros (_ & _ & _ & ->). f_equal. cbn. by rewrite map_empty_union.
  - destruct (verify_ad_signature ad) as [[]|e] eqn:Hv; cbn [res_bind]; cycle 1.
    { split; [done|]. intros (_ & _ & Hs & _). rewrite (Hs c ad) in Hv by left. done. }
    case_bool_decide as Hc.
    { split; [done|]. intros (_ & Hn & _). destruct Hc as [x Hx].
      rewrite (Hn c) in Hx by left. done. }
    rewrite <-eq_None_not_Some in Hc. rewrite IH, fmap_cons, NoDup_cons. cbn [fst list_to_map foldr].
    split.
    + intros (Hnd & Hn & Hs & ->). assert (Hcl : c ∉ l.*1).
      { intros Hin. apply Hn in Hin. by rewrite lookup_insert_eq in Hin. }
      split; [done|]. split.
      { intros c' [->|Hin]%elem_of_cons; [done|]. pose proof (Hn _ Hin) as Hl.
        rewrite lookup_insert_ne in Hl; [done|]. by intros ->. }
      split; [intros c' ad' [[= -> ->]|?]%elem_of_cons; eauto|].
      rewrite <-insert_union_r; [by rewrite insert_union_l|].
      by apply not_elem_of_list_to_map_1.
    + intros ([Hcl Hnd] & Hn & Hs & ->). split; [done|]. split.
      { intros c' Hin. rewrite lookup_insert_ne; [apply Hn; by right|]. by intros ->. }
      split; [intros c' ad' Hin; eapply Hs; by right|].
      rewrite <-insert_union_r; [by rewrite insert_union_l|].
      by apply not_elem_of_list_to_map_1.
Qed.

(** Watermarks with the keys they are filed under. *)
Definition keyed (l : list DirectoryWatermark) : list (PeerId * VaultId * DirectoryWatermark) :=
  (λ w, (watermark_key w, w)) <$> l.

Lemma keyed_fst l : (keyed l).*1 = watermark_key <$> l.
Proof. unfold keyed. rewrite <-list_fmap_compose. done. Qed.

Lemma open_watermarks_Ok l acc m :
  open_watermarks l acc = Ok m ↔
  NoDup (watermark_key <$> l) ∧ (∀ k, k ∈ watermark_key <$> l → acc !! k = None)
  ∧ (∀ w, w ∈ l → dw_peer_id w = peer_id (dw_vk w)) ∧ m = list_to_map (keyed l) ∪ acc.
Proof.
  revert acc. induction l as [|w l IH]; intros acc; cbn [open_watermarks].
  - split.
    + intros [= <-]. split; [constructor|]. split; [by intros ? ?%not_elem_of_nil|].
      split; [by intros ? ?%not_elem_of_nil|]. cbn. by rewrite map_empty_union.
    + intros (_ & _ & _ & ->). f_equal. cbn. by rewrite map_empty_union.
  - case_bool_decide as Hv; cbn [negb]; cycle 1.
    { split; [done|]. intros (_ & _ & Hs & _). destruct Hv. apply Hs. left. }
    fold (watermark_key w). case_bool_decide as Hc.
    { split; [done|]. intros (_ & Hn & _). destruct Hc as [x Hx].
      rewrite (Hn (watermark_key w)) in Hx by left. done. }
    rewrite <-eq_None_not_Some in Hc. rewrite IH, fmap_cons, NoDup_cons.
    unfold keyed. cbn [fmap list_fmap list_to_map foldr]. fold (keyed l).
    split.
    + intros (Hnd & Hn & Hs & ->). assert (Hcl : watermark_key w ∉ watermark_key <$> l).
      { intros Hin. apply Hn in Hin. by rewrite lookup_insert_eq in Hin. }
      split; [done|]. split.
      { intros c' [->|Hin]%elem_of_cons; [done|]. pose proof (Hn _ Hin) as Hl.
        rewrite lookup_insert_ne in Hl; [done|]. by intros Heq; rewrite Heq in Hcl. }
      split; [intros w' [->|?]%elem_of_cons; eauto|].
      cbn [uncurry fst snd]. rewrite <-insert_union_r; [by rewrite insert_union_l|].
      apply not_elem_of_list_to_map_1. by rewrite keyed_fst.
    + intros ([Hcl Hnd] & Hn & Hs & ->). split; [done|]. split.
      { intros c' Hin. rewrite lookup_insert_ne; [apply Hn; by right|].
        by intros Heq; rewrite Heq in Hcl. }
      split; [intros w' Hin; apply Hs; by right|].
      cbn [uncurry fst snd]. rewrite <-insert_union_r; [by rewrite insert_union_l|].
      apply not_elem_of_list_to_map_1. by rewrite keyed_fst.
Qed.

Lemma peer_caps_loop_Ok l counts :
  (∀ p, default 0 (counts !! p) <= MAX_ADS_PER_PEER) →
  (peer_caps_loop l counts = Ok tt) ↔
  ∀ p, default 0 (counts !! p) + count_peer l p <= MAX_ADS_PER_PEER.
Proof.
  revert counts. induction l as [|ad l IH]; intros counts Hc; cbn [peer_caps_loop].
  - split; [|done]. intros _ p. specialize (Hc p). unfold count_peer. cbn.
    change (lenN (@nil DirectoryAd)) with 0. lia.
  - destruct (N.ltb_spec MAX_ADS_PER_PEER (default 0 (counts !! ad_peer_id ad) + 1)) as [Hlt|Hle].
    + split; [done|]. intros Hp. specialize (Hp (ad_peer_id ad)).
      rewrite count_peer_cons, bool_decide_eq_true_2 in Hp by done. lia.
    + rewrite IH.
      * assert (Hstep : ∀ p, default 0 (<[ad_peer_id ad := default 0 (counts !! ad_peer_id ad) + 1]>
            counts !! p) + count_peer l p = default 0 (counts !! p) + count_peer (ad :: l) p).
        { intros p. rewrite count_peer_cons, lookup_insert. case_decide; case_bool_decide; subst; cbn; lia || done. }
        by setoid_rewrite Hstep.
      * intros p. rewrite lookup_insert. case_decide; [cbn; lia|done].
Qed.

Lemma require_watermarks_Ok l watermarks :
  (require_watermarks l watermarks = Ok tt) ↔
  ∀ ad, ad ∈ l → ∃ w, watermarks !! (ad_peer_id ad, ad_vault_id ad) = Some w
    ∧ u64_N (ad_issued_at ad) <= u64_N (dw_issued_at w) ∧ dw_vk w = ad_vk ad.
Proof.
  induction l as [|ad l IH]; cbn [require_watermarks].
  - split; [|done]. by intros _ ? ?%not_elem_of_nil.
  - destruct (watermarks !! _) as [w|] eqn:Hw; cbn [ok_or res_bind]; cycle 1.
    { split; [done|]. intros Hall. destruct (Hall ad) as (w & ? & _); [left|congruence]. }
    destruct (N.ltb_spec (u64_N (dw_issued_at w)) (u64_N (ad_issued_at ad))) as [Hlt|Hle]; cbn [orb].
    { split; [done|]. intros Hall. destruct (Hall ad) as (w' & Hw' & Hle & _); [left|].
      rewrite Hw in Hw'. injection Hw' as <-. lia. }
    case_bool_decide as Hvk; cbn [negb].
    + rewrite IH. split.
      * intros Hall ad' [->|?]%elem_of_cons; eauto.
      * intros Hall ad' Hin. apply Hall. by right.
    + split; [done|]. intros Hall. destruct (Hall ad) as (w' & Hw' & _ & ?); [left|].
      congruence.
Qed.



(** Opening succeeds only on maps that satisfy the invariant. *)
Lemma dir_open_sound file s :
  dir_open file = Ok s →
  dir_ok (ds_ads s) (ds_watermarks s) ∧ s = mkDirectoryStore (ds_ads s) (ds_watermarks s) false file.
Proof.
  unfold dir_open. intros Ho.
  match type of Ho with res_bind ?x _ = _ => destruct x as [state|]; [|done] end.
  cbn [res_bind] in Ho.
  destruct (open_ads _ _) as [ads|] eqn:Hads; [|done]. cbn [res_bind] in Ho.
  destruct (open_watermarks _ _) as [ws|] eqn:Hws; [|done]. cbn [res_bind] in Ho.
  destruct (N.ltb_spec MAX_TOTAL_ADS (map_len ads)) as [|Hca]; [done|]. cbn [orb] in Ho.
  destruct (N.ltb_spec MAX_TOTAL_ADS (map_len ws)) as [|Hcw]; [done|]. cbn [orb] in Ho.
  destruct (require_peer_caps ads) as [[]|] eqn:Hcaps; [|done]. cbn [res_bind] in Ho.
  destruct (require_watermarks _ _) as [[]|] eqn:Hcov; [|done]. injection Ho as <-. cbn.
  split; [|done].
  apply open_ads_Ok in Hads as (Hnd & _ & Hs & Hads).
  apply open_watermarks_Ok in Hws as (Hwnd & _ & Hk & Hws).
  assert (Hr : ∀ {K V} `{Countable K} (m : gmap K V), m ∪ ∅ = m) by (intros; apply map_union_empty).
  rewrite Hr in Hads, Hws. clear Hr. subst ads ws. split; [| |done|done| |].
  - intros c ad Hc%elem_of_list_to_map_2. eauto.
  - intros k w Hw%elem_of_list_to_map_2.
    apply list_elem_of_fmap in Hw as (w' & [= -> ->] & Hin). eauto.
  - intros p. unfold require_peer_caps in Hcaps. rewrite peer_caps_loop_Ok in Hcaps.
    + specialize (Hcaps p). rewrite lookup_empty in Hcaps. exact Hcaps.
    + intros q. by rewrite lookup_empty.
  - intros c ad Hc. eapply require_watermarks_Ok; [exact Hcov|]. apply elem_of_map_values. eauto.
Qed.

Lemma encode_directory_state_nonempty d content :
  encode_directory_state d = Ok content → content ≠ [].
Proof.
  intros (b1 & b2 & Hm%put_Ok & _ & ->)%cat_Ok. rewrite Hm. done.
Qed.

(** The bytes [commit] writes for maps that satisfy the invariant open to those maps. *)
Lemma dir_open_written ads watermarks content :
  dir_ok ads watermarks → encode_directory_state (state_of ads watermarks) = Ok content →
  lenN content <= MAX_STATE_BYTES →
  dir_open (Some content) = Ok (mkDirectoryStore ads watermarks false (Some content)).
Proof.
  intros [Hs Hk Ha Hw Hp Hc] He Hlen. unfold dir_open.
  rewrite (proj2 (N.ltb_ge _ _)) by done.
  rewrite bool_decide_eq_false_2 by (by eapply encode_directory_state_nonempty).
  erewrite decode_directory_state_intro; [| | | |exact He].
  2: { unfold fits, usize_limit, u64_limit, MAX_STATE_BYTES in *. lia. }
  2: { cbn [dst_ads state_of]. rewrite sorted_entries_len. exact Ha. }
  2: { cbn [dst_watermarks state_of]. unfold map_values, lenN. rewrite length_fmap.
       fold (lenN (sorted_entries watermarks)). rewrite sorted_entries_len. exact Hw. }
  cbn [res_bind dst_ads dst_watermarks state_of].
  assert (Hads : open_ads (sorted_entries ads) ∅ = Ok ads).
  { apply open_ads_Ok. split; [apply sorted_entries_NoDup|].
    split; [intros; apply lookup_empty|]. split; [intros c ad Hin%elem_of_sorted_entries; eauto|].
    by rewrite map_union_empty, list_to_map_sorted_entries. }
  rewrite Hads. cbn [res_bind].
  assert (Hkeyed : keyed (map_values watermarks) = sorted_entries watermarks).
  { unfold keyed, map_values. rewrite <-list_fmap_compose. rewrite <-list_fmap_id.
    apply list_fmap_ext. intros i [k w] Hi%list_elem_of_lookup_2. cbn.
    apply elem_of_sorted_entries, Hk in Hi as [-> _]. done. }
  assert (Hws : open_watermarks (map_values watermarks) ∅ = Ok watermarks).
  { apply open_watermarks_Ok. rewrite <-keyed_fst, Hkeyed. split; [apply sorted_entries_NoDup|].
    split; [intros; apply lookup_empty|]. split.
    - intros w Hin. unfold map_values in Hin. apply list_elem_of_fmap in Hin as ([k w'] & -> & Hin).
      apply elem_of_sorted_entries, Hk in Hin as [_ ?]. done.
    - by rewrite map_union_empty, list_to_map_sorted_entries. }
  rewrite Hws. cbn [res_bind].
  rewrite !(proj2 (N.ltb_ge _ _)) by done. cbn [orb].
  assert (require_peer_caps ads = Ok tt) as ->.
  { apply peer_caps_loop_Ok; intros p; rewrite lookup_empty; [done|]. apply Hp. }
  cbn [res_bind].
  assert (require_watermarks (map_values ads) watermarks = Ok tt) as ->; [|done].
  apply require_watermarks_Ok. intros ad [c Hin]%elem_of_map_values. eauto.
Qed.

(** *** Preservation by the operations *)

Lemma commit_ok io ads watermarks s :
  store_ok s → ds_failed s = false → dir_ok ads watermarks →
  store_ok (commit io ads watermarks s).2.
Proof.
  intros [Hmaps Hfile Hcur] Hf Hnew. specialize (Hcur Hf).
  unfold commit, sm_bind, sm_lift.
  destruct (encode_directory_state (state_of ads watermarks)) as [content|e] eqn:He; [|done].
  unfold atomic_private_write, sm_bind, sm_get, sm_put, sm_err.
  destruct (N.ltb_spec MAX_STATE_BYTES (lenN content)) as [Hlt|Hle]; cbn.
  { split; cbn; [done| |done]. eauto. }
  assert (Hholds : file_holds (Some content) ads watermarks) by (by apply dir_open_written).
  destruct io as [|e renamed]; cbn.
  - split; cbn; eauto.
  - split; cbn; [done| |done]. destruct renamed; eauto.
Qed.

(** Two different verification keys of one peer id would be a SHA-256 collision; none of
    the keys the store has seen collides with the one presented. *)
Definition no_key_collision (s : DirectoryStore) (ad : DirectoryAd) : Prop :=
  ∀ w, ds_watermarks s !! (ad_peer_id ad, ad_vault_id ad) = Some w →
    peer_id (dw_vk w) = peer_id (ad_vk ad) → dw_vk w = ad_vk ad.

Lemma verify_ad_Ok ad now : verify_ad ad now = Ok tt →
  require_current (ad_issued_at ad) now = Ok tt ∧ verify_ad_signature ad = Ok tt.
Proof. unfold verify_ad. by destruct (require_current _ _) as [[]|]. Qed.

(** The store a successful [dir_put] hands to [commit]. *)
Lemma dir_put_cases io code ad now s :
  (∃ e, dir_put io code ad now s = (Err e, s)) ∨
  ds_failed s = false ∧ verify_ad ad now = Ok tt ∧
  let ads := filter (λ p, is_expired (ad_issued_at p.2) now = false) (ds_ads s) in
  let watermarks :=
    filter (λ p, is_expired (dw_issued_at p.2) now = false) (ds_watermarks s) in
  (∀ existing, ads !! code = Some existing → ad_peer_id existing = ad_peer_id ad) ∧
  (∀ w, watermarks !! (ad_peer_id ad, ad_vault_id ad) = Some w →
    u64_N (dw_issued_at w) < u64_N (ad_issued_at ad)) ∧
  (watermarks !! (ad_peer_id ad, ad_vault_id ad) = None → map_len watermarks < MAX_TOTAL_ADS) ∧
  (ads !! code = None → peer_count ads (ad_peer_id ad) < MAX_ADS_PER_PEER
                        ∧ map_len ads < MAX_TOTAL_ADS) ∧
  dir_put io code ad now s
  = commit io (<[code := ad]> ads)
      (<[(ad_peer_id ad, ad_vault_id ad) := watermark_of_ad ad]> watermarks) s.
Proof.
  unfold dir_put, require_healthy, pruned, sm_bind, sm_get, sm_ret, sm_err, sm_lift.
  destruct (ds_failed s) eqn:Hf; cbn; [eauto|].
  destruct (verify_ad ad now) as [[]|] eqn:Hv; cbn; [|eauto].
  set (ads := filter _ (ds_ads s)). set (watermarks := filter _ (ds_watermarks s)).
  destruct (ads !! code) as [existing|] eqn:Hex.
  - case_bool_decide as Hpeer; cbn; [|eauto].
    destruct (watermarks !! _) as [w|] eqn:Hw; cbn.
    + destruct (N.leb_spec (u64_N (ad_issued_at ad)) (u64_N (dw_issued_at w))); cbn; [eauto|].
      right. split; [done|]. split; [done|]. repeat split; naive_solver.
    + destruct (N.leb_spec MAX_TOTAL_ADS (map_len watermarks)); cbn; [eauto|].
      right. split; [done|]. split; [done|]. repeat split; naive_solver.
  - destruct (watermarks !! _) as [w|] eqn:Hw; cbn.
    + destruct (N.leb_spec (u64_N (ad_issued_at ad)) (u64_N (dw_issued_at w))); cbn; [eauto|].
      destruct (N.leb_spec MAX_ADS_PER_PEER (peer_count ads (ad_peer_id ad))); cbn; [eauto|].
      destruct (N.leb_spec MAX_TOTAL_ADS (map_len ads)); cbn; [eauto|].
      right. split; [done|]. split; [done|]. repeat split; naive_solver.
    + destruct (N.leb_spec MAX_TOTAL_ADS (map_len watermarks)); cbn; [eauto|].
      destruct (N.leb_spec MAX_ADS_PER_PEER (peer_count ads (ad_peer_id ad))); cbn; [eauto|].
      destruct (N.leb_spec MAX_TOTAL_ADS (map_len ads)); cbn; [eauto|].
      right. split; [done|]. split; [done|]. repeat split; naive_solver.
Qed.

Lemma dir_put_ok io code ad now s :
  store_ok s → no_key_collision s ad → store_ok (dir_put io code ad now s).2.
Proof.
  intros Hs Hnc.
  destruct (dir_put_cases io code ad now s)
    as [(e & ->)|(Hf & Hv & Hsame & Hnew & Hwcap & Hacap & ->)]; [done|].
  apply verify_ad_Ok in Hv as [_ Hv].
  apply commit_ok; [done|done|]. apply dir_ok_put; [apply dir_ok_pruned, Hs|done|done| |done|done].
  intros w Hw. split; [by apply Hnew|].
  apply map_lookup_filter_Some in Hw as [Hw _].
  apply Hnc; [done|]. destruct (dir_keyed _ _ (st_maps _ Hs) _ _ Hw) as [[= Hp _] Heq].
  rewrite <-Heq, Hp. by apply verify_ad_signature_peer.
Qed.

Lemma dir_forget_cases io request now s :
  (∃ e, dir_forget io request now s = (Err e, s)) ∨
  ds_failed s = false ∧
  let ads := filter (λ p, is_expired (ad_issued_at p.2) now = false) (ds_ads s) in
  let watermarks :=
    filter (λ p, is_expired (dw_issued_at p.2) now = false) (ds_watermarks s) in
  ∃ w, watermarks !! (df_peer_id request, df_vault_id request) = Some w ∧
    verify_forget request (dw_vk w) now = Ok tt ∧
    u64_N (dw_issued_at w) < u64_N (df_issued_at request) ∧
    (∀ ad, ads !! df_join_code request = Some ad →
      ad_peer_id ad = df_peer_id request ∧ ad_vault_id ad = df_vault_id request) ∧
    dir_forget io request now s
    = commit io (delete (df_join_code request) ads)
        (<[(df_peer_id request, df_vault_id request) :=
             mkDirectoryWatermark (df_peer_id request) (df_vault_id request)
               (df_issued_at request) (dw_vk w)]> watermarks) s.
Proof.
  unfold dir_forget, require_healthy, pruned, sm_bind, sm_get, sm_ret, sm_err, sm_lift.
  destruct (ds_failed s) eqn:Hf; cbn; [eauto|].
  set (ads := filter _ (ds_ads s)). set (watermarks := filter _ (ds_watermarks s)).
  destruct (match ads !! df_join_code request with
            | Some _ => _ | None => true end) eqn:Hb; cbn; [|eauto].
  destruct (watermarks !! _) as [w|] eqn:Hw; cbn; [|eauto].
  destruct (verify_forget request (dw_vk w) now) as [[]|] eqn:Hv; cbn; [|eauto].
  destruct (N.leb_spec (u64_N (df_issued_at request)) (u64_N (dw_issued_at w))); cbn; [eauto|].
  right. split; [done|]. exists w. split; [done|]. split; [done|]. split; [done|]. split; [|done].
  intros ad Had. rewrite Had in Hb.
  by apply andb_true_iff in Hb as [?%bool_decide_eq_true ?%bool_decide_eq_true].
Qed.

Lemma dir_forget_ok io request now s :
  store_ok s → store_ok (dir_forget io request now s).2.
Proof.
  intros Hs. destruct (dir_forget_cases io request now s)
    as [(e & ->)|(Hf & w & Hw & _ & Hlt & _ & ->)]; [done|].
  apply commit_ok; [done|done|]. apply dir_ok_forget; [apply dir_ok_pruned, Hs|done|done].
Qed.

Lemma dir_lookup_cases io code now s :
  (dir_lookup io code now s).2 = s ∨
  ds_failed s = false ∧
  (dir_lookup io code now s).2
  = (commit io (filter (λ p, is_expired (ad_issued_at p.2) now = false) (ds_ads s))
       (filter (λ p, is_expired (dw_issued_at p.2) now = false) (ds_watermarks s)) s).2.
Proof.
  unfold dir_lookup, require_healthy, pruned, sm_bind, sm_get, sm_ret, sm_err.
  destruct (ds_failed s) eqn:Hf; cbn; [by left|].
  match goal with |- context [if ?b then commit _ _ _ else _] => destruct b end; [|by left].
  right. split; [done|]. by destruct (commit io _ _ s) as [[?|] ?].
Qed.

Lemma dir_lookup_ok io code now s :
  store_ok s → store_ok (dir_lookup io code now s).2.
Proof.
  intros Hs. destruct (dir_lookup_cases io code now s) as [-> |[Hf ->]]; [done|].
  apply commit_ok; [done|done|]. apply dir_ok_pruned, Hs.
Qed.
End directory_laws.

(** ** Request sequences *)

Section requests.
Context `{Sha256, SocketAddrs, MlDsa65, XWing}.

(** A decoded request, as [handle_request] dispatches it. *)
Inductive DirRequest :=
  | Lookup (code : JoinCode)
  | Put (code : JoinCode) (ad : DirectoryAd)
  | Forget (request : DirForget).

Definition decode_request (kind : N) (payload : bytes) : Result DirRequest :=
  if kind =? DIR_LOOKUP_KIND then
    let? code := decode_join_code payload in Ok (Lookup code)
  else if kind =? DIR_PUT_KIND then
    let? (code, ad) := decode_put payload in Ok (Put code ad)
  else if kind =? DIR_FORGET_KIND then
    let? request := decode_dir_forget payload in Ok (Forget request)
  else Err (InvalidInput "unsupported directory request type").

Definition serve (io : WriteOutcome) (r : DirRequest) (now : u64)
    : Result unit * DirectoryStore → Result unit * DirectoryStore := λ p,
  let s := p.2 in
  match r with
  | Lookup code => let '(x, s') := dir_lookup io code now s in
                   (let? _ := x in Ok tt, s')
  | Put code ad => dir_put io code ad now s
  | Forget request => dir_forget io request now s
  end.

Definition serve_on (io : WriteOutcome) (r : DirRequest) (now : u64) (s : DirectoryStore) :=
  serve io r now (Ok tt, s).

(** A frame leaves the store that its decoded request leaves, and an undecodable frame
    leaves it alone. *)
Lemma handle_request_serve io now kind payload s :
  (handle_request io now kind payload s).2
  = match decode_request kind payload with
    | Ok r => (serve_on io r now s).2
    | Err _ => s
    end.
Proof.
  unfold handle_request, decode_request, sm_bind, sm_lift, sm_ret, sm_err.
  destruct (kind =? DIR_LOOKUP_KIND).
  { destruct (decode_join_code payload) as [code|]; cbn; [|done].
    unfold serve_on, serve. cbn. destruct (dir_lookup io code now s) as [[found|] s']; cbn; [|done].
    destruct found as [ad|]; cbn; [|done]. by destruct (encode_directory_ad ad). }
  destruct (kind =? DIR_PUT_KIND).
  { destruct (decode_put payload) as [[code ad]|]; cbn; [|done].
    unfold serve_on, serve. cbn. by destruct (dir_put io code ad now s) as [[[]|] s']. }
  destruct (kind =? DIR_FORGET_KIND); [|done].
  destruct (decode_dir_forget payload) as [request|]; cbn; [|done].
  unfold serve_on, serve. cbn. by destruct (dir_forget io request now s) as [[[]|] s'].
Qed.

(** Stores reached from an opened file by frames, in any order, with any clock and any write
    outcomes, as long as no advertised key collides with a known one of its peer. *)
Inductive dir_reachable : DirectoryStore → Prop :=
  | reachable_open file s : dir_open file = Ok s → dir_reachable s
  | reachable_frame s io now kind payload :
      dir_reachable s →
      (∀ code ad, decode_request kind payload = Ok (Put code ad) → no_key_collision s ad) →
      dir_reachable (handle_request io now kind payload s).2.

Lemma dir_reachable_ok s : dir_reachable s → store_ok s.
Proof.
  induction 1 as [file s Ho|s io now kind payload _ IH Hnc].
  - pose proof (dir_open_sound _ _ Ho) as [Hok Heq]. destruct s as [ads ws failed file'].
    cbn in *. injection Heq as -> ->. split; cbn; eauto.
  - rewrite handle_request_serve. destruct (decode_request kind payload) as [r|]; [|done].
    destruct r as [code|code ad|request]; unfold serve_on, serve; cbn.
    + pose proof (dir_lookup_ok io code now s IH) as Hl.
      by destruct (dir_lookup io code now s).
    + apply dir_put_ok; [done|]. by eapply Hnc.
    + by apply dir_forget_ok.
Qed.

(** *** Replays *)

(** The (peer, vault) pair and issue time of a state-changing request. *)
Definition stamp (r : DirRequest) : option (PeerId * VaultId * u64) :=
  match r with
  | Lookup _ => None
  | Put _ ad => Some (ad_peer_id ad, ad_vault_id ad, ad_issued_at ad)
  | Forget request => Some (df_peer_id request, df_vault_id request, df_issued_at request)
  end.

(** A stamp is remembered by a watermark at least as new, or has expired. *)
Definition remembered (s : DirectoryStore) (pair : PeerId * VaultId) (t now : u64) : Prop :=
  (∃ w, ds_watermarks s !! pair = Some w ∧ u64_N t <= u64_N (dw_issued_at w))
  ∨ is_expired t now = true.

Definition pruned_watermarks (s : DirectoryStore) (now : u64) :=
  filter (λ p, is_expired (dw_issued_at p.2) now = false) (ds_watermarks s).

Lemma expired_later t now now' :
  u64_N now <= u64_N now' → is_expired t now = true → is_expired t now' = true.
Proof. unfold is_expired. rewrite !N.ltb_lt. lia. Qed.

Lemma expired_earlier t t' now :
  u64_N t <= u64_N t' → is_expired t' now = true → is_expired t now = true.
Proof. unfold is_expired. rewrite !N.ltb_lt. lia. Qed.

Lemma remembered_pruned s pair t now now' :
  u64_N now <= u64_N now' → remembered s pair t now →
  (∃ w, pruned_watermarks s now' !! pair = Some w ∧ u64_N t <= u64_N (dw_issued_at w))
  ∨ is_expired t now' = true.
Proof.
  intros Hn [(w & Hw & Ht)|He]; [|right; by eapply expired_later].
  destruct (is_expired (dw_issued_at w) now') eqn:Hew.
  - right. by eapply expired_earlier.
  - left. exists w. split; [|done]. by apply map_lookup_filter_Some.
Qed.

Lemma commit_maps io ads watermarks s :
  let s' := (commit io ads watermarks s).2 in
  ds_watermarks s' = watermarks ∨ ds_watermarks s' = ds_watermarks s.
Proof.
  unfold commit, sm_bind, sm_lift, atomic_private_write, sm_bind, sm_get, sm_put, sm_err.
  destruct (encode_directory_state _); cbn; [|by right].
  destruct (_ <? _); cbn; [by right|]. destruct io; cbn; auto.
Qed.

Lemma commit_Ok_maps io ads watermarks s s' :
  commit io ads watermarks s = (Ok tt, s') → ds_watermarks s' = watermarks.
Proof.
  unfold commit, sm_bind, sm_lift, atomic_private_write, sm_bind, sm_get, sm_put, sm_err.
  destruct (encode_directory_state _); cbn; [|done].
  destruct (_ <? _); cbn; [done|]. destruct io; cbn; [|done]. by intros [= <-].
Qed.

(** What a request does to the watermarks: nothing, a pruning, or a pruning and one newer
    watermark for its own pair. *)
Lemma serve_watermarks io r now s :
  let s' := (serve_on io r now s).2 in
  ds_watermarks s' = ds_watermarks s ∨ ds_watermarks s' = pruned_watermarks s now ∨
  ∃ pair t w, stamp r = Some (pair, t) ∧ dw_issued_at w = t
    ∧ ds_watermarks s' = <[pair := w]> (pruned_watermarks s now)
    ∧ ∀ w', pruned_watermarks s now !! pair = Some w' → u64_N (dw_issued_at w') < u64_N t.
Proof.
  destruct r as [code|code ad|request]; unfold serve_on, serve; cbn [snd].
  - pose proof (dir_lookup_cases io code now s) as Hl.
    destruct (dir_lookup io code now s) as [x s']. cbn in *. destruct Hl as [->|[_ ->]]; [by left|].
    edestruct commit_maps as [->| ->]; auto.
  - destruct (dir_put_cases io code ad now s) as [(e & ->)|(_ & _ & _ & Hnew & _ & _ & ->)];
      [by left|].
    edestruct commit_maps as [->| ->]; [|by left]. right. right.
    eexists _, _, (watermark_of_ad ad). done.
  - destruct (dir_forget_cases io request now s) as [(e & ->)|(_ & w & Hw & _ & Hlt & _ & ->)];
      [by left|].
    edestruct commit_maps as [->| ->]; [|by left]. right. right.
    eexists _, _, (mkDirectoryWatermark _ _ _ _).
    split; [done|]. split; [|split; [done|]]; [done|]. intros w'. unfold pruned_watermarks. rewrite Hw. by intros [= <-].
Qed.

Lemma remembered_serve io r now' s pair t now :
  u64_N now <= u64_N now' → remembered s pair t now →
  remembered (serve_on io r now' s).2 pair t now'.
Proof.
  intros Hn Hr. pose proof (remembered_pruned _ _ _ _ _ Hn Hr) as Hp.
  destruct (serve_watermarks io r now' s) as [Heq|[Heq|(pair' & t' & w & _ & Ht' & Heq & Hnew)]];
    unfold remembered; rewrite Heq.
  - destruct Hr as [?|?]; [by left|right; by eapply expired_later].
  - done.
  - destruct Hp as [(w0 & Hw0 & Ht)|]; [left|by right].
    destruct (decide (pair' = pair)) as [->|Hne].
    + exists w. rewrite lookup_insert_eq. split; [done|]. apply Hnew in Hw0. rewrite Ht'. lia.
    + exists w0. by rewrite lookup_insert_ne.
Qed.

Lemma require_current_expired t now : is_expired t now = true → ∃ e, require_current t now = Err e.
Proof. unfold require_current. intros ->. case_match; eauto. Qed.

(** A remembered stamp is refused. *)
Lemma remembered_refused io r now' s pair t t' now :
  u64_N now <= u64_N now' → remembered s pair t now →
  stamp r = Some (pair, t') → u64_N t' <= u64_N t →
  ∃ e, serve_on io r now' s = (Err e, s).
Proof.
  intros Hn Hr Hst Hle. apply (remembered_pruned _ _ _ _ _ Hn) in Hr.
  destruct r as [code|code ad|request]; [done| |]; injection Hst as <- <-;
    unfold serve_on, serve; cbn [snd].
  - destruct (dir_put_cases io code ad now' s) as [?|(_ & Hv & _ & Hnew & _)]; [done|].
    destruct Hr as [(w & Hw%Hnew & Ht)|He]; [lia|].
    apply verify_ad_Ok in Hv as [Hv _]. apply (expired_earlier _ _ _ Hle) in He.
    apply require_current_expired in He as [e He]. congruence.
  - destruct (dir_forget_cases io request now' s) as [?|(_ & w & Hw & Hv & Hlt & _)]; [done|].
    destruct Hr as [(w' & Hw' & Ht)|He].
    + unfold pruned_watermarks in Hw'. rewrite Hw in Hw'. injection Hw' as <-. lia.
    + apply (expired_earlier _ _ _ Hle) in He. apply require_current_expired in He as [e He].
      unfold verify_forget in Hv. by rewrite He in Hv.
Qed.

Lemma accepted_remembered io r now s s' pair t :
  serve_on io r now s = (Ok tt, s') → stamp r = Some (pair, t) → remembered s' pair t now.
Proof.
  destruct r as [code|code ad|request]; [done| |]; unfold serve_on, serve; cbn [snd stamp];
    intros Hs [= <- <-]; left.
  - destruct (dir_put_cases io code ad now s) as [(e & He)|(_ & _ & _ & _ & _ & _ & Hc)];
      [congruence|]. rewrite Hc in Hs. apply commit_Ok_maps in Hs as ->.
    eexists. rewrite lookup_insert_eq. split; [done|]. cbn. lia.
  - destruct (dir_forget_cases io request now s) as [(e & He)|(_ & w & _ & _ & _ & _ & Hc)];
      [congruence|]. rewrite Hc in Hs. apply commit_Ok_maps in Hs as ->.
    eexists. rewrite lookup_insert_eq. split; [done|]. cbn. lia.
Qed.

(** A sequence of requests, each with its write outcome and arrival time. *)
Fixpoint serve_all (l : list (WriteOutcome * DirRequest * u64)) (s : DirectoryStore)
    : DirectoryStore :=
  match l with
  | [] => s
  | (io, r, now) :: l => serve_all l (serve_on io r now s).2
  end.

(** The clock never goes back, from [now] to [last]. *)
Fixpoint clock_from (now : u64) (l : list (WriteOutcome * DirRequest * u64)) (last : u64) : Prop :=
  match l with
  | [] => u64_N now <= u64_N last
  | (_, _, t) :: l => u64_N now <= u64_N t ∧ clock_from t l last
  end.

Lemma remembered_all l s pair t now last :
  clock_from now l last → remembered s pair t now →
  ∃ now', u64_N now' <= u64_N last ∧ remembered (serve_all l s) pair t now'.
Proof.
  revert s now. induction l as [|[[io r] t'] l IH]; intros s now; cbn; [eauto|].
  intros [Hle Hc] Hr. eapply IH; [done|]. by eapply remembered_serve.
Qed.
End requests.

(** ** Claims *)

Section claims.
Context `{Sha256, SocketAddrs, MlDsa65, XWing}.

(** C30: whatever requests arrive, whenever the clock says, and however each file write ends (not
    started, completed, or failed before or after the rename), the directory file can always be
    opened again; and while the store has not failed, opening it gives exactly the
    advertisements and watermarks being served.  So a crash at any point loses at most an
    operation that was not acknowledged. *)
Theorem directory_reopens s :
  dir_reachable s →
  ∃ s', dir_open (ds_file s) = Ok s' ∧ (ds_failed s = false → s' = s).
Proof.
  intros Hr. destruct (dir_reachable_ok s Hr) as [_ (ads & ws & _ & Hf) Hc].
  unfold file_holds in *. eexists. split; [exact Hf|].
  intros Hfail. specialize (Hc Hfail). rewrite Hf in Hc. injection Hc as -> ->.
  destruct s as [a w f fl]. cbn in *. by subst.
Qed.

(** C29: every advertisement the directory serves carries a valid signature by the key its peer
    id names, no peer has more than 32 of them, the table and its watermarks stay within 10000
    entries, and each advertisement is covered by a watermark of its peer and vault that is at
    least as recent and holds the same key. *)
Theorem directory_bounded s :
  dir_reachable s →
  map_len (ds_ads s) <= MAX_TOTAL_ADS ∧ map_len (ds_watermarks s) <= MAX_TOTAL_ADS
  ∧ (∀ p, peer_count (ds_ads s) p <= MAX_ADS_PER_PEER)
  ∧ ∀ code ad, ds_ads s !! code = Some ad →
      verify_ad_signature ad = Ok tt ∧ ad_peer_id ad = peer_id (ad_vk ad)
      ∧ ∃ w, ds_watermarks s !! (ad_peer_id ad, ad_vault_id ad) = Some w
             ∧ u64_N (ad_issued_at ad) <= u64_N (dw_issued_at w) ∧ dw_vk w = ad_vk ad.
Proof.
  intros Hr. destruct (dir_reachable_ok s Hr) as [[Hs _ Ha Hw Hp Hc] _ _].
  do 3 (split; [done|]). intros code ad Hin. pose proof (Hs _ _ Hin) as Hv.
  split; [done|]. split; [by apply verify_ad_signature_peer|]. by eapply Hc.
Qed.

(** Once a publication or a retirement of a vault's route is accepted, every later one for
    the same peer and vault that was issued no later is refused and changes nothing, whatever
    requests and write failures come in between, as long as the clock does not go back:
    either the watermark still remembers the accepted one or both have expired. *)
Theorem directory_replay_refused io r now s s1 l io' r' now' pair t t' :
  serve_on io r now s = (Ok tt, s1) → stamp r = Some (pair, t) →
  clock_from now l now' →
  stamp r' = Some (pair, t') → u64_N t' <= u64_N t →
  ∃ e, serve_on io' r' now' (serve_all l s1) = (Err e, serve_all l s1).
Proof.
  intros Hs Hst Hc Hst' Hle. pose proof (accepted_remembered _ _ _ _ _ _ _ Hs Hst) as Hr.
  destruct (remembered_all _ _ _ _ _ _ Hc Hr) as (now1 & Hn & Hr').
  by eapply remembered_refused.
Qed.
End claims.

(** A peer that publishes a route, withdraws it and replays the publication. *)
Section sample.
#[local] Existing Instances sample_sha256 sample_addrs sample_mldsa sample_xwing.

Definition sample_seed : array 32 := array_N 32 7.
Definition sample_identity : IdentityDocument :=
  let vk := mldsa_verification_key sample_seed in
  mkIdentityDocument (peer_id vk) (xwing_public_key sample_seed) vk (u64! 1) [].
Definition sample_address : text := Text (bstr "10.0.0.1:7000") I.
Definition sample_vault : VaultId := array_N 32 9.
Definition sample_code : JoinCode := array_N 16 3.
Definition sample_ad : DirectoryAd :=
  let unsigned :=
    mkDirectoryAd (doc_peer_id sample_identity) sample_vault sample_address
      (doc_ek sample_identity) (doc_vk sample_identity) (u64! 1000) [] in
  match sign_ad sample_identity sample_seed sample_vault sample_address (u64! 1000) with
  | Ok ad => ad
  | Err _ => unsigned
  end.
Definition sample_forget : DirForget :=
  let request signature :=
    mkDirForget (doc_peer_id sample_identity) sample_vault sample_code (u64! 1001) signature in
  match (let? m := dir_forget_m (request []) in sign sample_seed DIRECTORY_CONTEXT m) with
  | Ok signature => request signature
  | Err _ => request []
  end.
Definition empty_store : DirectoryStore := mkDirectoryStore ∅ ∅ false None.
Definition sample_store : DirectoryStore :=
  (serve_on Written (Put sample_code sample_ad) (u64! 1010) empty_store).2.
Definition sample_put_payload : bytes :=
  match encode_directory_ad sample_ad with
  | Ok ad => array_bytes sample_code ++ ad
  | Err _ => []
  end.

Lemma sample_reachable :
  dir_reachable (handle_request Written (u64! 1010) DIR_PUT_KIND sample_put_payload empty_store).2.
Proof.
  apply reachable_frame.
  - apply (reachable_open None). vm_compute. reflexivity.
  - intros code ad _ w. cbn. by rewrite lookup_empty.
Qed.

Lemma directory_reopens_witness :
  let s := (handle_request Written (u64! 1010) DIR_PUT_KIND sample_put_payload empty_store).2 in
  map_len (ds_ads s) = 1 ∧ ∃ s', dir_open (ds_file s) = Ok s' ∧ (ds_failed s = false → s' = s).
Proof.
  split; [vm_compute; reflexivity|]. apply directory_reopens. exact sample_reachable.
Defined.

Lemma directory_bounded_witness :
  let s := (handle_request Written (u64! 1010) DIR_PUT_KIND sample_put_payload empty_store).2 in
  map_len (ds_ads s) = 1 ∧ map_len (ds_ads s) <= MAX_TOTAL_ADS.
Proof.
  split; [vm_compute; reflexivity|].
  exact (proj1 (directory_bounded _ sample_reachable)).
Defined.

Lemma directory_replay_refused_witness :
  ∃ s1, serve_on Written (Put sample_code sample_ad) (u64! 1010) empty_store = (Ok tt, s1) ∧
    ∃ e, serve_on Written (Put sample_code sample_ad) (u64! 1030)
           (serve_all [(Written, Forget sample_forget, u64! 1020)] s1)
         = (Err e, serve_all [(Written, Forget sample_forget, u64! 1020)] s1).
Proof.
  assert (Hok : (serve_on Written (Put sample_code sample_ad) (u64! 1010) empty_store).1 = Ok tt)
    by (vm_compute; reflexivity).
  destruct (serve_on Written (Put sample_code sample_ad) (u64! 1010) empty_store) as [r s1] eqn:Hs.
  cbn [fst] in Hok. subst r. exists s1. split; [done|].
  eapply (directory_replay_refused _ _ _ _ _ _ _ _ _ _ (u64! 1000) (u64! 1000) Hs);
    [reflexivity| |reflexivity|]; vm_compute; repeat split; discriminate.
Defined.
End sample.
