(* ===== verification/KeyStore.v ===== *)
(** * The key store ([keystore.rs], [crypto/aead.rs])

    The mutable state behind [KeyStore]: verified peers, confirmed and candidate pairs with the
    wrap messages that established them, the live AES keys by slot, the epoch watermarks and the
    admission marks, and the state file every change is written to.  A method is a function from
    the state to a result and the state it leaves; an error does not undo what was already
    changed.  The lock is exclusive, so each method is one step. *)
From S2P Require Export ReplayWindow Crypto.
From Stdlib Require Import Lia ZifyN ZifyNat.

Open Scope N_scope.

Definition MAX_STORE_BYTES : N := 16 * 1024 * 1024.

(** ** Key handles and per-key counters ([crypto/aead.rs]) *)

Record PairKeyHandle := mkPairKeyHandle {
  kh_slot : u64;
  kh_store_id : array 32;
}.

#[export] Instance Direction_countable : Countable Direction.
Proof.
  refine (inj_countable' (λ d, match d with Inbound => false | Outbound => true end)
            (λ b : bool, if b then Outbound else Inbound) _). by intros [].
Defined.
#[export] Instance PayloadType_countable : Countable PayloadType.
Proof.
  refine (inj_countable' (λ d, match d with Packet => false | ChunkBody => true end)
            (λ b : bool, if b then ChunkBody else Packet) _). by intros [].
Defined.
#[export] Instance ReplayWindowKey_countable : Countable ReplayWindowKey.
Proof.
  refine (inj_countable'
    (λ k, (rk_peer_id k, rk_epoch k, rk_direction k, rk_payload_type k))
    (λ p, mkReplayWindowKey p.1.1.1 p.1.1.2 p.1.2 p.2) _). by intros [].
Defined.

Record PairKeyState := mkPairKeyState {
  ks_key : array 32;
  ks_peer_id : PeerId;
  ks_epoch : Epoch;
  ks_send_packet : option u64;
  ks_send_chunk : option u64;
  ks_replay : gmap ReplayWindowKey ReplayWindowState;
}.

Definition new_key_state (key : array 32) (peer : PeerId) (epoch : Epoch) : PairKeyState :=
  mkPairKeyState key peer epoch None None ∅.

Definition send_counter (payload_type : PayloadType) (s : PairKeyState) : option u64 :=
  match payload_type with
  | Packet => ks_send_packet s
  | ChunkBody => ks_send_chunk s
  end.

Definition set_send_counter (payload_type : PayloadType) (c : option u64) (s : PairKeyState)
    : PairKeyState :=
  match payload_type with
  | Packet => mkPairKeyState (ks_key s) (ks_peer_id s) (ks_epoch s) c (ks_send_chunk s) (ks_replay s)
  | ChunkBody => mkPairKeyState (ks_key s) (ks_peer_id s) (ks_epoch s) (ks_send_packet s) c (ks_replay s)
  end.

Definition set_replay (r : gmap ReplayWindowKey ReplayWindowState) (s : PairKeyState)
    : PairKeyState :=
  mkPairKeyState (ks_key s) (ks_peer_id s) (ks_epoch s) (ks_send_packet s) (ks_send_chunk s) r.

Definition reserve_send (payload_type : PayloadType) (s : Seq) : SM PairKeyState unit :=
  do! state := sm_get in
  check! match send_counter payload_type state with
         | Some last => negb (u64_N s <=? u64_N last)
         | None => true
         end else State "AEAD send counter must strictly increase" in
  sm_put (set_send_counter payload_type (Some s) state).

Definition key_next_outbound_seq (payload_type : PayloadType) (s : PairKeyState) : Result Seq :=
  match send_counter payload_type s with
  | Some last => ok_or (u64_checked_add last 1) (State "AEAD send counter exhausted")
  | None => Ok (u64! 1)
  end.

(** ** The store *)

Section store.
Context `{Sha256, MlDsa65, XWing}.

Record StoreInner := mkStoreInner {
  si_local : LocalIdentity;
  si_peers : gmap PeerId IdentityDocument;
  si_pairs : gmap PeerId PersistedPair;
  si_candidates : gmap PeerId PersistedPair;
  si_keys : gmap u64 PairKeyState;
  si_retry_epochs : gmap PeerId Epoch;
  si_candidate_retry_epochs : gmap PeerId Epoch;
  si_epoch_watermarks : gmap PeerId Epoch;
  si_instance_id : array 32;
  si_next_slot : u64;
  si_mailbox_gates : gmap PeerId (gset u64);
  si_admitted_pairs : gmap PeerId Epoch;
  si_failed : bool;
  (** The files at [state_path] and [identity_path]. *)
  si_state_file : option bytes;
  si_identity_file : option bytes;
}.

Definition set_local v s := mkStoreInner v (si_peers s) (si_pairs s) (si_candidates s) (si_keys s) (si_retry_epochs s) (si_candidate_retry_epochs s) (si_epoch_watermarks s) (si_instance_id s) (si_next_slot s) (si_mailbox_gates s) (si_admitted_pairs s) (si_failed s) (si_state_file s) (si_identity_file s).
Definition set_peers v s := mkStoreInner (si_local s) v (si_pairs s) (si_candidates s) (si_keys s) (si_retry_epochs s) (si_candidate_retry_epochs s) (si_epoch_watermarks s) (si_instance_id s) (si_next_slot s) (si_mailbox_gates s) (si_admitted_pairs s) (si_failed s) (si_state_file s) (si_identity_file s).
Definition set_pairs v s := mkStoreInner (si_local s) (si_peers s) v (si_candidates s) (si_keys s) (si_retry_epochs s) (si_candidate_retry_epochs s) (si_epoch_watermarks s) (si_instance_id s) (si_next_slot s) (si_mailbox_gates s) (si_admitted_pairs s) (si_failed s) (si_state_file s) (si_identity_file s).
Definition set_candidates v s := mkStoreInner (si_local s) (si_peers s) (si_pairs s) v (si_keys s) (si_retry_epochs s) (si_candidate_retry_epochs s) (si_epoch_watermarks s) (si_instance_id s) (si_next_slot s) (si_mailbox_gates s) (si_admitted_pairs s) (si_failed s) (si_state_file s) (si_identity_file s).
Definition set_keys v s := mkStoreInner (si_local s) (si_peers s) (si_pairs s) (si_candidates s) v (si_retry_epochs s) (si_candidate_retry_epochs s) (si_epoch_watermarks s) (si_instance_id s) (si_next_slot s) (si_mailbox_gates s) (si_admitted_pairs s) (si_failed s) (si_state_file s) (si_identity_file s).
Definition set_retry_epochs v s := mkStoreInner (si_local s) (si_peers s) (si_pairs s) (si_candidates s) (si_keys s) v (si_candidate_retry_epochs s) (si_epoch_watermarks s) (si_instance_id s) (si_next_slot s) (si_mailbox_gates s) (si_admitted_pairs s) (si_failed s) (si_state_file s) (si_identity_file s).
Definition set_candidate_retry_epochs v s := mkStoreInner (si_local s) (si_peers s) (si_pairs s) (si_candidates s) (si_keys s) (si_retry_epochs s) v (si_epoch_watermarks s) (si_instance_id s) (si_next_slot s) (si_mailbox_gates s) (si_admitted_pairs s) (si_failed s) (si_state_file s) (si_identity_file s).
Definition set_epoch_watermarks v s := mkStoreInner (si_local s) (si_peers s) (si_pairs s) (si_candidates s) (si_keys s) (si_retry_epochs s) (si_candidate_retry_epochs s) v (si_instance_id s) (si_next_slot s) (si_mailbox_gates s) (si_admitted_pairs s) (si_failed s) (si_state_file s) (si_identity_file s).
Definition set_next_slot v s := mkStoreInner (si_local s) (si_peers s) (si_pairs s) (si_candidates s) (si_keys s) (si_retry_epochs s) (si_candidate_retry_epochs s) (si_epoch_watermarks s) (si_instance_id s) v (si_mailbox_gates s) (si_admitted_pairs s) (si_failed s) (si_state_file s) (si_identity_file s).
Definition set_mailbox_gates v s := mkStoreInner (si_local s) (si_peers s) (si_pairs s) (si_candidates s) (si_keys s) (si_retry_epochs s) (si_candidate_retry_epochs s) (si_epoch_watermarks s) (si_instance_id s) (si_next_slot s) v (si_admitted_pairs s) (si_failed s) (si_state_file s) (si_identity_file s).
Definition set_admitted_pairs v s := mkStoreInner (si_local s) (si_peers s) (si_pairs s) (si_candidates s) (si_keys s) (si_retry_epochs s) (si_candidate_retry_epochs s) (si_epoch_watermarks s) (si_instance_id s) (si_next_slot s) (si_mailbox_gates s) v (si_failed s) (si_state_file s) (si_identity_file s).
Definition set_failed v s := mkStoreInner (si_local s) (si_peers s) (si_pairs s) (si_candidates s) (si_keys s) (si_retry_epochs s) (si_candidate_retry_epochs s) (si_epoch_watermarks s) (si_instance_id s) (si_next_slot s) (si_mailbox_gates s) (si_admitted_pairs s) v (si_state_file s) (si_identity_file s).
Definition set_state_file v s := mkStoreInner (si_local s) (si_peers s) (si_pairs s) (si_candidates s) (si_keys s) (si_retry_epochs s) (si_candidate_retry_epochs s) (si_epoch_watermarks s) (si_instance_id s) (si_next_slot s) (si_mailbox_gates s) (si_admitted_pairs s) (si_failed s) v (si_identity_file s).
Definition set_identity_file v s := mkStoreInner (si_local s) (si_peers s) (si_pairs s) (si_candidates s) (si_keys s) (si_retry_epochs s) (si_candidate_retry_epochs s) (si_epoch_watermarks s) (si_instance_id s) (si_next_slot s) (si_mailbox_gates s) (si_admitted_pairs s) (si_failed s) (si_state_file s) v.

Definition Store (A : Type) : Type := SM StoreInner A.

(** An assignment to a field. *)
Definition modify (f : StoreInner → StoreInner) : Store unit := λ s, (Ok tt, f s).

(** [KeyStore::lock]: every method starts with it. *)
Definition lock : Store unit := λ s,
  if si_failed s then (Err (State "keystore persistence failed; reopen required"), s)
  else (Ok tt, s).

Record PairSession := mkPairSession {
  ps_peer_id : PeerId;
  ps_epoch : Epoch;
  ps_key_handle : PairKeyHandle;
}.

Definition local_id (s : StoreInner) : PeerId := doc_peer_id (li_document (si_local s)).

Definition watermark (s : StoreInner) (peer : PeerId) : Epoch :=
  default u64_zero (si_epoch_watermarks s !! peer).

(** The entry, created at epoch 0 if absent, raised to [epoch]. *)
Definition raise_watermark (peer : PeerId) (epoch : Epoch) (s : StoreInner) : StoreInner :=
  set_epoch_watermarks (<[peer := u64_max (watermark s peer) epoch]> (si_epoch_watermarks s)) s.

(** [keys.iter().find_map(..)], in slot order. *)
Definition find_slot (keys : gmap u64 PairKeyState) (peer : PeerId) (epoch : Epoch)
    : option u64 :=
  (λ p : nat * (u64 * PairKeyState), p.2.1) <$>
  list_find (λ p : u64 * PairKeyState, ks_peer_id p.2 = peer ∧ ks_epoch p.2 = epoch)
    (sorted_entries keys).

(** [StoreInner::session] *)
Definition inner_session (s : StoreInner) (peer : PeerId) (epoch : Epoch) : Result PairSession :=
  let? slot := ok_or (find_slot (si_keys s) peer epoch) KeyUnavailable in
  Ok (mkPairSession peer epoch (mkPairKeyHandle slot (si_instance_id s))).

(** ** Persistence *)

Definition persisted_state (s : StoreInner) : PersistedState :=
  mkPersistedState (local_id s) (si_next_slot s) (map_values (si_peers s))
    (map_values (si_pairs s)) (map_values (si_candidates s))
    ((λ p : u64 * PairKeyState,
        mkPersistedKey p.1 (ks_peer_id p.2) (ks_epoch p.2) (ks_key p.2))
       <$> sorted_entries (si_keys s))
    (sorted_entries (si_epoch_watermarks s)).

(** [StoreInner::persist]: any failure, of the encoding or of the write, fails the store. *)
Definition persist (io : WriteOutcome) : Store unit := λ s,
  match encode_store_state (persisted_state s) with
  | Err e => (Err e, set_failed true s)
  | Ok content =>
      match atomic_write MAX_STORE_BYTES "keystore file is too large" io (si_state_file s) content with
      | (Ok _, file) => (Ok tt, set_state_file file s)
      | (Err e, file) => (Err e, set_failed true (set_state_file file s))
      end
  end.

(** ** Installing pairs *)

Definition retain_keys (f : PairKeyState → bool) (s : StoreInner) : StoreInner :=
  set_keys (filter (λ p, f p.2 = true) (si_keys s)) s.

(** Every key of the peer at the epoch, dropped. *)
Definition drop_keys_at (peer : PeerId) (epoch : Epoch) (s : StoreInner) : StoreInner :=
  retain_keys (λ k, negb (bool_decide (ks_peer_id k = peer)) || negb (bool_decide (ks_epoch k = epoch))) s.

(** [next_slot] is taken and advanced. *)
Definition take_slot : Store u64 :=
  do! s := sm_get in
  do! next := sm_lift (ok_or (u64_checked_add (si_next_slot s) 1)
                         (State "keystore slots exhausted")) in
  do! _ := modify (set_next_slot next) in
  sm_ret (si_next_slot s).

Definition install (io : WriteOutcome) (peer initiator : PeerId) (message : WrapMessage)
    (key : array 32) : Store PairSession :=
  let epoch := wm_epoch message in
  do! slot := take_slot in
  do! _ := modify (drop_keys_at peer epoch) in
  do! _ := modify (λ s, set_keys (<[slot := new_key_state key peer epoch]> (si_keys s)) s) in
  do! _ := modify (raise_watermark peer epoch) in
  do! _ := modify (λ s, set_pairs (<[peer := mkPersistedPair peer epoch initiator message]>
                                     (si_pairs s)) s) in
  do! _ := persist io in
  do! s := sm_get in
  sm_lift (inner_session s peer epoch).

Definition install_candidate (io : WriteOutcome) (peer initiator : PeerId)
    (message : WrapMessage) (key : array 32) : Store PairSession :=
  do! s := sm_get in
  check! bool_decide (si_candidates s !! peer = None)
    else State "peer admission candidate already exists" in
  check! map_len (si_candidates s) <? MAX_ADMISSION_CANDIDATES
    else State "too many retained admission candidates" in
  let epoch := wm_epoch message in
  do! slot := take_slot in
  do! _ := modify (λ s, set_keys (<[slot := new_key_state key peer epoch]> (si_keys s)) s) in
  do! _ := modify (raise_watermark peer epoch) in
  do! _ := modify (λ s, set_candidates (<[peer := mkPersistedPair peer epoch initiator message]>
                                          (si_candidates s)) s) in
  do! _ := persist io in
  do! s := sm_get in
  sm_lift (inner_session s peer epoch).

(** ** Queries *)

(** A method that only reads. *)
Definition query {A} (f : StoreInner → Result A) : Store A :=
  do! _ := lock in
  do! s := sm_get in
  sm_lift (f s).

Definition ks_peer : Store PeerId := query (λ s, Ok (local_id s)).
Definition ks_identity : Store IdentityDocument := query (λ s, Ok (li_document (si_local s))).

(** The cached wraps this member initiated, confirmed pairs first. *)
Definition pending_wraps : Store (list WrapMessage) :=
  query (λ s, Ok (pp_wrap <$> filter (λ p, pp_initiator p = local_id s)
                    (map_values (si_pairs s) ++ map_values (si_candidates s)))).

Definition peer_epoch (peer : PeerId) : Store Epoch := query (λ s, Ok (watermark s peer)).

Definition cached_pair (peer : PeerId) : Store (option (PeerId * WrapMessage)) :=
  query (λ s, Ok ((λ p, (pp_initiator p, pp_wrap p)) <$> (si_pairs s !! peer))).
Definition cached_candidate (peer : PeerId) : Store (option (PeerId * WrapMessage)) :=
  query (λ s, Ok ((λ p, (pp_initiator p, pp_wrap p)) <$> (si_candidates s !! peer))).

Definition candidate_session (peer : PeerId) : Store PairSession :=
  query (λ s, let? found := ok_or (si_candidates s !! peer) KeyUnavailable in
              inner_session s peer (pp_epoch found)).

Definition session (peer : PeerId) (epoch : Epoch) : Store PairSession :=
  query (λ s, inner_session s peer epoch).

Definition current_session (peer : PeerId) : Store PairSession :=
  query (λ s, let? found := ok_or (si_pairs s !! peer) KeyUnavailable in
              inner_session s peer (pp_epoch found)).

Definition retry_epoch (peer : PeerId) : Store (option Epoch) :=
  query (λ s, Ok (si_retry_epochs s !! peer)).
Definition candidate_retry_epoch (peer : PeerId) : Store (option Epoch) :=
  query (λ s, Ok (si_candidate_retry_epochs s !! peer)).

Definition next_epoch (peer : PeerId) : Store Epoch :=
  query (λ s, ok_or (u64_checked_add (watermark s peer) 1) (State "epoch exhausted")).

Definition has_admitted_pair (peer : PeerId) : Store bool :=
  query (λ s, Ok match si_admitted_pairs s !! peer, si_pairs s !! peer with
                 | Some epoch, Some found =>
                     bool_decide (pp_epoch found = epoch) && is_ok (inner_session s peer epoch)
                 | _, _ => false
                 end).

Definition require_live_traffic (peer : PeerId) : Store unit :=
  query (λ s, match si_mailbox_gates s !! peer with
              | Some owners => if bool_decide (owners = ∅) then Ok tt
                               else Err (State "live traffic blocked until mailbox drain")
              | None => Ok tt
              end).

Definition owns_live_gate (peer : PeerId) (owner : u64) : Store bool :=
  query (λ s, Ok match si_mailbox_gates s !! peer with
                 | Some owners => bool_decide (owner ∈ owners)
                 | None => false
                 end).

(** ** Updates *)

Definition mark_admitted (peer : PeerId) : Store unit :=
  do! _ := lock in
  do! s := sm_get in
  do! found := sm_lift (ok_or (si_pairs s !! peer) KeyUnavailable) in
  do! _ := sm_lift (inner_session s peer (pp_epoch found)) in
  modify (set_admitted_pairs (<[peer := pp_epoch found]> (si_admitted_pairs s))).

(** The candidate is removed, and put back when it cannot be promoted. *)
Definition promote_candidate (io : WriteOutcome) (peer : PeerId) (epoch : Epoch)
    : Store PairSession :=
  do! _ := lock in
  do! s := sm_get in
  do! candidate := sm_lift (ok_or (si_candidates s !! peer) KeyUnavailable) in
  do! _ := modify (set_candidates (delete peer (si_candidates s))) in
  let restore := modify (λ s, set_candidates (<[peer := candidate]> (si_candidates s)) s) in
  if negb (bool_decide (pp_epoch candidate = epoch)) then
    do! _ := restore in sm_err (State "candidate epoch changed before admission")
  else if match si_pairs s !! peer with
          | Some confirmed => u64_N (pp_epoch candidate) <=? u64_N (pp_epoch confirmed)
          | None => false
          end then
    do! _ := restore in sm_err (State "candidate is not newer than confirmed pair")
  else
    do! _ := modify (λ s, set_pairs (<[peer := candidate]> (si_pairs s)) s) in
    do! _ := modify (λ s, set_candidate_retry_epochs
                            (delete peer (si_candidate_retry_epochs s)) s) in
    do! _ := persist io in
    do! s := sm_get in
    sm_lift (inner_session s peer epoch).

Definition discard_candidate (io : WriteOutcome) (peer : PeerId) : Store unit :=
  do! _ := lock in
  do! s := sm_get in
  match si_candidates s !! peer with
  | None => sm_ret tt
  | Some candidate =>
      do! _ := modify (set_candidates (delete peer (si_candidates s))) in
      do! _ := modify (drop_keys_at peer (pp_epoch candidate)) in
      do! _ := modify (λ s, set_candidate_retry_epochs
                              (delete peer (si_candidate_retry_epochs s)) s) in
      persist io
  end.

Definition discard_pair (io : WriteOutcome) (peer : PeerId) : Store unit :=
  do! _ := lock in
  do! _ := modify (retain_keys (λ k, negb (bool_decide (ks_peer_id k = peer)))) in
  do! _ := modify (λ s, set_pairs (delete peer (si_pairs s)) s) in
  do! _ := modify (λ s, set_candidates (delete peer (si_candidates s)) s) in
  do! _ := modify (λ s, set_retry_epochs (delete peer (si_retry_epochs s)) s) in
  do! _ := modify (λ s, set_candidate_retry_epochs
                          (delete peer (si_candidate_retry_epochs s)) s) in
  do! _ := modify (λ s, set_mailbox_gates (delete peer (si_mailbox_gates s)) s) in
  do! _ := modify (λ s, set_peers (delete peer (si_peers s)) s) in
  do! _ := modify (λ s, set_admitted_pairs (delete peer (si_admitted_pairs s)) s) in
  persist io.

Definition observe_remote_epoch (io : WriteOutcome) (peer : PeerId) (epoch : Epoch)
    : Store unit :=
  do! _ := lock in
  do! s := sm_get in
  check! bool_decide (is_Some (si_peers s !! peer)) else KeyUnavailable in
  if u64_N (watermark s peer) <? u64_N epoch then
    do! _ := modify (set_epoch_watermarks (<[peer := epoch]> (si_epoch_watermarks s))) in
    persist io
  else sm_ret tt.

Definition block_live_traffic (peer : PeerId) (owner : u64) : Store unit :=
  do! _ := lock in
  modify (λ s, set_mailbox_gates
    (<[peer := {[owner]} ∪ default ∅ (si_mailbox_gates s !! peer)]> (si_mailbox_gates s)) s).

Definition unblock_live_traffic (peer : PeerId) (owner : u64) : Store unit :=
  do! _ := lock in
  do! s := sm_get in
  match si_mailbox_gates s !! peer with
  | None => sm_ret tt
  | Some owners =>
      let owners := owners ∖ {[owner]} in
      modify (set_mailbox_gates
        (if bool_decide (owners = ∅) then delete peer (si_mailbox_gates s)
         else <[peer := owners]> (si_mailbox_gates s)))
  end.

Definition retire (io : WriteOutcome) (handle : PairKeyHandle) : Store unit :=
  do! _ := lock in
  do! s := sm_get in
  check! bool_decide (kh_store_id handle = si_instance_id s)
         && bool_decide (is_Some (si_keys s !! kh_slot handle)) else KeyUnavailable in
  do! _ := modify (set_keys (delete (kh_slot handle) (si_keys s))) in
  persist io.

(** The operation runs on the key's state in place. *)
Definition with_pair_state {A} (handle : PairKeyHandle) (operation : SM PairKeyState A)
    : Store A :=
  do! _ := lock in
  do! s := sm_get in
  check! bool_decide (kh_store_id handle = si_instance_id s) else KeyUnavailable in
  do! key := sm_lift (ok_or (si_keys s !! kh_slot handle) KeyUnavailable) in
  let '(result, key) := operation key in
  do! _ := modify (set_keys (<[kh_slot handle := key]> (si_keys s))) in
  sm_lift result.

Definition next_outbound_seq (handle : PairKeyHandle) (payload_type : PayloadType) : Store Seq :=
  with_pair_state handle (do! s := sm_get in sm_lift (key_next_outbound_seq payload_type s)).
End store.
