(* ===== verification/Wrap.v ===== *)
(** * Construction B key wrapping and opening the store ([crypto/wrap.rs], [keystore.rs])

    Creating, receiving and retrying wrapped pair keys, confirmed or as admission candidates;
    importing peers and rotating the local key; and [KeyStore::open], which checks everything
    read from disk, discards the old keys and prepares a fresh epoch for every known pair.
    Randomness and the outcome of each file write are inputs. *)
From S2P Require Export KeyStore.
From Stdlib Require Import Lia ZifyN ZifyNat.

Open Scope N_scope.

(** What one wrap creation draws from the system: a pair key, 64 bytes for the encapsulation,
    and the outcome of the state file's write. *)
Record WrapInput := mkWrapInput {
  wi_pair_key : Result (array 32);
  wi_random : Result (array 64);
  wi_write : WriteOutcome;
}.

(** [a.min(b)] and [a.max(b)]. *)
Definition id_min (a b : PeerId) : PeerId := if ltb b a then b else a.
Definition id_max (a b : PeerId) : PeerId := if ltb b a then a else b.

Section wrap.
Context `{Sha256, MlDsa65, XWing, AesGcm, HkdfSha256}.

Definition derive_wrap_key (secret : array 32) (min_id max_id : PeerId) (epoch : Epoch)
    : Result (array 32) :=
  let? info := wrap_hkdf_info min_id max_id epoch in
  Ok (hkdf_expand secret info).

(** [RustCryptoXWing::encapsulate] *)
Definition encapsulate (random : Result (array 64)) (peer_ek : bytes)
    : Result (array 32 * bytes) :=
  if encapsulation_key_valid peer_ek then
    let? random := random in
    ok_or (encapsulate_deterministic peer_ek random) AuthenticationFailed
  else Err AuthenticationFailed.

Definition decapsulate (seed : array 32) (kem_ct : bytes) : Result (array 32) :=
  ok_or (xwing_decapsulate seed kem_ct) AuthenticationFailed.

(** The message a creation sends: the pair key under the derived wrapping key, signed. *)
Definition wrap_message (local : LocalIdentity) (peer : PeerId) (peer_ek : bytes)
    (epoch : Epoch) (pair_key : array 32) (random : Result (array 64)) : Result WrapMessage :=
  let min_id := id_min (doc_peer_id (li_document local)) peer in
  let max_id := id_max (doc_peer_id (li_document local)) peer in
  let? (secret, kem_ct) := encapsulate random peer_ek in
  let? wrap_key := derive_wrap_key secret min_id max_id epoch in
  let? aad := wrap_aad min_id max_id epoch in
  let? wrap_ct := ok_or (gcm_encrypt wrap_key WRAP_GCM_NONCE aad (array_bytes pair_key))
    AuthenticationFailed in
  let unsigned := mkWrapMessage kem_ct wrap_ct epoch min_id max_id [] in
  let? m := wrap_m unsigned in
  let? signature := sign (li_signing_seed local) WRAP_CONTEXT m in
  Ok (mkWrapMessage kem_ct wrap_ct epoch min_id max_id signature).

Definition create_inner (input : WrapInput) (peer : PeerId) (peer_ek : bytes) (epoch : Epoch)
    (candidate : bool) : SM StoreInner (PairSession * WrapMessage) :=
  do! _ := lock in
  do! s := sm_get in
  do! document := sm_lift (ok_or (si_peers s !! peer) KeyUnavailable) in
  check! bool_decide (doc_ek document = peer_ek) else AuthenticationFailed in
  check! negb (candidate && bool_decide (is_Some (si_candidates s !! peer)))
    else State "peer admission candidate already exists" in
  check! negb (negb (bool_decide (is_Some (si_pairs s !! peer))) && geb (local_id s) peer)
    else State "smaller peer initiates first contact" in
  do! next := sm_lift (ok_or (u64_checked_add (watermark s peer) 1) (State "epoch exhausted")) in
  check! bool_decide (epoch = next) else InvalidInput "wrap must use the next epoch" in
  do! pair_key := sm_lift (wi_pair_key input) in
  do! message := sm_lift (wrap_message (si_local s) peer peer_ek epoch pair_key (wi_random input)) in
  do! _ := modify (λ s,
    if candidate
    then set_candidate_retry_epochs (delete peer (si_candidate_retry_epochs s)) s
    else set_retry_epochs (delete peer (si_retry_epochs s)) s) in
  do! result :=
    (if candidate then install_candidate (wi_write input) peer (local_id s) message pair_key
     else install (wi_write input) peer (local_id s) message pair_key) in
  sm_ret (result, message).

Definition create input peer peer_ek epoch := create_inner input peer peer_ek epoch false.
Definition create_candidate input peer peer_ek epoch :=
  create_inner input peer peer_ek epoch true.

(** ** Receiving a wrap *)

(** How a message stands to the pair already held at its epoch. *)
Inductive Reception :=
  | Duplicate
  | Fresh (collision supersede : bool).

Definition classify (candidate : bool) (local sender : PeerId) (expected : Epoch)
    (existing : option PersistedPair) (message : WrapMessage) : Result Reception :=
  let? reception :=
    match existing with
    | None =>
        if negb candidate
           && (geb sender local || negb (bool_decide (wm_epoch message = expected)))
        then Err (State "invalid first-contact initiator or epoch")
        else Ok (Fresh false false)
    | Some previous =>
        if u64_N (wm_epoch message) <? u64_N (pp_epoch previous)
        then Err (State "stale wrap epoch")
        else if bool_decide (wm_epoch message = pp_epoch previous) then
          if bool_decide (pp_initiator previous = sender) && bool_decide (pp_wrap previous = message)
          then Ok Duplicate
          else if geb sender (pp_initiator previous) then
            let? retry := ok_or (u64_checked_add (wm_epoch message) 1) (State "epoch exhausted") in
            Err (EpochConflict (u64_N retry))
          else Ok (Fresh true false)
        else if candidate then Ok (Fresh false true)
        else Ok (Fresh false false)
    end in
  match reception with
  | Fresh collision _ =>
      if candidate && negb collision && (u64_N (wm_epoch message) <? u64_N expected)
      then Err (State "invalid candidate initiator or epoch")
      else Ok reception
  | Duplicate => Ok Duplicate
  end.

(** The pair key a message carries. *)
Definition unwrap_key (local : LocalIdentity) (message : WrapMessage) : Result (array 32) :=
  let? secret := decapsulate (li_kem_seed local) (wm_kem_ct message) in
  let? wrap_key :=
    derive_wrap_key secret (wm_min_id message) (wm_max_id message) (wm_epoch message) in
  let? aad := wrap_aad (wm_min_id message) (wm_max_id message) (wm_epoch message) in
  let? plaintext := ok_or (gcm_decrypt wrap_key WRAP_GCM_NONCE aad (wm_wrap_ct message))
    AuthenticationFailed in
  ok_or (array_of_bytes 32 plaintext) AuthenticationFailed.

Definition check_wrap (s : StoreInner) (sender : PeerId) (message : WrapMessage)
    (document : IdentityDocument) : Result unit :=
  if negb (bool_decide (wm_min_id message = id_min (local_id s) sender))
     || negb (bool_decide (wm_max_id message = id_max (local_id s) sender))
  then Err AuthenticationFailed
  else
    let? m := wrap_m message in
    verify (doc_vk document) WRAP_CONTEXT m (wm_signature message).

Definition unwrap_inner (io : WriteOutcome) (sender : PeerId) (message : WrapMessage)
    (candidate : bool) : SM StoreInner PairSession :=
  do! _ := lock in
  do! s := sm_get in
  do! document := sm_lift (ok_or (si_peers s !! sender) KeyUnavailable) in
  do! _ := sm_lift (check_wrap s sender message document) in
  let existing := if candidate then si_candidates s !! sender else si_pairs s !! sender in
  do! expected := sm_lift (ok_or (u64_checked_add (watermark s sender) 1)
                             (State "epoch exhausted")) in
  do! reception := sm_lift (classify candidate (local_id s) sender expected existing message) in
  match reception with
  | Duplicate => sm_lift (inner_session s sender (wm_epoch message))
  | Fresh collision supersede =>
      do! key := sm_lift (unwrap_key (si_local s) message) in
      do! _ :=
        (if collision then
           do! retry := sm_lift (ok_or (u64_checked_add (wm_epoch message) 1)
                                   (State "epoch exhausted")) in
           modify (λ s,
             if candidate
             then set_candidate_retry_epochs (<[sender := retry]> (si_candidate_retry_epochs s)) s
             else set_retry_epochs (<[sender := retry]> (si_retry_epochs s)) s)
         else sm_ret tt) in
      if candidate then
        do! _ :=
          (if supersede || collision then
             do! _ := modify (λ s,
               match si_candidates s !! sender with
               | Some previous =>
                   drop_keys_at sender (pp_epoch previous)
                     (set_candidates (delete sender (si_candidates s)) s)
               | None => s
               end) in
             if supersede
             then modify (λ s, set_candidate_retry_epochs
                                 (delete sender (si_candidate_retry_epochs s)) s)
             else sm_ret tt
           else sm_ret tt) in
        install_candidate io sender sender message key
      else install io sender sender message key
  end.

Definition unwrap io sender message := unwrap_inner io sender message false.
Definition unwrap_candidate io sender message := unwrap_inner io sender message true.

(** ** Retries and rotation *)

Definition retry (message : WrapMessage) : SM StoreInner WrapMessage :=
  do! _ := lock in
  do! s := sm_get in
  check! existsb (λ p, bool_decide (pp_initiator p = local_id s)
                       && bool_decide (pp_wrap p = message))
           (map_values (si_pairs s) ++ map_values (si_candidates s))
    else State "wrap is not a cached local ciphertext" in
  sm_ret message.

Definition retry_collision (input : WrapInput) (peer : PeerId)
    : SM StoreInner (PairSession * WrapMessage) :=
  do! _ := lock in
  do! s := sm_get in
  do! epoch := sm_lift (ok_or (si_retry_epochs s !! peer) (State "no losing wrap to retry")) in
  do! document := sm_lift (ok_or (si_peers s !! peer) KeyUnavailable) in
  create input peer (doc_ek document) epoch.

(** The input's write is the one of the creation; [io] is the one of the discard. *)
Definition retry_candidate_collision (io : WriteOutcome) (input : WrapInput) (peer : PeerId)
    : SM StoreInner (PairSession * WrapMessage) :=
  do! _ := lock in
  do! s := sm_get in
  do! epoch := sm_lift (ok_or (si_candidate_retry_epochs s !! peer)
                          (State "no losing candidate wrap to retry")) in
  do! document := sm_lift (ok_or (si_peers s !! peer) KeyUnavailable) in
  do! _ := discard_candidate io peer in
  create_candidate input peer (doc_ek document) epoch.

(** Preparing the next epoch of each listed peer, in order. *)
Fixpoint create_each (inputs : list WrapInput) (peers : list (PeerId * bytes)) : SM StoreInner unit :=
  match peers, inputs with
  | [], _ => sm_ret tt
  | (peer, ek) :: peers, input :: inputs =>
      do! next := next_epoch peer in
      do! _ := create input peer ek next in
      create_each inputs peers
  | _ :: _, [] => sm_err (State "OS entropy unavailable")
  end.

(** [rotate_all]: the peers of the confirmed pairs, read under one lock. *)
Fixpoint peer_keys (s : StoreInner) (ids : list PeerId) : Result (list (PeerId * bytes)) :=
  match ids with
  | [] => Ok []
  | id :: ids =>
      let? document := ok_or (si_peers s !! id) KeyUnavailable in
      let? rest := peer_keys s ids in
      Ok ((id, doc_ek document) :: rest)
  end.

Definition rotate_all (inputs : list WrapInput) : SM StoreInner N :=
  do! _ := lock in
  do! s := sm_get in
  do! peers := sm_lift (peer_keys s (sorted_entries (si_pairs s)).*1) in
  do! _ := create_each inputs peers in
  sm_ret (lenN peers).

(** ** Importing peers and rotating the local key *)

(** A creation that fails after the import fails the store. *)
Definition import_peer (io : WriteOutcome) (input : WrapInput) (document : IdentityDocument)
    : SM StoreInner unit :=
  do! _ := sm_lift (verify_identity document) in
  do! _ := lock in
  do! s := sm_get in
  check! negb (bool_decide (doc_peer_id document = local_id s))
    else InvalidInput "cannot import the local member as a peer" in
  let peer := doc_peer_id document in
  let previous := si_peers s !! peer in
  check! match previous with
         | Some previous =>
             negb (negb (bool_decide (document = previous))
                   && (u64_N (doc_created_at document) <=? u64_N (doc_created_at previous)))
         | None => true
         end else AuthenticationFailed in
  let rewrap :=
    match previous with
    | Some previous =>
        negb (bool_decide (doc_ek previous = doc_ek document))
        && bool_decide (is_Some (si_pairs s !! peer))
    | None => false
    end in
  do! _ := modify (λ s, set_peers (<[peer := document]> (si_peers s)) s) in
  do! _ := persist io in
  if rewrap then
    do! next := next_epoch peer in
    λ s,
      match create input peer (doc_ek document) next s with
      | (Ok _, s) => (Ok tt, s)
      | (Err e, s) =>
          if si_failed s
          then (Err (State "keystore persistence failed; reopen required"), s)
          else (Err e, set_failed true s)
      end
  else sm_ret tt.

Definition rotate_identity_ek (kem_seed : Result (array 32)) (now : u64) (io : WriteOutcome)
    : SM StoreInner IdentityDocument :=
  do! _ := lock in
  do! s := sm_get in
  do! kem_seed := sm_lift kem_seed in
  do! rotated := sm_lift (rotate_ek (si_local s) kem_seed now) in
  do! content := sm_lift (encode_local_identity rotated) in
  λ s,
    match atomic_write MAX_STORE_BYTES "keystore file is too large" io (si_identity_file s) content with
    | (Ok _, file) => (Ok (li_document rotated), set_local rotated (set_identity_file file s))
    | (Err e, file) => (Err e, set_failed true (set_identity_file file s))
    end.

(** ** Opening ([KeyStore::open]) *)

Record OpenInput := mkOpenInput {
  (** The seeds and the time [LocalIdentity::generate] draws when there is no identity file. *)
  oi_signing_seed : Result (array 32);
  oi_kem_seed : Result (array 32);
  oi_now : u64;
  oi_identity_write : WriteOutcome;
  oi_instance_id : Result (array 32);
  oi_persist : WriteOutcome;
  oi_wraps : list WrapInput;
}.

(** The identity file and the state file. *)
Record Files := mkFiles {
  f_identity : option bytes;
  f_state : option bytes;
}.

Definition empty_file (file : option bytes) : bool :=
  match file with
  | Some content => bool_decide (content = [])
  | None => true
  end.

(** [read_private]'s size bound. *)
Definition read_private (file : option bytes) : Result (option bytes) :=
  match file with
  | Some content => if MAX_STORE_BYTES <? lenN content
                    then Err (InvalidInput "keystore file is too large")
                    else Ok (Some content)
  | None => Ok None
  end.

Definition open_identity (input : OpenInput) (files : Files) : Result LocalIdentity * Files :=
  match read_private (f_identity files) with
  | Err e => (Err e, files)
  | Ok content =>
      if empty_file content && bool_decide (is_Some (f_state files))
      then (Err (State "identity is missing while pair state exists"), files)
      else if empty_file content then
        match (let? signing_seed := oi_signing_seed input in
               let? kem_seed := oi_kem_seed input in
               let? local := generate signing_seed kem_seed (oi_now input) in
               let? content := encode_local_identity local in Ok (local, content)) with
        | Err e => (Err e, files)
        | Ok (local, content) =>
            let '(written, file) :=
              atomic_write MAX_STORE_BYTES "keystore file is too large" (oi_identity_write input)
                (f_identity files) content in
            (let? _ := written in Ok local, mkFiles file (f_state files))
        end
      else (decode_local_identity (default [] content), files)
  end.

Definition fresh_store (local : LocalIdentity) (instance_id : array 32) (files : Files)
    : StoreInner :=
  mkStoreInner local ∅ ∅ ∅ ∅ ∅ ∅ ∅ instance_id u64_zero ∅ ∅ false (f_state files)
    (f_identity files).

Fixpoint load_watermarks (l : list (PeerId * Epoch)) (s : StoreInner) : Result StoreInner :=
  match l with
  | [] => Ok s
  | (peer, epoch) :: l =>
      if bool_decide (epoch = u64_zero) || bool_decide (is_Some (si_epoch_watermarks s !! peer))
      then Err (InvalidInput "invalid persisted epoch watermark")
      else load_watermarks l (set_epoch_watermarks (<[peer := epoch]> (si_epoch_watermarks s)) s)
  end.

Fixpoint load_peers (l : list IdentityDocument) (s : StoreInner) : Result StoreInner :=
  match l with
  | [] => Ok s
  | peer :: l =>
      let? _ := verify_identity peer in
      if bool_decide (doc_peer_id peer = local_id s)
         || bool_decide (is_Some (si_peers s !! doc_peer_id peer))
      then Err (InvalidInput "duplicate or local persisted peer")
      else load_peers l (set_peers (<[doc_peer_id peer := peer]> (si_peers s)) s)
  end.

(** The checks a persisted pair or candidate must pass. *)
Definition check_persisted (local : IdentityDocument) (peers : gmap PeerId IdentityDocument)
    (pair : PersistedPair) : Result unit :=
  let? peer := ok_or (peers !! pp_peer_id pair) AuthenticationFailed in
  let local_id := doc_peer_id local in
  let? signer :=
    (if bool_decide (pp_initiator pair = local_id) then Ok local
     else if bool_decide (pp_initiator pair = doc_peer_id peer) then Ok peer
     else Err AuthenticationFailed) in
  let wrap := pp_wrap pair in
  if negb (bool_decide (pp_epoch pair = wm_epoch wrap))
     || negb (bool_decide (wm_min_id wrap = id_min local_id (doc_peer_id peer)))
     || negb (bool_decide (wm_max_id wrap = id_max local_id (doc_peer_id peer)))
  then Err AuthenticationFailed
  else
    let? m := wrap_m wrap in
    verify (doc_vk signer) WRAP_CONTEXT m (wm_signature wrap).

Fixpoint load_pairs (l : list PersistedPair) (s : StoreInner) : Result StoreInner :=
  match l with
  | [] => Ok s
  | found :: l =>
      let? _ := check_persisted (li_document (si_local s)) (si_peers s) found in
      if bool_decide (is_Some (si_pairs s !! pp_peer_id found))
      then Err (InvalidInput "duplicate persisted pair")
      else
        load_pairs l
          (raise_watermark (pp_peer_id found) (pp_epoch found)
             (set_pairs (<[pp_peer_id found := found]> (si_pairs s)) s))
  end.

(** A candidate only raises the watermark; the source refuses a second one of its peer before
    it verifies the signature, with the same error. *)
Fixpoint load_candidates (seen : gset PeerId) (l : list PersistedPair) (s : StoreInner)
    : Result StoreInner :=
  match l with
  | [] => Ok s
  | found :: l =>
      let? _ := check_persisted (li_document (si_local s)) (si_peers s) found in
      if bool_decide (pp_peer_id found ∈ seen) then Err AuthenticationFailed
      else
        load_candidates ({[pp_peer_id found]} ∪ seen) l
          (raise_watermark (pp_peer_id found) (pp_epoch found) s)
  end.

Definition load_state (content : bytes) (s : StoreInner) : Result StoreInner :=
  let? persisted := decode_store_state content in
  if negb (bool_decide (ps_local_id persisted = local_id s)) then Err AuthenticationFailed
  else
    let s := set_next_slot (ps_next_slot persisted) s in
    let? s := load_watermarks (ps_epoch_watermarks persisted) s in
    let? s := load_peers (ps_peers persisted) s in
    let? s := load_pairs (ps_pairs persisted) s in
    if MAX_ADMISSION_CANDIDATES <? lenN (ps_candidates persisted)
    then Err (InvalidInput "too many persisted admission candidates")
    else load_candidates ∅ (ps_candidates persisted) s.

(** Peers to prepare a fresh epoch for: every known pair, and every peer this member is to
    contact first. *)
Definition peers_to_wrap (s : StoreInner) : list (PeerId * bytes) :=
  (λ d, (doc_peer_id d, doc_ek d)) <$>
  filter (λ d, bool_decide (is_Some (si_pairs s !! doc_peer_id d))
               || ltb (local_id s) (doc_peer_id d) = true) (map_values (si_peers s)).

Definition prepare (input : OpenInput) : SM StoreInner unit :=
  do! _ := persist (oi_persist input) in
  do! _ := lock in
  do! s := sm_get in
  create_each (oi_wraps input) (peers_to_wrap s).

Definition load_store (input : OpenInput) (local : LocalIdentity) (files : Files)
    : Result StoreInner :=
  let? instance_id := oi_instance_id input in
  let s := fresh_store local instance_id files in
  let? content := read_private (f_state files) in
  match content with
  | Some content => load_state content s
  | None => Ok s
  end.

(** The opened store, or the error, with the files as they are left. *)
Definition ks_open (input : OpenInput) (files : Files) : Result StoreInner * Files :=
  let '(local, files) := open_identity input files in
  match (let? local := local in load_store input local files) with
  | Err e => (Err e, files)
  | Ok s =>
      let '(prepared, s) := prepare input s in
      (let? _ := prepared in Ok s, mkFiles (si_identity_file s) (si_state_file s))
  end.
End wrap.
