(* ===== verification/Aead.v ===== *)
(** * Sealing and opening packets ([crypto/aead.rs])

    AES-256-GCM under a key handle of the store: the header, taken from the associated data,
    must match the key, the nonce must be the one the header determines, the send counter must
    increase, and an opened packet must be new to the replay window. *)
From S2P Require Export Wrap.
From Stdlib Require Import Lia ZifyN ZifyNat.

Open Scope N_scope.

Section aead.
Context `{Sha256, MlDsa65, XWing, AesGcm, HkdfSha256}.

Definition validate_header (local : PeerId) (state : PairKeyState) (header : PacketHeader)
    (payload_type : PayloadType) (n : array 12) (direction : Direction)
    : Result ReplayWindowKey :=
  if negb (bool_decide (hdr_version header = PROTOCOL_VERSION))
  then Err (InvalidInput "unsupported packet version")
  else
    let endpoints_match :=
      match direction with
      | Outbound => bool_decide (hdr_sender_id header = local)
                    && bool_decide (hdr_receiver_id header = ks_peer_id state)
      | Inbound => bool_decide (hdr_sender_id header = ks_peer_id state)
                   && bool_decide (hdr_receiver_id header = local)
      end in
    if negb endpoints_match || negb (bool_decide (hdr_epoch header = ks_epoch state))
    then Err (InvalidInput "AAD does not match pair key")
    else if negb (bool_decide (n = nonce header payload_type))
    then Err (InvalidInput "nonce does not match AAD")
    else Ok (mkReplayWindowKey (ks_peer_id state) (ks_epoch state) direction payload_type).

(** What [seal] does to the key's state: the counter is reserved before encrypting. *)
Definition seal_key (local : PeerId) (header : PacketHeader) (payload_type : PayloadType)
    (n : array 12) (aad plaintext : bytes) : SM PairKeyState bytes :=
  do! state := sm_get in
  do! _ := sm_lift (validate_header local state header payload_type n Outbound) in
  do! _ := reserve_send payload_type (hdr_seq header) in
  sm_lift (ok_or (gcm_encrypt (ks_key state) n aad plaintext) AuthenticationFailed).

Definition seal (handle : PairKeyHandle) (n : array 12) (aad plaintext : bytes)
    : SM StoreInner bytes :=
  do! local := ks_peer in
  do! (header, payload_type) := sm_lift (decode_aad aad) in
  with_pair_state handle (seal_key local header payload_type n aad plaintext).

(** [replay.entry(key).or_default()], checked before and recorded after decryption. *)
Definition window_of (key : ReplayWindowKey) (state : PairKeyState) : ReplayWindowState :=
  default default_window (ks_replay state !! key).

Definition open_key (local : PeerId) (header : PacketHeader) (payload_type : PayloadType)
    (n : array 12) (aad ciphertext : bytes) : SM PairKeyState bytes :=
  do! state := sm_get in
  do! key := sm_lift (validate_header local state header payload_type n Inbound) in
  do! _ := sm_put (set_replay (<[key := window_of key state]> (ks_replay state)) state) in
  do! _ := sm_lift (check (window_of key state) (hdr_seq header)) in
  do! plaintext :=
    sm_lift (ok_or (gcm_decrypt (ks_key state) n aad ciphertext) AuthenticationFailed) in
  do! window := sm_lift (accept (window_of key state) (hdr_seq header)) in
  do! _ := sm_put (set_replay (<[key := window]> (ks_replay state)) state) in
  sm_ret plaintext.

Definition open (handle : PairKeyHandle) (n : array 12) (aad ciphertext : bytes)
    : SM StoreInner bytes :=
  do! local := ks_peer in
  do! (header, payload_type) := sm_lift (decode_aad aad) in
  with_pair_state handle (open_key local header payload_type n aad ciphertext).
End aead.
