(* ===== verification/KeyStoreInv.v ===== *)
(** * The key store's invariant

    What every method of the key store preserves: verified peers filed under their ids, pairs
    and candidates that are authentic and no newer than their peer's watermark, at most one
    live key per peer and epoch, slots below the next one, and a state file that holds the
    current state whenever the store has not failed, and a well-formed one always. *)
From S2P Require Export Aead.
From Stdlib Require Import Lia ZifyN ZifyNat.

Open Scope N_scope.

(** The past the invariant accounts for: the wrap messages of its own that the store has shown
    its callers, by peer, and the slot and nonce of every packet it sealed.  The invariant is
    preserved whatever the past. *)
Class Past := mkPast {
  offers : list (PeerId * WrapMessage);
  sealed : list (u64 * array 12);
}.

Section invariant.
Context `{Sha256, MlDsa65, XWing, AesGcm, HkdfSha256, Past}.

(** ** The parts *)

Definition wm_of (wms : gmap PeerId Epoch) (p : PeerId) : N :=
  u64_N (default u64_zero (wms !! p)).

Definition local_ok (local : LocalIdentity) : Prop :=
  from_seeds (li_signing_seed local) (li_kem_seed local) (li_document local) = Ok local.

Definition peers_ok (local : PeerId) (peers : gmap PeerId IdentityDocument) : Prop :=
  ∀ p d, peers !! p = Some d → doc_peer_id d = p ∧ p ≠ local ∧ verify_identity d = Ok tt.

Definition wms_ok (wms : gmap PeerId Epoch) : Prop :=
  ∀ p e, wms !! p = Some e → 1 <= u64_N e.

Definition pairs_ok (local : IdentityDocument) (peers : gmap PeerId IdentityDocument)
    (wms : gmap PeerId Epoch) (pairs : gmap PeerId PersistedPair) : Prop :=
  ∀ p q, pairs !! p = Some q →
    pp_peer_id q = p ∧ check_persisted local peers q = Ok tt
    ∧ 1 <= u64_N (pp_epoch q) ∧ u64_N (pp_epoch q) <= wm_of wms p.

Definition keys_ok (wms : gmap PeerId Epoch) (next : u64) (keys : gmap u64 PairKeyState) : Prop :=
  (∀ slot k, keys !! slot = Some k →
     u64_N slot < u64_N next ∧ u64_N (ks_epoch k) <= wm_of wms (ks_peer_id k))
  ∧ ∀ a b k l, keys !! a = Some k → keys !! b = Some l →
      ks_peer_id k = ks_peer_id l → ks_epoch k = ks_epoch l → a = b.

(** Watermarks that only grow. *)
Definition wms_le (a b : gmap PeerId Epoch) : Prop := ∀ p, wm_of a p <= wm_of b p.

(** The slots of sealed packets are behind the next one. *)
Definition slots_used (next : u64) : Prop :=
  ∀ slot n, (slot, n) ∈ sealed → u64_N slot < u64_N next.

(** A live key has counted every packet it sealed. *)
Definition counters_ok (keys : gmap u64 PairKeyState) : Prop :=
  ∀ slot header pt k, (slot, nonce header pt) ∈ sealed → keys !! slot = Some k →
    ∃ c, send_counter pt k = Some c ∧ u64_N (hdr_seq header) <= u64_N c.

(** A pair or a candidate of the peer. *)
Definition held (pairs candidates : gmap PeerId PersistedPair) (p : PeerId) (q : PersistedPair)
    : Prop :=
  pairs !! p = Some q ∨ candidates !! p = Some q.

(** Wraps shown before are not above the watermark, and the store's own wrap at the same epoch
    is the same message. *)
Record offers_ok (local : PeerId) (wms : gmap PeerId Epoch)
    (pairs candidates : gmap PeerId PersistedPair) : Prop := {
  oo_wms : ∀ p m, (p, m) ∈ offers → u64_N (wm_epoch m) <= wm_of wms p;
  oo_held : ∀ p m q, (p, m) ∈ offers → held pairs candidates p q → pp_initiator q = local →
    pp_epoch q = wm_epoch m → pp_wrap q = m;
  oo_now : ∀ p q q', held pairs candidates p q → held pairs candidates p q' →
    pp_initiator q = local → pp_initiator q' = local → pp_epoch q = pp_epoch q' →
    pp_wrap q = pp_wrap q';
}.

Definition fresh_past : Prop := offers = [] ∧ sealed = [].

Record core_inv (s : StoreInner) : Prop := {
  ci_local : local_ok (si_local s);
  ci_peers : peers_ok (local_id s) (si_peers s);
  ci_pairs : pairs_ok (li_document (si_local s)) (si_peers s) (si_epoch_watermarks s) (si_pairs s);
  ci_candidates :
    pairs_ok (li_document (si_local s)) (si_peers s) (si_epoch_watermarks s) (si_candidates s);
  ci_cap : map_len (si_candidates s) <= MAX_ADMISSION_CANDIDATES;
  ci_keys : keys_ok (si_epoch_watermarks s) (si_next_slot s) (si_keys s);
  ci_wms : wms_ok (si_epoch_watermarks s);
  ci_past : offers_ok (local_id s) (si_epoch_watermarks s) (si_pairs s) (si_candidates s);
  ci_slots : slots_used (si_next_slot s);
}.

Definition state_file_holds (file : option bytes) (s : StoreInner) : Prop :=
  ∃ content, file = Some content ∧ lenN content <= MAX_STORE_BYTES
    ∧ encode_store_state (persisted_state s) = Ok content.

Definition identity_file_holds (file : option bytes) (local : LocalIdentity) : Prop :=
  ∃ content, file = Some content ∧ lenN content <= MAX_STORE_BYTES ∧ content ≠ []
    ∧ encode_local_identity local = Ok content.

Definition same_signer (a b : LocalIdentity) : Prop :=
  doc_peer_id (li_document a) = doc_peer_id (li_document b)
  ∧ doc_vk (li_document a) = doc_vk (li_document b).

(** What reopening keeps, [a] being the state on file: candidates and keys never outlive the
    process, and a candidate on file may have been dropped by an update that then failed. *)
Definition durable_eq (a b : StoreInner) : Prop :=
  same_signer (si_local a) (si_local b) ∧ si_peers a = si_peers b ∧ si_pairs a = si_pairs b
  ∧ si_epoch_watermarks a = si_epoch_watermarks b ∧ si_next_slot a = si_next_slot b
  ∧ si_candidates b ⊆ si_candidates a.

Definition files_of (s : StoreInner) : Files :=
  mkFiles (si_identity_file s) (si_state_file s).

(** Files the store can be opened from again as the same principal: an identity, and a state
    that satisfied the invariant, or none yet. *)
Definition files_recoverable (signer : LocalIdentity) (files : Files) : Prop :=
  ∃ local, local_ok local ∧ same_signer local signer
    ∧ identity_file_holds (f_identity files) local
    ∧ (f_state files = None ∧ fresh_past ∨
       ∃ s, core_inv s ∧ same_signer (si_local s) signer ∧ state_file_holds (f_state files) s).

Record inv (s : StoreInner) : Prop := {
  inv_core : core_inv s;
  inv_current : si_failed s = false →
    (∃ s', core_inv s' ∧ durable_eq s' s ∧ state_file_holds (si_state_file s) s')
    ∧ identity_file_holds (si_identity_file s) (si_local s);
  inv_counters : counters_ok (si_keys s);
  inv_recoverable : files_recoverable (si_local s) (files_of s);
}.

(** ** How the parts react to changes *)

Lemma wm_of_insert wms p e q :
  wm_of (<[p := e]> wms) q = if bool_decide (p = q) then u64_N e else wm_of wms q.
Proof. unfold wm_of. rewrite lookup_insert. by case_decide; case_bool_decide. Qed.

Lemma wm_of_watermark s p : u64_N (watermark s p) = wm_of (si_epoch_watermarks s) p.
Proof. done. Qed.

Lemma wms_le_refl a : wms_le a a.
Proof. intros p. done. Qed.

Lemma wms_le_trans a b c : wms_le a b → wms_le b c → wms_le a c.
Proof. intros Hab Hbc p. etransitivity; [apply Hab|apply Hbc]. Qed.

Lemma wms_le_insert wms p e : wm_of wms p <= u64_N e → wms_le wms (<[p := e]> wms).
Proof. intros Hle q. rewrite wm_of_insert. case_bool_decide; [by subst|lia]. Qed.

Lemma pairs_ok_wms local peers a b pairs :
  wms_le a b → pairs_ok local peers a pairs → pairs_ok local peers b pairs.
Proof.
  intros Hle Hp p q (? & ? & ? & ?)%Hp. do 3 (split; [done|]). etransitivity; [done|apply Hle].
Qed.

Lemma keys_ok_wms a b next keys : wms_le a b → keys_ok a next keys → keys_ok b next keys.
Proof.
  intros Hle [Hk Hu]. split; [|done]. intros slot k [? ?]%Hk. split; [done|].
  etransitivity; [done|apply Hle].
Qed.

Lemma pairs_ok_subseteq local peers wms a b :
  a ⊆ b → pairs_ok local peers wms b → pairs_ok local peers wms a.
Proof. intros Hsub Hp p q Hq. apply Hp. by eapply lookup_weaken. Qed.

Lemma pairs_ok_insert local peers wms pairs p q :
  pairs_ok local peers wms pairs → pp_peer_id q = p → check_persisted local peers q = Ok tt →
  1 <= u64_N (pp_epoch q) → u64_N (pp_epoch q) <= wm_of wms p →
  pairs_ok local peers wms (<[p := q]> pairs).
Proof. intros Hp ? ? ? ? p' q' [[<- <-]|[? ?]]%lookup_insert_Some; [done|by apply Hp]. Qed.

Lemma keys_ok_subseteq wms next a b : a ⊆ b → keys_ok wms next b → keys_ok wms next a.
Proof.
  intros Hsub [Hk Hu]. split.
  - intros slot k Hs. apply Hk. by eapply lookup_weaken.
  - intros x y k l Hx Hy. apply Hu; by eapply lookup_weaken.
Qed.

(** A new key in the next slot, for a peer and epoch without one. *)
Lemma keys_ok_insert wms (next next' : u64) keys k :
  keys_ok wms next keys → u64_N next' = u64_N next + 1 →
  u64_N (ks_epoch k) <= wm_of wms (ks_peer_id k) →
  (∀ slot l, keys !! slot = Some l → ks_peer_id l = ks_peer_id k → ks_epoch l ≠ ks_epoch k) →
  keys_ok wms next' (<[next := k]> keys).
Proof.
  intros [Hk Hu] Hn He Hfree. split.
  - intros slot l [[<- <-]|[? [? ?]%Hk]]%lookup_insert_Some; split; try done; lia.
  - intros a b x y [[<- <-]|[Ha Hx]]%lookup_insert_Some
      [[<- <-]|[Hb Hy]]%lookup_insert_Some Hpeer Hepoch; [done| | |by eapply Hu].
    + exfalso. by eapply (Hfree _ _ Hy).
    + exfalso. by eapply (Hfree _ _ Hx).
Qed.

Lemma keys_ok_next wms (next next' : u64) keys :
  keys_ok wms next keys → u64_N next <= u64_N next' → keys_ok wms next' keys.
Proof. intros [Hk Hu] Hn. split; [|done]. intros slot k [? ?]%Hk. split; [lia|done]. Qed.

Lemma wms_ok_insert wms p e : wms_ok wms → 1 <= u64_N e → wms_ok (<[p := e]> wms).
Proof. intros Hw He q x [[<- <-]|[? ?%Hw]]%lookup_insert_Some; done. Qed.

Lemma filter_keys_lookup (f : PairKeyState → bool) (keys : gmap u64 PairKeyState) slot k :
  filter (λ p, f p.2 = true) keys !! slot = Some k ↔ keys !! slot = Some k ∧ f k = true.
Proof. apply map_lookup_filter_Some. Qed.

(** Authenticity of a pair depends on the local signer and on the peer's id and key. *)
Lemma check_persisted_ext local local' peers peers' q :
  doc_peer_id local = doc_peer_id local' → doc_vk local = doc_vk local' →
  (∀ d, peers !! pp_peer_id q = Some d →
     ∃ d', peers' !! pp_peer_id q = Some d' ∧ doc_peer_id d = doc_peer_id d'
           ∧ doc_vk d = doc_vk d') →
  check_persisted local peers q = Ok tt → check_persisted local' peers' q = Ok tt.
Proof.
  intros Hid Hvk Hpeers. unfold check_persisted.
  destruct (peers !! pp_peer_id q) as [d|] eqn:Hd; [|done].
  destruct (Hpeers d eq_refl) as (d' & -> & Hid' & Hvk'). cbn [ok_or res_bind].
  rewrite <-Hid, <-Hid'.
  destruct (bool_decide (pp_initiator q = doc_peer_id local)); cbn [res_bind]; [by rewrite <-Hvk|].
  destruct (bool_decide (pp_initiator q = doc_peer_id d)); cbn [res_bind]; [by rewrite <-Hvk'|done].
Qed.

Lemma check_persisted_epoch local peers q :
  check_persisted local peers q = Ok tt → pp_epoch q = wm_epoch (pp_wrap q).
Proof.
  unfold check_persisted. destruct (ok_or _ _); [|done]. cbn [res_bind].
  destruct (if bool_decide _ then _ else _); [|done]. cbn [res_bind].
  by case_bool_decide.
Qed.

Lemma check_persisted_initiator local peers q d :
  check_persisted local peers q = Ok tt → peers !! pp_peer_id q = Some d →
  pp_initiator q = doc_peer_id local ∨ pp_initiator q = doc_peer_id d.
Proof.
  unfold check_persisted. intros Hc Hd. rewrite Hd in Hc. cbn in Hc.
  case_bool_decide; [by left|]. case_bool_decide; [by right|done].
Qed.

(** ** Persisting *)

(** The invariant but for the state file, which is not up to date yet. *)
Record almost (s : StoreInner) : Prop := {
  al_core : core_inv s;
  al_failed : si_failed s = false;
  al_counters : counters_ok (si_keys s);
  al_identity : identity_file_holds (si_identity_file s) (si_local s);
  al_recoverable : files_recoverable (si_local s) (files_of s);
}.

Lemma inv_almost s : inv s → si_failed s = false → almost s.
Proof. intros [Hc Hcur Hk Hr] Hf. destruct (Hcur Hf). by split. Qed.

Lemma counters_subseteq a b : a ⊆ b → counters_ok b → counters_ok a.
Proof. intros Hsub Hb slot header pt k Hin Hk. eapply Hb; [done|]. by eapply lookup_weaken. Qed.

Lemma slots_used_next next next' : slots_used next → u64_N next <= u64_N next' → slots_used next'.
Proof. intros Hn Hle slot n Hin%Hn. lia. Qed.

(** Fewer pairs, higher watermarks. *)
Lemma offers_ok_sub local a b pairs candidates pairs' candidates' :
  wms_le a b → (∀ p q, held pairs' candidates' p q → held pairs candidates p q) →
  offers_ok local a pairs candidates → offers_ok local b pairs' candidates'.
Proof.
  intros Hle Hsub [Hw Hh Hn]. split; [|by eauto|by eauto].
  intros p m Hin%Hw. etransitivity; [done|apply Hle].
Qed.

Lemma held_bound local peers wms pairs candidates p q :
  pairs_ok local peers wms pairs → pairs_ok local peers wms candidates →
  held pairs candidates p q → u64_N (pp_epoch q) <= wm_of wms p.
Proof. intros Hp Hc [Hq|Hq]; [by apply Hp in Hq as (_ & _ & _ & ?)|by apply Hc in Hq as (_ & _ & _ & ?)]. Qed.

(** The peer's message, or one of this store above the watermark. *)
Lemma offers_ok_new (local : IdentityDocument) peers a b pairs candidates pairs' candidates' p0 q0 :
  pairs_ok local peers a pairs → pairs_ok local peers a candidates → wms_le a b →
  (∀ p q, held pairs' candidates' p q → held pairs candidates p q ∨ p = p0 ∧ q = q0) →
  pp_initiator q0 ≠ doc_peer_id local ∨ wm_of a p0 < u64_N (pp_epoch q0) →
  offers_ok (doc_peer_id local) a pairs candidates → offers_ok (doc_peer_id local) b pairs' candidates'.
Proof.
  intros Hp Hc Hle Hsub Hnew [Hw Hh Hn]. split.
  - intros p m Hin%Hw. etransitivity; [done|apply Hle].
  - intros p m q Hin Hq%Hsub Hi He. destruct Hq as [Hq|[-> ->]]; [by eauto|].
    destruct Hnew as [|Hlt]; [done|]. apply Hw in Hin. rewrite He in Hlt. lia.
  - assert (Hold : ∀ q, held pairs candidates p0 q → pp_initiator q0 = doc_peer_id local →
      pp_epoch q ≠ pp_epoch q0).
    { intros q Hq Hi He. pose proof (held_bound _ _ _ _ _ _ _ Hp Hc Hq) as Hb.
      destruct Hnew as [|Hlt]; [done|]. rewrite He in Hb. lia. }
    intros p q q' Hq%Hsub Hq'%Hsub Hi Hi' He.
    destruct Hq as [Hq|[-> ->]], Hq' as [Hq'|[? ->]]; [by eauto| | |done]; exfalso.
    + subst. by eapply Hold.
    + by eapply Hold.
Qed.

Lemma held_insert_pair pairs candidates p0 q0 p q :
  held (<[p0 := q0]> pairs) candidates p q → held pairs candidates p q ∨ p = p0 ∧ q = q0.
Proof. intros [[[<- <-]|[_ ?]]%lookup_insert_Some|?]; unfold held; auto. Qed.

Lemma held_insert_candidate pairs candidates p0 q0 p q :
  held pairs (<[p0 := q0]> candidates) p q → held pairs candidates p q ∨ p = p0 ∧ q = q0.
Proof. intros [?|[[<- <-]|[_ ?]]%lookup_insert_Some]; unfold held; auto. Qed.

Lemma held_subseteq pairs candidates pairs' candidates' p q :
  pairs' ⊆ pairs → candidates' ⊆ candidates →
  held pairs' candidates' p q → held pairs candidates p q.
Proof. intros Hp Hc [Hq|Hq]; [left|right]; by eapply lookup_weaken. Qed.

(** A key in a slot not used before has sealed nothing. *)
Lemma counters_insert keys next k :
  slots_used next → counters_ok keys → counters_ok (<[next := k]> keys).
Proof.
  intros Hn Hk slot header pt l Hin [[<- _]|[_ Hl]]%lookup_insert_Some; [|by eapply Hk].
  apply Hn in Hin. lia.
Qed.

(** Changes to what the state file does not record. *)
Definition same_files (s s' : StoreInner) : Prop :=
  si_local s' = si_local s ∧ si_failed s' = si_failed s
  ∧ si_state_file s' = si_state_file s ∧ si_identity_file s' = si_identity_file s.

Lemma almost_change s s' :
  almost s → same_files s s' → core_inv s' → counters_ok (si_keys s') → almost s'.
Proof.
  intros [_ Hf _ Hi Hr] (Hl & Hf' & Hs & Hi') Hc Hk. split; [done|congruence|done| |]; unfold files_of; rewrite Hl, Hi'.
  - done.
  - by rewrite Hs.
Qed.

Lemma core_inv_ext s s' :
  core_inv s → si_local s' = si_local s → si_peers s' = si_peers s → si_pairs s' = si_pairs s →
  si_candidates s' = si_candidates s → si_keys s' = si_keys s →
  si_next_slot s' = si_next_slot s → si_epoch_watermarks s' = si_epoch_watermarks s →
  core_inv s'.
Proof.
  intros [? ? ? ? ? ? ? ? ?] Hl Hp Hq Hc Hk Hn Hw. unfold local_id in *.
  split; unfold local_id; by rewrite ?Hl, ?Hp, ?Hq, ?Hc, ?Hk, ?Hn, ?Hw.
Qed.

Lemma inv_change s s' :
  inv s → same_files s s' → core_inv s' → durable_eq s s' → counters_ok (si_keys s') → inv s'.
Proof.
  intros [Hc Hcur _ Hr] (Hl & Hf & Hs & Hi) Hc' (_ & Hp & Hq & Hw & Hn & Hcs) Hk. split; [done| |done|].
  - rewrite Hf, Hs, Hi, Hl. intros Hfail.
    destruct (Hcur Hfail) as [(s0 & Hc0 & (Hl0 & Hp0 & Hq0 & Hw0 & Hn0 & Hcs0) & Hs0) ?].
    split; [|done]. exists s0. split; [done|]. split; [|done].
    unfold durable_eq. rewrite Hl. repeat split; try apply Hl0; try congruence.
    by etransitivity.
  - unfold files_of. by rewrite Hl, Hs, Hi.
Qed.

Lemma same_signer_refl a : same_signer a a.
Proof. done. Qed.

Lemma durable_refl s : durable_eq s s.
Proof. done. Qed.

Lemma persist_wp io s :
  almost s →
  wp (persist io) (λ _ s', inv s' ∧ ∃ file, s' = set_state_file file s) inv s.
Proof.
  intros Ha. pose proof Ha as [Hc Hf Hk Hi Hr]. unfold wp, persist.
  destruct (encode_store_state (persisted_state s)) as [content|e] eqn:He.
  2: { split; [|by cbn|done|done]. by eapply core_inv_ext. }
  assert (Hnew : lenN content <= MAX_STORE_BYTES → state_file_holds (Some content) s).
  { intros Hlen. exists content. done. }
  unfold atomic_write. destruct (N.ltb_spec MAX_STORE_BYTES (lenN content)) as [|Hle].
  { split; [|by cbn|done|done]. by eapply core_inv_ext. }
  assert (Hrec : files_recoverable (si_local s) (mkFiles (si_identity_file s) (Some content))).
  { exists (si_local s). split; [apply Hc|]. do 2 (split; [done|]). right.
    exists s. split; [done|]. split; [done|]. by apply Hnew. }
  destruct io as [|e renamed].
  - split; [|by eexists]. split; [by eapply core_inv_ext| |done|done].
    intros _. split; [|done]. exists s. split; [done|]. split; [by repeat split|]. by apply Hnew.
  - split; [by eapply core_inv_ext|done|done|]. by destruct renamed.
Qed.

(** ** Installing *)

(** The pairs' new entry, the key in its slot and the raised watermark. *)
Definition installed (next : u64) (peer initiator : PeerId) (message : WrapMessage)
    (key : array 32) (s : StoreInner) : StoreInner :=
  let epoch := wm_epoch message in
  let s1 := drop_keys_at peer epoch (set_next_slot next s) in
  let s2 := set_keys (<[si_next_slot s := new_key_state key peer epoch]> (si_keys s1)) s1 in
  let s3 := raise_watermark peer epoch s2 in
  set_pairs (<[peer := mkPersistedPair peer epoch initiator message]> (si_pairs s3)) s3.

Lemma raise_le wms p e : wms_le wms (<[p := u64_max (default u64_zero (wms !! p)) e]> wms).
Proof. apply wms_le_insert. rewrite u64_max_N. unfold wm_of. lia. Qed.

Lemma drop_keys_ok wms next keys peer epoch :
  keys_ok wms next keys →
  let keys' := filter (λ p : u64 * PairKeyState,
    negb (bool_decide (ks_peer_id p.2 = peer)) || negb (bool_decide (ks_epoch p.2 = epoch)) = true)
    keys in
  keys_ok wms next keys' ∧
  ∀ slot l, keys' !! slot = Some l → ks_peer_id l = peer → ks_epoch l ≠ epoch.
Proof.
  intros Hk. split; [eapply keys_ok_subseteq; [apply map_filter_subseteq|done]|].
  intros slot l [_ Hl]%map_lookup_filter_Some Hp He. cbn in Hl.
  by rewrite !bool_decide_eq_true_2 in Hl.
Qed.

Lemma installed_core next peer initiator message key s :
  core_inv s → u64_N next = u64_N (si_next_slot s) + 1 → 1 <= u64_N (wm_epoch message) →
  check_persisted (li_document (si_local s)) (si_peers s)
    (mkPersistedPair peer (wm_epoch message) initiator message) = Ok tt →
  initiator ≠ local_id s ∨ wm_of (si_epoch_watermarks s) peer < u64_N (wm_epoch message) →
  core_inv (installed next peer initiator message key s).
Proof.
  intros [Hl Hp Hq Hc Hcap Hk Hw Hpast Hslots] Hn He Hauth Hown.
  pose proof (raise_le (si_epoch_watermarks s) peer (wm_epoch message)) as Hle.
  assert (Hnew : u64_N (wm_epoch message) <= wm_of (<[peer := u64_max
    (default u64_zero (si_epoch_watermarks s !! peer)) (wm_epoch message)]> (si_epoch_watermarks s)) peer).
  { rewrite wm_of_insert, bool_decide_eq_true_2, u64_max_N by done. lia. }
  destruct (drop_keys_ok _ _ _ peer (wm_epoch message) Hk) as [Hk' Hfree].
  split; cbn; try done.
  - apply pairs_ok_insert; try done. by eapply pairs_ok_wms.
  - by eapply pairs_ok_wms.
  - eapply keys_ok_insert; [by eapply keys_ok_wms|done|done|]. cbn. eauto.
  - apply wms_ok_insert; [done|]. rewrite u64_max_N. lia.
  - eapply (offers_ok_new (li_document (si_local s)) _ _ _ _ _ _ _ peer
      (mkPersistedPair peer (wm_epoch message) initiator message));
      [exact Hq|exact Hc|done| |exact Hown|exact Hpast].
    intros p q. apply held_insert_pair.
  - eapply slots_used_next; [done|lia].
Qed.

Lemma take_slot_wp s (Q : u64 → StoreInner → Prop) (E : StoreInner → Prop) :
  (∀ next, u64_N next = u64_N (si_next_slot s) + 1 → Q (si_next_slot s) (set_next_slot next s)) →
  E s → wp take_slot Q E s.
Proof.
  intros HQ HE. unfold take_slot. repeat wp_step; [|done].
  destruct (u64_checked_add (si_next_slot s) 1) as [n|] eqn:Hn; [|done].
  match goal with Hx : ok_or _ _ = Ok _ |- _ => injection Hx as <- end.
  apply HQ. by apply u64_checked_add_Some.
Qed.

Lemma install_wp io peer initiator message key s :
  inv s → si_failed s = false → 1 <= u64_N (wm_epoch message) →
  check_persisted (li_document (si_local s)) (si_peers s)
    (mkPersistedPair peer (wm_epoch message) initiator message) = Ok tt →
  initiator ≠ local_id s ∨ wm_of (si_epoch_watermarks s) peer < u64_N (wm_epoch message) →
  wp (install io peer initiator message key)
    (λ session s', inv s' ∧ ∃ next file,
       s' = set_state_file file (installed next peer initiator message key s)
       ∧ inner_session s' peer (wm_epoch message) = Ok session) inv s.
Proof.
  intros Hi Hf He Hauth Hown. unfold install. apply wp_bind, take_slot_wp; [|done].
  intros next Hn. do 4 (apply wp_bind; cbn).
  match goal with |- wp _ _ _ ?x => change x with (installed next peer initiator message key s) end.
  apply wp_bind.
  assert (Ha : almost (installed next peer initiator message key s)).
  { eapply almost_change; [by apply inv_almost|done| |].
    - apply installed_core; [apply Hi|done..].
    - cbn. apply counters_insert; [apply Hi|].
      eapply counters_subseteq; [apply map_filter_subseteq|apply Hi]. }
  eapply wp_mono; [by apply persist_wp| |done].
  cbn beta. intros _ s' [Hi' [file ->]]. repeat wp_step; [|done].
  split; [done|]. by exists next, file.
Qed.
End invariant.
