(* ===== verification/KeyStoreOps.v ===== *)
(** * The key store's methods preserve its invariant

    Weakest-precondition lemmas for every method of [KeyStore] and of the wrap code that
    changes the store, each giving the invariant whatever the method returns. *)
From S2P Require Export KeyStoreInv.
From Stdlib Require Import Lia ZifyN ZifyNat.

Open Scope N_scope.

Section ops.
Context `{Sha256, MlDsa65, XWing, AesGcm, HkdfSha256, Past}.

(** ** Candidates *)

Definition candidate_installed (next : u64) (peer initiator : PeerId) (message : WrapMessage)
    (key : array 32) (s : StoreInner) : StoreInner :=
  let epoch := wm_epoch message in
  let s1 := set_next_slot next s in
  let s2 := set_keys (<[si_next_slot s := new_key_state key peer epoch]> (si_keys s1)) s1 in
  let s3 := raise_watermark peer epoch s2 in
  set_candidates (<[peer := mkPersistedPair peer epoch initiator message]> (si_candidates s3)) s3.

(** No live key of the peer at the epoch. *)
Definition no_key_at (s : StoreInner) (peer : PeerId) (epoch : Epoch) : Prop :=
  ∀ slot k, si_keys s !! slot = Some k → ks_peer_id k = peer → ks_epoch k ≠ epoch.

Lemma candidate_installed_core next peer initiator message key s :
  core_inv s → u64_N next = u64_N (si_next_slot s) + 1 → 1 <= u64_N (wm_epoch message) →
  check_persisted (li_document (si_local s)) (si_peers s)
    (mkPersistedPair peer (wm_epoch message) initiator message) = Ok tt →
  initiator ≠ local_id s ∨ wm_of (si_epoch_watermarks s) peer < u64_N (wm_epoch message) →
  no_key_at s peer (wm_epoch message) →
  si_candidates s !! peer = None → map_len (si_candidates s) < MAX_ADMISSION_CANDIDATES →
  core_inv (candidate_installed next peer initiator message key s).
Proof.
  intros [Hl Hp Hq Hc Hcap Hk Hw Hpast Hslots] Hn He Hauth Hown Hfree Hnone Hlt.
  pose proof (raise_le (si_epoch_watermarks s) peer (wm_epoch message)) as Hle.
  assert (Hnew : u64_N (wm_epoch message) <= wm_of (<[peer := u64_max
    (default u64_zero (si_epoch_watermarks s !! peer)) (wm_epoch message)]> (si_epoch_watermarks s)) peer).
  { rewrite wm_of_insert, bool_decide_eq_true_2, u64_max_N by done. lia. }
  split; cbn; try done.
  - by eapply pairs_ok_wms.
  - apply pairs_ok_insert; try done. by eapply pairs_ok_wms.
  - rewrite map_len_insert, bool_decide_eq_true_2 by done. lia.
  - eapply keys_ok_insert; [by eapply keys_ok_wms|done|done|]. exact Hfree.
  - apply wms_ok_insert; [done|]. rewrite u64_max_N. lia.
  - eapply (offers_ok_new (li_document (si_local s)) _ _ _ _ _ _ _ peer
      (mkPersistedPair peer (wm_epoch message) initiator message));
      [exact Hq|exact Hc|done| |exact Hown|exact Hpast].
    intros p q. apply held_insert_candidate.
  - eapply slots_used_next; [done|lia].
Qed.

Lemma install_candidate_wp io peer initiator message key s :
  almost s → 1 <= u64_N (wm_epoch message) →
  check_persisted (li_document (si_local s)) (si_peers s)
    (mkPersistedPair peer (wm_epoch message) initiator message) = Ok tt →
  initiator ≠ local_id s ∨ wm_of (si_epoch_watermarks s) peer < u64_N (wm_epoch message) →
  no_key_at s peer (wm_epoch message) →
  wp (install_candidate io peer initiator message key)
    (λ session s', inv s' ∧ ∃ next file,
       s' = set_state_file file (candidate_installed next peer initiator message key s)
       ∧ inner_session s' peer (wm_epoch message) = Ok session)
    (λ s', inv s' ∨ s' = s) s.
Proof.
  intros Ha He Hauth Hown Hfree. unfold install_candidate.
  apply wp_bind, wp_get. wp_step; [|by right]. wp_step; [|by right].
  apply wp_bind, take_slot_wp; [|by right].
  intros next Hn. do 3 (apply wp_bind; cbn).
  match goal with |- wp _ _ _ ?x =>
    change x with (candidate_installed next peer initiator message key s) end.
  apply wp_bind.
  match goal with Hb : bool_decide _ = true |- _ => apply bool_decide_eq_true in Hb end.
  match goal with Hb : (_ <? _) = true |- _ => apply N.ltb_lt in Hb end.
  assert (Ha' : almost (candidate_installed next peer initiator message key s)).
  { eapply almost_change; [done|done| |].
    - apply candidate_installed_core; [apply Ha|done..].
    - cbn. apply counters_insert; apply Ha. }
  eapply wp_mono; [by apply persist_wp| |by left].
  cbn beta. intros _ s' [Hi' [file ->]]. repeat wp_step; [|by left].
  split; [done|]. by exists next, file.
Qed.

(** ** Sessions *)

(** The key the session's handle leads to. *)
Definition session_key (s : StoreInner) (session : PairSession) (key : array 32) : Prop :=
  ∃ k, si_keys s !! kh_slot (ps_key_handle session) = Some k
       ∧ kh_store_id (ps_key_handle session) = si_instance_id s
       ∧ ks_key k = key ∧ ks_peer_id k = ps_peer_id session ∧ ks_epoch k = ps_epoch session.

Lemma find_slot_Some keys peer epoch slot :
  find_slot keys peer epoch = Some slot →
  ∃ k, keys !! slot = Some k ∧ ks_peer_id k = peer ∧ ks_epoch k = epoch.
Proof.
  unfold find_slot. intros ([i [n k]] & Hf & ->)%fmap_Some.
  apply list_find_Some in Hf as (Hi & [? ?] & _). apply list_elem_of_lookup_2 in Hi.
  apply elem_of_sorted_entries in Hi. by exists k.
Qed.

Lemma inner_session_key s peer epoch session slot k :
  core_inv s → inner_session s peer epoch = Ok session → si_keys s !! slot = Some k →
  ks_peer_id k = peer → ks_epoch k = epoch →
  session_key s session (ks_key k) ∧ ps_peer_id session = peer ∧ ps_epoch session = epoch.
Proof.
  intros Hc Hs Hk Hp He. unfold inner_session in Hs.
  destruct (find_slot (si_keys s) peer epoch) as [found|] eqn:Hf; [|done].
  cbn [ok_or res_bind] in Hs. injection Hs as <-.
  apply find_slot_Some in Hf as (k' & Hk' & Hp' & He').
  assert (found = slot) as -> by (eapply (proj2 (ci_keys s Hc)); [exact Hk'|exact Hk|congruence..]).
  split; [|done]. exists k. by subst.
Qed.

(** ** Creating a wrap *)

Lemma wrap_m_signature kem_ct wrap_ct epoch min_id max_id s s' :
  wrap_m (mkWrapMessage kem_ct wrap_ct epoch min_id max_id s)
  = wrap_m (mkWrapMessage kem_ct wrap_ct epoch min_id max_id s').
Proof. done. Qed.

Lemma local_ok_vk local :
  local_ok local →
  doc_vk (li_document local) = mldsa_verification_key (li_signing_seed local)
  ∧ doc_ek (li_document local) = xwing_public_key (li_kem_seed local)
  ∧ verify_identity (li_document local) = Ok tt
  ∧ doc_peer_id (li_document local) = peer_id (doc_vk (li_document local)).
Proof.
  unfold local_ok, from_seeds. destruct (verify_identity _) as [[]|] eqn:Hv; [|done].
  cbn [res_bind]. case_bool_decide as H1'; [|done]. case_bool_decide as H2'; [|done].
  intros _. do 3 (split; [done|]). unfold verify_identity in Hv.
  destruct (validate_public_key _); [|done]. cbn in Hv. by case_bool_decide.
Qed.

Lemma wrap_message_Ok local peer ek epoch key random m :
  local_ok local → wrap_message local peer ek epoch key random = Ok m →
  wm_epoch m = epoch
  ∧ wm_min_id m = id_min (doc_peer_id (li_document local)) peer
  ∧ wm_max_id m = id_max (doc_peer_id (li_document local)) peer
  ∧ ∃ w, wrap_m m = Ok w
         ∧ verify (doc_vk (li_document local)) WRAP_CONTEXT w (wm_signature m) = Ok tt.
Proof.
  intros Hl. unfold wrap_message.
  destruct (encapsulate random ek) as [[secret kem_ct]|]; [|done]. cbn [res_bind].
  destruct (derive_wrap_key _ _ _ _); [|done]. cbn [res_bind].
  destruct (wrap_aad _ _ _); [|done]. cbn [res_bind].
  destruct (gcm_encrypt _ _ _ _) as [ct|]; [|done]. cbn [ok_or res_bind].
  destruct (wrap_m _) as [w|] eqn:Hw; [|done]. cbn [res_bind].
  destruct (sign _ _ _) as [sg|] eqn:Hs; [|done]. intros [= <-]. cbn.
  do 3 (split; [done|]). exists w. split; [exact Hw|].
  destruct (local_ok_vk local Hl) as (-> & _). by eapply sign_verify.
Qed.

Lemma check_persisted_created local peers d peer message :
  peers !! peer = Some d → doc_peer_id d = peer →
  wm_min_id message = id_min (doc_peer_id local) peer →
  wm_max_id message = id_max (doc_peer_id local) peer →
  (∃ w, wrap_m message = Ok w ∧ verify (doc_vk local) WRAP_CONTEXT w (wm_signature message) = Ok tt) →
  check_persisted local peers
    (mkPersistedPair peer (wm_epoch message) (doc_peer_id local) message) = Ok tt.
Proof.
  intros Hd Hid Hmin Hmax (w & Hw & Hv). unfold check_persisted. cbn. rewrite Hd. cbn.
  rewrite bool_decide_eq_true_2 by done. cbn. rewrite Hid, Hmin, Hmax.
  rewrite !bool_decide_eq_true_2 by done. cbn. by rewrite Hw.
Qed.

Lemma check_persisted_received local peers d peer message :
  peers !! peer = Some d → doc_peer_id d = peer → peer ≠ doc_peer_id local →
  wm_min_id message = id_min (doc_peer_id local) peer →
  wm_max_id message = id_max (doc_peer_id local) peer →
  (∃ w, wrap_m message = Ok w ∧ verify (doc_vk d) WRAP_CONTEXT w (wm_signature message) = Ok tt) →
  check_persisted local peers (mkPersistedPair peer (wm_epoch message) peer message) = Ok tt.
Proof.
  intros Hd Hid Hne Hmin Hmax (w & Hw & Hv). unfold check_persisted. cbn. rewrite Hd. cbn.
  rewrite bool_decide_eq_false_2 by done. rewrite Hid.
  rewrite bool_decide_eq_true_2 by done. cbn. rewrite Hmin, Hmax.
  rewrite !bool_decide_eq_true_2 by done. cbn. by rewrite Hw.
Qed.

Lemma no_key_above s peer epoch :
  core_inv s → wm_of (si_epoch_watermarks s) peer < u64_N epoch → no_key_at s peer epoch.
Proof.
  intros Hc Hlt slot k Hk Hp He. destruct (proj1 (ci_keys s Hc) _ _ Hk) as [_ Hle].
  rewrite Hp, He in Hle. lia.
Qed.

Lemma lock_wp (Q : unit → StoreInner → Prop) (E : StoreInner → Prop) s :
  (si_failed s = false → Q tt s) → (si_failed s = true → E s) → wp lock Q E s.
Proof. unfold wp, lock. destruct (si_failed s); auto. Qed.

(** Fields the state file does not record. *)
Lemma inv_same s s' :
  inv s → same_files s s' → si_peers s' = si_peers s → si_pairs s' = si_pairs s →
  si_candidates s' = si_candidates s → si_keys s' = si_keys s →
  si_next_slot s' = si_next_slot s → si_epoch_watermarks s' = si_epoch_watermarks s → inv s'.
Proof.
  intros Hi Hf Hp Hq Hc Hk Hn Hw. pose proof Hf as (Hl & _).
  apply (inv_change s); [done|done| | |].
  - eapply core_inv_ext; [apply Hi|done..].
  - unfold durable_eq. by rewrite Hl, Hp, Hq, Hc, Hn, Hw.
  - rewrite Hk. apply Hi.
Qed.

(** A successful creation uses the epoch just above the peer's watermark and raises it. *)
Definition created (input : WrapInput) (s : StoreInner) (peer : PeerId) (ek : bytes) (epoch : Epoch)
    (candidate : bool) (session : PairSession) (message : WrapMessage) (s' : StoreInner) : Prop :=
  inv s' ∧ wm_epoch message = epoch
  ∧ u64_N epoch = wm_of (si_epoch_watermarks s) peer + 1
  ∧ u64_N epoch = wm_of (si_epoch_watermarks s') peer
  ∧ inner_session s' peer epoch = Ok session
  ∧ (if candidate then si_candidates s' !! peer else si_pairs s' !! peer)
    = Some (mkPersistedPair peer epoch (local_id s) message)
  ∧ ∃ key, wrap_message (si_local s) peer ek epoch key (wi_random input) = Ok message
           ∧ session_key s' session key ∧ ps_epoch session = epoch.

Lemma create_inner_wp input peer ek epoch candidate s :
  inv s →
  wp (create_inner input peer ek epoch candidate)
    (λ r s', created input s peer ek epoch candidate r.1 r.2 s') inv s.
Proof.
  intros Hi. unfold create_inner. apply wp_bind, lock_wp; [intros Hf|done].
  apply wp_bind, wp_get. apply wp_bind. wp_step; [|done].
  destruct (si_peers s !! peer) as [d|] eqn:Hd; [|done].
  do 3 (wp_step; [|done]). apply wp_bind. wp_step; [|done].
  match goal with Hx : ok_or (u64_checked_add _ _) _ = Ok ?n |- _ =>
    rename n into next; destruct (u64_checked_add (watermark s peer) 1) as [n|] eqn:Hn; [|done];
    injection Hx as -> end.
  apply u64_checked_add_Some in Hn. wp_step; [|done].
  match goal with Hb : bool_decide (epoch = next) = true |- _ =>
    apply bool_decide_eq_true in Hb as -> end.
  apply wp_bind. wp_step; [|done]. apply wp_bind. wp_step; [|done].
  match goal with Hm : wrap_message _ _ _ _ _ _ = Ok ?m |- _ =>
    rename m into message; pose proof Hm as Hwrap;
    apply wrap_message_Ok in Hm as (He & Hmin & Hmax & Hv); [|apply Hi] end.
  destruct (ci_peers s (inv_core s Hi) _ _ Hd) as (Hid & Hne & _).
  assert (Hauth : check_persisted (li_document (si_local s)) (si_peers s)
    (mkPersistedPair peer (wm_epoch message) (local_id s) message) = Ok tt)
    by (by eapply check_persisted_created).
  rewrite wm_of_watermark in Hn.
  apply wp_bind. cbn. apply wp_bind. destruct candidate; cbn.
  - match goal with |- wp _ _ _ ?x => set (s1 := x) end.
    assert (Hi1 : inv s1) by (by eapply inv_same).
    eapply wp_mono; [apply install_candidate_wp| |].
    + by apply inv_almost.
    + rewrite He. lia.
    + exact Hauth.
    + right. rewrite He. cbn. lia.
    + rewrite He. apply (no_key_above s); [apply Hi|]. lia.
    + cbn beta. intros session s' [Hi' (nx & file & -> & Hs)]. wp_step. rewrite He in *.
      split; [done|]. split; [done|]. split; [done|]. cbn. rewrite He, lookup_insert_eq.
      rewrite wm_of_insert, bool_decide_eq_true_2, u64_max_N by done.
      split; [unfold watermark; cbn; unfold wm_of in *; lia|]. split; [done|]. split; [done|].
      rename x0 into key. exists key. split; [done|].
      destruct (inner_session_key _ _ _ _ (si_next_slot s) (new_key_state key peer next)
        (inv_core _ Hi') Hs) as (Hk & _ & ?); [|done..].
      cbn. rewrite He. apply lookup_insert_eq.
    + cbn beta. by intros s' [?| ->].
  - match goal with |- wp _ _ _ ?x => set (s1 := x) end.
    assert (Hi1 : inv s1) by (by eapply inv_same).
    eapply wp_mono; [apply install_wp| |done].
    + done.
    + done.
    + rewrite He. lia.
    + exact Hauth.
    + right. rewrite He. cbn. lia.
    + cbn beta. intros session s' [Hi' (nx & file & -> & Hs)]. wp_step. rewrite He in *.
      split; [done|]. split; [done|]. split; [done|]. cbn. rewrite He, lookup_insert_eq.
      rewrite wm_of_insert, bool_decide_eq_true_2, u64_max_N by done.
      split; [unfold watermark; cbn; unfold wm_of in *; lia|]. split; [done|]. split; [done|].
      rename x0 into key. exists key. split; [done|].
      destruct (inner_session_key _ _ _ _ (si_next_slot s) (new_key_state key peer next)
        (inv_core _ Hi') Hs) as (Hk & _ & ?); [|done..].
      cbn. rewrite He. apply lookup_insert_eq.
Qed.

(** ** Receiving a wrap *)

Lemma verify_peer document :
  verify_identity document = Ok tt → doc_peer_id document = peer_id (doc_vk document).
Proof.
  unfold verify_identity. destruct (validate_public_key _) as [[]|]; [|done]. cbn.
  by case_bool_decide.
Qed.

Lemma check_wrap_Ok s sender message document :
  check_wrap s sender message document = Ok tt →
  wm_min_id message = id_min (local_id s) sender ∧ wm_max_id message = id_max (local_id s) sender
  ∧ ∃ w, wrap_m message = Ok w
         ∧ verify (doc_vk document) WRAP_CONTEXT w (wm_signature message) = Ok tt.
Proof.
  unfold check_wrap. case_bool_decide; [|done]. case_bool_decide; [|done]. cbn.
  destruct (wrap_m message) as [w|]; [|done]. cbn. eauto.
Qed.

(** What a message that is to be installed satisfies. *)
Lemma classify_Fresh candidate local sender expected existing message collision supersede :
  classify candidate local sender expected existing message = Ok (Fresh collision supersede) →
  match existing with
  | None => collision = false ∧ supersede = false
            ∧ (if candidate then u64_N expected <= u64_N (wm_epoch message)
               else wm_epoch message = expected ∧ geb sender local = false)
  | Some previous =>
      if collision
      then wm_epoch message = pp_epoch previous ∧ supersede = false
           ∧ geb sender (pp_initiator previous) = false
      else u64_N (pp_epoch previous) < u64_N (wm_epoch message) ∧ supersede = candidate
           ∧ (candidate = true → u64_N expected <= u64_N (wm_epoch message))
  end.
Proof.
  unfold classify. destruct existing as [previous|].
  - destruct (N.ltb_spec (u64_N (wm_epoch message)) (u64_N (pp_epoch previous))); [done|].
    case_bool_decide as He.
    + destruct (bool_decide _ && bool_decide _); [done|].
      destruct (geb sender (pp_initiator previous)) eqn:Hg.
      { by destruct (u64_checked_add (wm_epoch message) 1). }
      cbn. destruct candidate; cbn; intros [= <- <-]; done.
    + assert (u64_N (pp_epoch previous) < u64_N (wm_epoch message)).
      { apply N.le_neq. split; [done|]. intros Heq. apply He. by apply u64_eq. }
      destruct candidate; cbn.
      * destruct (N.ltb_spec (u64_N (wm_epoch message)) (u64_N expected)); [done|].
        intros [= <- <-]. done.
      * intros [= <- <-]. done.
  - destruct candidate; cbn.
    + destruct (N.ltb_spec (u64_N (wm_epoch message)) (u64_N expected)); [done|].
      intros [= <- <-]. done.
    + destruct (geb sender local) eqn:Hg; [done|]. cbn. case_bool_decide; [|done]. cbn.
      intros [= <- <-]. done.
Qed.

(** The candidate a collision or a newer message displaces. *)
Definition displaced (sender : PeerId) (s : StoreInner) : StoreInner :=
  match si_candidates s !! sender with
  | Some previous =>
      drop_keys_at sender (pp_epoch previous)
        (set_candidates (delete sender (si_candidates s)) s)
  | None => s
  end.

Lemma displaced_core sender s : core_inv s → core_inv (displaced sender s).
Proof.
  intros Hc. unfold displaced. destruct (si_candidates s !! sender) as [previous|]; [|done].
  destruct Hc as [? ? ? ? ? ? ? ? ?]. split; cbn; try done.
  - eapply pairs_ok_subseteq; [apply delete_subseteq|done].
  - etransitivity; [apply map_len_mono, delete_subseteq|done].
  - eapply keys_ok_subseteq; [apply map_filter_subseteq|done].
  - eapply offers_ok_sub; [| |eassumption]; [apply wms_le_refl|].
    intros p q. apply held_subseteq; [done|apply delete_subseteq].
Qed.

Lemma displaced_keys sender s : si_keys (displaced sender s) ⊆ si_keys s.
Proof.
  unfold displaced. destruct (si_candidates s !! sender); [|done]. apply map_filter_subseteq.
Qed.

Lemma displaced_durable sender s :
  same_files s (displaced sender s) ∧ durable_eq s (displaced sender s).
Proof.
  unfold displaced. destruct (si_candidates s !! sender); [|done].
  do 2 (split; [done|]). do 4 (split; [done|]). apply delete_subseteq.
Qed.

Definition received (s : StoreInner) (sender : PeerId) (message : WrapMessage) (candidate : bool)
    (session : PairSession) (s' : StoreInner) : Prop :=
  inv s' ∧ inner_session s' sender (wm_epoch message) = Ok session
  ∧ ∃ q, (if candidate then si_candidates s' !! sender else si_pairs s' !! sender) = Some q
         ∧ pp_epoch q = wm_epoch message ∧ pp_initiator q = sender ∧ pp_wrap q = message
  ∧ ((if candidate then si_candidates s !! sender else si_pairs s !! sender) = Some q ∧ s' = s
     ∨ ∃ key, unwrap_key (si_local s) message = Ok key ∧ session_key s' session key
              ∧ ps_epoch session = wm_epoch message).

Lemma classify_Duplicate candidate local sender expected existing message :
  classify candidate local sender expected existing message = Ok Duplicate →
  ∃ q, existing = Some q ∧ pp_epoch q = wm_epoch message ∧ pp_initiator q = sender
       ∧ pp_wrap q = message.
Proof.
  unfold classify. destruct existing as [previous|].
  - destruct (_ <? _); [done|]. case_bool_decide as He.
    + case_bool_decide; [case_bool_decide; [eauto|]|]; cbn;
        (destruct (geb _ _); [by destruct (u64_checked_add (wm_epoch message) 1)|]);
        cbn; by destruct candidate.
    + destruct candidate; cbn; [|done]. by destruct (_ <? _).
  - destruct candidate; cbn; [by destruct (_ <? _)|]. by destruct (_ || _).
Qed.

(** A message to be installed has a positive epoch. *)
Lemma fresh_positive s (candidate : bool) sender (expected : u64) message
    (collision supersede : bool) :
  core_inv s → 1 <= u64_N expected →
  match (if candidate then si_candidates s !! sender else si_pairs s !! sender) with
  | None => collision = false ∧ supersede = false
            ∧ (if candidate then u64_N expected <= u64_N (wm_epoch message)
               else wm_epoch message = expected ∧ geb sender (local_id s) = false)
  | Some previous =>
      if collision
      then wm_epoch message = pp_epoch previous ∧ supersede = false
           ∧ geb sender (pp_initiator previous) = false
      else u64_N (pp_epoch previous) < u64_N (wm_epoch message) ∧ supersede = candidate
           ∧ (candidate = true → u64_N expected <= u64_N (wm_epoch message))
  end → 1 <= u64_N (wm_epoch message).
Proof.
  intros Hc He Hcl. destruct candidate.
  - destruct (si_candidates s !! sender) as [q|] eqn:Hq.
    + apply (ci_candidates s Hc) in Hq as (_ & _ & ? & _). destruct collision.
      * by destruct Hcl as [-> _].
      * destruct Hcl as (? & _). lia.
    + destruct Hcl as (_ & _ & ?). lia.
  - destruct (si_pairs s !! sender) as [q|] eqn:Hq.
    + apply (ci_pairs s Hc) in Hq as (_ & _ & ? & _). destruct collision.
      * by destruct Hcl as [-> _].
      * destruct Hcl as (? & _). lia.
    + by destruct Hcl as (_ & _ & -> & _).
Qed.

(** Two states that differ only in retry epochs, gates and admission marks. *)
Definition same_core (s s' : StoreInner) : Prop :=
  same_files s s' ∧ si_peers s' = si_peers s ∧ si_pairs s' = si_pairs s
  ∧ si_candidates s' = si_candidates s ∧ si_keys s' = si_keys s
  ∧ si_next_slot s' = si_next_slot s ∧ si_epoch_watermarks s' = si_epoch_watermarks s.

Lemma same_core_inv s s' : inv s → same_core s s' → inv s'.
Proof. intros Hi (? & ? & ? & ? & ? & ? & ?). by apply (inv_same s). Qed.

Lemma unwrap_inner_wp io sender message candidate s :
  inv s →
  wp (unwrap_inner io sender message candidate)
    (λ session s', received s sender message candidate session s') inv s.
Proof.
  intros Hi. pose proof (inv_core s Hi) as Hc. unfold unwrap_inner.
  apply wp_bind, lock_wp; [intros Hf|done].
  apply wp_bind, wp_get. apply wp_bind. wp_step; [|done].
  match goal with Hx : ok_or (si_peers s !! sender) _ = Ok ?x |- _ =>
    rename x into d; destruct (si_peers s !! sender) as [d'|] eqn:Hd; [|done];
    injection Hx as -> end.
  apply wp_bind. wp_step; [|done].
  match goal with Hx : check_wrap _ _ _ _ = Ok ?u |- _ =>
    destruct u; apply check_wrap_Ok in Hx as (Hmin & Hmax & Hv) end.
  destruct (ci_peers s Hc _ _ Hd) as (Hid & Hne & _).
  assert (Hauth : check_persisted (li_document (si_local s)) (si_peers s)
    (mkPersistedPair sender (wm_epoch message) sender message) = Ok tt)
    by (by eapply check_persisted_received).
  apply wp_bind. wp_step; [|done].
  match goal with Hx : ok_or _ _ = Ok ?x |- _ => rename x into expected;
    destruct (u64_checked_add (watermark s sender) 1) as [n|] eqn:Hn; [|done];
    injection Hx as -> end.
  apply u64_checked_add_Some in Hn. rewrite wm_of_watermark in Hn.
  apply wp_bind. wp_step; [|done].
  match goal with Hx : classify _ _ _ _ _ _ = Ok ?x |- _ => rename x into reception;
    rename Hx into Hcl end.
  destruct reception as [|collision supersede].
  { apply classify_Duplicate in Hcl as (q & Hq & ?). wp_step; [|done].
    split; [done|]. split; [done|]. exists q. split; [by destruct candidate|]. do 3 (split; [by apply Hq || naive_solver|]).
    left. split; [by destruct candidate|done]. }
  apply classify_Fresh in Hcl.
  apply wp_bind. wp_step; [|done]. rename x into key.
  apply wp_bind. eapply (wp_mono _ (λ _ s1, same_core s s1) _ inv inv).
  { wp_step; [|by wp_step]. apply wp_bind. wp_step; [|done]. by destruct candidate. }
  2: { done. }
  cbn beta. intros _ s1 Hs1. pose proof (same_core_inv _ _ Hi Hs1) as Hi1.
  destruct Hs1 as ((Hl1 & Hf1 & _) & Hp1 & Hq1 & Hc1 & Hk1 & Hn1 & Hw1).
  assert (He : 1 <= u64_N (wm_epoch message)) by (eapply fresh_positive; [exact Hc| |exact Hcl]; lia).
  destruct candidate.
  - apply wp_bind.
    set (base := if supersede || collision then displaced sender s1 else s1).
    assert (Hib : inv base ∧ same_files s1 base ∧ si_peers base = si_peers s1).
    { unfold base. destruct (_ || _); [|done]. destruct (displaced_durable sender s1) as [Hfi Hdu].
      split; [|split; [exact Hfi|by destruct Hdu as (_ & <- & _)]].
      eapply inv_change; [exact Hi1|exact Hfi|apply displaced_core, Hi1|exact Hdu|].
      eapply counters_subseteq; [apply displaced_keys|apply Hi1]. }
    eapply (wp_mono _ (λ _ s2, same_core base s2) _ inv inv).
    { unfold base. destruct (supersede || collision); [|done].
      apply wp_bind. cbn. fold (displaced sender s1). by destruct supersede. }
    2: { done. }
    cbn beta. intros _ s2 Hs2. destruct Hib as (Hib & (Hlb & Hfb & _) & Hpb).
    pose proof (same_core_inv _ _ Hib Hs2) as Hi2.
    assert (Hfree : no_key_at base sender (wm_epoch message)).
    { assert (Hsub : si_keys base ⊆ si_keys s).
      { unfold base. rewrite <-Hk1. destruct (_ || _); [|done].
        apply displaced_keys. }
      assert (Habove : u64_N expected <= u64_N (wm_epoch message) →
        no_key_at base sender (wm_epoch message)).
      { intros Hge slot k Hk. eapply (no_key_above s sender (wm_epoch message)); [done|lia|].
        by eapply lookup_weaken. }
      destruct (si_candidates s !! sender) as [q|] eqn:Hcq; [|apply Habove, Hcl].
      destruct collision; [|by apply Habove, Hcl]. destruct Hcl as (-> & _).
      unfold base, displaced. rewrite orb_true_r, Hc1, Hcq.
      intros slot k. cbn. rewrite Hk1. eapply drop_keys_ok, Hc. }
    destruct Hs2 as ((Hl2 & Hf2 & _) & Hp2 & _ & _ & Hk2 & _).
    eapply wp_mono; [apply install_candidate_wp| |].
    + apply inv_almost; [done|congruence].
    + done.
    + by rewrite Hl2, Hp2, Hlb, Hpb, Hl1, Hp1.
    + left. unfold local_id. by rewrite Hl2, Hlb, Hl1.
    + unfold no_key_at. by rewrite Hk2.
    + cbn beta. intros session s' [Hi' (nx & file & -> & Hs)].
      split; [done|]. split; [done|]. eexists. cbn. rewrite lookup_insert_eq.
      do 4 (split; [done|]). right. exists key. split; [done|].
      eapply (inner_session_key _ _ _ _ _ (new_key_state key sender (wm_epoch message))
        (inv_core _ Hi')) in Hs as (Hk & _ & ?); [done| |done..].
      cbn. apply lookup_insert_eq.
    + cbn beta. by intros s' [?| ->].
  - eapply wp_mono; [apply install_wp| |done].
    + done.
    + congruence.
    + done.
    + by rewrite Hl1, Hp1.
    + left. unfold local_id. by rewrite Hl1.
    + cbn beta. intros session s' [Hi' (nx & file & -> & Hs)].
      split; [done|]. split; [done|]. eexists. cbn. rewrite lookup_insert_eq.
      do 4 (split; [done|]). right. exists key. split; [done|].
      eapply (inner_session_key _ _ _ _ _ (new_key_state key sender (wm_epoch message))
        (inv_core _ Hi')) in Hs as (Hk & _ & ?); [done| |done..].
      cbn. apply lookup_insert_eq.
Qed.

(** ** The other updates *)

Lemma query_wp {A} (f : StoreInner → Result A) s (E : StoreInner → Prop) :
  E s → wp (query f) (λ x s', s' = s ∧ f s = Ok x) E s.
Proof. intros HE. unfold query. apply wp_bind, lock_wp; [intros _|done]. apply wp_bind, wp_get. by wp_step. Qed.

Lemma persist_inv io s : almost s → wp (persist io) (λ _, inv) inv s.
Proof. intros Ha. eapply wp_mono; [by apply persist_wp| |done]. by intros _ s' [? _]. Qed.

Lemma almost_sub s s' : almost s → same_files s s' → si_peers s' ⊆ si_peers s →
  (∀ p, si_pairs s' !! p ≠ None ∨ si_candidates s' !! p ≠ None → si_peers s' !! p = si_peers s !! p) →
  si_pairs s' ⊆ si_pairs s → si_candidates s' ⊆ si_candidates s → si_keys s' ⊆ si_keys s →
  si_next_slot s' = si_next_slot s → si_epoch_watermarks s' = si_epoch_watermarks s → almost s'.
Proof.
  intros Ha Hf Hp Hsame Hq Hc Hk Hn Hw.
  eapply almost_change; [done|done| |eapply counters_subseteq; [exact Hk|apply Ha]].
  destruct (al_core s Ha) as [Il Ip Iq Ic Icap Ik Iw Ipast Islots]. destruct Hf as (Hl & _).
  assert (Hauth : ∀ (pairs pairs' : gmap PeerId PersistedPair),
    pairs' ⊆ pairs → (∀ p, pairs' !! p ≠ None → si_peers s' !! p = si_peers s !! p) →
    pairs_ok (li_document (si_local s)) (si_peers s) (si_epoch_watermarks s) pairs →
    pairs_ok (li_document (si_local s')) (si_peers s') (si_epoch_watermarks s') pairs').
  { intros pairs pairs' Hsub Hpe Hok p q Hpq. rewrite Hl, Hw.
    destruct (Hok p q) as (Hid & Hcp & He); [by eapply lookup_weaken|].
    split; [done|]. split; [|done]. eapply check_persisted_ext; [done|done| |exact Hcp].
    rewrite Hid. intros d Hd. exists d. split; [|done]. rewrite Hpe; [done|]. by rewrite Hpq. }
  split; unfold local_id.
  - by rewrite Hl.
  - rewrite Hl. intros p d Hd. apply Ip. by eapply lookup_weaken.
  - eapply Hauth; [exact Hq| |exact Iq]. auto.
  - eapply Hauth; [exact Hc| |exact Ic]. auto.
  - etransitivity; [by apply map_len_mono|done].
  - rewrite Hn, Hw. by eapply keys_ok_subseteq.
  - by rewrite Hw.
  - rewrite Hl, Hw. eapply offers_ok_sub; [apply wms_le_refl| |exact Ipast].
    intros p q. by apply held_subseteq.
  - by rewrite Hn.
Qed.

Lemma discard_candidate_wp io peer s : inv s → wp (discard_candidate io peer) (λ _, inv) inv s.
Proof.
  intros Hi. unfold discard_candidate. apply wp_bind, lock_wp; [intros Hf|done].
  apply wp_bind, wp_get. destruct (si_candidates s !! peer) as [q|]; [|by wp_step].
  do 3 (apply wp_bind; cbn). apply persist_inv.
  eapply almost_sub; [by apply inv_almost|done|done|done|done| | |done|done].
  - apply delete_subseteq.
  - apply map_filter_subseteq.
Qed.

Lemma discard_pair_wp io peer s : inv s → wp (discard_pair io peer) (λ _, inv) inv s.
Proof.
  intros Hi. unfold discard_pair. apply wp_bind, lock_wp; [intros Hf|done].
  do 8 (apply wp_bind; cbn). apply persist_inv.
  eapply almost_sub; [by apply inv_almost|done| | | | | |done|done]; cbn.
  - apply delete_subseteq.
  - intros p [Hp|Hp]; apply lookup_delete_ne; intros ->; by rewrite lookup_delete_eq in Hp.
  - apply delete_subseteq.
  - apply delete_subseteq.
  - apply map_filter_subseteq.
Qed.

Lemma observe_wp io peer epoch s :
  inv s → wp (observe_remote_epoch io peer epoch) (λ _, inv) inv s.
Proof.
  intros Hi. unfold observe_remote_epoch. apply wp_bind, lock_wp; [intros Hf|done].
  apply wp_bind, wp_get. wp_step; [|done]. wp_step; [|by wp_step].
  match goal with Hb : (_ <? _) = true |- _ => apply N.ltb_lt in Hb; rewrite wm_of_watermark in Hb end.
  apply wp_bind; cbn. apply persist_inv.
  eapply almost_change; [by apply inv_almost|done| |apply Hi].
  assert (Hle : wms_le (si_epoch_watermarks s) (<[peer := epoch]> (si_epoch_watermarks s))).
  { apply wms_le_insert. lia. }
  destruct (inv_core s Hi) as [? ? ? ? ? ? ? ? ?]. split; cbn; try done.
  - by eapply pairs_ok_wms.
  - by eapply pairs_ok_wms.
  - by eapply keys_ok_wms.
  - apply wms_ok_insert; [done|lia].
  - eapply offers_ok_sub; [exact Hle|by intros p q|done].
Qed.

Lemma block_wp peer owner s : inv s → wp (block_live_traffic peer owner) (λ _, inv) inv s.
Proof.
  intros Hi. unfold block_live_traffic. apply wp_bind, lock_wp; [intros Hf|done].
  by eapply same_core_inv.
Qed.

Lemma unblock_wp peer owner s : inv s → wp (unblock_live_traffic peer owner) (λ _, inv) inv s.
Proof.
  intros Hi. unfold unblock_live_traffic. apply wp_bind, lock_wp; [intros Hf|done].
  apply wp_bind, wp_get. destruct (si_mailbox_gates s !! peer); [|by wp_step].
  by eapply same_core_inv.
Qed.

Lemma mark_admitted_wp peer s : inv s → wp (mark_admitted peer) (λ _, inv) inv s.
Proof.
  intros Hi. unfold mark_admitted. apply wp_bind, lock_wp; [intros Hf|done].
  apply wp_bind, wp_get. do 2 (apply wp_bind; wp_step; [|done]). by eapply same_core_inv.
Qed.

Lemma retire_wp io handle s : inv s → wp (retire io handle) (λ _, inv) inv s.
Proof.
  intros Hi. unfold retire. apply wp_bind, lock_wp; [intros Hf|done].
  apply wp_bind, wp_get. wp_step; [|done]. apply wp_bind; cbn. apply persist_inv.
  eapply almost_sub; [by apply inv_almost|done|done|done|done|done| |done|done].
  apply delete_subseteq.
Qed.

Lemma promote_wp io peer epoch s :
  inv s → wp (promote_candidate io peer epoch) (λ _, inv) inv s.
Proof.
  intros Hi. pose proof (inv_core s Hi) as Hc. unfold promote_candidate.
  apply wp_bind, lock_wp; [intros Hf|done].
  apply wp_bind, wp_get. apply wp_bind. wp_step; [|done].
  match goal with Hx : ok_or _ _ = Ok ?x |- _ => rename x into q;
    destruct (si_candidates s !! peer) as [q'|] eqn:Hq; [|done]; injection Hx as -> end.
  apply wp_bind; cbn.
  assert (Hback : same_core s (set_candidates (<[peer := q]> (delete peer (si_candidates s)))
    (set_candidates (delete peer (si_candidates s)) s))).
  { split; [done|]. cbn. by rewrite insert_delete_eq, insert_id. }
  wp_step.
  { apply wp_bind; cbn. by eapply same_core_inv. }
  wp_step.
  { apply wp_bind; cbn. by eapply same_core_inv. }
  do 2 (apply wp_bind; cbn). apply wp_bind. eapply wp_mono; [apply persist_inv| |done].
  - eapply almost_change; [by apply inv_almost|done| |apply Hi].
    destruct (ci_candidates s Hc _ _ Hq) as (? & ? & ? & ?).
    destruct Hc as [? ? ? ? ? ? ? ? ?]. split; cbn; try done.
    + by apply pairs_ok_insert.
    + eapply pairs_ok_subseteq; [apply delete_subseteq|done].
    + etransitivity; [apply map_len_mono, delete_subseteq|done].
    + eapply offers_ok_sub; [apply wms_le_refl| |eassumption].
      intros p x [[[<- <-]|[_ ?]]%lookup_insert_Some|[_ ?]%lookup_delete_Some]; unfold held; auto.
  - cbn beta. intros _ s' Hi'. by repeat wp_step.
Qed.

(** An operation on a key's counters and windows keeps what the key is for. *)
Definition keeps_key {A} (operation : SM PairKeyState A) : Prop :=
  ∀ k, let k' := (operation k).2 in
    ks_key k' = ks_key k ∧ ks_peer_id k' = ks_peer_id k ∧ ks_epoch k' = ks_epoch k
    ∧ ∀ pt c, send_counter pt k = Some c →
        ∃ c', send_counter pt k' = Some c' ∧ u64_N c <= u64_N c'.

Lemma with_pair_state_wp {A} handle (operation : SM PairKeyState A) s :
  keeps_key operation → inv s → wp (with_pair_state handle operation) (λ _, inv) inv s.
Proof.
  intros Hop Hi. pose proof (inv_core s Hi) as Hc. unfold with_pair_state.
  apply wp_bind, lock_wp; [intros Hf|done].
  apply wp_bind, wp_get. wp_step; [|done]. apply wp_bind. wp_step; [|done].
  match goal with Hx : ok_or _ _ = Ok ?x |- _ => rename x into k;
    destruct (si_keys s !! kh_slot handle) as [k'|] eqn:Hk; [|done]; injection Hx as -> end.
  specialize (Hop k). destruct (operation k) as [result k'] eqn:Ho. cbn in Hop.
  destruct Hop as (Hkey & Hpeer & Hepoch & Hcount). apply wp_bind; cbn.
  assert (Hi' : inv (set_keys (<[kh_slot handle := k']> (si_keys s)) s)).
  { eapply inv_change; [done|done| |done|].
    2: { cbn. intros slot head pt l Hin [[<- <-]|[_ Hl]]%lookup_insert_Some; [|by eapply (inv_counters s Hi)].
         destruct (inv_counters s Hi _ _ _ _ Hin Hk) as (c & Hcs & Hle).
         destruct (Hcount _ _ Hcs) as (c' & Hcs' & ?). exists c'. split; [done|lia]. }
    destruct Hc as [? ? ? ? ? [Hb Hu] ? ? ?].
    split; cbn; try done. split.
    - intros slot l [[<- <-]|[? ?]]%lookup_insert_Some; [|by apply Hb].
      rewrite Hpeer, Hepoch. by apply Hb.
    - intros a b x y [[<- <-]|[? ?]]%lookup_insert_Some
        [[<- <-]|[? ?]]%lookup_insert_Some; [done| | |by eauto].
      + rewrite Hpeer, Hepoch. by eauto.
      + rewrite Hpeer, Hepoch. by eauto. }
  by destruct result.
Qed.

Lemma keeps_refl (k : PairKeyState) pt c :
  send_counter pt k = Some c → ∃ c', send_counter pt k = Some c' ∧ u64_N c <= u64_N c'.
Proof. eauto using N.le_refl. Qed.

(** A reservation succeeds for a number above the counter, which it becomes. *)
Lemma reserve_send_cases pt n k :
  (reserve_send pt n k = (Ok tt, set_send_counter pt (Some n) k)
   ∧ ∀ c, send_counter pt k = Some c → u64_N c < u64_N n)
  ∨ ∃ e, reserve_send pt n k = (Err e, k).
Proof.
  unfold reserve_send, sm_bind, sm_get, sm_put, sm_err.
  destruct (send_counter pt k) as [last|] eqn:Hl; [|by left].
  destruct (N.leb_spec (u64_N n) (u64_N last)); cbn; [right; by eexists|left].
  split; [done|]. by intros c [= <-].
Qed.

Lemma send_counter_set pt n k : send_counter pt (set_send_counter pt (Some n) k) = Some n.
Proof. by destruct pt. Qed.

Lemma send_counter_set_other pt pt' n k :
  pt ≠ pt' → send_counter pt (set_send_counter pt' n k) = send_counter pt k.
Proof. by destruct pt, pt'. Qed.

(** Either nothing happened to the key, or the number was reserved. *)
Lemma seal_key_cases local header pt n aad text k :
  (∃ e, seal_key local header pt n aad text k = (Err e, k))
  ∨ seal_key local header pt n aad text k
      = (ok_or (gcm_encrypt (ks_key k) n aad text) AuthenticationFailed,
         set_send_counter pt (Some (hdr_seq header)) k)
    ∧ (∃ w, validate_header local k header pt n Outbound = Ok w)
    ∧ ∀ c, send_counter pt k = Some c → u64_N c < u64_N (hdr_seq header).
Proof.
  unfold seal_key. unfold sm_bind at 1 2. cbn.
  destruct (validate_header _ _ _ _ _ _) as [w|e] eqn:Hv; cbn; [|left; by eexists].
  unfold sm_bind. destruct (reserve_send_cases pt (hdr_seq header) k) as [[-> Hlt]|[e ->]];
    [right|left; by eexists].
  unfold sm_lift. destruct pt; cbn; eauto.
Qed.

Lemma seal_key_keeps local header pt n aad text : keeps_key (seal_key local header pt n aad text).
Proof.
  intros k. destruct (seal_key_cases local header pt n aad text k) as [[e ->]|(-> & _ & Hlt)].
  - do 3 (split; [done|]). apply keeps_refl.
  - cbn. do 3 (split; [by destruct pt|]). intros pt' c Hc.
    destruct (decide (pt' = pt)) as [->|Hne].
    + rewrite send_counter_set. exists (hdr_seq header). split; [done|]. apply Hlt in Hc. lia.
    + rewrite send_counter_set_other by done. eauto using N.le_refl.
Qed.

Lemma open_key_keeps local header pt n aad text : keeps_key (open_key local header pt n aad text).
Proof.
  intros k. unfold open_key, sm_bind, sm_get, sm_lift, sm_put, sm_ret. cbn.
  destruct (validate_header _ _ _ _ _ _); [|do 3 (split; [done|]); apply keeps_refl]. cbn.
  assert (Hset : ∀ r, let k' := set_replay r k in
    ks_key k' = ks_key k ∧ ks_peer_id k' = ks_peer_id k ∧ ks_epoch k' = ks_epoch k
    ∧ ∀ pt c, send_counter pt k = Some c → ∃ c', send_counter pt k' = Some c' ∧ u64_N c <= u64_N c').
  { intros r. do 3 (split; [done|]). intros pt' c Hc. exists c. by destruct pt'. }
  destruct (check _ _); [|by apply Hset]. cbn. destruct (gcm_decrypt _ _ _ _); [|by apply Hset]. cbn.
  destruct (accept _ _); by apply Hset.
Qed.

Lemma seal_wp handle n aad text s : inv s → wp (seal handle n aad text) (λ _, inv) inv s.
Proof.
  intros Hi. unfold seal. apply wp_bind. eapply wp_mono; [by apply query_wp| |done].
  cbn beta. intros local s' [-> _]. apply wp_bind. wp_step; [|done]. destruct x as [header pt].
  by apply with_pair_state_wp; [apply seal_key_keeps|].
Qed.

Lemma open_wp handle n aad text s : inv s → wp (open handle n aad text) (λ _, inv) inv s.
Proof.
  intros Hi. unfold open. apply wp_bind. eapply wp_mono; [by apply query_wp| |done].
  cbn beta. intros local s' [-> _]. apply wp_bind. wp_step; [|done]. destruct x as [header pt].
  by apply with_pair_state_wp; [apply open_key_keeps|].
Qed.

(** ** Retries, rotation and imports *)

Lemma create_inv input peer ek epoch candidate s :
  inv s → wp (create_inner input peer ek epoch candidate) (λ _, inv) inv s.
Proof. intros Hi. eapply wp_mono; [by apply create_inner_wp| |done]. by intros r s' [? _]. Qed.

Lemma retry_collision_wp input peer s : inv s → wp (retry_collision input peer) (λ _, inv) inv s.
Proof.
  intros Hi. unfold retry_collision. apply wp_bind, lock_wp; [intros Hf|done].
  apply wp_bind, wp_get. do 2 (apply wp_bind; wp_step; [|done]). by apply create_inv.
Qed.

Lemma retry_candidate_collision_wp io input peer s :
  inv s → wp (retry_candidate_collision io input peer) (λ _, inv) inv s.
Proof.
  intros Hi. unfold retry_candidate_collision. apply wp_bind, lock_wp; [intros Hf|done].
  apply wp_bind, wp_get. do 2 (apply wp_bind; wp_step; [|done]). apply wp_bind.
  eapply wp_mono; [by apply discard_candidate_wp| |done]. cbn beta. intros _ s' Hi'.
  by apply create_inv.
Qed.

Lemma create_each_wp inputs peers s : inv s → wp (create_each inputs peers) (λ _, inv) inv s.
Proof.
  revert inputs s. induction peers as [|[peer ek] peers IH]; intros inputs s Hi;
    destruct inputs as [|input inputs]; cbn [create_each]; try by wp_step.
  apply wp_bind. eapply wp_mono; [by apply query_wp| |done]. cbn beta. intros next s' [-> _].
  apply wp_bind. eapply wp_mono; [by apply create_inv| |done]. cbn beta. intros _ s1 Hi1.
  by apply IH.
Qed.

Lemma rotate_all_wp inputs s : inv s → wp (rotate_all inputs) (λ _, inv) inv s.
Proof.
  intros Hi. unfold rotate_all. apply wp_bind, lock_wp; [intros Hf|done].
  apply wp_bind, wp_get. apply wp_bind; wp_step; [|done]. apply wp_bind.
  eapply wp_mono; [by apply create_each_wp| |done]. cbn beta. intros _ s' Hi'. by wp_step.
Qed.

(** Two verification keys of one peer id would be a SHA-256 collision; the imported key does
    not collide with the one on file. *)
Definition no_vk_collision (s : StoreInner) (document : IdentityDocument) : Prop :=
  ∀ previous, si_peers s !! doc_peer_id document = Some previous →
    peer_id (doc_vk previous) = peer_id (doc_vk document) → doc_vk previous = doc_vk document.

Lemma import_peer_wp io input document s :
  no_vk_collision s document → inv s → wp (import_peer io input document) (λ _, inv) inv s.
Proof.
  intros Hnc Hi. pose proof (inv_core s Hi) as Hc. unfold import_peer.
  apply wp_bind. wp_step; [|done].
  match goal with Hv : verify_identity _ = Ok ?u |- _ => destruct u; rename Hv into Hver end.
  apply wp_bind, lock_wp; [intros Hf|done]. apply wp_bind, wp_get.
  wp_step; [|done]. wp_step; [|done].
  match goal with Hb : negb (bool_decide _) = true |- _ =>
    apply negb_true_iff, bool_decide_eq_false in Hb; rename Hb into Hlocal end.
  apply wp_bind; cbn. apply wp_bind.
  set (s1 := set_peers (<[doc_peer_id document := document]> (si_peers s)) s).
  assert (Hext : ∀ pairs, pairs_ok (li_document (si_local s)) (si_peers s) (si_epoch_watermarks s) pairs →
    pairs_ok (li_document (si_local s)) (<[doc_peer_id document := document]> (si_peers s))
      (si_epoch_watermarks s) pairs).
  { intros pairs Hok p q (Hid & Hcp & He)%Hok. split; [done|]. split; [|done].
    eapply check_persisted_ext; [done|done| |exact Hcp]. rewrite Hid. intros d Hd.
    destruct (ci_peers s Hc _ _ Hd) as (Hdp & _ & Hdv).
    rewrite lookup_insert. case_decide as Hpe; [|by exists d].
    exists document. split; [done|]. split; [congruence|].
    apply Hnc; [by rewrite Hpe|]. rewrite <-!verify_peer by done. congruence. }
  assert (Ha : almost s1).
  { eapply almost_change; [by apply inv_almost|done| |apply Hi].
    destruct Hc as [? Hp ? ? ? ? ? ? ?]. split; cbn; try done; [|by apply Hext|by apply Hext].
    intros p d [[<- <-]|[? ?]]%lookup_insert_Some; [|by apply Hp]. done. }
  eapply wp_mono; [by apply persist_wp| |done]. cbn beta. intros _ s2 [Hi2 _].
  wp_step; [|by wp_step]. apply wp_bind. eapply wp_mono; [by apply query_wp| |done].
  cbn beta. intros next s3 [-> _]. unfold wp.
  pose proof (create_inv input (doc_peer_id document) (doc_ek document) next false s2 Hi2) as Hcr.
  unfold wp in Hcr. unfold create. destruct (create_inner _ _ _ _ _ s2) as [[r|e] s4]; [done|].
  destruct (si_failed s4) eqn:Hf4; [done|]. cbn. destruct Hcr as [Hc4 Hcur4 Hk4 Hr4].
  split; [by eapply core_inv_ext|by cbn|exact Hk4|exact Hr4].
Qed.

Lemma encode_local_identity_nonempty local content :
  encode_local_identity local = Ok content → content ≠ [].
Proof.
  unfold encode_local_identity. destruct (identity_m _); [|done]. cbn [res_bind].
  intros (b1 & b2 & Hm%put_Ok & _ & ->)%cat_Ok. rewrite Hm. done.
Qed.

Lemma rotate_ek_Ok local kem_seed now rotated :
  local_ok local → rotate_ek local kem_seed now = Ok rotated →
  local_ok rotated ∧ same_signer local rotated ∧ li_signing_seed rotated = li_signing_seed local.
Proof.
  intros Hl. unfold rotate_ek. destruct (ok_or _ _) as [c|]; [|done]. cbn [res_bind].
  intros Hn. pose proof (new_identity_Ok _ _ _ _ Hn) as (Hs & _ & Hseed & Hp).
  assert (Hkem : li_kem_seed rotated = kem_seed).
  { unfold new_identity in Hn. destruct (identity_m _); [|done]. cbn in Hn.
    destruct (sign _ _ _); [|done]. by injection Hn as <-. }
  assert (Hr : local_ok rotated) by (unfold local_ok; by rewrite Hseed, Hkem).
  destruct (local_ok_vk local Hl) as (Hvk & _ & _ & Hid).
  destruct (local_ok_vk rotated Hr) as (Hvk' & _ & _ & Hid').
  split; [done|]. split; [|done]. split; [|congruence]. rewrite Hid, Hid'. congruence.
Qed.

Lemma rotate_identity_ek_wp kem_seed now io s :
  inv s → wp (rotate_identity_ek kem_seed now io) (λ _, inv) inv s.
Proof.
  intros Hi. pose proof (inv_core s Hi) as Hc. unfold rotate_identity_ek.
  apply wp_bind, lock_wp; [intros Hf|done]. apply wp_bind, wp_get.
  apply wp_bind. wp_step; [|done]. apply wp_bind. wp_step; [|done].
  match goal with Hr : rotate_ek _ _ _ = Ok ?x |- _ => rename x into rotated;
    apply rotate_ek_Ok in Hr as (Hl & [Hsid Hsvk] & _); [|apply Hc] end.
  apply wp_bind. wp_step; [|done].
  match goal with He : encode_local_identity _ = Ok ?x |- _ => rename x into content;
    rename He into Henc end.
  destruct Hi as [_ Hcur Hk0 Hrec]. destruct (Hcur Hf) as [Hst Hid].
  destruct Hrec as (l0 & Hl0 & [Hl0i Hl0v] & Hid0 & Hst0).
  assert (Hnew : lenN content <= MAX_STORE_BYTES → identity_file_holds (Some content) rotated).
  { intros Hlen. exists content. split; [done|]. split; [done|].
    split; [by eapply encode_local_identity_nonempty|done]. }
  unfold wp, atomic_write. destruct (N.ltb_spec MAX_STORE_BYTES (lenN content)) as [|Hle].
  { split; cbn; [by eapply core_inv_ext|done|done|]. by exists l0. }
  specialize (Hnew Hle). destruct io as [|e renamed].
  - split; cbn.
    + destruct Hc as [? ? Hq Hcq ? ? ? ? ?].
      assert (Hext : ∀ pairs, pairs_ok (li_document (si_local s)) (si_peers s) (si_epoch_watermarks s) pairs →
        pairs_ok (li_document rotated) (si_peers s) (si_epoch_watermarks s) pairs).
      { intros pairs Hok p q (Hpid & Hcp & He)%Hok. split; [done|]. split; [|done].
        eapply check_persisted_ext; [exact Hsid|exact Hsvk| |exact Hcp]. eauto. }
      split; unfold local_id; cbn; try done; rewrite <-?Hsid;
        [done|by apply Hext|by apply Hext|done].
    + intros _. split; [|done]. destruct Hst as (s1 & Hc1 & ([? ?] & ? & ? & ? & ? & ?) & Hst).
      exists s1. split; [done|]. split; [|done]. repeat split; cbn; try congruence. done.
    + exact Hk0.
    + exists rotated. split; [done|]. split; [done|]. split; [done|].
      destruct Hst0 as [|(s1 & ? & [? ?] & ?)]; [by left|right].
      exists s1. split; [done|]. split; [|done]. split; cbn; congruence.
  - split; cbn; [by eapply core_inv_ext|done|done|]. destruct renamed; [|by exists l0].
    exists rotated. split; [done|]. split; [done|]. by split.
Qed.

(** ** Reads leave the store as it was *)

Lemma query_state {A} (f : StoreInner → Result A) s : (query f s).2 = s.
Proof. unfold query, sm_bind, lock. by destruct (si_failed s). Qed.

Lemma query_Ok {A} (f : StoreInner → Result A) s x s' :
  query f s = (Ok x, s') → s' = s ∧ si_failed s = false ∧ f s = Ok x.
Proof.
  unfold query, sm_bind, lock, sm_get, sm_lift. destruct (si_failed s); [done|].
  intros [= ? ->]. done.
Qed.

Lemma set_keys_same slot k s : si_keys s !! slot = Some k → set_keys (<[slot := k]> (si_keys s)) s = s.
Proof. intros Hk. rewrite insert_id by done. by destruct s. Qed.

Lemma next_outbound_seq_Ok handle pt s n s' :
  next_outbound_seq handle pt s = (Ok n, s') →
  s' = s ∧ ∃ k, si_keys s !! kh_slot handle = Some k ∧ key_next_outbound_seq pt k = Ok n.
Proof.
  unfold next_outbound_seq, with_pair_state, sm_bind, lock, sm_get, sm_lift, modify.
  destruct (si_failed s); [done|]. destruct (bool_decide _); [|done].
  destruct (si_keys s !! kh_slot handle) as [k|] eqn:Hk; [|done]. cbn.
  intros [= Hn <-]. split; [by apply set_keys_same|]. by exists k.
Qed.

Lemma next_outbound_seq_state handle pt s : (next_outbound_seq handle pt s).2 = s.
Proof.
  unfold next_outbound_seq, with_pair_state, sm_bind, lock, sm_get, sm_lift, modify.
  destruct (si_failed s); [done|]. destruct (bool_decide _); [|done].
  destruct (si_keys s !! kh_slot handle) as [k|] eqn:Hk; [|done]. cbn. by apply set_keys_same.
Qed.

(** ** A sealed packet at the other end *)

(** Opening under the same key what [seal] returned. *)
Lemma open_key_sealed la lb header pt aad plaintext ciphertext ka ka' kb :
  seal_key la header pt (nonce header pt) aad plaintext ka = (Ok ciphertext, ka') →
  ks_key kb = ks_key ka → ks_epoch kb = ks_epoch ka → ks_peer_id ka = lb → ks_peer_id kb = la →
  check (window_of (mkReplayWindowKey la (ks_epoch kb) Inbound pt) kb) (hdr_seq header) = Ok tt →
  (open_key lb header pt (nonce header pt) aad ciphertext kb).1 = Ok plaintext.
Proof.
  intros Hs Hkey Hepoch <- Hpeer Hwin.
  destruct (seal_key_cases la header pt (nonce header pt) aad plaintext ka)
    as [[e He]|(He & [w Hv] & _)]; rewrite He in Hs; [done|].
  injection Hs as Hct _. destruct (gcm_encrypt _ _ _ _) as [c|] eqn:Hg; [|done]. injection Hct as ->.
  unfold validate_header in Hv. unfold open_key, sm_bind, sm_get, sm_lift, sm_put, sm_ret.
  assert (validate_header (ks_peer_id ka) kb header pt (nonce header pt) Inbound
    = Ok (mkReplayWindowKey (ks_peer_id kb) (ks_epoch kb) Inbound pt)) as ->.
  { unfold validate_header. rewrite Hepoch, Hpeer.
    destruct (negb (bool_decide (hdr_version header = _))); [done|].
    destruct (bool_decide (hdr_sender_id header = la)); [|done].
    destruct (bool_decide (hdr_receiver_id header = ks_peer_id ka)); [|done]. cbn in Hv |- *.
    destruct (negb _); [done|]. by rewrite bool_decide_eq_true_2. }
  cbn. rewrite Hpeer, Hwin. cbn. rewrite Hkey, (gcm_decrypt_encrypt _ _ _ _ _ Hg). cbn.
  destruct (accept _ _) as [w'|] eqn:Hacc; [done|]. exfalso. unfold accept in Hacc.
  by rewrite Hwin in Hacc.
Qed.

(** The result of a method on the key behind a handle. *)
Lemma with_pair_state_key {A} handle (operation : SM PairKeyState A) s k :
  si_failed s = false → kh_store_id handle = si_instance_id s →
  si_keys s !! kh_slot handle = Some k →
  with_pair_state handle operation s
  = ((operation k).1, set_keys (<[kh_slot handle := (operation k).2]> (si_keys s)) s).
Proof.
  intros Hf Hid Hk. unfold with_pair_state, sm_bind, lock, sm_get. rewrite Hf.
  rewrite bool_decide_eq_true_2 by done. unfold sm_lift. rewrite Hk. cbn.
  by destruct (operation k) as [[x|e] k'].
Qed.

Lemma seal_opens sa sb ha hb ka kb header pt aad plaintext ciphertext sa' :
  seal ha (nonce header pt) aad plaintext sa = (Ok ciphertext, sa') →
  decode_aad aad = Ok (header, pt) →
  si_keys sa !! kh_slot ha = Some ka → si_keys sb !! kh_slot hb = Some kb →
  kh_store_id hb = si_instance_id sb → si_failed sb = false →
  ks_key kb = ks_key ka → ks_epoch kb = ks_epoch ka →
  ks_peer_id ka = local_id sb → ks_peer_id kb = local_id sa →
  check (window_of (mkReplayWindowKey (local_id sa) (ks_epoch kb) Inbound pt) kb) (hdr_seq header)
    = Ok tt →
  (open hb (nonce header pt) aad ciphertext sb).1 = Ok plaintext.
Proof.
  intros Hs Haad Hka Hkb Hid Hf Hkey Hepoch Hpa Hpb Hwin.
  unfold seal, ks_peer, query, sm_bind, lock, sm_get, sm_lift in Hs.
  destruct (si_failed sa) eqn:Hfa; [done|]. rewrite Haad in Hs.
  destruct (decide (kh_store_id ha = si_instance_id sa)) as [Hida|Hne].
  2: { unfold with_pair_state, sm_bind, lock, sm_get in Hs. rewrite Hfa in Hs.
       by rewrite bool_decide_eq_false_2 in Hs. }
  rewrite (with_pair_state_key ha _ sa ka) in Hs by done.
  destruct (seal_key _ _ _ _ _ _ ka) as [r ka'] eqn:Hsk. injection Hs as -> _.
  unfold open, ks_peer, query, sm_bind, lock, sm_get, sm_lift. rewrite Hf, Haad.
  rewrite (with_pair_state_key hb _ sb kb) by done. cbn [fst].
  by eapply open_key_sealed.
Qed.
End ops.
