(* ===== verification/KeyStoreOpen.v ===== *)
(** * Crashes, restarts and the key store's guarantees

    Whatever a running store leaves on disk, [KeyStore::open] accepts it: the loop over each
    section of the state file rebuilds the peers, the pairs and the watermarks that were
    written, and drops candidates and keys.  [machine] is the store through commands, crashes
    and restarts. *)
From S2P Require Export KeyStoreOps.
From Stdlib Require Import Lia ZifyN ZifyNat.

Open Scope N_scope.

Section open.
Context `{Sha256, MlDsa65, XWing, AesGcm, HkdfSha256, Past}.

(** ** The sections of the state file *)

Lemma list_to_map_union_cons {V} (k : PeerId) (v : V) (l : list (PeerId * V)) (m : gmap PeerId V) :
  k ∉ l.*1 → list_to_map l ∪ <[k := v]> m = list_to_map ((k, v) :: l) ∪ m.
Proof.
  intros Hk. cbn. rewrite <-insert_union_r; [by rewrite insert_union_l|].
  by apply not_elem_of_list_to_map_1.
Qed.

Lemma load_watermarks_Ok l s :
  NoDup l.*1 → (∀ p e, (p, e) ∈ l → 1 <= u64_N e) →
  (∀ p, p ∈ l.*1 → si_epoch_watermarks s !! p = None) →
  load_watermarks l s
  = Ok (set_epoch_watermarks (list_to_map l ∪ si_epoch_watermarks s) s).
Proof.
  revert s. induction l as [|[p e] l IH]; intros s; cbn [load_watermarks].
  - intros _ _ _. cbn. rewrite map_empty_union. by destruct s.
  - rewrite fmap_cons, NoDup_cons. intros [Hp Hnd] He Hn.
    rewrite bool_decide_eq_false_2.
    2: { intros ->. specialize (He p u64_zero ltac:(left)). by cbn in He. }
    rewrite bool_decide_eq_false_2.
    2: { rewrite (Hn p) by left. by intros [? ?]. }
    cbn [orb]. rewrite IH; [|done| |].
    + cbn. by rewrite list_to_map_union_cons.
    + intros q x Hin. apply (He q). by right.
    + intros q Hq. cbn. rewrite lookup_insert_ne; [apply Hn; by right|]. by intros ->.
Qed.

Lemma load_peers_Ok l s :
  NoDup (doc_peer_id <$> l) →
  (∀ d, d ∈ l → verify_identity d = Ok tt ∧ doc_peer_id d ≠ local_id s) →
  (∀ p, p ∈ doc_peer_id <$> l → si_peers s !! p = None) →
  load_peers l s
  = Ok (set_peers (list_to_map ((λ d, (doc_peer_id d, d)) <$> l) ∪ si_peers s) s).
Proof.
  revert s. induction l as [|d l IH]; intros s; cbn [load_peers].
  - intros _ _ _. cbn. rewrite map_empty_union. by destruct s.
  - rewrite fmap_cons, NoDup_cons. intros [Hp Hnd] Hd Hn.
    destruct (Hd d) as [-> Hne]; [left|]. cbn [res_bind].
    rewrite bool_decide_eq_false_2 by done. rewrite bool_decide_eq_false_2.
    2: { rewrite (Hn (doc_peer_id d)) by left. by intros [? ?]. }
    cbn [orb]. rewrite IH; [|done| |].
    + cbn [si_peers set_peers]. rewrite list_to_map_union_cons; [done|].
      rewrite <-list_fmap_compose. exact Hp.
    + intros d' Hin. apply Hd. by right.
    + intros q Hq. cbn. rewrite lookup_insert_ne; [apply Hn; by right|]. intros Heq.
      by rewrite Heq in Hp.
Qed.

(** A watermark at least as high is left alone. *)
Lemma raise_noop p (e : u64) s :
  1 <= u64_N e → u64_N e <= wm_of (si_epoch_watermarks s) p → raise_watermark p e s = s.
Proof.
  intros H1e Hle. unfold raise_watermark, watermark, wm_of in *.
  destruct (si_epoch_watermarks s !! p) as [w|] eqn:Hw; cbn in *; [|lia].
  assert (u64_max w e = w) as -> by (apply u64_eq; rewrite u64_max_N; lia).
  rewrite insert_id by done. by destruct s.
Qed.

Definition keyed_pairs (l : list PersistedPair) : list (PeerId * PersistedPair) :=
  (λ q, (pp_peer_id q, q)) <$> l.

Definition loadable (s : StoreInner) (q : PersistedPair) : Prop :=
  check_persisted (li_document (si_local s)) (si_peers s) q = Ok tt
  ∧ 1 <= u64_N (pp_epoch q) ∧ u64_N (pp_epoch q) <= wm_of (si_epoch_watermarks s) (pp_peer_id q).

Lemma load_pairs_Ok l s :
  NoDup (pp_peer_id <$> l) → (∀ q, q ∈ l → loadable s q) →
  (∀ p, p ∈ pp_peer_id <$> l → si_pairs s !! p = None) →
  load_pairs l s = Ok (set_pairs (list_to_map (keyed_pairs l) ∪ si_pairs s) s).
Proof.
  revert s. induction l as [|q l IH]; intros s; cbn [load_pairs].
  - intros _ _ _. cbn. rewrite map_empty_union. by destruct s.
  - rewrite fmap_cons, NoDup_cons. intros [Hp Hnd] Hq Hn.
    destruct (Hq q) as (-> & H1e & Hle); [left|]. cbn [res_bind].
    rewrite bool_decide_eq_false_2.
    2: { rewrite (Hn (pp_peer_id q)) by left. by intros [? ?]. }
    rewrite raise_noop by done. rewrite IH; [|done| |].
    + unfold keyed_pairs. cbn [si_pairs set_pairs]. rewrite fmap_cons, <-list_to_map_union_cons; [done|].
      rewrite <-list_fmap_compose. exact Hp.
    + intros q' Hin. apply Hq. by right.
    + intros p Hin. cbn. rewrite lookup_insert_ne; [apply Hn; by right|]. intros Heq.
      by rewrite Heq in Hp.
Qed.

Lemma load_candidates_Ok (seen : gset PeerId) l s :
  NoDup (pp_peer_id <$> l) → (∀ q, q ∈ l → loadable s q) →
  (∀ p, p ∈ pp_peer_id <$> l → p ∉ seen) → load_candidates seen l s = Ok s.
Proof.
  revert seen. induction l as [|q l IH]; intros seen; cbn [load_candidates]; [done|].
  rewrite fmap_cons, NoDup_cons. intros [Hp Hnd] Hq Hn.
  destruct (Hq q) as (-> & H1e & Hle); [left|]. cbn [res_bind].
  rewrite bool_decide_eq_false_2 by (apply Hn; left). rewrite raise_noop by done.
  apply IH; [done| |].
  - intros q' Hin. apply Hq. by right.
  - intros p Hin Hs. apply elem_of_union in Hs as [->%elem_of_singleton|Hs]; [done|].
    apply (Hn p); [by right|done].
Qed.

(** ** Reopening *)

(** The store that [load_store] rebuilds from what [s] wrote. *)
Definition reopened (local : LocalIdentity) (instance_id : array 32) (files : Files)
    (s : StoreInner) : StoreInner :=
  mkStoreInner local (si_peers s) (si_pairs s) ∅ ∅ ∅ ∅ (si_epoch_watermarks s) instance_id
    (si_next_slot s) ∅ ∅ false (f_state files) (f_identity files).

Lemma map_values_keyed {V} (key : V → PeerId) (m : gmap PeerId V) :
  (∀ p v, m !! p = Some v → key v = p) →
  (λ v, (key v, v)) <$> map_values m = sorted_entries m.
Proof.
  intros Hk. unfold map_values. rewrite <-list_fmap_compose, <-list_fmap_id.
  apply list_fmap_ext. intros i [p v] Hi%list_elem_of_lookup_2. cbn.
  apply elem_of_sorted_entries, Hk in Hi as ->. done.
Qed.

Lemma map_values_NoDup {V} (key : V → PeerId) (m : gmap PeerId V) :
  (∀ p v, m !! p = Some v → key v = p) → NoDup (key <$> map_values m).
Proof.
  intros Hk. pose proof (map_values_keyed key m Hk) as Hv.
  apply (f_equal (fmap fst)) in Hv. rewrite <-list_fmap_compose in Hv.
  change (key <$> map_values m) with ((fst ∘ (λ v, (key v, v))) <$> map_values m).
  rewrite Hv. apply sorted_entries_NoDup.
Qed.

Lemma load_state_reopens local instance_id files s content :
  core_inv s → local_ok local → same_signer (si_local s) local →
  lenN content <= MAX_STORE_BYTES → encode_store_state (persisted_state s) = Ok content →
  load_state content (fresh_store local instance_id files)
  = Ok (reopened local instance_id files s).
Proof.
  intros [Hl Hp Hq Hc Hcap Hk Hw _ _] Hlocal [Hid Hvk] Hlen He. unfold load_state.
  assert (Hfits : fits content).
  { unfold fits, usize_limit, u64_limit, MAX_STORE_BYTES in *. lia. }
  rewrite (decode_store_state_intro _ _ Hfits He).
  cbn [res_bind persisted_state ps_local_id ps_next_slot ps_epoch_watermarks ps_peers ps_pairs
       ps_candidates].
  rewrite bool_decide_eq_true_2 by exact Hid. cbn [negb].
  assert (Hauth : ∀ pairs, pairs_ok (li_document (si_local s)) (si_peers s) (si_epoch_watermarks s) pairs →
    ∀ q, q ∈ map_values pairs → check_persisted (li_document local) (si_peers s) q = Ok tt
      ∧ 1 <= u64_N (pp_epoch q) ∧ u64_N (pp_epoch q) <= wm_of (si_epoch_watermarks s) (pp_peer_id q)).
  { intros pairs Hok q [p Hpq]%elem_of_map_values. destruct (Hok p q Hpq) as (-> & Hcp & ? & ?).
    split; [|done]. eapply check_persisted_ext; [exact Hid|exact Hvk| |exact Hcp]. eauto. }
  rewrite load_watermarks_Ok; [|apply sorted_entries_NoDup| |].
  2: { intros p e Hin%elem_of_sorted_entries. by eapply Hw. }
  2: { intros p _. apply lookup_empty. }
  cbn [res_bind]. rewrite list_to_map_sorted_entries. cbn [si_epoch_watermarks set_next_slot fresh_store].
  rewrite map_union_empty.
  rewrite load_peers_Ok.
  2: { apply map_values_NoDup. intros p d Hd. by apply Hp in Hd as [? _]. }
  2: { intros d [p Hd]%elem_of_map_values. apply Hp in Hd as (<- & Hne & ?). split; [done|].
       unfold local_id in *. cbn. by rewrite <-Hid. }
  2: { intros p _. apply lookup_empty. }
  cbn [res_bind si_peers set_peers set_epoch_watermarks set_next_slot fresh_store].
  rewrite map_values_keyed, list_to_map_sorted_entries, map_union_empty.
  2: { intros p d Hd. by apply Hp in Hd as [? _]. }
  rewrite load_pairs_Ok.
  2: { apply map_values_NoDup. intros p q Hpq. by apply Hq in Hpq as [? _]. }
  2: { intros q Hin. by apply (Hauth (si_pairs s)). }
  2: { intros p _. apply lookup_empty. }
  cbn [res_bind si_pairs set_pairs set_peers set_epoch_watermarks set_next_slot fresh_store].
  unfold keyed_pairs. rewrite map_values_keyed, list_to_map_sorted_entries, map_union_empty.
  2: { intros p q Hpq. by apply Hq in Hpq as [? _]. }
  assert (lenN (map_values (si_candidates s)) = map_len (si_candidates s)) as ->.
  { unfold map_values, lenN. rewrite length_fmap. apply sorted_entries_len. }
  rewrite (proj2 (N.ltb_ge _ _)) by done.
  rewrite load_candidates_Ok; [done| | |].
  - apply map_values_NoDup. intros p q Hpq. by apply Hc in Hpq as [? _].
  - intros q Hin. by apply (Hauth (si_candidates s)).
  - intros p _. apply not_elem_of_empty.
Qed.

(** What may be on disk while no store runs: nothing yet, or files that open again. *)
Definition files_ok (files : Files) : Prop :=
  (files = mkFiles None None ∧ fresh_past) ∨ ∃ signer, files_recoverable signer files.

Lemma new_identity_local_ok signing_seed kem_seed now local :
  new_identity signing_seed kem_seed now = Ok local → local_ok local.
Proof.
  intros Hn. pose proof (new_identity_Ok _ _ _ _ Hn) as (Hs & _ & Hseed & _).
  unfold new_identity in Hn. destruct (identity_m _); [|done]. cbn in Hn.
  destruct (sign _ _ _); [|done]. injection Hn as <-. exact Hs.
Qed.

Lemma fits_store_file {A} (content : list A) : lenN content <= MAX_STORE_BYTES → lenN content < usize_limit.
Proof. unfold usize_limit, u64_limit, MAX_STORE_BYTES. lia. Qed.

Lemma read_private_ok content :
  lenN content <= MAX_STORE_BYTES → read_private (Some content) = Ok (Some content).
Proof. intros Hlen. unfold read_private. by rewrite (proj2 (N.ltb_ge _ _)). Qed.

(** Opening the identity of a store that ran before reads it back and writes nothing. *)
Lemma open_identity_reads input files local :
  local_ok local → identity_file_holds (f_identity files) local →
  open_identity input files = (Ok local, files).
Proof.
  intros Hl (content & Hf & Hlen & Hne & He). unfold open_identity.
  rewrite Hf, read_private_ok by done. cbn [empty_file].
  rewrite bool_decide_eq_false_2 by done. cbn [andb default].
  f_equal. apply decode_local_identity_encode; [by apply fits_store_file|exact Hl|exact He].
Qed.

Lemma reopened_almost local instance_id identity content s :
  core_inv s → local_ok local → same_signer (si_local s) local →
  identity_file_holds identity local → state_file_holds (Some content) s →
  almost (reopened local instance_id (mkFiles identity (Some content)) s).
Proof.
  intros Hcore Hlocal [Hid Hvk] Hidf Hst. pose proof Hcore as [Hl Hp Hq Hc Hcap Hk Hw Hpast Hslots].
  split; cbn; [|done| |done|].
  - split; cbn; try done.
    + unfold local_id in *. cbn. by rewrite <-Hid.
    + intros p q (? & Hcp & ?)%Hq. split; [done|]. split; [|done].
      eapply check_persisted_ext; [exact Hid|exact Hvk| |exact Hcp]. eauto.
    + unfold local_id in *. cbn. rewrite <-Hid.
      eapply offers_ok_sub; [apply wms_le_refl| |exact Hpast].
      intros p q. apply held_subseteq; [done|]. apply map_empty_subseteq.
  - by intros slot header pt k _ ?%lookup_empty_Some.
  - exists local. do 3 (split; [done|]). right. exists s. by split.
Qed.

Lemma fresh_almost local instance_id identity :
  local_ok local → identity_file_holds identity local → fresh_past →
  almost (fresh_store local instance_id (mkFiles identity None)).
Proof.
  intros Hl Hid [Ho Hs]. split; cbn; [|done| |done|].
  - split; cbn; try done; try by intros ? ? ?%lookup_empty_Some.
    + split; rewrite ?Ho; [by intros ? ? ?%elem_of_nil|by intros ? ? ? ?%elem_of_nil|].
      by intros ? ? ? [?%lookup_empty_Some|?%lookup_empty_Some].
    + unfold slots_used. rewrite Hs. by intros ? ? ?%elem_of_nil.
  - by intros slot header pt k _ ?%lookup_empty_Some.
  - exists local. do 3 (split; [done|]). by left.
Qed.

Lemma load_store_almost input local files s :
  local_ok local → files_recoverable local files → identity_file_holds (f_identity files) local →
  load_store input local files = Ok s → almost s ∧ files_of s = files ∧ si_local s = local.
Proof.
  intros Hl (_ & _ & _ & _ & Hst) Hid. unfold load_store.
  destruct (oi_instance_id input) as [instance_id|]; [|done]. cbn [res_bind].
  destruct files as [identity state]. cbn [f_state f_identity] in *.
  destruct Hst as [[-> Hfresh]|(s0 & Hc0 & Hsig & content & -> & Hlen & He)].
  - cbn. intros [= <-]. split; [by apply fresh_almost|done].
  - rewrite read_private_ok by done. cbn [res_bind].
    rewrite (load_state_reopens _ _ _ s0) by done. intros [= <-]. split; [|done].
    apply reopened_almost; [done..|]. by exists content.
Qed.

Lemma prepare_wp input s : almost s → wp (prepare input) (λ _, inv) inv s.
Proof.
  intros Ha. unfold prepare. apply wp_bind. eapply wp_mono; [by apply persist_inv| |done].
  cbn beta. intros _ s1 Hi1. apply wp_bind, lock_wp; [intros _|done]. apply wp_bind, wp_get.
  by apply create_each_wp.
Qed.

(** The identity file is readable by the store afterwards, or nothing has been written. *)
Lemma open_identity_spec input files result files' :
  files_ok files → open_identity input files = (result, files') →
  match result with
  | Ok local => local_ok local ∧ files_recoverable local files'
                ∧ identity_file_holds (f_identity files') local
  | Err _ => files_ok files'
  end.
Proof.
  intros [[-> Hfresh]|(signer & local & Hl & Hsig & Hid & Hst)].
  - unfold open_identity. cbn.
    destruct (oi_signing_seed input) as [s1|]; [|intros [= <- <-]; by left].
    destruct (oi_kem_seed input) as [s2|]; [|intros [= <- <-]; by left]. cbn [res_bind].
    destruct (generate s1 s2 (oi_now input)) as [local|] eqn:Hg; [|intros [= <- <-]; by left].
    cbn [res_bind]. apply new_identity_local_ok in Hg as Hl.
    destruct (encode_local_identity local) as [content|] eqn:He; [|intros [= <- <-]; by left].
    cbn [res_bind]. unfold atomic_write.
    destruct (N.ltb_spec MAX_STORE_BYTES (lenN content)); [intros [= <- <-]; by left|].
    assert (Hid : identity_file_holds (Some content) local).
    { exists content. split; [done|]. split; [done|].
      split; [by eapply encode_local_identity_nonempty|done]. }
    assert (Hrec : files_recoverable local (mkFiles (Some content) None)).
    { exists local. do 3 (split; [done|]). by left. }
    destruct (oi_identity_write input) as [|e renamed]; [by intros [= <- <-]|].
    destruct renamed; intros [= <- <-]; [right; by exists local|by left].
  - rewrite (open_identity_reads _ _ local) by done. intros [= <- <-].
    split; [done|]. split; [|done]. exists local. do 3 (split; [done|]).
    destruct Hsig as [Hs1 Hs2]. destruct Hst as [?|(s & Hc & [Hs3 Hs4] & Hst)]; [by left|right].
    exists s. split; [done|]. split; [|done]. split; congruence.
Qed.

Lemma ks_open_ok input files result files' :
  files_ok files → ks_open input files = (result, files') →
  match result with
  | Ok s => inv s ∧ files' = files_of s
  | Err _ => files_ok files'
  end.
Proof.
  intros Hf. unfold ks_open. destruct (open_identity input files) as [lr files1] eqn:Hoi.
  apply (open_identity_spec _ _ _ _ Hf) in Hoi. destruct lr as [local|e]; cbn [res_bind].
  2: { by intros [= <- <-]. }
  destruct Hoi as (Hl & Hrec & Hid). destruct (load_store input local files1) as [s|e] eqn:Hls.
  2: { intros [= <- <-]. right. by exists local. }
  apply load_store_almost in Hls as (Ha & _); [|done..].
  pose proof (prepare_wp input s Ha) as Hp. unfold wp in Hp.
  destruct (prepare input s) as [[[]|e] s']; cbn; intros [= <- <-]; [done|].
  right. exists (si_local s'). apply Hp.
Qed.

(** ** Commands, crashes and restarts *)

Inductive Command :=
  | CImport (io : WriteOutcome) (input : WrapInput) (document : IdentityDocument)
  | CRotateIdentity (kem_seed : Result (array 32)) (now : u64) (io : WriteOutcome)
  | CMarkAdmitted (peer : PeerId)
  | CPromote (io : WriteOutcome) (peer : PeerId) (epoch : Epoch)
  | CDiscardCandidate (io : WriteOutcome) (peer : PeerId)
  | CDiscardPair (io : WriteOutcome) (peer : PeerId)
  | CObserve (io : WriteOutcome) (peer : PeerId) (epoch : Epoch)
  | CBlock (peer : PeerId) (owner : u64)
  | CUnblock (peer : PeerId) (owner : u64)
  | CRetire (io : WriteOutcome) (handle : PairKeyHandle)
  | CCreate (candidate : bool) (input : WrapInput) (peer : PeerId) (ek : bytes) (epoch : Epoch)
  | CUnwrap (candidate : bool) (io : WriteOutcome) (sender : PeerId) (message : WrapMessage)
  | CRetryCollision (input : WrapInput) (peer : PeerId)
  | CRetryCandidate (io : WriteOutcome) (input : WrapInput) (peer : PeerId)
  | CRotateAll (inputs : list WrapInput)
  | CSeal (handle : PairKeyHandle) (n : array 12) (aad plaintext : bytes)
  | COpen (handle : PairKeyHandle) (n : array 12) (aad ciphertext : bytes).

(** The reply is reduced to success or failure. *)
Definition quiet {A} (m : SM StoreInner A) : SM StoreInner unit :=
  do! _ := m in sm_ret tt.

Definition run_command (c : Command) : SM StoreInner unit :=
  match c with
  | CImport io input document => import_peer io input document
  | CRotateIdentity kem_seed now io => quiet (rotate_identity_ek kem_seed now io)
  | CMarkAdmitted peer => mark_admitted peer
  | CPromote io peer epoch => quiet (promote_candidate io peer epoch)
  | CDiscardCandidate io peer => discard_candidate io peer
  | CDiscardPair io peer => discard_pair io peer
  | CObserve io peer epoch => observe_remote_epoch io peer epoch
  | CBlock peer owner => block_live_traffic peer owner
  | CUnblock peer owner => unblock_live_traffic peer owner
  | CRetire io handle => retire io handle
  | CCreate candidate input peer ek epoch => quiet (create_inner input peer ek epoch candidate)
  | CUnwrap candidate io sender message => quiet (unwrap_inner io sender message candidate)
  | CRetryCollision input peer => quiet (retry_collision input peer)
  | CRetryCandidate io input peer => quiet (retry_candidate_collision io input peer)
  | CRotateAll inputs => quiet (rotate_all inputs)
  | CSeal handle n aad plaintext => quiet (seal handle n aad plaintext)
  | COpen handle n aad ciphertext => quiet (open handle n aad ciphertext)
  end.

(** The one assumption on a command: a document imported over the one on file has the same
    verification key if it hashes to the same peer id. *)
Definition collision_free (c : Command) (s : StoreInner) : Prop :=
  match c with
  | CImport _ _ document => no_vk_collision s document
  | _ => True
  end.

Lemma quiet_wp {A} (m : SM StoreInner A) s : wp m (λ _, inv) inv s → wp (quiet m) (λ _, inv) inv s.
Proof. intros Hm. unfold quiet. apply wp_bind. eapply wp_mono; [exact Hm| |done]. intros x s' Hi. by wp_step. Qed.

Lemma run_command_inv c s : collision_free c s → inv s → inv (run_command c s).2.
Proof.
  intros Hc Hi. apply wp_state. destruct c; cbn [run_command]; try apply quiet_wp.
  - by apply import_peer_wp.
  - by apply rotate_identity_ek_wp.
  - by apply mark_admitted_wp.
  - by apply promote_wp.
  - by apply discard_candidate_wp.
  - by apply discard_pair_wp.
  - by apply observe_wp.
  - by apply block_wp.
  - by apply unblock_wp.
  - by apply retire_wp.
  - by apply create_inv.
  - eapply wp_mono; [by apply unwrap_inner_wp| |done]. by intros x s' [? _].
  - by apply retry_collision_wp.
  - by apply retry_candidate_collision_wp.
  - by apply rotate_all_wp.
  - by apply seal_wp.
  - by apply open_wp.
Qed.
End open.
