(* ===== verification/KeyStoreMachine.v ===== *)
(** * The key store through commands, crashes and restarts

    An execution interleaves calls to a running store, crashes that leave only the files, and
    openings of what is on disk; it is logged by the wrap messages the store shows its callers
    ([pending_wraps]) and the nonces it seals packets with.  The theorems state what holds of
    every execution from an empty disk. *)
From S2P Require Export KeyStoreOpen.
From Stdlib Require Import Lia ZifyN ZifyNat.

Open Scope N_scope.

Section machine.
Context `{Sha256, MlDsa65, XWing, AesGcm, HkdfSha256}.

Inductive World :=
  | Running (s : StoreInner)
  | Stopped (files : Files).

Inductive Action :=
  | Do (c : Command)
  | Crash
  | Start (input : OpenInput).

(** The packets a command sealed, by slot and nonce. *)
Definition seals (c : Command) (r : Result unit) : list (u64 * array 12) :=
  match c, r with
  | CSeal handle n _ _, Ok _ => [(kh_slot handle, n)]
  | _, _ => []
  end.

(** An action with nothing to act on does nothing. *)
Definition act (a : Action) (w : World) : World * list (u64 * array 12) :=
  match a, w with
  | Do c, Running s => let '(r, s') := run_command c s in (Running s', seals c r)
  | Crash, Running s => (Stopped (files_of s), [])
  | Start input, Stopped files =>
      match ks_open input files with
      | (Ok s, _) => (Running s, [])
      | (Err _, files') => (Stopped files', [])
      end
  | _, _ => (w, [])
  end.

(** The store's own wraps, by peer: what [pending_wraps] returns. *)
Definition shown (s : StoreInner) : list (PeerId * WrapMessage) :=
  if si_failed s then []
  else (λ q, (pp_peer_id q, pp_wrap q)) <$>
       filter (λ q, pp_initiator q = local_id s)
         (map_values (si_pairs s) ++ map_values (si_candidates s)).

Definition extend (w : World) (now : list (u64 * array 12)) (log : Past) : Past :=
  mkPast (match w with Running s => shown s | Stopped _ => [] end ++ offers (Past := log))
    (now ++ sealed (Past := log)).

Fixpoint exec (actions : list Action) (w : World) (log : Past) : World * Past :=
  match actions with
  | [] => (w, log)
  | a :: actions =>
      let '(w', now) := act a w in exec actions w' (extend w' now log)
  end.

Definition action_ok (a : Action) (w : World) : Prop :=
  match a, w with
  | Do c, Running s => collision_free c s
  | _, _ => True
  end.

(** No imported document collides with the one it replaces. *)
Fixpoint collisions_free (actions : list Action) (w : World) : Prop :=
  match actions with
  | [] => True
  | a :: actions => action_ok a w ∧ collisions_free actions (act a w).1
  end.

Definition no_past : Past := mkPast [] [].
Definition empty_disk : World := Stopped (mkFiles None None).

Definition world_inv (log : Past) (w : World) : Prop :=
  match w with
  | Running s => inv s
  | Stopped files => files_ok files
  end.

(** Two shown wraps for one peer at one epoch are the same message. *)
Definition offers_functional (log : Past) : Prop :=
  ∀ p m m', (p, m) ∈ offers → (p, m') ∈ offers → wm_epoch m = wm_epoch m' → m = m'.

(** ** Extending the log *)

Definition core_inv_at (log : Past) (s : StoreInner) : Prop := core_inv s.
Definition inv_at (log : Past) (s : StoreInner) : Prop := inv s.
Definition recoverable_at (log : Past) (signer : LocalIdentity) (files : Files) : Prop :=
  files_recoverable signer files.
Definition counters_at (log : Past) (keys : gmap u64 PairKeyState) : Prop := counters_ok keys.

Lemma shown_held log s p m :
  core_inv_at log s → (p, m) ∈ shown s →
  si_failed s = false ∧
  ∃ q, held (si_pairs s) (si_candidates s) p q ∧ pp_initiator q = local_id s ∧ pp_wrap q = m
       ∧ pp_epoch q = wm_epoch m.
Proof.
  intros Hc. unfold shown. destruct (si_failed s); [by intros ?%elem_of_nil|].
  intros (q & [= -> ->] & [Hi Hq]%list_elem_of_filter)%list_elem_of_fmap. split; [done|].
  exists q. apply elem_of_app in Hq as [[p Hp]%elem_of_map_values|[p Hp]%elem_of_map_values].
  - destruct (ci_pairs s Hc _ _ Hp) as (-> & He%check_persisted_epoch & _). split; [by left|done].
  - destruct (ci_candidates s Hc _ _ Hp) as (-> & He%check_persisted_epoch & _).
    split; [by right|done].
Qed.

(** A state with at least the pairs and candidates of a running store accepts its log. *)
Lemma core_extend log s s0 now :
  core_inv_at log s → core_inv_at log s0 →
  local_id s0 = local_id s → si_pairs s0 = si_pairs s → si_candidates s ⊆ si_candidates s0 →
  si_epoch_watermarks s0 = si_epoch_watermarks s → si_next_slot s0 = si_next_slot s →
  (∀ slot n, (slot, n) ∈ now → u64_N slot < u64_N (si_next_slot s)) →
  core_inv_at (extend (Running s) now log) s0.
Proof.
  intros Hs Hs0 Hlocal Hpairs Hcands Hwms Hnext Hnow.
  destruct (id Hs0) as [? ? Hq Hc ? ? ? [Ow Oh On] Hslots]. split; try done; cbn.
  - assert (Hshown : ∀ p m, (p, m) ∈ shown s → ∃ q,
      held (si_pairs s0) (si_candidates s0) p q ∧ pp_initiator q = local_id s0 ∧ pp_wrap q = m
      ∧ pp_epoch q = wm_epoch m).
    { intros p m Hin%(shown_held log); [|done]. destruct Hin as (_ & q & Hh & ?). exists q.
      rewrite Hlocal, Hpairs. split; [by eapply held_subseteq|done]. }
    split; cbn.
    + intros p m [(q & Hh & _ & _ & <-)%Hshown|Hin]%elem_of_app; [|by apply Ow].
      eapply held_bound; [exact Hq|exact Hc|exact Hh].
    + intros p m q [(q' & Hh & Hi & <- & He)%Hshown|Hin]%elem_of_app Hq' ? ?; [|by eapply Oh].
      eapply On; [exact Hq'|exact Hh|done|done|congruence].
    + exact On.
  - intros slot n [Hin|Hin]%elem_of_app; [|by eapply Hslots]. rewrite Hnext. by eapply Hnow.
Qed.

Lemma inv_extend log s now :
  inv_at log s → (now ≠ [] → si_failed s = false) →
  (∀ slot n, (slot, n) ∈ now → u64_N slot < u64_N (si_next_slot s)) →
  counters_at (extend (Running s) now log) (si_keys s) →
  inv_at (extend (Running s) now log) s.
Proof.
  intros Hi Hnow Hslots Hcount. destruct (si_failed s) eqn:Hf.
  - assert (now = []) as -> by (destruct now; [done|by discriminate Hnow]).
    assert (extend (Running s) [] log = log) as ->; [|done].
    unfold extend, shown. rewrite Hf. by destruct log.
  - assert (Hext : ∀ s0, core_inv_at log s0 → durable_eq s0 s →
      core_inv_at (extend (Running s) now log) s0).
    { intros s0 Hc0 ([Hid _] & _ & Hq & Hw & Hn & Hcs).
      apply core_extend; [apply Hi|done..]. }
    destruct (inv_current s Hi Hf) as [(s0 & Hc0 & Hd & Hst) Hid].
    split.
    + apply Hext; [apply Hi|apply durable_refl].
    + intros _. split; [|done]. exists s0. split; [by apply Hext|done].
    + exact Hcount.
    + exists (si_local s). split; [apply Hi|]. do 2 (split; [done|]). right.
      exists s0. split; [by apply Hext|]. split; [apply Hd|done].
Qed.

(** ** Steps *)

(** What a successful [seal] did: a packet for the handle's key, numbered above everything the
    key sealed before. *)
Lemma seal_Ok handle n aad plaintext ciphertext s s' :
  seal handle n aad plaintext s = (Ok ciphertext, s') →
  ∃ header pt k, si_failed s = false ∧ si_keys s !! kh_slot handle = Some k
    ∧ n = nonce header pt
    ∧ (∀ c, send_counter pt k = Some c → u64_N c < u64_N (hdr_seq header))
    ∧ s' = set_keys (<[kh_slot handle := set_send_counter pt (Some (hdr_seq header)) k]>
                       (si_keys s)) s.
Proof.
  intros Hs. refine (wp_Ok _ (λ _ s', _) (λ _, True) s ciphertext s' _ Hs). clear Hs.
  unfold seal. apply wp_bind. eapply (wp_mono _ _ _ (λ _, True)); [by apply query_wp| |done].
  cbn beta. intros local s1 [-> _]. apply wp_bind. wp_step; [|done]. destruct x as [header pt].
  unfold with_pair_state. apply wp_bind, lock_wp; [intros Hf|done].
  apply wp_bind, wp_get. wp_step; [|done]. apply wp_bind. wp_step; [|done].
  rename x into k. destruct (si_keys s !! kh_slot handle) as [k'|] eqn:Hk; [|done].
  match goal with Hx : ok_or (Some _) _ = Ok _ |- _ => injection Hx as -> end.
  destruct (seal_key_cases local header pt n aad plaintext k) as [[e ->]|(-> & [w Hv] & Hlt)].
  { by apply wp_bind. }
  apply wp_bind. unfold wp, modify, sm_lift. destruct (ok_or _ _); [|done]. exists header, pt, k.
  do 2 (split; [done|]). split; [|done].
  unfold validate_header in Hv. destruct (negb _); [done|]. destruct (_ || _); [done|].
  by case_bool_decide.
Qed.

(** The log after a step of a running store. *)
Lemma seals_ok log c s r s' :
  inv_at log s → inv_at log s' → run_command c s = (r, s') →
  (seals c r ≠ [] → si_failed s' = false)
  ∧ (∀ slot n, (slot, n) ∈ seals c r → u64_N slot < u64_N (si_next_slot s'))
  ∧ counters_at (extend (Running s') (seals c r) log) (si_keys s')
  ∧ (NoDup (sealed (Past := log)) → NoDup (sealed (Past := extend (Running s') (seals c r) log))).
Proof.
  intros Hi Hi' Hr. destruct (decide (seals c r = [])) as [->|Hne].
  { split; [done|]. split; [by intros ? ? ?%elem_of_nil|]. by split; [apply Hi'|]. }
  destruct c; try done. destruct r as [[]|e]; [|done]. cbn in Hr.
  unfold quiet, sm_bind in Hr. destruct (seal handle n aad plaintext s) as [[ct|e] s1] eqn:Hs;
    [|by injection Hr].
  injection Hr as ->. apply seal_Ok in Hs as (header & pt & k & Hf & Hk & -> & Hlt & ->).
  split; [done|]. split; [|split]; cbn.
  - intros slot x [= -> ->]%list_elem_of_singleton. by apply (ci_keys s (inv_core s Hi)) in Hk as [? _].
  - intros slot h' pt' l Hin. cbn in Hin. apply elem_of_cons in Hin as [[-> Hn]%pair_equal_spec|Hin].
    + apply nonce_inj in Hn as (-> & Hn & _). cbn. rewrite lookup_insert_eq. intros [= <-].
      rewrite send_counter_set. exists (hdr_seq header). split; [done|]. by rewrite Hn.
    + intros Hl. by eapply (inv_counters _ Hi').
  - intros Hnd. apply NoDup_cons. split; [|done]. intros Hin.
    destruct (inv_counters s Hi _ _ _ _ Hin Hk) as (c & Hc & Hle). apply Hlt in Hc. lia.
Qed.

Lemma extend_functional log w now :
  match w with Running s => core_inv_at log s | Stopped _ => True end →
  offers_functional log → offers_functional (extend w now log).
Proof.
  intros Hw Hf. destruct w as [s|files]; [|exact Hf].
  destruct (ci_past s Hw) as [_ Oh On].
  assert (Hmix : ∀ p m m', (p, m) ∈ shown s → (p, m') ∈ offers → wm_epoch m = wm_epoch m' → m = m').
  { intros p m m' (_ & q & Hq & Hi & <- & He)%(shown_held log) Hin Hm; [|done].
    eapply Oh; [exact Hin|exact Hq|done|congruence]. }
  intros p m m' [Hm|Hm]%elem_of_app [Hm'|Hm']%elem_of_app He; [|by eauto|symmetry; by eauto|by eauto].
  apply (shown_held log) in Hm as (_ & q & Hq & Hi & <- & Hqe); [|done].
  apply (shown_held log) in Hm' as (_ & q' & Hq' & Hi' & <- & Hqe'); [|done].
  eapply On; [exact Hq|exact Hq'|done..|congruence].
Qed.

Lemma extend_stopped files log : extend (Stopped files) [] log = log.
Proof. by destruct log. Qed.

Lemma act_inv log a w :
  action_ok a w → world_inv log w → NoDup (sealed (Past := log)) →
  let '(w', now) := act a w in
  world_inv (extend w' now log) w' ∧ NoDup (sealed (Past := extend w' now log))
  ∧ match w' with Running s => core_inv_at log s | Stopped _ => True end.
Proof.
  intros Ha Hw Hnd.
  assert (Hsame : ∀ s, inv_at log s → inv_at (extend (Running s) [] log) s).
  { intros s Hi. apply inv_extend; [done|done|by intros ? ? ?%elem_of_nil|apply Hi]. }
  destruct a as [c| |input], w as [s|files]; cbn in Hw; cbn [act].
  - pose proof (run_command_inv c s Ha Hw : inv_at log _) as Hi'.
    destruct (run_command c s) as [r s'] eqn:Hr. cbn in Hi'.
    destruct (seals_ok log c s r s' Hw Hi' Hr) as (Hf & Hs & Hc & Hn).
    split; [by apply inv_extend|]. split; [by apply Hn|apply Hi'].
  - by rewrite extend_stopped.
  - rewrite extend_stopped. split; [|done]. right. exists (si_local s). apply Hw.
  - by rewrite extend_stopped.
  - split; [by apply Hsame|]. split; [done|apply Hw].
  - pose proof (ks_open_ok input files) as Hopen. destruct (ks_open input files) as [[s|e] files'].
    + destruct (Hopen (Ok s) files' Hw eq_refl) as [Hi _]. split; [by apply Hsame|]. split; [done|apply Hi].
    + rewrite extend_stopped. split; [|done]. exact (Hopen (Err e) files' Hw eq_refl).
Qed.

Lemma exec_inv actions w log :
  collisions_free actions w → world_inv log w → offers_functional log →
  NoDup (sealed (Past := log)) →
  let '(w', log') := exec actions w log in
  world_inv log' w' ∧ offers_functional log' ∧ NoDup (sealed (Past := log')).
Proof.
  revert w log. induction actions as [|a actions IH]; intros w log; cbn [exec collisions_free]; [done|].
  intros [Ha Hrest] Hw Hf Hnd. pose proof (act_inv log a w Ha Hw Hnd) as Hact.
  destruct (act a w) as [w' now] eqn:Hact'. destruct Hact as (Hw' & Hnd' & Hc).
  apply IH; [done|done|by apply extend_functional|done].
Qed.

Lemma exec_from_empty actions w log :
  collisions_free actions empty_disk → exec actions empty_disk no_past = (w, log) →
  world_inv log w ∧ offers_functional log ∧ NoDup (sealed (Past := log)).
Proof.
  intros Hc He. pose proof (exec_inv actions empty_disk no_past Hc) as Hi. rewrite He in Hi.
  apply Hi; [by left|by intros ? ? ? ?%elem_of_nil|apply NoDup_nil_2].
Qed.
End machine.
