(* ===== verification/KeyStoreFrame.v ===== *)
(** * What the methods of the key store leave alone

    Only an import adds a peer's document; and what is done about a candidate leaves the
    confirmed pair, its key and every other peer as they are. *)
From S2P Require Export KeyStoreOps.
From Stdlib Require Import Lia ZifyN ZifyNat.

Open Scope N_scope.

Section rules.
Context `{Sha256, MlDsa65, XWing, AesGcm, HkdfSha256}.

(** ** Rules *)

Lemma wp_modify (f : StoreInner → StoreInner) (Q : unit → StoreInner → Prop) E s :
  Q tt (f s) → wp (modify f) Q E s.
Proof. done. Qed.

Lemma wp_lock (Q : unit → StoreInner → Prop) (E : StoreInner → Prop) s : Q tt s → E s → wp lock Q E s.
Proof. unfold wp, lock. by destruct (si_failed s). Qed.

Lemma wp_query {A} (f : StoreInner → Result A) (Q : A → StoreInner → Prop) (E : StoreInner → Prop) s :
  (∀ x, f s = Ok x → Q x s) → E s → wp (query f) Q E s.
Proof.
  intros HQ HE. unfold query. apply wp_bind, wp_lock; [|done]. apply wp_bind, wp_get.
  apply wp_lift; auto.
Qed.

(** Writing the state file changes it, or fails the store. *)
Definition persisted (s s' : StoreInner) : Prop :=
  ∃ file failed, s' = set_failed failed (set_state_file file s).

Lemma wp_persist io (Q : unit → StoreInner → Prop) (E : StoreInner → Prop) s :
  (∀ s', persisted s s' → Q tt s') → (∀ s', persisted s s' → E s') → wp (persist io) Q E s.
Proof.
  intros HQ HE. unfold wp, persist. destruct (encode_store_state _) as [content|e].
  - destruct (atomic_write _ _ _ _ _) as [[[]|e] file].
    + apply HQ. exists file, (si_failed s). by destruct s.
    + apply HE. by exists file, true.
  - apply HE. exists (si_state_file s), true. by destruct s.
Qed.

Lemma wp_conj {S A} (m : SM S A) (Q Q' : A → S → Prop) (E E' : S → Prop) s :
  wp m Q E s → wp m Q' E' s → wp m (λ x s', Q x s' ∧ Q' x s') (λ s', E s' ∧ E' s') s.
Proof. unfold wp. destruct (m s) as [[x|e] s']; auto. Qed.

End rules.

(** One step of an unfolded method; what is left are the states it can end in. *)
Ltac method_step :=
  lazymatch goal with
  | |- wp (sm_bind _ _) _ _ _ => apply wp_bind
  | |- wp lock _ _ _ => apply wp_lock
  | |- wp sm_get _ _ _ => apply wp_get
  | |- wp (modify _) _ _ _ => apply wp_modify
  | |- wp (sm_ret _) _ _ _ => apply wp_ret
  | |- wp (sm_err _) _ _ _ => apply wp_err
  | |- wp (sm_lift _) _ _ _ => apply wp_lift; [intros ? _|intros _]
  | |- wp (persist _) _ _ _ => apply wp_persist; (let Hp := fresh in intros ? Hp; destruct Hp as (? & ? & Hp); subst)
  | |- wp (match ?x with _ => _ end) _ _ _ => destruct x
  end.
Ltac method := repeat method_step.

(** The same, keeping what was tested. *)
Ltac tested_step :=
  lazymatch goal with
  | |- wp (sm_lift _) _ _ _ => apply wp_lift; [intros ? ?|intros _]
  | |- wp (match ?x with _ => _ end) _ _ _ => destruct x eqn:?
  | |- _ => method_step
  end.
Ltac tested := repeat tested_step.

Section frame.
Context `{Sha256, MlDsa65, XWing, AesGcm, HkdfSha256}.

(** ** Peers' documents *)

Definition same_peers (s s' : StoreInner) : Prop :=
  si_peers s' = si_peers s ∧ local_id s' = local_id s.

#[export] Instance same_peers_preorder : PreOrder same_peers.
Proof. split; [done|]. intros a b c [] []. split; congruence. Qed.

Lemma persisted_peers s s' : persisted s s' → same_peers s s'.
Proof. intros (f & b & ->). done. Qed.

Lemma install_peers io peer initiator message key s :
  wp (install io peer initiator message key) (λ _, same_peers s) (same_peers s) s.
Proof. unfold install, take_slot. method; done. Qed.

Lemma install_candidate_peers io peer initiator message key s :
  wp (install_candidate io peer initiator message key) (λ _, same_peers s) (same_peers s) s.
Proof. unfold install_candidate, take_slot. method; done. Qed.

(** A call after which, whatever it returns, [R] relates the states. *)
Definition stays {A} (R : relation StoreInner) (m : SM StoreInner A) : Prop :=
  ∀ s, wp m (λ _, R s) (R s) s.

Lemma stays_after {A} (R : relation StoreInner) `{!PreOrder R} (m : SM StoreInner A) s0 s
    (Q : A → StoreInner → Prop) (E : StoreInner → Prop) :
  stays R m → R s0 s → (∀ x s', R s0 s' → Q x s') → (∀ s', R s0 s' → E s') → wp m Q E s.
Proof.
  intros Hm Hs HQ HE. eapply wp_mono; [apply Hm| |].
  - intros x s' Hs'. apply HQ. by etransitivity.
  - intros s' Hs'. apply HE. by etransitivity.
Qed.

Lemma stays_query {A} (R : relation StoreInner) `{!PreOrder R} (f : StoreInner → Result A) :
  stays R (query f).
Proof. intros s. apply wp_query; [intros ? _|]; reflexivity. Qed.

Lemma stays_retry (R : relation StoreInner) `{!PreOrder R} message : stays R (retry message).
Proof. intros s. unfold retry. by method. Qed.

Lemma create_peers input peer ek epoch candidate : stays same_peers (create_inner input peer ek epoch candidate).
Proof.
  intros s. unfold create_inner. method; try done;
    (eapply (stays_after same_peers);
      [intros ?; first [apply install_peers|apply install_candidate_peers]|..];
      [done|intros; by apply wp_ret|done]).
Qed.

Lemma displaced_peers sender s : same_peers s (displaced sender s).
Proof. unfold displaced. by destruct (si_candidates s !! sender). Qed.

Lemma unwrap_peers io sender message candidate : stays same_peers (unwrap_inner io sender message candidate).
Proof.
  intros s. unfold unwrap_inner. method; try done; cbn beta;
    (eapply (stays_after same_peers);
      [intros ?; first [apply install_peers|apply install_candidate_peers]|..]);
      try (intros; done); by destruct (si_candidates _ !! sender).
Qed.

Lemma discard_candidate_peers io peer : stays same_peers (discard_candidate io peer).
Proof. intros s. unfold discard_candidate. by method. Qed.

Lemma observe_peers io peer epoch : stays same_peers (observe_remote_epoch io peer epoch).
Proof. intros s. unfold observe_remote_epoch. by method. Qed.

Lemma retry_collision_peers input peer : stays same_peers (retry_collision input peer).
Proof.
  intros s. unfold retry_collision. method; try done. apply create_peers.
Qed.

Lemma retry_candidate_peers io input peer : stays same_peers (retry_candidate_collision io input peer).
Proof.
  intros s. unfold retry_candidate_collision. method; try done.
  eapply (stays_after same_peers); [apply discard_candidate_peers|done| |done]. cbn beta. intros _ s' Hs'.
  eapply (stays_after same_peers); [apply create_peers|done|done|done].
Qed.

(** An import adds the document, and no other. *)
Lemma import_peers io input document s :
  wp (import_peer io input document)
    (λ _ s', si_peers s' = <[doc_peer_id document := document]> (si_peers s) ∧ local_id s' = local_id s)
    (λ s', (si_peers s' = <[doc_peer_id document := document]> (si_peers s) ∨ si_peers s' = si_peers s)
           ∧ local_id s' = local_id s) s.
Proof.
  unfold import_peer. method; try (by auto). unfold next_epoch.
  eapply (stays_after same_peers); [apply (stays_query _)|reflexivity| |].
  - intros next s1 [Hp1 Hl1]. unfold wp, create.
    pose proof (create_peers input (doc_peer_id document) (doc_ek document) next false s1) as Hc. unfold wp in Hc.
    destruct (create_inner _ _ _ _ _ s1) as [[r|e] s2]; destruct Hc as [Hp2 Hl2].
    + rewrite Hp2, Hp1, Hl2, Hl1. done.
    + destruct (si_failed s2); cbn; change (local_id (set_failed true s2)) with (local_id s2);
        rewrite Hp2, Hp1, Hl2, Hl1; auto.
  - intros s1 [Hp1 Hl1]. rewrite Hp1, Hl1. auto.
Qed.

(** ** The confirmed pair beside a candidate *)

(** The keys that are not a candidate's: other peers', and those of the confirmed pair. *)
Definition confirmed_key (peer : PeerId) (s : StoreInner) (k : PairKeyState) : Prop :=
  ks_peer_id k = peer → ∃ q, si_pairs s !! peer = Some q ∧ ks_epoch k = pp_epoch q.

(** The candidate's epoch is not the confirmed pair's. *)
Definition parted (peer : PeerId) (s : StoreInner) : Prop :=
  ∀ q c, si_pairs s !! peer = Some q → si_candidates s !! peer = Some c → pp_epoch c ≠ pp_epoch q.

Record beside (peer : PeerId) (s s' : StoreInner) : Prop := {
  be_local : si_local s' = si_local s;
  be_instance : si_instance_id s' = si_instance_id s;
  be_peers : si_peers s' = si_peers s;
  be_pairs : si_pairs s' = si_pairs s;
  be_admitted : si_admitted_pairs s' = si_admitted_pairs s;
  be_gates : si_mailbox_gates s' = si_mailbox_gates s;
  be_candidates p : p ≠ peer → si_candidates s' !! p = si_candidates s !! p;
  be_keys slot k : confirmed_key peer s k → (si_keys s' !! slot = Some k ↔ si_keys s !! slot = Some k);
}.

#[export] Instance beside_preorder peer : PreOrder (beside peer).
Proof.
  split; [intros s; by split|]. intros a b c [] []. split; try congruence.
  - intros p Hp. rewrite be_candidates1, be_candidates0; done.
  - intros slot k Hk. rewrite be_keys1, be_keys0; [done|done|].
    intros Hpk. destruct (Hk Hpk) as (q & Hq & He). exists q. by rewrite be_pairs0.
Qed.

Definition unique_keys (s : StoreInner) : Prop :=
  ∀ a b k l, si_keys s !! a = Some k → si_keys s !! b = Some l →
    ks_peer_id k = ks_peer_id l → ks_epoch k = ks_epoch l → a = b.

Lemma inner_session_Ok s peer epoch session :
  unique_keys s →
  inner_session s peer epoch = Ok session ↔
  ∃ slot k, session = mkPairSession peer epoch (mkPairKeyHandle slot (si_instance_id s))
    ∧ si_keys s !! slot = Some k ∧ ks_peer_id k = peer ∧ ks_epoch k = epoch.
Proof.
  intros Hu. unfold inner_session. split.
  - destruct (find_slot _ _ _) as [slot|] eqn:Hf; [|done]. intros [= <-].
    apply find_slot_Some in Hf as (k & Hk & Hp & He). by exists slot, k.
  - intros (slot & k & -> & Hk & Hp & He). destruct (find_slot _ _ _) as [found|] eqn:Hf; cbn.
    + apply find_slot_Some in Hf as (k' & Hk' & Hp' & He').
      by rewrite (Hu found slot k' k) by congruence.
    + exfalso. unfold find_slot in Hf. apply fmap_None, list_find_None in Hf.
      eapply Forall_forall in Hf; [|by apply elem_of_sorted_entries]. by apply Hf.
Qed.

(** The confirmed session stays usable. *)
Lemma beside_session peer s s' q session :
  unique_keys s → unique_keys s' → beside peer s s' → si_pairs s !! peer = Some q →
  inner_session s peer (pp_epoch q) = Ok session → inner_session s' peer (pp_epoch q) = Ok session.
Proof.
  intros Hu Hu' Hb Hq. rewrite !inner_session_Ok by done. intros (slot & k & -> & Hk & Hp & He).
  exists slot, k. rewrite (be_instance _ _ _ Hb). split; [done|]. split; [|done].
  apply (be_keys _ _ _ Hb); [|done]. intros _. by exists q.
Qed.

Context `{Past}.

(** The invariant, with the candidate apart from the pair, and what it leaves alone. *)
Definition aside (peer : PeerId) (s s' : StoreInner) : Prop :=
  inv s → parted peer s → inv s' ∧ parted peer s' ∧ beside peer s s'.

#[export] Instance aside_preorder peer : PreOrder (aside peer).
Proof.
  split; [intros s Hi Hp; split_and!; [done|done|reflexivity]|].
  intros a b c Hab Hbc Ha Hp. destruct (Hab Ha Hp) as (Hb & Hpb & B1), (Hbc Hb Hpb) as (Hc & Hpc & B2).
  split_and!; [done|done|by etransitivity].
Qed.

Lemma stays_aside {A} peer (m : SM StoreInner A) :
  (∀ s, inv s → wp m (λ _, inv) inv s) →
  (∀ s, inv s → parted peer s →
     wp m (λ _ s', parted peer s' ∧ beside peer s s') (λ s', parted peer s' ∧ beside peer s s') s) →
  stays (aside peer) m.
Proof.
  intros Hi Hb s. specialize (Hi s). specialize (Hb s). unfold wp, aside in *.
  destruct (m s) as [[x|e] s']; intros Hs Hp; split_and!; naive_solver.
Qed.

Lemma confirmed_candidate_key peer s q k :
  si_pairs s !! peer = Some q → confirmed_key peer s k → ks_peer_id k = peer → ks_epoch k = pp_epoch q.
Proof. intros Hq Hk Hp. destruct (Hk Hp) as (q' & Hq' & ->). congruence. Qed.

Lemma displaced_beside peer s : parted peer s → parted peer (displaced peer s) ∧ beside peer s (displaced peer s).
Proof.
  intros Hp. unfold displaced. destruct (si_candidates s !! peer) as [c|] eqn:Hc; [|by split; [|reflexivity]].
  split.
  - intros q c'. cbn. by rewrite lookup_delete_eq.
  - split; try done.
    + intros p Hne. by apply lookup_delete_ne.
    + intros slot k Hk. unfold drop_keys_at, retain_keys. cbn [si_keys set_keys set_candidates].
      rewrite map_lookup_filter_Some. split; [by intros []|]. intros Hs. split; [done|].
      case_bool_decide as Hpk; [|done]. case_bool_decide as He; [|done]. exfalso.
      destruct (Hk Hpk) as (q & Hq & Hqe). apply (Hp q c Hq Hc). cbn in *; congruence.
Qed.

Lemma install_candidate_beside io peer initiator message key s :
  inv s → parted peer s →
  (∀ q, si_pairs s !! peer = Some q → wm_epoch message ≠ pp_epoch q) →
  wp (install_candidate io peer initiator message key)
    (λ _ s', parted peer s' ∧ beside peer s s') (λ s', parted peer s' ∧ beside peer s s') s.
Proof.
  intros Hi Hp He. destruct (ci_keys s (inv_core s Hi)) as [Hslots _].
  unfold install_candidate, take_slot. method; try (by split; [|reflexivity]).
  all: split; [intros q c Hq; cbn; rewrite lookup_insert_eq; intros [= <-]; by apply He|].
  all: split; try done; [intros p Hne; by apply lookup_insert_ne|].
  all: intros slot k Hk; cbn; rewrite lookup_insert_Some; split.
  all: try (intros [[<- <-]|[? ?]]; [|done]; exfalso).
  all: try (intros Hs; right; split; [intros <-; apply Hslots in Hs as [? _]; lia|done]).
  all: destruct (Hk eq_refl) as (q & Hq & Hqe); by apply (He q Hq).
Qed.

Lemma pair_below s peer q :
  inv s → si_pairs s !! peer = Some q → u64_N (pp_epoch q) <= wm_of (si_epoch_watermarks s) peer.
Proof. intros Hi Hq. by apply (ci_pairs s (inv_core s Hi)) in Hq as (_ & _ & _ & ?). Qed.

Lemma install_candidate_after io peer initiator message key s0 s (Q : PairSession → StoreInner → Prop) (E : StoreInner → Prop) :
  inv s → parted peer s → beside peer s0 s →
  (∀ q, si_pairs s !! peer = Some q → u64_N (wm_epoch message) ≠ u64_N (pp_epoch q)) →
  (∀ x s', parted peer s' ∧ beside peer s0 s' → Q x s') → (∀ s', parted peer s' ∧ beside peer s0 s' → E s') →
  wp (install_candidate io peer initiator message key) Q E s.
Proof.
  intros Hi Hp Hb He HQ HE. eapply wp_mono; [apply install_candidate_beside; [done|done|]| |]; cbn beta.
  - intros q Hq Heq. apply (He q Hq). by rewrite Heq.
  - intros x s' [Hp' Hb']. apply HQ. split; [done|by etransitivity].
  - intros s' [Hp' Hb']. apply HE. split; [done|by etransitivity].
Qed.

Lemma create_candidate_aside input peer ek epoch : stays (aside peer) (create_candidate input peer ek epoch).
Proof.
  apply stays_aside; [intros s Hi; by apply create_inv|]. intros s Hi Hp.
  unfold create_candidate, create_inner. tested; try (by split; [|reflexivity]).
  match goal with Hn : ok_or (u64_checked_add _ _) _ = Ok ?n, Hm : wrap_message _ _ _ _ _ _ = Ok _ |- _ =>
    rename Hn into Hnext; apply wrap_message_Ok in Hm as (He & _); [|apply Hi] end.
  destruct (u64_checked_add _ _) as [next|] eqn:Hn; [|done]. injection Hnext as ->.
  apply u64_checked_add_Some in Hn. rewrite wm_of_watermark in Hn.
  match goal with Hb : bool_decide (epoch = _) = true |- _ => apply bool_decide_eq_true in Hb as -> end.
  apply (install_candidate_after _ _ _ _ _ s); [by apply (same_core_inv s)|done|by split| |by intros; apply wp_ret|done].
  intros q Hq. pose proof (pair_below s peer q Hi Hq). rewrite He. lia.
Qed.

Lemma displaced_inv peer s : inv s → inv (displaced peer s).
Proof.
  intros Hi. destruct (displaced_durable peer s). apply (inv_change s); [done|done| |done|].
  - apply displaced_core, Hi.
  - eapply counters_subseteq; [apply displaced_keys|apply Hi].
Qed.

Lemma aside_displaced peer s s1 : s1 = displaced peer s → aside peer s s1.
Proof. intros -> Hi Hp. destruct (displaced_beside peer s Hp). split_and!; [by apply displaced_inv|done|done]. Qed.

Lemma aside_retry peer v s : aside peer s (set_candidate_retry_epochs v s).
Proof. intros Hi Hp. split_and!; [by apply (same_core_inv s)|done|by split]. Qed.

(** A candidate that was received and is to be installed is at an epoch of its own. *)
Lemma received_candidate io peer message key expected collision supersede s s1 :
  inv s → parted peer s → ok_or (u64_checked_add (watermark s peer) 1) (State "epoch exhausted") = Ok expected →
  classify true (local_id s) peer expected (si_candidates s !! peer) message = Ok (Fresh collision supersede) →
  aside peer s s1 →
  wp (install_candidate io peer peer message key)
    (λ _ s', parted peer s' ∧ beside peer s s') (λ s', parted peer s' ∧ beside peer s s') s1.
Proof.
  intros Hi Hp Hn Hc%classify_Fresh Ha. destruct (Ha Hi Hp) as (Hi1 & Hp1 & Hb1).
  destruct (u64_checked_add (watermark s peer) 1) as [next|] eqn:Hnext; [|done]. injection Hn as ->.
  apply u64_checked_add_Some in Hnext. rewrite wm_of_watermark in Hnext.
  apply (install_candidate_after _ _ _ _ _ s); [done..| |done|done].
  intros q. rewrite (be_pairs _ _ _ Hb1). intros Hq. pose proof (pair_below s peer q Hi Hq) as Hle.
  destruct (si_candidates s !! peer) as [c|] eqn:Hcand; [destruct collision|].
  - destruct Hc as (He & _). intros Heq. apply (Hp q c Hq Hcand). rewrite <-He. by apply u64_eq.
  - destruct Hc as (_ & _ & He). specialize (He eq_refl). lia.
  - destruct Hc as (_ & _ & He). lia.
Qed.

Lemma unwrap_candidate_aside io peer message : stays (aside peer) (unwrap_candidate io peer message).
Proof.
  apply stays_aside; [intros s Hi; eapply wp_mono; [by apply unwrap_inner_wp|by intros x s' []|done]|].
  intros s Hi Hp. unfold unwrap_candidate, unwrap_inner. tested; try (by split; [|reflexivity]);
    simplify_eq; (eapply received_candidate; [exact Hi|exact Hp|eassumption|eassumption|]).
  - etransitivity; [apply aside_retry|]. etransitivity; [by apply aside_displaced|apply aside_retry].
  - etransitivity; [apply aside_retry|by apply aside_displaced].
  - apply aside_retry.
  - etransitivity; [by apply aside_displaced|apply aside_retry].
  - reflexivity.
Qed.

Lemma discard_candidate_aside io peer : stays (aside peer) (discard_candidate io peer).
Proof.
  apply stays_aside; [intros s Hi; by apply discard_candidate_wp|]. intros s Hi Hp.
  unfold discard_candidate. tested; try (by split; [|reflexivity]).
  all: match goal with Hc : si_candidates ?s !! ?peer = Some _ |- _ =>
    destruct (displaced_beside peer s Hp) as [Hp' Hb']; unfold displaced in Hp', Hb'; rewrite Hc in Hp', Hb' end.
  all: split; [done|destruct Hb'; by split].
Qed.

Lemma retry_candidate_aside io input peer : stays (aside peer) (retry_candidate_collision io input peer).
Proof.
  intros s. unfold retry_candidate_collision. tested; try reflexivity.
  eapply (stays_after (aside peer)); [apply discard_candidate_aside|reflexivity| |done]. cbn beta. intros _ s' Hs'.
  eapply (stays_after (aside peer)); [apply create_candidate_aside|done|done|done].
Qed.

Lemma classify_own candidate local peer expected q :
  pp_initiator q = peer → pp_epoch q = wm_epoch (pp_wrap q) →
  classify candidate local peer expected (Some q) (pp_wrap q) = Ok Duplicate.
Proof.
  intros Hp He. unfold classify. rewrite <-He, N.ltb_irrefl, bool_decide_eq_true_2 by done.
  by rewrite !bool_decide_eq_true_2.
Qed.

(** The confirmed pair's own wrap, received again, changes nothing. *)
Lemma unwrap_duplicate io peer q s (Q : PairSession → StoreInner → Prop) (E : StoreInner → Prop) :
  inv s → si_pairs s !! peer = Some q → pp_initiator q ≠ local_id s →
  (∀ x, inner_session s peer (pp_epoch q) = Ok x → Q x s) → E s →
  wp (unwrap io peer (pp_wrap q)) Q E s.
Proof.
  intros Hi Hq Hne HQ HE. destruct (ci_pairs s (inv_core s Hi) _ _ Hq) as (Hpeer & Hcheck & _).
  pose proof (check_persisted_epoch _ _ _ Hcheck) as He.
  assert (Hinit : ∀ d, si_peers s !! peer = Some d → pp_initiator q = peer).
  { intros d Hd. destruct (ci_peers s (inv_core s Hi) _ _ Hd) as (Hid & _).
    destruct (check_persisted_initiator _ _ _ d Hcheck) as [|Hin]; [by rewrite Hpeer|done|congruence]. }
  unfold unwrap, unwrap_inner. tested; simplify_eq; try done.
  - apply HQ. by rewrite He.
  - destruct (si_peers s !! pp_peer_id q) as [d|] eqn:Hd; [|done].
    match goal with Hc : classify _ _ _ _ _ _ = _ |- _ => by rewrite Hq, classify_own in Hc by (by eauto) end.
  - destruct (si_peers s !! pp_peer_id q) as [d|] eqn:Hd; [|done].
    match goal with Hc : classify _ _ _ _ _ _ = _ |- _ => by rewrite Hq, classify_own in Hc by (by eauto) end.
Qed.

(** ** All confirmed pairs *)

Record confirmed_same (s s' : StoreInner) : Prop := {
  cs_local : si_local s' = si_local s;
  cs_instance : si_instance_id s' = si_instance_id s;
  cs_peers : si_peers s' = si_peers s;
  cs_pairs : si_pairs s' = si_pairs s;
  cs_admitted : si_admitted_pairs s' = si_admitted_pairs s;
  cs_gates : si_mailbox_gates s' = si_mailbox_gates s;
  cs_keys p q slot k : si_pairs s !! p = Some q → ks_peer_id k = p → ks_epoch k = pp_epoch q →
    (si_keys s' !! slot = Some k ↔ si_keys s !! slot = Some k);
}.

#[export] Instance confirmed_same_preorder : PreOrder confirmed_same.
Proof.
  split; [intros s; by split|]. intros a b c [] []. split; try congruence.
  intros p q slot k Hq Hp He. rewrite (cs_keys1 p q slot k); [|by rewrite cs_pairs0|done|done].
  by apply (cs_keys0 p q slot k).
Qed.

Definition pairs_kept (s s' : StoreInner) : Prop :=
  inv s → (∀ p, parted p s) → inv s' ∧ (∀ p, parted p s') ∧ confirmed_same s s'.

#[export] Instance pairs_kept_preorder : PreOrder pairs_kept.
Proof.
  split; [intros s Hi Hp; split_and!; [done|done|reflexivity]|].
  intros a b c Hab Hbc Ha Hp. destruct (Hab Ha Hp) as (Hb & Hpb & B1), (Hbc Hb Hpb) as (Hc & Hpc & B2).
  split_and!; [done|done|by etransitivity].
Qed.

Lemma aside_kept peer s s' : aside peer s s' → pairs_kept s s'.
Proof.
  intros Ha Hi Hp. destruct (Ha Hi (Hp peer)) as (Hi' & Hp' & []). split_and!; [done| |].
  - intros p. destruct (decide (p = peer)) as [->|Hne]; [done|].
    intros q c. rewrite be_pairs0, be_candidates0 by done. apply Hp.
  - split; try done. intros p q slot k Hq Hk He. apply be_keys0.
    intros Hpk. exists q. by subst p; rewrite <-Hpk.
Qed.

Lemma stays_kept {A} peer (m : SM StoreInner A) : stays (aside peer) m → stays pairs_kept m.
Proof. intros Hm s. eapply wp_mono; [apply Hm|intros x s'|intros s']; apply aside_kept. Qed.

(** Every confirmed session is there as before. *)
Lemma current_session_kept s s' peer :
  inv s → inv s' → si_failed s' = si_failed s → confirmed_same s s' →
  (current_session peer s').1 = (current_session peer s).1.
Proof.
  intros Hi Hi' Hf Hc. unfold current_session, query, sm_bind, lock, sm_get, sm_lift. rewrite Hf.
  destruct (si_failed s); [done|]. rewrite (cs_pairs _ _ Hc).
  destruct (si_pairs s !! peer) as [q|] eqn:Hq; [|done]. cbn.
  pose proof (proj2 (ci_keys s (inv_core s Hi))) as Hu. pose proof (proj2 (ci_keys s' (inv_core s' Hi'))) as Hu'.
  assert (Hiff : ∀ session, inner_session s' peer (pp_epoch q) = Ok session ↔ inner_session s peer (pp_epoch q) = Ok session).
  { intros session. rewrite !inner_session_Ok by done. rewrite (cs_instance _ _ Hc).
    split; intros (slot & k & -> & Hk & Hp & He); exists slot, k; (split; [done|]); (split; [|done]);
      by apply (cs_keys _ _ Hc peer q). }
  destruct (inner_session s peer (pp_epoch q)) as [x|e] eqn:Hs; [by apply Hiff|].
  destruct (inner_session s' peer (pp_epoch q)) as [x|e'] eqn:Hs'.
  - discriminate (proj1 (Hiff x) eq_refl).
  - clear Hiff. unfold inner_session in *. destruct (find_slot _ _ _); [done|]. destruct (find_slot _ _ _); [done|]. cbn in *; congruence.
Qed.
End frame.
