(* ===== verification/KeyStoreReopen.v ===== *)
(** * How opening a key store ends

    [KeyStore::open] on files that a store left: it prepares a fresh epoch for every known pair,
    so it can be refused although nothing in the files is wrong.  [refused] lists the reasons,
    and [prepare_ends] says what the store is when there is none. *)
From S2P Require Export KeyStoreMachine KeyStoreFrame.
From Stdlib Require Import Lia ZifyN ZifyNat.

Open Scope N_scope.

(** ** Ends: a result, or the reason of an error *)

Definition ends {S A} (m : SM S A) (Q : A → S → Prop) (R : Error → Prop) (s : S) : Prop :=
  match m s with
  | (Ok x, s') => Q x s'
  | (Err e, _) => R e
  end.

Section rules.
Context {S : Type}.

Lemma ends_bind {A B} (m : SM S A) (k : A → SM S B) Q R s :
  ends m (λ x, ends (k x) Q R) R s → ends (sm_bind m k) Q R s.
Proof. unfold ends, sm_bind. by destruct (m s) as [[x|e] s']. Qed.

Lemma ends_lift {A} (r : Result A) (Q : A → S → Prop) R s :
  (∀ x, r = Ok x → Q x s) → (∀ e, r = Err e → R e) → ends (sm_lift r) Q R s.
Proof. unfold ends, sm_lift. destruct r; auto. Qed.

Lemma ends_mono {A} (m : SM S A) (Q Q' : A → S → Prop) (R R' : Error → Prop) s :
  ends m Q R s → (∀ x s', Q x s' → Q' x s') → (∀ e, R e → R' e) → ends m Q' R' s.
Proof. unfold ends. destruct (m s) as [[x|e] s']; auto. Qed.

(** What holds of the state when it returns, from [wp]. *)
Lemma ends_wp {A} (m : SM S A) (Q Q' : A → S → Prop) (R : Error → Prop) E s :
  wp m Q E s → ends m Q' R s → ends m (λ x s', Q x s' ∧ Q' x s') R s.
Proof. unfold ends, wp. by destruct (m s) as [[x|e] s']. Qed.
End rules.

Section reopen.
Context `{Sha256, MlDsa65, XWing, AesGcm, HkdfSha256}.

(** ** The reasons *)

(** What may be on file while the store is opened: what was, with a wrap of this member's for some
    of the peers to be wrapped for, a key each and an epoch more. *)
Record midway (s t : StoreInner) : Prop := {
  ow_local : si_local t = si_local s;
  ow_peers : si_peers t = si_peers s;
  ow_candidates : si_candidates t = si_candidates s;
  ow_pairs p q : si_pairs t !! p = Some q → si_pairs s !! p = Some q ∨
    p ∈ (peers_to_wrap s).*1 ∧ ∃ ek epoch key random,
      wrap_message (si_local s) p ek epoch key random = Ok (pp_wrap q);
  ow_keys slot k : si_keys t !! slot = Some k → si_keys s !! slot = Some k ∨
    u64_N (si_next_slot s) <= u64_N slot < u64_N (si_next_slot t);
  ow_slots : u64_N (si_next_slot t) <= u64_N (si_next_slot s) + lenN (peers_to_wrap s);
  ow_wms p e : si_epoch_watermarks t !! p = Some e → si_epoch_watermarks s !! p = Some e ∨
    p ∈ (peers_to_wrap s).*1 ∧ u64_N e = u64_N (watermark s p) + 1;
}.

(** Why the store [s] loaded from a state file is not opened: a write of the state fails; a state
    on the way does not encode, or not within the limit of a file; the system gives no
    randomness; the cryptography refuses a wrap; key slots run out; or a peer to be wrapped for
    has the last epoch there is behind it. *)
Inductive refused (input : OpenInput) (s : StoreInner) : Error → Prop :=
  | refused_write e renamed :
      WriteFailed e renamed ∈ oi_persist input :: (wi_write <$> oi_wraps input) → refused input s e
  | refused_size t e :
      midway s t → (persist Written t).1 = Err e → refused input s e
  | refused_entropy w e : w ∈ oi_wraps input → wi_pair_key w = Err e → refused input s e
  | refused_wrap w peer ek epoch key e :
      w ∈ oi_wraps input → (peer, ek) ∈ peers_to_wrap s → u64_N epoch = u64_N (watermark s peer) + 1 →
      wrap_message (si_local s) peer ek epoch key (wi_random w) = Err e → refused input s e
  | refused_inputs :
      (length (oi_wraps input) < length (peers_to_wrap s))%nat →
      refused input s (State "OS entropy unavailable")
  | refused_slots :
      u64_limit <= u64_N (si_next_slot s) + lenN (peers_to_wrap s) →
      refused input s (State "keystore slots exhausted")
  | refused_epoch peer :
      peer ∈ (peers_to_wrap s).*1 → u64_limit <= u64_N (watermark s peer) + 1 →
      refused input s (State "epoch exhausted").

Lemma persist_Err io s e :
  (persist io s).1 = Err e →
  (∃ renamed, io = WriteFailed e renamed) ∨ (persist Written s).1 = Err e.
Proof.
  unfold persist. destruct (encode_store_state _) as [content|]; [|by right].
  unfold atomic_write. destruct (_ <? _); [by right|]. destruct io as [|e' renamed]; [done|].
  cbn. intros [= ->]. left. by exists renamed.
Qed.

(** ** One wrap *)

(** The confirmed pair of a peer is at its watermark and its key is there. *)
Definition confirmed (p : PeerId) (s : StoreInner) : Prop :=
  ∃ q slot k, si_pairs s !! p = Some q ∧ u64_N (pp_epoch q) = u64_N (watermark s p)
    ∧ si_keys s !! slot = Some k ∧ ks_peer_id k = p ∧ ks_epoch k = pp_epoch q.

(** What a wrap for [peer] leaves: the peer one epoch further, with a session at it; everybody
    else as before. *)
Record stepped (peer : PeerId) (s s' : StoreInner) : Prop := {
  sp_failed : si_failed s' = false;
  sp_local : si_local s' = si_local s;
  sp_peers : si_peers s' = si_peers s;
  sp_instance : si_instance_id s' = si_instance_id s;
  sp_slot : u64_N (si_next_slot s') = u64_N (si_next_slot s) + 1;
  sp_wms : ∀ p, wm_of (si_epoch_watermarks s') p
             = wm_of (si_epoch_watermarks s) p + if bool_decide (p = peer) then 1 else 0;
  sp_pairs : ∀ p, p ≠ peer → si_pairs s' !! p = si_pairs s !! p;
  sp_keys : ∀ slot k, ks_peer_id k ≠ peer → si_keys s !! slot = Some k → si_keys s' !! slot = Some k;
  sp_pair : confirmed peer s';
}.

Lemma installed_stepped next file peer initiator message key s :
  keys_ok (si_epoch_watermarks s) (si_next_slot s) (si_keys s) →
  si_failed s = false → u64_N next = u64_N (si_next_slot s) + 1 →
  u64_N (wm_epoch message) = wm_of (si_epoch_watermarks s) peer + 1 →
  let s' := set_state_file file (installed next peer initiator message key s) in
  ∃ session, inner_session s' peer (wm_epoch message) = Ok session ∧ stepped peer s s'.
Proof.
  intros [Hk Hu] Hf Hn He s'.
  destruct (drop_keys_ok _ _ _ peer (wm_epoch message) (conj Hk Hu)) as [[Hk' Hu'] Hfree].
  assert (Hsess : ∃ session, inner_session s' peer (wm_epoch message) = Ok session).
  { eexists. apply inner_session_Ok; [|exists (si_next_slot s), (new_key_state key peer (wm_epoch message))].
    - assert (Hk2 := drop_keys_ok _ _ _ peer (wm_epoch message)
        (keys_ok_wms _ (<[peer := wm_epoch message]> (si_epoch_watermarks s)) _ _
           (wms_le_insert (si_epoch_watermarks s) peer (wm_epoch message) ltac:(lia)) (conj Hk Hu))).
      refine (proj2 (_ : keys_ok (<[peer := wm_epoch message]> (si_epoch_watermarks s)) next (si_keys s'))).
      eapply (keys_ok_insert _ (si_next_slot s) next); [exact (proj1 Hk2)|exact Hn|..]; cbn.
      + by rewrite wm_of_insert, bool_decide_eq_true_2.
      + exact (proj2 Hk2).
    - split; [done|]. split; [|done]. apply lookup_insert_eq. }
  destruct Hsess as [session Hs]. exists session. split; [exact Hs|].
  split; try done; try (unfold s'; cbn).
  - intros p. rewrite wm_of_insert, u64_max_N.
    case_bool_decide; case_bool_decide; try congruence; subst; unfold watermark, wm_of in *; cbn in *; lia.
  - intros p Hp. by rewrite lookup_insert_ne.
  - intros slot k Hp Hslot. rewrite lookup_insert_ne.
    2: { intros <-. apply Hk in Hslot as [? _]. lia. }
    apply map_lookup_filter_Some. split; [done|]. cbn. by rewrite bool_decide_eq_false_2.
  - exists (mkPersistedPair peer (wm_epoch message) initiator message), (si_next_slot s),
      (new_key_state key peer (wm_epoch message)).
    split; [apply lookup_insert_eq|]. split; [|split; [apply lookup_insert_eq|done]].
    rewrite wm_of_watermark. cbn. rewrite wm_of_insert, bool_decide_eq_true_2, u64_max_N by done.
    unfold watermark, wm_of in *; cbn in *; lia.
Qed.

Lemma persist_Ok io s x s' : persist io s = (Ok x, s') → ∃ file, s' = set_state_file file s.
Proof.
  unfold persist. destruct (encode_store_state _); [|done].
  destruct (atomic_write _ _ _ _ _) as [[[]|] file]; [|done]. intros [= _ <-]. by exists file.
Qed.

Lemma install_ends (R : Error → Prop) io peer initiator message key s :
  keys_ok (si_epoch_watermarks s) (si_next_slot s) (si_keys s) → si_failed s = false →
  u64_N (wm_epoch message) = wm_of (si_epoch_watermarks s) peer + 1 →
  (u64_limit <= u64_N (si_next_slot s) + 1 → R (State "keystore slots exhausted")) →
  (∀ next e, u64_N next = u64_N (si_next_slot s) + 1 →
     (persist io (installed next peer initiator message key s)).1 = Err e → R e) →
  ends (install io peer initiator message key)
    (λ _ s', stepped peer s s' ∧ ∃ next file, u64_N next = u64_N (si_next_slot s) + 1
       ∧ s' = set_state_file file (installed next peer initiator message key s)) R s.
Proof.
  intros Hk Hf He Hslots Hpersist. unfold install, take_slot. do 3 apply ends_bind. cbn.
  destruct (u64_checked_add _ _) as [next|] eqn:Hadd; cbn.
  2: { apply Hslots. by apply u64_of_N_None. }
  apply u64_checked_add_Some in Hadd. do 4 (apply ends_bind; cbn).
  match goal with |- ends _ _ _ ?x =>
    change x with (installed next peer initiator message key s) end.
  apply ends_bind. unfold ends. destruct (persist io _) as [[x|e] s'] eqn:Hp.
  - apply persist_Ok in Hp as [file ->]. cbn.
    destruct (installed_stepped next file peer initiator message key s) as (session & Hs & Hst); try done.
    unfold sm_lift. rewrite Hs. split; [done|]. by exists next, file.
  - by eapply (Hpersist next); [|rewrite Hp].
Qed.

(** The state a wrap for [peer] writes, and the one it leaves. *)
Definition writes (w : WrapInput) (peer : PeerId) (ek : bytes) (epoch : Epoch) (s t : StoreInner) : Prop :=
  ∃ next key message, u64_N next = u64_N (si_next_slot s) + 1 ∧ wm_epoch message = epoch
    ∧ wrap_message (si_local s) peer ek epoch key (wi_random w) = Ok message
    ∧ t = installed next peer (local_id s) message key
            (set_retry_epochs (delete peer (si_retry_epochs s)) s).

(** The wrap of a peer on file whose turn it is to be contacted. *)
Lemma create_ends (R : Error → Prop) w peer ek epoch d s :
  keys_ok (si_epoch_watermarks s) (si_next_slot s) (si_keys s) → local_ok (si_local s) →
  si_failed s = false → si_peers s !! peer = Some d → doc_ek d = ek →
  is_Some (si_pairs s !! peer) ∨ ltb (local_id s) peer = true →
  u64_N epoch = u64_N (watermark s peer) + 1 →
  (∀ e, wi_pair_key w = Err e → R e) →
  (∀ key e, wrap_message (si_local s) peer ek epoch key (wi_random w) = Err e → R e) →
  (u64_limit <= u64_N (si_next_slot s) + 1 → R (State "keystore slots exhausted")) →
  (∀ t e, writes w peer ek epoch s t → (persist (wi_write w) t).1 = Err e → R e) →
  ends (create w peer ek epoch)
    (λ _ s', stepped peer s s' ∧ ∃ t file, writes w peer ek epoch s t ∧ s' = set_state_file file t) R s.
Proof.
  intros Hk Hl Hf Hd Hek Hturn He Hkey Hwrap Hslots Hpersist. unfold create, create_inner.
  apply ends_bind. unfold lock, ends at 1. rewrite Hf. do 2 (apply ends_bind; cbn). rewrite Hd. cbn.
  rewrite bool_decide_eq_true_2 by done.
  assert (negb (negb (bool_decide (is_Some (si_pairs s !! peer))) && geb (local_id s) peer) = true) as ->.
  { unfold geb. destruct Hturn as [?|Ht]; [by rewrite bool_decide_eq_true_2|].
    by rewrite Ht, andb_false_r. }
  apply ends_bind. rewrite (proj2 (u64_checked_add_Some _ _ epoch)) by done. cbn.
  rewrite bool_decide_eq_true_2 by done.
  apply ends_bind, ends_lift; [intros key _|exact Hkey].
  apply ends_bind, ends_lift; [intros message Hm|by apply Hwrap].
  pose proof Hm as (Hme & _)%wrap_message_Ok; [|done]. do 2 (apply ends_bind; cbn).
  match goal with |- ends _ _ _ ?x => set (s1 := x) end.
  eapply ends_mono; [apply (install_ends R _ _ _ _ _ s1)| |done]; try done.
  - rewrite Hme. done.
  - intros next e Hn He'. eapply Hpersist; [|exact He']. by exists next, key, message.
  - cbn beta. intros session s' ([] & next & file & Hn & ->). split; [by split|].
    eexists _, file. split; [|done]. by exists next, key, message.
Qed.
(** ** Every wrap *)

Lemma elem_of_peers_to_wrap s peer ek :
  peers_ok (local_id s) (si_peers s) → (peer, ek) ∈ peers_to_wrap s →
  ∃ d, si_peers s !! peer = Some d ∧ doc_ek d = ek
    ∧ (is_Some (si_pairs s !! peer) ∨ ltb (local_id s) peer = true).
Proof.
  intros Hp (d & [= -> ->] & [Hb [p Hd]%elem_of_map_values]%list_elem_of_filter)%list_elem_of_fmap.
  destruct (Hp p d Hd) as (<- & _). exists d. do 2 (split; [done|]).
  apply orb_true_iff in Hb as [Hb%bool_decide_eq_true|Hb]; auto.
Qed.

Lemma peers_to_wrap_NoDup s :
  peers_ok (local_id s) (si_peers s) → NoDup (peers_to_wrap s).*1.
Proof.
  intros Hp. unfold peers_to_wrap. rewrite <-list_fmap_compose.
  change (NoDup (doc_peer_id <$> filter (λ d,
    bool_decide (is_Some (si_pairs s !! doc_peer_id d)) || ltb (local_id s) (doc_peer_id d) = true)
    (map_values (si_peers s)))).
  eapply sublist_NoDup; [apply (map_values_NoDup doc_peer_id)|].
  - intros p d Hd. by apply Hp in Hd as [? _].
  - apply fmap_sublist, sublist_filter.
Qed.

(** What the wraps for [peers] leave. *)
Record wrapped (peers : list PeerId) (s s' : StoreInner) : Prop := {
  wr_failed : si_failed s' = false;
  wr_local : si_local s' = si_local s;
  wr_peers : si_peers s' = si_peers s;
  wr_wms : ∀ p, u64_N (watermark s' p) = u64_N (watermark s p) + if bool_decide (p ∈ peers) then 1 else 0;
  wr_pairs : ∀ p, (p ∉ peers) → si_pairs s' !! p = si_pairs s !! p;
  wr_keys : ∀ slot k, (ks_peer_id k ∉ peers) → si_keys s !! slot = Some k → si_keys s' !! slot = Some k;
  wr_pair : ∀ p, p ∈ peers → confirmed p s';
}.

Lemma wrapped_nil s : si_failed s = false → wrapped [] s s.
Proof.
  intros Hf. split; try done.
  - intros p. rewrite bool_decide_eq_false_2; [lia|apply not_elem_of_nil].
  - by intros p ?%elem_of_nil.
Qed.

Lemma wrapped_cons peer peers s s1 s' :
  (peer ∉ peers) → stepped peer s s1 → wrapped peers s1 s' → wrapped (peer :: peers) s s'.
Proof.
  intros Hnot [_ Hl1 Hp1 _ _ Hw1 Hq1 Hk1 Hc1] [Hf Hl Hp Hw Hq Hk Hc]. split; try congruence.
  - intros p. rewrite Hw, !wm_of_watermark, Hw1.
    destruct (decide (p = peer)) as [->|Hne].
    + rewrite bool_decide_eq_true_2, bool_decide_eq_false_2, bool_decide_eq_true_2; [lia|left|done|done].
    + rewrite (bool_decide_eq_false_2 (p = peer)) by done.
      assert (bool_decide (p ∈ peer :: peers) = bool_decide (p ∈ peers)) as ->; [|lia].
      apply bool_decide_ext. rewrite elem_of_cons. naive_solver.
  - intros p [Hne Hp']%not_elem_of_cons. rewrite Hq, Hq1; done.
  - intros slot k [Hne Hp']%not_elem_of_cons Hs. apply Hk; [done|]. by apply Hk1.
  - intros p [->|Hin]%elem_of_cons; [|by apply Hc].
    destruct Hc1 as (q & slot & k & Hq' & He & Hs & Hkp & Hke). exists q, slot, k.
    rewrite Hq by done. split; [done|]. split; [|split; [apply Hk; [by rewrite Hkp|done]|done]].
    rewrite Hw, bool_decide_eq_false_2 by done. lia.
Qed.

Lemma confirmed_session (past : Past) p s :
  inv s → si_failed s = false → confirmed p s →
  ∃ q session, si_pairs s !! p = Some q ∧ pp_epoch q = watermark s p
    ∧ ps_epoch session = watermark s p ∧ current_session p s = (Ok session, s).
Proof.
  intros Hi Hf (q & slot & k & Hq & He%u64_eq & Hs & Hkp & Hke).
  exists q, (mkPairSession p (pp_epoch q) (mkPairKeyHandle slot (si_instance_id s))).
  do 2 (split; [done|]). split; [by rewrite He|].
  unfold current_session, query, sm_bind, lock, sm_get, sm_lift. rewrite Hf, Hq. cbn.
  rewrite (proj2 (inner_session_Ok s p (pp_epoch q) (mkPairSession p (pp_epoch q)
    (mkPairKeyHandle slot (si_instance_id s))) (proj2 (ci_keys s (inv_core s Hi))))); [done|].
  by exists slot, k.
Qed.

Lemma midway_refl s : midway s s.
Proof. split; auto. lia. Qed.

(** The state a wrap writes. *)
Lemma writes_midway s0 s w peer ek epoch t :
  midway s0 s → peer ∈ (peers_to_wrap s0).*1 →
  u64_N (si_next_slot s0) <= u64_N (si_next_slot s) →
  u64_N (si_next_slot s) + 1 <= u64_N (si_next_slot s0) + lenN (peers_to_wrap s0) →
  u64_N epoch = u64_N (watermark s peer) + 1 → u64_N (watermark s peer) = u64_N (watermark s0 peer) →
  writes w peer ek epoch s t → midway s0 t.
Proof.
  intros [Hl Hp Hc Hq Hk Hs Hw] Hin Hle Hlen He Hwm (next & key & message & Hn & Hme & Hm & ->).
  split; cbn; try done.
  - intros p q [[<- <-]|[_ Hq']]%lookup_insert_Some; [|by apply Hq]. right. split; [done|].
    rewrite <-Hl. by exists ek, epoch, key, (wi_random w).
  - intros slot k [[<- _]|[_ [Hk' _]%map_lookup_filter_Some]]%lookup_insert_Some; [right; lia|].
    apply Hk in Hk' as [?|?]; [by left|right; lia].
  - rewrite Hn. done.
  - intros p e [[<- <-]|[_ Hw']]%lookup_insert_Some; [|by apply Hw]. right. split; [done|].
    change (watermark (set_keys _ _) peer) with (watermark s peer).
    rewrite u64_max_N, Hme, He, Hwm. lia.
Qed.

(** The loop of [prepare], with what it has still to do against what [s0] asked for. *)
Lemma create_each_ends `{!Past} input s0 inputs peers s :
  inv s → si_failed s = false → midway s0 s → u64_N (si_next_slot s0) <= u64_N (si_next_slot s) →
  NoDup peers.*1 →
  (∀ peer ek, (peer, ek) ∈ peers → (peer, ek) ∈ peers_to_wrap s0
     ∧ u64_N (watermark s peer) = u64_N (watermark s0 peer) ∧ si_pairs s !! peer = si_pairs s0 !! peer) →
  si_local s = si_local s0 → si_peers s = si_peers s0 → peers_ok (local_id s0) (si_peers s0) →
  (∀ w, w ∈ inputs → w ∈ oi_wraps input) →
  ((length inputs < length peers)%nat → (length (oi_wraps input) < length (peers_to_wrap s0))%nat) →
  u64_N (si_next_slot s) + lenN peers <= u64_N (si_next_slot s0) + lenN (peers_to_wrap s0) →
  ends (create_each inputs peers) (λ _, wrapped peers.*1 s) (refused input s0) s.
Proof.
  revert inputs s. induction peers as [|[peer ek] peers IH]; intros inputs s Hi Hf How Hsl Hnd Hin Hl Hp Hok Hw Hlen Hn.
  { destruct inputs; by apply wrapped_nil. }
  destruct inputs as [|w inputs]; cbn [create_each].
  { apply refused_inputs, Hlen. cbn. lia. }
  apply NoDup_cons in Hnd as [Hnot Hnd].
  destruct (Hin peer ek) as (Hto & Hwm & Hpair); [left|].
  destruct (elem_of_peers_to_wrap s0 peer ek Hok Hto) as (d & Hd & Hek & Hturn).
  apply ends_bind. unfold next_epoch, query. apply ends_bind. unfold lock, ends at 1. rewrite Hf.
  apply ends_bind. cbn. unfold ends at 1, sm_lift.
  destruct (u64_checked_add (watermark s peer) 1) as [next|] eqn:Hnext; cbn.
  2: { apply u64_of_N_None in Hnext. rewrite Hwm in Hnext. apply (refused_epoch _ _ peer); [|done].
       apply list_elem_of_fmap. by exists (peer, ek). }
  apply u64_checked_add_Some in Hnext. apply ends_bind.
  assert (Hto' : peer ∈ (peers_to_wrap s0).*1) by (apply list_elem_of_fmap; by exists (peer, ek)).
  assert (Hwrites : ∀ t, writes w peer ek next s t → midway s0 t).
  { intros t. apply writes_midway; try done. unfold lenN in *. cbn in Hn. lia. }
  assert (Hpersist : ∀ t e, writes w peer ek next s t → (persist (wi_write w) t).1 = Err e → refused input s0 e).
  { intros t e Ht [[renamed Hio]|He]%persist_Err; [|apply (refused_size _ _ t); auto].
    apply (refused_write _ _ e renamed). right. rewrite <-Hio. apply list_elem_of_fmap.
    exists w. split; [done|]. apply Hw. left. }
  eapply ends_mono; [eapply ends_wp; [apply (create_inv w peer ek next false s Hi)|]| |done].
  { apply (create_ends _ w peer ek next d); try done; try apply Hi.
    - by rewrite Hp.
    - unfold local_id in *. by rewrite Hpair, Hl.
    - intros e He. apply (refused_entropy _ _ w); [|done]. apply Hw. left.
    - intros key e He. rewrite Hl in He. apply (refused_wrap _ _ w peer ek next key); [apply Hw; left|done| |done].
      by rewrite Hnext, Hwm.
    - intros Hs. apply refused_slots. unfold lenN in *. cbn in Hn. lia. }
  cbn beta. intros _ s1 [Hi1 [Hs1 (t & file & Ht%Hwrites & ->)]]. pose proof Hs1 as [Hf1 Hl1 Hp1 _ Hn1 Hw1 Hq1 _ _].
  eapply ends_mono; [apply (IH inputs (set_state_file file t))| |done]; try done; try congruence.
  - destruct Ht. by split.
  - lia.
  - intros p k Hpk. destruct (Hin p k) as (? & Hwp & Hpp); [by right|].
    assert (p ≠ peer). { intros ->. apply Hnot. apply list_elem_of_fmap. by exists (peer, k). }
    split; [done|]. split; [|by rewrite Hq1]. rewrite wm_of_watermark, Hw1, bool_decide_eq_false_2 by done.
    rewrite <-wm_of_watermark. lia.
  - intros w' Hw'. apply Hw. by right.
  - cbn in Hlen. intros ?. apply Hlen. lia.
  - unfold lenN in *. cbn in Hn. lia.
  - cbn beta. intros _ s'. by apply wrapped_cons.
Qed.

Lemma prepare_ends `{!Past} input s :
  almost s →
  ends (prepare input) (λ _ s', inv s' ∧ wrapped (peers_to_wrap s).*1 s s') (refused input s) s.
Proof.
  intros Ha. eapply ends_wp; [by apply prepare_wp|]. unfold prepare. apply ends_bind.
  pose proof (persist_wp (oi_persist input) s Ha) as Hwp. unfold wp in Hwp. unfold ends at 1.
  destruct (persist (oi_persist input) s) as [[x|e] s1] eqn:Hp.
  2: { destruct (persist_Err (oi_persist input) s e) as [[renamed Hio]|He]; [by rewrite Hp| |].
       - apply (refused_write _ _ e renamed). rewrite <-Hio. left.
       - apply (refused_size _ _ s); [apply midway_refl|done]. }
  destruct Hwp as [Hi [file ->]]. pose proof (al_failed s Ha) as Hf.
  apply ends_bind. unfold lock, ends at 1. cbn [si_failed set_state_file]. rewrite Hf.
  apply ends_bind. cbn. change (peers_to_wrap (set_state_file file s)) with (peers_to_wrap s).
  eapply ends_mono; [apply (create_each_ends input s)| |done]; try done.
  - pose proof (midway_refl s) as []. by split.
  - by apply peers_to_wrap_NoDup, (ci_peers s), Ha.
  - apply (ci_peers s), Ha.
  - cbn beta. intros _ s' []. by split.
Qed.
(** ** Opening *)

Definition same_local (s s' : StoreInner) : Prop := si_local s' = si_local s.

#[export] Instance same_local_preorder : PreOrder same_local.
Proof. split; [done|]. intros a b c. unfold same_local. congruence. Qed.

Lemma persist_local io : stays same_local (persist io).
Proof. intros s. by apply wp_persist; intros s' (f & b & ->). Qed.

Lemma create_local input peer ek epoch : stays same_local (create input peer ek epoch).
Proof. intros s. unfold create, create_inner, install_candidate, install, take_slot. method; done. Qed.

Lemma create_each_local inputs peers : stays same_local (create_each inputs peers).
Proof.
  revert inputs. induction peers as [|[peer ek] peers IH]; intros inputs s;
    destruct inputs as [|input inputs]; cbn [create_each]; try by method.
  apply wp_bind. eapply (stays_after same_local); [apply stays_query, _|done| |done].
  intros next s1 Hs1. apply wp_bind. eapply (stays_after same_local); [apply create_local|exact Hs1| |done].
  intros _ s2 Hs2. by eapply (stays_after same_local); [apply IH|exact Hs2|..].
Qed.

Lemma prepare_local input : stays same_local (prepare input).
Proof.
  intros s. unfold prepare. apply wp_bind.
  eapply (stays_after same_local); [apply persist_local|done| |done]. intros _ s1 Hs1.
  apply wp_bind, wp_lock; [|done]. apply wp_bind, wp_get.
  by eapply (stays_after same_local); [apply create_each_local|exact Hs1|..].
Qed.

(** Files a store can be opened from lead to a store to prepare. *)
Lemma recoverable_loads `{!Past} input signer files instance_id :
  files_recoverable signer files → oi_instance_id input = Ok instance_id →
  ∃ local t, open_identity input files = (Ok local, files) ∧ same_signer local signer
    ∧ load_store input local files = Ok t ∧ almost t ∧ files_of t = files ∧ si_local t = local
    ∧ si_keys t = ∅ ∧ si_candidates t = ∅.
Proof.
  intros Hr Hinst. pose proof Hr as (local & Hl & Hsig & Hid & Hst).
  assert (Hload : ∃ t, load_store input local files = Ok t ∧ si_keys t = ∅ ∧ si_candidates t = ∅).
  { unfold load_store. rewrite Hinst. cbn [res_bind].
    destruct Hst as [[-> _]|(s0 & Hc0 & [? ?] & content & -> & Hlen & Hcont)].
    - by eexists.
    - exists (reopened local instance_id files s0). split; [|done].
      rewrite read_private_ok by done. cbn [res_bind]. destruct Hsig.
      apply (load_state_reopens _ _ _ s0 content); [done|done| |done..]. split; congruence. }
  destruct Hload as (t & Hload & Hk & Hc). exists local, t. split; [by apply open_identity_reads|].
  do 2 (split; [done|]). destruct (load_store_almost input local files t) as (? & ? & ?); try done.
  destruct Hr as (l' & ? & Hs' & Hid' & Hst'). exists local. do 3 (split; [done|]).
  destruct Hst as [?|(s0 & ? & [? ?] & ?)]; [by left|]. right. exists s0. split; [done|]. split; [|done].
  destruct Hsig. split; congruence.
Qed.

(** Opening: every known pair is at a fresh epoch, or there is a reason and the files can be
    tried again. *)
Lemma ks_open_ends `{!Past} input files local t :
  open_identity input files = (Ok local, files) → load_store input local files = Ok t → almost t →
  match ks_open input files with
  | (Ok s, files') => inv s ∧ files' = files_of s ∧ wrapped (peers_to_wrap t).*1 t s
  | (Err e, files') => refused input t e ∧ files_recoverable (si_local t) files'
  end.
Proof.
  intros Hoi Hls Ha. unfold ks_open. rewrite Hoi. cbn [res_bind]. rewrite Hls.
  pose proof (prepare_ends input t Ha) as He. pose proof (prepare_wp input t Ha) as Hw.
  pose proof (prepare_local input t) as Hl. unfold ends, wp, same_local in *.
  destruct (prepare input t) as [[[]|e] s]; cbn.
  - destruct He as [Hi Hwr]. by split.
  - split; [done|]. rewrite <-Hl. apply Hw.
Qed.
End reopen.
