(* ===== verification/KeyStoreClaims.v ===== *)
(** * What the key store guarantees

    Theorems about every execution of [KeyStoreMachine], and about two stores that exchange a
    wrap: the wrapped key arrives, and packets sealed with it open. *)
From S2P Require Export KeyStoreReopen.
From Stdlib Require Import Lia ZifyN ZifyNat.

Open Scope N_scope.

Section claims.
Context `{Sha256, MlDsa65, XWing, AesGcm, HkdfSha256}.

(** ** Wrapping and unwrapping *)

Lemma unwrap_of_wrap la lb peer epoch key random m :
  wrap_message la peer (xwing_public_key (li_kem_seed lb)) epoch key random = Ok m →
  unwrap_key lb m = Ok key.
Proof.
  unfold wrap_message, encapsulate. rewrite xwing_public_key_valid.
  destruct random as [random|]; [|done]. cbn [res_bind].
  destruct (encapsulate_deterministic _ random) as [[secret kem_ct]|] eqn:He; [|done].
  cbn [ok_or res_bind]. destruct (derive_wrap_key _ _ _ _) as [wrap_key|] eqn:Hd; [|done].
  cbn [res_bind]. destruct (wrap_aad _ _ _) as [aad|] eqn:Ha; [|done]. cbn [res_bind].
  destruct (gcm_encrypt _ _ _ _) as [ct|] eqn:Hg; [|done]. cbn [ok_or res_bind].
  destruct (wrap_m _); [|done]. cbn [res_bind]. destruct (sign _ _ _); [|done]. intros [= <-].
  unfold unwrap_key, decapsulate. cbn.
  rewrite (xwing_correct _ _ _ _ He). cbn. rewrite Hd. cbn. rewrite Ha. cbn.
  rewrite (gcm_decrypt_encrypt _ _ _ _ _ Hg). cbn. by rewrite array_of_bytes_array.
Qed.

(** ** Properties *)

(** C2: in every execution from an empty disk, through any interleaving of commands, failed
    writes, crashes and restarts, a store that ever shows two wrap messages of its own for one
    peer at one epoch shows the same message: an epoch is never given a second pair key. *)
Theorem one_wrap_per_epoch actions w log p m m' :
  collisions_free actions empty_disk → exec actions empty_disk no_past = (w, log) →
  (p, m) ∈ offers (Past := log) → (p, m') ∈ offers (Past := log) →
  wm_epoch m = wm_epoch m' → m = m'.
Proof. intros Hc He. destruct (exec_from_empty _ _ _ Hc He) as (_ & Hf & _). apply Hf. Qed.

(** C1: in every such execution no packet is sealed under a key slot with a nonce that slot
    has sealed with before, although slots and send counters are rebuilt after a crash. *)
Theorem nonces_never_repeat actions w log :
  collisions_free actions empty_disk → exec actions empty_disk no_past = (w, log) →
  NoDup (sealed (Past := log)).
Proof. intros Hc He. by destruct (exec_from_empty _ _ _ Hc He) as (_ & _ & Hn). Qed.

(** C3: a crash of a running store at any point of an execution leaves files that read back as
    the same principal, whatever failed before; when the store had not failed, with exactly its
    peers, confirmed pairs, epoch watermarks and next key slot, and with no keys and no
    candidates.  Opening them then ends in one of two ways.  Either the store opens, with every
    peer to be wrapped for (one that has a pair or a larger id) one epoch further and a session at that epoch, and everybody else's
    epoch and pair as on file; or it is refused for one of the reasons of [refused] - a failed
    write, a state too large for its file, no randomness, a wrap the cryptography refuses, no key
    slot left, or such a peer at the last epoch there is - and the files read back again.  Such a
    peer at the last epoch is a reason whatever the system gives: the store does not open again. *)
Theorem keystore_reopens actions s log input instance_id :
  collisions_free actions empty_disk → exec actions empty_disk no_past = (Running s, log) →
  oi_instance_id input = Ok instance_id →
  ∃ local t, open_identity input (files_of s) = (Ok local, files_of s)
    ∧ same_signer local (si_local s)
    ∧ load_store input local (files_of s) = Ok t
    ∧ si_keys t = ∅ ∧ si_candidates t = ∅
    ∧ (si_failed s = false →
         local = si_local s ∧ si_peers t = si_peers s ∧ si_pairs t = si_pairs s
         ∧ si_epoch_watermarks t = si_epoch_watermarks s ∧ si_next_slot t = si_next_slot s)
    ∧ match ks_open input (files_of s) with
      | (Ok s', files) =>
          files = files_of s' ∧ si_failed s' = false ∧ si_local s' = local ∧ si_peers s' = si_peers t
          ∧ (∀ p, u64_N (watermark s' p)
               = u64_N (watermark t p) + if bool_decide (p ∈ (peers_to_wrap t).*1) then 1 else 0)
          ∧ (∀ p, (p ∉ (peers_to_wrap t).*1) → si_pairs s' !! p = si_pairs t !! p)
          ∧ (∀ p, p ∈ (peers_to_wrap t).*1 → ∃ q session, si_pairs s' !! p = Some q
               ∧ pp_epoch q = watermark s' p ∧ ps_epoch session = watermark s' p
               ∧ current_session p s' = (Ok session, s'))
      | (Err e, files) =>
          refused input t e
          ∧ ∃ local' t', open_identity input files = (Ok local', files) ∧ same_signer local' local
              ∧ load_store input local' files = Ok t'
      end
    ∧ ∀ p, p ∈ (peers_to_wrap t).*1 → u64_limit <= u64_N (watermark t p) + 1 →
        is_ok (ks_open input (files_of s)).1 = false.
Proof.
  intros Hc He Hinst. destruct (exec_from_empty _ _ _ Hc He) as (Hi & _). cbn in Hi.
  destruct (recoverable_loads (H4 := log) input (si_local s) (files_of s) instance_id (inv_recoverable s Hi) Hinst)
    as (local & t & Hoi & Hsig & Hls & Ha & Hft & Hlt & Hk & Hcs).
  exists local, t. do 5 (split; [done|]).
  pose proof (ks_open_ends (H4 := log) input _ local t Hoi Hls Ha) as Hopen. split; [|split].
  - intros Hf. destruct (inv_current s Hi Hf)
      as [(s0 & Hc0 & (Hs0 & Hp & Hq & Hw & Hn & _) & content & Hs & Hlen & Hcont) Hid].
    rewrite (open_identity_reads input (files_of s) (si_local s)) in Hoi by (apply (inv_core (H4 := log) s Hi) || done).
    injection Hoi as <-. unfold load_store in Hls. rewrite Hinst in Hls. cbn [res_bind files_of f_state] in Hls.
    rewrite Hs, read_private_ok in Hls by done. cbn [res_bind] in Hls.
    rewrite (load_state_reopens (H4 := log) _ _ _ s0) in Hls by (done || apply (inv_core (H4 := log) s Hi)).
    injection Hls as <-. done.
  - destruct (ks_open input (files_of s)) as [[s'|e] files].
    + destruct Hopen as (Hi' & -> & [Hf Hl Hp Hw Hq _ Hc']). do 2 (split; [done|]). split; [congruence|].
      do 3 (split; [done|]). intros p Hp'. apply (confirmed_session log); auto.
    + destruct Hopen as [Hr Hrec]. split; [done|].
      destruct (recoverable_loads (H4 := log) input (si_local t) files instance_id Hrec Hinst)
        as (local' & t' & ? & ? & ? & _). exists local', t'. by rewrite <-Hlt.
  - intros p Hp Hmax. destruct (ks_open input (files_of s)) as [[s'|e] files]; [|done].
    destruct Hopen as (_ & _ & Hwr). pose proof (wr_wms _ _ _ Hwr p) as Hw.
    rewrite bool_decide_eq_true_2 in Hw by done. pose proof (u64_bound (watermark s' p)). lia.
Qed.

(** C4: in every reachable running store, each peer is filed under its verified id, every pair
    and candidate carries a wrap authentic under its initiator's key at an epoch not above the
    peer's watermark, there are at most 32 candidates, a live key's slot has been handed out
    and its epoch is not above the watermark, and a peer has at most one live key per epoch. *)
Theorem keystore_invariant actions s log :
  collisions_free actions empty_disk → exec actions empty_disk no_past = (Running s, log) →
  (∀ p d, si_peers s !! p = Some d → doc_peer_id d = p ∧ p ≠ local_id s ∧ verify_identity d = Ok tt)
  ∧ (∀ p q, si_pairs s !! p = Some q ∨ si_candidates s !! p = Some q →
       pp_peer_id q = p ∧ check_persisted (li_document (si_local s)) (si_peers s) q = Ok tt
       ∧ u64_N (pp_epoch q) <= u64_N (watermark s p))
  ∧ map_len (si_candidates s) <= 32
  ∧ (∀ slot k, si_keys s !! slot = Some k →
       u64_N slot < u64_N (si_next_slot s) ∧ u64_N (ks_epoch k) <= u64_N (watermark s (ks_peer_id k)))
  ∧ (∀ a b k l, si_keys s !! a = Some k → si_keys s !! b = Some l →
       ks_peer_id k = ks_peer_id l → ks_epoch k = ks_epoch l → a = b).
Proof.
  intros Hc He. destruct (exec_from_empty _ _ _ Hc He) as (Hi & _). cbn in Hi.
  destruct (inv_core s Hi) as [_ Hp Hq Hcs Hcap [Hk Hu] _ _ _].
  split; [exact Hp|]. split; [|split; [exact Hcap|split; [exact Hk|exact Hu]]].
  intros p q [Hpq|Hpq].
  - by destruct (Hq p q Hpq) as (? & ? & _ & ?).
  - by destruct (Hcs p q Hpq) as (? & ? & _ & ?).
Qed.

(** C5: when one store creates a wrap for another and the other, in any state of its own,
    accepts that message as new, the two sessions they get lead to the same AES key at the
    same epoch, each filed under the other's id. *)
Theorem wrap_handshake_agrees (past_a past_b : Past) input io epoch candidate_a candidate_b
    sa sb session_a session_b m sa' sb' :
  inv_at past_a sa → inv_at past_b sb →
  create_inner input (local_id sb) (doc_ek (li_document (si_local sb))) epoch candidate_a sa
    = (Ok (session_a, m), sa') →
  unwrap_inner io (local_id sa) m candidate_b sb = (Ok session_b, sb') → sb' ≠ sb →
  ∃ key, session_key sa' session_a key ∧ session_key sb' session_b key
    ∧ ps_epoch session_a = epoch ∧ ps_epoch session_b = epoch.
Proof.
  intros Ha Hb Hcr Hun Hnew.
  pose proof (wp_Ok _ _ _ _ _ _ (create_inner_wp input (local_id sb) _ epoch candidate_a sa Ha) Hcr)
    as (_ & Hme & _ & _ & _ & _ & key & Hw & Hka & Hea). cbn in Hme, Hw, Hka, Hea.
  pose proof (wp_Ok _ _ _ _ _ _ (unwrap_inner_wp io (local_id sa) m candidate_b sb Hb) Hun)
    as (_ & _ & q & _ & _ & _ & _ & [[_ ?]|(key' & Hu & Hkb & Heb)]); [done|].
  destruct (local_ok_vk (si_local sb)) as (_ & Hek & _); [apply (inv_core sb Hb)|].
  rewrite Hek in Hw. apply unwrap_of_wrap in Hw. rewrite Hw in Hu. injection Hu as <-.
  exists key. rewrite Heb, Hme. done.
Qed.

(** C6: a packet sealed through one store's handle opens, through the other's handle for the
    same key and epoch, to the plaintext, when the receiver's replay window has room for its
    number. *)
Theorem sealed_packet_opens sa sb ha hb ka kb header pt aad plaintext ciphertext sa' :
  seal ha (nonce header pt) aad plaintext sa = (Ok ciphertext, sa') →
  decode_aad aad = Ok (header, pt) →
  si_keys sa !! kh_slot ha = Some ka → si_keys sb !! kh_slot hb = Some kb →
  kh_store_id hb = si_instance_id sb → si_failed sb = false →
  ks_key kb = ks_key ka → ks_epoch kb = ks_epoch ka →
  ks_peer_id ka = local_id sb → ks_peer_id kb = local_id sa →
  check (window_of (mkReplayWindowKey (local_id sa) (ks_epoch kb) Inbound pt) kb) (hdr_seq header)
    = Ok tt →
  (open hb (nonce header pt) aad ciphertext sb).1 = Ok plaintext.
Proof. apply seal_opens. Qed.
End claims.

(** ** A concrete execution

    Two members; the first creates a wrap, seals, crashes and restarts, the second accepts the
    wrap and opens a packet. *)
Section sample.
#[local] Existing Instances sample_sha256 sample_mldsa sample_xwing sample_gcm sample_hkdf.

Definition sample_seed_a : array 32 := array_N 32 7.
Definition sample_seed_b : array 32 := array_N 32 9.
Definition sample_wrap : WrapInput :=
  mkWrapInput (Ok (array_N 32 1000)) (Ok (array_N 64 2000)) Written.
Definition sample_start (seed : array 32) : Action :=
  Start (mkOpenInput (Ok seed) (Ok seed) (u64! 5) Written (Ok (array_N 32 77)) Written
           [sample_wrap; sample_wrap]).
Definition sample_document (seed : array 32) : IdentityDocument :=
  match new_identity seed seed (u64! 5) with
  | Ok local => li_document local
  | Err _ => mkIdentityDocument seed [] [] u64_zero []
  end.
Definition sample_a : PeerId := doc_peer_id (sample_document sample_seed_a).
Definition sample_b : PeerId := doc_peer_id (sample_document sample_seed_b).
Definition sample_header (epoch n : u64) : PacketHeader :=
  mkPacketHeader PROTOCOL_VERSION sample_a sample_b epoch n.
Definition sample_handle (slot : u64) : PairKeyHandle := mkPairKeyHandle slot (array_N 32 77).
Definition sample_seal (slot epoch n : u64) : Action :=
  let header := sample_header epoch n in
  Do (CSeal (sample_handle slot) (nonce header Packet) (packet_aad header) [Byte.x2a]).

Definition sample_actions : list Action :=
  [ sample_start sample_seed_a; Do (CImport Written sample_wrap (sample_document sample_seed_b));
    Do (CCreate false sample_wrap sample_b (doc_ek (sample_document sample_seed_b)) (u64! 1));
    sample_seal (u64! 0) (u64! 1) (u64! 1); sample_seal (u64! 0) (u64! 1) (u64! 1);
    sample_seal (u64! 0) (u64! 1) (u64! 2); Crash; sample_start sample_seed_a;
    sample_seal (u64! 1) (u64! 2) (u64! 1) ].

Definition sample_run (actions : list Action) : World * Past := exec actions empty_disk no_past.
Definition running (w : World) : StoreInner :=
  match w with
  | Running s => s
  | Stopped files =>
      fresh_store (mkLocalIdentity (sample_document sample_seed_a) sample_seed_a sample_seed_a)
        sample_seed_a files
  end.

(** Every import is of a peer not on file. *)
Fixpoint imports_new (actions : list Action) (w : World) : bool :=
  match actions with
  | [] => true
  | a :: actions =>
      match a, w with
      | Do (CImport _ _ document), Running s =>
          bool_decide (si_peers s !! doc_peer_id document = None)
      | _, _ => true
      end && imports_new actions (act a w).1
  end.

Lemma imports_new_free actions w : imports_new actions w = true → collisions_free actions w.
Proof.
  revert w. induction actions as [|a actions IH]; intros w; cbn [imports_new collisions_free]; [done|].
  intros [Ha Hrest]%andb_true_iff. split; [|by apply IH].
  destruct a as [[]| |], w; try done. apply bool_decide_eq_true in Ha.
  intros previous Hp. by rewrite Ha in Hp.
Qed.

Lemma sample_collisions_free : collisions_free sample_actions empty_disk.
Proof. apply imports_new_free. vm_compute. reflexivity. Qed.

(** The peers before they talk: each has imported the other. *)
Definition sample_store (seed seed' : array 32) : StoreInner :=
  running (sample_run [sample_start seed; Do (CImport Written sample_wrap (sample_document seed'))]).1.

Lemma sample_store_inv seed seed' :
  imports_new [sample_start seed; Do (CImport Written sample_wrap (sample_document seed'))] empty_disk
    = true →
  (match (sample_run [sample_start seed;
      Do (CImport Written sample_wrap (sample_document seed'))]).1 with
   | Running _ => true | Stopped _ => false end) = true →
  ∃ past, inv_at past (sample_store seed seed').
Proof.
  intros Hc%imports_new_free Hr. unfold sample_store.
  destruct (sample_run _) as [w log] eqn:He.
  destruct (exec_from_empty _ _ _ Hc He) as (Hi & _). exists log.
  destruct w; [exact Hi|discriminate Hr].
Qed.

Definition sample_session (r : Result (PairSession * WrapMessage)) : PairSession * WrapMessage :=
  match r with
  | Ok p => p
  | Err _ => (mkPairSession sample_a u64_zero (sample_handle u64_zero), mkWrapMessage [] [] u64_zero sample_a sample_a [])
  end.
Definition sample_created : Result (PairSession * WrapMessage) * StoreInner :=
  let b := sample_store sample_seed_b sample_seed_a in
  create_inner sample_wrap (local_id b) (doc_ek (li_document (si_local b))) (u64! 1) false
    (sample_store sample_seed_a sample_seed_b).
Definition sample_received : Result PairSession * StoreInner :=
  unwrap_inner Written (local_id (sample_store sample_seed_a sample_seed_b))
    (sample_session sample_created.1).2 false (sample_store sample_seed_b sample_seed_a).

Lemma one_wrap_per_epoch_witness :
  let run := sample_run sample_actions in
  let m := match offers (Past := run.2) with (_, m) :: _ => m | [] => (sample_session sample_created.1).2 end in
  lenN (offers (Past := run.2)) = 6
  ∧ ((sample_b, m) ∈ offers (Past := run.2) → m = m).
Proof.
  intros run m. split; [vm_compute; reflexivity|]. intros Hin.
  apply (one_wrap_per_epoch sample_actions run.1 run.2 sample_b m m
           sample_collisions_free (surjective_pairing _) Hin Hin eq_refl).
Defined.

Lemma nonces_never_repeat_witness :
  lenN (sealed (Past := (sample_run sample_actions).2)) = 3
  ∧ NoDup (sealed (Past := (sample_run sample_actions).2)).
Proof.
  split; [vm_compute; reflexivity|].
  exact (nonces_never_repeat sample_actions (sample_run sample_actions).1
           (sample_run sample_actions).2 sample_collisions_free (surjective_pairing _)).
Defined.

Lemma sample_runs :
  sample_run sample_actions
  = (Running (running (sample_run sample_actions).1), (sample_run sample_actions).2).
Proof.
  assert (Hr : (match (sample_run sample_actions).1 with Running _ => true | Stopped _ => false end) = true)
    by (vm_compute; reflexivity).
  by destruct (sample_run sample_actions) as [[s|f] log].
Qed.

Definition sample_open : OpenInput :=
  mkOpenInput (Ok sample_seed_a) (Ok sample_seed_a) u64_zero Written (Ok sample_seed_b) Written
    [sample_wrap].

(** After the second start and crash the peer is at epoch 2; opening gives it epoch 3. *)
Lemma keystore_reopens_witness :
  let s := running (sample_run sample_actions).1 in
  let opened := ks_open sample_open (files_of s) in
  match opened with
  | (Ok s', files) => u64_N (watermark s' sample_b) = 3 ∧ files = files_of s'
  | _ => False
  end.
Proof.
  intros s opened.
  assert (Hok : (match opened.1 with Ok s' => u64_N (watermark s' sample_b) =? 3 | _ => false end) = true)
    by (vm_compute; reflexivity).
  pose proof (keystore_reopens sample_actions _ _ sample_open sample_seed_b
    sample_collisions_free sample_runs eq_refl) as (local & t & _ & _ & _ & _ & _ & _ & Hopen & _).
  change (ks_open sample_open (files_of (running (sample_run sample_actions).1))) with opened in Hopen.
  destruct opened as [[s'|e] files]; [|discriminate Hok].
  exact (conj (proj1 (N.eqb_eq _ _) Hok) (proj1 Hopen)).
Defined.

(** A peer's hint names the last epoch; the handshake raises the watermark to it, and the store
    that wrote it does not open again. *)
Definition exhausting_actions : list Action :=
  [ sample_start sample_seed_a; Do (CImport Written sample_wrap (sample_document sample_seed_b));
    Do (CCreate false sample_wrap sample_b (doc_ek (sample_document sample_seed_b)) (u64! 1));
    Do (CObserve Written sample_b (u64! 18446744073709551615)); Crash; sample_start sample_seed_a ].

Example exhausted_epoch_bars_opening :
  (match (sample_run exhausting_actions).1 with
   | Stopped files => (ks_open sample_open files).1 = Err (State "epoch exhausted")
   | Running _ => False
   end).
Proof. vm_compute. reflexivity. Qed.

Lemma keystore_invariant_witness :
  let s := running (sample_run sample_actions).1 in
  map_len (si_keys s) = 1 ∧ map_len (si_candidates s) <= 32.
Proof.
  split; [vm_compute; reflexivity|].
  exact (proj1 (proj2 (proj2 (keystore_invariant sample_actions _ _
    sample_collisions_free sample_runs)))).
Defined.

Lemma wrap_handshake_agrees_witness :
  match sample_created, sample_received with
  | (Ok (session_a, _), sa), (Ok session_b, sb) =>
      ∃ key, session_key sa session_a key ∧ session_key sb session_b key
  | _, _ => False
  end.
Proof.
  destruct (sample_store_inv sample_seed_a sample_seed_b) as [past_a Ha].
  { vm_compute. reflexivity. }
  { vm_compute. reflexivity. }
  destruct (sample_store_inv sample_seed_b sample_seed_a) as [past_b Hb].
  { vm_compute. reflexivity. }
  { vm_compute. reflexivity. }
  assert (Hcr : is_ok sample_created.1 = true) by (vm_compute; reflexivity).
  assert (Hrc : is_ok sample_received.1 = true) by (vm_compute; reflexivity).
  assert (Hne : sample_received.2 ≠ sample_store sample_seed_b sample_seed_a).
  { intros Heq. apply (f_equal (λ s, map_len (si_keys s))) in Heq. vm_compute in Heq. discriminate Heq. }
  unfold sample_received in *. destruct sample_created as [[[session_a m]|e] sa] eqn:Hcreate; [|discriminate Hcr].
  destruct (unwrap_inner _ _ _ _ _) as [[session_b|e] sb] eqn:Hreceive; [|discriminate Hrc].
  unfold sample_created in Hcreate. cbv zeta in Hcreate.
  destruct (wrap_handshake_agrees past_a past_b sample_wrap Written (u64! 1) false false
    (sample_store sample_seed_a sample_seed_b) (sample_store sample_seed_b sample_seed_a)
    session_a session_b m sa sb Ha Hb Hcreate Hreceive Hne) as (key & Hka & Hkb & _).
  exact (ex_intro _ key (conj Hka Hkb)).
Defined.

(** What a packet needs to travel from [sa] to [sb] through the handles at slot 0. *)
Definition sample_link (sa sb : StoreInner) (header : PacketHeader) : bool :=
  match si_keys sa !! u64_zero, si_keys sb !! u64_zero with
  | Some ka, Some kb =>
      bool_decide (ks_key kb = ks_key ka) && bool_decide (ks_epoch kb = ks_epoch ka)
      && bool_decide (ks_peer_id ka = local_id sb) && bool_decide (ks_peer_id kb = local_id sa)
      && bool_decide (check (window_of (mkReplayWindowKey (local_id sa) (ks_epoch kb) Inbound Packet) kb)
                        (hdr_seq header) = Ok tt)
      && bool_decide (array_N 32 77 = si_instance_id sb) && negb (si_failed sb)
  | _, _ => false
  end.

Lemma sealed_packet_opens_witness :
  let header := sample_header (u64! 1) (u64! 1) in
  let sealed := seal (sample_handle u64_zero) (nonce header Packet) (packet_aad header) [Byte.x2a]
                  sample_created.2 in
  match sealed.1 with
  | Ok ciphertext =>
      (open (sample_handle u64_zero) (nonce header Packet) (packet_aad header) ciphertext
         sample_received.2).1 = Ok [Byte.x2a]
  | Err _ => False
  end.
Proof.
  intros header sealed.
  assert (Hs : is_ok sealed.1 = true) by (vm_compute; reflexivity).
  assert (Hl : sample_link sample_created.2 sample_received.2 header = true) by (vm_compute; reflexivity).
  assert (Ha : decode_aad (packet_aad header) = Ok (header, Packet))
    by exact (proj2 (decode_aad_Packet (packet_aad header) header) (conj eq_refl eq_refl)).
  destruct sealed as [[ciphertext|e] sa'] eqn:Hseal; [|discriminate Hs]. cbn [fst].
  unfold sample_link in Hl.
  destruct (si_keys sample_created.2 !! u64_zero) as [ka|] eqn:Hka; [|discriminate Hl].
  destruct (si_keys sample_received.2 !! u64_zero) as [kb|] eqn:Hkb; [|discriminate Hl].
  repeat (apply andb_true_iff in Hl as [Hl ?Hb]).
  apply bool_decide_eq_true in Hl, Hb1, Hb2, Hb3, Hb4, Hb0. apply negb_true_iff in Hb.
  exact (sealed_packet_opens _ _ _ (sample_handle u64_zero) ka kb header Packet _ _ ciphertext sa'
    Hseal Ha Hka Hkb Hb0 Hb Hl Hb4 Hb3 Hb2 Hb1).
Defined.
End sample.
