(* ===== verification/World.v ===== *)
(** * What the host and the members act on

    The parts of a process that [HostService] and [MemberReplica] share by reference: the key
    store, the vault's files and the durable store's state.  A method of either is a state
    transformer over this [World]; what it draws from the system (clock readings, entropy, the
    outcome of a file operation) comes from an [Oracle], in the order it is drawn.  Theorems hold
    for every oracle, hence for every failure; an oracle whose operations all fail from some
    point on is a process killed there. *)
From S2P Require Export Aead.
From Stdlib Require Import Lia ZifyN ZifyNat.

Open Scope N_scope.

(** ** The vault's directory *)

(** [vault], [replica.bin] and [.admission-transaction]. *)
Inductive FileName := FAdmission | FReplica | FJournal.

Record Disk := mkDisk {
  dk_admission : option bytes;
  dk_replica : option bytes;
  dk_journal : option bytes;
  (** The files of [chunks/], by the chunk id their name spells. *)
  dk_chunks : gmap ChunkId bytes;
}.

Definition file_of (name : FileName) (d : Disk) : option bytes :=
  match name with
  | FAdmission => dk_admission d
  | FReplica => dk_replica d
  | FJournal => dk_journal d
  end.

Definition set_file (name : FileName) (content : option bytes) (d : Disk) : Disk :=
  match name with
  | FAdmission => mkDisk content (dk_replica d) (dk_journal d) (dk_chunks d)
  | FReplica => mkDisk (dk_admission d) content (dk_journal d) (dk_chunks d)
  | FJournal => mkDisk (dk_admission d) (dk_replica d) content (dk_chunks d)
  end.

Definition set_dk_chunks (chunks : gmap ChunkId bytes) (d : Disk) : Disk :=
  mkDisk (dk_admission d) (dk_replica d) (dk_journal d) chunks.

(** What became of removing a file and syncing its directory. *)
Inductive RemoveOutcome :=
  | Removed
  | RemoveFailed (error : Error) (unlinked : bool).

Definition remove_synced (io : RemoveOutcome) (old : option bytes) : Result unit * option bytes :=
  match old with
  | None => (Ok tt, None)
  | Some _ =>
      match io with
      | Removed => (Ok tt, None)
      | RemoveFailed e unlinked => (Err e, if unlinked then None else old)
      end
  end.

(** What became of removing many files: on failure, some are left. *)
Inductive SweepOutcome :=
  | Swept
  | SweepFailed (error : Error) (left_over : gset ChunkId).

(** ** The durable store's state ([DurableInner], its paths apart) *)

Record DurableInner := mkDurableInner {
  du_generation : u64;
  du_expected_root : FileId;
  du_live_metadata : option ReplicaMetadata;
  du_fail_next_persist : bool;
  du_failed : bool;
}.

Definition set_du_failed (failed : bool) (d : DurableInner) : DurableInner :=
  mkDurableInner (du_generation d) (du_expected_root d) (du_live_metadata d)
    (du_fail_next_persist d) failed.

Definition clear_fail_next (d : DurableInner) : DurableInner :=
  mkDurableInner (du_generation d) (du_expected_root d) (du_live_metadata d) false (du_failed d).

(** [inner.generation = generation; inner.live_metadata = Some(staged)] *)
Definition set_live (generation : u64) (metadata : ReplicaMetadata) (d : DurableInner)
    : DurableInner :=
  mkDurableInner generation (du_expected_root d) (Some metadata) (du_fail_next_persist d)
    (du_failed d).

(** ** The oracle *)

Class Oracle := {
  (** [unix_time()] in seconds, [unix_millis()], [Instant::now()] and its checked addition. *)
  oc_unix_time : nat → Result u64;
  oc_unix_millis : nat → u64;
  oc_instant : nat → N;
  oc_instant_add : N → N → option N;
  oc_random : ∀ n : nat, nat → Result (array n);
  oc_write : nat → WriteOutcome;
  oc_remove : nat → RemoveOutcome;
  oc_sweep : nat → SweepOutcome;
}.

Section world.
Context `{Sha256, MlDsa65, XWing, AesGcm, HkdfSha256, Oracle}.

Record World := mkWorld {
  w_keys : StoreInner;
  w_disk : Disk;
  w_durable : DurableInner;
  (** How much was drawn from the oracle. *)
  w_tick : nat;
}.

Definition set_w_keys v w := mkWorld v (w_disk w) (w_durable w) (w_tick w).
Definition set_w_disk v w := mkWorld (w_keys w) v (w_durable w) (w_tick w).
Definition set_w_durable v w := mkWorld (w_keys w) (w_disk w) v (w_tick w).
Definition set_w_tick v w := mkWorld (w_keys w) (w_disk w) (w_durable w) v.

Definition draw {A} (f : nat → A) : SM World A := λ w,
  (Ok (f (w_tick w)), set_w_tick (S (w_tick w)) w).

(** [?] on what was drawn. *)
Definition draw_ok {A} (f : nat → Result A) : SM World A :=
  do! r := draw f in sm_lift r.

Definition unix_time : SM World u64 := draw_ok oc_unix_time.
Definition unix_millis : SM World u64 := draw oc_unix_millis.
Definition random_bytes (n : nat) : SM World (array n) := draw_ok (oc_random n).

(** A call on the shared key store, and on the durable store's state. *)
Definition keys {A} (m : SM StoreInner A) : SM World A := sm_zoom w_keys set_w_keys m.

Definition durable_get : SM World DurableInner := λ w, (Ok (w_durable w), w).
Definition durable_update (f : DurableInner → DurableInner) : SM World unit := λ w,
  (Ok tt, set_w_durable (f (w_durable w)) w).
Definition disk_get : SM World Disk := λ w, (Ok (w_disk w), w).
Definition disk_update (f : Disk → Disk) : SM World unit := λ w,
  (Ok tt, set_w_disk (f (w_disk w)) w).

(** ** Whole-file operations *)

(** [atomic_private_write_bounded] *)
Definition atomic_private_write_bounded (name : FileName) (content : bytes) (maximum : N)
    : SM World unit :=
  do! io := draw oc_write in
  λ w,
    let '(r, file) :=
      atomic_write maximum "keystore file is too large" io (file_of name (w_disk w)) content in
    (r, set_w_disk (set_file name file (w_disk w)) w).

Definition atomic_private_write (name : FileName) (content : bytes) : SM World unit :=
  atomic_private_write_bounded name content MAX_STORE_BYTES.

(** [fs::remove_file] and a sync of the directory; a missing file is no error. *)
Definition remove_file (name : FileName) : SM World unit :=
  do! io := draw oc_remove in
  λ w,
    let '(r, file) := remove_synced io (file_of name (w_disk w)) in
    (r, set_w_disk (set_file name file (w_disk w)) w).

(** ** What a step can change *)

(** The key store and the durable store's state are untouched. *)
Definition files_only (w w' : World) : Prop :=
  w_keys w' = w_keys w ∧ w_durable w' = w_durable w ∧ dk_chunks (w_disk w') = dk_chunks (w_disk w).

#[export] Instance files_only_preorder : PreOrder files_only.
Proof. split; [done|]. intros a b c (? & ? & ?) (? & ? & ?). split_and!; congruence. Qed.

Lemma wp_draw {A} (f : nat → A) (Q : A → World → Prop) E w :
  (∀ x, Q x (set_w_tick (S (w_tick w)) w)) → wp (draw f) Q E w.
Proof. intros HQ. apply HQ. Qed.

Lemma wp_draw_ok {A} (f : nat → Result A) (Q : A → World → Prop) (E : World → Prop) w :
  (∀ x, Q x (set_w_tick (S (w_tick w)) w)) → E (set_w_tick (S (w_tick w)) w) →
  wp (draw_ok f) Q E w.
Proof. intros HQ HE. apply wp_bind, wp_draw. intros r. apply wp_lift; auto. Qed.

Lemma set_file_id name d : set_file name (file_of name d) d = d.
Proof. by destruct name, d. Qed.

Lemma file_of_set_file name content d : file_of name (set_file name content d) = content.
Proof. by destruct name. Qed.

Lemma write_wp name content maximum (Q : unit → World → Prop) (E : World → Prop) w :
  (∀ w', files_only w w' → lenN content <= maximum →
     w_disk w' = set_file name (Some content) (w_disk w) → Q tt w') →
  (∀ w', files_only w w' →
     w_disk w' = w_disk w ∨
     lenN content <= maximum ∧ w_disk w' = set_file name (Some content) (w_disk w) → E w') →
  wp (atomic_private_write_bounded name content maximum) Q E w.
Proof.
  intros HQ HE. apply wp_bind, wp_draw. intros io. unfold wp, atomic_write. cbn [w_disk set_w_tick].
  destruct (N.ltb_spec maximum (lenN content)) as [Hlt|Hle].
  - apply HE; cbn; [by destruct name|left; apply set_file_id].
  - destruct io as [|e renamed].
    + apply HQ; [by destruct name|done|done].
    + apply HE; cbn; [by destruct name|]. destruct renamed; [by right|left; apply set_file_id].
Qed.

Lemma remove_wp name (Q : unit → World → Prop) (E : World → Prop) w :
  (∀ w', files_only w w' → w_disk w' = set_file name None (w_disk w) → Q tt w') →
  (∀ w', files_only w w' →
     w_disk w' = w_disk w ∨ w_disk w' = set_file name None (w_disk w) → E w') →
  wp (remove_file name) Q E w.
Proof.
  intros HQ HE. apply wp_bind, wp_draw. intros io. unfold wp, remove_synced. cbn [w_disk set_w_tick].
  destruct (file_of name (w_disk w)) as [old|] eqn:Hold.
  - destruct io as [|e unlinked]; [apply HQ; by destruct name|].
    apply HE; [by destruct name|]. destruct unlinked; [by right|left]. cbn.
    rewrite <-Hold. apply set_file_id.
  - apply HQ; by destruct name.
Qed.
End world.

(** ** A concrete oracle

    Everything succeeds; randomness repeats the number of draws so far. *)
Definition sample_oracle : Oracle := {|
  oc_unix_time _ := Ok (u64! 1000);
  oc_unix_millis _ := u64! 1000000;
  oc_instant _ := 5;
  oc_instant_add a b := Some (a + b);
  oc_random n tick := Ok (array_N n (N.of_nat tick + 7));
  oc_write _ := Written;
  oc_remove _ := Removed;
  oc_sweep _ := Swept;
|}.
