(* ===== verification/Transaction.v ===== *)
(** * Publishing the admission file and the replica together ([store/transaction.rs])

    A journal with the old content of both files is written first, then each file; a failure
    rolls both back, and so does opening after a crash that left the journal.  The theorem: after
    any failures and any number of failed recoveries, a recovery that returns leaves both old
    files or both new ones. *)
From S2P Require Export World.
From Stdlib Require Import Lia ZifyN ZifyNat.

Open Scope N_scope.

Definition MAX_ADMISSION_BYTES : N := 1024 * 1024.
Definition MAX_JOURNAL_BYTES : N := 17 * 1024 * 1024 + 256.
(** The bound [persist_inner] reads the replica with. *)
Definition MAX_OLD_REPLICA_BYTES : N := 16 * 1024 * 1024.

Section transaction.
Context `{Sha256, MlDsa65, XWing, AesGcm, HkdfSha256, Oracle}.

Definition read_bounded (name : FileName) (maximum : N) : SM World (option bytes) :=
  do! disk := disk_get in
  match file_of name disk with
  | None => sm_ret None
  | Some content =>
      check! negb (maximum <? lenN content)
        else InvalidInput "invalid admission transaction file" in
      sm_ret (Some content)
  end.

(** An empty old content stands for a missing file. *)
Definition restore (name : FileName) (content : bytes) : SM World unit :=
  if negb (bool_decide (content = [])) then atomic_private_write name content
  else remove_file name.

Definition clear_journal : SM World unit := remove_file FJournal.

Definition publish_files (replica : option bytes) (admission_bytes : bytes)
    (fail_before_replica : bool) : SM World unit :=
  do! _ := atomic_private_write FAdmission admission_bytes in
  do! _ :=
    (match replica with
     | Some content =>
         check! negb fail_before_replica else State "injected replica transaction failure" in
         atomic_private_write FReplica content
     | None => sm_ret tt
     end) in
  clear_journal.

Definition rollback (replica_path : bool) (journal old_admission old_replica : bytes)
    (error : Error) : SM World unit :=
  do! _ := atomic_private_write_bounded FJournal journal MAX_JOURNAL_BYTES in
  do! _ := restore FAdmission old_admission in
  do! _ := (if replica_path then restore FReplica old_replica else sm_ret tt) in
  do! _ := clear_journal in
  sm_err error.

(** [replica_path] tells whether the path is given; the path itself is always [replica.bin]
    beside the admission file. *)
Definition persist_inner (replica_path : bool) (replica_bytes : option bytes)
    (admission_bytes : bytes) (fail_before_replica : bool) : SM World unit :=
  check! negb (MAX_ADMISSION_BYTES <? lenN admission_bytes)
    else InvalidInput "vault admission file is too large" in
  do! old_replica :=
    (if replica_path
     then do! content := read_bounded FReplica MAX_OLD_REPLICA_BYTES in sm_ret (default [] content)
     else sm_ret []) in
  do! old_admission := read_bounded FAdmission MAX_ADMISSION_BYTES in
  let old_admission := default [] old_admission in
  do! journal := sm_lift (encode_admission_transaction old_replica old_admission) in
  do! _ := atomic_private_write_bounded FJournal journal MAX_JOURNAL_BYTES in
  sm_catch (publish_files (if replica_path then replica_bytes else None) admission_bytes
              fail_before_replica)
    (rollback replica_path journal old_admission old_replica).

Definition persist_files (replica_path : bool) (replica_bytes : option bytes)
    (admission_bytes : bytes) : SM World unit :=
  check! negb (xorb replica_path (match replica_bytes with Some _ => true | None => false end))
    else InvalidInput "replica transaction path and bytes must be paired" in
  if negb replica_path then
    do! old_admission := read_bounded FAdmission MAX_ADMISSION_BYTES in
    sm_catch (atomic_private_write FAdmission admission_bytes)
      (λ error,
         do! _ := restore FAdmission (default [] old_admission) in
         sm_err error)
  else persist_inner replica_path replica_bytes admission_bytes false.

Definition recover_admission_transaction : SM World unit :=
  do! journal := read_bounded FJournal MAX_JOURNAL_BYTES in
  match journal with
  | None => sm_ret tt
  | Some content =>
      do! (old_replica, old_admission) := sm_lift (decode_admission_transaction content) in
      do! _ := restore FAdmission old_admission in
      do! _ := restore FReplica old_replica in
      clear_journal
  end.

(** ** The invariant *)

(** The admission file and the replica. *)
Definition pair_files (d : Disk) : option bytes * option bytes := (dk_admission d, dk_replica d).

(** No journal and both files old or both new; or a journal that restores the old ones. *)
Definition recoverable (old new : option bytes * option bytes) (d : Disk) : Prop :=
  dk_journal d = None ∧ (pair_files d = old ∨ pair_files d = new)
  ∨ ∃ journal, dk_journal d = Some journal ∧ lenN journal <= MAX_JOURNAL_BYTES
      ∧ encode_admission_transaction (default [] old.2) (default [] old.1) = Ok journal.

Definition not_empty (file : option bytes) : Prop := file ≠ Some [].

Lemma restore_wp name content (Q : unit → World → Prop) (E : World → Prop) w :
  (∀ w', files_only w w' →
     w_disk w' = set_file name (if bool_decide (content = []) then None else Some content) (w_disk w) →
     Q tt w') →
  (∀ w', files_only w w' →
     w_disk w' = w_disk w
     ∨ w_disk w' = set_file name (if bool_decide (content = []) then None else Some content) (w_disk w) →
     E w') →
  wp (restore name content) Q E w.
Proof.
  intros HQ HE. unfold restore. case_bool_decide as Hc; cbn [negb].
  - by apply remove_wp.
  - apply write_wp; [auto|]. intros w' Hf [Hd|[_ Hd]]; auto.
Qed.

Lemma read_bounded_wp name maximum (Q : option bytes → World → Prop) (E : World → Prop) w :
  ((∀ c, file_of name (w_disk w) = Some c → lenN c <= maximum) → Q (file_of name (w_disk w)) w) →
  E w → wp (read_bounded name maximum) Q E w.
Proof.
  intros HQ HE. apply wp_bind. unfold disk_get, wp at 1. destruct (file_of _ _) as [c|] eqn:Hc.
  - destruct (N.ltb_spec maximum (lenN c)); [done|]. apply wp_ret, HQ. by intros ? [= <-].
  - by apply HQ.
Qed.

Lemma restored file : not_empty file →
  (if bool_decide (default [] file = []) then None else Some (default [] file)) = file.
Proof. intros Hf. destruct file as [c|]; [|done]. cbn. case_bool_decide; [|done]. by subst. Qed.

Section recoverable.
Variables (old new : option bytes * option bytes).
Hypothesis (old_admission : not_empty old.1) (old_replica : not_empty old.2).

(** Restoring both files under the journal, then dropping it. *)
Lemma undo_wp (w0 w : World) (Q : unit → World → Prop) (E : World → Prop) :
  (∃ journal, dk_journal (w_disk w) = Some journal ∧ lenN journal <= MAX_JOURNAL_BYTES
     ∧ encode_admission_transaction (default [] old.2) (default [] old.1) = Ok journal) →
  files_only w0 w →
  (∀ w', files_only w0 w' → dk_journal (w_disk w') = None → pair_files (w_disk w') = old → Q tt w') →
  (∀ w', files_only w0 w' → recoverable old new (w_disk w') → E w') →
  wp (do! _ := restore FAdmission (default [] old.1) in
      do! _ := restore FReplica (default [] old.2) in
      clear_journal) Q E w.
Proof.
  intros (j & Hj & Hlen & He) Hw HQ HE.
  assert (Hkeep : ∀ w', files_only w0 w' → dk_journal (w_disk w') = Some j → E w').
  { intros w' Hf Hj'. apply HE; [done|]. right. by exists j. }
  apply wp_bind, restore_wp; rewrite restored by done; intros w1 F1 D1.
  2: { apply Hkeep; [by transitivity w|]. by destruct D1 as [->| ->]. }
  apply wp_bind, restore_wp; rewrite restored by done; intros w2 F2 D2.
  2: { apply Hkeep; [transitivity w; [done|by transitivity w1]|]. destruct D2 as [->| ->]; by rewrite D1. }
  assert (Hp : pair_files (w_disk w2) = old) by (rewrite D2, D1; by destruct old).
  apply remove_wp; intros w3 F3 D3.
  - apply HQ; [transitivity w; [done|transitivity w1; [done|by transitivity w2]]| |];
      rewrite D3; [done|exact Hp].
  - apply HE; [transitivity w; [done|transitivity w1; [done|by transitivity w2]]|].
    destruct D3 as [->| ->]; [right; exists j; by rewrite D2, D1|left; split; [done|by left]].
Qed.

(** Recovery ends with both old files or both new ones, and a failed one can be run again. *)
Lemma recover_wp w :
  recoverable old new (w_disk w) →
  wp recover_admission_transaction
    (λ _ w', files_only w w' ∧ dk_journal (w_disk w') = None
             ∧ (pair_files (w_disk w') = old ∨ pair_files (w_disk w') = new))
    (λ w', files_only w w' ∧ recoverable old new (w_disk w')) w.
Proof.
  intros Hr. apply wp_bind, read_bounded_wp; [|done]. intros Hlen.
  change (file_of FJournal (w_disk w)) with (dk_journal (w_disk w)).
  destruct Hr as [[Hj Hp]|(j & Hj & Hl & He)]; rewrite Hj; [by apply wp_ret|].
  apply wp_bind. apply decode_admission_transaction_encode in He as Hd. rewrite Hd.
  change (wp (do! _ := restore FAdmission (default [] old.1) in
      do! _ := restore FReplica (default [] old.2) in
      clear_journal)
    (λ _ w', files_only w w' ∧ dk_journal (w_disk w') = None
             ∧ (pair_files (w_disk w') = old ∨ pair_files (w_disk w') = new))
    (λ w', files_only w w' ∧ recoverable old new (w_disk w')) w).
  apply (undo_wp w); [by exists j|done|by auto|by auto].
Qed.

Lemma publish_files_wp (w0 w : World) journal replica admission :
  files_only w0 w → dk_journal (w_disk w) = Some journal →
  new = (Some admission, Some replica) →
  wp (publish_files (Some replica) admission false)
    (λ _ w', files_only w0 w' ∧ dk_journal (w_disk w') = None ∧ pair_files (w_disk w') = new)
    (λ w', files_only w0 w' ∧
       (dk_journal (w_disk w') = Some journal
        ∨ dk_journal (w_disk w') = None ∧ pair_files (w_disk w') = new)) w.
Proof.
  intros Hw Hj Hnew. unfold publish_files.
  apply wp_bind, write_wp; intros w1 F1; [intros _|]; intros D1.
  2: { split; [by transitivity w|left]. by destruct D1 as [->|[_ ->]]. }
  apply wp_bind. cbn [negb]. apply write_wp; intros w2 F2; [intros _|]; intros D2.
  2: { split; [transitivity w; [done|by transitivity w1]|left].
       destruct D2 as [->|[_ ->]]; by rewrite D1. }
  assert (F : files_only w0 w2) by (transitivity w; [done|by transitivity w1]).
  assert (Hp : pair_files (set_file FJournal None (w_disk w2)) = new) by by rewrite D2, D1, Hnew.
  apply remove_wp; intros w3 F3 D3.
  - split; [by transitivity w2|]. by rewrite D3.
  - split; [by transitivity w2|]. destruct D3 as [->| ->]; [left; by rewrite D2, D1|by right].
Qed.

Lemma rollback_wp (w0 w : World) journal error :
  files_only w0 w → lenN journal <= MAX_JOURNAL_BYTES →
  encode_admission_transaction (default [] old.2) (default [] old.1) = Ok journal →
  dk_journal (w_disk w) = Some journal ∨ dk_journal (w_disk w) = None ∧ pair_files (w_disk w) = new →
  wp (rollback true journal (default [] old.1) (default [] old.2) error)
    (λ _ _, False) (λ w', files_only w0 w' ∧ recoverable old new (w_disk w')) w.
Proof.
  intros Hw Hlen He Hstate. unfold rollback.
  apply wp_bind, write_wp; intros w1 F1; [intros _|]; intros D1.
  - apply (wp_mono _ (λ _ w', False) _
      (λ w', files_only w0 w' ∧ recoverable old new (w_disk w'))); [|done|done].
    assert (Hassoc : ∀ (a b c d : SM World unit) w',
      (do! _ := (do! _ := a in do! _ := b in c) in d) w'
      = (do! _ := a in do! _ := b in do! _ := c in d) w').
    { intros a b c d w'. unfold sm_bind. by repeat case_goal. }
    unfold wp. rewrite <-Hassoc. apply wp_bind, (undo_wp w0).
    + exists journal. by rewrite D1.
    + by transitivity w.
    + intros w' F' J' P'. apply wp_err. split; [done|]. left. auto.
    + auto.
  - split; [by transitivity w|]. destruct D1 as [->|[_ ->]].
    + destruct Hstate as [Hj|[Hj Hp]]; [right; by exists journal|left; auto].
    + right. by exists journal.
Qed.

Lemma persist_files_wp w replica admission :
  dk_journal (w_disk w) = None → pair_files (w_disk w) = old →
  new = (Some admission, Some replica) →
  wp (persist_files true (Some replica) admission)
    (λ _ w', files_only w w' ∧ dk_journal (w_disk w') = None ∧ pair_files (w_disk w') = new)
    (λ w', files_only w w' ∧ recoverable old new (w_disk w')) w.
Proof.
  intros Hj Hold Hnew. unfold persist_files, persist_inner. cbn [xorb negb].
  assert (Hrec : files_only w w ∧ recoverable old new (w_disk w)) by (split; [done|left; auto]).
  apply wp_if; intros _; [|done].
  apply wp_bind, wp_bind, read_bounded_wp; [intros _|done]. apply wp_ret.
  apply wp_bind, read_bounded_wp; [intros _|done].
  change (file_of FReplica (w_disk w)) with (pair_files (w_disk w)).2.
  change (file_of FAdmission (w_disk w)) with (pair_files (w_disk w)).1. rewrite Hold.
  apply wp_bind, wp_lift; [|done]. intros journal He.
  apply wp_bind, write_wp; intros w1 F1.
  - intros Hlen D1. apply wp_catch.
    eapply wp_mono; [apply (publish_files_wp w _ journal); [done|by rewrite D1|done]|done|].
    cbn beta. intros w2 [F2 Hs] error. eapply wp_mono; [by apply (rollback_wp w)|done|done].
  - intros D1. split; [done|]. destruct D1 as [->|[Hlen ->]]; [apply Hrec|].
    right. by exists journal.
Qed.
End recoverable.

Lemma recover_without_journal w :
  dk_journal (w_disk w) = None → recover_admission_transaction w = (Ok tt, w).
Proof.
  intros Hj. unfold recover_admission_transaction, read_bounded, sm_bind, disk_get.
  cbn [file_of]. by rewrite Hj.
Qed.

(** *** An oracle without failures *)

Section reliable.
Hypothesis (writes : ∀ tick, oc_write tick = Written) (removes : ∀ tick, oc_remove tick = Removed).

Lemma restore_reliable name content (Q : unit → World → Prop) w :
  lenN content <= MAX_STORE_BYTES →
  (∀ w', w_disk w' = set_file name (if bool_decide (content = []) then None else Some content) (w_disk w) →
     Q tt w') →
  wp (restore name content) Q (λ _, False) w.
Proof.
  intros Hlen HQ. unfold restore. case_bool_decide as Hc; cbn [negb].
  - unfold wp, remove_file, draw, sm_bind. cbn. rewrite removes. cbn.
    destruct (file_of _ _) eqn:Hf; cbn; apply HQ; cbn; done.
  - unfold wp, atomic_private_write, atomic_private_write_bounded, draw, sm_bind, atomic_write.
    cbn. rewrite writes. destruct (N.ltb_spec MAX_STORE_BYTES (lenN content)); [lia|]. cbn.
    by apply HQ.
Qed.

Lemma recover_returns old new w :
  recoverable old new (w_disk w) → (recover_admission_transaction w).1 = Ok tt.
Proof.
  intros Hr.
  assert (Hwp : wp recover_admission_transaction (λ _ _, True) (λ _, False) w).
  2: { unfold wp in Hwp. by destruct (recover_admission_transaction w) as [[[]|e] w']. }
  destruct Hr as [[Hj _]|(j & Hj & Hl & He)].
  { unfold wp. by rewrite recover_without_journal. }
  apply wp_bind. unfold read_bounded. apply wp_bind. unfold disk_get, wp at 1. cbn [file_of].
  rewrite Hj. destruct (N.ltb_spec MAX_JOURNAL_BYTES (lenN j)); [lia|]. apply wp_ret.
  apply wp_bind. apply decode_admission_transaction_encode in He as Hd. rewrite Hd.
  apply wp_lift; [|by intros []]. intros [old_replica old_admission] [= <- <-].
  unfold encode_admission_transaction in He.
  destruct (N.ltb_spec MAX_REPLICA_BYTES (lenN (default [] old.2))) as [|Hr]; [done|].
  destruct (N.ltb_spec MAX_VAULT_METADATA_BYTES (lenN (default [] old.1))) as [|Ha]; [done|].
  unfold MAX_REPLICA_BYTES, MAX_VAULT_METADATA_BYTES in *.
  apply wp_bind, restore_reliable; [unfold MAX_STORE_BYTES; lia|]. intros w1 _.
  apply wp_bind, restore_reliable; [unfold MAX_STORE_BYTES; lia|]. intros w2 _.
  apply (restore_reliable FJournal []); [done|]. done.
Qed.
End reliable.
End transaction.

Section atomic.
Context `{Sha256, MlDsa65, XWing, AesGcm, HkdfSha256}.

(** Recoveries one after the other, each with its own oracle, whatever each returns. *)
Fixpoint recoveries (oracles : list Oracle) (w : World) : World :=
  match oracles with
  | [] => w
  | oracle :: oracles => recoveries oracles (recover_admission_transaction (H4 := oracle) w).2
  end.

Lemma recoveries_recoverable old new oracles w :
  not_empty old.1 → not_empty old.2 → recoverable old new (w_disk w) →
  recoverable old new (w_disk (recoveries oracles w)).
Proof.
  intros Ha Hr. revert w. induction oracles as [|oracle oracles IH]; intros w Hw; [done|].
  cbn [recoveries]. apply IH.
  pose proof (recover_wp (H4 := oracle) old new Ha Hr w Hw) as Hwp. unfold wp in Hwp.
  destruct (recover_admission_transaction w) as [[[]|e] w']; [|apply Hwp].
  left. apply Hwp.
Qed.

Lemma recoveries_done oracles w : dk_journal (w_disk w) = None → recoveries oracles w = w.
Proof.
  intros Hj. induction oracles as [|oracle oracles IH]; [done|]. cbn [recoveries].
  by rewrite (recover_without_journal (H4 := oracle)).
Qed.

(** C31: publishing the admission file and the replica snapshot is atomic across failures and
    crashes.  Whatever file operations fail, and however many recoveries were cut short, a
    recovery that returns leaves no journal and either both files as they were or both as
    published, the latter whenever the publication reported success; and a recovery whose own
    operations succeed does return. *)
Theorem admission_transaction_atomic (first : Oracle) (later : list Oracle) (last : Oracle)
    replica admission w result w1 :
  dk_journal (w_disk w) = None → not_empty (dk_admission (w_disk w)) →
  not_empty (dk_replica (w_disk w)) →
  persist_files (H4 := first) true (Some replica) admission w = (result, w1) →
  let '(recovered, w2) := recover_admission_transaction (H4 := last) (recoveries later w1) in
  (recovered = Ok tt →
     dk_journal (w_disk w2) = None
     ∧ (pair_files (w_disk w2) = pair_files (w_disk w)
        ∨ pair_files (w_disk w2) = (Some admission, Some replica))
     ∧ (result = Ok tt → pair_files (w_disk w2) = (Some admission, Some replica)))
  ∧ ((∀ tick, oc_write (Oracle := last) tick = Written) →
     (∀ tick, oc_remove (Oracle := last) tick = Removed) → recovered = Ok tt).
Proof.
  intros Hj Ha Hr Hp.
  pose proof (persist_files_wp (H4 := first) (pair_files (w_disk w))
    (Some admission, Some replica) Ha Hr w replica admission Hj eq_refl eq_refl) as Hwp.
  unfold wp in Hwp. rewrite Hp in Hwp.
  assert (Hrec : recoverable (pair_files (w_disk w)) (Some admission, Some replica) (w_disk w1)).
  { destruct result as [[]|e]; [left; split; [apply Hwp|right; apply Hwp]|apply Hwp]. }
  pose proof (recoveries_recoverable (pair_files (w_disk w)) _ later w1 Ha Hr Hrec) as Hlater.
  pose proof (recover_wp (H4 := last) (pair_files (w_disk w)) _ Ha Hr _ Hlater) as Hlast. unfold wp in Hlast.
  pose proof (λ ws rs, recover_returns (H4 := last) ws rs _ _ _ Hlater) as Hret.
  destruct (recover_admission_transaction (recoveries later w1)) as [recovered w2] eqn:He.
  split; [|exact Hret]. intros ->. destruct Hlast as (_ & Hj2 & Hpair).
  split; [done|]. split; [done|]. intros ->. destruct Hwp as (_ & Hj1 & Hp1).
  rewrite (recoveries_done later w1 Hj1), (recover_without_journal (H4 := last) w1 Hj1) in He.
  by injection He as <-.
Qed.
End atomic.

(** A first publication that dies while writing the replica, a recovery that dies at once, and a
    recovery that works. *)
Section sample.
#[local] Existing Instances sample_sha256 sample_mldsa sample_xwing sample_gcm sample_hkdf.

Definition sample_id : array 32 := array_N 32 7.
Definition bare_store : StoreInner :=
  fresh_store (mkLocalIdentity (mkIdentityDocument sample_id [] [] u64_zero []) sample_id sample_id)
    sample_id (mkFiles None None).
Definition bare_world (disk : Disk) : World :=
  mkWorld bare_store disk (mkDurableInner u64_zero sample_id None false false) 0.

(** Every operation from the [n]th on fails and changes nothing. *)
Definition dying_oracle (n : nat) : Oracle := {|
  oc_unix_time := oc_unix_time (Oracle := sample_oracle);
  oc_unix_millis := oc_unix_millis (Oracle := sample_oracle);
  oc_instant := oc_instant (Oracle := sample_oracle);
  oc_instant_add := oc_instant_add (Oracle := sample_oracle);
  oc_random := oc_random (Oracle := sample_oracle);
  oc_write tick := if Nat.ltb tick n then Written else WriteFailed (Io OtherIo) false;
  oc_remove tick := if Nat.ltb tick n then Removed else RemoveFailed (Io OtherIo) false;
  oc_sweep := oc_sweep (Oracle := sample_oracle);
|}.

Lemma admission_transaction_atomic_witness :
  let old := mkDisk (Some (bstr "old")) (Some (bstr "older")) None ∅ in
  let w1 := (persist_files (H4 := dying_oracle 2) true (Some (bstr "new")) (bstr "newer")
               (bare_world old)).2 in
  pair_files (w_disk w1) = (Some (bstr "newer"), Some (bstr "older")) ∧
  let w2 := (recover_admission_transaction (H4 := sample_oracle)
               (recoveries [dying_oracle 0] w1)).2 in
  dk_journal (w_disk w2) = None
  ∧ (pair_files (w_disk w2) = (Some (bstr "old"), Some (bstr "older"))
     ∨ pair_files (w_disk w2) = (Some (bstr "newer"), Some (bstr "new"))).
Proof.
  intros old w1. split; [vm_compute; reflexivity|]. intros w2.
  pose proof (admission_transaction_atomic (dying_oracle 2) [dying_oracle 0] sample_oracle
    (bstr "new") (bstr "newer") (bare_world old) _ _ eq_refl
    ltac:(discriminate) ltac:(discriminate) (surjective_pairing _)) as Hat.
  fold w1 in Hat. subst w2.
  destruct (recover_admission_transaction (H4 := sample_oracle) (recoveries [dying_oracle 0] w1))
    as [r w2].
  destruct Hat as [Hok Hret].
  destruct (Hok (Hret (λ _, eq_refl) (λ _, eq_refl))) as (Hj & Hp & _).
  split; [exact Hj|exact Hp].
Defined.
End sample.
