(* ===== verification/Replica.v ===== *)
(** * Replica metadata and manifest trust ([store/replica.rs], [protocol/manifest.rs])

    The snapshot's queries: which chunks it pins and which instructions every member has applied;
    and the checks by which a writer's manifest becomes a trusted one. *)
From S2P Require Export Transaction.
From Stdlib Require Import Lia ZifyN ZifyNat.

Open Scope N_scope.

(** ** Replica metadata *)

Definition ReplicaMetadata_new (expected_root : FileId) : ReplicaMetadata :=
  mkReplicaMetadata expected_root (dirents (DirectoryTree_new expected_root)) ∅ ∅ [] (u64! 1)
    ∅ ∅ ∅ ∅ None ∅ ∅ ∅.

Definition set_rm_chunk_index (index : gmap ChunkId (FileId * u64)) (m : ReplicaMetadata)
    : ReplicaMetadata :=
  mkReplicaMetadata (rm_expected_root m) (rm_dirents m) (rm_members m) (rm_manifests m)
    (rm_log m) (rm_next_control m) (rm_mailboxes m) (rm_acked_through m) index (rm_denied m)
    (rm_admission m) (rm_historical_members m) (rm_identity_documents m)
    (rm_bootstrap_through m).

Definition set_rm_members (members : gset PeerId) (m : ReplicaMetadata) : ReplicaMetadata :=
  mkReplicaMetadata (rm_expected_root m) (rm_dirents m) members (rm_manifests m)
    (rm_log m) (rm_next_control m) (rm_mailboxes m) (rm_acked_through m) (rm_chunk_index m)
    (rm_denied m) (rm_admission m) (rm_historical_members m) (rm_identity_documents m)
    (rm_bootstrap_through m).

Definition set_rm_log (log : list ControlRecord) (m : ReplicaMetadata) : ReplicaMetadata :=
  mkReplicaMetadata (rm_expected_root m) (rm_dirents m) (rm_members m) (rm_manifests m)
    log (rm_next_control m) (rm_mailboxes m) (rm_acked_through m) (rm_chunk_index m)
    (rm_denied m) (rm_admission m) (rm_historical_members m) (rm_identity_documents m)
    (rm_bootstrap_through m).

(** The bodies a mailbox queue refers to. *)
Definition queued_chunks (queue : list QueueContent) : list ChunkId :=
  omap (λ c, match c with QChunk _ _ id => Some id | QControl _ => None end) queue.

Definition mailbox_chunks (mailboxes : gmap PeerId (list QueueContent)) : list ChunkId :=
  map_values mailboxes ≫= queued_chunks.

Definition retain_ids (m : ReplicaMetadata) : gset ChunkId :=
  list_to_set (map_values (rm_manifests m) ≫= mf_chunk_ids)
  ∪ list_to_set (mailbox_chunks (rm_mailboxes m)).

(** [acked_through.get(member).copied().unwrap_or(0)] *)
Definition ack_of (acked : gmap PeerId u64) (peer : PeerId) : u64 :=
  default u64_zero (acked !! peer).

(** [min()] of the members' acknowledgements; [None] without members. *)
Definition min_ack (members : gset PeerId) (acked : gmap PeerId u64) : option u64 :=
  foldr (λ a m, Some (match m with Some b => if u64_N a <=? u64_N b then a else b | None => a end))
    None (ack_of acked <$> sorted_elements members).

(** [log.retain(|record| record.id > minimum)] *)
Definition log_after (minimum : u64) (log : list ControlRecord) : list ControlRecord :=
  filter (λ r, (u64_N minimum < u64_N (cr_id r))%N) log.

Definition truncate_log (m : ReplicaMetadata) : ReplicaMetadata :=
  match min_ack (rm_members m) (rm_acked_through m) with
  | None => m
  | Some minimum => set_rm_log (log_after minimum (rm_log m)) m
  end.

Lemma min_ack_Some members acked (minimum : u64) :
  min_ack members acked = Some minimum →
  (∃ p, p ∈ members ∧ ack_of acked p = minimum)
  ∧ ∀ p, p ∈ members → u64_N minimum <= u64_N (ack_of acked p).
Proof.
  unfold min_ack. setoid_rewrite <-(elem_of_sorted_elements members).
  generalize (sorted_elements members). intros l. revert minimum.
  induction l as [|p l IH]; intros minimum; [done|]. cbn [fmap list_fmap foldr]. intros [= <-].
  destruct (foldr _ None (ack_of acked <$> l)) as [m|] eqn:Hm.
  - destruct (IH m eq_refl) as ((q & Hq & <-) & Hmin).
    destruct (N.leb_spec (u64_N (ack_of acked p)) (u64_N (ack_of acked q))) as [Hle|Hlt].
    + split; [exists p; split; [by left|done]|].
      intros r [->|Hr]%elem_of_cons; [done|]. by transitivity (u64_N (ack_of acked q)); [|apply Hmin].
    + split; [exists q; split; [by right|done]|].
      intros r [->|Hr]%elem_of_cons; [lia|by apply Hmin].
  - destruct l as [|q l]; [|done]. split; [exists p; split; [by left|done]|].
    by intros r ->%list_elem_of_singleton.
Qed.

Lemma min_ack_None members acked : min_ack members acked = None ↔ members = ∅.
Proof.
  unfold min_ack. split.
  - destruct (sorted_elements members) eqn:Hs; [|done]. intros _. apply set_eq. intros p.
    rewrite <-elem_of_sorted_elements, Hs. set_solver.
  - intros ->. destruct (sorted_elements ∅) as [|p l] eqn:Hs; [done|].
    assert (p ∈ sorted_elements (∅ : gset PeerId)) as Hp by (rewrite Hs; by left).
    by apply elem_of_sorted_elements, not_elem_of_empty in Hp.
Qed.

Lemma elem_of_log_after (minimum : u64) log r :
  r ∈ log_after minimum log ↔ u64_N minimum < u64_N (cr_id r) ∧ r ∈ log.
Proof. unfold log_after. by rewrite list_elem_of_filter. Qed.

Lemma elem_of_mailbox_chunks mailboxes id :
  id ∈ mailbox_chunks mailboxes ↔
  ∃ p queue file_id index, mailboxes !! p = Some queue ∧ QChunk file_id index id ∈ queue.
Proof.
  unfold mailbox_chunks. rewrite list_elem_of_bind. split.
  - intros (queue & Hid & (p & Hp)%elem_of_map_values). exists p, queue.
    unfold queued_chunks in Hid. apply list_elem_of_omap in Hid as (c & Hc & Hs).
    destruct c as [|file_id index id']; [done|]. injection Hs as ->. by exists file_id, index.
  - intros (p & queue & f & i & Hp & Hc). exists queue. split; [|by eapply elem_of_map_values; exists p].
    apply list_elem_of_omap. by exists (QChunk f i id).
Qed.

Lemma elem_of_retain_ids m id :
  id ∈ retain_ids m ↔
  (∃ f manifest, rm_manifests m !! f = Some manifest ∧ id ∈ mf_chunk_ids manifest)
  ∨ id ∈ mailbox_chunks (rm_mailboxes m).
Proof.
  unfold retain_ids. rewrite elem_of_union, !elem_of_list_to_set. apply or_iff_compat_r.
  rewrite list_elem_of_bind. split.
  - intros (manifest & Hid & (f & Hf)%elem_of_map_values). by exists f, manifest.
  - intros (f & manifest & Hf & Hid). exists manifest. split; [done|].
    apply elem_of_map_values. by exists f.
Qed.

(** ** Trusted manifests *)

Record TrustedManifest := mkTrustedManifest { manifest : Manifest }.

#[export] Instance TrustedManifest_eq_dec : EqDecision TrustedManifest.
Proof. solve_decision. Defined.

Section trust.
Context `{Sha256, MlDsa65, XWing}.

Definition load_verified_peer (peer : PeerId) : SM StoreInner IdentityDocument :=
  query (λ s, ok_or (si_peers s !! peer) KeyUnavailable).

(** The writer's signature over the manifest. *)
Definition manifest_signed (writer : IdentityDocument) (m : Manifest) : Result unit :=
  let? message := manifest_m m in
  verify (doc_vk writer) MANIFEST_CONTEXT message (mf_signature m).

Definition TrustedManifest_verify (m : Manifest) (members : gset PeerId)
    : SM StoreInner TrustedManifest :=
  check! bool_decide (mf_writer_id m ∈ members) else AuthenticationFailed in
  do! local := ks_peer in
  do! writer := (if bool_decide (mf_writer_id m = local) then ks_identity
                 else load_verified_peer (mf_writer_id m)) in
  do! _ := sm_lift (manifest_signed writer m) in
  sm_ret (mkTrustedManifest m).

Definition verify_accepted (m : Manifest) (writer : IdentityDocument) : Result TrustedManifest :=
  let? _ := verify_identity writer in
  if negb (bool_decide (mf_writer_id m = doc_peer_id writer)) then Err AuthenticationFailed
  else
    let? _ := manifest_signed writer m in
    Ok (mkTrustedManifest m).
End trust.
