(* ===== verification/Chunks.v ===== *)
(** * The chunk store and its durable form ([store/chunks.rs], [store/durable.rs])

    Plaintext chunks under the hash of their file, index and content.  A durable store keeps a
    file per chunk and a snapshot of the replica's metadata: the theorem is that what the last
    successful snapshot recorded is what the next opening finds, whatever became of later chunk
    writes and clean-ups. *)
From S2P Require Export Replica.
From Stdlib Require Import Lia ZifyN ZifyNat.

Open Scope N_scope.

Definition MAX_CHUNK_BYTES : N := 1024 * 1024.

(** ** In memory *)

Record ChunkRecord := mkChunkRecord {
  chr_file_id : FileId;
  chr_index : u64;
  chr_plaintext : bytes;
}.

#[export] Instance ChunkRecord_eq_dec : EqDecision ChunkRecord.
Proof. solve_decision. Defined.

Record MemoryChunkStore := mkMemoryChunkStore {
  mc_chunks : gmap ChunkId ChunkRecord;
  (** Whether there is a handle on the durable store, whose state is shared. *)
  mc_durable : bool;
  mc_metadata : option ReplicaMetadata;
}.

Definition MemoryChunkStore_new : MemoryChunkStore := mkMemoryChunkStore ∅ false None.

Definition from_records (chunks : gmap ChunkId ChunkRecord) : MemoryChunkStore :=
  mkMemoryChunkStore chunks true None.

Definition get_record (id : ChunkId) (s : MemoryChunkStore) : option ChunkRecord :=
  mc_chunks s !! id.

Definition chunk_get (id : ChunkId) (s : MemoryChunkStore) : option bytes :=
  chr_plaintext <$> mc_chunks s !! id.

Definition chunk_has (id : ChunkId) (s : MemoryChunkStore) : bool :=
  bool_decide (is_Some (mc_chunks s !! id)).

Definition set_metadata (metadata : ReplicaMetadata) (s : MemoryChunkStore) : MemoryChunkStore :=
  mkMemoryChunkStore (mc_chunks s) (mc_durable s) (Some metadata).

(** [dirents.iter().any(|entry| entry.child == *file_id && !entry.is_dir)] *)
Definition lists_file (entries : list Dirent) (file_id : FileId) : bool :=
  existsb (λ e, bool_decide (de_child e = file_id) && negb (de_is_dir e)) entries.

Definition accepts_file (file_id : FileId) (s : MemoryChunkStore) : bool :=
  match mc_metadata s with
  | Some metadata =>
      bool_decide (is_Some (rm_manifests metadata !! file_id))
      && lists_file (rm_dirents metadata) file_id
  | None => false
  end.

Definition accepts_chunk (file_id : FileId) (index : u64) (id : ChunkId) (s : MemoryChunkStore)
    : bool :=
  match mc_metadata s with
  | Some metadata =>
      lists_file (rm_dirents metadata) file_id
      && bool_decide ((rm_manifests metadata !! file_id
                         ≫= λ m, mf_chunk_ids m !! N.to_nat (u64_N index)) = Some id)
  | None => false
  end.

(** [remove_file]: the file's records and index entries go. *)
Definition chunks_remove_file (file_id : FileId) (s : MemoryChunkStore) : MemoryChunkStore :=
  mkMemoryChunkStore (filter (λ p, chr_file_id p.2 ≠ file_id) (mc_chunks s)) (mc_durable s)
    ((λ m, set_rm_chunk_index (filter (λ p, p.2.1 ≠ file_id) (rm_chunk_index m)) m)
       <$> mc_metadata s).

Definition file_chunk_count (file_id : FileId) (s : MemoryChunkStore) : N :=
  map_len (filter (λ p : ChunkId * ChunkRecord, chr_file_id p.2 = file_id) (mc_chunks s)).

(** [bits\[index / 8\] |= 1 << (index % 8)] for each chunk held. *)
Fixpoint set_bits (held : list bool) (index : nat) (bits : bytes) : bytes :=
  match held with
  | [] => bits
  | h :: held =>
      set_bits held (S index)
        (if h then alter (λ b, byte_of_N (N.lor (byte_N b) (N.shiftl 1 (N.of_nat (index mod 8)))))
                     (index / 8)%nat bits
         else bits)
  end.

Definition have_bitset (ids : list ChunkId) (s : MemoryChunkStore) : bytes :=
  set_bits ((λ id, chunk_has id s) <$> ids) 0
    (replicate (N.to_nat (div_ceil8 (lenN ids))) Byte.x00).

Section durable.
Context `{Sha256, MlDsa65, XWing, AesGcm, HkdfSha256, Oracle}.

(** ** Chunk files *)

(** Missing, too large, or the content. *)
Definition read_chunk (id : ChunkId) (d : Disk) : Result (option bytes) :=
  match dk_chunks d !! id with
  | None => Ok None
  | Some content =>
      if MAX_CHUNK_BYTES <? lenN content then Err (InvalidInput "invalid chunk file")
      else Ok (Some content)
  end.

Definition write_chunk_file (id : ChunkId) (content : bytes) : SM World unit :=
  do! io := draw oc_write in
  λ w,
    let '(r, file) :=
      atomic_write MAX_STORE_BYTES "keystore file is too large" io (dk_chunks (w_disk w) !! id)
        content in
    (r, set_w_disk (set_dk_chunks (partial_alter (λ _, file) id (dk_chunks (w_disk w))) (w_disk w)) w).

Definition discard_chunk_file (id : ChunkId) : SM World unit :=
  do! io := draw oc_remove in
  λ w,
    let '(r, file) := remove_synced io (dk_chunks (w_disk w) !! id) in
    (r, set_w_disk (set_dk_chunks (partial_alter (λ _, file) id (dk_chunks (w_disk w))) (w_disk w)) w).

(** Every chunk file but those retained goes; a failure leaves some. *)
Definition sweep_directory (retained : gset ChunkId) : SM World unit :=
  do! io := draw oc_sweep in
  λ w,
    let '(r, kept) := match io with
                      | Swept => (Ok tt, retained)
                      | SweepFailed e left_over => (Err e, retained ∪ left_over)
                      end in
    (r, set_w_disk (set_dk_chunks (filter (λ p, p.1 ∈ kept) (dk_chunks (w_disk w))) (w_disk w)) w).

Definition write_chunk (id : ChunkId) (plaintext : bytes) : SM World unit :=
  check! negb (MAX_CHUNK_BYTES <? lenN plaintext) else InvalidInput "chunk exceeds 1 MiB" in
  do! inner := durable_get in
  check! negb (du_failed inner) else State "durable store is poisoned" in
  do! disk := disk_get in
  if bool_decide (is_Some (dk_chunks disk !! id)) then
    do! existing := sm_lift (read_chunk id disk) in
    match existing with
    | Some existing =>
        check! bool_decide (existing = plaintext)
          else State "existing content-addressed chunk bytes differ" in
        sm_ret tt
    | None => sm_err (State "existing chunk disappeared during put")
    end
  else
    sm_catch (write_chunk_file id plaintext)
      (λ error, do! _ := durable_update (set_du_failed true) in sm_err error).

(** ** Snapshots *)

(** [staged.chunk_index]: where the retained chunks held belong. *)
Definition index_of (retained : gset ChunkId) (chunks : gmap ChunkId ChunkRecord)
    : gmap ChunkId (FileId * u64) :=
  (λ r, (chr_file_id r, chr_index r)) <$> filter (λ p, p.1 ∈ retained) chunks.

Definition bodies_held (mailboxes : gmap PeerId (list QueueContent))
    (chunks : gmap ChunkId ChunkRecord) : bool :=
  forallb (λ id, bool_decide (is_Some (chunks !! id))) (mailbox_chunks mailboxes).

(** What [persist] and [persist_with_admission] share: [write] puts the encoded snapshot in
    place. *)
Definition persist_snapshot (write : bytes → SM World unit) (metadata : ReplicaMetadata)
    (s : MemoryChunkStore) : SM World MemoryChunkStore :=
  do! inner := durable_get in
  check! negb (du_failed inner) else State "durable store is poisoned" in
  if du_fail_next_persist inner then
    do! _ := durable_update clear_fail_next in
    sm_err (State "injected replica persist failure")
  else
  check! bool_decide (rm_expected_root metadata = du_expected_root inner)
    else InvalidInput "replica root differs from open store" in
  let retained := retain_ids metadata in
  let staged := set_rm_chunk_index (index_of retained (mc_chunks s)) metadata in
  check! bodies_held (rm_mailboxes staged) (mc_chunks s)
    else State "mailbox references a missing plaintext chunk" in
  do! generation := sm_lift (ok_or (u64_checked_add (du_generation inner) 1)
                               (State "replica generation exhausted")) in
  do! encoded := sm_lift (encode_replica staged generation) in
  check! negb (MAX_STORE_BYTES <? lenN encoded)
    else InvalidInput "replica snapshot is too large" in
  do! _ := sm_catch (write encoded)
             (λ error, do! _ := durable_update (set_du_failed true) in sm_err error) in
  do! _ := durable_update (set_live generation staged) in
  let chunks := filter (λ p, p.1 ∈ retained) (mc_chunks s) in
  do! _ := sm_catch (sweep_directory (dom chunks)) (λ _, sm_ret tt) in
  sm_ret (mkMemoryChunkStore chunks (mc_durable s) (Some staged)).

Definition durable_persist (metadata : ReplicaMetadata) (s : MemoryChunkStore)
    : SM World MemoryChunkStore :=
  persist_snapshot (atomic_private_write FReplica) metadata s.

Definition durable_persist_with_admission (metadata : ReplicaMetadata) (admission_bytes : bytes)
    (s : MemoryChunkStore) : SM World MemoryChunkStore :=
  persist_snapshot (λ encoded, persist_files true (Some encoded) admission_bytes) metadata s.

(** [MemoryChunkStore::persist_metadata] and [persist_metadata_with_admission]. *)
Definition persist_metadata (metadata : ReplicaMetadata) (s : MemoryChunkStore)
    : SM World MemoryChunkStore :=
  if mc_durable s then durable_persist metadata s else sm_ret (set_metadata metadata s).

Definition persist_metadata_with_admission (metadata : ReplicaMetadata) (admission_bytes : bytes)
    (s : MemoryChunkStore) : SM World MemoryChunkStore :=
  if mc_durable s then durable_persist_with_admission metadata admission_bytes s
  else
    do! _ := persist_files false None admission_bytes in
    sm_ret (set_metadata metadata s).

Definition persist_current (s : MemoryChunkStore) : SM World MemoryChunkStore :=
  match mc_metadata s with
  | None => sm_ret s
  | Some metadata => persist_metadata metadata s
  end.

(** [ChunkStore::put]; the store is unchanged on error. *)
Definition chunk_put (file_id : FileId) (index : u64) (plaintext : bytes) (s : MemoryChunkStore)
    : SM World (ChunkId * MemoryChunkStore) :=
  let id := chunk_id file_id index plaintext in
  if chunk_has id s then sm_ret (id, s)
  else
    do! _ := (if mc_durable s then write_chunk id plaintext else sm_ret tt) in
    sm_ret (id, mkMemoryChunkStore (<[id := mkChunkRecord file_id index plaintext]> (mc_chunks s))
                  (mc_durable s) (mc_metadata s)).

(** ** Opening *)

(** One entry of the snapshot's chunk index: a file that does not hash to its id goes. *)
Definition open_chunk_file (retained : gset ChunkId) (records : gmap ChunkId ChunkRecord)
    (entry : ChunkId * (FileId * u64)) : SM World (gmap ChunkId ChunkRecord) :=
  let '(id, (file_id, index)) := entry in
  if negb (bool_decide (id ∈ retained)) then sm_ret records
  else
    do! disk := disk_get in
    match read_chunk id disk with
    | Ok None => sm_ret records
    | Ok (Some plaintext) =>
        if bool_decide (chunk_id file_id index plaintext = id)
        then sm_ret (<[id := mkChunkRecord file_id index plaintext]> records)
        else do! _ := discard_chunk_file id in sm_ret records
    | Err _ => do! _ := discard_chunk_file id in sm_ret records
    end.

Definition open_records (metadata : ReplicaMetadata) : SM World (gmap ChunkId ChunkRecord) :=
  do! records := sm_fold (open_chunk_file (retain_ids metadata))
                   (sorted_entries (rm_chunk_index metadata)) ∅ in
  check! bodies_held (rm_mailboxes metadata) records
    else State "mailbox references an unavailable plaintext chunk" in
  sm_ret records.

(** The snapshot file and the chunks it refers to. *)
Definition open_contents (expected_root : FileId)
    : SM World (option (u64 * ReplicaMetadata) * gmap ChunkId ChunkRecord) :=
  do! disk := disk_get in
  do! content := sm_lift (read_private (dk_replica disk)) in
  match content with
  | None => sm_ret (None, ∅)
  | Some content =>
      check! negb (bool_decide (content = [])) else InvalidInput "empty replica snapshot" in
      do! (generation, metadata) := sm_lift (decode_replica content expected_root) in
      do! records := open_records metadata in
      sm_ret (Some (generation, metadata), records)
  end.

(** [DurableStore::open], under the data directory's lock. *)
Definition durable_open (expected_root : FileId)
    : SM World (option ReplicaMetadata * MemoryChunkStore) :=
  do! _ := recover_admission_transaction in
  do! (snapshot, records) := open_contents expected_root in
  do! _ := sweep_directory (dom records) in
  do! _ := durable_update (λ _, mkDurableInner
             (match snapshot with Some (generation, _) => generation | None => u64_zero end)
             expected_root (snd <$> snapshot) false false) in
  let store := from_records records in
  sm_ret (snd <$> snapshot,
          match snapshot with Some (_, metadata) => set_metadata metadata store | None => store end).
End durable.
