(* ===== verification/Durable.v ===== *)
(** * What the chunk store promises

    Chunks are found only under the hash of their place and content, and the bitset a holder
    answers with says which of the requested ones it has.  A durable snapshot is atomic: after a
    failed or successful one, more chunk writes, a crash and any interrupted recoveries, opening
    finds the store as it was or as the snapshot made it, with every body its mailboxes need. *)
From S2P Require Export Chunks.
From Stdlib Require Import Lia ZifyN ZifyNat.

Open Scope N_scope.

(** ** The have bitset *)

Lemma length_set_bits held i bits : length (set_bits held i bits) = length bits.
Proof.
  revert i bits. induction held as [|h held IH]; intros i bits; [done|]. cbn. rewrite IH.
  destruct h; [apply length_alter|done].
Qed.

Definition bit_of (bits : bytes) (i : nat) : bool :=
  match bits !! (i / 8)%nat with
  | Some b => N.testbit (byte_N b) (N.of_nat (i mod 8))
  | None => false
  end.

Lemma byte_lor_bit b (k j : nat) : (k < 8)%nat → (j < 8)%nat →
  N.testbit (byte_N (byte_of_N (N.lor (byte_N b) (N.shiftl 1 (N.of_nat k))))) (N.of_nat j)
  = N.testbit (byte_N b) (N.of_nat j) || (k =? j)%nat.
Proof.
  intros Hk Hj. rewrite byte_N_of_N. change 256 with (2 ^ 8).
  rewrite N.mod_pow2_bits_low by lia. rewrite N.lor_spec. f_equal.
  rewrite N.shiftl_1_l. destruct (Nat.eqb_spec k j) as [->|Hne].
  - by rewrite N.pow2_bits_true.
  - apply N.pow2_bits_false. lia.
Qed.

Lemma set_bits_spec held i bits n :
  (i + length held ≤ 8 * length bits)%nat →
  bit_of (set_bits held i bits) n
  = bit_of bits n || match held !! (n - i)%nat with Some h => h && (i <=? n)%nat | None => false end.
Proof.
  revert i bits. induction held as [|h held IH]; intros i bits Hlen; cbn [set_bits].
  { by rewrite lookup_nil, orb_false_r. }
  cbn [length] in Hlen. rewrite IH by (destruct h; rewrite ?length_alter; lia).
  assert (Hbit : bit_of (if h then alter (λ b, byte_of_N (N.lor (byte_N b)
      (N.shiftl 1 (N.of_nat (i mod 8))))) (i / 8)%nat bits else bits) n
    = bit_of bits n || (h && (i =? n)%nat)).
  { destruct h; cbn [andb]; [|by rewrite orb_false_r]. unfold bit_of.
    destruct (decide (i / 8 = n / 8)%nat) as [E|E].
    - rewrite <-E, list_lookup_alter_eq.
      destruct (lookup_lt_is_Some_2 bits (i / 8)) as [b Hb].
      { apply Nat.Div0.div_lt_upper_bound. lia. }
      rewrite Hb. cbn [fmap option_fmap option_map]. rewrite byte_lor_bit by (apply Nat.mod_upper_bound; lia). f_equal.
      pose proof (Nat.div_mod_eq i 8). pose proof (Nat.div_mod_eq n 8).
      destruct (Nat.eqb_spec i n), (Nat.eqb_spec (i mod 8) (n mod 8)); try done; lia.
    - rewrite list_lookup_alter_ne by done.
      destruct (Nat.eqb_spec i n); [by subst|by rewrite orb_false_r]. }
  rewrite Hbit, <-orb_assoc. f_equal.
  destruct (Nat.eqb_spec i n) as [->|Hne].
  - rewrite Nat.sub_diag, Nat.leb_refl. replace (S n <=? n)%nat with false
      by (symmetry; apply Nat.leb_gt; lia).
    cbn. destruct (held !! _); by rewrite ?andb_false_r, ?andb_true_r, ?orb_false_r.
  - rewrite andb_false_r. cbn [orb].
    destruct (Nat.leb_spec i n) as [Hle|Hlt].
    + replace (n - i)%nat with (S (n - S i)) by lia. cbn [lookup list_lookup].
      destruct (held !! _); [|done]. by replace (S i <=? n)%nat with true by (symmetry; apply Nat.leb_le; lia).
    + replace (S i <=? n)%nat with false by (symmetry; apply Nat.leb_gt; lia).
      destruct (held !! _), ((h :: held) !! _); by rewrite ?andb_false_r.
Qed.

Lemma bit_of_zero k n : bit_of (replicate k Byte.x00) n = false.
Proof.
  unfold bit_of. destruct (replicate k Byte.x00 !! _) as [b|] eqn:Hb; [|done].
  apply lookup_replicate_1 in Hb as [-> _]. apply N.bits_0.
Qed.

Lemma land_shiftl_bit a k : negb (N.land a (N.shiftl 1 k) =? 0) = N.testbit a k.
Proof.
  rewrite N.shiftl_1_l. destruct (N.testbit a k) eqn:Hb.
  - apply negb_true_iff, N.eqb_neq. intros Hz.
    assert (N.testbit (N.land a (2 ^ k)) k = false) as Ht by (rewrite Hz; apply N.bits_0).
    by rewrite N.land_spec, Hb, N.pow2_bits_true in Ht.
  - apply negb_false_iff, N.eqb_eq. apply N.bits_inj. intros j. rewrite N.land_spec, N.bits_0.
    destruct (N.eq_dec k j) as [<-|Hne]; [by rewrite Hb|].
    by rewrite N.pow2_bits_false, andb_false_r by done.
Qed.

(** The answer to a have query is always well formed, and it says of each requested chunk,
    in request order, exactly whether the store holds it. *)
Theorem have_reply_exact (query : HaveQuery) (s : MemoryChunkStore) (i : nat) :
  1 <= lenN (hq_chunk_ids query) <= MAX_HAVE_CHUNK_IDS →
  ∃ reply, HaveReply_new query (have_bitset (hq_chunk_ids query) s) = Ok reply
    ∧ HaveReply_has reply i
      = match hq_chunk_ids query !! i with Some id => chunk_has id s | None => false end.
Proof.
  intros [Hlo Hhi]. unfold HaveReply_new, HaveReply_validate. cbn. unfold require_count.
  rewrite (proj2 (N.leb_le _ _) Hlo), (proj2 (N.leb_le _ _) Hhi). cbn.
  rewrite !bool_decide_eq_true_2 by done. cbn.
  set (ids := hq_chunk_ids query) in *.
  assert (Hlen : length (have_bitset ids s) = N.to_nat (div_ceil8 (lenN ids))).
  { unfold have_bitset. by rewrite length_set_bits, length_replicate. }
  assert (lenN (have_bitset ids s) = div_ceil8 (lenN ids)) as ->
    by (unfold lenN at 1; rewrite Hlen; apply N2Nat.id).
  rewrite N.eqb_refl. eexists. split; [done|]. unfold HaveReply_has. cbn [hr_chunk_ids hr_have_bitset].
  assert (Hbit : bit_of (have_bitset ids s) i
    = match ids !! i with Some id => chunk_has id s | None => false end).
  { unfold have_bitset. rewrite set_bits_spec.
    - rewrite bit_of_zero, Nat.sub_0_r, list_lookup_fmap. cbn.
      destruct (ids !! i); [cbn; by rewrite andb_true_r|done].
    - rewrite length_fmap, length_replicate. unfold div_ceil8, lenN.
      pose proof (N.div_mod' (N.of_nat (length ids) + 7) 8).
      pose proof (N.mod_upper_bound (N.of_nat (length ids) + 7) 8). lia. }
  rewrite <-Hbit. unfold bit_of.
  destruct (Nat.ltb_spec i (length ids)) as [Hlt|Hge].
  - cbn [andb]. destruct (have_bitset ids s !! _); [apply land_shiftl_bit|done].
  - cbn [andb]. unfold bit_of in Hbit. by rewrite Hbit, lookup_ge_None_2.
Qed.

(** ** Snapshots *)

Section snapshots.
Context `{Sha256, MlDsa65, XWing, AesGcm, HkdfSha256}.

Definition record_id (r : ChunkRecord) : ChunkId :=
  chunk_id (chr_file_id r) (chr_index r) (chr_plaintext r).

(** Chunks are filed under their hash. *)
Definition content_addressed (chunks : gmap ChunkId ChunkRecord) : Prop :=
  ∀ id r, chunks !! id = Some r → record_id r = id.

(** Every chunk in memory has its file. *)
Definition backed (chunks : gmap ChunkId ChunkRecord) (files : gmap ChunkId bytes) : Prop :=
  ∀ id r, chunks !! id = Some r →
    files !! id = Some (chr_plaintext r) ∧ lenN (chr_plaintext r) <= MAX_CHUNK_BYTES.

Definition store_ok (s : MemoryChunkStore) (files : gmap ChunkId bytes) : Prop :=
  content_addressed (mc_chunks s) ∧ (mc_durable s = true → backed (mc_chunks s) files).

(** Metadata whose directory entries come from a tree and whose admission lists no member
    twice. *)
Definition metadata_ok (m : ReplicaMetadata) : Prop :=
  (∃ t, tree_ok t ∧ tr_expected_root t = rm_expected_root m ∧ rm_dirents m = dirents t)
  ∧ admission_ok (rm_admission m).

(** The store a snapshot of [m] leaves: the retained chunks and where they belong. *)
Definition snapshot_of (m : ReplicaMetadata) (s : MemoryChunkStore) : MemoryChunkStore :=
  mkMemoryChunkStore (filter (λ p, p.1 ∈ retain_ids m) (mc_chunks s)) (mc_durable s)
    (Some (set_rm_chunk_index (index_of (retain_ids m) (mc_chunks s)) m)).

(** [s] is what opening finds when the snapshot file has this content and no chunk file was
    lost. *)
Definition on_file (root : FileId) (generation : u64) (s : MemoryChunkStore)
    (content : option bytes) : Prop :=
  (content = None ∧ generation = u64_zero ∧ s = from_records ∅)
  ∨ ∃ m s' l, s = snapshot_of m s' ∧ mc_durable s' = true ∧ metadata_ok m
    ∧ rm_expected_root m = root ∧ content_addressed (mc_chunks s')
    ∧ bodies_held (rm_mailboxes m) (mc_chunks s') = true
    ∧ content = Some l ∧ lenN l <= MAX_STORE_BYTES
    ∧ encode_replica (set_rm_chunk_index (index_of (retain_ids m) (mc_chunks s')) m) generation = Ok l.

Lemma retain_ids_index index m : retain_ids (set_rm_chunk_index index m) = retain_ids m.
Proof. done. Qed.

Lemma index_of_lookup retained chunks id :
  index_of retained chunks !! id
  = (λ r, (chr_file_id r, chr_index r)) <$> (filter (λ p, p.1 ∈ retained) chunks !! id).
Proof. apply lookup_fmap. Qed.

Lemma filter_retained_Some (retained : gset ChunkId) (chunks : gmap ChunkId ChunkRecord) id r :
  filter (λ p, p.1 ∈ retained) chunks !! id = Some r ↔ chunks !! id = Some r ∧ id ∈ retained.
Proof. apply map_lookup_filter_Some. Qed.

Lemma decode_snapshot m generation l :
  metadata_ok m → encode_replica m generation = Ok l →
  decode_replica l (rm_expected_root m) = Ok (generation, m).
Proof.
  intros [(t & Ht & Hroot & Hd) Hadm] He.
  destruct (decode_replica_encode m generation l Hadm He) as (t' & Hf & ->).
  rewrite Hd, <-Hroot, from_dirents_dirents in Hf by done. injection Hf as <-.
  rewrite <-Hd. by destruct m.
Qed.

Section opening.
Context `{Oracle}.

(** Reading the chunk files an index names, when they are all there. *)
Lemma open_fold_reads (chunks : gmap ChunkId ChunkRecord) retained w l records :
  content_addressed chunks → backed chunks (dk_chunks (w_disk w)) →
  (∀ id place, (id, place) ∈ l →
     id ∈ retained ∧ ∃ r, chunks !! id = Some r ∧ place = (chr_file_id r, chr_index r)) →
  ∃ records', sm_fold (open_chunk_file retained) l records w = (Ok records', w)
    ∧ ∀ id, records' !! id = if bool_decide (id ∈ l.*1) then chunks !! id else records !! id.
Proof.
  intros Hc Hb. revert records.
  induction l as [|[id place] l IH]; intros records Hl; cbn [sm_fold fmap list_fmap fst].
  { exists records. split; [done|]. intros id. by rewrite bool_decide_eq_false_2 by apply not_elem_of_nil. }
  destruct (Hl id place ltac:(by left)) as (Hr & r & Hid & ->).
  destruct (Hb id r Hid) as [Hfile Hlen]. pose proof (Hc id r Hid) as Hhash.
  assert (Hstep : open_chunk_file retained records (id, (chr_file_id r, chr_index r)) w
    = (Ok (<[id := r]> records), w)).
  { unfold open_chunk_file. rewrite bool_decide_eq_true_2 by done. cbn [negb].
    unfold sm_bind, disk_get, read_chunk. rewrite Hfile.
    destruct (N.ltb_spec MAX_CHUNK_BYTES (lenN (chr_plaintext r))); [lia|].
    unfold record_id in Hhash. rewrite bool_decide_eq_true_2 by done.
    by destruct r. }
  unfold sm_bind. rewrite Hstep.
  destruct (IH (<[id := r]> records)) as (records' & Hf & Hlook).
  { intros id' place' Hin. apply Hl. by right. }
  exists records'. split; [exact Hf|]. intros id'. rewrite Hlook.
  destruct (decide (id' ∈ l.*1)).
  - rewrite (bool_decide_eq_true_2 (id' ∈ l.*1)) by done.
    by rewrite bool_decide_eq_true_2 by (by right).
  - rewrite (bool_decide_eq_false_2 (id' ∈ l.*1)) by done. destruct (decide (id' = id)) as [->|Hne].
    + rewrite bool_decide_eq_true_2 by (by left). by rewrite lookup_insert_eq, Hid.
    + rewrite bool_decide_eq_false_2 by (by intros [|]%elem_of_cons). by rewrite lookup_insert_ne.
Qed.

Lemma open_records_reads m s w :
  content_addressed (mc_chunks s) →
  backed (filter (λ p, p.1 ∈ retain_ids m) (mc_chunks s)) (dk_chunks (w_disk w)) →
  bodies_held (rm_mailboxes m) (mc_chunks s) = true →
  open_records (set_rm_chunk_index (index_of (retain_ids m) (mc_chunks s)) m) w
  = (Ok (filter (λ p, p.1 ∈ retain_ids m) (mc_chunks s)), w).
Proof.
  intros Hc Hb Hbodies. set (kept := filter _ (mc_chunks s)) in *.
  destruct (open_fold_reads kept (retain_ids m) w
    (sorted_entries (index_of (retain_ids m) (mc_chunks s))) ∅) as (records & Hf & Hlook).
  - intros id r [Hid _]%filter_retained_Some. by apply Hc.
  - exact Hb.
  - intros id place Hin%elem_of_sorted_entries. rewrite index_of_lookup in Hin.
    apply fmap_Some in Hin as (r & Hid & ->). split; [by apply filter_retained_Some in Hid as [_ ?]|].
    by exists r.
  - assert (Heq : records = kept).
    { apply map_eq. intros id. rewrite Hlook. case_bool_decide as Hin; [done|].
      rewrite lookup_empty. symmetry. destruct (kept !! id) as [r|] eqn:Hid; [|done]. exfalso.
      apply Hin, list_elem_of_fmap. exists (id, (chr_file_id r, chr_index r)). split; [done|].
      apply elem_of_sorted_entries. rewrite index_of_lookup. fold kept. by rewrite Hid. }
    unfold open_records, sm_bind. rewrite retain_ids_index. cbn [rm_chunk_index set_rm_chunk_index].
    rewrite Hf, Heq.
    assert (Hheld : bodies_held (rm_mailboxes m) kept = true); [|cbn; by rewrite Hheld].
    unfold bodies_held in *. rewrite forallb_forall in *. intros id Hin.
    pose proof (Hbodies id Hin) as [r Hid]%bool_decide_eq_true. apply bool_decide_eq_true.
    exists r. apply filter_retained_Some. split; [done|]. apply elem_of_retain_ids. right.
    by apply list_elem_of_In.
Qed.

(** ** Between two snapshots *)

(** A generation and the store it opens to. *)
Definition Version : Type := u64 * MemoryChunkStore.

(** The directory can be opened as the older or as the newer version. *)
Definition between (root : FileId) (a b : Version) (d : Disk) : Prop :=
  ∃ old new, recoverable old new d
    ∧ not_empty old.1 ∧ not_empty new.1
    ∧ on_file root a.1 a.2 old.2 ∧ on_file root b.1 b.2 new.2
    ∧ backed (mc_chunks a.2) (dk_chunks d) ∧ backed (mc_chunks b.2) (dk_chunks d).

Lemma on_file_not_empty root g s content : on_file root g s content → not_empty content.
Proof.
  intros [(-> & _)|(m & s' & l & _ & _ & Hm & _ & _ & _ & -> & _ & He)]; [done|].
  intros [= ->]. apply decode_snapshot in He; [|exact Hm].
  assert (Hempty : ∀ r, is_ok (decode_replica [] r) = false) by (intros r; vm_compute; reflexivity).
  pose proof (Hempty (rm_expected_root (set_rm_chunk_index (index_of (retain_ids m) (mc_chunks s')) m)))
    as Hfalse. by rewrite He in Hfalse.
Qed.

Lemma backed_subseteq chunks (files files' : gmap ChunkId bytes) :
  files ⊆ files' → backed chunks files → backed chunks files'.
Proof. intros Hsub Hb id r [Hf ?]%Hb. split; [by eapply lookup_weaken|done]. Qed.

Lemma backed_filter (P : ChunkId * ChunkRecord → Prop) `{∀ p, Decision (P p)} chunks files :
  backed chunks files → backed (filter P chunks) files.
Proof. intros Hb id r [Hid _]%map_lookup_filter_Some. by apply Hb. Qed.

Lemma content_addressed_filter (P : ChunkId * ChunkRecord → Prop) `{∀ p, Decision (P p)} chunks :
  content_addressed chunks → content_addressed (filter P chunks).
Proof. intros Hc id r [Hid _]%map_lookup_filter_Some. by apply Hc. Qed.

Lemma sweep_wp retained (Q : unit → World → Prop) (E : World → Prop) w :
  (∀ w' (kept : gset ChunkId), w_keys w' = w_keys w → w_durable w' = w_durable w → retained ⊆ kept →
     w_disk w' = set_dk_chunks (filter (λ p, p.1 ∈ kept) (dk_chunks (w_disk w))) (w_disk w) →
     Q tt w' ∧ E w') →
  wp (sweep_directory retained) Q E w.
Proof.
  intros HQ. unfold sweep_directory. apply wp_bind, wp_draw. intros [|e left_over]; unfold wp.
  - apply (HQ _ retained); done.
  - apply (HQ _ (retained ∪ left_over)); [done|done|set_solver|done].
Qed.

(** A sweep that keeps the files of the store's chunks. *)
Lemma swept_backed chunks files (kept : gset ChunkId) :
  dom chunks ⊆ kept → backed chunks files → backed chunks (filter (λ p, p.1 ∈ kept) files).
Proof.
  intros Hsub Hb id r Hid. destruct (Hb id r Hid) as [Hf Hl]. split; [|done].
  apply map_lookup_filter_Some. split; [done|]. apply Hsub, elem_of_dom. by exists r.
Qed.

Lemma between_swept root a d (kept : gset ChunkId) :
  dom (mc_chunks a.2) ⊆ kept → between root a a d →
  between root a a (set_dk_chunks (filter (λ p, p.1 ∈ kept) (dk_chunks d)) d).
Proof.
  intros Hk (old & new & Hr & Ho & Hn & Ha & Hb & Hba & Hbb).
  exists old, new. split_and!; try done; by apply swept_backed.
Qed.

(** Which version [on_file] reads. *)
Lemma on_file_opens root g s content (w : World) :
  on_file root g s content → dk_replica (w_disk w) = content →
  backed (mc_chunks s) (dk_chunks (w_disk w)) →
  open_contents root w = (Ok ((λ m, (g, m)) <$> mc_metadata s, mc_chunks s), w)
  ∧ mc_durable s = true ∧ (mc_metadata s = None → g = u64_zero).
Proof.
  intros Hon Hd Hb. pose proof (on_file_not_empty _ _ _ _ Hon) as Hne.
  unfold open_contents, sm_bind, disk_get, sm_lift, read_private. rewrite Hd.
  destruct Hon as [(-> & -> & ->)|(m & s' & l & -> & Hdur & Hm & Hroot & Hc & Hbodies & -> & Hl & He)];
    [done|]. split; [|done].
  destruct (N.ltb_spec MAX_STORE_BYTES (lenN l)); [lia|].
  rewrite bool_decide_eq_false_2 by (intros ->; by apply Hne). cbn [negb].
  pose proof (decode_snapshot _ _ _
    (Hm : metadata_ok (set_rm_chunk_index (index_of (retain_ids m) (mc_chunks s')) m)) He) as Hdec.
  change (rm_expected_root (set_rm_chunk_index _ m)) with (rm_expected_root m) in Hdec.
  rewrite Hroot in Hdec. rewrite Hdec. by rewrite open_records_reads.
Qed.

(** Opening a directory between two versions finds one of them. *)
Lemma durable_open_wp root a b w :
  between root a b (w_disk w) →
  wp (durable_open root)
    (λ r w', ∃ v, (v = a ∨ v = b) ∧ r = (mc_metadata v.2, v.2)
       ∧ w_durable w' = mkDurableInner v.1 root (mc_metadata v.2) false false
       ∧ between root v v (w_disk w'))
    (λ w', ∃ v v', (v = a ∨ v = b) ∧ (v' = a ∨ v' = b) ∧ between root v v' (w_disk w')) w.
Proof.
  intros (old & new & Hr & Ho & Hn & Ha & Hb & Hba & Hbb). unfold durable_open.
  apply wp_bind. eapply wp_mono.
  { apply (recover_wp old new); [done|by eapply on_file_not_empty|done]. }
  2: { intros w1 [(_ & _ & Hchunks) Hr1]. exists a, b. split; [by left|]. split; [by right|].
       exists old, new. rewrite Hchunks. done. }
  intros _ w1 ((_ & _ & Hchunks) & Hj & Hp). cbv beta.
  assert (∃ v, (v = a ∨ v = b) ∧ between root v v (w_disk w1)
    ∧ on_file root v.1 v.2 (dk_replica (w_disk w1))
    ∧ backed (mc_chunks v.2) (dk_chunks (w_disk w1))) as (v & Hv & Hbet & Hon & Hback).
  { assert (Hself : ∀ v p, pair_files (w_disk w1) = p → not_empty p.1 → on_file root v.1 v.2 p.2 →
      backed (mc_chunks v.2) (dk_chunks (w_disk w1)) → between root v v (w_disk w1)).
    { intros v p Hp' ? ? ?. exists p, p. split_and!; try done. left. auto. }
    destruct Hp as [Hp|Hp]; [exists a|exists b];
      change (dk_replica (w_disk w1)) with (pair_files (w_disk w1)).2;
      (split; [auto|]; split; [eapply Hself; [exact Hp|done..|]|rewrite Hp; split; [done|]]);
      by rewrite Hchunks. }
  destruct (on_file_opens _ _ _ _ w1 Hon eq_refl Hback) as (Hopen & Hdur & Hzero).
  apply wp_bind. unfold wp. rewrite Hopen. apply wp_bind, sweep_wp.
  intros w2 kept _ _ Hkept Hd2.
  assert (Hbet2 : between root v v (w_disk w2)) by (rewrite Hd2; by apply between_swept).
  split; [|by exists v, v].
  apply wp_bind. unfold durable_update, wp. cbn. exists v. split; [done|].
  destruct v as [g [chunks dur [m|]]]; cbn in *.
  - subst. done.
  - subst. by rewrite (Hzero eq_refl) in *.
Qed.

(** ** Persisting *)

(** The running store's files: they open as version [v], which is the live one. *)
Record live (root : FileId) (v : Version) (w : World) : Prop := {
  lv_root : du_expected_root (w_durable w) = root;
  lv_generation : du_generation (w_durable w) = v.1;
  lv_journal : dk_journal (w_disk w) = None;
  lv_admission : not_empty (dk_admission (w_disk w));
  lv_file : on_file root v.1 v.2 (dk_replica (w_disk w));
  lv_backed : backed (mc_chunks v.2) (dk_chunks (w_disk w));
}.

Lemma live_between root v w : live root v w → between root v v (w_disk w).
Proof.
  intros [Hr Hg Hj Ha Hf Hb]. exists (pair_files (w_disk w)), (pair_files (w_disk w)).
  split_and!; try done. left. auto.
Qed.

(** The write a snapshot goes through: on its own or in a transaction with the admission file. *)
Definition writes_pair (write : bytes → SM World unit) (admission : option bytes) (w : World)
    : Prop :=
  ∀ l, wp (write l)
    (λ _ w', files_only w w' ∧ dk_journal (w_disk w') = None
             ∧ pair_files (w_disk w') = (admission, Some l))
    (λ w', files_only w w'
           ∧ recoverable (pair_files (w_disk w)) (admission, Some l) (w_disk w')) w.

Lemma write_replica_pair w :
  dk_journal (w_disk w) = None →
  writes_pair (atomic_private_write FReplica) (dk_admission (w_disk w)) w.
Proof.
  intros Hj l. apply write_wp.
  - intros w' Hf _ ->. split; [done|]. split; [exact Hj|done].
  - intros w' Hf Hd. split; [done|]. left.
    destruct Hd as [->|[_ ->]]; (split; [exact Hj|]); [by left|by right].
Qed.

Lemma write_both_pair admission w :
  dk_journal (w_disk w) = None → not_empty (dk_admission (w_disk w)) →
  not_empty (dk_replica (w_disk w)) →
  writes_pair (λ l, persist_files true (Some l) admission) (Some admission) w.
Proof. intros Hj Ha Hr l. by apply persist_files_wp. Qed.

(** What one snapshot leaves: the new version, or, on error, files between the two. *)
Lemma persist_snapshot_wp write admission root v m s w :
  live root v w → writes_pair write admission w → not_empty admission →
  store_ok s (dk_chunks (w_disk w)) → mc_durable s = true → metadata_ok m →
  wp (persist_snapshot write m s)
    (λ s' w', s' = snapshot_of m s ∧ ∃ g, u64_N g = u64_N v.1 + 1 ∧ live root (g, s') w'
       ∧ w_keys w' = w_keys w ∧ du_failed (w_durable w') = du_failed (w_durable w)
       ∧ du_live_metadata (w_durable w') = mc_metadata s')
    (λ w', w_keys w' = w_keys w
       ∧ (live root v w' ∧ w_disk w' = w_disk w ∧ du_failed (w_durable w') = du_failed (w_durable w)
          ∨ du_failed (w_durable w') = true
            ∧ ∃ g, u64_N g = u64_N v.1 + 1 ∧ between root v (g, snapshot_of m s) (w_disk w')))
    w.
Proof.
  intros Hlive Hwrite Hadm [Hc Hb] Hdur Hm. destruct (id Hlive) as [Hr Hg Hj Ha Hf Hback].
  match goal with |- wp _ _ ?E w => assert (HE : E w) by (split; [done|by left]) end.
  unfold persist_snapshot. apply wp_bind. unfold durable_get, wp at 1.
  apply wp_if; intros _; [|exact HE]. apply wp_if; intros _.
  { apply wp_bind. unfold durable_update, wp at 1. apply wp_err. split; [done|]. left.
    split; [by split|done]. }
  apply wp_if; intros Hroot; [apply bool_decide_eq_true in Hroot|exact HE].
  apply wp_if; intros Hbodies; [|exact HE].
  apply wp_bind, wp_lift; [|intros _; exact HE]. intros g Hgen.
  assert (Hnext : u64_N g = u64_N v.1 + 1).
  { rewrite <-Hg. destruct (u64_checked_add _ 1) eqn:Hadd; [|done]. injection Hgen as ->.
    by apply u64_checked_add_Some in Hadd. }
  apply wp_bind, wp_lift; [|intros _; exact HE]. intros l He.
  apply wp_if; intros Hlen; [apply negb_true_iff, N.ltb_ge in Hlen|exact HE].
  assert (Hnew : on_file root g (snapshot_of m s) (Some l)).
  { right. exists m, s, l. split_and!; try done. congruence. }
  assert (Hkept : backed (mc_chunks (snapshot_of m s)) (dk_chunks (w_disk w)))
    by (apply backed_filter; auto).
  apply wp_bind, wp_catch. eapply wp_mono; [apply Hwrite| |].
  2: { intros w1 [(Hk1 & Hd1 & Hc1) Hr1] e. apply wp_bind. unfold durable_update, wp at 1.
       apply wp_err. cbn. split; [done|]. right. split; [done|]. exists g. split; [done|].
       exists (pair_files (w_disk w)), (admission, Some l). rewrite Hc1. done. }
  intros _ w1 ((Hk1 & Hd1 & Hc1) & Hj1 & Hp1). cbv beta.
  apply wp_bind. unfold durable_update, wp at 1.
  apply wp_bind, wp_catch, sweep_wp. intros w2 kept Hk2 Hd2 Hsub Hw2.
  assert (Hlive2 : live root (g, snapshot_of m s) w2).
  { cbn in Hw2. injection Hp1 as Hp1 Hp2.
    split; rewrite ?Hd2, ?Hw2; cbn; [by rewrite Hd1|done|done|by rewrite Hp1|by rewrite Hp2|].
    rewrite Hc1. by apply swept_backed. }
  assert (wp (sm_ret (snapshot_of m s))
    (λ s' w', s' = snapshot_of m s ∧ ∃ g, u64_N g = u64_N v.1 + 1 ∧ live root (g, s') w'
       ∧ w_keys w' = w_keys w ∧ du_failed (w_durable w') = du_failed (w_durable w)
       ∧ du_live_metadata (w_durable w') = mc_metadata s')
    (λ w', w_keys w' = w_keys w
       ∧ (live root v w' ∧ w_disk w' = w_disk w ∧ du_failed (w_durable w') = du_failed (w_durable w)
          ∨ du_failed (w_durable w') = true
            ∧ ∃ g, u64_N g = u64_N v.1 + 1 ∧ between root v (g, snapshot_of m s) (w_disk w'))) w2)
    as Hend; [|split; [exact Hend|intros _; apply wp_ret; exact Hend]].
  apply wp_ret. split; [done|]. exists g. split; [done|]. split; [done|].
  rewrite Hk2, Hd2. cbn. by rewrite Hd1.
Qed.

(** ** Putting chunks *)

(** Nothing but chunk files, and none of them lost or changed. *)
Definition chunks_grow (w w' : World) : Prop :=
  w_keys w' = w_keys w ∧ pair_files (w_disk w') = pair_files (w_disk w)
  ∧ dk_journal (w_disk w') = dk_journal (w_disk w)
  ∧ dk_chunks (w_disk w) ⊆ dk_chunks (w_disk w')
  ∧ du_generation (w_durable w') = du_generation (w_durable w)
  ∧ du_expected_root (w_durable w') = du_expected_root (w_durable w)
  ∧ du_live_metadata (w_durable w') = du_live_metadata (w_durable w).

Lemma chunks_grow_refl w : chunks_grow w w.
Proof. done. Qed.

Lemma chunks_grow_trans a b c : chunks_grow a b → chunks_grow b c → chunks_grow a c.
Proof.
  intros (? & ? & ? & ? & ? & ? & ?) (? & ? & ? & ? & ? & ? & ?).
  split_and!; try congruence. by etransitivity.
Qed.

Lemma write_chunk_wp id plaintext w :
  wp (write_chunk id plaintext)
    (λ _ w', chunks_grow w w' ∧ du_failed (w_durable w') = du_failed (w_durable w)
             ∧ dk_chunks (w_disk w') !! id = Some plaintext
             ∧ lenN plaintext <= MAX_CHUNK_BYTES)
    (λ w', chunks_grow w w') w.
Proof.
  unfold write_chunk. apply wp_if; intros Hlen; [apply negb_true_iff, N.ltb_ge in Hlen|done].
  apply wp_bind. unfold durable_get, wp at 1. apply wp_if; intros _; [|done].
  apply wp_bind. unfold disk_get, wp at 1. apply wp_if; intros Hex.
  - apply wp_bind, wp_lift; [|done]. intros existing Hread. unfold read_chunk in Hread.
    destruct (dk_chunks (w_disk w) !! id) as [content|] eqn:Hid.
    2: { injection Hread as <-. done. }
    destruct (MAX_CHUNK_BYTES <? lenN content); [done|]. injection Hread as <-.
    apply wp_if; intros Heq; [|done]. apply bool_decide_eq_true in Heq as ->. by apply wp_ret.
  - apply bool_decide_eq_false, eq_None_not_Some in Hex.
    assert (Hgrow : ∀ d w' content, d = w_durable w ∨ d = set_du_failed true (w_durable w) →
      dk_chunks (w_disk w) ⊆ partial_alter (λ _, content) id (dk_chunks (w_disk w)) →
      w' = mkWorld (w_keys w) (set_dk_chunks (partial_alter (λ _, content) id (dk_chunks (w_disk w)))
        (w_disk w)) d (S (w_tick w)) → chunks_grow w w').
    { intros d w' content Hd Hsub ->. split_and!; try done; by destruct Hd as [-> | ->]. }
    assert (Hsub : ∀ content, dk_chunks (w_disk w) ⊆ partial_alter (λ _, content) id (dk_chunks (w_disk w))).
    { intros content. apply map_subseteq_spec. intros i x Hi. rewrite lookup_partial_alter_ne; [done|].
      intros ->. by rewrite Hex in Hi. }
    apply wp_catch. unfold write_chunk_file. apply wp_bind, wp_draw. intros io.
    unfold wp at 1, atomic_write. cbn [w_disk set_w_tick].
    assert (Hfail : ∀ content, ∀ e, wp (do! _ := durable_update (set_du_failed true) in sm_err (A := unit) e)
      (λ _ w', chunks_grow w w' ∧ du_failed (w_durable w') = du_failed (w_durable w)
             ∧ dk_chunks (w_disk w') !! id = Some plaintext ∧ lenN plaintext <= MAX_CHUNK_BYTES)
      (λ w', chunks_grow w w')
      (mkWorld (w_keys w) (set_dk_chunks (partial_alter (λ _, content) id (dk_chunks (w_disk w)))
        (w_disk w)) (w_durable w) (S (w_tick w)))).
    { intros content e. apply wp_bind. unfold durable_update, wp at 1. apply wp_err.
      eapply Hgrow; [by right|apply Hsub|done]. }
    destruct (N.ltb_spec MAX_STORE_BYTES (lenN plaintext)) as [Hlt|_]; [apply Hfail|].
    destruct io as [|e renamed]; [|apply Hfail].
    split; [eapply Hgrow; [by left|apply Hsub|done]|]. split; [done|]. split; [|done]. cbn.
    apply lookup_partial_alter_eq.
Qed.

Lemma store_ok_subseteq s files files' : files ⊆ files' → store_ok s files → store_ok s files'.
Proof. intros Hsub [Hc Hb]. split; [done|]. intros Hd. by eapply backed_subseteq, Hb. Qed.

Lemma chunk_put_wp file_id index plaintext s w :
  store_ok s (dk_chunks (w_disk w)) →
  wp (chunk_put file_id index plaintext s)
    (λ r w', chunks_grow w w' ∧ du_failed (w_durable w') = du_failed (w_durable w)
       ∧ r.1 = chunk_id file_id index plaintext
       ∧ store_ok r.2 (dk_chunks (w_disk w')) ∧ mc_durable r.2 = mc_durable s
       ∧ mc_metadata r.2 = mc_metadata s ∧ mc_chunks s ⊆ mc_chunks r.2
       ∧ is_Some (mc_chunks r.2 !! chunk_id file_id index plaintext))
    (λ w', chunks_grow w w') w.
Proof.
  intros Hs. unfold chunk_put. unfold chunk_has.
  case_bool_decide as Hin; [apply wp_ret; by split_and!|].
  apply eq_None_not_Some in Hin.
  assert (Hnew : ∀ files, dk_chunks (w_disk w) ⊆ files →
    (mc_durable s = true → files !! chunk_id file_id index plaintext = Some plaintext
       ∧ lenN plaintext <= MAX_CHUNK_BYTES) →
    store_ok (mkMemoryChunkStore (<[chunk_id file_id index plaintext :=
      mkChunkRecord file_id index plaintext]> (mc_chunks s)) (mc_durable s) (mc_metadata s)) files).
  { intros files Hsub Hfile. destruct (store_ok_subseteq _ _ _ Hsub Hs) as [Hc Hb]. split.
    - intros id r. cbn [mc_chunks]. by intros [[<- <-]|[_ ?%Hc]]%lookup_insert_Some.
    - intros Hd id r. cbn [mc_chunks].
      intros [[<- <-]|[_ ?]]%lookup_insert_Some; [by apply Hfile|by apply Hb]. }
  apply wp_bind. destruct (mc_durable s) eqn:Hd.
  - eapply wp_mono; [apply write_chunk_wp| |done]. cbn beta. intros _ w' (Hg & Hf & Hfile & Hlen).
    apply wp_ret. split; [done|]. split; [done|]. split; [done|]. cbn [fst snd mc_durable mc_metadata mc_chunks].
    split; [apply Hnew; [apply Hg|done]|]. split_and!; [done|done|by apply insert_subseteq|].
    by rewrite lookup_insert_eq.
  - apply wp_ret, wp_ret. split; [done|]. split; [done|]. split; [done|].
    cbn [fst snd mc_durable mc_metadata mc_chunks].
    split; [by apply Hnew|]. split_and!; [done|done|by apply insert_subseteq|].
    by rewrite lookup_insert_eq.
Qed.

Lemma chunk_put_grows file_id index plaintext s w :
  chunks_grow w (chunk_put file_id index plaintext s w).2.
Proof.
  apply (proj1 (wp_state (chunk_put file_id index plaintext s) (chunks_grow w) w)).
  unfold chunk_put. apply wp_if; intros _; [done|]. apply wp_bind. destruct (mc_durable s); [|done].
  eapply wp_mono; [apply write_chunk_wp| |done]. intros _ w' [Hg _]. exact Hg.
Qed.

Lemma between_grow root a b w w' :
  chunks_grow w w' → between root a b (w_disk w) → between root a b (w_disk w').
Proof.
  intros (_ & Hp & Hj & Hsub & _) (old & new & Hr & Ho & Hn & Ha & Hb & Hba & Hbb).
  exists old, new. split; [|split_and!; try done; by eapply backed_subseteq].
  unfold recoverable in *. by rewrite Hj, Hp.
Qed.
End opening.

(** What may come after a snapshot: chunks put, and openings, each under its own oracle. *)
Inductive Later :=
  | LPut (oracle : Oracle) (file_id : FileId) (index : u64) (plaintext : bytes)
      (s : MemoryChunkStore)
  | LOpen (oracle : Oracle).

Definition later_step (root : FileId) (step : Later) (w : World) : World :=
  match step with
  | LPut oracle file_id index plaintext s =>
      (chunk_put (H4 := oracle) file_id index plaintext s w).2
  | LOpen oracle => (durable_open (H4 := oracle) root w).2
  end.

(** The directory opens as one of these two versions. *)
Definition one_of (root : FileId) (a b : Version) (d : Disk) : Prop :=
  ∃ v v', (v = a ∨ v = b) ∧ (v' = a ∨ v' = b) ∧ between root v v' d.

Lemma later_one_of root a b steps w :
  one_of root a b (w_disk w) → one_of root a b (w_disk (foldr (later_step root) w steps)).
Proof.
  intros Hw. induction steps as [|[oracle f i p s|oracle] steps IH]; [done| |]; cbn [foldr later_step].
  - destruct IH as (v & v' & Hv & Hv' & Hb). exists v, v'. split; [done|]. split; [done|].
    eapply between_grow; [apply (chunk_put_grows (H4 := oracle))|exact Hb].
  - destruct IH as (v & v' & Hv & Hv' & Hb).
    pose proof (durable_open_wp (H4 := oracle) root v v' _ Hb) as Hwp. unfold wp in Hwp.
    destruct (durable_open root _) as [[r|e] w'].
    + destruct Hwp as (u & Hu & _ & _ & Hbet). exists u, u. by destruct Hu as [-> | ->].
    + destruct Hwp as (u & u' & Hu & Hu' & Hbet). exists u, u'.
      split; [by destruct Hu as [-> | ->]|]. by split; [destruct Hu' as [-> | ->]|].
Qed.

Lemma durable_open_returns `{Oracle} root a b w :
  (∀ tick, oc_write tick = Written) → (∀ tick, oc_remove tick = Removed) →
  (∀ tick, oc_sweep tick = Swept) → between root a b (w_disk w) →
  is_ok (durable_open root w).1 = true.
Proof.
  intros Hws Hrs Hss (old & new & Hr & Ho & Hn & Ha & Hb & Hba & Hbb).
  assert (Hwp : wp (durable_open root) (λ _ _, True) (λ _, False) w).
  2: { unfold wp in Hwp. by destruct (durable_open root w) as [[r|e] w']. }
  pose proof (recover_returns Hws Hrs old new w Hr) as Hret.
  pose proof (recover_wp old new Ho (on_file_not_empty _ _ _ _ Ha) w Hr) as Hrec.
  apply wp_bind. unfold wp in Hrec. unfold wp at 1.
  destruct (recover_admission_transaction w) as [[[]|e] w1]; [clear Hret|discriminate Hret].
  destruct Hrec as ((_ & _ & Hchunks) & _ & Hp).
  assert (∃ v, on_file root v.1 v.2 (dk_replica (w_disk w1))
    ∧ backed (mc_chunks v.2) (dk_chunks (w_disk w1))) as (v & Hon & Hback).
  { rewrite Hchunks. change (dk_replica (w_disk w1)) with (pair_files (w_disk w1)).2.
    destruct Hp as [-> | ->]; eauto. }
  destruct (on_file_opens _ _ _ _ w1 Hon eq_refl Hback) as (Hopen & _).
  apply wp_bind. unfold wp. rewrite Hopen. apply wp_bind. unfold sweep_directory.
  apply wp_bind. unfold draw, wp at 1. rewrite Hss. done.
Qed.

(** C32: a durable snapshot is atomic.  Take a vault directory that opens as version [v] (its
    generation and chunk store) and persist new metadata, alone or together with the admission
    file, whatever operations fail.  Then after any further chunk writes and openings, themselves
    failing or not, an opening that returns finds either [v] or the new version, one generation
    later: the metadata persisted, and exactly the chunks its manifests and mailboxes retain, each
    with its content.  It is the new version if persisting succeeded, and an opening whose own
    operations succeed does return. *)
Theorem durable_snapshot_atomic (first : Oracle) (steps : list Later) (last : Oracle)
    root v (admission : option bytes) m s w :
  live root v w → store_ok s (dk_chunks (w_disk w)) → mc_durable s = true → metadata_ok m →
  not_empty admission →
  let '(r, w1) := match admission with
                  | None => persist_metadata (H4 := first) m s w
                  | Some content => persist_metadata_with_admission (H4 := first) m content s w
                  end in
  let w2 := foldr (later_step root) w1 steps in
  let '(opened, w3) := durable_open (H4 := last) root w2 in
  (∀ metadata s', opened = Ok (metadata, s') →
     metadata = mc_metadata s'
     ∧ (s' = v.2 ∧ du_generation (w_durable w3) = v.1
        ∨ s' = snapshot_of m s ∧ u64_N (du_generation (w_durable w3)) = u64_N v.1 + 1)
     ∧ (is_ok r = true → s' = snapshot_of m s))
  ∧ ((∀ tick, oc_write (Oracle := last) tick = Written) →
     (∀ tick, oc_remove (Oracle := last) tick = Removed) →
     (∀ tick, oc_sweep (Oracle := last) tick = Swept) → is_ok opened = true).
Proof.
  intros Hlive Hs Hdur Hm Hadm.
  assert (∃ write admission', writes_pair write admission' w ∧ not_empty admission'
    ∧ match admission with
      | None => persist_metadata (H4 := first) m s w
      | Some content => persist_metadata_with_admission (H4 := first) m content s w
      end = persist_snapshot (H4 := first) write m s w) as (write & adm & Hwrite & Hadm' & ->).
  { destruct (id Hlive) as [Hr Hg Hj Ha Hf Hb]. unfold persist_metadata, persist_metadata_with_admission.
    rewrite Hdur. destruct admission as [content|].
    - eexists _, _. split; [apply (write_both_pair (H4 := first) content); [done|done|]|done].
      by eapply on_file_not_empty.
    - eexists _, _. split; [by apply (write_replica_pair (H4 := first))|done]. }
  pose proof (persist_snapshot_wp (H4 := first) write adm root v m s w Hlive Hwrite Hadm' Hs Hdur Hm)
    as Hwp. unfold wp in Hwp.
  destruct (persist_snapshot write m s w) as [r w1]. cbv zeta.
  set (w2 := foldr _ w1 steps).
  set (newer := λ b : Version, ∃ g, u64_N g = u64_N v.1 + 1 ∧ b = (g, snapshot_of m s)).
  assert (∃ a b, (a = v ∧ is_ok r = false ∨ newer a) ∧ (b = v ∧ is_ok r = false ∨ newer b)
    ∧ one_of root a b (w_disk w2)) as (a & b & Ha & Hb & Hone).
  { destruct r as [s'|e].
    - destruct Hwp as (-> & g & Hg & Hl & _). apply live_between in Hl.
      assert (newer (g, snapshot_of m s)) by (by exists g).
      exists (g, snapshot_of m s), (g, snapshot_of m s). split; [by right|]. split; [by right|].
      apply later_one_of. exists (g, snapshot_of m s), (g, snapshot_of m s). auto.
    - destruct Hwp as (_ & [(_ & Hd & _)|(_ & g & Hg & Hb)]).
      + exists v, v. split; [by left|]. split; [by left|]. apply later_one_of. rewrite Hd.
        exists v, v. split_and!; [by left|by left|by apply live_between].
      + exists v, (g, snapshot_of m s). split; [by left|]. split; [by right; exists g|].
        apply later_one_of. exists v, (g, snapshot_of m s). auto. }
  destruct Hone as (u & u' & Hu & Hu' & Hbet).
  pose proof (durable_open_wp (H4 := last) root u u' _ Hbet) as Hopen.
  pose proof (λ ws rs ss, durable_open_returns root u u' w2 ws rs ss Hbet) as Hret.
  unfold wp in Hopen. destruct (durable_open root w2) as [opened w3]. split; [|exact Hret].
  intros metadata s' ->. destruct Hopen as (x & Hx & [= -> ->] & Hd3 & _). split; [done|].
  assert (Hcase : x = v ∧ is_ok r = false ∨ newer x).
  { destruct Hx as [-> | ->]; [destruct Hu as [-> | ->]|destruct Hu' as [-> | ->]]; done. }
  rewrite Hd3. cbn. destruct Hcase as [[-> Hr]|(g & Hg & ->)].
  - split; [by left|]. by rewrite Hr.
  - split; [by right|done].
Qed.
End snapshots.

(** ** Examples *)

Section sample.
#[local] Existing Instances sample_sha256 sample_mldsa sample_xwing sample_gcm sample_hkdf.

Definition sample_empty : World := bare_world (mkDisk None None None ∅).

(** A chunk put in a fresh directory, and metadata whose one manifest names it. *)
Definition sample_put : Result (ChunkId * MemoryChunkStore) * World :=
  chunk_put (H4 := sample_oracle) sample_id u64_zero [Byte.x2a] (from_records ∅) sample_empty.
Definition sample_chunk : ChunkId := chunk_id sample_id u64_zero [Byte.x2a].
Definition sample_chunks : MemoryChunkStore :=
  match sample_put.1 with Ok p => p.2 | Err _ => from_records ∅ end.
Definition sample_metadata : ReplicaMetadata :=
  mkReplicaMetadata sample_id (dirents (DirectoryTree_new sample_id)) {[ sample_id ]}
    {[ sample_id := mkManifest sample_id [sample_chunk] (u64! 1) sample_id (u64! 1) [] ]}
    [] (u64! 1) ∅ ∅ ∅ ∅ None ∅ ∅ ∅.

Lemma sample_live : live sample_id (u64_zero, from_records ∅) sample_put.2.
Proof.
  pose proof (chunk_put_grows (H4 := sample_oracle) sample_id u64_zero [Byte.x2a] (from_records ∅)
    sample_empty) as (_ & Hp & Hj & Hsub & Hg & Hr & _).
  change (chunk_put sample_id u64_zero [Byte.x2a] (from_records ∅) sample_empty).2
    with sample_put.2 in *.
  apply pair_equal_spec in Hp as [Ha Hrep]. split; cbn [fst snd]; [exact Hr|exact Hg|exact Hj| | |].
  - rewrite Ha. discriminate.
  - rewrite Hrep. left. done.
  - intros id r Hid. discriminate Hid.
Qed.

Lemma sample_store_ok : store_ok sample_chunks (dk_chunks (w_disk sample_put.2)).
Proof.
  pose proof (chunk_put_wp (H4 := sample_oracle) sample_id u64_zero [Byte.x2a] (from_records ∅)
    sample_empty) as Hwp.
  unfold wp in Hwp. change (chunk_put sample_id u64_zero [Byte.x2a] (from_records ∅) sample_empty)
    with sample_put in Hwp.
  unfold sample_chunks. assert (Hok : is_ok sample_put.1 = true) by (vm_compute; reflexivity).
  destruct sample_put as [[[id s]|e] w]; [|discriminate Hok].
  destruct Hwp as (_ & _ & _ & Hs & _); [|exact Hs]. split; [by intros id' r|by intros _ id' r].
Qed.

Lemma sample_metadata_ok : metadata_ok sample_metadata.
Proof.
  split; [|by intros adm]. exists (DirectoryTree_new sample_id).
  split; [apply tree_ok_new|done].
Qed.

Lemma have_reply_exact_witness :
  ∃ reply, HaveReply_new (mkHaveQuery sample_id [sample_id; sample_chunk])
    (have_bitset [sample_id; sample_chunk] sample_chunks) = Ok reply
  ∧ HaveReply_has reply 1 = true.
Proof.
  destruct (have_reply_exact (mkHaveQuery sample_id [sample_id; sample_chunk]) sample_chunks 1)
    as (reply & Hr & Hh).
  { cbn. unfold lenN, MAX_HAVE_CHUNK_IDS. cbn. lia. }
  exists reply. split; [exact Hr|]. rewrite Hh. vm_compute. reflexivity.
Defined.

Lemma durable_snapshot_atomic_witness :
  let w1 := (persist_metadata (H4 := sample_oracle) sample_metadata sample_chunks sample_put.2).2 in
  ∃ metadata s' w3,
    durable_open (H4 := sample_oracle) sample_id w1 = (Ok (metadata, s'), w3)
    ∧ s' = snapshot_of sample_metadata sample_chunks ∧ chunk_has sample_chunk s' = true.
Proof.
  intros w1.
  pose proof (durable_snapshot_atomic sample_oracle [] sample_oracle sample_id
    (u64_zero, from_records ∅) None sample_metadata sample_chunks sample_put.2
    sample_live sample_store_ok ltac:(vm_compute; reflexivity) sample_metadata_ok
    ltac:(discriminate)) as Hat.
  assert (Hok : is_ok (persist_metadata (H4 := sample_oracle) sample_metadata sample_chunks sample_put.2).1
    = true) by (vm_compute; reflexivity).
  subst w1. destruct (persist_metadata sample_metadata sample_chunks sample_put.2) as [r w1].
  cbn [fst snd foldr] in *.
  destruct (durable_open sample_id w1) as [opened w3]. destruct Hat as [Hfind Hret].
  specialize (Hret (λ _, eq_refl) (λ _, eq_refl) (λ _, eq_refl)).
  destruct opened as [[metadata s']|e]; [|discriminate Hret].
  destruct (Hfind metadata s' eq_refl) as (_ & _ & Hs). exists metadata, s', w3.
  split; [done|]. split; [by apply Hs|]. rewrite (Hs Hok). vm_compute. reflexivity.
Defined.
End sample.
