(* ===== verification/Pull.v ===== *)
(** * Sending, receiving and pulling chunks ([sync/pull.rs], [sync/locate.rs])

    A chunk body travels under the pair key of sender and receiver, with its file and index in the
    associated data.  A member that lacks chunks asks the holders a locator nominates and keeps
    what hashes to the ids of a trusted manifest that its own tree still links. *)
From S2P Require Export Durable.
From Stdlib Require Import Lia ZifyN ZifyNat.

Open Scope N_scope.

Section pull.
Context `{Sha256, MlDsa65, XWing, AesGcm, HkdfSha256}.

(** ** Frames under a pair key *)

Definition encrypt_at_send (session : PairSession) (file_id : FileId) (index : u64)
    (plaintext : bytes) : SM StoreInner ChunkBodyFrame :=
  do! local := ks_peer in
  do! n := next_outbound_seq (ps_key_handle session) ChunkBody in
  let header :=
    mkPacketHeader PROTOCOL_VERSION local (ps_peer_id session) (KeyStore.ps_epoch session) n in
  do! ciphertext := seal (ps_key_handle session) (nonce header ChunkBody)
                      (chunk_aad header file_id index) plaintext in
  sm_ret (mkChunkBodyFrame header file_id index ciphertext).

(** A packet with this plaintext, under the session's key. *)
Definition seal_packet (session : PairSession) (receiver : PeerId) (plaintext : Result bytes)
    : SM StoreInner ControlPacket :=
  do! local := ks_peer in
  do! n := next_outbound_seq (ps_key_handle session) Packet in
  let header := mkPacketHeader PROTOCOL_VERSION local receiver (KeyStore.ps_epoch session) n in
  do! plaintext := sm_lift plaintext in
  do! ciphertext := seal (ps_key_handle session) (nonce header Packet) (packet_aad header) plaintext in
  sm_ret (mkControlPacket header ciphertext).

Definition open_packet (session : PairSession) (header : PacketHeader) (ciphertext : bytes)
    : SM StoreInner bytes :=
  open (ps_key_handle session) (nonce header Packet) (packet_aad header) ciphertext.

(** [chunk_ids.get(index)] *)
Definition manifest_slot (t : TrustedManifest) (index : u64) : option ChunkId :=
  mf_chunk_ids (manifest t) !! N.to_nat (u64_N index).

Definition open_chunk (session : PairSession) (frame : ChunkBodyFrame) (trusted : TrustedManifest)
    : SM StoreInner bytes :=
  let header := cb_header frame in
  do! plaintext := open (ps_key_handle session) (nonce header ChunkBody)
                     (chunk_aad header (cb_file_id frame) (cb_index frame)) (cb_ciphertext frame) in
  check! bool_decide (cb_file_id frame = mf_file_id (manifest trusted)) else AuthenticationFailed in
  do! expected := sm_lift (ok_or (manifest_slot trusted (cb_index frame)) AuthenticationFailed) in
  check! bool_decide (chunk_id (cb_file_id frame) (cb_index frame) plaintext = expected)
    else AuthenticationFailed in
  sm_ret plaintext.

(** ** A member's world and its chunk store *)

Record Peer := mkPeer {
  pe_world : World;
  pe_chunks : MemoryChunkStore;
}.

Definition set_pe_world w p := mkPeer w (pe_chunks p).
Definition set_pe_chunks c p := mkPeer (pe_world p) c.

Definition pe_keys {A} (m : SM StoreInner A) : SM Peer A :=
  sm_zoom pe_world set_pe_world (keys m).

(** The store the lock guards; an assignment to it. *)
Definition pe_store : SM Peer MemoryChunkStore := λ p, (Ok (pe_chunks p), p).
Definition pe_assign (s : MemoryChunkStore) : SM Peer unit := λ p, (Ok tt, set_pe_chunks s p).

Record PullReport := mkPullReport {
  pl_chunks_written : N;
  pl_holders_tried : N;
  pl_missing : list ChunkId;
}.

Definition is_complete (report : PullReport) : bool := bool_decide (pl_missing report = []).

Definition missing_chunks (request : PullRequest) : SM Peer (list ChunkId) :=
  do! chunks := pe_store in
  sm_ret (filter (λ id, chunk_has id chunks = false) (pr_chunk_ids request)).

Definition begin_pull (request : PullRequest) (trusted : TrustedManifest) : SM Peer PullReport :=
  check! forallb (λ id, bool_decide (id ∈ mf_chunk_ids (manifest trusted))) (pr_chunk_ids request)
    else AuthenticationFailed in
  do! missing := missing_chunks request in
  sm_ret (mkPullReport 0 0 missing).

(** ** Receiving *)

(** The first loop of [accept]: every response is authenticated; new chunks are staged once. *)
Definition stage_response (trusted : TrustedManifest)
    (staged : list (FileId * u64 * bytes)) (body : ChunkBodyFrame)
    : SM Peer (list (FileId * u64 * bytes)) :=
  let sender := hdr_sender_id (cb_header body) in
  do! _ := pe_keys (require_live_traffic sender) in
  do! session := pe_keys (current_session sender) in
  do! plaintext := pe_keys (open_chunk session body trusted) in
  do! chunks := pe_store in
  let expected := chunk_id (cb_file_id body) (cb_index body) plaintext in
  if chunk_has expected chunks
     || existsb (λ p : FileId * u64 * bytes,
                   bool_decide (chunk_id p.1.1 p.1.2 p.2 = expected)) staged
  then sm_ret staged
  else sm_ret (staged ++ [(cb_file_id body, cb_index body, plaintext)]).

Section oracle.
Context `{Oracle}.

(** The second loop: what the current metadata still accepts is put in a copy of the store. *)
Definition put_staged (acc : MemoryChunkStore * N) (chunk : FileId * u64 * bytes)
    : SM Peer (MemoryChunkStore * N) :=
  let '(next, count) := acc in
  let '(file_id, index, plaintext) := chunk in
  let id := chunk_id file_id index plaintext in
  do! chunks := pe_store in
  if negb (accepts_chunk file_id index id chunks) then sm_ret (next, count)
  else if chunk_has id next then sm_ret (next, count)
  else
    do! (_, next) := sm_zoom pe_world set_pe_world (chunk_put file_id index plaintext next) in
    sm_ret (next, count + 1).

Definition accept_responses (responses : list ChunkBodyFrame) (trusted : TrustedManifest)
    : SM Peer N :=
  do! staged := sm_fold (stage_response trusted) responses [] in
  do! chunks := pe_store in
  do! (next, count) := sm_fold put_staged staged (chunks, 0) in
  if count =? 0 then sm_ret count
  else
    do! next := sm_zoom pe_world set_pe_world (persist_current next) in
    do! _ := pe_assign next in
    sm_ret count.

Definition receive_chunk (session : PairSession) (frame : ChunkBodyFrame)
    (trusted : TrustedManifest) : SM Peer bool :=
  do! plaintext := pe_keys (open_chunk session frame trusted) in
  do! store := pe_store in
  let expected := chunk_id (cb_file_id frame) (cb_index frame) plaintext in
  if negb (accepts_chunk (cb_file_id frame) (cb_index frame) expected store) then sm_ret false
  else if chunk_has expected store then sm_ret false
  else
    do! (_, next) := sm_zoom pe_world set_pe_world
                       (chunk_put (cb_file_id frame) (cb_index frame) plaintext store) in
    do! next := sm_zoom pe_world set_pe_world (persist_current next) in
    do! _ := pe_assign next in
    sm_ret true.

(** ** Serving *)

Definition serve (request : PullRequest) (requester : PeerId) : SM Peer (list ChunkBodyFrame) :=
  do! _ := pe_keys (require_live_traffic requester) in
  do! session := pe_keys (current_session requester) in
  do! chunks := pe_store in
  sm_map (λ r, pe_keys (encrypt_at_send session (chr_file_id r) (chr_index r) (chr_plaintext r)))
    (omap (λ id, get_record id chunks) (pr_chunk_ids request)).

Definition encrypt_request (holder : PeerId) (request : PullRequest) : SM Peer ControlPacket :=
  do! _ := pe_keys (require_live_traffic holder) in
  do! session := pe_keys (current_session holder) in
  pe_keys (seal_packet session holder (encode_pull_request request)).

Definition serve_packet (packet : ControlPacket) : SM Peer (list ChunkBodyFrame) :=
  let sender := hdr_sender_id (cp_header packet) in
  do! _ := pe_keys (require_live_traffic sender) in
  do! session := pe_keys (current_session sender) in
  do! plaintext := pe_keys (open_packet session (cp_header packet) (cp_ciphertext packet)) in
  do! request := sm_lift (decode_pull_request plaintext) in
  serve request sender.

(** ** Pulling from holders *)

Definition solicited (holder : PeerId) (trusted : TrustedManifest) (remaining : PullRequest)
    (body : ChunkBodyFrame) : bool :=
  bool_decide (hdr_sender_id (cb_header body) = holder)
  && bool_decide (cb_file_id body = mf_file_id (manifest trusted))
  && match manifest_slot trusted (cb_index body) with
     | Some id => bool_decide (id ∈ pr_chunk_ids remaining)
     | None => false
     end.

Definition accept_holder (holder : PeerId) (responses : list ChunkBodyFrame)
    (trusted : TrustedManifest) (remaining : PullRequest) (report : PullReport)
    : SM Peer PullReport :=
  check! (lenN responses <=? lenN (pr_chunk_ids remaining))
         && forallb (solicited holder trusted remaining) responses else AuthenticationFailed in
  do! written := accept_responses responses trusted in
  sm_ret (mkPullReport (pl_chunks_written report + written) (pl_holders_tried report)
            (pl_missing report)).

(** Whether an operation succeeds; what it changed stays. *)
Definition try {S A} (m : SM S A) : SM S (option A) := λ s,
  match m s with
  | (Ok x, s') => (Ok (Some x), s')
  | (Err _, s') => (Ok None, s')
  end.

Lemma wp_try {S A} (m : SM S A) (Q : option A → S → Prop) (E : S → Prop) s :
  wp m (λ x, Q (Some x)) (Q None) s → wp (try m) Q E s.
Proof. unfold wp, try. by destruct (m s) as [[x|e] s']. Qed.

(** [fetch] is the caller's exchange with a holder; it may also let the member's state change. *)
Section holders.
Variable fetch : PeerId → ControlPacket → SM Peer (list ChunkBodyFrame).

Fixpoint pull_loop (request : PullRequest) (trusted : TrustedManifest) (holders : list PeerId)
    (tried : gset PeerId) (report : PullReport) : SM Peer PullReport :=
  match holders with
  | [] => sm_ret report
  | holder :: holders =>
      if is_complete report then sm_ret report
      else if bool_decide (holder ∈ tried)
      then pull_loop request trusted holders tried report
      else
        let tried := {[holder]} ∪ tried in
        do! remaining := sm_lift (PullRequest_new (pl_missing report)) in
        do! packet := try (encrypt_request holder remaining) in
        match packet with
        | None => pull_loop request trusted holders tried report
        | Some packet =>
            let report := mkPullReport (pl_chunks_written report) (pl_holders_tried report + 1)
                            (pl_missing report) in
            do! responses := try (fetch holder packet) in
            do! report :=
              (match responses with
               | Some responses => accept_holder holder responses trusted remaining report
               | None => sm_ret report
               end) in
            do! missing := missing_chunks request in
            pull_loop request trusted holders tried
              (mkPullReport (pl_chunks_written report) (pl_holders_tried report) missing)
        end
  end.

Definition pull_from_holders (request : PullRequest) (trusted : TrustedManifest)
    (holders : list PeerId) : SM Peer PullReport :=
  do! report := begin_pull request trusted in
  pull_loop request trusted holders ∅ report.
End holders.
End oracle.

(** ** Locating holders *)

Record Locator := mkLocator {
  lc_members : gset PeerId;
  lc_host_id : PeerId;
}.

Definition Locator_new (members : gset PeerId) (host_id : PeerId) : SM StoreInner Locator :=
  do! local := ks_peer in
  check! bool_decide (local ∈ members) && bool_decide (host_id ∈ members)
    else InvalidInput "locator identities must be vault members" in
  sm_ret (mkLocator members host_id).

Definition session_is_live (l : Locator) (peer : PeerId) (s : StoreInner) : bool :=
  bool_decide (peer ∈ lc_members l)
  && match (ks_peer s).1 with Ok local => negb (bool_decide (local = peer)) | Err _ => false end
  && is_ok (current_session peer s).1 && is_ok (require_live_traffic peer s).1.

Definition live_member_candidates (l : Locator) (s : StoreInner) : list PeerId :=
  filter (λ peer, negb (bool_decide (peer = lc_host_id l)) && session_is_live l peer s = true)
    (sorted_elements (lc_members l)).

Definition has_any (query : HaveQuery) (reply : HaveReply) : bool :=
  existsb (HaveReply_has reply) (seq 0 (length (hq_chunk_ids query))).

(** [ask] is the caller's exchange with a member; the sessions are looked at again after it. *)
Definition useful_reply (l : Locator) (query : HaveQuery) (peer : PeerId) (reply : HaveReply)
    (after : StoreInner) : bool :=
  session_is_live l peer after && is_ok (HaveReply_validate reply query) && has_any query reply.

Definition holders (l : Locator) (query : HaveQuery)
    (ask : PeerId → HaveQuery → SM StoreInner HaveReply) : SM StoreInner (list PeerId) :=
  do! s := sm_get in
  if session_is_live l (lc_host_id l) s then sm_ret [lc_host_id l]
  else
    sm_fold (λ found peer,
      do! reply := try (ask peer query) in
      match reply with
      | None => sm_ret found
      | Some reply =>
          do! after := sm_get in
          sm_ret (if useful_reply l query peer reply after then found ++ [peer] else found)
      end) (live_member_candidates l s) [].

Definition answer_have (query : HaveQuery) (s : MemoryChunkStore) : Result HaveReply :=
  HaveReply_new query (have_bitset (hq_chunk_ids query) s).
End pull.
