(* ===== verification/PullClaims.v ===== *)
(** * What a pull delivers

    A chunk sent under a pair key opens at the other end to the plaintext its manifest names; a
    pull keeps only chunks of the trusted manifest that the member's tree still links, whatever
    the holders answer, and reports exactly what is still missing. *)
From S2P Require Import KeyStoreClaims.
From S2P Require Export Pull KeyStoreOps.
From Stdlib Require Import Lia ZifyN ZifyNat.

Open Scope N_scope.

Section claims.
Context `{Sha256, MlDsa65, XWing, AesGcm, HkdfSha256}.

(** ** One exchange *)

Lemma encrypt_at_send_Ok session file_id index plaintext s frame s' :
  encrypt_at_send session file_id index plaintext s = (Ok frame, s') →
  cb_file_id frame = file_id ∧ cb_index frame = index
  ∧ hdr_version (cb_header frame) = PROTOCOL_VERSION
  ∧ seal (ps_key_handle session) (nonce (cb_header frame) ChunkBody)
      (chunk_aad (cb_header frame) file_id index) plaintext s = (Ok (cb_ciphertext frame), s').
Proof.
  unfold encrypt_at_send. intros Hs. sm_destruct.
  match goal with Hq : ks_peer s = _ |- _ => apply query_Ok in Hq as (-> & _) end.
  match goal with Hn : next_outbound_seq _ _ s = _ |- _ => apply next_outbound_seq_Ok in Hn as [-> _] end.
  done.
Qed.

(** A chunk sealed for a peer by the holder's [encrypt_at_send] opens there, under the same
    pair key, to the chunk's plaintext, when the trusted manifest has the chunk's hash at that
    index and the peer's replay window has room for the frame's number. *)
Theorem chunk_transfer sa sb session_a session_b ka kb trusted file_id index plaintext frame sa' :
  encrypt_at_send session_a file_id index plaintext sa = (Ok frame, sa') →
  si_keys sa !! kh_slot (ps_key_handle session_a) = Some ka →
  si_keys sb !! kh_slot (ps_key_handle session_b) = Some kb →
  kh_store_id (ps_key_handle session_b) = si_instance_id sb → si_failed sb = false →
  ks_key kb = ks_key ka → ks_epoch kb = ks_epoch ka →
  ks_peer_id ka = local_id sb → ks_peer_id kb = local_id sa →
  check (window_of (mkReplayWindowKey (local_id sa) (ks_epoch kb) Inbound ChunkBody) kb)
    (hdr_seq (cb_header frame)) = Ok tt →
  mf_file_id (manifest trusted) = file_id →
  manifest_slot trusted index = Some (chunk_id file_id index plaintext) →
  (open_chunk session_b frame trusted sb).1 = Ok plaintext.
Proof.
  intros (Hf & Hi & Hv & Hs)%encrypt_at_send_Ok Hka Hkb Hid Hfail Hkey Hepoch Hpa Hpb Hwin Hfile Hslot.
  assert (Haad : decode_aad (chunk_aad (cb_header frame) file_id index)
    = Ok (cb_header frame, ChunkBody)).
  { exact (proj2 (decode_aad_ChunkBody _ _)
      (conj (ex_intro _ file_id (ex_intro _ index eq_refl)) Hv)). }
  pose proof (seal_opens sa sb (ps_key_handle session_a) (ps_key_handle session_b) ka kb
    (cb_header frame) ChunkBody _ plaintext _ sa' Hs Haad Hka Hkb Hid Hfail Hkey Hepoch Hpa Hpb Hwin)
    as Hopen.
  unfold open_chunk, sm_bind. rewrite Hf, Hi.
  destruct (open _ _ _ _ sb) as [[p|e] sb']; [|discriminate Hopen]. injection Hopen as ->.
  rewrite bool_decide_eq_true_2 by done. unfold sm_lift. rewrite Hslot. cbn.
  by rewrite bool_decide_eq_true_2.
Qed.

(** ** Accepting responses *)

(** The chunk is at this index of the trusted manifest and the store's metadata accepts it. *)
Definition wanted (trusted : TrustedManifest) (s : MemoryChunkStore) (id : ChunkId) : Prop :=
  ∃ index, manifest_slot trusted index = Some id
    ∧ accepts_chunk (mf_file_id (manifest trusted)) index id s = true.

Definition same_acceptance (s s' : MemoryChunkStore) : Prop :=
  ∀ file_id index id, accepts_chunk file_id index id s' = accepts_chunk file_id index id s.

(** What a step of a pull may do to the store. *)
Record grows_by (trusted : TrustedManifest) (s s' : MemoryChunkStore) : Prop := {
  gb_hashed : content_addressed (mc_chunks s) → content_addressed (mc_chunks s');
  gb_same : same_acceptance s s';
  gb_new : ∀ id, chunk_has id s' = true → chunk_has id s = true ∨ wanted trusted s id;
}.

Lemma grows_by_refl trusted s : grows_by trusted s s.
Proof. split; [done|done|auto]. Qed.

Lemma grows_by_trans trusted a b c : grows_by trusted a b → grows_by trusted b c → grows_by trusted a c.
Proof.
  intros [H1a H1s H1n] [H2a H2s H2n]. split; [by auto| |].
  - intros f i id. by rewrite H2s, H1s.
  - intros id [Hb|(i & Hi & Hacc)]%H2n; [by apply H1n|]. right. exists i. split; [done|].
    by rewrite <-H1s.
Qed.

Lemma chunk_has_subseteq (s s' : MemoryChunkStore) id :
  mc_chunks s ⊆ mc_chunks s' → chunk_has id s = true → chunk_has id s' = true.
Proof.
  unfold chunk_has. intros Hsub [r Hr]%bool_decide_eq_true. apply bool_decide_eq_true.
  exists r. by eapply lookup_weaken.
Qed.

(** Key store operations do not touch the chunk store. *)
Lemma pe_keys_wp {A} (m : SM StoreInner A) (Q : A → Peer → Prop) (E : Peer → Prop) p :
  (∀ x k, m (w_keys (pe_world p)) = (Ok x, k) → Q x (set_pe_world (set_w_keys k (pe_world p)) p)) →
  (∀ k, E (set_pe_world (set_w_keys k (pe_world p)) p)) →
  wp (pe_keys m) Q E p.
Proof.
  intros HQ HE. apply wp_zoom, wp_zoom. unfold wp. destruct (m (w_keys (pe_world p))) as [[x|e] k]; auto.
Qed.

Lemma open_chunk_Ok session frame trusted s plaintext s' :
  open_chunk session frame trusted s = (Ok plaintext, s') →
  cb_file_id frame = mf_file_id (manifest trusted)
  ∧ manifest_slot trusted (cb_index frame)
    = Some (chunk_id (cb_file_id frame) (cb_index frame) plaintext).
Proof.
  unfold open_chunk. intros Hs. sm_destruct.
  match goal with Hg : bool_decide (chunk_id _ _ _ = _) = true |- _ => apply bool_decide_eq_true in Hg end.
  match goal with Hg : bool_decide (cb_file_id _ = _) = true |- _ => apply bool_decide_eq_true in Hg end.
  split; [done|]. match goal with Ho : ok_or ?o _ = Ok _ |- _ => destruct o as [x'|]; [|done]; injection Ho as -> end.
  by subst.
Qed.

Definition from_manifest (trusted : TrustedManifest) (chunk : FileId * u64 * bytes) : Prop :=
  chunk.1.1 = mf_file_id (manifest trusted)
  ∧ manifest_slot trusted chunk.1.2 = Some (chunk_id chunk.1.1 chunk.1.2 chunk.2).

Lemma stage_response_wp trusted staged body p :
  Forall (from_manifest trusted) staged →
  wp (stage_response trusted staged body)
    (λ staged' p', Forall (from_manifest trusted) staged' ∧ pe_chunks p' = pe_chunks p)
    (λ p', pe_chunks p' = pe_chunks p) p.
Proof.
  intros Hst. unfold stage_response.
  apply wp_bind, pe_keys_wp; [intros _ k1 _|done]. apply wp_bind, pe_keys_wp; [intros session k2 _|done].
  apply wp_bind, pe_keys_wp; [intros plaintext k3 Ho|done]. apply open_chunk_Ok in Ho as [Hf Hs].
  apply wp_bind. unfold pe_store, wp at 1. apply wp_if; intros _; apply wp_ret; [done|].
  split; [|done]. apply Forall_app. split; [done|]. apply Forall_singleton. split; [done|exact Hs].
Qed.

Section oracle.
Context `{Oracle}.

Lemma put_staged_wp trusted (s0 : MemoryChunkStore) acc chunk p :
  from_manifest trusted chunk → pe_chunks p = s0 → grows_by trusted s0 acc.1 →
  wp (put_staged acc chunk)
    (λ acc' p', grows_by trusted s0 acc'.1 ∧ pe_chunks p' = s0) (λ p', pe_chunks p' = s0) p.
Proof.
  intros [Hf Hslot] Hp Hg. destruct acc as [next count], chunk as [[file_id index] plaintext].
  cbn in Hf, Hslot, Hg. unfold put_staged. apply wp_bind. unfold pe_store, wp at 1. rewrite Hp.
  apply wp_if; intros Hacc; [by apply wp_ret|]. apply negb_false_iff in Hacc.
  apply wp_if; intros Hhas; [by apply wp_ret|].
  apply wp_bind, wp_zoom.
  assert (Hgrow : grows_by trusted s0 (mkMemoryChunkStore
    (<[chunk_id file_id index plaintext := mkChunkRecord file_id index plaintext]> (mc_chunks next))
    (mc_durable next) (mc_metadata next))).
  { destruct Hg as [Hh Hs Hn]. split.
    - intros Hc id r. cbn [mc_chunks]. by intros [[<- <-]|[_ ?%(Hh Hc)]]%lookup_insert_Some.
    - exact Hs.
    - intros id [r Hr]%bool_decide_eq_true. cbn [mc_chunks] in Hr.
      apply lookup_insert_Some in Hr as [[<- _]|[_ Hr]].
      + right. exists index. by rewrite <-Hf.
      + apply Hn. apply bool_decide_eq_true. by exists r. }
  unfold chunk_put. rewrite Hhas. apply wp_bind.
  assert (Hend : ∀ w, wp (sm_ret (chunk_id file_id index plaintext, mkMemoryChunkStore
      (<[chunk_id file_id index plaintext := mkChunkRecord file_id index plaintext]> (mc_chunks next))
      (mc_durable next) (mc_metadata next)))
    (λ x s, wp (let '(_, next0) := x in sm_ret (next0, count + 1))
      (λ acc' p', grows_by trusted s0 acc'.1 ∧ pe_chunks p' = s0) (λ p', pe_chunks p' = s0)
      (set_pe_world s p)) (λ s, pe_chunks (set_pe_world s p) = s0) w).
  { intros w. apply wp_ret, wp_ret. done. }
  destruct (mc_durable next); [|apply Hend].
  eapply wp_mono; [apply write_chunk_wp|intros _ w' _; apply Hend|done].
Qed.

Lemma persist_metadata_shrinks m s w :
  wp (persist_metadata m s) (λ s' _, mc_chunks s' ⊆ mc_chunks s
    ∧ ∃ index, mc_metadata s' = Some (set_rm_chunk_index index m)) (λ _, True) w.
Proof.
  unfold persist_metadata. apply wp_if; intros _; [|apply wp_ret; split; [done|exists (rm_chunk_index m); by destruct m]].
  unfold durable_persist, persist_snapshot. apply wp_bind. unfold durable_get, wp at 1.
  apply wp_if; intros _; [|done]. apply wp_if; intros _; [done|]. apply wp_if; intros _; [|done].
  apply wp_if; intros _; [|done]. apply wp_bind, wp_lift; [intros g _|done].
  apply wp_bind, wp_lift; [intros l _|done]. apply wp_if; intros _; [|done].
  apply wp_bind, wp_catch. apply write_wp; [|intros w' _ _ e; done].
  intros w1 _ _ _. apply wp_bind. unfold durable_update, wp at 1.
  apply wp_bind, wp_catch, sweep_wp. intros w2 kept _ _ _ _.
  assert (filter (λ p, p.1 ∈ retain_ids m) (mc_chunks s) ⊆ mc_chunks s) as Hsub
    by apply map_filter_subseteq.
  split; [|intros _]; (apply wp_ret; split; [exact Hsub|by eexists]).
Qed.

Lemma persist_current_grows trusted s w :
  wp (persist_current s) (λ s' _, grows_by trusted s s') (λ _, True) w.
Proof.
  unfold persist_current. destruct (mc_metadata s) as [m|] eqn:Hm; [|apply wp_ret, grows_by_refl].
  eapply wp_mono; [apply persist_metadata_shrinks| |done]. intros s' _ [Hsub [index Hm']]. split.
  - intros Hc id r Hr. apply Hc. by eapply lookup_weaken.
  - intros f i id. unfold accepts_chunk. by rewrite Hm, Hm'.
  - intros id Hid. left. by eapply chunk_has_subseteq.
Qed.

Lemma accept_responses_wp responses trusted p :
  wp (accept_responses responses trusted)
    (λ _ p', grows_by trusted (pe_chunks p) (pe_chunks p'))
    (λ p', pe_chunks p' = pe_chunks p) p.
Proof.
  unfold accept_responses. apply wp_bind.
  eapply wp_mono.
  { apply (wp_fold _ (λ staged p', Forall (from_manifest trusted) staged ∧ pe_chunks p' = pe_chunks p)
      (λ p', pe_chunks p' = pe_chunks p)); [done|].
    intros staged body p1 _ [Hst Hp]. rewrite <-Hp. by apply stage_response_wp. }
  2: done.
  cbn beta. intros staged p1 [Hst Hp]. apply wp_bind. unfold pe_store, wp at 1. rewrite Hp.
  apply wp_bind. eapply wp_mono.
  { apply (wp_fold _ (λ acc p', grows_by trusted (pe_chunks p) acc.1 ∧ pe_chunks p' = pe_chunks p)
      (λ p', pe_chunks p' = pe_chunks p)); [split; [apply grows_by_refl|done]|].
    intros acc chunk p2 Hin [Hg Hp2]. apply put_staged_wp; [|done|done].
    rewrite Forall_forall in Hst. by apply Hst. }
  2: done.
  cbn beta. intros [next count] p2 [Hg Hp2]. cbn [fst] in Hg.
  apply wp_if; intros _; [apply wp_ret; rewrite Hp2; apply grows_by_refl|].
  apply wp_bind, wp_zoom. eapply wp_mono; [apply (persist_current_grows trusted)| |].
  - cbn beta. intros next' w Hg'. apply wp_bind. unfold pe_assign, wp at 1. apply wp_ret. cbn.
    by eapply grows_by_trans.
  - intros w _. done.
Qed.

(** Whatever a holder answers, accepting its responses keeps every chunk under its hash and
    adds only chunks that the trusted manifest names at their index and that the metadata at hand,
    the member's own tree included, still accepts; a response that fails changes no chunk. *)
Theorem accept_only_wanted responses trusted p :
  content_addressed (mc_chunks (pe_chunks p)) →
  let '(r, p') := accept_responses responses trusted p in
  content_addressed (mc_chunks (pe_chunks p'))
  ∧ (∀ id, chunk_has id (pe_chunks p') = true →
       chunk_has id (pe_chunks p) = true ∨ wanted trusted (pe_chunks p) id)
  ∧ (is_ok r = false → pe_chunks p' = pe_chunks p).
Proof.
  intros Hc. pose proof (accept_responses_wp responses trusted p) as Hwp. unfold wp in Hwp.
  destruct (accept_responses responses trusted p) as [[n|e] p'].
  - destruct Hwp as [Hh _ Hn]. split; [by apply Hh|]. done.
  - rewrite Hwp. auto.
Qed.

(** ** A whole pull *)

Definition missing_of (request : PullRequest) (s : MemoryChunkStore) : list ChunkId :=
  filter (λ id, chunk_has id s = false) (pr_chunk_ids request).

Section holders.
Variable fetch : PeerId → ControlPacket → SM Peer (list ChunkBodyFrame).
Hypothesis fetch_apart : ∀ holder packet q, pe_chunks (fetch holder packet q).2 = pe_chunks q.

Lemma fetch_wp holder packet (Q : option (list ChunkBodyFrame) → Peer → Prop) (E : Peer → Prop) p :
  (∀ r p', pe_chunks p' = pe_chunks p → Q r p') → wp (try (fetch holder packet)) Q E p.
Proof.
  intros HQ. apply wp_try. pose proof (fetch_apart holder packet p) as Hf. unfold wp.
  destruct (fetch holder packet p) as [[x|e] p']; by apply HQ.
Qed.

Definition pull_invariant (s0 : MemoryChunkStore) request trusted (tried : gset PeerId)
    (report : PullReport) (p : Peer) : Prop :=
  grows_by trusted s0 (pe_chunks p)
  ∧ pl_missing report = missing_of request (pe_chunks p)
  ∧ pl_holders_tried report <= N.of_nat (size tried).

Lemma encrypt_request_wp holder request (Q : option ControlPacket → Peer → Prop) (E : Peer → Prop) p :
  (∀ r p', pe_chunks p' = pe_chunks p → Q r p') → wp (try (encrypt_request holder request)) Q E p.
Proof.
  intros HQ. apply wp_try. unfold encrypt_request.
  apply wp_bind, pe_keys_wp; [intros _ k1 _|intros k; by apply HQ].
  apply wp_bind, pe_keys_wp; [intros session k2 _|intros k; by apply HQ].
  apply pe_keys_wp; [intros packet k3 _|intros k]; by apply HQ.
Qed.

Lemma pull_loop_wp s0 request trusted holders tried report p :
  pull_invariant s0 request trusted tried report p →
  wp (pull_loop fetch request trusted holders tried report)
    (λ report' p', ∃ tried', tried' ⊆ tried ∪ list_to_set holders
       ∧ pull_invariant s0 request trusted tried' report' p') (λ _, True) p.
Proof.
  revert tried report p. induction holders as [|holder holders IH]; intros tried report p Hi;
    cbn [pull_loop].
  { apply wp_ret. exists tried. split; [set_solver|done]. }
  assert (Hweak : ∀ report' p' tried', tried' ⊆ {[holder]} ∪ tried →
    pull_invariant s0 request trusted tried' report' p' →
    wp (pull_loop fetch request trusted holders tried' report')
      (λ report' p', ∃ tried', tried' ⊆ tried ∪ list_to_set (holder :: holders)
         ∧ pull_invariant s0 request trusted tried' report' p') (λ _, True) p').
  { intros report' p' tried' Hsub Hi'. eapply wp_mono; [by apply IH| |done]. cbn beta.
    intros report2 p2 (tried2 & Hsub2 & Hi2). exists tried2. split; [set_solver|done]. }
  apply wp_if; intros _; [apply wp_ret; exists tried; split; [set_solver|done]|].
  apply wp_if; intros Hin; [apply Hweak; [set_solver|done]|].
  apply bool_decide_eq_false in Hin. destruct Hi as (Hg & Hm & Ht).
  assert (Hsize : size ({[holder]} ∪ tried) = S (size tried)) by (rewrite size_union, size_singleton; set_solver).
  apply wp_bind, wp_lift; [intros remaining Hrem|done].
  apply wp_bind, encrypt_request_wp. intros [packet|] p1 Hp1.
  2: { apply Hweak; [done|]. split_and!; [by rewrite Hp1|by rewrite Hp1|rewrite Hsize; lia]. }
  cbv zeta. apply wp_bind, fetch_wp. intros responses p2 Hp2.
  assert (Hend : ∀ written p3, grows_by trusted s0 (pe_chunks p3) →
    wp (do! missing := missing_chunks request in
        pull_loop fetch request trusted holders ({[holder]} ∪ tried)
          (mkPullReport written (pl_holders_tried report + 1) missing))
      (λ report' p', ∃ tried', tried' ⊆ tried ∪ list_to_set (holder :: holders)
         ∧ pull_invariant s0 request trusted tried' report' p') (λ _, True) p3).
  { intros written p3 Hg3. apply wp_bind. unfold missing_chunks. apply wp_bind.
    unfold pe_store, wp at 1. apply wp_ret, Hweak; [done|].
    split_and!; [done|done|]. cbn [pl_holders_tried]. rewrite Hsize. lia. }
  apply wp_bind. destruct responses as [responses|].
  - unfold accept_holder. apply wp_if; intros _; [|done]. apply wp_bind.
    eapply wp_mono; [apply accept_responses_wp| |done]. cbn beta. intros written p3 Hg3.
    apply wp_ret. cbn [pl_holders_tried]. apply Hend.
    eapply grows_by_trans; [exact Hg|]. by rewrite Hp2, Hp1 in Hg3.
  - apply wp_ret. cbn [pl_holders_tried]. apply Hend. by rewrite Hp2, Hp1.
Qed.

(** A pull that returns asked no holder twice, kept every chunk under its hash, added only
    chunks that the trusted manifest names and the member's metadata accepts, and reports as
    missing exactly the requested chunks the member still lacks: a complete report means it has
    them all. *)
Theorem pull_report_exact request trusted holders p report p' :
  content_addressed (mc_chunks (pe_chunks p)) →
  pull_from_holders fetch request trusted holders p = (Ok report, p') →
  content_addressed (mc_chunks (pe_chunks p'))
  ∧ (∀ id, id ∈ pl_missing report ↔ id ∈ pr_chunk_ids request ∧ chunk_has id (pe_chunks p') = false)
  ∧ (∀ id, chunk_has id (pe_chunks p') = true →
       chunk_has id (pe_chunks p) = true ∨ wanted trusted (pe_chunks p) id)
  ∧ (∀ id, id ∈ pr_chunk_ids request → id ∈ mf_chunk_ids (manifest trusted))
  ∧ pl_holders_tried report <= N.of_nat (size (list_to_set holders : gset PeerId)).
Proof.
  intros Hc Hpull. refine (wp_Ok _ (λ report p', _) (λ _, True) p report p' _ Hpull). clear Hpull report p'.
  unfold pull_from_holders, begin_pull. apply wp_bind. apply wp_if; intros Hsub; [|done].
  unfold missing_chunks. apply wp_bind, wp_bind. unfold pe_store, wp at 1. apply wp_ret, wp_ret.
  eapply wp_mono; [apply (pull_loop_wp (pe_chunks p)); split_and!; [apply grows_by_refl|done|done]| |done].
  cbn beta. intros report p' (tried & Htried & [Hh _ Hn] & Hm & Ht). split; [by apply Hh|].
  split; [|split; [exact Hn|split]].
  - intros id. rewrite Hm. unfold missing_of. rewrite list_elem_of_filter. tauto.
  - intros id Hid. rewrite forallb_forall in Hsub.
    by apply (bool_decide_eq_true_1 _ (Hsub id (proj1 (list_elem_of_In _ _) Hid))).
  - assert ((size tried ≤ size (list_to_set holders : gset PeerId))%nat); [|lia].
    apply subseteq_size. set_solver.
Qed.
End holders.
End oracle.
End claims.

(** ** Examples

    The first member of [KeyStoreClaims] sends a chunk to the second, which pulls it. *)
Section sample.
#[local] Existing Instances sample_sha256 sample_mldsa sample_xwing sample_gcm sample_hkdf.

Definition sample_pull_session (peer : PeerId) : PairSession :=
  mkPairSession peer (u64! 1) (sample_handle u64_zero).
Definition sample_trusted : TrustedManifest :=
  mkTrustedManifest (mkManifest Transaction.sample_id [sample_chunk] (u64! 1) sample_a (u64! 1) []).
Definition sample_sent : Result ChunkBodyFrame * StoreInner :=
  encrypt_at_send (sample_pull_session sample_b) Transaction.sample_id u64_zero [Byte.x2a] sample_created.2.
Definition sample_frame : ChunkBodyFrame :=
  match sample_sent.1 with
  | Ok frame => frame
  | Err _ => mkChunkBodyFrame (sample_header u64_zero u64_zero) Transaction.sample_id u64_zero []
  end.

(** What a chunk frame needs to travel through the handles at slot 0. *)
Definition sample_path (sa sb : StoreInner) (header : PacketHeader) : bool :=
  match si_keys sa !! u64_zero, si_keys sb !! u64_zero with
  | Some ka, Some kb =>
      bool_decide (ks_key kb = ks_key ka) && bool_decide (ks_epoch kb = ks_epoch ka)
      && bool_decide (ks_peer_id ka = local_id sb) && bool_decide (ks_peer_id kb = local_id sa)
      && bool_decide (check (window_of (mkReplayWindowKey (local_id sa) (ks_epoch kb) Inbound ChunkBody) kb)
                        (hdr_seq header) = Ok tt)
      && bool_decide (array_N 32 77 = si_instance_id sb) && negb (si_failed sb)
  | _, _ => false
  end.

Lemma chunk_transfer_witness :
  (open_chunk (sample_pull_session sample_a) sample_frame sample_trusted sample_received.2).1
  = Ok [Byte.x2a].
Proof.
  assert (Hs : is_ok sample_sent.1 = true) by (vm_compute; reflexivity).
  assert (Hl : sample_path sample_created.2 sample_received.2 (cb_header sample_frame) = true)
    by (vm_compute; reflexivity).
  unfold sample_frame in *. destruct sample_sent as [[frame|e] sa'] eqn:Hsent; [|discriminate Hs].
  cbn [fst] in *. unfold sample_path in Hl.
  destruct (si_keys sample_created.2 !! u64_zero) as [ka|] eqn:Hka; [|discriminate Hl].
  destruct (si_keys sample_received.2 !! u64_zero) as [kb|] eqn:Hkb; [|discriminate Hl].
  repeat (apply andb_true_iff in Hl as [Hl ?Hb]).
  apply bool_decide_eq_true in Hl, Hb1, Hb2, Hb3, Hb4, Hb0. apply negb_true_iff in Hb.
  exact (chunk_transfer _ _ (sample_pull_session sample_b) (sample_pull_session sample_a) ka kb
    sample_trusted Transaction.sample_id u64_zero [Byte.x2a] frame sa'
    Hsent Hka Hkb Hb0 Hb Hl Hb4 Hb3 Hb2 Hb1 eq_refl eq_refl).
Defined.

Definition sample_request : PullRequest := mkPullRequest [sample_chunk].
Definition sample_puller : Peer :=
  mkPeer (mkWorld sample_received.2 (mkDisk None None None ∅)
            (mkDurableInner u64_zero (array_N 32 8) None false false) 0)
    (set_metadata (mkReplicaMetadata (array_N 32 8)
       (match link (DirectoryTree_new (array_N 32 8)) (array_N 32 8) (Text [Byte.x61] I)
                 Transaction.sample_id false with Ok t => dirents t | Err _ => [] end) {[ sample_a; sample_b ]}
       {[ Transaction.sample_id := manifest sample_trusted ]} [] (u64! 1) ∅ ∅ ∅ ∅ None ∅ ∅ ∅)
       (from_records ∅)).
Definition sample_fetch (holder : PeerId) (packet : ControlPacket) : SM Peer (list ChunkBodyFrame) :=
  sm_ret [sample_frame].

Lemma pull_report_exact_witness :
  match pull_from_holders (H4 := sample_oracle) sample_fetch sample_request sample_trusted
          [sample_a] sample_puller with
  | (Ok report, p') => pl_missing report = [] ∧ chunk_has sample_chunk (pe_chunks p') = true
  | (Err _, _) => False
  end.
Proof.
  assert (Hok : match pull_from_holders (H4 := sample_oracle) sample_fetch sample_request sample_trusted
                  [sample_a] sample_puller with
    | (Ok report, _) => is_complete report | (Err _, _) => false end = true) by (vm_compute; reflexivity).
  destruct (pull_from_holders _ _ _ _ _) as [[report|e] p'] eqn:Hp; [|discriminate Hok].
  apply bool_decide_eq_true in Hok. split; [exact Hok|].
  destruct (pull_report_exact (H4 := sample_oracle) sample_fetch (λ _ _ _, eq_refl) sample_request
    sample_trusted [sample_a] sample_puller report p') as (_ & Hm & _).
  { by intros id r. }
  { exact Hp. }
  apply not_false_iff_true. intros Hf. apply (not_elem_of_nil sample_chunk). rewrite <-Hok.
  apply Hm. split; [by left|exact Hf].
Defined.
End sample.
