(* ===== verification/HostState.v ===== *)
(** * The host's state and its pure parts ([sync/host.rs], [sync/host/filesystem.rs],
      [sync/host/persistence.rs])

    What a host keeps for its vault, the effect of an instruction on the directory tree, the
    synthetic history a joining member is bootstrapped with, and the snapshot from which every
    instruction that some member has not acknowledged can be recovered. *)
From S2P Require Export Pull.
From Stdlib Require Import Lia ZifyN ZifyNat.

Open Scope N_scope.

Definition MAX_BOOTSTRAP_FRAMES : N := 100000.
Definition MAX_BOOTSTRAP_BYTES : N := 64 * 1024 * 1024.
Definition BOOTSTRAP_FRAME_OVERHEAD : N := 256.
Definition RECENT_OPS : N := 2048.

(** ** Data *)

Record Queued := mkQueued {
  qd_envelope : MailboxEnvelope;
  qd_content : QueueContent;
}.

Record OnlineControl := mkOnlineControl {
  oc_packet : ControlPacket;
  oc_record : ControlRecord;
  oc_queued_at : u64;
}.

Record HostState := mkHostState {
  st_expected_root : FileId;
  st_tree : DirectoryTree;
  st_acked_through : gmap PeerId u64;
  st_host_id : PeerId;
  st_members : gset PeerId;
  st_denied : gset PeerId;
  st_historical_members : gset PeerId;
  st_identity_documents : gmap PeerId IdentityDocument;
  st_bootstrap_through : gmap PeerId u64;
  st_chunks : MemoryChunkStore;
  st_manifests : gmap FileId TrustedManifest;
  st_log : list ControlRecord;
  st_next_control : u64;
  st_mailboxes : gmap PeerId (list Queued);
  st_online : gmap PeerId (list OnlineControl);
  st_gate_owner : u64;
  st_admission : option VaultMetadata;
}.

Definition set_st_expected_root v s := mkHostState v (st_tree s) (st_acked_through s) (st_host_id s) (st_members s) (st_denied s) (st_historical_members s) (st_identity_documents s) (st_bootstrap_through s) (st_chunks s) (st_manifests s) (st_log s) (st_next_control s) (st_mailboxes s) (st_online s) (st_gate_owner s) (st_admission s).
Definition set_st_tree v s := mkHostState (st_expected_root s) v (st_acked_through s) (st_host_id s) (st_members s) (st_denied s) (st_historical_members s) (st_identity_documents s) (st_bootstrap_through s) (st_chunks s) (st_manifests s) (st_log s) (st_next_control s) (st_mailboxes s) (st_online s) (st_gate_owner s) (st_admission s).
Definition set_st_acked_through v s := mkHostState (st_expected_root s) (st_tree s) v (st_host_id s) (st_members s) (st_denied s) (st_historical_members s) (st_identity_documents s) (st_bootstrap_through s) (st_chunks s) (st_manifests s) (st_log s) (st_next_control s) (st_mailboxes s) (st_online s) (st_gate_owner s) (st_admission s).
Definition set_st_host_id v s := mkHostState (st_expected_root s) (st_tree s) (st_acked_through s) v (st_members s) (st_denied s) (st_historical_members s) (st_identity_documents s) (st_bootstrap_through s) (st_chunks s) (st_manifests s) (st_log s) (st_next_control s) (st_mailboxes s) (st_online s) (st_gate_owner s) (st_admission s).
Definition set_st_members v s := mkHostState (st_expected_root s) (st_tree s) (st_acked_through s) (st_host_id s) v (st_denied s) (st_historical_members s) (st_identity_documents s) (st_bootstrap_through s) (st_chunks s) (st_manifests s) (st_log s) (st_next_control s) (st_mailboxes s) (st_online s) (st_gate_owner s) (st_admission s).
Definition set_st_denied v s := mkHostState (st_expected_root s) (st_tree s) (st_acked_through s) (st_host_id s) (st_members s) v (st_historical_members s) (st_identity_documents s) (st_bootstrap_through s) (st_chunks s) (st_manifests s) (st_log s) (st_next_control s) (st_mailboxes s) (st_online s) (st_gate_owner s) (st_admission s).
Definition set_st_historical_members v s := mkHostState (st_expected_root s) (st_tree s) (st_acked_through s) (st_host_id s) (st_members s) (st_denied s) v (st_identity_documents s) (st_bootstrap_through s) (st_chunks s) (st_manifests s) (st_log s) (st_next_control s) (st_mailboxes s) (st_online s) (st_gate_owner s) (st_admission s).
Definition set_st_identity_documents v s := mkHostState (st_expected_root s) (st_tree s) (st_acked_through s) (st_host_id s) (st_members s) (st_denied s) (st_historical_members s) v (st_bootstrap_through s) (st_chunks s) (st_manifests s) (st_log s) (st_next_control s) (st_mailboxes s) (st_online s) (st_gate_owner s) (st_admission s).
Definition set_st_bootstrap_through v s := mkHostState (st_expected_root s) (st_tree s) (st_acked_through s) (st_host_id s) (st_members s) (st_denied s) (st_historical_members s) (st_identity_documents s) v (st_chunks s) (st_manifests s) (st_log s) (st_next_control s) (st_mailboxes s) (st_online s) (st_gate_owner s) (st_admission s).
Definition set_st_chunks v s := mkHostState (st_expected_root s) (st_tree s) (st_acked_through s) (st_host_id s) (st_members s) (st_denied s) (st_historical_members s) (st_identity_documents s) (st_bootstrap_through s) v (st_manifests s) (st_log s) (st_next_control s) (st_mailboxes s) (st_online s) (st_gate_owner s) (st_admission s).
Definition set_st_manifests v s := mkHostState (st_expected_root s) (st_tree s) (st_acked_through s) (st_host_id s) (st_members s) (st_denied s) (st_historical_members s) (st_identity_documents s) (st_bootstrap_through s) (st_chunks s) v (st_log s) (st_next_control s) (st_mailboxes s) (st_online s) (st_gate_owner s) (st_admission s).
Definition set_st_log v s := mkHostState (st_expected_root s) (st_tree s) (st_acked_through s) (st_host_id s) (st_members s) (st_denied s) (st_historical_members s) (st_identity_documents s) (st_bootstrap_through s) (st_chunks s) (st_manifests s) v (st_next_control s) (st_mailboxes s) (st_online s) (st_gate_owner s) (st_admission s).
Definition set_st_next_control v s := mkHostState (st_expected_root s) (st_tree s) (st_acked_through s) (st_host_id s) (st_members s) (st_denied s) (st_historical_members s) (st_identity_documents s) (st_bootstrap_through s) (st_chunks s) (st_manifests s) (st_log s) v (st_mailboxes s) (st_online s) (st_gate_owner s) (st_admission s).
Definition set_st_mailboxes v s := mkHostState (st_expected_root s) (st_tree s) (st_acked_through s) (st_host_id s) (st_members s) (st_denied s) (st_historical_members s) (st_identity_documents s) (st_bootstrap_through s) (st_chunks s) (st_manifests s) (st_log s) (st_next_control s) v (st_online s) (st_gate_owner s) (st_admission s).
Definition set_st_online v s := mkHostState (st_expected_root s) (st_tree s) (st_acked_through s) (st_host_id s) (st_members s) (st_denied s) (st_historical_members s) (st_identity_documents s) (st_bootstrap_through s) (st_chunks s) (st_manifests s) (st_log s) (st_next_control s) (st_mailboxes s) v (st_gate_owner s) (st_admission s).
Definition set_st_gate_owner v s := mkHostState (st_expected_root s) (st_tree s) (st_acked_through s) (st_host_id s) (st_members s) (st_denied s) (st_historical_members s) (st_identity_documents s) (st_bootstrap_through s) (st_chunks s) (st_manifests s) (st_log s) (st_next_control s) (st_mailboxes s) (st_online s) v (st_admission s).
Definition set_st_admission v s := mkHostState (st_expected_root s) (st_tree s) (st_acked_through s) (st_host_id s) (st_members s) (st_denied s) (st_historical_members s) (st_identity_documents s) (st_bootstrap_through s) (st_chunks s) (st_manifests s) (st_log s) (st_next_control s) (st_mailboxes s) (st_online s) (st_gate_owner s) v.

(** [FileId([0; 32])] *)
Definition zero_root : FileId := array_fill 32 Byte.x00.

(** ** The tree *)

Definition validate_link_kind (manifests : gmap FileId TrustedManifest) (update : ControlUpdate)
    : Result unit :=
  match update with
  | Link _ _ child true =>
      if bool_decide (is_Some (manifests !! child))
      then Err (InvalidInput "file manifest cannot become a directory") else Ok tt
  | _ => Ok tt
  end.

(** The tree after an update, and the file whose content goes. *)
Definition apply_tree_update (tree : DirectoryTree) (update : ControlUpdate)
    : Result (DirectoryTree * option FileId) :=
  match update with
  | NewManifest manifest =>
      if is_dir tree (mf_file_id manifest)
      then Err (InvalidInput "cannot save a directory as a file") else Ok (tree, None)
  | Kick _ => Ok (tree, None)
  | Add _ => Ok (tree, None)
  | Clear file_id => Ok (tree, Some file_id)
  | Remove file_id =>
      let? next := remove_id tree file_id in Ok (next, Some file_id)
  | Link parent name child is_directory =>
      let? next := link tree parent name child is_directory in Ok (next, None)
  | Unlink parent name =>
      let? (next, child) := unlink tree parent name in Ok (next, Some child)
  | Rename src_parent src_name dst_parent dst_name =>
      let? next := rename tree src_parent src_name dst_parent dst_name in Ok (next, None)
  end.

(** ** Bootstrapping *)

(** One pass over the entries: those under a directory already listed are listed. *)
Fixpoint link_pass (l : list Dirent) (directories : gset FileId)
    : gset FileId * list ControlUpdate * list Dirent :=
  match l with
  | [] => (directories, [], [])
  | entry :: l =>
      if bool_decide (de_parent entry ∈ directories) then
        let '(dirs, updates, deferred) :=
          link_pass l (if de_is_dir entry then {[de_child entry]} ∪ directories else directories) in
        (dirs, Link (de_parent entry) (de_name entry) (de_child entry) (de_is_dir entry) :: updates,
         deferred)
      else
        let '(dirs, updates, deferred) := link_pass l directories in
        (dirs, updates, entry :: deferred)
  end.

(** [while !remaining.is_empty()]; every pass but the last lists an entry. *)
Fixpoint link_loop (fuel : nat) (remaining : list Dirent) (directories : gset FileId)
    : option (Result (list ControlUpdate)) :=
  match remaining, fuel with
  | [], _ => Some (Ok [])
  | _, O => None
  | _, S fuel =>
      let '(dirs, updates, deferred) := link_pass remaining directories in
      if (length deferred =? length remaining)%nat
      then Some (Err (State "replica tree is not rooted"))
      else match link_loop fuel deferred dirs with
           | Some (Ok rest) => Some (Ok (updates ++ rest))
           | r => r
           end
  end.

Definition link_updates (root : FileId) (entries : list Dirent) : Result (list ControlUpdate) :=
  let remaining := filter (λ e, text_bytes (de_name e) ≠ []) entries in
  default out_of_fuel (link_loop (length remaining) remaining {[root]}).

(** [updates] numbered from [first]. *)
Fixpoint number_records (first : N) (updates : list ControlUpdate) : Result (list ControlRecord) :=
  match updates with
  | [] => Ok []
  | update :: updates =>
      let? id := ok_or (u64_of_N first) (State "bootstrap instruction id overflow") in
      let? records := number_records (first + 1) updates in
      Ok (mkControlRecord id update :: records)
  end.

Definition bootstrap_updates (s : HostState) (through : u64) : Result (list ControlUpdate) :=
  let manifests := (λ t, NewManifest (manifest t)) <$> map_values (st_manifests s) in
  let? links := link_updates (st_expected_root s) (dirents (st_tree s)) in
  let updates := manifests ++ links in
  Ok (if bool_decide (updates = []) && negb (u64_N through =? 0) then [Add zero_root] else updates).

Definition bootstrap_records (s : HostState) (through : u64) : Result (list ControlRecord) :=
  let? updates := bootstrap_updates s through in
  let? first := ok_or (u64_checked_sub through (lenN updates) ≫= λ id, u64_checked_add id 1)
                  (State "bootstrap state exceeds instruction history") in
  number_records (u64_N first) updates.

(** ** Packets and envelopes *)

Section host_data.
Context `{Sha256, MlDsa65, XWing, AesGcm, HkdfSha256}.

Definition seal_control (session : PairSession) (record : ControlRecord)
    : SM StoreInner ControlPacket :=
  seal_packet session (ps_peer_id session) (encode_control_record record).

Definition control_envelope (packet : ControlPacket) (queued_at : u64) : Result MailboxEnvelope :=
  let header := cp_header packet in
  let? content := encode_mailbox_frame (FControl (cp_ciphertext packet)) in
  Ok (mkMailboxEnvelope (hdr_receiver_id header) (hdr_sender_id header) (hdr_epoch header)
        (hdr_seq header) queued_at content).

Definition chunk_envelope (frame : ChunkBodyFrame) (queued_at : u64) : Result MailboxEnvelope :=
  let header := cb_header frame in
  let? content :=
    encode_mailbox_frame (FChunkBody (cb_file_id frame) (cb_index frame) (cb_ciphertext frame)) in
  Ok (mkMailboxEnvelope (hdr_receiver_id header) (hdr_sender_id header) (hdr_epoch header)
        (hdr_seq header) queued_at content).

(** The chunks of a committed manifest, each at its index, together of the stated size. *)
Fixpoint validate_chunks (chunks : MemoryChunkStore) (file_id : FileId) (index : N)
    (ids : list ChunkId) (size : u64) : Result u64 :=
  match ids with
  | [] => Ok size
  | id :: ids =>
      let? i := ok_or (u64_of_N index) AuthenticationFailed in
      let? record := ok_or (get_record id chunks) (State "committed chunk missing on H") in
      if negb (bool_decide (chr_file_id record = file_id)) || negb (bool_decide (chr_index record = i))
         || negb (bool_decide (chunk_id file_id i (chr_plaintext record) = id))
      then Err AuthenticationFailed
      else
        let? size := ok_or (u64_checked_add size (lenN (chr_plaintext record))) AuthenticationFailed in
        validate_chunks chunks file_id (index + 1) ids size
  end.

Definition validate_replica (chunks : MemoryChunkStore) (trusted : TrustedManifest) : Result unit :=
  let m := manifest trusted in
  let? size := validate_chunks chunks (mf_file_id m) 0 (mf_chunk_ids m) u64_zero in
  if bool_decide (size = mf_size m) then Ok tt else Err AuthenticationFailed.
End host_data.

(** ** The snapshot *)

Definition content_record (c : QueueContent) : option ControlRecord :=
  match c with QControl r => Some r | QChunk _ _ _ => None end.

Definition queued_records (queue : list QueueContent) : list ControlRecord :=
  omap content_record queue.

Definition is_chunk (c : QueueContent) : Prop := content_record c = None.

#[export] Instance is_chunk_dec c : Decision (is_chunk c).
Proof. unfold is_chunk. apply _. Defined.

(** [sort_by_key(|record| record.id)] *)
Definition record_le (a b : ControlRecord) : Prop := u64_N (cr_id a) <= u64_N (cr_id b).

#[export] Instance record_le_dec a b : Decision (record_le a b).
Proof. unfold record_le. apply _. Defined.

Definition sort_records (l : list ControlRecord) : list ControlRecord := merge_sort record_le l.

(** What the peer has applied or its bootstrap covers. *)
Definition covered_through (s : HostState) (peer : PeerId) : u64 :=
  u64_max (ack_of (st_acked_through s) peer) (ack_of (st_bootstrap_through s) peer).

(** The records of the log that neither the peer nor its queue has. *)
Definition missing_records (s : HostState) (peer : PeerId) (queue : list QueueContent)
    : list ControlRecord :=
  filter (λ r, (u64_N (covered_through s peer) < u64_N (cr_id r))%N
               ∧ cr_id r ∉ (cr_id <$> queued_records queue)) (st_log s).

Definition recovered_queue (s : HostState) (peer : PeerId) (queue : list QueueContent)
    : list QueueContent :=
  let missing := missing_records s peer queue in
  if bool_decide (missing = []) then queue
  else (QControl <$> sort_records (queued_records queue ++ missing)) ++ filter is_chunk queue.

Definition queue_contents (mailboxes : gmap PeerId (list Queued))
    : gmap PeerId (list QueueContent) := (λ queue : list Queued, qd_content <$> queue) <$> mailboxes.

Definition recovered_mailboxes (s : HostState) : gmap PeerId (list QueueContent) :=
  filter (λ p, p.2 ≠ [])
    (foldl (λ mailboxes peer,
              if bool_decide (peer = st_host_id s) then mailboxes
              else <[peer := recovered_queue s peer (default [] (mailboxes !! peer))]> mailboxes)
       (queue_contents (st_mailboxes s)) (sorted_elements (st_members s))).

(** [HostState::metadata] *)
Definition host_metadata (s : HostState) : ReplicaMetadata :=
  mkReplicaMetadata (st_expected_root s) (dirents (st_tree s)) (st_members s)
    (manifest <$> st_manifests s) (st_log s) (st_next_control s) (recovered_mailboxes s)
    (st_acked_through s) ∅ (st_denied s) (st_admission s) (st_historical_members s)
    (st_identity_documents s) (st_bootstrap_through s).
