(* ===== verification/Host.v ===== *)
(** * The host service ([sync/host.rs], [sync/host/membership.rs], [sync/host/persistence.rs])

    The commit hub: it orders the members' updates into numbered instructions, seals each one for
    every member, live or into a mailbox, and publishes the new state only after its snapshot is
    durable.  A method works on the [HostService]; what a failed method leaves changed is in the
    model as it is in the code. *)
From S2P Require Export HostState.
From Stdlib Require Import Lia ZifyN ZifyNat.

Open Scope N_scope.

Record HostService := mkHostService {
  hs_world : World;
  hs_state : HostState;
  (** When each peer's presence expires. *)
  hs_presence : gmap PeerId N;
  hs_challenges : gmap PeerId FlushChallenge;
  hs_running : bool;
  hs_defer_persistence : bool;
  (** Whether the admission file is attached; its path is fixed. *)
  hs_admission_path : bool;
  hs_disconnects : list PeerId;
  hs_recent_ops : list (u64 * PeerId * u64);
  hs_last_seen : gmap PeerId u64;
}.

Definition set_hs_world v s := mkHostService v (hs_state s) (hs_presence s) (hs_challenges s) (hs_running s) (hs_defer_persistence s) (hs_admission_path s) (hs_disconnects s) (hs_recent_ops s) (hs_last_seen s).
Definition set_hs_state v s := mkHostService (hs_world s) v (hs_presence s) (hs_challenges s) (hs_running s) (hs_defer_persistence s) (hs_admission_path s) (hs_disconnects s) (hs_recent_ops s) (hs_last_seen s).
Definition set_hs_presence v s := mkHostService (hs_world s) (hs_state s) v (hs_challenges s) (hs_running s) (hs_defer_persistence s) (hs_admission_path s) (hs_disconnects s) (hs_recent_ops s) (hs_last_seen s).
Definition set_hs_challenges v s := mkHostService (hs_world s) (hs_state s) (hs_presence s) v (hs_running s) (hs_defer_persistence s) (hs_admission_path s) (hs_disconnects s) (hs_recent_ops s) (hs_last_seen s).
Definition set_hs_running v s := mkHostService (hs_world s) (hs_state s) (hs_presence s) (hs_challenges s) v (hs_defer_persistence s) (hs_admission_path s) (hs_disconnects s) (hs_recent_ops s) (hs_last_seen s).
Definition set_hs_defer_persistence v s := mkHostService (hs_world s) (hs_state s) (hs_presence s) (hs_challenges s) (hs_running s) v (hs_admission_path s) (hs_disconnects s) (hs_recent_ops s) (hs_last_seen s).
Definition set_hs_admission_path v s := mkHostService (hs_world s) (hs_state s) (hs_presence s) (hs_challenges s) (hs_running s) (hs_defer_persistence s) v (hs_disconnects s) (hs_recent_ops s) (hs_last_seen s).
Definition set_hs_disconnects v s := mkHostService (hs_world s) (hs_state s) (hs_presence s) (hs_challenges s) (hs_running s) (hs_defer_persistence s) (hs_admission_path s) v (hs_recent_ops s) (hs_last_seen s).
Definition set_hs_recent_ops v s := mkHostService (hs_world s) (hs_state s) (hs_presence s) (hs_challenges s) (hs_running s) (hs_defer_persistence s) (hs_admission_path s) (hs_disconnects s) v (hs_last_seen s).
Definition set_hs_last_seen v s := mkHostService (hs_world s) (hs_state s) (hs_presence s) (hs_challenges s) (hs_running s) (hs_defer_persistence s) (hs_admission_path s) (hs_disconnects s) (hs_recent_ops s) v.

Section host.
Context `{Sha256, MlDsa65, XWing, AesGcm, HkdfSha256, Oracle}.

(** ** Running parts of the service *)

Definition on_world {A} (m : SM World A) : SM HostService A := sm_zoom hs_world set_hs_world m.
Definition on_keys {A} (m : SM StoreInner A) : SM HostService A := on_world (keys m).
Definition update (f : HostService → HostService) : SM HostService unit := λ h, (Ok tt, f h).
Definition update_state (f : HostState → HostState) : SM HostService unit :=
  update (λ h, set_hs_state (f (hs_state h)) h).

Definition require_running : SM HostService unit :=
  do! h := sm_get in
  check! hs_running h else State "host is not running" in sm_ret tt.

Definition require_member (peer : PeerId) : SM HostService unit :=
  do! h := sm_get in
  check! bool_decide (peer ∈ st_members (hs_state h)) else AuthenticationFailed in sm_ret tt.

(** [mailboxes.get(&peer).is_none_or(VecDeque::is_empty)] *)
Definition mailbox_empty (s : HostState) (peer : PeerId) : bool :=
  bool_decide (default [] (st_mailboxes s !! peer) = []).

(** ** Publishing *)

(** A known peer's document; an unknown one is skipped. *)
Definition find_document (peer : PeerId) : SM StoreInner (option IdentityDocument) :=
  do! local := ks_peer in
  if bool_decide (peer = local) then do! document := ks_identity in sm_ret (Some document)
  else λ s,
    match load_verified_peer peer s with
    | (Ok document, s) => (Ok (Some document), s)
    | (Err KeyUnavailable, s) => (Ok None, s)
    | (Err e, s) => (Err e, s)
    end.

Definition archive_document (archive : gmap PeerId IdentityDocument) (peer : PeerId)
    : SM StoreInner (gmap PeerId IdentityDocument) :=
  if bool_decide (is_Some (archive !! peer)) then sm_ret archive
  else
    do! found := find_document peer in
    match found with
    | None => sm_ret archive
    | Some document =>
        do! _ := sm_lift (verify_identity document) in
        sm_ret (<[peer := document]> archive)
    end.

Definition archive_documents (members : gset PeerId) (archive : gmap PeerId IdentityDocument)
    : SM StoreInner (gmap PeerId IdentityDocument) :=
  sm_fold archive_document (sorted_elements members) archive.

Definition record_writer (r : ControlRecord) : option PeerId :=
  match cr_update r with NewManifest m => Some (mf_writer_id m) | _ => None end.

Definition require_writer_documents (manifests : gmap FileId TrustedManifest)
    (log : list ControlRecord) (documents : gmap PeerId IdentityDocument) : Result unit :=
  if forallb (λ writer, bool_decide (is_Some (documents !! writer)))
       (((λ t, mf_writer_id (manifest t)) <$> map_values manifests) ++ omap record_writer log)
  then Ok tt else Err KeyUnavailable.

Definition archive_host (staged : HostState) : SM StoreInner HostState :=
  let historical := st_historical_members staged ∪ st_members staged in
  do! documents := archive_documents historical (st_identity_documents staged) in
  do! _ := sm_lift (require_writer_documents (st_manifests staged) (st_log staged) documents) in
  sm_ret (set_st_historical_members historical (set_st_identity_documents documents staged)).

(** The stored admission lists the members and the denied of the state. *)
Definition sync_admission (staged : HostState) : HostState :=
  set_st_admission
    ((λ a, mkVaultMetadata (vm_vault_id a) (vm_join_code a) (vm_issued_at a)
             (sorted_elements (st_members staged)) (st_denied staged)) <$> st_admission staged)
    staged.

Definition ack_floor (s : HostState) : u64 :=
  default u64_zero (min_ack (st_members s) (st_acked_through s)).

Definition truncate_acked (s : HostState) : HostState :=
  set_st_log (log_after (ack_floor s) (st_log s)) s.

Definition publish_state (staged : HostState) : SM HostService unit :=
  do! staged := on_keys (archive_host staged) in
  let staged := truncate_acked (sync_admission staged) in
  let metadata := host_metadata staged in
  do! h := sm_get in
  do! next :=
    (if hs_defer_persistence h then sm_ret (set_metadata metadata (st_chunks staged))
     else match (if hs_admission_path h then rm_admission metadata else None) with
          | Some admission =>
              do! content := sm_lift (encode_vault_metadata admission) in
              on_world (persist_metadata_with_admission metadata content (st_chunks staged))
          | None => on_world (persist_metadata metadata (st_chunks staged))
          end) in
  update_state (λ _, set_st_chunks next staged).

(** [stage_state]: a copy, its chunk store included. *)
Definition stage_state : SM HostService HostState :=
  do! h := sm_get in sm_ret (hs_state h).

(** ** Presence *)

Definition heartbeat (peer : PeerId) (ttl : N) : SM HostService unit :=
  do! _ := require_running in
  do! _ := require_member peer in
  do! now := on_world (draw oc_instant) in
  do! expires := sm_lift (ok_or (oc_instant_add now ttl) (InvalidInput "presence TTL overflow")) in
  do! _ := update (λ h, set_hs_presence (<[peer := expires]> (hs_presence h)) h) in
  do! seen := on_world unix_millis in
  update (λ h, set_hs_last_seen (<[peer := seen]> (hs_last_seen h)) h).

(** The time left, if any. *)
Definition presence (peer : PeerId) : SM HostService (option N) :=
  do! _ := require_running in
  do! _ := require_member peer in
  do! h := sm_get in
  match hs_presence h !! peer with
  | None => sm_ret None
  | Some expires =>
      do! now := on_world (draw oc_instant) in
      sm_ret (if now <? expires then Some (expires - now) else None)
  end.

Definition last_seen (h : HostService) (peer : PeerId) : option u64 := hs_last_seen h !! peer.

Definition queued_ops (h : HostService) (peer : PeerId) : N :=
  lenN (default [] (st_mailboxes (hs_state h) !! peer)).

Definition recent_ops (h : HostService) (since : u64) : list (u64 * PeerId * u64) :=
  filter (λ p, (u64_N since < u64_N p.1.1)%N) (hs_recent_ops h).

Definition u64_saturating_add (a b : u64) : u64 :=
  default (u64! 18446744073709551615) (u64_of_N (u64_N a + u64_N b)).

Definition used_bytes (h : HostService) : u64 :=
  foldl (λ total t, u64_saturating_add total (mf_size (manifest t))) u64_zero
    (filter (λ t, is_linked_file (st_tree (hs_state h)) (mf_file_id (manifest t)) = true)
       (map_values (st_manifests (hs_state h)))).

Definition note_recent_op (sender : PeerId) (id_before : u64) : SM HostService unit :=
  do! h := sm_get in
  if (u64_N (st_next_control (hs_state h)) <=? u64_N id_before)
     || match last (hs_recent_ops h) with
        | Some (id, _, _) => bool_decide (id = id_before)
        | None => false
        end
  then sm_ret tt
  else
    do! seen := on_world unix_millis in
    update (λ h,
      let ops := if RECENT_OPS <=? lenN (hs_recent_ops h) then tail (hs_recent_ops h)
                 else hs_recent_ops h in
      set_hs_recent_ops (ops ++ [(id_before, sender, seen)]) h).

(** ** Mailboxes under the current keys *)

Definition set_envelope (envelope : MailboxEnvelope) (q : Queued) : Queued :=
  mkQueued envelope (qd_content q).

(** The envelope of an entry, sealed again under this session. *)
Definition reseal (session : PairSession) (chunks : MemoryChunkStore) (entry : Queued)
    : SM StoreInner MailboxEnvelope :=
  let time := env_queued_at (qd_envelope entry) in
  match qd_content entry with
  | QControl record =>
      do! packet := seal_control session record in
      sm_lift (control_envelope packet time)
  | QChunk file_id index id =>
      do! plaintext := sm_lift (ok_or (chunk_get id chunks) (State "queued plaintext missing")) in
      do! frame := encrypt_at_send session file_id index plaintext in
      sm_lift (chunk_envelope frame time)
  end.

Definition stale (session : PairSession) (entry : Queued) : bool :=
  negb (bool_decide (env_epoch (qd_envelope entry) = KeyStore.ps_epoch session)).

Definition is_body (entry : Queued) : bool := bool_decide (is_chunk (qd_content entry)).

(** The [i]th entry of a mailbox, in place. *)
Definition refresh_entry (peer : PeerId) (session : PairSession) (i : nat)
    : SM HostService unit :=
  do! h := sm_get in
  match default [] (st_mailboxes (hs_state h) !! peer) !! i with
  | None => sm_ret tt
  | Some entry =>
      if negb (stale session entry) then sm_ret tt
      else
        do! envelope := on_keys (reseal session (st_chunks (hs_state h)) entry) in
        update_state (λ s, set_st_mailboxes
          (alter (alter (set_envelope envelope) i) peer (st_mailboxes s)) s)
  end.

Definition refresh_mailbox (peer : PeerId) : SM HostService unit :=
  do! h := sm_get in
  let queue := default [] (st_mailboxes (hs_state h) !! peer) in
  if bool_decide (queue = []) then sm_ret tt
  else
    do! _ := on_keys (block_live_traffic peer (st_gate_owner (hs_state h))) in
    do! session := on_keys (current_session peer) in
    let stale_chunks := existsb (λ e, stale session e && is_body e) queue in
    let new_chunks := existsb (λ e, negb (stale session e) && is_body e) queue in
    do! _ :=
      (if stale_chunks && negb new_chunks then
         do! n := on_keys (next_outbound_seq (ps_key_handle session) ChunkBody) in
         check! u64_N n =? 1 else State "new epoch was used before mailbox re-seal" in
         sm_ret tt
       else sm_ret tt) in
    sm_each (refresh_entry peer session) (seq 0 (length queue)).

Definition refresh_mailboxes : SM HostService unit :=
  do! _ := require_running in
  do! h := sm_get in
  sm_each refresh_mailbox (sorted_entries (st_mailboxes (hs_state h))).*1.

Definition mailbox (recipient : PeerId) : SM HostService (list MailboxEnvelope) :=
  do! _ := require_member recipient in
  do! _ := refresh_mailboxes in
  do! h := sm_get in
  sm_ret (qd_envelope <$> default [] (st_mailboxes (hs_state h) !! recipient)).

(** A pending control as mail. *)
Definition requeue (update : OnlineControl) : Result Queued :=
  let? envelope := control_envelope (oc_packet update) (oc_queued_at update) in
  Ok (mkQueued envelope (QControl (oc_record update))).

(** ** Committing *)

(** The variables of [commit_verified_with_code] that its preparation changes. *)
Record Prep := mkPrep {
  pc_host : HostService;
  pc_queues : gmap PeerId (list Queued);
  pc_online : gmap PeerId (list OnlineControl);
  pc_blocked : list PeerId;
}.

Definition set_pc_host v p := mkPrep v (pc_queues p) (pc_online p) (pc_blocked p).
Definition set_pc_queues v p := mkPrep (pc_host p) v (pc_online p) (pc_blocked p).
Definition set_pc_online v p := mkPrep (pc_host p) (pc_queues p) v (pc_blocked p).
Definition set_pc_blocked v p := mkPrep (pc_host p) (pc_queues p) (pc_online p) v.

Definition in_host {A} (m : SM HostService A) : SM Prep A := sm_zoom pc_host set_pc_host m.
Definition prep_update (f : Prep → Prep) : SM Prep unit := λ p, (Ok tt, f p).

(** A pending control, sealed again when the epoch has moved. *)
Definition reseal_online (session : PairSession) (old : OnlineControl)
    : SM StoreInner OnlineControl :=
  if bool_decide (hdr_epoch (cp_header (oc_packet old)) = KeyStore.ps_epoch session) then sm_ret old
  else
    do! packet := seal_control session (oc_record old) in
    sm_ret (mkOnlineControl packet (oc_record old) (oc_queued_at old)).

Definition chunk_of (file_id : FileId) (entry : Queued) : Prop :=
  match qd_content entry with QChunk f _ _ => f = file_id | QControl _ => False end.
Definition chunk_at (file_id : FileId) (index : u64) (entry : Queued) : Prop :=
  match qd_content entry with QChunk f i _ => f = file_id ∧ i = index | QControl _ => False end.
(** A body the manifest has replaced, unless the recipient still waits for its bootstrap. *)
Definition obsolete (current : Manifest) (bootstrap_pending : bool) (entry : Queued) : Prop :=
  match qd_content entry with
  | QChunk f i id =>
      f = mf_file_id current ∧ bootstrap_pending = false
      ∧ mf_chunk_ids current !! N.to_nat (u64_N i) ≠ Some id
  | QControl _ => False
  end.

#[export] Instance chunk_of_dec file_id entry : Decision (chunk_of file_id entry).
Proof. unfold chunk_of. destruct (qd_content entry); apply _. Defined.
#[export] Instance chunk_at_dec file_id index entry : Decision (chunk_at file_id index entry).
Proof. unfold chunk_at. destruct (qd_content entry); apply _. Defined.
#[export] Instance obsolete_dec current pending entry : Decision (obsolete current pending entry).
Proof. unfold obsolete. destruct (qd_content entry); apply _. Defined.

(** The body at one index of the manifest, when it is new. *)
Definition queue_body (session : PairSession) (queued_at : u64) (chunks : MemoryChunkStore)
    (current : Manifest) (prior : option TrustedManifest) (queue : list Queued)
    (slot : nat * ChunkId) : SM StoreInner (list Queued) :=
  let '(index, id) := slot in
  let changed := match prior with
                 | None => true
                 | Some old => negb (bool_decide (mf_chunk_ids (manifest old) !! index = Some id))
                 end in
  if negb changed then sm_ret queue
  else
    do! i := sm_lift (ok_or (u64_of_N (N.of_nat index)) (InvalidInput "chunk index overflow")) in
    do! plaintext := sm_lift (ok_or (chunk_get id chunks) (State "committed plaintext missing")) in
    do! frame := encrypt_at_send session (mf_file_id current) i plaintext in
    let queue := filter (λ e, ¬ chunk_at (mf_file_id current) i e) queue in
    do! envelope := sm_lift (chunk_envelope frame queued_at) in
    sm_ret (queue ++ [mkQueued envelope (QChunk (mf_file_id current) i id)]).

Definition queue_bodies (session : PairSession) (queued_at : u64) (s : HostState) (peer : PeerId)
    (current : Manifest) (queue : list Queued) : SM StoreInner (list Queued) :=
  let bootstrap_pending := bool_decide (is_Some (st_bootstrap_through s !! peer)) in
  sm_fold (queue_body session queued_at (st_chunks s) current
             (st_manifests s !! mf_file_id current))
    (imap pair (mf_chunk_ids current))
    (filter (λ e, ¬ obsolete current bootstrap_pending e) queue).

(** One recipient of a commit. *)
Definition prepare_recipient (record : ControlRecord) (queued_at : u64)
    (removed_file : option FileId) (trusted : option TrustedManifest) (peer : PeerId)
    : SM Prep unit :=
  do! present := in_host (presence peer) in
  do! traffic := in_host (try (on_keys (require_live_traffic peer))) in
  let live := match present, traffic with Some _, Some _ => true | _, _ => false end in
  do! p := sm_get in
  let s := hs_state (pc_host p) in
  do! _ :=
    (if live then sm_ret tt
     else
       do! _ := in_host (on_keys (block_live_traffic peer (st_gate_owner s))) in
       prep_update (λ p, set_pc_blocked (pc_blocked p ++ [peer]) p)) in
  do! session := in_host (on_keys (current_session peer)) in
  do! pending :=
    (match pc_online p !! peer with
     | Some pending =>
         do! pending := in_host (on_keys (sm_map (reseal_online session) pending)) in
         sm_ret (Some pending)
     | None => sm_ret None
     end) in
  do! packet := in_host (on_keys (seal_control session record)) in
  if live then
    prep_update (λ p, set_pc_online
      (<[peer := default [] pending ++ [mkOnlineControl packet record queued_at]]> (pc_online p)) p)
  else
    do! moved := sm_map (λ old, sm_lift (requeue old)) (default [] pending) in
    do! envelope := sm_lift (control_envelope packet queued_at) in
    let queue := default [] (pc_queues p !! peer) ++ moved ++ [mkQueued envelope (QControl record)] in
    let queue := match removed_file with
                 | Some file_id => filter (λ e, ¬ chunk_of file_id e) queue
                 | None => queue
                 end in
    do! queue :=
      (match cr_update record with
       | NewManifest _ =>
           do! current := sm_lift (ok_or trusted (State "missing verified commit")) in
           in_host (on_keys (queue_bodies session queued_at s peer (manifest current) queue))
       | _ => sm_ret queue
       end) in
    prep_update (λ p, set_pc_online (delete peer (pc_online p))
                        (set_pc_queues (<[peer := queue]> (pc_queues p)) p)).

(** The gates a failed commit closed, unless there is mail behind them. *)
Definition reopen_gates (blocked : list PeerId) : SM HostService unit :=
  sm_each (λ peer,
    do! h := sm_get in
    if mailbox_empty (hs_state h) peer
    then on_keys (unblock_live_traffic peer (st_gate_owner (hs_state h)))
    else sm_ret tt) blocked.

(** What a kick does to the staged state. *)
Definition apply_kick (target : PeerId) (rotated : option JoinCode) (staged : HostState)
    : SM HostService HostState :=
  let staged := set_st_members (st_members staged ∖ {[target]}) staged in
  let staged := set_st_acked_through (delete target (st_acked_through staged)) staged in
  let staged := set_st_bootstrap_through (delete target (st_bootstrap_through staged)) staged in
  let staged := set_st_mailboxes (delete target (st_mailboxes staged)) staged in
  let staged := set_st_online (delete target (st_online staged)) staged in
  let staged := set_st_denied ({[target]} ∪ st_denied staged) staged in
  match st_admission staged with
  | None => sm_ret staged
  | Some admission =>
      do! code := (match rotated with
                   | Some code => sm_ret code
                   | None => on_world (random_bytes 16)
                   end) in
      do! now := on_world unix_time in
      do! after := sm_lift (ok_or (u64_checked_add (vm_issued_at admission) 1)
                              (State "ad timestamp exhausted")) in
      do! issued_at := sm_lift (ok_or (u64_checked_add (u64_max now after) 1)
                                  (State "ad timestamp exhausted")) in
      sm_ret (set_st_admission
                (Some (mkVaultMetadata (vm_vault_id admission) code issued_at
                         (vm_members admission) (vm_denied admission))) staged)
  end.

(** The second half of a commit: the staged state, then its publication. *)
Definition apply_commit (record : ControlRecord) (trusted : option TrustedManifest)
    (rotated : option JoinCode) (tree : DirectoryTree) (removed_file : option FileId) (next : u64)
    (queues : gmap PeerId (list Queued)) (online : gmap PeerId (list OnlineControl))
    : SM HostService unit :=
  do! staged := stage_state in
  let staged := set_st_tree tree staged in
  do! staged :=
    (match cr_update record with
     | NewManifest m =>
         do! trusted := sm_lift (ok_or trusted (State "missing trusted commit")) in
         sm_ret (set_st_manifests (<[mf_file_id m := trusted]> (st_manifests staged)) staged)
     | _ => sm_ret staged
     end) in
  let staged := match removed_file with
                | Some file_id =>
                    set_st_manifests (delete file_id (st_manifests staged))
                      (set_st_chunks (chunks_remove_file file_id (st_chunks staged)) staged)
                | None => staged
                end in
  let staged := set_st_online online (set_st_mailboxes queues staged) in
  do! staged := (match cr_update record with
                 | Kick target => apply_kick target rotated staged
                 | _ => sm_ret staged
                 end) in
  let staged := set_st_acked_through
                  (<[st_host_id staged := cr_id record]> (st_acked_through staged)) staged in
  let staged := set_st_log (st_log staged ++ [record]) staged in
  publish_state (set_st_next_control next staged).

(** The members an update is sealed for: all but the host and a kicked one. *)
Definition commit_recipients (s : HostState) (update : ControlUpdate) : list PeerId :=
  filter (λ id, id ≠ st_host_id s ∧ update ≠ Kick id) (sorted_elements (st_members s)).

Definition commit_verified_with_code (update : ControlUpdate) (trusted : option TrustedManifest)
    (rotated : option JoinCode) : SM HostService unit :=
  do! h := sm_get in
  do! _ := sm_lift (validate_link_kind (st_manifests (hs_state h)) update) in
  do! (tree, removed_file) := sm_lift (apply_tree_update (st_tree (hs_state h)) update) in
  do! _ := refresh_mailboxes in
  do! h := sm_get in
  let s := hs_state h in
  do! next := sm_lift (ok_or (u64_checked_add (st_next_control s) 1)
                         (State "instruction ids exhausted")) in
  let record := mkControlRecord (st_next_control s) update in
  do! queued_at := on_world unix_time in
  let recipients := commit_recipients s update in
  do! _ := sm_each (λ peer, do! _ := on_keys (current_session peer) in sm_ret tt) recipients in
  λ h,
    let '(prepared, p) :=
      sm_each (prepare_recipient record queued_at removed_file trusted) recipients
        (mkPrep h (st_mailboxes s) (st_online s) []) in
    match prepared with
    | Err error =>
        (do! _ := reopen_gates (pc_blocked p) in sm_err error) (pc_host p)
    | Ok _ =>
        sm_catch (apply_commit record trusted rotated tree removed_file next (pc_queues p)
                    (pc_online p))
          (λ error, do! _ := reopen_gates (pc_blocked p) in sm_err error) (pc_host p)
    end.

Definition commit_verified (update : ControlUpdate) (trusted : option TrustedManifest)
    : SM HostService unit := commit_verified_with_code update trusted None.

Definition commit (m : Manifest) : SM HostService unit :=
  do! _ := require_running in
  do! h := sm_get in
  do! trusted := on_keys (TrustedManifest_verify m (st_members (hs_state h))) in
  do! h := sm_get in
  do! _ := sm_lift (validate_replica (st_chunks (hs_state h)) trusted) in
  if bool_decide (st_manifests (hs_state h) !! mf_file_id (manifest trusted) = Some trusted)
  then sm_ret tt
  else commit_verified (NewManifest (manifest trusted)) (Some trusted).
End host.
