(* ===== verification/HostOps.v ===== *)
(** * The host's methods ([sync/host.rs], [sync/host/filesystem.rs], [sync/host/membership.rs])

    Opening and resuming a vault, admitting and kicking members, handing out instructions and
    flushing mailboxes, and the file operations that go through the commit path of [Host]. *)
From S2P Require Export Host.
From Stdlib Require Import Lia ZifyN ZifyNat.

Open Scope N_scope.

(** ** Path names *)

(** [resolve_parent], the name as a string. *)
Definition parent_of (tree : DirectoryTree) (path : text) : Result (FileId * text) :=
  let? (parent, name) := resolve_parent tree path in
  let? name := ok_or (text_of_bytes name) (InvalidInput "path component is not UTF-8") in
  Ok (parent, name).

Lemma split_slash_utf8 e l :
  Forall (λ r : N * N, 128 <= r.1) e → utf8_from e l = true →
  match split_slash l with
  | c :: cs => utf8_from e c = true ∧ Forall (λ c, utf8_valid c = true) cs
  | [] => False
  end.
Proof.
  revert e. induction l as [|b l IH]; intros e He Hl; [by destruct e|]. cbn [split_slash].
  case_bool_decide as Hb.
  - subst b. destruct e as [|[lo hi] e].
    + split; [done|]. specialize (IH [] (Forall_nil_2 _) Hl). destruct (split_slash l); [done|].
      destruct IH. by apply Forall_cons_2.
    + apply Forall_cons_1 in He as [Hlo _]. cbn in Hlo, Hl. apply andb_true_iff in Hl as [Hr _].
      unfold in_range in Hr. apply andb_true_iff in Hr as [Hr%N.leb_le _].
      change (byte_N Byte.x2f) with 47 in Hr. lia.
  - destruct e as [|[lo hi] e].
    + cbn [utf8_from] in Hl. destruct (utf8_ranges b) as [e|] eqn:Hr; [|done].
      assert (He' : Forall (λ r : N * N, 128 <= r.1) e).
      { unfold utf8_ranges in Hr. repeat case_match; simplify_eq; repeat constructor; done. }
      specialize (IH e He' Hl). destruct (split_slash l) as [|c cs]; [done|].
      cbn [utf8_from]. by rewrite Hr.
    + apply Forall_cons_1 in He as [_ He]. cbn [utf8_from] in Hl. apply andb_true_iff in Hl as [Hb' Hl].
      specialize (IH e He Hl). destruct (split_slash l) as [|c cs]; [done|].
      cbn [utf8_from]. by rewrite Hb'.
Qed.

Lemma split_last_app {A} (l : list A) x rest : split_last l = Some (x, rest) → l = rest ++ [x].
Proof.
  revert x rest. induction l as [|y l IH]; intros x rest; [done|]. cbn.
  destruct (split_last l) as [[z r]|] eqn:Hs; intros [= <- <-].
  - by rewrite (IH _ _ eq_refl).
  - destruct l as [|y' l]; [done|]. cbn in Hs. by destruct (split_last l) as [[]|].
Qed.

(** The name is always a string: splitting one at slashes leaves strings. *)
Lemma parent_of_Err tree path e : parent_of tree path = Err e → resolve_parent tree path = Err e.
Proof.
  unfold parent_of. destruct (resolve_parent tree path) as [[p n]|e'] eqn:Hr; [|by intros [= ->]].
  cbn [res_bind]. destruct (text_of_bytes n) as [name|] eqn:Hn; [done|intros _; exfalso].
  unfold resolve_parent in Hr. destruct (path_components path) as [cs|] eqn:Hc; [|done].
  cbn [res_bind] in Hr. destruct (split_last cs) as [[x rest]|] eqn:Hs; [|done].
  destruct (resolve_parents _ _ _) as [q|]; [|done]. cbn [res_bind] in Hr. injection Hr as -> ->.
  assert (Hv : Forall (λ c, utf8_valid c = true) cs).
  { unfold path_components in Hc. destruct (MAX_PATH_BYTES <? _); [done|].
    destruct (_ || _); [done|]. destruct (_ || _) eqn:Hhead; [done|].
    case_bool_decide; [by simplify_eq|]. destruct (validate_names _); [|done]. cbn in Hc.
    injection Hc as <-.
    assert (Hsv : utf8_valid (strip_slash path) = true).
    { pose proof (Is_true_true_1 _ (text_ok path)) as Hp. destruct (text_bytes path) as [|b l]; [done|].
      destruct (decide (b = Byte.x2f)) as [->|Hne]; [exact Hp|]. by destruct b. }
    pose proof (split_slash_utf8 [] _ (Forall_nil_2 _) Hsv) as Hsp.
    destruct (split_slash _); [done|]. destruct Hsp. by apply Forall_cons_2. }
  rewrite (split_last_app _ _ _ Hs) in Hv. apply Forall_app in Hv as [_ Hv]. apply Forall_cons_1 in Hv as [Hv _].
  unfold text_of_bytes in Hn. destruct (is_true_dec _) as [|Hno]; [done|]. apply Hno. by apply Is_true_true_2.
Qed.

Section ops.
Context `{Sha256, MlDsa65, XWing, AesGcm, HkdfSha256, Oracle}.

(** ** A new vault *)

(** The service around a state. *)
Definition new_service (w : World) (s : HostState) : HostService :=
  mkHostService w s ∅ ∅ true false false [] [] ∅.

(** [u64::from_be_bytes(random_bytes()?)] *)
Definition draw_owner : SM World u64 :=
  do! b := random_bytes 8 in sm_ret (u64_from_be b).

(** [HostService::new]; the chunk store takes the first metadata. *)
Definition HostService_new (members : gset PeerId) (chunks : MemoryChunkStore)
    : SM World HostState :=
  do! host_id := keys ks_peer in
  check! bool_decide (host_id ∈ members) else InvalidInput "H must be a vault member" in
  let metadata := set_rm_members members (ReplicaMetadata_new zero_root) in
  do! gate_owner := draw_owner in
  sm_ret (mkHostState zero_root (DirectoryTree_new zero_root) ∅ host_id members ∅ members ∅ ∅
            (set_metadata metadata chunks) ∅ [] (u64! 1) ∅ ∅ gate_owner None).

Definition new_in_vault (members : gset PeerId) (chunks : MemoryChunkStore) (root : FileId)
    : SM World HostState :=
  do! s := HostService_new members chunks in
  let s := set_st_tree (DirectoryTree_new root) (set_st_expected_root root s) in
  sm_ret (set_st_chunks (set_metadata (host_metadata s) (st_chunks s)) s).

(** The gates of the peers whose mail waits. *)
Definition gate_mailboxes : SM HostService unit :=
  do! h := sm_get in
  sm_each (λ peer,
    do! h := sm_get in
    if mailbox_empty (hs_state h) peer then sm_ret tt
    else on_keys (block_live_traffic peer (st_gate_owner (hs_state h))))
    (sorted_entries (st_mailboxes (hs_state h))).*1.

(** Controls not handed out become mail. *)
Definition requeue_pending (mailboxes : gmap PeerId (list Queued))
    (pending : PeerId * list OnlineControl) : SM HostService (gmap PeerId (list Queued)) :=
  do! moved := sm_map (λ u, sm_lift (requeue u)) pending.2 in
  sm_ret (<[pending.1 := default [] (mailboxes !! pending.1) ++ moved]> mailboxes).

(** [HostService::resume], on the state another instance left. *)
Definition resume : SM HostService unit :=
  do! local := on_keys ks_peer in
  do! h := sm_get in
  check! bool_decide (local = st_host_id (hs_state h)) else AuthenticationFailed in
  do! mailboxes := sm_fold requeue_pending (sorted_entries (st_online (hs_state h)))
                     (st_mailboxes (hs_state h)) in
  do! _ := update_state (λ s, set_st_mailboxes mailboxes (set_st_online ∅ s)) in
  do! _ := gate_mailboxes in
  refresh_mailboxes.

(** ** Opening from disk *)

Definition manifest_writer (documents : gmap PeerId IdentityDocument) (writer : PeerId)
    : SM StoreInner IdentityDocument :=
  match documents !! writer with
  | Some document => sm_ret document
  | None =>
      do! local := ks_peer in
      if bool_decide (writer = local) then ks_identity else load_verified_peer writer
  end.

Definition verified_manifest (documents : gmap PeerId IdentityDocument)
    (verified : gmap FileId TrustedManifest) (entry : FileId * Manifest)
    : SM StoreInner (gmap FileId TrustedManifest) :=
  do! writer := manifest_writer documents (mf_writer_id entry.2) in
  do! trusted := sm_lift (verify_accepted entry.2 writer) in
  sm_ret (<[entry.1 := trusted]> verified).

Definition verified_manifests (metadata : ReplicaMetadata)
    : SM StoreInner (gmap FileId TrustedManifest) :=
  do! _ := sm_each (λ p : PeerId * IdentityDocument,
      check! bool_decide (p.1 = doc_peer_id p.2) else AuthenticationFailed in
      sm_lift (verify_identity p.2)) (sorted_entries (rm_identity_documents metadata)) in
  sm_fold (verified_manifest (rm_identity_documents metadata))
    (sorted_entries (rm_manifests metadata)) ∅.

(** Mail read from disk has no ciphertext until it is sealed again. *)
Definition unsealed (local peer : PeerId) (content : QueueContent) : Queued :=
  mkQueued (mkMailboxEnvelope peer local u64_zero u64_zero u64_zero []) content.

Definition loaded_state (root : FileId) (local : PeerId) (metadata : ReplicaMetadata)
    (tree : DirectoryTree) (chunks : MemoryChunkStore) (manifests : gmap FileId TrustedManifest)
    (gate_owner : u64) : HostState :=
  mkHostState root tree (rm_acked_through metadata) local (rm_members metadata) (rm_denied metadata)
    (rm_historical_members metadata) (rm_identity_documents metadata)
    (rm_bootstrap_through metadata) chunks manifests (rm_log metadata) (rm_next_control metadata)
    (map_imap (λ peer queue, Some (List.map (unsealed local peer) queue)) (rm_mailboxes metadata))
    ∅ gate_owner (rm_admission metadata).

(** [HostService::open_durable]; the lock on the data directory is not modelled. *)
Definition host_open (root : FileId) (initial_members : gset PeerId) : SM World HostService :=
  do! (stored, chunks) := durable_open root in
  do! local := keys ks_peer in
  let metadata := match stored with
                  | Some metadata => metadata
                  | None => set_rm_members initial_members (ReplicaMetadata_new root)
                  end in
  check! bool_decide (local ∈ rm_members metadata) else AuthenticationFailed in
  do! manifests := keys (verified_manifests metadata) in
  do! tree := sm_lift (from_dirents root (rm_dirents metadata)) in
  do! gate_owner := draw_owner in
  λ w,
    let h := new_service w (loaded_state root local metadata tree chunks manifests gate_owner) in
    match (do! _ := gate_mailboxes in
           match stored with
           | Some _ => sm_ret tt
           | None => do! staged := stage_state in publish_state staged
           end) h with
    | (Ok _, h) => (Ok h, hs_world h)
    | (Err e, h) => (Err e, hs_world h)
    end.

(** ** Members *)

(** What [import_peer] may draw. *)
Definition draw_wrap : SM World WrapInput :=
  do! key := draw (oc_random 32) in
  do! random := draw (oc_random 64) in
  do! io := draw oc_write in
  sm_ret (mkWrapInput key random io).

Definition import_member (document : IdentityDocument) : SM World unit :=
  do! io := draw oc_write in
  do! input := draw_wrap in
  keys (import_peer io input document).

(** [try_fold] of [checked_add] over [usize]s. *)
Definition usize_sum (error : Error) (l : list N) : Result N :=
  foldl (λ total n, let? total := total in ok_or (usize_add total n) error) (Ok 0) l.

Definition bootstrap_frames (records : list ControlRecord) (manifests : list Manifest) : Result N :=
  let overflow := State "bootstrap frame count overflow" in
  let? chunks := usize_sum overflow ((λ m, lenN (mf_chunk_ids m)) <$> manifests) in
  ok_or (usize_add (lenN records) chunks) overflow.

(** The bytes of a frame and its overhead, added to a total. *)
Definition add_frame (total n : N) : Result N :=
  ok_or (usize_add total n ≫= λ total, usize_add total BOOTSTRAP_FRAME_OVERHEAD)
    (State "bootstrap byte count overflow").

Fixpoint record_bytes (records : list ControlRecord) (total : N) : Result N :=
  match records with
  | [] => Ok total
  | record :: records =>
      let? encoded := encode_control_record record in
      let? total := add_frame total (lenN encoded) in
      record_bytes records total
  end.

Fixpoint chunk_bytes (chunks : MemoryChunkStore) (ids : list ChunkId) (total : N) : Result N :=
  match ids with
  | [] => Ok total
  | id :: ids =>
      let? plaintext := ok_or (chunk_get id chunks) (State "committed plaintext missing") in
      let? total := add_frame total (lenN plaintext) in
      chunk_bytes chunks ids total
  end.

(** The record frames of a bootstrap, sealed. *)
Definition bootstrap_control (session : option PairSession) (queued_at : u64)
    (record : ControlRecord) : SM StoreInner Queued :=
  do! session := sm_lift (ok_or session KeyUnavailable) in
  do! packet := seal_control session record in
  do! envelope := sm_lift (control_envelope packet queued_at) in
  sm_ret (mkQueued envelope (QControl record)).

Definition bootstrap_chunk (session : option PairSession) (queued_at : u64)
    (chunks : MemoryChunkStore) (slot : Manifest * (nat * ChunkId)) : SM StoreInner Queued :=
  let '(m, (index, id)) := slot in
  do! i := sm_lift (ok_or (u64_of_N (N.of_nat index)) (InvalidInput "chunk index overflow")) in
  do! plaintext := sm_lift (ok_or (chunk_get id chunks) (State "committed plaintext missing")) in
  do! session := sm_lift (ok_or session KeyUnavailable) in
  do! frame := encrypt_at_send session (mf_file_id m) i plaintext in
  do! envelope := sm_lift (chunk_envelope frame queued_at) in
  sm_ret (mkQueued envelope (QChunk (mf_file_id m) i id)).

Definition manifest_slots (manifests : list Manifest) : list (Manifest * (nat * ChunkId)) :=
  manifests ≫= λ m, pair m <$> imap pair (mf_chunk_ids m).

(** The new member's mailbox: the records, then every body. *)
Definition bootstrap_queue (staged : HostState) (peer : PeerId) (records : list ControlRecord)
    : SM World (list Queued) :=
  let manifests := manifest <$> map_values (st_manifests staged) in
  do! frames := sm_lift (bootstrap_frames records manifests) in
  check! negb (MAX_BOOTSTRAP_FRAMES <? frames) else State "bootstrap exceeds frame budget" in
  do! total := sm_lift (record_bytes records 0) in
  do! total := sm_lift (chunk_bytes (st_chunks staged) (manifests ≫= mf_chunk_ids) total) in
  check! negb (MAX_BOOTSTRAP_BYTES <? total) else State "bootstrap exceeds byte budget" in
  do! session := (if frames =? 0 then sm_ret None
                  else do! session := keys (current_session peer) in sm_ret (Some session)) in
  do! queued_at := unix_time in
  do! controls := keys (sm_map (bootstrap_control session queued_at) records) in
  do! bodies := keys (sm_map (bootstrap_chunk session queued_at (st_chunks staged))
                        (manifest_slots manifests)) in
  sm_ret (controls ++ bodies).

Definition add_member (document : IdentityDocument) : SM HostService unit :=
  do! _ := require_running in
  do! _ := sm_lift (verify_identity document) in
  let peer := doc_peer_id document in
  do! h := sm_get in
  check! negb (bool_decide (peer ∈ st_denied (hs_state h))) else AuthenticationFailed in
  if bool_decide (peer ∈ st_members (hs_state h)) then sm_ret tt
  else
    do! _ := on_world (import_member document) in
    do! staged := stage_state in
    let staged := set_st_identity_documents (<[peer := document]> (st_identity_documents staged)) staged in
    let staged := set_st_historical_members ({[peer]} ∪ st_historical_members staged) staged in
    let staged := set_st_members ({[peer]} ∪ st_members staged) staged in
    do! staged := on_keys (archive_host staged) in
    let through := u64_saturating_sub (st_next_control staged) (u64! 1) in
    do! records := sm_lift (bootstrap_records staged through) in
    do! queue := on_world (bootstrap_queue staged peer records) in
    do! _ := on_keys (block_live_traffic peer (st_gate_owner staged)) in
    let staged := set_st_mailboxes (<[peer := queue]> (st_mailboxes staged)) staged in
    let staged := set_st_bootstrap_through (<[peer := through]> (st_bootstrap_through staged)) staged in
    sm_catch (publish_state staged) (λ error,
      do! h := sm_get in
      do! _ := on_keys (unblock_live_traffic peer (st_gate_owner (hs_state h))) in
      sm_err error).

(** [kick_with_code]; the pair goes after the kick is published. *)
Definition kick_with_code (target : PeerId) (code : option JoinCode) : SM HostService PeerId :=
  do! _ := require_running in
  do! _ := require_member target in
  do! h := sm_get in
  check! negb (bool_decide (target = st_host_id (hs_state h))) else InvalidInput "cannot kick H" in
  let id_before := st_next_control (hs_state h) in
  do! _ := commit_verified_with_code (Kick target) None code in
  do! _ := note_recent_op (st_host_id (hs_state h)) id_before in
  do! _ := update (λ h, set_hs_presence (delete target (hs_presence h)) h) in
  do! _ := update (λ h, set_hs_challenges (delete target (hs_challenges h)) h) in
  do! _ := update (λ h, set_hs_disconnects (hs_disconnects h ++ [target]) h) in
  do! _ := on_world (do! io := draw oc_write in keys (discard_pair io target)) in
  sm_ret target.

Definition kick (target : PeerId) : SM HostService PeerId := kick_with_code target None.

Definition take_disconnects : SM HostService (list PeerId) :=
  do! h := sm_get in
  do! _ := update (set_hs_disconnects []) in
  sm_ret (hs_disconnects h).

Definition historical_documents (h : HostService) : list IdentityDocument :=
  map_values (st_identity_documents (hs_state h)).

(** [FileId(vault_id.0)] is the identity on the bytes. *)
Definition attach_staged (metadata : VaultMetadata) (staged : HostState) : Result HostState :=
  match st_admission staged with
  | Some stored =>
      if bool_decide (vm_vault_id stored = st_expected_root staged) then Ok staged
      else Err (InvalidInput "stored admission root mismatch")
  | None =>
      Ok (set_st_admission (Some metadata)
            (set_st_denied (st_denied staged ∪ vm_denied metadata) staged))
  end.

Definition attach_admission (metadata : VaultMetadata) : SM HostService unit :=
  do! h := sm_get in
  check! bool_decide (vm_vault_id metadata = st_expected_root (hs_state h))
    else InvalidInput "vault admission root mismatch" in
  let old_path := hs_admission_path h in
  do! _ := update (set_hs_admission_path true) in
  sm_catch (do! staged := stage_state in
            do! staged := sm_lift (attach_staged metadata staged) in
            publish_state staged)
    (λ error, do! _ := update (set_hs_admission_path old_path) in sm_err error).

Definition set_admission (metadata : VaultMetadata) : SM HostService unit :=
  do! _ := require_running in
  do! h := sm_get in
  let s := hs_state h in
  check! bool_decide (vm_vault_id metadata = st_expected_root s)
         && bool_decide (list_to_set (vm_members metadata) = st_members s)
         && bool_decide (vm_denied metadata = st_denied s)
    else InvalidInput "admission membership differs from replica" in
  do! staged := stage_state in
  publish_state (set_st_admission (Some metadata) staged).

(** ** Instructions *)

Definition commit_instruction (update : ControlUpdate) : SM HostService unit :=
  match update with
  | NewManifest m => commit m
  | Kick target => do! _ := kick target in sm_ret tt
  | update =>
      do! _ := require_running in
      commit_verified update None
  end.

(** Who may send an update: a manifest its writer, a tree edit any member, the rest the host. *)
Definition may_send (s : HostState) (sender : PeerId) (update : ControlUpdate) : bool :=
  match update with
  | NewManifest m => bool_decide (mf_writer_id m = sender)
  | Link _ _ _ _ | Unlink _ _ | Rename _ _ _ _ => true
  | _ => bool_decide (sender = st_host_id s)
  end.

Definition fan_out_control (sender : PeerId) (update : ControlUpdate) : SM HostService unit :=
  do! _ := require_running in
  do! _ := require_member sender in
  do! h := sm_get in
  check! may_send (hs_state h) sender update else AuthenticationFailed in
  let id_before := st_next_control (hs_state h) in
  do! _ := commit_instruction update in
  note_recent_op sender id_before.

(** The [i]th pending control of a recipient, sealed again in place. *)
Definition refresh_pending (recipient : PeerId) (session : PairSession) (i : nat)
    : SM HostService unit :=
  do! h := sm_get in
  match default [] (st_online (hs_state h) !! recipient) !! i with
  | None => sm_ret tt
  | Some old =>
      do! sealed := on_keys (reseal_online session old) in
      update_state (λ s, set_st_online
        (alter (alter (λ _, sealed) i) recipient (st_online s)) s)
  end.

Definition take_online_control (recipient : PeerId) : SM HostService (list ControlPacket) :=
  do! _ := require_running in
  do! _ := require_member recipient in
  do! _ := on_keys (require_live_traffic recipient) in
  do! session := on_keys (current_session recipient) in
  do! h := sm_get in
  let pending := default [] (st_online (hs_state h) !! recipient) in
  if bool_decide (pending = []) then sm_ret []
  else
    do! _ := sm_each (refresh_pending recipient session) (seq 0 (length pending)) in
    do! staged := stage_state in
    let packets := oc_packet <$> default [] (st_online staged !! recipient) in
    do! _ := publish_state (set_st_online (delete recipient (st_online staged)) staged) in
    sm_ret packets.

Definition append_mailbox (recipient : PeerId) (file_id : FileId) (index : u64)
    : SM HostService unit :=
  do! _ := require_running in
  do! _ := require_member recipient in
  do! h := sm_get in
  do! trusted := sm_lift (ok_or (st_manifests (hs_state h) !! file_id) AuthenticationFailed) in
  do! id := sm_lift (ok_or (manifest_slot trusted index) AuthenticationFailed) in
  do! _ := refresh_mailboxes in
  do! session := on_keys (current_session recipient) in
  do! h := sm_get in
  do! plaintext := sm_lift (ok_or (chunk_get id (st_chunks (hs_state h)))
                              (State "queued plaintext missing")) in
  do! _ := on_keys (block_live_traffic recipient (st_gate_owner (hs_state h))) in
  do! sealed := on_keys (encrypt_at_send session file_id index plaintext) in
  do! staged := stage_state in
  let queue := filter (λ e, ¬ chunk_at file_id index e)
                 (default [] (st_mailboxes staged !! recipient)) in
  do! now := on_world unix_time in
  do! envelope := sm_lift (chunk_envelope sealed now) in
  let queue := queue ++ [mkQueued envelope (QChunk file_id index id)] in
  sm_catch (publish_state (set_st_mailboxes (<[recipient := queue]> (st_mailboxes staged)) staged))
    (λ error, do! _ := reopen_gates [recipient] in sm_err error).

(** ** Flushing a mailbox *)

Definition issue_flush_challenge (recipient : PeerId) : SM HostService FlushChallenge :=
  do! _ := require_running in
  do! _ := require_member recipient in
  do! challenge := on_world (random_bytes 32) in
  do! _ := update (λ h, set_hs_challenges (<[recipient := challenge]> (hs_challenges h)) h) in
  sm_ret challenge.

Record PreparedHostFlush := mkPreparedHostFlush {
  phf_peer_id : PeerId;
  phf_challenge : FlushChallenge;
  phf_envelopes : list MailboxEnvelope;
  phf_bootstrap_through : option u64;
}.

Definition mailbox_envelopes (s : HostState) (peer : PeerId) : list MailboxEnvelope :=
  qd_envelope <$> default [] (st_mailboxes s !! peer).

Definition prepare_flush (peer : PeerId) (challenge : FlushChallenge) (signature : bytes)
    : SM HostService PreparedHostFlush :=
  do! _ := require_running in
  do! _ := require_member peer in
  do! h := sm_get in
  check! bool_decide (hs_challenges h !! peer = Some challenge) else AuthenticationFailed in
  do! identity := on_keys (load_verified_peer peer) in
  do! _ := sm_lift (verify (doc_vk identity) FLUSH_CONTEXT (array_bytes (flush_m challenge)) signature) in
  do! _ := refresh_mailboxes in
  do! _ := on_keys (block_live_traffic peer (st_gate_owner (hs_state h))) in
  do! h := sm_get in
  sm_ret (mkPreparedHostFlush peer challenge (mailbox_envelopes (hs_state h) peer)
            (st_bootstrap_through (hs_state h) !! peer)).

(** The largest id among the records of a queue, or 0. *)
Definition last_queued (queue : list Queued) : u64 :=
  foldr u64_max u64_zero (cr_id <$> queued_records (qd_content <$> queue)).

Definition acknowledge_flush (peer : PeerId) (prepared : PreparedHostFlush) : SM HostService unit :=
  do! _ := require_running in
  do! h := sm_get in
  let s := hs_state h in
  check! bool_decide (phf_peer_id prepared = peer)
         && bool_decide (hs_challenges h !! peer = Some (phf_challenge prepared))
    else AuthenticationFailed in
  check! bool_decide (st_bootstrap_through s !! peer = phf_bootstrap_through prepared)
    else State "bootstrap changed before flush acknowledgement" in
  check! bool_decide (mailbox_envelopes s peer = phf_envelopes prepared)
    else State "mailbox changed before flush acknowledgement" in
  do! staged := stage_state in
  let last := u64_max (last_queued (default [] (st_mailboxes staged !! peer)))
                (ack_of (st_bootstrap_through staged) peer) in
  let staged := set_st_acked_through
    (<[peer := u64_max (ack_of (st_acked_through staged) peer) last]> (st_acked_through staged)) staged in
  let staged := set_st_mailboxes (delete peer (st_mailboxes staged)) staged in
  let staged := set_st_bootstrap_through (delete peer (st_bootstrap_through staged)) staged in
  do! _ := publish_state staged in
  do! _ := update (λ h, set_hs_challenges (delete peer (hs_challenges h)) h) in
  on_keys (unblock_live_traffic peer (st_gate_owner s)).

Definition acked_through (s : HostState) (peer : PeerId) : u64 := ack_of (st_acked_through s) peer.

Definition acknowledge_applied (peer : PeerId) (through : u64) : SM HostService unit :=
  do! _ := require_running in
  do! _ := require_member peer in
  do! h := sm_get in
  let s := hs_state h in
  check! u64_N through <? u64_N (st_next_control s) else InvalidInput "ack exceeds host log" in
  if u64_N through <=? u64_N (acked_through s peer) then sm_ret tt
  else
    do! staged := stage_state in
    publish_state (set_st_acked_through
      (<[peer := u64_max (ack_of (st_acked_through staged) peer) through]> (st_acked_through staged))
      staged).

(** ** Files and directories *)

Definition mkdir (sender : PeerId) (path : text) : SM HostService FileId :=
  do! _ := require_running in
  do! _ := require_member sender in
  do! h := sm_get in
  do! (parent, name) := sm_lift (parent_of (st_tree (hs_state h)) path) in
  do! child := on_world (random_bytes 32) in
  do! _ := fan_out_control sender (Link parent name child true) in
  sm_ret child.

Definition link_file (sender : PeerId) (path : text) (child : FileId) : SM HostService unit :=
  do! _ := require_running in
  do! _ := require_member sender in
  do! h := sm_get in
  do! (parent, name) := sm_lift (parent_of (st_tree (hs_state h)) path) in
  fan_out_control sender (Link parent name child false).

Definition host_unlink (sender : PeerId) (path : text) : SM HostService unit :=
  do! _ := require_running in
  do! _ := require_member sender in
  do! h := sm_get in
  do! (parent, name) := sm_lift (parent_of (st_tree (hs_state h)) path) in
  fan_out_control sender (Unlink parent name).

Definition host_rename (sender : PeerId) (source destination : text) : SM HostService unit :=
  do! _ := require_running in
  do! _ := require_member sender in
  do! h := sm_get in
  do! (src_parent, src_name) := sm_lift (parent_of (st_tree (hs_state h)) source) in
  do! (dst_parent, dst_name) := sm_lift (parent_of (st_tree (hs_state h)) destination) in
  fan_out_control sender (Rename src_parent src_name dst_parent dst_name).

Definition verify_writer_manifest (sender : PeerId) (m : Manifest)
    : SM HostService TrustedManifest :=
  do! _ := require_running in
  do! _ := require_member sender in
  check! bool_decide (mf_writer_id m = sender) else AuthenticationFailed in
  do! h := sm_get in
  on_keys (TrustedManifest_verify m (st_members (hs_state h))).

Definition link_matches (file_id : FileId) (link : option ControlUpdate) : bool :=
  match link with
  | None => true
  | Some (Link _ _ child false) => bool_decide (child = file_id)
  | Some _ => false
  end.

(** The staged copy of the service in which an upload is prepared; it publishes in memory only. *)
Definition staged_service (h : HostService) : HostService :=
  mkHostService (hs_world h) (hs_state h) (hs_presence h) (hs_challenges h) (hs_running h) true
    (hs_admission_path h) [] [] ∅.

Definition put_body (file_id : FileId) (body : u64 * bytes) : SM HostService unit :=
  do! h := sm_get in
  do! (_, chunks) := on_world (chunk_put file_id body.1 body.2 (st_chunks (hs_state h))) in
  update_state (set_st_chunks chunks).

(** The bodies, the manifest and the link, in the staged service. *)
Definition stage_upload (sender : PeerId) (m : Manifest) (bodies : list (u64 * bytes))
    (link : option ControlUpdate) : SM HostService HostState :=
  do! _ := sm_each (put_body (mf_file_id m)) bodies in
  do! _ := fan_out_control sender (NewManifest m) in
  do! _ := match link with
           | Some link => fan_out_control sender link
           | None => sm_ret tt
           end in
  stage_state.

(** Run a staged service; its world is the service's, its state is not. *)
Definition in_transaction {A} (m : SM HostService A) : SM HostService A := λ h,
  let '(r, t) := m (staged_service h) in (r, set_hs_world (hs_world t) h).

(** The ids from one instruction number up to another. *)
Definition ids_between (first next : u64) : list u64 :=
  omap (λ k, u64_of_N (u64_N first + N.of_nat k)) (seq 0 (N.to_nat (u64_N next - u64_N first))).

(** [bodies] is a map by index, listed in its order. *)
Definition commit_writer_upload (sender : PeerId) (m : Manifest) (bodies : list (u64 * bytes))
    (link : option ControlUpdate) : SM HostService unit :=
  do! _ := verify_writer_manifest sender m in
  check! link_matches (mf_file_id m) link else InvalidInput "upload link does not match file" in
  do! _ := refresh_mailboxes in
  do! h := sm_get in
  do! gate_owners := sm_map (λ peer,
      do! owned := on_keys (owns_live_gate peer (st_gate_owner (hs_state h))) in
      sm_ret (peer, owned)) (sorted_elements (st_members (hs_state h))) in
  let id_before := st_next_control (hs_state h) in
  sm_catch (do! staged := in_transaction (stage_upload sender m bodies link) in
            do! _ := publish_state staged in
            do! h := sm_get in
            sm_each (note_recent_op sender) (ids_between id_before (st_next_control (hs_state h))))
    (λ error,
      do! _ := sm_each (λ p : PeerId * bool,
          if p.2 then sm_ret tt
          else do! h := sm_get in
               on_keys (unblock_live_traffic p.1 (st_gate_owner (hs_state h)))) gate_owners in
      sm_err error).

(** [index as u64] *)
Definition as_u64 (n : nat) : u64 := default u64_zero (u64_of_N (N.of_nat n mod u64_limit)).

(** The chunk ids and the size of a file's bodies. *)
Fixpoint describe_bodies (file_id : FileId) (index : nat) (bodies : list bytes) (size : u64)
    : Result (list ChunkId * u64) :=
  match bodies with
  | [] => Ok ([], size)
  | plaintext :: bodies =>
      if MAX_CHUNK_BYTES <? lenN plaintext then Err (InvalidInput "chunk exceeds 1 MiB")
      else
        let? size := ok_or (u64_checked_add size (lenN plaintext)) (InvalidInput "file size overflow") in
        let? (ids, size) := describe_bodies file_id (S index) bodies size in
        Ok (chunk_id file_id (as_u64 index) plaintext :: ids, size)
  end.

Definition next_version (s : HostState) (file_id : FileId) : Result u64 :=
  match st_manifests s !! file_id with
  | None => Ok (u64! 1)
  | Some t => ok_or (u64_checked_add (mf_version (manifest t)) 1) (State "manifest version exhausted")
  end.

(** [save_file]; [writer] is the writer's key store, whose identity alone is used. *)
Definition save_file (writer : StoreInner) (path : text) (bodies : list bytes)
    : SM HostService FileId :=
  do! _ := require_running in
  do! sender := sm_lift (ks_peer writer).1 in
  do! _ := require_member sender in
  do! h := sm_get in
  let tree := st_tree (hs_state h) in
  do! (parent, name) := sm_lift (parent_of tree path) in
  let existing := result_ok (resolve tree path) in
  check! negb (match existing with Some id => is_dir tree id | None => false end)
    else InvalidInput "cannot save a directory" in
  do! file_id := (match existing with
                  | Some id => sm_ret id
                  | None => on_world (random_bytes 32)
                  end) in
  do! version := sm_lift (next_version (hs_state h) file_id) in
  do! (ids, size) := sm_lift (describe_bodies file_id 0 bodies u64_zero) in
  let unsigned := mkManifest file_id ids size sender version [] in
  do! _ := sm_lift (ks_identity writer).1 in
  do! message := sm_lift (manifest_m unsigned) in
  do! signature := sm_lift (sign (li_signing_seed (si_local writer)) MANIFEST_CONTEXT message) in
  let m := mkManifest file_id ids size sender version signature in
  let link := match existing with
              | Some _ => None
              | None => Some (Link parent name file_id false)
              end in
  do! _ := commit_writer_upload sender m
             (imap (λ i body, (as_u64 i, body)) bodies)
             link in
  sm_ret file_id.

(** [HostService::evict_file] *)
Definition host_evict_file (file_id : FileId) : SM HostService N :=
  sm_err (State "H cannot evict its availability copy").
End ops.
