(* ===== verification/Member.v ===== *)
(** * A member's replica ([sync/host.rs], [sync/host/membership.rs], [sync/host/persistence.rs])

    What a member keeps of the vault: the instructions it has applied, the tree, the manifests and
    the chunks they lead to.  Every change is prepared on a copy, [StagedReplica], and becomes the
    replica once its snapshot is durable. *)
From S2P Require Export HostOps.
From Stdlib Require Import Lia ZifyN ZifyNat.

Open Scope N_scope.

(** ** Data *)

Inductive Opened :=
  | OControl (record : ControlRecord)
  | OChunk (file_id : FileId) (index : u64) (plaintext : bytes).

Record StagedReplica := mkStagedReplica {
  sr_members : gset PeerId;
  sr_denied : gset PeerId;
  sr_historical_members : gset PeerId;
  sr_identity_documents : gmap PeerId IdentityDocument;
  sr_tree : DirectoryTree;
  sr_chunks : MemoryChunkStore;
  sr_manifests : gmap FileId TrustedManifest;
  sr_controls : gmap u64 ControlRecord;
  sr_log : list ControlRecord;
  sr_bootstrap_through : u64;
}.

Definition set_sr_members v s := mkStagedReplica v (sr_denied s) (sr_historical_members s) (sr_identity_documents s) (sr_tree s) (sr_chunks s) (sr_manifests s) (sr_controls s) (sr_log s) (sr_bootstrap_through s).
Definition set_sr_denied v s := mkStagedReplica (sr_members s) v (sr_historical_members s) (sr_identity_documents s) (sr_tree s) (sr_chunks s) (sr_manifests s) (sr_controls s) (sr_log s) (sr_bootstrap_through s).
Definition set_sr_historical_members v s := mkStagedReplica (sr_members s) (sr_denied s) v (sr_identity_documents s) (sr_tree s) (sr_chunks s) (sr_manifests s) (sr_controls s) (sr_log s) (sr_bootstrap_through s).
Definition set_sr_identity_documents v s := mkStagedReplica (sr_members s) (sr_denied s) (sr_historical_members s) v (sr_tree s) (sr_chunks s) (sr_manifests s) (sr_controls s) (sr_log s) (sr_bootstrap_through s).
Definition set_sr_tree v s := mkStagedReplica (sr_members s) (sr_denied s) (sr_historical_members s) (sr_identity_documents s) v (sr_chunks s) (sr_manifests s) (sr_controls s) (sr_log s) (sr_bootstrap_through s).
Definition set_sr_chunks v s := mkStagedReplica (sr_members s) (sr_denied s) (sr_historical_members s) (sr_identity_documents s) (sr_tree s) v (sr_manifests s) (sr_controls s) (sr_log s) (sr_bootstrap_through s).
Definition set_sr_manifests v s := mkStagedReplica (sr_members s) (sr_denied s) (sr_historical_members s) (sr_identity_documents s) (sr_tree s) (sr_chunks s) v (sr_controls s) (sr_log s) (sr_bootstrap_through s).
Definition set_sr_controls v s := mkStagedReplica (sr_members s) (sr_denied s) (sr_historical_members s) (sr_identity_documents s) (sr_tree s) (sr_chunks s) (sr_manifests s) v (sr_log s) (sr_bootstrap_through s).
Definition set_sr_log v s := mkStagedReplica (sr_members s) (sr_denied s) (sr_historical_members s) (sr_identity_documents s) (sr_tree s) (sr_chunks s) (sr_manifests s) (sr_controls s) v (sr_bootstrap_through s).
Definition set_sr_bootstrap_through v s := mkStagedReplica (sr_members s) (sr_denied s) (sr_historical_members s) (sr_identity_documents s) (sr_tree s) (sr_chunks s) (sr_manifests s) (sr_controls s) (sr_log s) v.

(** The fields that [stage] copies are the replica; the others are its own. *)
Record MemberReplica := mkMemberReplica {
  mr_world : World;
  mr_host_id : PeerId;
  mr_replica : StagedReplica;
  mr_receipts : list (MailboxEnvelope * Opened);
  mr_online_receipts : list ControlPacket;
  mr_expected_root : FileId;
  mr_last_applied : u64;
}.

Definition set_mr_world v s := mkMemberReplica v (mr_host_id s) (mr_replica s) (mr_receipts s) (mr_online_receipts s) (mr_expected_root s) (mr_last_applied s).
Definition set_mr_host_id v s := mkMemberReplica (mr_world s) v (mr_replica s) (mr_receipts s) (mr_online_receipts s) (mr_expected_root s) (mr_last_applied s).
Definition set_mr_replica v s := mkMemberReplica (mr_world s) (mr_host_id s) v (mr_receipts s) (mr_online_receipts s) (mr_expected_root s) (mr_last_applied s).
Definition set_mr_receipts v s := mkMemberReplica (mr_world s) (mr_host_id s) (mr_replica s) v (mr_online_receipts s) (mr_expected_root s) (mr_last_applied s).
Definition set_mr_online_receipts v s := mkMemberReplica (mr_world s) (mr_host_id s) (mr_replica s) (mr_receipts s) v (mr_expected_root s) (mr_last_applied s).
Definition set_mr_expected_root v s := mkMemberReplica (mr_world s) (mr_host_id s) (mr_replica s) (mr_receipts s) (mr_online_receipts s) v (mr_last_applied s).
Definition set_mr_last_applied v s := mkMemberReplica (mr_world s) (mr_host_id s) (mr_replica s) (mr_receipts s) (mr_online_receipts s) (mr_expected_root s) v.

Record FlushReport := mkFlushReport {
  fr_controls : N;
  fr_chunks_written : N;
}.

Record PreparedReplicaFlush := mkPreparedReplicaFlush {
  prf_peer_id : PeerId;
  prf_host_id : PeerId;
  prf_base_controls : gmap u64 ControlRecord;
  prf_staged : StagedReplica;
  prf_report : FlushReport;
}.

#[export] Instance MailboxEnvelope_dec : EqDecision MailboxEnvelope.
Proof. solve_decision. Defined.
#[export] Instance ControlPacket_dec : EqDecision ControlPacket.
Proof. solve_decision. Defined.

Section member.
Context `{Sha256, MlDsa65, XWing, AesGcm, HkdfSha256}.

Definition on_member_keys {A} (m : SM StoreInner A) : SM MemberReplica A :=
  sm_zoom mr_world set_mr_world (keys m).
Definition on_member_world {A} (m : SM World A) : SM MemberReplica A :=
  sm_zoom mr_world set_mr_world m.

(** [stage]: a copy, its chunk store included. *)
Definition stage : SM MemberReplica StagedReplica :=
  do! m := sm_get in sm_ret (mr_replica m).

(** ** Applying one instruction *)

Definition verify_record_manifest (m : Manifest) (members : gset PeerId)
    (archive : gmap PeerId IdentityDocument) : SM StoreInner TrustedManifest :=
  check! bool_decide (mf_writer_id m ∈ members) else AuthenticationFailed in
  match archive !! mf_writer_id m with
  | Some writer => sm_lift (verify_accepted m writer)
  | None => TrustedManifest_verify m members
  end.

(** The part for a new manifest: its writer may be a member the replica has not met. *)
Definition stage_manifest (m : Manifest) (accepted_snapshot : bool) (staged : StagedReplica)
    : SM StoreInner StagedReplica :=
  let staged :=
    if negb accepted_snapshot && negb (bool_decide (mf_writer_id m ∈ sr_denied staged))
       && bool_decide (mf_writer_id m ∈ sr_historical_members staged)
    then set_sr_members ({[mf_writer_id m]} ∪ sr_members staged) staged else staged in
  do! trusted :=
    (if accepted_snapshot then
       do! writer := sm_lift (ok_or (sr_identity_documents staged !! mf_writer_id m)
                                AuthenticationFailed) in
       sm_lift (verify_accepted m writer)
     else verify_record_manifest m (sr_members staged) (sr_identity_documents staged)) in
  sm_ret (set_sr_manifests (<[mf_file_id (manifest trusted) := trusted]> (sr_manifests staged)) staged).

Definition stage_kick (host_id target : PeerId) (staged : StagedReplica)
    : SM StoreInner StagedReplica :=
  check! negb (bool_decide (target = host_id)) && bool_decide (target ∈ sr_members staged)
    else AuthenticationFailed in
  sm_ret (set_sr_denied ({[target]} ∪ sr_denied staged)
            (set_sr_members (sr_members staged ∖ {[target]}) staged)).

(** The id of the last instruction applied, [controls.last_key_value()]. *)
Definition last_control (controls : gmap u64 ControlRecord) : option u64 :=
  fst <$> last (sorted_entries controls).

(** [stage_control_mode]: whether the instruction was new, and the replica with it. *)
Definition stage_control_mode (host_id : PeerId) (accepted_snapshot : bool) (staged : StagedReplica)
    (record : ControlRecord) : SM StoreInner (bool * StagedReplica) :=
  if u64_N (cr_id record) <=? u64_N (sr_bootstrap_through staged) then sm_ret (false, staged)
  else
    match sr_controls staged !! cr_id record with
    | Some prior =>
        check! bool_decide (prior = record) else AuthenticationFailed in
        sm_ret (false, staged)
    | None =>
        check! match last_control (sr_controls staged) with
               | Some last => negb (u64_N (cr_id record) <=? u64_N last)
               | None => true
               end else State "host instructions arrived out of order" in
        do! _ := sm_lift (validate_link_kind (sr_manifests staged) (cr_update record)) in
        do! (tree, removed_file) := sm_lift (apply_tree_update (sr_tree staged) (cr_update record)) in
        do! staged := (match cr_update record with
                       | NewManifest m => stage_manifest m accepted_snapshot staged
                       | Kick target => stage_kick host_id target staged
                       | _ => sm_ret staged
                       end) in
        let staged := match removed_file with
                      | Some file_id =>
                          set_sr_manifests (delete file_id (sr_manifests staged))
                            (set_sr_chunks (chunks_remove_file file_id (sr_chunks staged)) staged)
                      | None => staged
                      end in
        sm_ret (true, set_sr_log (sr_log staged ++ [record])
                  (set_sr_controls (<[cr_id record := record]> (sr_controls staged))
                     (set_sr_tree tree staged)))
    end.

Definition stage_control (host_id : PeerId) := stage_control_mode host_id false.

(** ** Publishing *)

Definition archive_replica (staged : StagedReplica) : SM StoreInner StagedReplica :=
  let historical := sr_historical_members staged ∪ sr_members staged in
  do! documents := archive_documents historical (sr_identity_documents staged) in
  do! _ := sm_lift (require_writer_documents (sr_manifests staged) (sr_log staged) documents) in
  sm_ret (set_sr_historical_members historical (set_sr_identity_documents documents staged)).

(** The number of the last instruction the staged replica covers. *)
Definition staged_last (last_applied : u64) (staged : StagedReplica) : u64 :=
  u64_max (match last (sr_log staged) with Some record => cr_id record | None => last_applied end)
    (sr_bootstrap_through staged).

Definition metadata_for (root : FileId) (last_applied : u64) (staged : StagedReplica)
    : SM StoreInner ReplicaMetadata :=
  do! through :=
    (if u64_N (sr_bootstrap_through staged) =? 0 then sm_ret ∅
     else do! local := ks_peer in sm_ret {[local := sr_bootstrap_through staged]}) in
  let last := staged_last last_applied staged in
  do! next := sm_lift (ok_or (u64_checked_add last 1) (State "instruction ids exhausted")) in
  do! local := ks_peer in
  sm_ret (mkReplicaMetadata root (dirents (sr_tree staged)) (sr_members staged)
            (manifest <$> sr_manifests staged) (sr_log staged) next ∅ {[local := last]} ∅
            (sr_denied staged) None (sr_historical_members staged) (sr_identity_documents staged)
            through).

Section oracle.
Context `{Oracle}.

Definition discard_peer (peer : PeerId) : SM MemberReplica unit :=
  on_member_world (do! io := draw oc_write in keys (discard_pair io peer)).

Definition apply_staged (staged : StagedReplica) : SM MemberReplica unit :=
  do! m := sm_get in
  do! staged := on_member_keys (archive_replica staged) in
  do! metadata := on_member_keys (metadata_for (mr_expected_root m) (mr_last_applied m) staged) in
  do! chunks := on_member_world (persist_metadata metadata (sr_chunks staged)) in
  let kicked := sorted_elements (sr_denied staged ∖ sr_denied (mr_replica m)) in
  do! _ := (λ m, (Ok tt, set_mr_last_applied (staged_last (mr_last_applied m) staged)
                           (set_mr_replica (set_sr_chunks chunks staged) m))) in
  sm_each discard_peer kicked.

Definition member_update (f : MemberReplica → MemberReplica) : SM MemberReplica unit :=
  λ m, (Ok tt, f m).

(** ** A replica of a vault *)

Definition MemberReplica_new (w : World) (host_id : PeerId) (members : gset PeerId)
    (chunks : MemoryChunkStore) : Result MemberReplica :=
  if negb (bool_decide (host_id ∈ members)) then Err AuthenticationFailed
  else
    let? local := (ks_peer (w_keys w)).1 in
    if negb (bool_decide (local ∈ members)) then Err AuthenticationFailed
    else
      let metadata := set_rm_members members (ReplicaMetadata_new zero_root) in
      Ok (mkMemberReplica w host_id
            (mkStagedReplica members ∅ members ∅ (DirectoryTree_new zero_root)
               (set_metadata metadata chunks) ∅ ∅ [] u64_zero) [] [] zero_root u64_zero).

(** [MemberReplica::new_in_vault], after [new]. *)
Definition enter_vault (root : FileId) : SM MemberReplica unit :=
  do! _ := member_update (λ m, set_mr_expected_root root
             (set_mr_replica (set_sr_tree (DirectoryTree_new root) (mr_replica m)) m)) in
  do! m := sm_get in
  do! metadata := on_member_keys (metadata_for root (mr_last_applied m) (mr_replica m)) in
  member_update (λ m, set_mr_replica
    (set_sr_chunks (set_metadata metadata (sr_chunks (mr_replica m))) (mr_replica m)) m).

(** A new replica of a vault: [MemberReplica::new_in_vault]. *)
Definition new_member (w : World) (host_id : PeerId) (members : gset PeerId)
    (chunks : MemoryChunkStore) (root : FileId) : Result unit * MemberReplica :=
  match MemberReplica_new w host_id members chunks with
  | Ok m => enter_vault root m
  | Err e => (Err e, mkMemberReplica w host_id
      (mkStagedReplica members ∅ members ∅ (DirectoryTree_new root) chunks ∅ ∅ [] u64_zero) [] [] root u64_zero)
  end.

Definition controls_of (log : list ControlRecord) : gmap u64 ControlRecord :=
  foldl (λ controls r, <[cr_id r := r]> controls) ∅ log.

Definition loaded_replica (metadata : ReplicaMetadata) (tree : DirectoryTree)
    (chunks : MemoryChunkStore) (manifests : gmap FileId TrustedManifest) (local : PeerId)
    : StagedReplica :=
  mkStagedReplica (rm_members metadata) (rm_denied metadata) (rm_historical_members metadata)
    (rm_identity_documents metadata) tree chunks manifests (controls_of (rm_log metadata))
    (rm_log metadata) (ack_of (rm_bootstrap_through metadata) local).

(** [MemberReplica::open_durable]; the lock on the data directory is not modelled. *)
Definition member_open (root : FileId) (host_id : PeerId) (initial_members : gset PeerId)
    : SM World MemberReplica :=
  do! (stored, chunks) := durable_open root in
  do! local := keys ks_peer in
  let metadata := match stored with
                  | Some metadata => metadata
                  | None => set_rm_members initial_members (ReplicaMetadata_new root)
                  end in
  check! bool_decide (host_id ∈ rm_members metadata) && bool_decide (local ∈ rm_members metadata)
    else AuthenticationFailed in
  check! bool_decide (rm_mailboxes metadata = ∅)
    else InvalidInput "host replica cannot be opened as a member" in
  do! manifests := keys (verified_manifests metadata) in
  do! tree := sm_lift (from_dirents root (rm_dirents metadata)) in
  λ w,
    let m := mkMemberReplica w host_id (loaded_replica metadata tree chunks manifests local) [] []
               root (ack_of (rm_acked_through metadata) local) in
    match (match stored with
           | Some _ => sm_ret tt
           | None => do! staged := stage in apply_staged staged
           end) m with
    | (Ok _, m) => (Ok m, mr_world m)
    | (Err e, m) => (Err e, mr_world m)
    end.

(** ** Membership *)

Definition add_members (members : gset PeerId) : SM MemberReplica unit :=
  do! m := sm_get in
  check! bool_decide (mr_host_id m ∈ members) else AuthenticationFailed in
  do! local := on_member_keys ks_peer in
  check! bool_decide (local ∈ members) else AuthenticationFailed in
  do! staged := stage in
  apply_staged (set_sr_historical_members (sr_historical_members staged ∪ members)
                  (set_sr_members (sr_members staged ∪ (members ∖ sr_denied staged)) staged)).

(** Public documents join the history a replica verifies old manifests with. *)
Definition add_history (staged : StagedReplica) (documents : list IdentityDocument)
    : Result StagedReplica :=
  foldl (λ staged document,
    let? staged := staged in
    let? _ := verify_identity document in
    Ok (set_sr_identity_documents
          (<[doc_peer_id document := document]> (sr_identity_documents staged))
          (set_sr_historical_members ({[doc_peer_id document]} ∪ sr_historical_members staged) staged)))
    (Ok staged) documents.

Definition learn_history (documents : list IdentityDocument) : SM MemberReplica unit :=
  do! m := sm_get in
  if forallb (λ d, bool_decide (sr_identity_documents (mr_replica m) !! doc_peer_id d = Some d))
       documents
  then sm_ret tt
  else
    do! staged := stage in
    do! staged := sm_lift (add_history staged documents) in
    apply_staged staged.

Definition reconcile_members (members denied : gset PeerId) : SM MemberReplica unit :=
  do! m := sm_get in
  check! bool_decide (mr_host_id m ∈ members) else AuthenticationFailed in
  do! local := on_member_keys ks_peer in
  check! bool_decide (local ∈ members) && bool_decide (members ## denied)
         && negb (bool_decide (mr_host_id m ∈ denied)) else AuthenticationFailed in
  if bool_decide (sr_members (mr_replica m) = members) && bool_decide (sr_denied (mr_replica m) = denied)
  then sm_ret tt
  else
    do! staged := stage in
    check! bool_decide (sr_denied staged ⊆ denied) else AuthenticationFailed in
    apply_staged (set_sr_denied denied
                    (set_sr_historical_members (sr_historical_members staged ∪ members)
                       (set_sr_members members staged))).

(** ** Live controls *)

Definition check_header_for_session (header : PacketHeader) (session : PairSession)
    : SM MemberReplica unit :=
  do! m := sm_get in
  check! bool_decide (ps_peer_id session = mr_host_id m)
         && bool_decide (hdr_sender_id header = mr_host_id m) else AuthenticationFailed in
  do! local := on_member_keys ks_peer in
  check! bool_decide (hdr_receiver_id header = local)
         && bool_decide (hdr_version header = PROTOCOL_VERSION)
         && bool_decide (hdr_epoch header = KeyStore.ps_epoch session) else AuthenticationFailed in
  sm_ret tt.

(** An authenticated record, staged and published. *)
Definition apply_record (record : ControlRecord) : SM MemberReplica unit :=
  do! m := sm_get in
  do! staged := stage in
  do! (_, staged) := on_member_keys (stage_control (mr_host_id m) staged record) in
  apply_staged staged.

Definition apply_control (packet : ControlPacket) : SM MemberReplica unit :=
  do! m := sm_get in
  do! _ := on_member_keys (require_live_traffic (mr_host_id m)) in
  do! session := on_member_keys (current_session (mr_host_id m)) in
  do! _ := check_header_for_session (cp_header packet) session in
  if bool_decide (packet ∈ mr_online_receipts m) then sm_ret tt
  else
    do! session := on_member_keys (current_session (mr_host_id m)) in
    do! plaintext := on_member_keys (open_packet session (cp_header packet) (cp_ciphertext packet)) in
    do! record := sm_lift (decode_control_record plaintext) in
    do! _ := apply_record record in
    member_update (λ m, set_mr_online_receipts (mr_online_receipts m ++ [packet]) m).

Definition apply_authenticated_control (record : ControlRecord) : SM MemberReplica unit :=
  do! m := sm_get in
  do! _ := on_member_keys (require_live_traffic (mr_host_id m)) in
  apply_record record.

(** ** Draining a mailbox *)

(** The variables of the loop over the envelopes. *)
Record Drain := mkDrain {
  dr_staged : StagedReplica;
  dr_controls : N;
  dr_last_packet : option u64;
  dr_last_chunk : option u64;
  dr_bodies : list (FileId * u64 * bytes);
  dr_saw_bootstrap_end : bool;
}.

(** What the bootstrap coverage of an offer means for this replica: nothing new, or a fresh start. *)
Definition begin_bootstrap (root : FileId) (last_applied : u64) (staged : StagedReplica)
    (bootstrap_through : option u64) : Result (option u64 * StagedReplica) :=
  match bootstrap_through with
  | None => Ok (None, staged)
  | Some through =>
      if bool_decide (through = sr_bootstrap_through staged) then Ok (None, staged)
      else if (u64_N through <? u64_N (sr_bootstrap_through staged))
              || (u64_N through <? u64_N last_applied)
      then Err AuthenticationFailed
      else if negb (u64_N last_applied =? 0) then Err AuthenticationFailed
      else
        Ok (Some through,
            set_sr_log [] (set_sr_controls ∅ (set_sr_manifests ∅
              (set_sr_tree (DirectoryTree_new root) staged))))
  end.

Definition find_receipt (envelope : MailboxEnvelope) (receipts : list (MailboxEnvelope * Opened))
    : option Opened :=
  snd <$> List.find (λ p, bool_decide (p.1 = envelope)) receipts.

(** The content of an envelope not opened before. *)
Definition open_frame (session : PairSession) (header : PacketHeader) (staged : StagedReplica)
    (frame : MailboxFrame) : SM StoreInner Opened :=
  match frame with
  | FControl ciphertext =>
      do! plaintext := open_packet session header ciphertext in
      do! record := sm_lift (decode_control_record plaintext) in
      sm_ret (OControl record)
  | FChunkBody file_id index ciphertext =>
      do! trusted := sm_lift (ok_or (sr_manifests staged !! file_id) AuthenticationFailed) in
      do! plaintext := open_chunk session (mkChunkBodyFrame header file_id index ciphertext) trusted in
      sm_ret (OChunk file_id index plaintext)
  end.

(** Numbers of one kind of frame must rise. *)
Definition note_counter (frame : MailboxFrame) (n : u64) (d : Drain) : Result Drain :=
  let last := match frame with FControl _ => dr_last_packet d | FChunkBody _ _ _ => dr_last_chunk d end in
  if match last with Some last => u64_N n <=? u64_N last | None => false end
  then Err (State "mailbox counters are not in queued order")
  else Ok match frame with
          | FControl _ =>
              mkDrain (dr_staged d) (dr_controls d) (Some n) (dr_last_chunk d) (dr_bodies d)
                (dr_saw_bootstrap_end d)
          | FChunkBody _ _ _ =>
              mkDrain (dr_staged d) (dr_controls d) (dr_last_packet d) (Some n) (dr_bodies d)
                (dr_saw_bootstrap_end d)
          end.

Definition names_chunk (manifests : gmap FileId TrustedManifest) (file_id : FileId) (index : u64)
    (id : ChunkId) : bool :=
  bool_decide ((manifests !! file_id ≫= λ t, manifest_slot t index) = Some id).

(** The content's effect on the staged replica; bodies wait until every record is applied. *)
Definition drain_opened (host_id : PeerId) (installing : option u64) (d : Drain) (opened : Opened)
    : SM StoreInner Drain :=
  match opened with
  | OControl record =>
      let accepted_snapshot := match installing with
                               | Some through => u64_N (cr_id record) <=? u64_N through
                               | None => false
                               end in
      let saw_end := dr_saw_bootstrap_end d
        || (accepted_snapshot && bool_decide (installing = Some (cr_id record))) in
      do! (new, staged) := stage_control_mode host_id accepted_snapshot (dr_staged d) record in
      sm_ret (mkDrain staged (if new : bool then dr_controls d + 1 else dr_controls d)
                (dr_last_packet d) (dr_last_chunk d) (dr_bodies d) saw_end)
  | OChunk file_id index plaintext =>
      check! names_chunk (sr_manifests (dr_staged d)) file_id index (chunk_id file_id index plaintext)
        else AuthenticationFailed in
      sm_ret (mkDrain (dr_staged d) (dr_controls d) (dr_last_packet d) (dr_last_chunk d)
                (dr_bodies d ++ [(file_id, index, plaintext)]) (dr_saw_bootstrap_end d))
  end.

Definition drain_envelope (session : PairSession) (installing : option u64) (d : Drain)
    (envelope : MailboxEnvelope) : SM MemberReplica Drain :=
  let header := mkPacketHeader PROTOCOL_VERSION (env_sender_id envelope) (env_recipient_id envelope)
                  (env_epoch envelope) (env_seq envelope) in
  do! _ := check_header_for_session header session in
  do! frame := sm_lift (decode_mailbox_frame (env_ciphertext envelope)) in
  do! d := sm_lift (note_counter frame (env_seq envelope) d) in
  do! m := sm_get in
  do! opened := (match find_receipt envelope (mr_receipts m) with
                 | Some opened => sm_ret opened
                 | None => on_member_keys (open_frame session header (dr_staged d) frame)
                 end) in
  do! _ := member_update (λ m,
    match find_receipt envelope (mr_receipts m) with
    | Some _ => m
    | None => set_mr_receipts (mr_receipts m ++ [(envelope, opened)]) m
    end) in
  on_member_keys (drain_opened (mr_host_id m) installing d opened).

(** A body still named by the replica's manifests, of a file still linked. *)
Definition drain_body (acc : StagedReplica * N) (body : FileId * u64 * bytes)
    : SM MemberReplica (StagedReplica * N) :=
  let '(staged, written) := acc in
  let '(file_id, index, plaintext) := body in
  let id := chunk_id file_id index plaintext in
  if negb (names_chunk (sr_manifests staged) file_id index id) then sm_ret acc
  else if negb (is_linked_file (sr_tree staged) file_id) then sm_ret acc
  else if chunk_has id (sr_chunks staged) then sm_ret acc
  else
    do! (_, chunks) := on_member_world (chunk_put file_id index plaintext (sr_chunks staged)) in
    sm_ret (set_sr_chunks chunks staged, written + 1).

(** The end of a preparation: the bodies, and the coverage of a complete bootstrap. *)
Definition end_drain (installing : option u64) (d : Drain)
    : SM MemberReplica (StagedReplica * FlushReport) :=
  do! (staged, written) := sm_fold drain_body (dr_bodies d) (dr_staged d, 0) in
  do! staged := (match installing with
                 | Some through =>
                     check! dr_saw_bootstrap_end d else AuthenticationFailed in
                     sm_ret (set_sr_bootstrap_through through staged)
                 | None => sm_ret staged
                 end) in
  sm_ret (staged, mkFlushReport (dr_controls d) written).

Definition prepare_mailbox_for_session (envelopes : list MailboxEnvelope)
    (history : list IdentityDocument) (bootstrap_through : option u64) (session : PairSession)
    : SM MemberReplica PreparedReplicaFlush :=
  do! m := sm_get in
  check! bool_decide (ps_peer_id session = mr_host_id m) else AuthenticationFailed in
  do! _ := member_update (λ m, set_mr_receipts (filter (λ p, p.1 ∈ envelopes) (mr_receipts m)) m) in
  do! staged := stage in
  do! (installing, staged) := sm_lift
    (begin_bootstrap (mr_expected_root m) (mr_last_applied m) staged bootstrap_through) in
  do! staged := sm_lift (add_history staged history) in
  do! d := sm_fold (drain_envelope session installing) envelopes
             (mkDrain staged 0 None None [] (bool_decide (installing = Some u64_zero))) in
  do! (staged, report) := end_drain installing d in
  do! local := on_member_keys ks_peer in
  sm_ret (mkPreparedReplicaFlush local (mr_host_id m) (sr_controls (mr_replica m)) staged report).

Definition prepare_mailbox_with_bootstrap (envelopes : list MailboxEnvelope)
    (history : list IdentityDocument) (bootstrap_through : option u64)
    : SM MemberReplica PreparedReplicaFlush :=
  do! m := sm_get in
  do! session := on_member_keys (current_session (mr_host_id m)) in
  prepare_mailbox_for_session envelopes history bootstrap_through session.

Definition commit_prepared (prepared : PreparedReplicaFlush) : SM MemberReplica FlushReport :=
  do! m := sm_get in
  do! local := on_member_keys ks_peer in
  check! bool_decide (prf_peer_id prepared = local) && bool_decide (prf_host_id prepared = mr_host_id m)
         && bool_decide (prf_base_controls prepared = sr_controls (mr_replica m))
    else State "replica changed before prepared flush commit" in
  do! _ := apply_staged (prf_staged prepared) in
  sm_ret (prf_report prepared).

Definition finish_receipts : SM MemberReplica unit := member_update (set_mr_receipts []).

(** ** Eviction *)

Definition pins (file_id : FileId) (content : QueueContent) : bool :=
  match content with QChunk queued _ _ => bool_decide (queued = file_id) | QControl _ => false end.

Definition evict_file (file_id : FileId) : SM MemberReplica N :=
  do! local := on_member_keys ks_peer in
  do! m := sm_get in
  let members := sr_members (mr_replica m) in
  check! negb (bool_decide (local = mr_host_id m)) && bool_decide (local ∈ members)
         && bool_decide (mr_host_id m ∈ members) else State "replica is not a live member with H" in
  let store := sr_chunks (mr_replica m) in
  do! _ := on_member_keys (current_session (mr_host_id m)) in
  do! _ := on_member_keys (require_live_traffic (mr_host_id m)) in
  do! metadata := sm_lift (ok_or (mc_metadata store) (State "replica metadata is unavailable")) in
  check! negb (existsb (existsb (pins file_id)) (map_values (rm_mailboxes metadata)))
    else State "mailbox pins file chunks" in
  let removed := file_chunk_count file_id store in
  let staged := chunks_remove_file file_id store in
  do! metadata := sm_lift (ok_or (mc_metadata staged) (State "replica metadata is unavailable")) in
  do! staged := on_member_world (persist_metadata metadata staged) in
  do! _ := member_update (λ m, set_mr_replica (set_sr_chunks staged (mr_replica m)) m) in
  sm_ret removed.
End oracle.
End member.

(** ** A flush within one process *)

Section flush.
Context `{Sha256, MlDsa65, XWing, AesGcm, HkdfSha256}.
(** The host's and the member's machine. *)
Variables oracle_host oracle_member : Oracle.

Definition on_host {A} (m : SM HostService A) : SM (HostService * MemberReplica) A :=
  sm_zoom fst (λ h p, (h, p.2)) m.
Definition on_member {A} (m : SM MemberReplica A) : SM (HostService * MemberReplica) A :=
  sm_zoom snd (λ r p, (p.1, r)) m.

Definition flush_mailbox (challenge : FlushChallenge) (signature : bytes)
    : SM (HostService * MemberReplica) FlushReport :=
  do! _ := on_host require_running in
  do! peer := on_member (on_member_keys ks_peer) in
  do! _ := on_host (require_member peer) in
  do! p := sm_get in
  let host_id := st_host_id (hs_state p.1) in
  check! bool_decide (mr_host_id p.2 = host_id)
         && bool_decide (hs_challenges p.1 !! peer = Some challenge) else AuthenticationFailed in
  do! session_m := on_member (on_member_keys (current_session host_id)) in
  do! session_h := on_host (on_keys (current_session peer)) in
  check! bool_decide (KeyStore.ps_epoch session_m = KeyStore.ps_epoch session_h)
    else State "finish the current pair wrap before mailbox flush" in
  do! prepared := on_host (prepare_flush peer challenge signature) in
  do! p := sm_get in
  let owner := st_gate_owner (hs_state p.1) in
  do! _ := on_member (on_member_keys (block_live_traffic host_id owner)) in
  do! staged := on_member (prepare_mailbox_with_bootstrap (H4 := oracle_member)
    (phf_envelopes prepared) (historical_documents p.1) (phf_bootstrap_through prepared)) in
  do! report := on_member (commit_prepared (H4 := oracle_member) staged) in
  do! _ := on_member finish_receipts in
  do! _ := on_host (acknowledge_flush (H4 := oracle_host) peer prepared) in
  do! _ := on_member (on_member_keys (unblock_live_traffic host_id owner)) in
  sm_ret report.
End flush.
