(* ===== verification/HostFrame.v ===== *)
(** * What the host's methods leave unchanged

    A failed method and a refresh of the mailboxes change ciphertexts only: [same_content] and
    [quiet].  Publishing a staged state either leaves the service as it was or makes [published]
    of that state its state. *)
From S2P Require Export HostOps Durable.
From Stdlib Require Import Lia ZifyN ZifyNat.

Open Scope N_scope.

(** ** States that differ in ciphertexts only *)

Definition online_records (online : gmap PeerId (list OnlineControl))
    : gmap PeerId (list ControlRecord) := (λ l : list OnlineControl, oc_record <$> l) <$> online.

Definition same_content (s s' : HostState) : Prop :=
  queue_contents (st_mailboxes s') = queue_contents (st_mailboxes s)
  ∧ online_records (st_online s') = online_records (st_online s)
  ∧ s' = set_st_mailboxes (st_mailboxes s') (set_st_online (st_online s') s).

#[export] Instance same_content_preorder : PreOrder same_content.
Proof.
  split; [by intros []|]. intros a b c (Hm & Ho & Hb) (Hm' & Ho' & Hc).
  split_and!; [congruence|congruence|]. rewrite Hc, Hb. by destruct a.
Qed.

(** Only ciphertexts and what lies outside the service may have changed. *)
Definition quiet (h h' : HostService) : Prop :=
  same_content (hs_state h) (hs_state h')
  ∧ h' = set_hs_world (hs_world h') (set_hs_state (hs_state h') h).

#[export] Instance quiet_preorder : PreOrder quiet.
Proof.
  split; [by intros []|]. intros a b c (Hs & Hb) (Hs' & Hc). split; [by etransitivity|].
  rewrite Hc, Hb. by destruct a.
Qed.

Lemma quiet_world w h : quiet h (set_hs_world w h).
Proof. split; [|by destruct h]. cbn. reflexivity. Qed.

Lemma fmap_alter_same {A B} (f : A → B) (g : A → A) (k : PeerId) (m : gmap PeerId A) :
  (∀ x, f (g x) = f x) → f <$> alter g k m = f <$> m.
Proof.
  intros Hg. apply map_eq. intros p. rewrite !lookup_fmap.
  destruct (decide (k = p)) as [<-|Hne]; [|by rewrite lookup_alter_ne].
  rewrite lookup_alter_eq. destruct (m !! k); [|done]. cbn. by rewrite Hg.
Qed.

Lemma list_fmap_alter_same {A B} (f : A → B) (g : A → A) i (l : list A) :
  (∀ x, l !! i = Some x → f (g x) = f x) → f <$> alter g i l = f <$> l.
Proof.
  revert i. induction l as [|x l IH]; intros [|i] Hg; [done|done| |].
  - cbn. by rewrite Hg.
  - cbn. f_equal. by apply IH.
Qed.

Section host.
Context `{Sha256, MlDsa65, XWing, AesGcm, HkdfSha256}.

(** ** Steps outside the state *)

Lemma on_world_wp {A} (m : SM World A) (Q : A → HostService → Prop) E h :
  (∀ x w, m (hs_world h) = (Ok x, w) → Q x (set_hs_world w h)) →
  (∀ w, E (set_hs_world w h)) → wp (on_world m) Q E h.
Proof.
  intros HQ HE. apply wp_zoom. unfold wp. destruct (m (hs_world h)) as [[x|e] w]; auto.
Qed.

Lemma on_keys_wp {A} (m : SM StoreInner A) (Q : A → HostService → Prop) E h :
  (∀ x k k', m k = (Ok x, k') → Q x (set_hs_world (set_w_keys k' (hs_world h)) h)) →
  (∀ w, E (set_hs_world w h)) → wp (on_keys m) Q E h.
Proof.
  intros HQ HE. apply on_world_wp; [|done]. intros x w Hm. unfold keys, sm_zoom in Hm.
  destruct (m (w_keys (hs_world h))) as [r k'] eqn:Hk. injection Hm as -> <-. by eapply HQ.
Qed.

(** A step outside the state is quiet; so is anything that follows from it. *)
Lemma on_world_quiet {A} (m : SM World A) h :
  wp (on_world m) (λ _ h', quiet h h') (quiet h) h.
Proof. apply on_world_wp; intros; apply quiet_world. Qed.

Lemma on_keys_quiet {A} (m : SM StoreInner A) h :
  wp (on_keys m) (λ _ h', quiet h h') (quiet h) h.
Proof. apply on_keys_wp; intros; apply quiet_world. Qed.

Lemma require_running_wp (Q : unit → HostService → Prop) (E : HostService → Prop) h :
  (hs_running h = true → Q tt h) → E h → wp require_running Q E h.
Proof. intros HQ HE. apply wp_bind, wp_get, wp_if; intros Hr; [|exact HE]. by apply wp_ret, HQ. Qed.

Lemma require_member_wp peer (Q : unit → HostService → Prop) (E : HostService → Prop) h :
  (peer ∈ st_members (hs_state h) → Q tt h) → E h → wp (require_member peer) Q E h.
Proof.
  intros HQ HE. apply wp_bind, wp_get, wp_if; intros Hr; [|exact HE].
  apply bool_decide_eq_true in Hr. by apply wp_ret, HQ.
Qed.

(** Steps that change the world only. *)
Definition framed (h h' : HostService) : Prop := ∃ w, h' = set_hs_world w h.

#[export] Instance framed_preorder : PreOrder framed.
Proof.
  split; [intros []; by eexists|]. intros a b c [w ->] [w' ->]. exists w'. by destruct a.
Qed.

Lemma framed_quiet h h' : framed h h' → quiet h h'.
Proof. intros [w ->]. apply quiet_world. Qed.

Lemma on_world_framed {A} (m : SM World A) (Q : A → HostService → Prop) (E : HostService → Prop) h h1 :
  framed h h1 → (∀ x h2, framed h h2 → Q x h2) → (∀ h2, framed h h2 → E h2) →
  wp (on_world m) Q E h1.
Proof.
  intros [w ->] HQ HE. apply on_world_wp; intros; [apply HQ|apply HE]; eexists; by destruct h.
Qed.

Lemma on_keys_framed {A} (m : SM StoreInner A) (Q : A → HostService → Prop) (E : HostService → Prop) h h1 :
  framed h h1 → (∀ x h2, framed h h2 → Q x h2) → (∀ h2, framed h h2 → E h2) →
  wp (on_keys m) Q E h1.
Proof. apply on_world_framed. Qed.

Lemma wp_quiet {A} (m : SM HostService A) (Q : A → HostService → Prop) (E : HostService → Prop) h h1 :
  quiet h h1 → wp m (λ _ h', quiet h1 h') (quiet h1) h1 →
  (∀ x h2, quiet h h2 → Q x h2) → (∀ h2, quiet h h2 → E h2) → wp m Q E h1.
Proof.
  intros Hq Hm HQ HE. eapply wp_mono; [exact Hm| |]; cbn beta; intros.
  - apply HQ. by etransitivity.
  - apply HE. by etransitivity.
Qed.

Lemma refresh_entry_quiet peer session i h :
  wp (refresh_entry peer session i) (λ _ h', quiet h h') (quiet h) h.
Proof.
  apply wp_bind, wp_get. destruct (_ !! i) as [entry|]; [|by apply wp_ret].
  apply wp_if; intros _; [by apply wp_ret|]. apply wp_bind.
  eapply wp_mono; [apply on_keys_quiet| |done]. cbn beta. intros envelope h1 Hq.
  unfold wp, update_state, update. etransitivity; [exact Hq|].
  split; [|by destruct h1 as [w [] ? ? ? ? ? ? ? ?]]. cbn. split; [|split; [done|by destruct (hs_state h1)]].
  cbn. unfold queue_contents. apply fmap_alter_same. intros l. by apply list_fmap_alter_same.
Qed.

Lemma refresh_mailboxes_quiet h :
  wp refresh_mailboxes (λ _ h', quiet h h' ∧ hs_running h = true) (quiet h) h.
Proof.
  apply wp_bind, require_running_wp; [|reflexivity]. intros Hr. apply wp_bind, wp_get.
  eapply wp_mono with (Q := λ _, quiet h) (E := quiet h); [|by auto|done].
  apply wp_each; [reflexivity|]. intros peer h1 _ Hq. apply wp_bind, wp_get.
  apply wp_if; intros _; [by apply wp_ret|].
  apply wp_bind, (wp_quiet _ _ _ h); [done|apply on_keys_quiet|intros _ h2 Hh2|done].
  apply wp_bind, (wp_quiet _ _ _ h); [done|apply on_keys_quiet|intros session h3 Hh3|done].
  apply wp_bind. eapply wp_mono with (Q := λ _, quiet h) (E := quiet h); [|clear h3 Hh3|done].
  { apply wp_if; intros _; [|by apply wp_ret].
    apply wp_bind, (wp_quiet _ _ _ h); [done|apply on_keys_quiet|intros n h4 Hh4|done].
    apply wp_if; intros _; done. }
  cbn beta. intros _ h4 Hh4. apply wp_each; [done|]. intros i h5 _ Hh5.
  by apply (wp_quiet _ _ _ h); [|apply refresh_entry_quiet| |].
Qed.

(** ** Publishing *)

(** The state a staged state becomes. *)
Definition published (documents : gmap PeerId IdentityDocument) (chunks : MemoryChunkStore)
    (staged : HostState) : HostState :=
  set_st_chunks chunks (truncate_acked (sync_admission
    (set_st_historical_members (st_historical_members staged ∪ st_members staged)
       (set_st_identity_documents documents staged)))).

(** The store under a snapshot of [m]: it may drop chunks that [m] does not retain. *)
Record kept (m : ReplicaMetadata) (s s' : MemoryChunkStore) : Prop := {
  kept_sub : mc_chunks s' ⊆ mc_chunks s;
  kept_retained id r : id ∈ retain_ids m → mc_chunks s !! id = Some r → mc_chunks s' !! id = Some r;
  kept_metadata : ∃ index, mc_metadata s' = Some (set_rm_chunk_index index m);
}.

Lemma kept_set_metadata m s : kept m s (set_metadata m s).
Proof. split; [done|done|]. exists (rm_chunk_index m). by destruct m. Qed.

Lemma kept_snapshot m s : kept m s (snapshot_of m s).
Proof.
  split; cbn; [apply map_filter_subseteq| |by eexists].
  intros id r Hid Hr. by apply map_lookup_filter_Some.
Qed.

Section oracle.
Context `{Oracle}.

Lemma persist_snapshot_kept write m s w :
  wp (persist_snapshot write m s) (λ s' _, kept m s s') (λ _, True) w.
Proof.
  unfold persist_snapshot. apply wp_bind. unfold durable_get, wp at 1.
  apply wp_if; intros _; [|done]. apply wp_if; intros _; [done|]. apply wp_if; intros _; [|done].
  apply wp_if; intros _; [|done]. apply wp_bind, wp_lift; [intros g _|done].
  apply wp_bind, wp_lift; [intros l _|done]. apply wp_if; intros _; [|done].
  apply wp_bind, wp_catch. eapply wp_mono with (Q := λ _ _, True) (E := λ _, True);
    [unfold wp; by destruct (write l w) as [[]]| |intros w' _ e; done].
  intros _ w1 _. apply wp_bind. unfold durable_update, wp at 1.
  apply wp_bind, wp_catch, sweep_wp. intros w2 ids _ _ _ _.
  split; [|intros _]; apply wp_ret, kept_snapshot.
Qed.

Lemma persist_metadata_kept m s w :
  wp (persist_metadata m s) (λ s' _, kept m s s') (λ _, True) w.
Proof. apply wp_if; intros _; [apply persist_snapshot_kept|apply wp_ret, kept_set_metadata]. Qed.

Lemma persist_metadata_with_admission_kept m bs s w :
  wp (persist_metadata_with_admission m bs s) (λ s' _, kept m s s') (λ _, True) w.
Proof.
  apply wp_if; intros _; [apply persist_snapshot_kept|].
  apply wp_bind. unfold wp at 1. destruct (persist_files _ _ _ w) as [[[]|] w']; [|done].
  apply wp_ret, kept_set_metadata.
Qed.

(** What archiving adds to the documents: those of known peers, verified. *)
Definition archived (old new : gmap PeerId IdentityDocument) : Prop :=
  old ⊆ new ∧ ∀ p d, new !! p = Some d → old !! p = Some d ∨ verify_identity d = Ok tt.

Lemma archive_documents_archived members archive s :
  wp (archive_documents members archive) (λ new _, archived archive new) (λ _, True) s.
Proof.
  apply wp_fold; [split; auto|]. intros new peer s1 _ [Hsub Hnew]. unfold archive_document.
  apply wp_if; intros Hin; [by apply wp_ret|]. apply bool_decide_eq_false in Hin.
  rewrite <-eq_None_not_Some in Hin.
  apply wp_bind. unfold wp at 1. destruct (find_document peer s1) as [[[document|]|] s2]; [|by apply wp_ret|done].
  apply wp_bind, wp_lift; [|done]. intros [] Hv. apply wp_ret. split.
  - etransitivity; [exact Hsub|]. by apply insert_subseteq.
  - intros p d [[<- <-]|[_ Hp]]%lookup_insert_Some; auto.
Qed.

Lemma publish_wp staged h :
  wp (publish_state staged)
    (λ _ h', ∃ w documents chunks,
       h' = set_hs_world w (set_hs_state (published documents chunks staged) h)
       ∧ kept (host_metadata (published documents chunks staged)) (st_chunks staged) chunks
       ∧ archived (st_identity_documents staged) documents
       ∧ require_writer_documents (st_manifests staged) (st_log staged) documents = Ok tt)
    (λ h', ∃ w, h' = set_hs_world w h) h.
Proof.
  unfold publish_state. apply wp_bind.
  eapply wp_mono with (E := λ h', ∃ w, h' = set_hs_world w h)
    (Q := λ staged' h', ∃ w documents, h' = set_hs_world w h
      ∧ staged' = set_st_historical_members (st_historical_members staged ∪ st_members staged)
          (set_st_identity_documents documents staged)
      ∧ archived (st_identity_documents staged) documents
      ∧ require_writer_documents (st_manifests staged) (st_log staged) documents = Ok tt); [| |done].
  { apply on_keys_wp; [|by eexists]. intros staged' k k' Ha.
    refine (wp_Ok _ (λ staged' _, ∃ w documents, _ = set_hs_world w h ∧ _) (λ _, True) k staged' k' _ Ha).
    unfold archive_host. apply wp_bind. eapply wp_mono; [apply archive_documents_archived| |done].
    cbn beta. intros documents k1 Hd. apply wp_bind, wp_lift; [|done]. intros [] Hreq.
    apply wp_ret. by eexists _, documents. }
  cbn beta. intros staged' h1 (w & documents & -> & -> & Harch & Hreq).
  apply wp_bind, wp_get, wp_bind.
  set (s1 := truncate_acked _).
  eapply wp_mono with (E := λ h', ∃ w, h' = set_hs_world w h)
    (Q := λ next h', ∃ w, h' = set_hs_world w h ∧ kept (host_metadata s1) (st_chunks staged) next);
    [| |done].
  2: { cbn beta. intros next h2 (w2 & -> & Hk). unfold wp, update_state, update.
       exists w2, documents, next. by destruct h. }
  assert (Hend : ∀ (m : SM World MemoryChunkStore) w0,
    wp m (λ s' _, kept (host_metadata s1) (st_chunks staged) s') (λ _, True) w0 →
    wp (on_world m) (λ next h', ∃ w, h' = set_hs_world w h ∧ kept (host_metadata s1) (st_chunks staged) next)
      (λ h', ∃ w, h' = set_hs_world w h) (set_hs_world w0 h)).
  { intros m w0 Hm. apply on_world_wp.
    - intros x w' Hx. exists w'. split; [by destruct h|]. eapply wp_Ok in Hm; [|exact Hx]. exact Hm.
    - intros w'. exists w'. by destruct h. }
  apply wp_if; intros _.
  { apply wp_ret. exists w. split; [done|apply kept_set_metadata]. }
  destruct (if hs_admission_path _ then _ else _) as [admission|].
  - apply wp_bind, wp_lift; [|by eexists]. intros content _.
    apply Hend, persist_metadata_with_admission_kept.
  - apply Hend, persist_metadata_kept.
Qed.
End oracle.
End host.
