(* ===== verification/HostCommit.v ===== *)
(** * What a commit does to the vault

    [deliver] is the effect of a commit on one recipient's mailbox and pending controls, without
    the ciphertexts; [commit_step] is its effect on the whole state.  A commit that succeeds takes
    exactly that step; one that fails leaves the contents of the state as they were. *)
From S2P Require Export HostFrame.
From Stdlib Require Import Lia ZifyN ZifyNat.

Open Scope N_scope.

(** ** Delivery to one recipient *)

Definition body_of (file_id : FileId) (c : QueueContent) : Prop :=
  match c with QChunk f _ _ => f = file_id | QControl _ => False end.
Definition body_at (file_id : FileId) (index : u64) (c : QueueContent) : Prop :=
  match c with QChunk f i _ => f = file_id ∧ i = index | QControl _ => False end.
Definition outdated (current : Manifest) (bootstrap_pending : bool) (c : QueueContent) : Prop :=
  match c with
  | QChunk f i id =>
      f = mf_file_id current ∧ bootstrap_pending = false
      ∧ mf_chunk_ids current !! N.to_nat (u64_N i) ≠ Some id
  | QControl _ => False
  end.

#[export] Instance body_of_dec f c : Decision (body_of f c).
Proof. unfold body_of. destruct c; apply _. Defined.
#[export] Instance body_at_dec f i c : Decision (body_at f i c).
Proof. unfold body_at. destruct c; apply _. Defined.
#[export] Instance outdated_dec m b c : Decision (outdated m b c).
Proof. unfold outdated. destruct c; apply _. Defined.

(** Whether the manifest before had this chunk at this index. *)
Definition unchanged (prior : option TrustedManifest) (index : nat) (id : ChunkId) : bool :=
  match prior with
  | Some old => bool_decide (mf_chunk_ids (manifest old) !! index = Some id)
  | None => false
  end.

(** The bodies of a manifest from one index on, each replacing an older one at its index. *)
Fixpoint queue_slots (current : Manifest) (prior : option TrustedManifest) (index : nat)
    (ids : list ChunkId) (queue : list QueueContent) : list QueueContent :=
  match ids with
  | [] => queue
  | id :: ids =>
      queue_slots current prior (S index) ids
        (if unchanged prior index id then queue
         else
           let i := as_u64 index in
           filter (λ c, ¬ body_at (mf_file_id current) i c) queue
           ++ [QChunk (mf_file_id current) i id])
  end.

(** The mail of an absent recipient after a commit: what was pending, the record, the bodies. *)
Definition mail_after (s : HostState) (record : ControlRecord) (removed_file : option FileId)
    (peer : PeerId) (queue : list QueueContent) (pending : list ControlRecord)
    : list QueueContent :=
  let queue := queue ++ (QControl <$> pending) ++ [QControl record] in
  let queue := match removed_file with
               | Some file_id => filter (λ c, ¬ body_of file_id c) queue
               | None => queue
               end in
  match cr_update record with
  | NewManifest m =>
      queue_slots m (st_manifests s !! mf_file_id m) 0 (mf_chunk_ids m)
        (filter (λ c, ¬ outdated m (bool_decide (is_Some (st_bootstrap_through s !! peer))) c) queue)
  | _ => queue
  end.

(** Mail and pending controls of everyone after the recipients of a list were served; those in
    [live] got the record online. *)
Definition deliver (s : HostState) (record : ControlRecord) (removed_file : option FileId)
    (live : gset PeerId)
    (state : gmap PeerId (list QueueContent) * gmap PeerId (list ControlRecord)) (peer : PeerId)
    : gmap PeerId (list QueueContent) * gmap PeerId (list ControlRecord) :=
  let '(mail, online) := state in
  let pending := default [] (online !! peer) in
  if decide (peer ∈ live) then (mail, <[peer := pending ++ [record]]> online)
  else (<[peer := mail_after s record removed_file peer (default [] (mail !! peer)) pending]> mail,
        delete peer online).

Definition contents (s : HostState)
    : gmap PeerId (list QueueContent) * gmap PeerId (list ControlRecord) :=
  (queue_contents (st_mailboxes s), online_records (st_online s)).

Definition deliver_all (s : HostState) (record : ControlRecord) (removed_file : option FileId)
    (live : gset PeerId) (recipients : list PeerId) :=
  foldl (deliver s record removed_file live) (contents s) recipients.

(** Filters that look at contents only. *)
Lemma filter_content (P : Queued → Prop) (P' : QueueContent → Prop) `{∀ e, Decision (P e)}
    `{∀ c, Decision (P' c)} (l : list Queued) :
  (∀ e, P e ↔ P' (qd_content e)) → qd_content <$> filter P l = filter P' (qd_content <$> l).
Proof.
  intros HP. induction l as [|e l IH]; [done|]. rewrite fmap_cons, !filter_cons.
  destruct (decide (P e)) as [Hp|Hp]; destruct (decide (P' (qd_content e))) as [Hp'|Hp'];
    rewrite HP in Hp; try done; rewrite ?fmap_cons; by rewrite IH.
Qed.

Section commit.
Context `{Sha256, MlDsa65, XWing, AesGcm, HkdfSha256}.

Lemma queue_body_content session at_ chunks m prior queue (index : nat) id k :
  wp (queue_body session at_ chunks m prior queue (index, id))
    (λ queue' _, qd_content <$> queue'
       = (if unchanged prior index id then qd_content <$> queue
          else filter (λ c, ¬ body_at (mf_file_id m) (as_u64 index) c) (qd_content <$> queue)
               ++ [QChunk (mf_file_id m) (as_u64 index) id])) (λ _, True) k.
Proof.
  unfold queue_body.
  assert (Heq : (match prior with
    | Some old => negb (bool_decide (mf_chunk_ids (manifest old) !! index = Some id))
    | None => true end) = negb (unchanged prior index id)) by (by destruct prior).
  rewrite Heq, negb_involutive. apply wp_if; intros Hu; rewrite ?Hu; [by apply wp_ret|].
  apply wp_bind, wp_lift; [intros i Hi|done].
  assert (i = as_u64 index) as ->.
  { destruct (u64_of_N (N.of_nat index)) as [i'|] eqn:Hn; [|done]. injection Hi as ->.
    unfold as_u64. apply u64_of_N_Some in Hn. rewrite <-Hn, N.mod_small by apply u64_bound.
    by rewrite u64_of_N_u64_N. }
  apply wp_bind, wp_lift; [intros plaintext _|done]. apply wp_bind. unfold wp at 1.
  destruct (encrypt_at_send _ _ _ _ k) as [[frame|] k']; [|done].
  apply wp_bind, wp_lift; [intros envelope _|done]. apply wp_ret.
  rewrite fmap_app. cbn. f_equal. by apply filter_content.
Qed.

Lemma queue_bodies_content session at_ s peer m queue k0 :
  wp (queue_bodies session at_ s peer m queue)
    (λ queue' _, qd_content <$> queue'
       = queue_slots m (st_manifests s !! mf_file_id m) 0 (mf_chunk_ids m)
           (filter (λ c, ¬ outdated m (bool_decide (is_Some (st_bootstrap_through s !! peer))) c)
              (qd_content <$> queue))) (λ _, True) k0.
Proof.
  unfold queue_bodies. set (b := bool_decide (is_Some (st_bootstrap_through s !! peer))).
  rewrite <-(filter_content (λ e, ¬ obsolete m b e) (λ c, ¬ outdated m b c) queue) by done.
  assert (Hgen : ∀ ids n l k,
    wp (sm_fold (queue_body session at_ (st_chunks s) m (st_manifests s !! mf_file_id m))
          (imap (λ i x, ((n + i)%nat, x)) ids) l)
      (λ queue' _, qd_content <$> queue'
         = queue_slots m (st_manifests s !! mf_file_id m) n ids (qd_content <$> l)) (λ _, True) k);
    [|exact (Hgen (mf_chunk_ids m) 0%nat _ k0)].
  induction ids as [|id ids IH]; intros n l k; [by apply wp_ret|].
  rewrite imap_cons. cbn [sm_fold queue_slots]. rewrite Nat.add_0_r. apply wp_bind.
  eapply wp_mono; [apply queue_body_content| |done]. cbn beta. intros l' k' Hl'. rewrite <-Hl'.
  rewrite (imap_ext _ (λ i x, ((S n + i)%nat, x))); [apply IH|].
  intros i x _. cbn. f_equal. lia.
Qed.

Section oracle.
Context `{Oracle}.

(** ** One recipient *)

Definition prep_contents (p : Prep)
    : gmap PeerId (list QueueContent) * gmap PeerId (list ControlRecord) :=
  (queue_contents (pc_queues p), online_records (pc_online p)).

(** Who may have got a control online: those whose presence was noted. *)
Definition present (h : HostService) : gset PeerId := dom (hs_presence h).

Lemma presence_framed peer (Q : option N → HostService → Prop) (E : HostService → Prop) h h1 :
  framed h h1 → (∀ r h2, framed h h2 → (is_Some r → peer ∈ present h) → Q r h2) →
  (∀ h2, framed h h2 → E h2) → wp (presence peer) Q E h1.
Proof.
  intros Hf HQ HE. apply wp_bind, require_running_wp; [intros _|by apply HE].
  apply wp_bind, require_member_wp; [intros _|by apply HE]. apply wp_bind, wp_get.
  assert (Hp : hs_presence h1 = hs_presence h) by (by destruct Hf as [w ->]).
  destruct (hs_presence h1 !! peer) as [expires|] eqn:Hl; [|by apply wp_ret, HQ; [|intros []]].
  apply wp_bind, (on_world_framed _ _ _ h); [done| |done]. intros now h2 Hf2. apply wp_ret, HQ; [done|].
  intros _. apply elem_of_dom. rewrite <-Hp, Hl. by eexists.
Qed.

(** A preparation that has changed neither queues nor pending controls. *)
Definition same_prep (h : HostService) (p p' : Prep) : Prop :=
  framed h (pc_host p') ∧ pc_queues p' = pc_queues p ∧ pc_online p' = pc_online p.

Lemma same_prep_host h p p1 h2 : same_prep h p p1 → framed h h2 → same_prep h p (set_pc_host h2 p1).
Proof. by intros (_ & Hq & Ho). Qed.

Lemma on_keys_zoom {A} (m : SM StoreInner A) (R : A → Prop) (Q : A → Prep → Prop)
    (E : Prep → Prop) h p p1 :
  (∀ k, wp m (λ x _, R x) (λ _, True) k) → same_prep h p p1 →
  (∀ x p2, R x → same_prep h p p2 → Q x p2) → (∀ p2, framed h (pc_host p2) → E p2) →
  wp (in_host (on_keys m)) Q E p1.
Proof.
  intros Hm Hp HQ HE. pose proof Hp as ([w Hf] & _). apply wp_zoom, on_keys_wp.
  - intros x k k' Hx. apply HQ; [exact (wp_Ok _ _ _ _ _ _ (Hm k) Hx)|].
    apply same_prep_host; [done|]. rewrite Hf. eexists. by destruct h.
  - intros w'. apply HE. rewrite Hf. exists w'. by destruct h.
Qed.

Lemma lookup_queue_contents mailboxes peer :
  queue_contents mailboxes !! peer = (λ q : list Queued, qd_content <$> q) <$> mailboxes !! peer.
Proof. unfold queue_contents. by rewrite lookup_fmap. Qed.

Lemma default_queue_contents mailboxes peer :
  default [] (queue_contents mailboxes !! peer) = qd_content <$> default [] (mailboxes !! peer).
Proof. rewrite lookup_queue_contents. by destruct (mailboxes !! peer). Qed.

Lemma default_online_records online peer :
  default [] (online_records online !! peer) = oc_record <$> default [] (online !! peer).
Proof. unfold online_records. rewrite lookup_fmap. by destruct (online !! peer). Qed.

Lemma reseal_online_records session pending k :
  wp (sm_map (reseal_online session) pending)
    (λ pending' _, oc_record <$> pending' = oc_record <$> pending) (λ _, True) k.
Proof.
  revert k. induction pending as [|old pending IH]; intros k; [by apply wp_ret|]. cbn [sm_map].
  apply wp_bind. eapply wp_mono with (Q := λ new _, oc_record new = oc_record old) (E := λ _, True);
    [|cbn beta|done].
  { apply wp_if; intros _; [by apply wp_ret|]. apply wp_bind. unfold wp.
    by destruct (seal_control session (oc_record old) k) as [[]]. }
  intros new k1 Hnew. apply wp_bind. eapply wp_mono; [apply IH| |done]. cbn beta.
  intros news k2 Hnews. apply wp_ret. rewrite !fmap_cons. by rewrite Hnew, Hnews.
Qed.

Lemma requeue_content {S} pending (s : S) :
  wp (sm_map (λ old, sm_lift (requeue old)) pending)
    (λ moved s', s' = s ∧ qd_content <$> moved = QControl <$> (oc_record <$> pending)) (λ s', s' = s) s.
Proof.
  induction pending as [|old pending IH]; [by apply wp_ret|]. cbn [sm_map].
  apply wp_bind, wp_lift; [|done]. unfold requeue. intros q Hq.
  destruct (control_envelope _ _) as [envelope|]; [|done]. injection Hq as <-.
  apply wp_bind. eapply wp_mono; [apply IH| |done]. cbn beta. intros moved s' [-> Hm].
  apply wp_ret. split; [done|]. rewrite !fmap_cons. by rewrite Hm.
Qed.

Lemma queue_contents_insert peer queue mailboxes :
  queue_contents (<[peer := queue]> mailboxes)
  = <[peer := qd_content <$> queue]> (queue_contents mailboxes).
Proof. unfold queue_contents. by rewrite fmap_insert. Qed.

Lemma queue_contents_delete peer mailboxes :
  queue_contents (delete peer mailboxes) = delete peer (queue_contents mailboxes).
Proof. unfold queue_contents. by rewrite fmap_delete. Qed.

Lemma online_records_insert peer pending online :
  online_records (<[peer := pending]> online)
  = <[peer := oc_record <$> pending]> (online_records online).
Proof. unfold online_records. by rewrite fmap_insert. Qed.

Lemma online_records_delete peer online :
  online_records (delete peer online) = delete peer (online_records online).
Proof. unfold online_records. by rewrite fmap_delete. Qed.

(** The update a verified manifest belongs to. *)
Definition carries (update : ControlUpdate) (trusted : option TrustedManifest) : Prop :=
  match update with
  | NewManifest m => ∃ t, trusted = Some t ∧ manifest t = m
  | _ => True
  end.

Lemma prepare_recipient_wp record at_ removed_file trusted peer h p :
  framed h (pc_host p) → carries (cr_update record) trusted →
  wp (prepare_recipient record at_ removed_file trusted peer)
    (λ _ p', framed h (pc_host p') ∧ ∃ live, live ⊆ present h
       ∧ prep_contents p' = deliver (hs_state h) record removed_file live (prep_contents p) peer)
    (λ p', framed h (pc_host p')) p.
Proof.
  intros Hf Hcar. unfold prepare_recipient.
  assert (H0' : same_prep h p p) by done.
  apply wp_bind, wp_zoom, (presence_framed _ _ _ h); [done| |done]. intros seen h1 Hf1 Hpres.
  apply wp_bind. eapply wp_mono with (Q := λ _, same_prep h p) (E := λ p', framed h (pc_host p')); [|cbn beta|done].
  { apply wp_zoom, wp_try, (on_keys_framed _ _ _ h); [done|by intros; apply same_prep_host..]. }
  intros traffic p2 Hp2. set (live := match seen with Some _ => _ | None => _ end).
  assert (Hlive : live = true → peer ∈ present h).
  { unfold live. destruct seen; [intros _; apply Hpres; by eexists|done]. }
  clearbody live. apply wp_bind, wp_get.
  assert (hs_state (pc_host p2) = hs_state h) as Hs by (by destruct Hp2 as ([w ->] & _)). rewrite Hs.
  apply wp_bind. eapply wp_mono with (Q := λ _, same_prep h p) (E := λ p', framed h (pc_host p')); [|cbn beta|done].
  { apply wp_if; intros _; [by apply wp_ret|].
    apply wp_bind, (on_keys_zoom _ (λ _, True) _ _ h p); [intros; apply wp_any|done| |done].
    intros [] p3 _ (? & ? & ?). by split. }
  intros _ p3 Hp3.
  apply wp_bind, (on_keys_zoom _ (λ _, True) _ _ h p); [intros; apply wp_any|done| |done].
  intros session p4 _ Hp4. apply wp_bind.
  eapply wp_mono with (E := λ p', framed h (pc_host p'))
    (Q := λ pending p', same_prep h p p'
       ∧ oc_record <$> default [] pending = default [] ((prep_contents p).2 !! peer)); [|cbn beta|done].
  { destruct (id Hp2) as (_ & _ & Ho2). rewrite Ho2. cbn [prep_contents snd].
    rewrite default_online_records. destruct (pc_online p !! peer) as [pending|]; [|by apply wp_ret].
    apply wp_bind, (on_keys_zoom _ (λ pending', oc_record <$> pending' = oc_record <$> pending) _ _ h p);
      [intros; apply reseal_online_records|done| |done].
    intros pending' p5 Hr Hp5. by apply wp_ret. }
  intros pending p5 [Hp5 Hpend].
  apply wp_bind, (on_keys_zoom _ (λ _, True) _ _ h p); [intros; apply wp_any|done| |done].
  intros packet p6 _ Hp6. apply wp_if; intros Hl.
  { destruct Hp6 as (Hf6 & Hq6 & Ho6). split; [done|]. exists {[peer]}. split; [set_solver|].
    unfold deliver, prep_contents. cbn [pc_queues pc_online set_pc_online].
    rewrite decide_True by set_solver. rewrite Hq6, Ho6. f_equal.
    rewrite online_records_insert, fmap_app, Hpend. done. }
  apply wp_bind. eapply wp_mono; [apply requeue_content|cbn beta|intros p' ->; exact (proj1 Hp6)].
  intros moved p7 [-> Hmoved].
  apply wp_bind, wp_lift; [intros envelope _|intros _; exact (proj1 Hp6)].
  apply wp_bind. eapply wp_mono with (E := λ p', framed h (pc_host p'))
    (Q := λ queue p', same_prep h p p' ∧ qd_content <$> queue
       = mail_after (hs_state h) record removed_file peer
           (default [] ((prep_contents p).1 !! peer)) (default [] ((prep_contents p).2 !! peer)));
    [|cbn beta|done].
  2: { intros queue p8 [(Hf8 & Hq8 & Ho8) Hqueue]. split; [done|]. exists ∅. split; [set_solver|].
       unfold deliver, prep_contents. cbn [pc_queues pc_online set_pc_online set_pc_queues].
       rewrite decide_False by set_solver. rewrite Hq8, Ho8. f_equal; [|apply online_records_delete].
       by rewrite queue_contents_insert, Hqueue. }
  rewrite <-Hpend. cbn [prep_contents fst]. rewrite default_queue_contents.
  destruct (id Hp2) as (_ & Hq2 & _). rewrite <-Hq2.
  set (queue0 := match removed_file with Some _ => _ | None => _ end).
  assert (Hq0 : qd_content <$> queue0
    = match removed_file with
      | Some file_id => filter (λ c, ¬ body_of file_id c)
          ((qd_content <$> default [] (pc_queues p2 !! peer)) ++ (QControl <$> (oc_record <$> default [] pending)) ++ [QControl record])
      | None => (qd_content <$> default [] (pc_queues p2 !! peer)) ++ (QControl <$> (oc_record <$> default [] pending)) ++ [QControl record]
      end).
  { unfold queue0. destruct removed_file as [f|].
    - rewrite (filter_content _ (λ c, ¬ body_of f c)) by done. by rewrite !fmap_app, Hmoved.
    - by rewrite !fmap_app, Hmoved. }
  clearbody queue0. unfold mail_after. rewrite <-Hq0. clear Hq0.
  destruct (cr_update record) as [m| | | | | | |]; try by apply wp_ret.
  destruct Hcar as (t & -> & <-). apply wp_bind, wp_lift; [|intros _; exact (proj1 Hp6)].
  intros t' [= <-].
  eapply (on_keys_zoom _ _ _ _ h p); [intros k; apply queue_bodies_content|done| |done].
  intros queue p8 Hqueue Hp8. by split.
Qed.

(** ** All recipients *)

Lemma deliver_live s record removed_file live live' state peer :
  (peer ∈ live ↔ peer ∈ live') →
  deliver s record removed_file live state peer = deliver s record removed_file live' state peer.
Proof.
  intros Hl. unfold deliver. destruct state as [mail online].
  destruct (decide (peer ∈ live)), (decide (peer ∈ live')); tauto.
Qed.

Lemma foldl_deliver_live s record removed_file live live' state peers :
  (∀ peer, peer ∈ peers → peer ∈ live ↔ peer ∈ live') →
  foldl (deliver s record removed_file live) state peers
  = foldl (deliver s record removed_file live') state peers.
Proof.
  revert state. induction peers as [|peer peers IH]; intros state Hl; [done|]. cbn.
  rewrite (deliver_live _ _ _ live live') by (apply Hl; by left).
  apply IH. intros p Hp. apply Hl. by right.
Qed.

Lemma prepare_all_wp record at_ removed_file trusted peers h p :
  NoDup peers → framed h (pc_host p) → carries (cr_update record) trusted →
  wp (sm_each (prepare_recipient record at_ removed_file trusted) peers)
    (λ _ p', framed h (pc_host p') ∧ ∃ live, live ⊆ present h
       ∧ prep_contents p' = foldl (deliver (hs_state h) record removed_file live) (prep_contents p) peers)
    (λ p', framed h (pc_host p')) p.
Proof.
  intros Hnd Hf Hcar. revert p Hf. induction Hnd as [|peer peers Hni Hnd IH]; intros p Hf; cbn [sm_each].
  { apply wp_ret. split; [done|]. exists ∅. split; [set_solver|done]. }
  apply wp_bind. eapply wp_mono; [by apply prepare_recipient_wp| |done].
  cbn beta. intros _ p1 (Hf1 & live1 & Hl1 & Hp1).
  eapply wp_mono; [by apply IH| |done]. cbn beta. intros _ p2 (Hf2 & live2 & Hl2 & Hp2).
  split; [done|].
  exists ((live1 ∩ {[peer]}) ∪ (live2 ∖ {[peer]})). split; [set_solver|]. cbn [foldl].
  rewrite (deliver_live _ _ _ _ live1) by set_solver. rewrite <-Hp1, Hp2.
  apply foldl_deliver_live. set_solver.
Qed.

(** ** The whole state *)

Definition kick_member (target : PeerId) (s : HostState) : HostState :=
  set_st_denied ({[target]} ∪ st_denied s)
  (set_st_online (delete target (st_online s))
  (set_st_mailboxes (delete target (st_mailboxes s))
  (set_st_bootstrap_through (delete target (st_bootstrap_through s))
  (set_st_acked_through (delete target (st_acked_through s))
  (set_st_members (st_members s ∖ {[target]}) s))))).

(** A kick gives an admission record a new code and a later time. *)
Definition rotated_admission (old new : option VaultMetadata) : Prop :=
  match old, new with
  | None, None => True
  | Some a, Some b =>
      vm_vault_id b = vm_vault_id a ∧ u64_N (vm_issued_at a) < u64_N (vm_issued_at b)
      ∧ vm_members b = vm_members a ∧ vm_denied b = vm_denied a
  | _, _ => False
  end.

Definition admission_step (update : ControlUpdate) (old new : option VaultMetadata) : Prop :=
  match update with Kick _ => rotated_admission old new | _ => new = old end.

(** The staged state of a commit. *)
Definition staged_commit (record : ControlRecord) (trusted : option TrustedManifest)
    (tree : DirectoryTree) (removed_file : option FileId) (next : u64)
    (queues : gmap PeerId (list Queued)) (online : gmap PeerId (list OnlineControl))
    (admission : option VaultMetadata) (s : HostState) : HostState :=
  let s := set_st_tree tree s in
  let s := match cr_update record, trusted with
           | NewManifest m, Some t => set_st_manifests (<[mf_file_id m := t]> (st_manifests s)) s
           | _, _ => s
           end in
  let s := match removed_file with
           | Some f => set_st_manifests (delete f (st_manifests s))
                         (set_st_chunks (chunks_remove_file f (st_chunks s)) s)
           | None => s
           end in
  let s := set_st_online online (set_st_mailboxes queues s) in
  let s := match cr_update record with
           | Kick target => set_st_admission admission (kick_member target s)
           | _ => s
           end in
  let s := set_st_acked_through (<[st_host_id s := cr_id record]> (st_acked_through s)) s in
  set_st_next_control next (set_st_log (st_log s ++ [record]) s).

(** What publishing a staged state leaves. *)
Definition publishes (staged : HostState) (h h' : HostService) : Prop :=
  ∃ w documents chunks,
    h' = set_hs_world w (set_hs_state (published documents chunks staged) h)
    ∧ kept (host_metadata (published documents chunks staged)) (st_chunks staged) chunks
    ∧ archived (st_identity_documents staged) documents
    ∧ require_writer_documents (st_manifests staged) (st_log staged) documents = Ok tt.

Lemma publishes_framed staged h h1 h' : framed h h1 → publishes staged h1 h' → publishes staged h h'.
Proof.
  intros [w ->] (w' & documents & chunks & -> & Hp). exists w', documents, chunks.
  split; [by destruct h|exact Hp].
Qed.

Lemma set_admission_id s : set_st_admission (st_admission s) s = s.
Proof. by destruct s. Qed.

Lemma apply_kick_wp target rotated staged h h1 :
  framed h h1 →
  wp (apply_kick target rotated staged)
    (λ staged' h2, framed h h2 ∧ ∃ admission,
       rotated_admission (st_admission staged) admission
       ∧ staged' = set_st_admission admission (kick_member target staged))
    (framed h) h1.
Proof.
  intros Hf. unfold apply_kick. cbn [st_admission set_st_denied set_st_online set_st_mailboxes
    set_st_bootstrap_through set_st_acked_through set_st_members].
  destruct (st_admission staged) as [a|] eqn:Ha.
  2: { apply wp_ret. split; [done|]. exists None. split; [done|].
       rewrite <-Ha. by destruct staged. }
  apply wp_bind. eapply wp_mono with (Q := λ _, framed h) (E := framed h); [|cbn beta|done].
  { destruct rotated; [by apply wp_ret|]. by apply (on_world_framed _ _ _ h). }
  intros code h2 Hf2. apply wp_bind, (on_world_framed _ _ _ h); [done|intros now h3 Hf3|done].
  apply wp_bind, wp_lift; [intros after Hafter|done].
  apply wp_bind, wp_lift; [intros issued Hissued|done]. apply wp_ret. split; [done|].
  eexists. split; [|reflexivity]. cbn. split_and!; [done| |done|done].
  destruct (u64_checked_add (vm_issued_at a) 1) eqn:H1'; [|done]. injection Hafter as ->.
  destruct (u64_checked_add (u64_max now after) 1) eqn:H2'; [|done]. injection Hissued as ->.
  apply u64_checked_add_Some in H1', H2'. rewrite u64_max_N in H2'. lia.
Qed.

Lemma apply_commit_wp record trusted rotated tree removed_file next queues online h h1 :
  framed h h1 → carries (cr_update record) trusted →
  wp (apply_commit record trusted rotated tree removed_file next queues online)
    (λ _ h', ∃ admission, admission_step (cr_update record) (st_admission (hs_state h)) admission
       ∧ publishes (staged_commit record trusted tree removed_file next queues online admission
                      (hs_state h)) h h')
    (framed h) h1.
Proof.
  intros Hf Hcar. unfold apply_commit. apply wp_bind, wp_bind, wp_get, wp_ret.
  replace (hs_state h1) with (hs_state h) by (by destruct Hf as [w ->]).
  assert (Hpub : ∀ staged staged' h2, framed h h2 → staged = staged' →
    wp (publish_state staged) (λ _, publishes staged' h) (framed h) h2).
  { intros staged staged' h2 Hf2 <-. eapply wp_mono; [apply publish_wp| |].
    - cbn beta. intros _ h' Hp. by eapply publishes_framed.
    - cbn beta. intros h' Hw. etransitivity; [exact Hf2|exact Hw]. }
  assert (Hfin : ∀ staged admission h2, framed h h2 →
    admission_step (cr_update record) (st_admission (hs_state h)) admission →
    staged = staged_commit record trusted tree removed_file next queues online admission (hs_state h) →
    wp (publish_state staged)
      (λ _ h', ∃ admission, admission_step (cr_update record) (st_admission (hs_state h)) admission
         ∧ publishes (staged_commit record trusted tree removed_file next queues online admission
                        (hs_state h)) h h') (framed h) h2).
  { intros staged admission h2 Hf2 Hadm Hs. eapply wp_mono; [by apply Hpub| |done]. cbn beta.
    intros _ h' Hp. by exists admission. }
  clear Hpub. destruct (cr_update record) as [m| |target| | | | |] eqn:Hu;
    try (apply wp_bind, wp_ret, wp_bind, wp_ret; eapply Hfin; [done|reflexivity|];
         unfold staged_commit; rewrite Hu; reflexivity).
  - destruct Hcar as (t & -> & <-). apply wp_bind, wp_bind, wp_lift; [|intros _; exact Hf].
    intros t' [= <-]. apply wp_ret, wp_bind, wp_ret. eapply Hfin; [done|reflexivity|].
    unfold staged_commit; rewrite Hu; reflexivity.
  - apply wp_bind, wp_ret, wp_bind.
    eapply wp_mono; [by apply (apply_kick_wp _ _ _ h)|cbn beta|done].
    intros staged' h2 (Hf2 & admission & Hadm & ->). apply (Hfin _ admission); [done| |].
    + clear -Hadm. cbn. by destruct removed_file.
    + unfold staged_commit; rewrite Hu; reflexivity.
Qed.

(** What a commit that succeeds has done. *)
Definition commits (update : ControlUpdate) (trusted : option TrustedManifest)
    (h h' : HostService) : Prop :=
  let s := hs_state h in
  let record := mkControlRecord (st_next_control s) update in
  ∃ live tree removed_file next queues online admission,
    validate_link_kind (st_manifests s) update = Ok tt
    ∧ apply_tree_update (st_tree s) update = Ok (tree, removed_file)
    ∧ u64_checked_add (st_next_control s) 1 = Some next
    ∧ live ⊆ present h
    ∧ (queue_contents queues, online_records online)
      = deliver_all s record removed_file live (commit_recipients s update)
    ∧ admission_step update (st_admission s) admission
    ∧ publishes (staged_commit record trusted tree removed_file next queues online admission s) h h'.

Lemma reopen_gates_framed blocked h h1 :
  framed h h1 → wp (reopen_gates blocked) (λ _, framed h) (framed h) h1.
Proof.
  intros Hf. apply wp_each; [done|]. intros peer h2 _ Hf2. apply wp_bind, wp_get.
  apply wp_if; intros _; [by apply (on_keys_framed _ _ _ h)|by apply wp_ret].
Qed.

Lemma reopen_wp (Q : unit → HostService → Prop) blocked e h h1 :
  framed h h1 → wp (do! _ := reopen_gates blocked in sm_err e) Q (framed h) h1.
Proof.
  intros Hf. apply wp_bind. eapply wp_mono; [by apply reopen_gates_framed| |done]. done.
Qed.

Lemma deliver_same s s' record removed_file live state peer :
  st_manifests s = st_manifests s' → st_bootstrap_through s = st_bootstrap_through s' →
  deliver s record removed_file live state peer = deliver s' record removed_file live state peer.
Proof. intros Hm Hb. unfold deliver, mail_after. by rewrite Hm, Hb. Qed.

Lemma deliver_all_same s s' record removed_file live recipients :
  same_content s s' →
  deliver_all s' record removed_file live recipients = deliver_all s record removed_file live recipients.
Proof.
  intros (Hm & Ho & ->). unfold deliver_all, contents. cbn [st_mailboxes st_online set_st_mailboxes
    set_st_online] in *. rewrite Hm, Ho. generalize (queue_contents (st_mailboxes s), online_records (st_online s)).
  induction recipients as [|peer recipients IH]; intros state; [done|]. cbn [foldl].
  rewrite (deliver_same (set_st_mailboxes (st_mailboxes s') (set_st_online (st_online s') s)) s) by done. apply IH.
Qed.

Lemma staged_commit_same record trusted tree removed_file next queues online admission s s' :
  same_content s s' →
  staged_commit record trusted tree removed_file next queues online admission s'
  = staged_commit record trusted tree removed_file next queues online admission s.
Proof.
  intros (_ & _ & ->). unfold staged_commit, kick_member.
  destruct (cr_update record), trusted, removed_file; reflexivity.
Qed.

Lemma NoDup_sorted_elements (X : gset PeerId) : NoDup (sorted_elements X).
Proof. unfold sorted_elements. rewrite merge_sort_Permutation. apply NoDup_elements. Qed.

Lemma commit_verified_wp update trusted rotated h :
  carries update trusted →
  wp (commit_verified_with_code update trusted rotated)
    (λ _ h', commits update trusted h h') (quiet h) h.
Proof.
  intros Hcar. unfold commit_verified_with_code. apply wp_bind, wp_get.
  apply wp_bind, wp_lift; [intros [] Hkind|by intros]. 
  apply wp_bind, wp_lift; [intros [tree removed_file] Htree|by intros].
  apply wp_bind. eapply wp_mono; [apply refresh_mailboxes_quiet|cbn beta|done].
  intros _ h1 [Hq _]. apply wp_bind, wp_get.
  pose proof Hq as [Hsame Hh1]. pose proof Hsame as (_ & _ & Hs1).
  assert (st_next_control (hs_state h1) = st_next_control (hs_state h)) as -> by (by rewrite Hs1).
  assert (commit_recipients (hs_state h1) update = commit_recipients (hs_state h) update) as Hrec.
  { unfold commit_recipients. by rewrite Hs1. }
  apply wp_bind, wp_lift; [intros next Hnext|by intros].
  destruct (u64_checked_add _ 1) as [next'|] eqn:Hadd in Hnext; [|done]. injection Hnext as ->.
  apply wp_bind, (on_world_framed _ _ _ h1); [done|intros at_ h2 Hf2|].
  2: { intros h2 Hf2. etransitivity; [exact Hq|by apply framed_quiet]. }
  apply wp_bind. eapply wp_mono with (Q := λ _, framed h1) (E := framed h1).
  { apply wp_each; [done|]. intros peer h3 _ Hf3. by apply wp_bind, (on_keys_framed _ _ _ h1). }
  2: { intros h3 Hf3. etransitivity; [exact Hq|by apply framed_quiet]. }
  cbn beta. intros _ h3 Hf3. set (record := mkControlRecord _ update).
  pose proof (prepare_all_wp record at_ removed_file trusted (commit_recipients (hs_state h1) update) h1
    (mkPrep h3 (st_mailboxes (hs_state h1)) (st_online (hs_state h1)) [])) as Hprep.
  assert (Hq3 : ∀ h4, framed h1 h4 → quiet h h4).
  { intros h4 Hf4. etransitivity; [exact Hq|by apply framed_quiet]. }
  unfold wp. cbn [fst snd].
  specialize (Hprep (NoDup_filter _ _ (NoDup_sorted_elements _)) Hf3 Hcar). unfold wp in Hprep.
  destruct (sm_each _ _ _) as [[[]|error] p].
  2: { apply (wp_mono _ (λ _ _, False) _ (framed h1) _ (pc_host p)); [|done|exact Hq3].
       by apply reopen_wp. }
  destruct Hprep as (Hfp & live & Hlive & Hcontents).
  apply (wp_mono (sm_catch _ _) (λ _ h', ∃ admission,
      admission_step (cr_update record) (st_admission (hs_state h1)) admission
      ∧ publishes (staged_commit record trusted tree removed_file next (pc_queues p) (pc_online p)
                     admission (hs_state h1)) h1 h') _ (framed h1) _ (pc_host p)); [| |exact Hq3].
  { apply wp_catch. eapply wp_mono; [by apply (apply_commit_wp _ _ _ _ _ _ _ _ h1)|done|].
    intros h4 Hf4 e. by apply reopen_wp. }
  intros _ h' (admission & Hadm & Hpub).
  exists live, tree, removed_file, next, (pc_queues p), (pc_online p), admission.
  split_and!; try done.
  - etransitivity; [exact Hlive|]. unfold present. by rewrite Hh1.
  - fold record. change (queue_contents (pc_queues p), online_records (pc_online p)) with (prep_contents p).
    rewrite Hcontents. cbn [prep_contents pc_queues pc_online]. rewrite Hrec.
    by apply deliver_all_same.
  - by rewrite Hs1 in Hadm.
  - fold record. rewrite (staged_commit_same _ _ _ _ _ _ _ _ _ _ Hsame) in Hpub.
    destruct Hpub as (w & documents & chunks & -> & Hk). exists w, documents, chunks.
    split; [|exact Hk]. rewrite Hh1. by destruct h.
Qed.
End oracle.
End commit.
