(* ===== verification/HostInv.v ===== *)
(** * The invariant of a host

    [host_ok]: the tree is well formed, every committed file is held and is no directory, members
    and denied are disjoint, the log has consecutive numbers up to the last commit and still has
    every instruction that some member has not acknowledged, and what is on the way to a member
    comes in order.  Every commit and every publication
    preserves it. *)
From S2P Require Import TreePaths.
From S2P Require Export HostCommit.
From Stdlib Require Import Lia ZifyN ZifyNat.

Open Scope N_scope.

(** ** Tree updates *)

Lemma apply_tree_update_ok t u t' removed_file :
  tree_ok t → apply_tree_update t u = Ok (t', removed_file) →
  tree_ok t' ∧ tr_expected_root t' = tr_expected_root t.
Proof.
  intros Ht. assert (Hreach : tree_reachable (tr_expected_root t) t).
  { apply (reach_load _ (dirents t)). by apply from_dirents_dirents. }
  destruct u as [m|f|p|f|f|p n c d|p n|sp sn dp dn]; cbn.
  - destruct (is_dir t _); [done|]. by intros [= <- _].
  - by intros [= <- _].
  - by intros [= <- _].
  - by intros [= <- _].
  - destruct (remove_id t f) as [t1|] eqn:Hr; [|done]. intros [= <- _].
    by apply tree_reachable_ok, (reach_remove _ t f).
  - destruct (link t p n c d) as [t1|] eqn:Hl; [|done]. intros [= <- _].
    by apply tree_reachable_ok, (reach_link _ t p n c d).
  - destruct (unlink t p n) as [[t1 c]|] eqn:Hl; [|done]. intros [= <- _].
    by apply tree_reachable_ok, (reach_unlink _ t p n _ c).
  - destruct (rename t sp sn dp dn) as [t1|] eqn:Hl; [|done]. intros [= <- _].
    by apply tree_reachable_ok, (reach_rename _ t sp sn dp dn).
Qed.

Lemma is_dir_unlink t p n t' c f :
  unlink t p n = Ok (t', c) → is_dir t' f = true → is_dir t f = true.
Proof.
  intros (_ & e & He & _ & _ & ->)%unlink_Ok. apply is_dir_mono; [done|]. apply delete_subseteq.
Qed.

(** Only a link of a directory makes an id a directory. *)
Lemma apply_tree_update_dirs t u t' removed_file f :
  apply_tree_update t u = Ok (t', removed_file) → is_dir t' f = true →
  is_dir t f = true ∨ ∃ p n, u = Link p n f true.
Proof.
  destruct u as [m|f'|p|f'|f'|p n c d|p n|sp sn dp dn]; cbn.
  - destruct (is_dir t _); [done|]. intros [= <- _]. by left.
  - intros [= <- _]. by left.
  - intros [= <- _]. by left.
  - intros [= <- _]. by left.
  - destruct (remove_id t f') as [t1|] eqn:Hr; [|done]. intros [= <- _] Hd. left. revert Hr.
    unfold remove_id. case_bool_decide; [done|].
    destruct (List.find _ _) as [[[p n] e]|]; [|by intros [= ->]].
    destruct (unlink t p n) as [[t2 c]|] eqn:Hu; [|done]. intros [= ->]. by eapply is_dir_unlink.
  - destruct (link t p n c d) as [t1|] eqn:Hl; [|done]. intros [= <- _].
    apply link_Ok in Hl as (_ & _ & _ & _ & _ & _ & ->). rewrite !is_dir_true. cbn.
    intros [->|(k & e & [[<- <-]|[_ Hk]]%lookup_insert_Some & Hc & Hd)]; [by left; left| |].
    + cbn in Hc, Hd. subst. right. by exists p, n.
    + left. right. by exists k, e.
  - destruct (unlink t p n) as [[t1 c]|] eqn:Hl; [|done]. intros [= <- _] Hd. left.
    by eapply is_dir_unlink.
  - destruct (rename t sp sn dp dn) as [t1|] eqn:Hl; [|done]. intros [= <- _].
    apply rename_Ok in Hl as [(-> & _)|(_ & _ & _ & _ & e & He & _ & -> & _)]; [by left|].
    rewrite !is_dir_true. cbn. intros [->|(k & e' & [[<- <-]|[_ [_ Hk]%lookup_delete_Some]]%lookup_insert_Some & Hc & Hd)].
    + by left; left.
    + left. right. cbn in Hc, Hd. by exists (sp, sn), e.
    + left. right. by exists k, e'.
Qed.

(** An update adds at most one entry, and none together with a manifest. *)
Definition links_one (u : ControlUpdate) : nat := match u with Link _ _ _ _ => 1 | _ => 0 end.

Lemma size_delete_le {A} (m : gmap (FileId * text) A) k : (size (delete k m) ≤ size m)%nat.
Proof. rewrite map_size_delete. destruct (m !! k); cbn; lia. Qed.

Lemma apply_tree_update_size t u t' removed_file :
  apply_tree_update t u = Ok (t', removed_file) →
  (size (tr_entries t') ≤ size (tr_entries t) + links_one u)%nat.
Proof.
  assert (Hunlink : ∀ p n t1 c, unlink t p n = Ok (t1, c) → (size (tr_entries t1) ≤ size (tr_entries t))%nat).
  { intros p n t1 c (_ & e & _ & _ & _ & ->)%unlink_Ok. apply size_delete_le. }
  destruct u as [m|f'|p|f'|f'|p n c d|p n|sp sn dp dn]; cbn.
  1: destruct (is_dir t _); [done|].
  1, 2, 3, 4: intros [= <- _]; lia.
  - destruct (remove_id t f') as [t1|] eqn:Hr; [|done]. intros [= <- _]. revert Hr.
    unfold remove_id. case_bool_decide; [done|].
    destruct (List.find _ _) as [[[p n] e]|]; [|intros [= ->]; lia].
    destruct (unlink t p n) as [[t2 c]|] eqn:Hu; [|done]. intros [= ->].
    pose proof (Hunlink _ _ _ _ Hu). lia.
  - destruct (link t p n c d) as [t1|] eqn:Hl; [|done]. intros [= <- _].
    apply link_Ok in Hl as (_ & _ & _ & _ & Hk & _ & ->). cbn. rewrite map_size_insert, Hk. lia.
  - destruct (unlink t p n) as [[t1 c]|] eqn:Hl; [|done]. intros [= <- _].
    pose proof (Hunlink _ _ _ _ Hl). lia.
  - destruct (rename t sp sn dp dn) as [t1|] eqn:Hl; [|done]. intros [= <- _].
    apply rename_Ok in Hl as [(-> & _)|(_ & _ & _ & _ & e & He & _ & -> & _)]; [lia|]. cbn.
    rewrite map_size_insert, map_size_delete, He.
    assert (0 < size (tr_entries t))%nat by (apply Nat.neq_0_lt_0, map_size_non_empty_iff; intros Hn; by rewrite Hn in He).
    destruct (delete _ _ !! _); cbn; lia.
Qed.

(** A removed file is one the update names or unlinks. *)
Lemma apply_tree_update_removed t u t' f m :
  apply_tree_update t u = Ok (t', Some f) → u ≠ NewManifest m.
Proof. intros Hu ->. cbn in Hu. by destruct (is_dir t _). Qed.

(** ** Delivery *)

Lemma queued_records_filter (P : QueueContent → Prop) `{∀ c, Decision (P c)} q :
  (∀ r, P (QControl r)) → queued_records (filter P q) = queued_records q.
Proof.
  intros HP. induction q as [|c q IH]; [done|]. rewrite filter_cons. unfold queued_records in *.
  destruct (decide (P c)) as [|Hn]; cbn; rewrite IH; [done|].
  destruct c as [r|]; [by destruct (Hn (HP r))|done].
Qed.

Lemma queued_records_app q q' : queued_records (q ++ q') = queued_records q ++ queued_records q'.
Proof. apply omap_app. Qed.

Lemma queued_records_controls l : queued_records (QControl <$> l) = l.
Proof. induction l as [|r l IH]; [done|]. cbn. by rewrite <-IH at 2. Qed.

Lemma queue_slots_records m prior i ids q : queued_records (queue_slots m prior i ids q) = queued_records q.
Proof.
  revert i q. induction ids as [|id ids IH]; intros i q; [done|]. cbn [queue_slots]. rewrite IH.
  destruct (unchanged prior i id); [done|]. rewrite queued_records_app, queued_records_filter by auto.
  by rewrite app_nil_r.
Qed.

(** No instruction is lost on the way, and the new one comes last. *)
Lemma mail_after_records s record removed_file peer queue pending :
  queued_records (mail_after s record removed_file peer queue pending)
  = queued_records queue ++ pending ++ [record].
Proof.
  assert (Hr : ∀ l, queued_records (match removed_file with
    | Some file_id => filter (λ c, ¬ body_of file_id c) l | None => l end) = queued_records l).
  { intros l. destruct removed_file; [by apply queued_records_filter; auto|done]. }
  assert (Hq : queued_records (queue ++ (QControl <$> pending) ++ [QControl record])
    = queued_records queue ++ pending ++ [record]).
  { by rewrite !queued_records_app, queued_records_controls. }
  unfold mail_after. destruct (cr_update record); rewrite ?queue_slots_records, ?queued_records_filter by auto;
    by rewrite Hr, Hq.
Qed.

(** The records on the way to a peer: in its mailbox, then pending for its connection. *)
Definition owed (state : gmap PeerId (list QueueContent) * gmap PeerId (list ControlRecord))
    (p : PeerId) : list ControlRecord :=
  queued_records (default [] (state.1 !! p)) ++ default [] (state.2 !! p).

Definition on_the_way (s : HostState) (p : PeerId) : list ControlRecord := owed (contents s) p.

Lemma deliver_owed s record removed_file live state peer p :
  owed (deliver s record removed_file live state peer) p
  = owed state p ++ (if decide (p = peer) then [record] else []).
Proof.
  destruct state as [mail online]. unfold deliver, owed.
  destruct (decide (peer ∈ live)); cbn [fst snd]; (destruct (decide (p = peer)) as [->|Hne]).
  - rewrite lookup_insert_eq. cbn. by rewrite app_assoc.
  - rewrite lookup_insert_ne by done. by rewrite app_nil_r.
  - rewrite lookup_insert_eq, lookup_delete_eq. cbn [default from_option id].
    rewrite mail_after_records, app_nil_r. by rewrite app_assoc.
  - rewrite lookup_insert_ne, lookup_delete_ne by done. by rewrite app_nil_r.
Qed.

Lemma deliver_all_owed s record removed_file live peers p :
  NoDup peers →
  owed (deliver_all s record removed_file live peers) p
  = on_the_way s p ++ (if decide (p ∈ peers) then [record] else []).
Proof.
  unfold deliver_all, on_the_way. generalize (contents s). intros state Hnd. revert state.
  induction Hnd as [|peer peers Hni Hnd IH]; intros state; cbn [foldl].
  { by rewrite app_nil_r. }
  rewrite IH, deliver_owed. rewrite <-app_assoc. f_equal.
  destruct (decide (p = peer)) as [->|Hne].
  - rewrite decide_False by done. rewrite decide_True by (by left). done.
  - cbn. apply decide_ext. set_solver.
Qed.

(** Numbers that rise. *)
Definition record_lt (r r' : ControlRecord) : Prop := u64_N (cr_id r) < u64_N (cr_id r').
Definition in_order (l : list ControlRecord) : Prop := StronglySorted record_lt l.

Lemma in_order_snoc l r : in_order l → (∀ r', r' ∈ l → record_lt r' r) → in_order (l ++ [r]).
Proof.
  intros Hl Hr. apply StronglySorted_app. split_and!; [|done|by repeat constructor].
  intros r1 r2 H1 ->%list_elem_of_singleton. by apply Hr.
Qed.

(** ** Files held *)

Section files.
Context `{Sha256}.

Lemma validate_chunks_mono (s s' : MemoryChunkStore) f i ids size r :
  (∀ id rec, id ∈ ids → mc_chunks s !! id = Some rec → chr_file_id rec = f →
     mc_chunks s' !! id = Some rec) →
  validate_chunks s f i ids size = Ok r → validate_chunks s' f i ids size = Ok r.
Proof.
  revert i size. induction ids as [|id ids IH]; intros i size Hkept; cbn [validate_chunks]; [done|].
  destruct (ok_or (u64_of_N i) _) as [j|]; [|done]. cbn [res_bind]. unfold get_record.
  destruct (mc_chunks s !! id) as [rec|] eqn:Hr; [|done]. cbn [ok_or res_bind].
  destruct (_ || _) eqn:Hc; [done|]. apply orb_false_iff in Hc as [[Hf Hi]%orb_false_iff Hh].
  apply negb_false_iff, bool_decide_eq_true in Hf.
  rewrite (Hkept id rec (list_elem_of_here _ _) Hr Hf). cbn [ok_or res_bind].
  rewrite Hf, bool_decide_eq_true_2, Hi, Hh by done. cbn [negb orb].
  destruct (ok_or (u64_checked_add size _) _) as [size'|]; [|done]. cbn [res_bind].
  apply IH. intros id' rec' Hin. apply Hkept. by right.
Qed.

Lemma validate_replica_mono (s s' : MemoryChunkStore) t :
  (∀ id rec, id ∈ mf_chunk_ids (manifest t) → mc_chunks s !! id = Some rec →
     chr_file_id rec = mf_file_id (manifest t) → mc_chunks s' !! id = Some rec) →
  validate_replica s t = Ok tt → validate_replica s' t = Ok tt.
Proof.
  intros Hkept. unfold validate_replica.
  destruct (validate_chunks s _ 0 _ _) as [size|] eqn:Hv; [|done].
  by rewrite (validate_chunks_mono s s' _ _ _ _ _ Hkept Hv).
Qed.

(** ** The invariant *)

(** The log's numbers are consecutive and end with the last commit. *)
Definition log_ok (first : N) (log : list ControlRecord) (next : u64) : Prop :=
  (∀ i r, log !! i = Some r → u64_N (cr_id r) = first + N.of_nat i)
  ∧ first + lenN log = u64_N next ∧ 1 <= first.

(** A record queued for a peer: in the log, or one the peer's acknowledgement or bootstrap
    covers. *)
Definition record_ok (s : HostState) (peer : PeerId) (r : ControlRecord) : Prop :=
  u64_N (cr_id r) < u64_N (st_next_control s)
  ∧ (r ∈ st_log s ∨ u64_N (cr_id r) <= u64_N (covered_through s peer)).

Record host_ok (s : HostState) : Prop := {
  ho_tree : tree_ok (st_tree s);
  ho_root : tr_expected_root (st_tree s) = st_expected_root s;
  ho_host : st_host_id s ∈ st_members s;
  ho_denied : st_members s ## st_denied s;
  ho_files f t : st_manifests s !! f = Some t →
    mf_file_id (manifest t) = f ∧ is_dir (st_tree s) f = false
    ∧ validate_replica (st_chunks s) t = Ok tt;
  ho_log : ∃ first, log_ok first (st_log s) (st_next_control s)
    ∧ ∀ p, p ∈ st_members s → first <= u64_N (covered_through s p) + 1;
  ho_host_ack : u64_N (ack_of (st_acked_through s) (st_host_id s)) + 1 = u64_N (st_next_control s);
  ho_acked p a : st_acked_through s !! p = Some a →
    p ∈ st_members s ∧ u64_N a < u64_N (st_next_control s);
  ho_bootstrap p a : st_bootstrap_through s !! p = Some a →
    p ∈ st_members s ∧ u64_N a < u64_N (st_next_control s);
  ho_mail p q : queue_contents (st_mailboxes s) !! p = Some q →
    p ∈ st_members s ∧ ∀ r, r ∈ queued_records q → record_ok s p r;
  ho_online p l : online_records (st_online s) !! p = Some l →
    p ∈ st_members s ∧ ∀ r, r ∈ l → record_ok s p r;
  ho_order p : in_order (on_the_way s p);
  ho_history :
    N.of_nat (size (st_manifests s) + size (tr_entries (st_tree s))) <= u64_N (st_next_control s);
}.

Lemma host_ok_same s s' : same_content s s' → host_ok s → host_ok s'.
Proof.
  intros (Hm & Ho & Hs') []. rewrite Hs'. split; try done.
  - intros p q. cbn [st_mailboxes set_st_mailboxes]. rewrite Hm. apply ho_mail0.
  - intros p l. cbn [st_online set_st_mailboxes set_st_online]. rewrite Ho. apply ho_online0.
  - intros p. unfold on_the_way, contents. cbn [st_online st_mailboxes set_st_mailboxes set_st_online].
    rewrite Hm, Ho. apply ho_order0.
Qed.

Lemma on_the_way_ok s p r : host_ok s → r ∈ on_the_way s p → record_ok s p r.
Proof.
  intros Hs. unfold on_the_way, owed, contents. cbn [fst snd]. intros [Hr|Hr]%elem_of_app.
  - destruct (queue_contents (st_mailboxes s) !! p) as [q|] eqn:Hq; [|by apply elem_of_nil in Hr].
    by apply (proj2 (ho_mail _ Hs p q Hq)).
  - destruct (online_records (st_online s) !! p) as [q|] eqn:Hq; [|by apply elem_of_nil in Hr].
    by apply (proj2 (ho_online _ Hs p q Hq)).
Qed.

Lemma covered_through_N s p :
  u64_N (covered_through s p)
  = N.max (u64_N (ack_of (st_acked_through s) p)) (u64_N (ack_of (st_bootstrap_through s) p)).
Proof. apply u64_max_N. Qed.

Lemma ack_lt s p (acked : gmap PeerId u64) :
  1 <= u64_N (st_next_control s) →
  (∀ p a, acked !! p = Some a → p ∈ st_members s ∧ u64_N a < u64_N (st_next_control s)) →
  u64_N (ack_of acked p) < u64_N (st_next_control s).
Proof.
  intros H1 Ha. unfold ack_of. destruct (acked !! p) as [a|] eqn:Hp; cbn; [by apply (Ha p)|].
  change (u64_N u64_zero) with 0. lia.
Qed.

Lemma next_pos s : host_ok s → 1 <= u64_N (st_next_control s).
Proof. intros Hs. destruct (ho_log _ Hs) as (first & (_ & Hl & Hf) & _). lia. Qed.

Lemma log_member first log next r :
  log_ok first log next → r ∈ log → first <= u64_N (cr_id r) < u64_N next.
Proof.
  intros (Hi & Hn & Hf) [i Hr]%list_elem_of_lookup. rewrite (Hi _ _ Hr).
  apply lookup_lt_Some in Hr. unfold lenN in Hn. lia.
Qed.

(** Every number from the first on is in the log. *)
Lemma log_complete first log next n :
  log_ok first log next → first <= n < u64_N next → ∃ r, r ∈ log ∧ u64_N (cr_id r) = n.
Proof.
  intros (Hi & Hn & Hf) Hr. unfold lenN in Hn.
  destruct (lookup_lt_is_Some_2 log (N.to_nat (n - first))) as [r Hl]; [lia|].
  exists r. split; [by eapply list_elem_of_lookup_2|]. rewrite (Hi _ _ Hl). lia.
Qed.

(** ** Publication *)

Lemma log_after_ok first log next floor :
  log_ok first log next → u64_N floor < u64_N next →
  log_ok (N.max first (u64_N floor + 1)) (log_after floor log) next.
Proof.
  intros (Hi & Hn & Hf) Hlt. unfold lenN in Hn.
  assert (Hgen : ∀ log first, (∀ i r, log !! i = Some r → u64_N (cr_id r) = first + N.of_nat i) →
    log_after floor log = drop (N.to_nat (u64_N floor + 1 - first)) log).
  { clear. induction log as [|r log IH]; intros first Hi; [by rewrite drop_nil|].
    unfold log_after in *. rewrite filter_cons. pose proof (Hi 0%nat r eq_refl) as Hr.
    assert (Hlog : ∀ i r, log !! i = Some r → u64_N (cr_id r) = (first + 1) + N.of_nat i).
    { intros i r' Hl. rewrite (Hi (S i) r' Hl). lia. }
    rewrite (IH _ Hlog). case_decide as Hd.
    - replace (N.to_nat (u64_N floor + 1 - first)) with 0%nat by lia.
      replace (N.to_nat (u64_N floor + 1 - (first + 1))) with 0%nat by lia. by rewrite !drop_0.
    - replace (N.to_nat (u64_N floor + 1 - first))
        with (S (N.to_nat (u64_N floor + 1 - (first + 1)))) by lia. done. }
  rewrite (Hgen log first Hi). split; [|split; [|lia]].
  - intros i r. rewrite lookup_drop. intros Hl. rewrite (Hi _ _ Hl).
    apply lookup_lt_Some in Hl. lia.
  - unfold lenN. rewrite length_drop. lia.
Qed.

Lemma ack_floor_le s p : p ∈ st_members s → u64_N (ack_floor s) <= u64_N (ack_of (st_acked_through s) p).
Proof.
  intros Hp. unfold ack_floor. destruct (min_ack _ _) as [m|] eqn:Hm; cbn.
  - by apply (min_ack_Some _ _ _ Hm).
  - apply min_ack_None in Hm. set_solver.
Qed.

Lemma elem_of_retained_manifest s id f t :
  st_manifests s !! f = Some t → id ∈ mf_chunk_ids (manifest t) → id ∈ retain_ids (host_metadata s).
Proof.
  intros Ht Hid. apply elem_of_retain_ids. left. exists f, (manifest t).
  split; [|done]. cbn. by rewrite lookup_fmap, Ht.
Qed.

Lemma published_ok documents chunks staged :
  host_ok staged → kept (host_metadata (published documents chunks staged)) (st_chunks staged) chunks →
  host_ok (published documents chunks staged).
Proof.
  intros Hs Hk. pose proof (next_pos _ Hs) as Hpos.
  set (s1 := sync_admission (set_st_historical_members
    (st_historical_members staged ∪ st_members staged) (set_st_identity_documents documents staged))).
  assert (Hfloor : ∀ p, p ∈ st_members staged →
    u64_N (ack_floor s1) <= u64_N (ack_of (st_acked_through staged) p)) by (apply (ack_floor_le s1)).
  assert (Hlt : u64_N (ack_floor s1) < u64_N (st_next_control staged)).
  { eapply N.le_lt_trans; [apply (Hfloor _ (ho_host _ Hs))|]. apply ack_lt; [done|apply (ho_acked _ Hs)]. }
  assert (Hrec : ∀ p r, p ∈ st_members staged → record_ok staged p r →
    record_ok (published documents chunks staged) p r).
  { intros p r Hp [Hn [Hr|Hc]]; (split; [done|]); [|by right].
    destruct (decide (u64_N (ack_floor s1) < u64_N (cr_id r))) as [Hd|Hd].
    - left. by apply elem_of_log_after.
    - right. change (covered_through (published _ _ staged) p) with (covered_through staged p).
      rewrite covered_through_N. specialize (Hfloor p Hp). lia. }
  destruct Hs. split; try done.
  - intros f t Ht. destruct (ho_files0 f t Ht) as (Hf & Hd & Hv). split_and!; [done|done|].
    apply (validate_replica_mono (st_chunks staged)); [|done].
    intros id rec Hid Hrec' _. apply (kept_retained _ _ _ Hk); [|done].
    by eapply elem_of_retained_manifest.
  - destruct ho_log0 as (first & Hlog & Hkeep).
    exists (N.max first (u64_N (ack_floor s1) + 1)). split; [by apply log_after_ok|].
    intros p Hp. change (covered_through (published _ _ staged) p) with (covered_through staged p).
    specialize (Hkeep p Hp). specialize (Hfloor p Hp). rewrite covered_through_N in *. lia.
  - intros p q Hq. destruct (ho_mail0 p q Hq) as [Hp Hr]. split; [done|]. intros r Hin. auto.
  - intros p q Hq. destruct (ho_online0 p q Hq) as [Hp Hr]. split; [done|]. intros r Hin. auto.
Qed.
End files.

Section delivery.
Variables (M : gset PeerId) (R : PeerId → ControlRecord → Prop).

(** Mail and pending controls of members, of records with a property. *)
Definition mail_ok
    (state : gmap PeerId (list QueueContent) * gmap PeerId (list ControlRecord)) : Prop :=
  (∀ p q, state.1 !! p = Some q → p ∈ M ∧ ∀ r, r ∈ queued_records q → R p r)
  ∧ (∀ p l, state.2 !! p = Some l → p ∈ M ∧ ∀ r, r ∈ l → R p r).

Lemma deliver_ok s record removed_file live state peer :
  mail_ok state → peer ∈ M → R peer record →
  mail_ok (deliver s record removed_file live state peer).
Proof.
  intros [Hm Ho] Hp Hr. destruct state as [mail online]. cbn in Hm, Ho. unfold deliver.
  assert (Hpend : ∀ r, r ∈ default [] (online !! peer) → R peer r).
  { intros r. destruct (online !! peer) as [l|] eqn:Hl; [|by intros ?%elem_of_nil]. by apply (Ho peer l). }
  assert (Hmail : ∀ r, r ∈ queued_records (default [] (mail !! peer)) → R peer r).
  { intros r. destruct (mail !! peer) as [l|] eqn:Hl; [|by intros ?%elem_of_nil]. by apply (Hm peer l). }
  destruct (decide _); (split; cbn [fst snd]; [intros p q|intros p l]).
  - apply Hm.
  - intros [[<- <-]|[_ Hl]]%lookup_insert_Some; [|by apply Ho]. split; [done|].
    intros r [Hin| ->%list_elem_of_singleton]%elem_of_app; auto.
  - intros [[<- <-]|[_ Hl]]%lookup_insert_Some; [|by apply Hm]. split; [done|].
    intros r. rewrite mail_after_records, !elem_of_app, list_elem_of_singleton.
    intros [?|[?| ->]]; auto.
  - intros [_ Hl]%lookup_delete_Some. by apply Ho.
Qed.

Lemma deliver_all_ok s record removed_file live peers :
  mail_ok (contents s) → (∀ p, p ∈ peers → p ∈ M ∧ R p record) →
  mail_ok (deliver_all s record removed_file live peers).
Proof.
  unfold deliver_all. generalize (contents s). induction peers as [|peer peers IH]; intros state Hs Hp; [done|].
  cbn [foldl]. destruct (Hp peer (list_elem_of_here _ _)) as [? ?].
  apply IH; [by apply deliver_ok|]. intros p Hin. apply Hp. by right.
Qed.
End delivery.

(** ** A commit *)

Section commit.
Context `{Sha256, MlDsa65, XWing}.

Lemma elem_of_commit_recipients s u p :
  p ∈ commit_recipients s u ↔ p ∈ st_members s ∧ p ≠ st_host_id s ∧ u ≠ Kick p.
Proof. unfold commit_recipients. rewrite list_elem_of_filter, elem_of_sorted_elements. tauto. Qed.

Lemma chunks_remove_file_kept f s id rec :
  mc_chunks s !! id = Some rec → chr_file_id rec ≠ f → mc_chunks (chunks_remove_file f s) !! id = Some rec.
Proof. intros Hr Hf. cbn. by apply map_lookup_filter_Some. Qed.

(** What a commit needs of its update: a new manifest is a validated one, and the host is not
    kicked. *)
Definition committable (s : HostState) (u : ControlUpdate) (trusted : option TrustedManifest) : Prop :=
  match u with
  | NewManifest m => ∃ t, trusted = Some t ∧ manifest t = m ∧ validate_replica (st_chunks s) t = Ok tt
  | Kick p => p ≠ st_host_id s
  | _ => True
  end.

Lemma committable_carries s u trusted : committable s u trusted → carries u trusted.
Proof. destruct u; cbn; naive_solver. Qed.

(** The fields of the staged state. *)
Definition kicked (u : ControlUpdate) : gset PeerId := match u with Kick p => {[p]} | _ => ∅ end.

Lemma committable_host s u trusted : committable s u trusted → st_host_id s ∉ kicked u.
Proof. destruct u; try (intros; apply not_elem_of_empty). cbn. by rewrite not_elem_of_singleton. Qed.

Definition without {A} (u : ControlUpdate) (m : gmap PeerId A) : gmap PeerId A :=
  match u with Kick p => delete p m | _ => m end.

Lemma lookup_without {A} u (m : gmap PeerId A) p x :
  without u m !! p = Some x ↔ (p ∉ kicked u) ∧ m !! p = Some x.
Proof. destruct u; cbn; rewrite ?lookup_delete_Some; set_solver. Qed.

Lemma staged_commit_fields record trusted tree removed_file next queues online admission s :
  let s' := staged_commit record trusted tree removed_file next queues online admission s in
  let u := cr_update record in
  st_expected_root s' = st_expected_root s ∧ st_tree s' = tree ∧ st_host_id s' = st_host_id s
  ∧ st_members s' = st_members s ∖ kicked u ∧ st_denied s' = kicked u ∪ st_denied s
  ∧ st_log s' = st_log s ++ [record] ∧ st_next_control s' = next
  ∧ st_acked_through s' = <[st_host_id s := cr_id record]> (without u (st_acked_through s))
  ∧ st_bootstrap_through s' = without u (st_bootstrap_through s)
  ∧ st_mailboxes s' = without u queues ∧ st_online s' = without u online
  ∧ st_historical_members s' = st_historical_members s
  ∧ st_identity_documents s' = st_identity_documents s.
Proof.
  intros s' u. subst s' u. unfold staged_commit.
  destruct (cr_update record), trusted, removed_file; split_and!;
    first [reflexivity | symmetry; apply difference_empty_L | symmetry; apply union_empty_l_L].
Qed.

(** Each commit makes room in the numbers for what it adds to the vault. *)
Lemma staged_commit_size s record trusted tree removed_file next queues online admission :
  apply_tree_update (st_tree s) (cr_update record) = Ok (tree, removed_file) →
  (size (st_manifests (staged_commit record trusted tree removed_file next queues online admission s))
   + size (tr_entries tree)
   ≤ size (st_manifests s) + size (tr_entries (st_tree s)) + 1)%nat.
Proof.
  intros Ht%apply_tree_update_size.
  assert (Hins : ∀ f (t : TrustedManifest) (m : gmap FileId TrustedManifest),
    (size (<[f := t]> m) ≤ size m + 1)%nat).
  { intros f t m. rewrite map_size_insert. destruct (m !! f); cbn; lia. }
  assert (Hdel : ∀ f (m : gmap FileId TrustedManifest), (size (delete f m) ≤ size m)%nat).
  { intros f m. rewrite map_size_delete. destruct (m !! f); cbn; lia. }
  assert (Hmf : (size (st_manifests (staged_commit record trusted tree removed_file next queues online
    admission s)) + links_one (cr_update record) ≤ size (st_manifests s) + 1)%nat).
  { unfold staged_commit. destruct (cr_update record) as [m| | | | | | |], trusted as [t|], removed_file as [f|];
      cbn; try (pose proof (Hins (mf_file_id m) t (st_manifests s)));
      try (pose proof (Hdel f (st_manifests s)));
      try (pose proof (Hdel f (<[mf_file_id m:=t]> (st_manifests s)))); lia. }
  lia.
Qed.

(** The files after a commit. *)
Lemma staged_commit_files s record trusted tree removed_file next queues online admission f t :
  host_ok s → committable s (cr_update record) trusted →
  validate_link_kind (st_manifests s) (cr_update record) = Ok tt →
  apply_tree_update (st_tree s) (cr_update record) = Ok (tree, removed_file) →
  st_manifests (staged_commit record trusted tree removed_file next queues online admission s) !! f = Some t →
  mf_file_id (manifest t) = f ∧ is_dir tree f = false
  ∧ validate_replica (st_chunks (staged_commit record trusted tree removed_file next queues online
                                   admission s)) t = Ok tt.
Proof.
  intros Hs Hc Hkind Htree Hf.
  assert (Hold : ∀ f t, st_manifests s !! f = Some t → is_dir tree f = false).
  { intros f' t' Hf'. apply not_true_iff_false. intros Hd.
    destruct (apply_tree_update_dirs _ _ _ _ _ Htree Hd) as [Hd'|(p & n & Hu)].
    - by rewrite (proj1 (proj2 (ho_files _ Hs _ _ Hf'))) in Hd'.
    - rewrite Hu in Hkind. cbn in Hkind. rewrite bool_decide_eq_true_2 in Hkind; [done|by eexists]. }
  assert (Hch : st_chunks (staged_commit record trusted tree removed_file next queues online admission s)
    = match removed_file with Some f => chunks_remove_file f (st_chunks s) | None => st_chunks s end).
  { unfold staged_commit. by destruct (cr_update record), trusted, removed_file. }
  assert (Hmf : st_manifests (staged_commit record trusted tree removed_file next queues online admission s)
    = (match removed_file with Some f => delete f | None => id end)
        (match cr_update record, trusted with
         | NewManifest m, Some t => <[mf_file_id m := t]> (st_manifests s) | _, _ => st_manifests s end)).
  { unfold staged_commit. by destruct (cr_update record), trusted, removed_file. }
  rewrite Hch. rewrite Hmf in Hf. clear Hch Hmf.
  destruct removed_file as [f0|].
  - apply lookup_delete_Some in Hf as [Hne Hf].
    assert (Hf' : st_manifests s !! f = Some t).
    { destruct (cr_update record) eqn:Hu; try done. by destruct (apply_tree_update_removed _ _ _ _ manifest Htree). }
    destruct (ho_files _ Hs _ _ Hf') as (Hid & _ & Hv). split_and!; [done|by eapply Hold|].
    apply (validate_replica_mono (st_chunks s)); [|done]. intros id rec _ Hr Hrf.
    apply chunks_remove_file_kept; [done|]. congruence.
  - unfold id in Hf. destruct (cr_update record) as [m| | | | | | |] eqn:Hu;
      try (destruct (ho_files _ Hs _ _ Hf) as (Hid & _ & Hv); split_and!; [done|by eapply Hold|done]).
    destruct Hc as (t0 & -> & Hm & Hv). apply lookup_insert_Some in Hf as [[<- <-]|[Hne Hf]].
    + split_and!; [by rewrite Hm| |done]. cbn in Htree. destruct (is_dir (st_tree s) _) eqn:Hd; [done|].
      by injection Htree as <-.
    + destruct (ho_files _ Hs _ _ Hf) as (Hid & _ & Hv'). split_and!; [done|by eapply Hold|done].
Qed.

Lemma queue_contents_without u queues :
  queue_contents (without u queues) = without u (queue_contents queues).
Proof. destruct u; try done. apply queue_contents_delete. Qed.

Lemma online_records_without u online :
  online_records (without u online) = without u (online_records online).
Proof. destruct u; try done. apply online_records_delete. Qed.

(** What is on the way after a commit. *)
Lemma staged_commit_way s u trusted tree removed_file next queues online admission live p :
  let record := mkControlRecord (st_next_control s) u in
  (queue_contents queues, online_records online)
  = deliver_all s record removed_file live (commit_recipients s u) →
  on_the_way (staged_commit record trusted tree removed_file next queues online admission s) p
  = if decide (p ∈ kicked u) then []
    else if decide (p ∈ st_members s ∧ p ≠ st_host_id s) then on_the_way s p ++ [record]
    else on_the_way s p.
Proof.
  intros record Hdel.
  destruct (staged_commit_fields record trusted tree removed_file next queues online admission s)
    as (_ & _ & _ & _ & _ & _ & _ & _ & _ & Email & Eonline & _).
  unfold on_the_way at 1, contents. rewrite Email, Eonline, queue_contents_without, online_records_without.
  cbn [cr_update record].
  assert (Hlook : ∀ A (m : gmap PeerId A), without u m !! p
    = if decide (p ∈ kicked u) then None else m !! p).
  { intros A m. apply option_eq. intros x. rewrite lookup_without.
    case_decide; [split; [tauto|done]|tauto]. }
  unfold owed at 1. cbn [fst snd]. rewrite !Hlook. destruct (decide (p ∈ kicked u)) as [Hd|Hd]; [done|].
  transitivity (owed (queue_contents queues, online_records online) p); [done|].
  rewrite Hdel, deliver_all_owed by apply NoDup_filter, NoDup_sorted_elements.
  assert (p ∈ commit_recipients s u ↔ p ∈ st_members s ∧ p ≠ st_host_id s) as Hiff.
  { rewrite elem_of_commit_recipients. split; [tauto|]. intros [? ?]. split_and!; [done|done|].
    intros ->. apply Hd. cbn. by apply elem_of_singleton. }
  case_decide as Hp; case_decide as Hq; [done|tauto|tauto|by rewrite app_nil_r].
Qed.

Lemma staged_commit_ok s u trusted tree removed_file next queues online admission live :
  let record := mkControlRecord (st_next_control s) u in
  host_ok s → committable s u trusted →
  validate_link_kind (st_manifests s) u = Ok tt →
  apply_tree_update (st_tree s) u = Ok (tree, removed_file) →
  u64_checked_add (st_next_control s) 1 = Some next →
  (queue_contents queues, online_records online)
  = deliver_all s record removed_file live (commit_recipients s u) →
  host_ok (staged_commit record trusted tree removed_file next queues online admission s).
Proof.
  intros record Hs Hc Hkind Htree Hnext Hdel. apply u64_checked_add_Some in Hnext.
  pose proof (next_pos _ Hs) as Hpos.
  set (s' := staged_commit _ _ _ _ _ _ _ _ _).
  destruct (staged_commit_fields record trusted tree removed_file next queues online admission s)
    as (Eroot & Etree & Ehost & Emem & Eden & Elog & Enext & Eack & Eboot & Email & Eonline & _).
  fold s' in Eroot, Etree, Ehost, Emem, Eden, Elog, Enext, Eack, Eboot, Email, Eonline.
  cbn [cr_update cr_id record] in *.
  destruct (apply_tree_update_ok _ _ _ _ (ho_tree _ Hs) Htree) as [Ht Hr].
  pose proof (committable_host _ _ _ Hc) as Hhost.
  assert (Hcov : ∀ p, p ∉ kicked u → u64_N (covered_through s p) <= u64_N (covered_through s' p)).
  { intros p Hp. rewrite !covered_through_N, Eack, Eboot. unfold ack_of.
    assert (without u (st_bootstrap_through s) !! p = st_bootstrap_through s !! p) as ->.
    { apply option_eq. intros x. rewrite lookup_without. tauto. }
    destruct (decide (p = st_host_id s)) as [->|Hne].
    - rewrite lookup_insert_eq. cbn [default from_option id]. pose proof (ho_host_ack _ Hs) as Ha.
      unfold ack_of in Ha. lia.
    - rewrite lookup_insert_ne by done.
      assert (without u (st_acked_through s) !! p = st_acked_through s !! p) as ->; [|lia].
      apply option_eq. intros x. rewrite lookup_without. tauto. }
  assert (Hrec : ∀ p r, p ∉ kicked u → record_ok s p r → record_ok s' p r).
  { intros p r Hp [Hn Hin]. split; [rewrite Enext; lia|]. rewrite Elog.
    destruct Hin as [Hin|Hin]; [left; by apply elem_of_app; left|right].
    etransitivity; [exact Hin|by apply Hcov]. }
  assert (Hnew : ∀ p, record_ok s' p record).
  { intros p. split; [rewrite Enext; cbn; lia|]. left. rewrite Elog. apply elem_of_app. right. by left. }
  assert (Hmail : mail_ok (st_members s) (λ p r, p ∉ kicked u → record_ok s' p r)
    (deliver_all s record removed_file live (commit_recipients s u))).
  { apply deliver_all_ok.
    - split; cbn; [intros p q Hq|intros p q Hq]; destruct Hs;
        [destruct (ho_mail0 p q Hq)|destruct (ho_online0 p q Hq)]; split; auto.
    - intros p (Hp & _)%elem_of_commit_recipients. split; [done|]. intros _. apply Hnew. }
  rewrite <-Hdel in Hmail. destruct Hmail as [Hmail Honline]. cbn [fst snd] in Hmail, Honline.
  split.
  - by rewrite Etree.
  - by rewrite Etree, Eroot, Hr, (ho_root _ Hs).
  - rewrite Ehost, Emem. by apply elem_of_difference; split; [apply (ho_host _ Hs)|].
  - rewrite Emem, Eden. pose proof (ho_denied _ Hs) as Hd. clear -Hd. set_solver.
  - intros f t Hf. rewrite Etree. by apply (staged_commit_files s record).
  - destruct (ho_log _ Hs) as (first & (Hi & Hn & Hf) & Hkeep). exists first. rewrite Elog, Enext.
    split; [split; [|split; [|done]]|].
    + intros i r [Hl|[Hlen Hl]]%lookup_app_Some; [by apply Hi|].
      apply list_lookup_singleton_Some in Hl as [Hz <-]. cbn. unfold lenN in Hn. lia.
    + unfold lenN in *. rewrite length_app. cbn. lia.
    + intros p Hp. rewrite Emem in Hp. apply elem_of_difference in Hp as [Hp Hk].
      specialize (Hcov p Hk). specialize (Hkeep p Hp). lia.
  - rewrite Eack, Ehost, Enext. unfold ack_of. rewrite lookup_insert_eq. cbn. lia.
  - intros p a. rewrite Eack, Enext, Emem. intros [[<- <-]|[_ Hp]]%lookup_insert_Some.
    + cbn. split; [by apply elem_of_difference; split; [apply (ho_host _ Hs)|]|lia].
    + apply lookup_without in Hp as [Hk Hp]. destruct (ho_acked _ Hs p a Hp). split; [by apply elem_of_difference|lia].
  - intros p a. rewrite Eboot, Enext, Emem. intros [Hk Hp]%lookup_without.
    destruct (ho_bootstrap _ Hs p a Hp). split; [by apply elem_of_difference|lia].
  - intros p q. rewrite Email, Emem, queue_contents_without. intros [Hk Hp]%lookup_without.
    destruct (Hmail p q Hp) as [? Hr']. split; [by apply elem_of_difference|]. auto.
  - intros p q. rewrite Eonline, Emem, online_records_without. intros [Hk Hp]%lookup_without.
    destruct (Honline p q Hp) as [? Hr']. split; [by apply elem_of_difference|]. auto.
  - intros p. unfold s'. rewrite (staged_commit_way s u _ _ _ _ _ _ _ live) by exact Hdel.
    case_decide; [constructor|]. case_decide; [|apply (ho_order _ Hs)].
    apply in_order_snoc; [apply (ho_order _ Hs)|]. intros r Hin.
    by destruct (on_the_way_ok _ _ _ Hs Hin).
  - rewrite Enext, Etree. pose proof (ho_history _ Hs) as Hsize.
    pose proof (staged_commit_size s record trusted tree removed_file next queues online admission Htree)
      as Hgrow. fold s' in Hgrow. lia.
Qed.

Lemma hs_state_publishes staged h h' :
  publishes staged h h' → host_ok staged → host_ok (hs_state h').
Proof. intros (w & documents & chunks & -> & Hk & _) Hs. cbn. by apply published_ok. Qed.

Lemma commits_ok u trusted h h' :
  host_ok (hs_state h) → committable (hs_state h) u trusted → commits u trusted h h' →
  host_ok (hs_state h').
Proof.
  intros Hs Hc (live & tree & removed_file & next & queues & online & admission & Hk & Ht & Hn & _
    & Hdel & _ & Hp).
  eapply hs_state_publishes; [exact Hp|]. by eapply staged_commit_ok.
Qed.
End commit.
