(* ===== verification/Bootstrap.v ===== *)
(** * The history a new member is bootstrapped with

    [bootstrap_records] numbers the state's manifests and links with the last ids before the next
    commit, so that a bootstrap ends exactly where the log goes on; [bootstrap_queue] makes one
    mail of them, followed by every body. *)
From S2P Require Export HostInv.
From Stdlib Require Import Lia ZifyN ZifyNat.

Open Scope N_scope.

(** ** Numbers *)

Lemma number_records_Ok first updates records :
  number_records first updates = Ok records →
  cr_update <$> records = updates
  ∧ ∀ i r, records !! i = Some r → u64_N (cr_id r) = first + N.of_nat i.
Proof.
  revert first records. induction updates as [|u updates IH]; intros first records; cbn.
  { by intros [= <-]. }
  destruct (u64_of_N first) as [id|] eqn:Hid; [|done]. cbn.
  destruct (number_records (first + 1) updates) as [rs|] eqn:Hrs; [|done]. cbn. intros [= <-].
  destruct (IH _ _ Hrs) as [Hu Hi]. split; [cbn; by rewrite Hu|]. intros [|i] r; cbn.
  - intros [= <-]. apply u64_of_N_Some in Hid. cbn. lia.
  - intros Hr. rewrite (Hi _ _ Hr). lia.
Qed.

Lemma bootstrap_records_Ok s through records :
  bootstrap_records s through = Ok records →
  bootstrap_updates s through = Ok (cr_update <$> records)
  ∧ lenN records <= u64_N through
  ∧ ∀ i r, records !! i = Some r → u64_N (cr_id r) = u64_N through - lenN records + 1 + N.of_nat i.
Proof.
  unfold bootstrap_records. destruct (bootstrap_updates s through) as [updates|]; [|done]. cbn.
  destruct (u64_checked_sub through (lenN updates)) as [d|] eqn:Hd; [|done]. cbn.
  destruct (u64_checked_add d 1) as [first|] eqn:Hf; [|done]. cbn. intros Hn.
  destruct (number_records_Ok _ _ _ Hn) as [Hu Hi].
  assert (lenN updates = lenN records) as Hlen by (unfold lenN; by rewrite <-Hu, length_fmap).
  apply u64_checked_sub_Some in Hd. apply u64_checked_add_Some in Hf.
  rewrite Hu. split; [done|]. split; [lia|]. intros i r Hr. rewrite (Hi _ _ Hr). lia.
Qed.

(** The records end at the number the bootstrap covers. *)
Lemma bootstrap_records_le s through records r :
  bootstrap_records s through = Ok records → r ∈ records →
  1 <= u64_N (cr_id r) <= u64_N through.
Proof.
  intros (_ & Hle & Hi)%bootstrap_records_Ok [i Hr]%list_elem_of_lookup. rewrite (Hi _ _ Hr).
  apply lookup_lt_Some in Hr. unfold lenN in *. lia.
Qed.

Lemma bootstrap_records_in_order s through records :
  bootstrap_records s through = Ok records → in_order records.
Proof.
  intros (_ & _ & Hi)%bootstrap_records_Ok. revert Hi.
  generalize (u64_N through - lenN records + 1). clear.
  induction records as [|r records IH]; intros first Hi; [constructor|].
  assert (Hrest : ∀ i r', records !! i = Some r' → u64_N (cr_id r') = first + 1 + N.of_nat i).
  { intros i r' Hr. rewrite (Hi (S i) r' Hr). lia. }
  apply StronglySorted_cons. split; [|by eapply IH].
  apply Forall_lookup. intros i r' Hr. unfold record_lt. rewrite (Hrest i r' Hr), (Hi 0%nat r eq_refl). lia.
Qed.

(** ** The mail *)

Lemma wp_map_fmap {S A B C} (f : A → SM S B) (g : B → C) (k : A → C) (E : S → Prop) l s :
  (∀ x s, wp (f x) (λ y _, g y = k x) E s) →
  wp (sm_map f l) (λ ys _, g <$> ys = k <$> l) E s.
Proof.
  intros Hf. revert s. induction l as [|x l IH]; intros s; cbn [sm_map]; [by apply wp_ret|].
  apply wp_bind. eapply wp_mono; [apply Hf| |done]. cbn beta. intros y s1 Hy.
  apply wp_bind. eapply wp_mono; [apply IH| |done]. cbn beta. intros ys s2 Hys.
  apply wp_ret. by rewrite !fmap_cons, Hy, Hys.
Qed.

(** The content of the body at one slot of a manifest. *)
Definition slot_content (slot : Manifest * (nat * ChunkId)) : QueueContent :=
  QChunk (mf_file_id slot.1) (as_u64 slot.2.1) slot.2.2.

Definition bootstrap_contents (s : HostState) (records : list ControlRecord) : list QueueContent :=
  (QControl <$> records)
  ++ (slot_content <$> manifest_slots (manifest <$> map_values (st_manifests s))).

Lemma bootstrap_contents_records s records : queued_records (bootstrap_contents s records) = records.
Proof.
  unfold bootstrap_contents. rewrite queued_records_app, queued_records_controls.
  rewrite <-(app_nil_r records) at 2. f_equal.
  induction (manifest_slots _) as [|slot l IH]; [done|exact IH].
Qed.

Section bootstrap.
Context `{Sha256, MlDsa65, XWing, AesGcm, HkdfSha256, Oracle}.

Lemma bootstrap_queue_wp staged peer records w :
  wp (bootstrap_queue staged peer records)
    (λ queue _, qd_content <$> queue = bootstrap_contents staged records) (λ _, True) w.
Proof.
  unfold bootstrap_queue. apply wp_bind, wp_lift; [intros frames _|done].
  apply wp_if; intros _; [|done]. apply wp_bind, wp_lift; [intros t1 _|done].
  apply wp_bind, wp_lift; [intros t2 _|done]. apply wp_if; intros _; [|done].
  apply wp_bind. eapply wp_mono; [apply wp_any| |done]. intros session w1 _.
  apply wp_bind. eapply wp_mono; [apply wp_any| |done]. intros at_ w2 _.
  apply wp_bind, wp_zoom. eapply wp_mono with (E := λ _, True);
    [apply (wp_map_fmap _ qd_content QControl)| |done].
  { intros r s. unfold bootstrap_control. apply wp_bind, wp_lift; [intros p _|done].
    apply wp_bind. eapply wp_mono; [apply wp_any| |done]. intros packet s1 _.
    apply wp_bind, wp_lift; [intros envelope _|done]. by apply wp_ret. }
  cbn beta. intros controls s1 Hc.
  apply wp_bind, wp_zoom. eapply wp_mono with (E := λ _, True);
    [apply (wp_map_fmap _ qd_content slot_content)| |done].
  { intros [m [i id]] s. unfold bootstrap_chunk. apply wp_bind, wp_lift; [intros j Hj|done].
    apply wp_bind, wp_lift; [intros plaintext _|done]. apply wp_bind, wp_lift; [intros p _|done].
    apply wp_bind. eapply wp_mono; [apply wp_any| |done]. intros frame s2 _.
    apply wp_bind, wp_lift; [intros envelope _|done]. apply wp_ret. cbn.
    unfold slot_content, as_u64. cbn. destruct (u64_of_N (N.of_nat i)) as [j'|] eqn:Hi; [|done].
    injection Hj as ->. assert (N.of_nat i mod u64_limit = N.of_nat i) as ->; [|by rewrite Hi].
    apply N.mod_small. apply u64_of_N_Some in Hi. rewrite <-Hi. apply u64_bound. }
  cbn beta. intros bodies s2 Hb. apply wp_ret. unfold bootstrap_contents.
  by rewrite fmap_app, Hc, Hb.
Qed.
End bootstrap.
