(* ===== verification/HostMachine.v ===== *)
(** * Every method of the host keeps its invariant

    [succeeds s s']: the state [s'] may follow [s] in the life of one host.  It satisfies
    [host_ok], is the same host's for the same vault, denies whom [s] denied, keeps every member
    it does not deny, never takes an acknowledgement back and never changes an instruction.  Every
    method, whether it succeeds or fails at any point, leads from a good state to one that may
    follow it; [host_reachable] runs any sequence of them. *)
From S2P Require Export HostInv.
From Stdlib Require Import Lia ZifyN ZifyNat.

Open Scope N_scope.

Section machine.
Context `{Sha256, MlDsa65, XWing, AesGcm, HkdfSha256}.

(** ** States that may follow each other *)

Record succeeds (s s' : HostState) : Prop := {
  su_ok : host_ok s';
  su_host : st_host_id s' = st_host_id s;
  su_root : st_expected_root s' = st_expected_root s;
  su_denied : st_denied s ⊆ st_denied s';
  su_members p : p ∈ st_members s → p ∉ st_denied s' →
    p ∈ st_members s'
    ∧ u64_N (ack_of (st_acked_through s) p) <= u64_N (ack_of (st_acked_through s') p);
  su_next : u64_N (st_next_control s) <= u64_N (st_next_control s');
  su_log r : r ∈ st_log s' → u64_N (cr_id r) < u64_N (st_next_control s) → r ∈ st_log s;
}.

Definition evolves (s s' : HostState) : Prop := host_ok s → succeeds s s'.

#[export] Instance evolves_preorder : PreOrder evolves.
Proof.
  split.
  - intros s Hs. by split.
  - intros a b c Hab Hbc Ha. destruct (Hab Ha) as [Hb hab rab dab mab nab lab].
    destruct (Hbc Hb) as [Hc hbc rbc dbc mbc nbc lbc].
    split; [done|congruence|congruence|by etransitivity| |lia|].
    + intros p Hp Hd. destruct (mab p Hp) as [Hp' Hle]; [intros Hd'; by apply Hd, dbc|].
      destruct (mbc p Hp' Hd). split; [done|lia].
    + intros r Hr Hlt. apply lab; [|done]. apply lbc; [done|lia].
Qed.

Lemma evolves_same s s' : same_content s s' → evolves s s'.
Proof.
  intros Hsame Hs. pose proof (host_ok_same _ _ Hsame Hs) as Hs'.
  destruct Hsame as (_ & _ & Heq). rewrite Heq in Hs' |- *. by split.
Qed.

Lemma evolves_published documents chunks staged :
  kept (host_metadata (published documents chunks staged)) (st_chunks staged) chunks →
  evolves staged (published documents chunks staged).
Proof.
  intros Hk Hs. split; try done; [by apply (published_ok documents chunks staged Hs Hk)|].
  intros r. cbn. by intros [_ Hr]%elem_of_log_after.
Qed.

Lemma evolves_staged_commit s u trusted tree removed_file next queues online admission live :
  let record := mkControlRecord (st_next_control s) u in
  committable s u trusted →
  validate_link_kind (st_manifests s) u = Ok tt →
  apply_tree_update (st_tree s) u = Ok (tree, removed_file) →
  u64_checked_add (st_next_control s) 1 = Some next →
  (queue_contents queues, online_records online)
  = deliver_all s record removed_file live (commit_recipients s u) →
  evolves s (staged_commit record trusted tree removed_file next queues online admission s).
Proof.
  intros record Hc Hk Ht Hn Hdel Hs.
  pose proof (staged_commit_ok s u trusted tree removed_file next queues online admission live
    Hs Hc Hk Ht Hn Hdel) as Hs'. fold record in Hs'.
  destruct (staged_commit_fields record trusted tree removed_file next queues online admission s)
    as (Eroot & _ & Ehost & Emem & Eden & Elog & Enext & Eack & _).
  revert Hs' Eroot Ehost Emem Eden Elog Enext Eack.
  generalize (staged_commit record trusted tree removed_file next queues online admission s).
  clear -Hs Hn. intros s' Hs' Eroot Ehost Emem Eden Elog Enext Eack.
  cbn [cr_update cr_id record] in *. apply u64_checked_add_Some in Hn.
  split; [done|exact Ehost|exact Eroot| | | |].
  - rewrite Eden. apply union_subseteq_r.
  - rewrite Eden, Emem, Eack. intros p Hp [Hnk _]%not_elem_of_union.
    split; [by apply elem_of_difference|]. unfold ack_of.
    destruct (decide (p = st_host_id s)) as [->|Hne].
    + rewrite lookup_insert_eq. cbn. pose proof (ho_host_ack _ Hs) as Ha. unfold ack_of in Ha. lia.
    + rewrite lookup_insert_ne by done. apply N.eq_le_incl. do 2 f_equal.
      apply option_eq. intros x. rewrite lookup_without. tauto.
  - rewrite Enext. lia.
  - intros r Hr Hlt. rewrite Elog in Hr.
    apply elem_of_app in Hr as [Hr| ->%list_elem_of_singleton]; [done|]. cbn in Hlt. lia.
Qed.

Lemma evolves_commit u trusted h h' :
  committable (hs_state h) u trusted → commits u trusted h h' →
  evolves (hs_state h) (hs_state h').
Proof.
  intros Hc (live & tree & removed_file & next & queues & online & admission & Hk & Ht & Hn & _
    & Hdel & _ & (w & documents & chunks & -> & Hkept & _)).
  etransitivity; [exact (evolves_staged_commit (hs_state h) u trusted tree removed_file next queues
    online admission live Hc Hk Ht Hn Hdel)|].
  exact (evolves_published documents chunks _ Hkept).
Qed.

(** ** Methods *)

(** Flush challenges are open for members only. *)
Definition challenged (h : HostService) : Prop :=
  ∀ p c, hs_challenges h !! p = Some c → p ∈ st_members (hs_state h).

Definition service_ok (h : HostService) : Prop := host_ok (hs_state h) ∧ challenged h.

Definition hop (h h' : HostService) : Prop :=
  service_ok h → succeeds (hs_state h) (hs_state h') ∧ challenged h'.

#[export] Instance hop_preorder : PreOrder hop.
Proof.
  split; [by intros h [Hs Hc]; split; [apply evolves_preorder|]|]. intros a b c Hab Hbc Ha.
  destruct (Hab Ha) as [Hs Hch]. destruct (Hbc (conj (su_ok _ _ Hs) Hch)) as [Hs' Hch'].
  split; [|done].
  eapply (transitivity (R := evolves) (y := hs_state b)); [by intros _|by intros _|by destruct Ha].
Qed.

(** Steps that keep the members and the challenges. *)
Definition calm (h h' : HostService) : Prop :=
  evolves (hs_state h) (hs_state h') ∧ hs_challenges h' = hs_challenges h
  ∧ st_members (hs_state h') = st_members (hs_state h).

#[export] Instance calm_preorder : PreOrder calm.
Proof.
  split; [intros h; by split_and!|]. intros a b c (He & Hc & Hm) (He' & Hc' & Hm').
  split_and!; [by etransitivity|congruence|congruence].
Qed.

(** Steps that may make one peer a member. *)
Definition joins (peer : PeerId) (h h' : HostService) : Prop :=
  evolves (hs_state h) (hs_state h') ∧ hs_challenges h' = hs_challenges h
  ∧ st_members (hs_state h) ⊆ st_members (hs_state h')
  ∧ st_members (hs_state h') ⊆ {[peer]} ∪ st_members (hs_state h).

Lemma joins_calm peer h h' : calm h h' → joins peer h h'.
Proof. intros (He & Hc & Hm). unfold joins. rewrite Hm. split_and!; [done|done|done|apply union_subseteq_r]. Qed.

Lemma hop_joins peer h h' : joins peer h h' → hop h h'.
Proof.
  intros (He & Hc & Hm & _) [Hs Hch]. split; [by apply He|]. intros p c. rewrite Hc. intros Hp.
  by eapply Hm, Hch.
Qed.

Lemma hop_calm h h' : calm h h' → hop h h'.
Proof. intros Hc. by eapply (hop_joins (st_host_id (hs_state h))), joins_calm. Qed.

(** Steps after which nobody is a member who was not. *)
Definition tame (h h' : HostService) : Prop :=
  hop h h' ∧ st_members (hs_state h') ⊆ st_members (hs_state h).

#[export] Instance tame_preorder : PreOrder tame.
Proof. split; [by intros h|]. intros a b c [] []. split; by etransitivity. Qed.

Lemma tame_calm h h' : calm h h' → tame h h'.
Proof. intros Hc. split; [by apply hop_calm|]. by destruct Hc as (_ & _ & ->). Qed.

(** ** Relations a method may keep *)

Class HostRelation (R : relation HostService) : Prop := {
  hr_preorder :: PreOrder R;
  hr_calm h h' : calm h h' → R h h';
}.

#[export] Instance calm_relation : HostRelation calm.
Proof. split; [apply _|done]. Qed.
#[export] Instance hop_relation : HostRelation hop.
Proof. split; [apply _|apply hop_calm]. Qed.
#[export] Instance tame_relation : HostRelation tame.
Proof. split; [apply _|apply tame_calm]. Qed.

Lemma calm_quiet h h' : quiet h h' → calm h h'.
Proof.
  intros [Hs Hh]. split_and!; [by apply evolves_same|by rewrite Hh|].
  destruct Hs as (_ & _ & ->). done.
Qed.

Lemma hr_quiet R `{!HostRelation R} h h' : quiet h h' → R h h'.
Proof. intros Hq. by apply hr_calm, calm_quiet. Qed.

(** Nothing of the state or the challenges changes. *)
Lemma hr_outside R `{!HostRelation R} h h' :
  hs_state h' = hs_state h → hs_challenges h' = hs_challenges h → R h h'.
Proof. intros Hs Hc. apply hr_calm. unfold calm. by rewrite Hs, Hc. Qed.

Definition keeps {A} (R : relation HostService) (m : SM HostService A) : Prop :=
  ∀ h, wp m (λ _, R h) (R h) h.

Section keeps.
Context (R : relation HostService) `{!HostRelation R}.

Lemma keeps_wp {A} (m : SM HostService A) (Q : A → HostService → Prop) (E : HostService → Prop) h h1 :
  keeps R m → R h h1 → (∀ x h2, R h h2 → Q x h2) → (∀ h2, R h h2 → E h2) → wp m Q E h1.
Proof.
  intros Hm Hh HQ HE. eapply wp_mono; [apply Hm| |]; cbn beta; intros; [apply HQ|apply HE];
    by etransitivity.
Qed.

Lemma keeps_bind {A B} (m : SM HostService A) (k : A → SM HostService B) :
  keeps R m → (∀ x, keeps R (k x)) → keeps R (sm_bind m k).
Proof.
  intros Hm Hk h. apply wp_bind. eapply wp_mono; [apply Hm| |done]. cbn beta. intros x h1 Hh.
  by apply (keeps_wp _ _ _ h).
Qed.

Lemma keeps_quiet {A} (m : SM HostService A) : (∀ h, wp m (λ _, quiet h) (quiet h) h) → keeps R m.
Proof. intros Hm h. eapply wp_mono; [apply Hm| |]; cbn beta; intros; by apply hr_quiet. Qed.

Lemma keeps_ret {A} (x : A) : keeps R (sm_ret x).
Proof. intros h. by apply wp_ret. Qed.
Lemma keeps_err {A} e : keeps R (sm_err (A := A) e).
Proof. intros h. by apply wp_err. Qed.
Lemma keeps_lift {A} (r : Result A) : keeps R (sm_lift r).
Proof. intros h. by apply wp_lift. Qed.
Lemma keeps_get {B} (k : HostService → SM HostService B) :
  (∀ h, wp (k h) (λ _, R h) (R h) h) → keeps R (sm_bind sm_get k).
Proof. intros Hk h. apply wp_bind, wp_get, Hk. Qed.
Lemma keeps_staged {B} (k : HostState → SM HostService B) :
  (∀ h, wp (k (hs_state h)) (λ _, R h) (R h) h) → keeps R (sm_bind stage_state k).
Proof. intros Hk h. apply wp_bind, wp_bind, wp_get, wp_ret, Hk. Qed.
Lemma keeps_each {A} (f : A → SM HostService unit) l : (∀ x, keeps R (f x)) → keeps R (sm_each f l).
Proof. intros Hf h. apply wp_each; [reflexivity|]. intros x h1 _ Hh. by apply (keeps_wp _ _ _ h). Qed.
Lemma keeps_map {A B} (f : A → SM HostService B) l : (∀ x, keeps R (f x)) → keeps R (sm_map f l).
Proof.
  induction l; intros Hf; [apply keeps_ret|]. apply keeps_bind; [done|]. intros y.
  apply keeps_bind; [auto|]. intros ys. apply keeps_ret.
Qed.
Lemma keeps_catch {A} (m : SM HostService A) g :
  keeps R m → (∀ e, keeps R (g e)) → keeps R (sm_catch m g).
Proof.
  intros Hm Hg h. apply wp_catch. eapply wp_mono; [apply Hm|done|]. cbn beta. intros h1 Hh e.
  by apply (keeps_wp _ _ _ h).
Qed.
Lemma keeps_on_world {A} (m : SM World A) : keeps R (on_world m).
Proof. apply keeps_quiet. intros h. apply on_world_quiet. Qed.
Lemma keeps_on_keys {A} (m : SM StoreInner A) : keeps R (on_keys m).
Proof. apply keeps_on_world. Qed.
Lemma keeps_update f :
  (∀ h, hs_state (f h) = hs_state h) → (∀ h, hs_challenges (f h) = hs_challenges h) →
  keeps R (update f).
Proof. intros Hf Hc h. unfold wp, update. by apply hr_outside. Qed.
Lemma keeps_sm_get : keeps R sm_get.
Proof. intros h. by apply wp_get. Qed.
Lemma keeps_running : keeps R require_running.
Proof. intros h. by apply require_running_wp. Qed.
Lemma keeps_member peer : keeps R (require_member peer).
Proof. intros h. by apply require_member_wp. Qed.
Lemma keeps_refresh : keeps R refresh_mailboxes.
Proof.
  apply keeps_quiet. intros h. eapply wp_mono; [apply refresh_mailboxes_quiet| |done].
  by intros ? ? [].
Qed.
End keeps.
End machine.

Create HintDb host discriminated.
#[export] Hint Resolve keeps_ret keeps_err keeps_lift keeps_on_world keeps_on_keys keeps_sm_get
  keeps_running keeps_member keeps_refresh : host.
#[export] Hint Extern 0 (HostRelation _) => apply _ : host.

(** Steps that touch the state only through methods known to keep the relation. *)
Ltac host_steps :=
  repeat first
    [ solve [eauto with host nocore]
    | lazymatch goal with
      | |- keeps _ (sm_bind stage_state _) => fail
      | |- keeps _ (sm_bind (in_transaction _) _) => fail
      | |- keeps _ (sm_bind _ _) => apply keeps_bind; [apply _| |intros ?]
      | |- keeps _ (sm_each _ _) => apply keeps_each; [apply _|]; intros ?
      | |- keeps _ (sm_map _ _) => apply keeps_map; [apply _|]; intros ?
      | |- keeps _ (sm_catch _ _) => apply keeps_catch; [apply _| |intros ?]
      | |- keeps _ (update _) => apply keeps_update; [apply _|reflexivity|reflexivity]
      | |- keeps _ (let _ := _ in _) => cbv zeta
      | |- keeps _ (match ?x with _ => _ end) => destruct x
      end ].

Section methods.
Context `{Sha256, MlDsa65, XWing, AesGcm, HkdfSha256, Oracle}.

(** ** Methods that keep every relation *)

Section any.
Context (R : relation HostService) `{!HostRelation R}.

Lemma heartbeat_keeps peer ttl : keeps R (heartbeat peer ttl).
Proof. unfold heartbeat. host_steps. Qed.
Lemma presence_keeps peer : keeps R (presence peer).
Proof. unfold presence. host_steps. Qed.
Lemma note_recent_op_keeps sender id : keeps R (note_recent_op sender id).
Proof. unfold note_recent_op. host_steps. Qed.
Lemma mailbox_keeps recipient : keeps R (mailbox recipient).
Proof. unfold mailbox. host_steps. Qed.
Lemma take_disconnects_keeps : keeps R take_disconnects.
Proof. unfold take_disconnects. host_steps. Qed.
Lemma prepare_flush_keeps peer challenge signature : keeps R (prepare_flush peer challenge signature).
Proof. unfold prepare_flush. host_steps. Qed.
Lemma verify_writer_manifest_keeps sender m : keeps R (verify_writer_manifest sender m).
Proof. unfold verify_writer_manifest. host_steps. Qed.
Lemma reopen_gates_keeps blocked : keeps R (reopen_gates blocked).
Proof. unfold reopen_gates. host_steps. Qed.
Lemma gate_mailboxes_keeps : keeps R gate_mailboxes.
Proof. unfold gate_mailboxes. host_steps. Qed.

(** Publishing a state that may follow, with the same members. *)
Lemma publish_keeps staged h :
  evolves (hs_state h) staged → st_members staged = st_members (hs_state h) →
  wp (publish_state staged) (λ _, R h) (R h) h.
Proof.
  intros Hs Hm. eapply wp_mono; [apply publish_wp| |]; cbn beta.
  - intros _ h' (w & documents & chunks & -> & Hk & _). apply hr_calm. split_and!; [|done|exact Hm].
    etransitivity; [exact Hs|by apply evolves_published].
  - intros h' [w ->]. by apply hr_quiet, quiet_world.
Qed.

(** ** Commits that kick nobody *)

Lemma commits_members update trusted h h' :
  commits update trusted h h' →
  st_members (hs_state h') = st_members (hs_state h) ∖ kicked update
  ∧ hs_challenges h' = hs_challenges h.
Proof.
  intros (live & tree & removed_file & next & queues & online & admission & _ & _ & _ & _
    & _ & _ & (w & documents & chunks & -> & _)). split; [|done].
  change (st_members (staged_commit (mkControlRecord (st_next_control (hs_state h)) update) trusted tree
    removed_file next queues online admission (hs_state h)) = st_members (hs_state h) ∖ kicked update).
  by destruct (staged_commit_fields (mkControlRecord (st_next_control (hs_state h)) update) trusted tree
    removed_file next queues online admission (hs_state h)) as (_ & _ & _ & Hm & _).
Qed.

Lemma commit_verified_keeps update trusted rotated h :
  committable (hs_state h) update trusted → kicked update = ∅ →
  wp (commit_verified_with_code update trusted rotated) (λ _, R h) (R h) h.
Proof.
  intros Hc Hk. eapply wp_mono; [apply commit_verified_wp, (committable_carries _ _ _ Hc)| |]; cbn beta.
  - intros _ h' Hcm. destruct (commits_members _ _ _ _ Hcm) as [Hm Hch].
    apply hr_calm. split_and!; [by eapply evolves_commit|done|]. by rewrite Hm, Hk, difference_empty_L.
  - intros h'. by apply hr_quiet.
Qed.

Lemma commit_keeps m : keeps R (commit m).
Proof.
  unfold commit. apply keeps_bind; [done|apply keeps_running; apply _|intros _].
  apply keeps_bind; [done|apply keeps_sm_get; apply _|intros h0].
  apply keeps_bind; [done|apply keeps_on_keys; apply _|intros trusted].
  apply keeps_get. intros h. apply wp_bind, wp_lift; [|done].
  intros [] Hv. apply wp_if; intros _; [by apply wp_ret|].
  apply commit_verified_keeps; [by exists trusted|done].
Qed.

Lemma commit_instruction_keeps update : kicked update = ∅ → keeps R (commit_instruction update).
Proof.
  intros Hk. destruct update as [m| |target| | | | |]; [apply commit_keeps| | | | | | |];
    try (apply keeps_bind; [done|apply keeps_running; apply _|]; intros _ h;
         by apply commit_verified_keeps).
  apply (f_equal (λ X, bool_decide (target ∈ X))) in Hk. cbn in Hk.
  rewrite bool_decide_eq_true_2 in Hk by set_solver. by rewrite bool_decide_eq_false_2 in Hk by set_solver.
Qed.
End any.

(** ** Challenges and kicks *)

(** Relations that allow a challenge of a member and the loss of one. *)
Class LooseRelation (R : relation HostService) : Prop := {
  lr_host :: HostRelation R;
  lr_tame h h' : tame h h' → R h h';
}.
#[export] Instance hop_loose : LooseRelation hop.
Proof. split; [apply _|]. by intros ? ? []. Qed.
#[export] Instance tame_loose : LooseRelation tame.
Proof. split; [apply _|done]. Qed.

Section loose.
Context (R : relation HostService) `{!LooseRelation R}.

Lemma keeps_tame {A} (m : SM HostService A) : keeps tame m → keeps R m.
Proof. intros Hm h. eapply wp_mono; [apply Hm| |]; cbn beta; intros; by apply lr_tame. Qed.

Lemma issue_flush_challenge_tame recipient : keeps tame (issue_flush_challenge recipient).
Proof.
  unfold issue_flush_challenge. apply keeps_bind; [apply _|apply keeps_running; apply _|intros _ h].
  apply wp_bind, require_member_wp; [intros Hm|done].
  apply wp_bind, on_world_wp; [|intros; by apply (hr_quiet tame), quiet_world].
  intros challenge w _. apply wp_bind. unfold wp at 1, update. apply wp_ret.
  split; [|done]. intros [Hs Hc]. split; [by apply evolves_preorder|]. intros p c. cbn.
  intros [[<- _]|[_ Hp]]%lookup_insert_Some; [done|by eapply Hc].
Qed.
Lemma issue_flush_challenge_keeps recipient : keeps R (issue_flush_challenge recipient).
Proof. apply keeps_tame, issue_flush_challenge_tame. Qed.

Lemma note_recent_op_wp sender id h :
  wp (note_recent_op sender id)
    (λ _ h', hs_state h' = hs_state h ∧ hs_challenges h' = hs_challenges h) (λ _, False) h.
Proof. apply wp_bind, wp_get, wp_if; intros _; [by apply wp_ret|]. done. Qed.

(** The challenge of a kicked member is closed before anything can fail. *)
Lemma kick_with_code_tame target code : keeps tame (kick_with_code target code).
Proof.
  unfold kick_with_code. apply keeps_bind; [apply _|apply keeps_running; apply _|intros _].
  apply keeps_bind; [apply _|apply keeps_member; apply _|intros _]. apply keeps_get. intros h.
  apply wp_if; intros Hne; [|by apply wp_err].
  apply negb_true_iff, bool_decide_eq_false in Hne.
  apply wp_bind. eapply wp_mono; [by apply commit_verified_wp| |apply (hr_quiet tame)]. cbn beta.
  intros _ h1 Hh. pose proof (evolves_commit (Kick target) None h h1 Hne Hh) as He.
  apply commits_members in Hh as [Hm Hc].
  apply wp_bind. eapply wp_mono; [apply note_recent_op_wp| |done]. cbn beta. intros _ h2 [Hs2 Hc2].
  do 3 (apply wp_bind; unfold wp at 1, update at 1).
  apply wp_bind. refine (keeps_wp tame _ _ _ h _ (keeps_on_world tame _) _ _ _); [|done|done].
  split; [|cbn; rewrite Hs2, Hm; apply subseteq_difference_l; reflexivity].
  intros [Hok Hch]. cbn. rewrite Hs2. split; [by apply He|]. intros p c.
  cbn. rewrite Hc2, Hc, Hs2, Hm. intros [Hpt Hp]%lookup_delete_Some.
  apply elem_of_difference. split; [by eapply Hch|]. cbn [kicked]. rewrite elem_of_singleton. congruence.
Qed.
Lemma kick_with_code_keeps target code : keeps R (kick_with_code target code).
Proof. apply keeps_tame, kick_with_code_tame. Qed.

Lemma commit_instruction_loose update : keeps R (commit_instruction update).
Proof.
  destruct (decide (kicked update = ∅)); [by apply commit_instruction_keeps; [apply _|]|].
  destruct update; try done. apply keeps_bind; [apply _|apply kick_with_code_keeps|].
  intros ?. apply keeps_ret. apply _.
Qed.
End loose.
End methods.

#[export] Hint Resolve heartbeat_keeps presence_keeps note_recent_op_keeps mailbox_keeps
  take_disconnects_keeps prepare_flush_keeps verify_writer_manifest_keeps reopen_gates_keeps
  gate_mailboxes_keeps commit_keeps commit_instruction_keeps issue_flush_challenge_keeps
  kick_with_code_keeps commit_instruction_loose : host.
#[export] Hint Extern 0 (LooseRelation _) => apply _ : host.

Section files.
Context `{Sha256, MlDsa65, XWing, AesGcm, HkdfSha256, Oracle}.

(** ** Directories *)

Lemma fan_out_control_loose R `{!LooseRelation R} sender update : keeps R (fan_out_control sender update).
Proof. unfold fan_out_control. host_steps. Qed.
Lemma fan_out_control_keeps R `{!HostRelation R} sender update :
  kicked update = ∅ → keeps R (fan_out_control sender update).
Proof. intros Hk. unfold fan_out_control. host_steps. Qed.

Context (R : relation HostService) `{!HostRelation R}.
Hint Extern 1 (kicked _ = ∅) => reflexivity : host.
Hint Resolve fan_out_control_keeps : host.

Lemma mkdir_keeps sender path : keeps R (mkdir sender path).
Proof. unfold mkdir. host_steps. Qed.
Lemma link_file_keeps sender path child : keeps R (link_file sender path child).
Proof. unfold link_file. host_steps. Qed.
Lemma host_unlink_keeps sender path : keeps R (host_unlink sender path).
Proof. unfold host_unlink. host_steps. Qed.
Lemma host_rename_keeps sender source destination : keeps R (host_rename sender source destination).
Proof. unfold host_rename. host_steps. Qed.
End files.

#[export] Hint Resolve fan_out_control_loose fan_out_control_keeps mkdir_keeps link_file_keeps
  host_unlink_keeps host_rename_keeps : host.
