(* ===== verification/HostMethods.v ===== *)
(** * Mail, acknowledgements, admissions and uploads keep the invariant

    The methods that publish a state of their own making, each a small change of what the host
    owes its members. *)
From S2P Require Export HostMachine Bootstrap.
From Stdlib Require Import Lia ZifyN ZifyNat.

Open Scope N_scope.

Section mail.
Context `{Sha256, MlDsa65, XWing, AesGcm, HkdfSha256}.

(** ** Changes of mail and acknowledgements *)

(** Everything but members, mail, pending controls, acknowledgements and coverage is the same. *)
Definition same_vault (s s' : HostState) : Prop :=
  st_expected_root s' = st_expected_root s ∧ st_tree s' = st_tree s ∧ st_host_id s' = st_host_id s
  ∧ st_denied s' = st_denied s ∧ st_chunks s' = st_chunks s
  ∧ st_manifests s' = st_manifests s ∧ st_log s' = st_log s ∧ st_next_control s' = st_next_control s.

(** Numbers of members, all given out. *)
Definition given_out (s : HostState) (m : gmap PeerId u64) : Prop :=
  ∀ p a, m !! p = Some a → p ∈ st_members s ∧ u64_N a < u64_N (st_next_control s).

Lemma record_ok_covered s s' p r :
  same_vault s s' → u64_N (covered_through s p) <= u64_N (covered_through s' p) →
  record_ok s p r → record_ok s' p r.
Proof.
  intros (_ & _ & _ & _ & _ & _ & Elog & Enext) Hle [Hn Hr]. split; [by rewrite Enext|].
  rewrite Elog. destruct Hr; [by left|right; lia].
Qed.

(** What is owed may change as long as no member is dropped and new ones are covered. *)
Lemma evolves_owed s s' :
  same_vault s s' → st_members s ⊆ st_members s' →
  (host_ok s →
    st_members s' ## st_denied s
    ∧ (∀ p, p ∈ st_members s →
         u64_N (ack_of (st_acked_through s) p) <= u64_N (ack_of (st_acked_through s') p)
         ∧ u64_N (covered_through s p) <= u64_N (covered_through s' p))
    ∧ (∀ p, p ∈ st_members s' →
         p ∈ st_members s ∨ u64_N (st_next_control s) <= u64_N (covered_through s' p) + 1)
    ∧ given_out s' (st_acked_through s') ∧ given_out s' (st_bootstrap_through s')
    ∧ mail_ok (st_members s') (record_ok s') (contents s')
    ∧ ∀ p, in_order (on_the_way s' p)) →
  evolves s s'.
Proof.
  intros (Eroot & Etree & Ehost & Eden & Echunks & Eman & Elog & Enext) Hsub Hch Hs.
  destruct (Hch Hs) as (Hdis & Hle & Hnew & Hack & Hboot & [Hmail Honline] & Hord).
  pose proof (next_pos _ Hs) as Hpos.
  split; [|done|done|by rewrite Eden| |by rewrite Enext|by rewrite Elog].
  2: { intros p Hp _. split; [by apply Hsub|apply (Hle p Hp)]. }
  destruct Hs as [h1 h2 h3 h4 h5 h6 h7 h8 h9 h10 h11 h12 h13].
  split; [..|done|done|done|done|done|by rewrite Eman, Etree, Enext].
  - by rewrite Etree.
  - by rewrite Etree, Eroot.
  - rewrite Ehost. by apply Hsub.
  - by rewrite Eden.
  - intros f t. rewrite Eman, Etree, Echunks. apply h5.
  - destruct h6 as (first & Hl & Hkeep). exists first. rewrite Elog, Enext. split; [done|].
    intros p Hp. destruct (Hnew p Hp) as [Hp'|Hcov].
    + specialize (Hkeep p Hp'). destruct (Hle p Hp'). lia.
    + destruct Hl as (_ & Hn & _). lia.
  - rewrite Ehost. destruct (Hle _ h3) as [Hh _].
    assert (Hlt : u64_N (ack_of (st_acked_through s') (st_host_id s)) < u64_N (st_next_control s')).
    { apply ack_lt; [by rewrite Enext|exact Hack]. }
    rewrite Enext in *. lia.
Qed.

(** The common case: the members stay. *)
Lemma evolves_mail s s' :
  same_vault s s' → st_members s' = st_members s →
  (host_ok s →
    (∀ p, p ∈ st_members s →
       u64_N (ack_of (st_acked_through s) p) <= u64_N (ack_of (st_acked_through s') p)
       ∧ u64_N (covered_through s p) <= u64_N (covered_through s' p))
    ∧ given_out s (st_acked_through s') ∧ given_out s (st_bootstrap_through s')
    ∧ mail_ok (st_members s) (record_ok s) (contents s')
    ∧ ∀ p, in_order (on_the_way s' p)) →
  evolves s s'.
Proof.
  intros Hv Hm Hch. apply evolves_owed; [done|by rewrite Hm|]. intros Hs.
  destruct (Hch Hs) as (Hle & Hack & Hboot & [Hmail Honline] & Hord). unfold given_out. rewrite Hm.
  assert (st_next_control s' = st_next_control s) as -> by (by destruct Hv as (_ & _ & _ & _ & _ & _ & _ & ?)).
  split_and!; [apply Hs|done|by left|done|done| |done]. split; intros p q Hq.
  - destruct (Hmail p q Hq) as [Hp Hr]. split; [done|]. intros r Hin.
    apply (record_ok_covered s); [done|by apply Hle|by apply Hr].
  - destruct (Honline p q Hq) as [Hp Hr]. split; [done|]. intros r Hin.
    apply (record_ok_covered s); [done|by apply Hle|by apply Hr].
Qed.

Lemma host_mail_ok s : host_ok s → mail_ok (st_members s) (record_ok s) (contents s).
Proof. intros []. by split. Qed.

Lemma queue_contents_lookup mailboxes p :
  queue_contents mailboxes !! p = (λ q, qd_content <$> q) <$> (mailboxes !! p).
Proof. apply lookup_fmap. Qed.

(** The records a peer's mailbox holds. *)
Definition mailed (s : HostState) (p : PeerId) : list ControlRecord :=
  queued_records (qd_content <$> default [] (st_mailboxes s !! p)).

Lemma on_the_way_mailed s p :
  on_the_way s p = mailed s p ++ default [] (online_records (st_online s) !! p).
Proof.
  unfold on_the_way, owed, mailed, contents. cbn [fst snd]. rewrite queue_contents_lookup.
  by destruct (st_mailboxes s !! p).
Qed.

Lemma mailed_ok s p r : host_ok s → r ∈ mailed s p → record_ok s p r.
Proof.
  intros Hs Hr. apply on_the_way_ok; [done|]. rewrite on_the_way_mailed. apply elem_of_app. by left.
Qed.

Lemma evolves_drop_online s p : evolves s (set_st_online (delete p (st_online s)) s).
Proof.
  apply evolves_mail; [by split_and!|done|]. intros Hs. split; [done|].
  split; [exact (ho_acked _ Hs)|]. split; [exact (ho_bootstrap _ Hs)|].
  destruct (host_mail_ok _ Hs) as [Hm Ho]. split; [split; [done|]; cbn in *|].
  - rewrite online_records_delete. intros q l [_ Hl]%lookup_delete_Some. by apply Ho.
  - intros q. pose proof (ho_order _ Hs q) as Hq. unfold on_the_way, owed, contents in *.
    cbn [st_mailboxes st_online set_st_online fst snd] in *. rewrite online_records_delete.
    destruct (decide (p = q)) as [->|Hne]; [|by rewrite lookup_delete_ne].
    rewrite lookup_delete_eq. cbn. rewrite app_nil_r. by apply StronglySorted_app_1_l in Hq.
Qed.

(** A mailbox with the same records, or fewer. *)
Lemma evolves_mailbox s p queue :
  p ∈ st_members s → queued_records (qd_content <$> queue) = mailed s p →
  evolves s (set_st_mailboxes (<[p := queue]> (st_mailboxes s)) s).
Proof.
  intros Hp Heq. apply evolves_mail; [by split_and!|done|]. intros Hs. split; [done|].
  split; [exact (ho_acked _ Hs)|]. split; [exact (ho_bootstrap _ Hs)|].
  destruct (host_mail_ok _ Hs) as [Hm Ho]. split; [split; [|done]; cbn in *|].
  - rewrite queue_contents_insert. intros q l [[<- <-]|[_ Hl]]%lookup_insert_Some; [|by apply Hm].
    split; [done|]. intros r Hr. apply mailed_ok; [done|]. by rewrite <-Heq.
  - intros q. pose proof (ho_order _ Hs q) as Hq. rewrite on_the_way_mailed in *.
    cbn [st_online set_st_mailboxes]. unfold mailed at 1. cbn [st_mailboxes set_st_mailboxes].
    destruct (decide (p = q)) as [->|Hne]; [rewrite lookup_insert_eq|by rewrite lookup_insert_ne].
    cbn [default from_option id]. by rewrite Heq.
Qed.

Lemma ack_of_insert (acked : gmap PeerId u64) p q a :
  ack_of (<[p := a]> acked) q = if decide (p = q) then a else ack_of acked q.
Proof.
  unfold ack_of. case_decide as Hd; [subst; by rewrite lookup_insert_eq|by rewrite lookup_insert_ne].
Qed.

Lemma ack_of_delete (acked : gmap PeerId u64) p q :
  ack_of (delete p acked) q = if decide (p = q) then u64_zero else ack_of acked q.
Proof.
  unfold ack_of. case_decide as Hd; [subst; by rewrite lookup_delete_eq|by rewrite lookup_delete_ne].
Qed.

Lemma evolves_ack s p a :
  p ∈ st_members s → u64_N a < u64_N (st_next_control s) →
  evolves s (set_st_acked_through
    (<[p := u64_max (ack_of (st_acked_through s) p) a]> (st_acked_through s)) s).
Proof.
  intros Hp Ha. apply evolves_mail; [by split_and!|done|]. intros Hs. split_and!.
  - intros q Hq. rewrite !covered_through_N. cbn. rewrite ack_of_insert.
    case_decide; [subst; rewrite u64_max_N|]; lia.
  - intros q b. cbn. intros [[<- <-]|[_ Hb]]%lookup_insert_Some; [|by apply (ho_acked _ Hs)].
    split; [done|]. rewrite u64_max_N. pose proof (ack_lt s p _ (next_pos _ Hs) (ho_acked _ Hs)). lia.
  - exact (ho_bootstrap _ Hs).
  - by apply (host_mail_ok s Hs).
  - exact (ho_order _ Hs).
Qed.

Lemma last_queued_bound queue n :
  (∀ r, r ∈ queued_records (qd_content <$> queue) → u64_N (cr_id r) < n) → 0 < n →
  u64_N (last_queued queue) < n.
Proof.
  unfold last_queued. intros Hr Hn. induction (queued_records _) as [|r l IH]; cbn; [done|].
  rewrite u64_max_N. pose proof (Hr r (list_elem_of_here _ _)).
  assert (u64_N (foldr u64_max u64_zero (cr_id <$> l)) < n); [|lia].
  apply IH. intros r' Hin. apply Hr. by right.
Qed.

(** The state after a flush: what the mail and the bootstrap covered is acknowledged. *)
Definition flushed (p : PeerId) (s : HostState) : HostState :=
  let last := u64_max (last_queued (default [] (st_mailboxes s !! p)))
                (ack_of (st_bootstrap_through s) p) in
  set_st_bootstrap_through (delete p (st_bootstrap_through s))
    (set_st_mailboxes (delete p (st_mailboxes s))
      (set_st_acked_through
        (<[p := u64_max (ack_of (st_acked_through s) p) last]> (st_acked_through s)) s)).

Lemma evolves_flushed s p : p ∈ st_members s → evolves s (flushed p s).
Proof.
  intros Hp. apply evolves_mail; [by split_and!|done|]. intros Hs. split_and!.
  - intros q Hq. rewrite !covered_through_N. cbn. rewrite ack_of_insert, ack_of_delete.
    change (u64_N u64_zero) with 0. case_decide; [subst q; rewrite !u64_max_N|]; lia.
  - intros q b. cbn. intros [[<- <-]|[_ Hb]]%lookup_insert_Some; [|by apply (ho_acked _ Hs)].
    split; [done|]. rewrite !u64_max_N. pose proof (next_pos _ Hs) as Hpos.
    pose proof (ack_lt s p _ Hpos (ho_acked _ Hs)). pose proof (ack_lt s p _ Hpos (ho_bootstrap _ Hs)).
    assert (u64_N (last_queued (default [] (st_mailboxes s !! p))) < u64_N (st_next_control s)); [|lia].
    apply last_queued_bound; [|lia]. intros r Hr. by apply (mailed_ok s p).
  - intros q b. cbn. intros [_ Hb]%lookup_delete_Some. by apply (ho_bootstrap _ Hs).
  - destruct (host_mail_ok _ Hs) as [Hm Ho]. split; [|done]. cbn in *. rewrite queue_contents_delete.
    intros q l [_ Hl]%lookup_delete_Some. by apply Hm.
  - intros q. pose proof (ho_order _ Hs q) as Hq. rewrite on_the_way_mailed in *.
    change (st_online (flushed p s)) with (st_online s). unfold mailed at 1.
    change (st_mailboxes (flushed p s)) with (delete p (st_mailboxes s)).
    destruct (decide (p = q)) as [->|Hne]; [rewrite lookup_delete_eq|by rewrite lookup_delete_ne].
    by apply StronglySorted_app_1_r in Hq.
Qed.
(** A state with one more member, whose mail ends where the log goes on. *)
Lemma evolves_join s s' peer queue through :
  same_vault s s' → peer ∉ st_denied s → peer ∉ st_members s →
  st_members s' = {[peer]} ∪ st_members s →
  st_acked_through s' = st_acked_through s → st_online s' = st_online s →
  st_mailboxes s' = <[peer := queue]> (st_mailboxes s) →
  st_bootstrap_through s' = <[peer := through]> (st_bootstrap_through s) →
  u64_N through = u64_N (st_next_control s) - 1 →
  in_order (queued_records (qd_content <$> queue)) →
  (∀ r, r ∈ queued_records (qd_content <$> queue) → u64_N (cr_id r) <= u64_N through) →
  evolves s s'.
Proof.
  intros Hv Hden Hnot Hm Ea Eo Eq Eb Ht Hord Hr. apply evolves_owed; [done|rewrite Hm; apply union_subseteq_r|].
  intros Hs. pose proof (next_pos _ Hs) as Hpos.
  assert (Enext : st_next_control s' = st_next_control s) by (by destruct Hv as (_ & _ & _ & _ & _ & _ & _ & ?)).
  assert (Hcov : ∀ p, u64_N (covered_through s p) <= u64_N (covered_through s' p)).
  { intros p. rewrite !covered_through_N, Ea, Eb, ack_of_insert.
    pose proof (ack_lt s p _ Hpos (ho_bootstrap _ Hs)). case_decide; lia. }
  assert (Hpeer : u64_N through <= u64_N (covered_through s' peer)).
  { rewrite covered_through_N, Eb, ack_of_insert, decide_True by done. lia. }
  assert (Hsub : ∀ p, p ∈ st_members s → p ∈ st_members s').
  { intros p Hp. rewrite Hm. by apply elem_of_union_r. }
  destruct (host_mail_ok _ Hs) as [Hmail Honline]. split_and!.
  - rewrite Hm. apply disjoint_union_l. split; [by apply disjoint_singleton_l|apply Hs].
  - intros p Hp. by rewrite Ea.
  - intros p. rewrite Hm. intros [->%elem_of_singleton|?]%elem_of_union; [right; lia|by left].
  - unfold given_out. rewrite Ea, Enext. intros p a Hp. destruct (ho_acked _ Hs p a Hp). auto.
  - unfold given_out. rewrite Eb, Enext, Hm. intros p a [[<- <-]|[_ Hp]]%lookup_insert_Some.
    + split; [by apply elem_of_union_l, elem_of_singleton|lia].
    + destruct (ho_bootstrap _ Hs p a Hp). split; [by apply elem_of_union_r|done].
  - split; cbn; intros p q.
    + rewrite Eq, queue_contents_insert. intros [[<- <-]|[_ Hq]]%lookup_insert_Some.
      * split; [rewrite Hm; by apply elem_of_union_l, elem_of_singleton|]. intros r Hin.
        specialize (Hr r Hin). split; [rewrite Enext; lia|right; lia].
      * destruct (Hmail p q Hq) as [Hp Hq']. split; [auto|]. intros r Hin.
        apply (record_ok_covered s); [done|done|auto].
    + rewrite Eo. intros Hq. destruct (Honline p q Hq) as [Hp Hq']. split; [auto|]. intros r Hin.
      apply (record_ok_covered s); [done|done|auto].
  - intros p. pose proof (ho_order _ Hs p) as Hp. rewrite on_the_way_mailed in *. rewrite Eo.
    unfold mailed at 1. rewrite Eq.
    destruct (decide (peer = p)) as [->|Hne]; [rewrite lookup_insert_eq|by rewrite lookup_insert_ne].
    destruct (online_records (st_online s) !! p) as [l|] eqn:Hl; [by destruct (Honline p l Hl)|].
    cbn [default from_option id]. by rewrite app_nil_r.
Qed.
End mail.

(** ** Other changes of the state *)

Section changes.
Context `{Sha256, MlDsa65, XWing, AesGcm, HkdfSha256}.

(** A store that still has every chunk. *)
Lemma evolves_chunks s chunks :
  mc_chunks (st_chunks s) ⊆ mc_chunks chunks → evolves s (set_st_chunks chunks s).
Proof.
  intros Hsub Hs. split; try done. destruct Hs. split; try done.
  intros f t Hf. destruct (ho_files f t Hf) as (Hid & Hd & Hv). split_and!; [done|done|].
  apply (validate_replica_mono (st_chunks s)); [|done]. intros id rec _ Hr _.
  by eapply lookup_weaken.
Qed.

(** Nothing but the admission record and the denied changes. *)
Lemma evolves_admission s admission denied :
  st_members s ## denied →
  evolves s (set_st_admission admission (set_st_denied (st_denied s ∪ denied) s)).
Proof.
  intros Hd Hs. split; try done; [|by apply union_subseteq_l].
  destruct Hs. split; try done. by apply disjoint_union_r.
Qed.

Lemma evolves_set_admission s admission : evolves s (set_st_admission admission s).
Proof. intros Hs. split; try done. by destruct Hs. Qed.

Lemma chunk_put_sub `{Oracle} file_id index plaintext s w :
  wp (chunk_put file_id index plaintext s)
    (λ p _, mc_chunks s ⊆ mc_chunks p.2) (λ _, True) w.
Proof.
  unfold chunk_put. apply wp_if; intros Hhas; [by apply wp_ret|].
  apply wp_bind. eapply wp_mono; [apply wp_any| |done]. intros _ w1 _. apply wp_ret. cbn.
  apply insert_subseteq. unfold chunk_has in Hhas. apply bool_decide_eq_false in Hhas.
  by apply eq_None_not_Some.
Qed.
End changes.

Section methods.
Context `{Sha256, MlDsa65, XWing, AesGcm, HkdfSha256, Oracle}.

(** ** Handing out controls *)

Lemma reseal_online_record session old s :
  wp (reseal_online session old) (λ sealed _, oc_record sealed = oc_record old) (λ _, True) s.
Proof.
  unfold reseal_online. apply wp_if; intros _; [by apply wp_ret|]. apply wp_bind.
  unfold wp at 1. by destruct (seal_control session (oc_record old) s) as [[packet|] s1].
Qed.

Lemma refresh_pending_quiet recipient session i h :
  wp (refresh_pending recipient session i) (λ _, quiet h) (quiet h) h.
Proof.
  apply wp_bind, wp_get. destruct (_ !! i) as [old|] eqn:Hold; [|by apply wp_ret].
  apply wp_bind, on_keys_wp; [|intros; apply quiet_world].
  intros sealed k k' Hk. unfold wp, update_state, update.
  split; [|by destruct h as [w [] ? ? ? ? ? ? ? ?]]. cbn. split; [done|split; [|by destruct (hs_state h)]].
  cbn. unfold online_records. apply map_eq. intros p. rewrite !lookup_fmap.
  destruct (decide (p = recipient)) as [->|Hne]; [|by rewrite lookup_alter_ne].
  rewrite lookup_alter_eq. destruct (st_online (hs_state h) !! recipient) as [l|]; [|done].
  cbn in Hold |- *. f_equal. apply list_fmap_alter_same. intros x Hx. rewrite Hold in Hx.
  injection Hx as <-. refine (wp_Ok _ (λ sealed _, oc_record sealed = oc_record old) (λ _, True) _ _ _ _ Hk).
  apply reseal_online_record.
Qed.

Lemma refresh_pending_keeps R `{!HostRelation R} recipient session i :
  keeps R (refresh_pending recipient session i).
Proof. apply keeps_quiet; [done|]. apply refresh_pending_quiet. Qed.
Hint Resolve refresh_pending_keeps : host.

Context (R : relation HostService) `{!HostRelation R}.

Lemma take_online_control_keeps recipient : keeps R (take_online_control recipient).
Proof.
  unfold take_online_control. host_steps. apply keeps_staged. intros h1. apply wp_bind.
  eapply wp_mono; [apply (publish_keeps R); [apply evolves_drop_online|done]| |done]. done.
Qed.

(** ** Mail *)

Lemma append_mailbox_keeps recipient file_id index : keeps R (append_mailbox recipient file_id index).
Proof.
  intros h. unfold append_mailbox. apply wp_bind, require_running_wp; [intros _|done].
  apply wp_bind, require_member_wp; [intros Hm|done]. apply wp_bind, wp_get.
  apply wp_bind, wp_lift; [intros trusted _|done]. apply wp_bind, wp_lift; [intros id _|done].
  apply wp_bind. eapply wp_mono; [apply refresh_mailboxes_quiet|cbn beta|apply (hr_quiet R)].
  intros _ h1 [Hq1 _].
  apply wp_bind, (wp_quiet _ _ _ h); [done|apply on_keys_quiet|intros session h2 Hq2|apply (hr_quiet R)].
  apply wp_bind, wp_get. apply wp_bind, wp_lift; [intros plaintext _|intros _; by apply (hr_quiet R)].
  apply wp_bind, (wp_quiet _ _ _ h); [done|apply on_keys_quiet|intros _ h3 Hq3|apply (hr_quiet R)].
  apply wp_bind, (wp_quiet _ _ _ h); [done|apply on_keys_quiet|intros sealed h4 Hq4|apply (hr_quiet R)].
  apply wp_bind, wp_bind, wp_get, wp_ret. cbv zeta.
  apply wp_bind, on_world_wp; [|intros; apply (hr_quiet R); etransitivity; [exact Hq4|apply quiet_world]].
  intros now w _. set (h5 := set_hs_world w h4).
  assert (Hq5 : quiet h h5) by (etransitivity; [exact Hq4|apply quiet_world]).
  apply wp_bind, wp_lift; [intros envelope _|intros _; by apply (hr_quiet R)].
  apply wp_catch. refine (wp_mono _ _ _ _ _ _ (publish_keeps R _ h5 _ _) _ _); [|done|cbn beta..].
  - cbn [hs_state h5 set_hs_world]. apply evolves_mailbox.
    + destruct Hq4 as [(_ & _ & ->) _]. exact Hm.
    + rewrite fmap_app, queued_records_app, app_nil_r.
      rewrite (filter_content _ (λ c, ¬ body_at file_id index c)).
      * by rewrite queued_records_filter; [|auto].
      * intros e. unfold chunk_at, body_at. by destruct (qd_content e).
  - intros _ h6 Hh. etransitivity; [by apply (hr_quiet R)|exact Hh].
  - intros h6 Hh e. apply (keeps_wp R _ _ _ h); [|etransitivity; [by apply (hr_quiet R)|exact Hh]|done|done].
    host_steps.
Qed.

(** ** Acknowledgements *)

Lemma acknowledge_applied_keeps peer through : keeps R (acknowledge_applied peer through).
Proof.
  intros h. unfold acknowledge_applied. apply wp_bind, require_running_wp; [intros _|done].
  apply wp_bind, require_member_wp; [intros Hm|done]. apply wp_bind, wp_get.
  apply wp_if; intros Hlt; [|by apply wp_err]. apply wp_if; intros _; [by apply wp_ret|].
  apply wp_bind, wp_bind, wp_get, wp_ret. apply (publish_keeps R); [|done].
  apply evolves_ack; [done|]. by apply N.ltb_lt.
Qed.

Lemma acknowledge_flush_tame peer prepared : keeps tame (acknowledge_flush peer prepared).
Proof.
  intros h. unfold acknowledge_flush. apply wp_bind, require_running_wp; [intros _|done].
  apply wp_bind, wp_get. apply wp_if; intros Hc; [|by apply wp_err].
  apply andb_true_iff in Hc as [_ Hc%bool_decide_eq_true].
  apply wp_if; intros _; [|by apply wp_err]. apply wp_if; intros _; [|by apply wp_err].
  apply wp_bind, wp_bind, wp_get, wp_ret. cbv zeta.
  change (set_st_bootstrap_through _ _) with (flushed peer (hs_state h)).
  apply wp_bind. eapply wp_mono; [apply publish_wp| |].
  - cbn beta. intros _ h1 (w & documents & chunks & -> & Hk & _).
    apply wp_bind. unfold wp at 1, update at 1.
    refine (keeps_wp tame _ _ _ h _ (keeps_on_keys tame _) _ (λ _ _ x, x) (λ _ x, x)).
    split; [|done]. intros [Hs Hch]. pose proof (Hch _ _ Hc) as Hp. cbn. split.
    + refine (transitivity (R := evolves) _ _ Hs); [by apply evolves_flushed|by apply evolves_published].
    + intros p c. cbn. intros [_ Hp']%lookup_delete_Some. by eapply Hch.
  - cbn beta. intros h1 [w ->]. by apply (hr_quiet tame), quiet_world.
Qed.
Lemma acknowledge_flush_keeps R' `{!LooseRelation R'} peer prepared : keeps R' (acknowledge_flush peer prepared).
Proof. apply keeps_tame; [done|]. apply acknowledge_flush_tame. Qed.

(** ** Admission *)

Lemma set_admission_keeps metadata : keeps R (set_admission metadata).
Proof.
  unfold set_admission. host_steps. apply keeps_staged. intros h.
  apply (publish_keeps R); [apply evolves_set_admission|done].
Qed.

Lemma attach_staged_evolves metadata s s' :
  st_members s ## vm_denied metadata → attach_staged metadata s = Ok s' →
  evolves s s' ∧ st_members s' = st_members s.
Proof.
  intros Hd. unfold attach_staged. destruct (st_admission s).
  - case_bool_decide; [intros [= <-]|done]. split; [reflexivity|done].
  - intros [= <-]. split; [by apply evolves_admission|done].
Qed.

(** The metadata must deny no member; nothing in the code checks that. *)
Lemma attach_admission_wp metadata h :
  st_members (hs_state h) ## vm_denied metadata →
  wp (attach_admission metadata) (λ _, R h) (R h) h.
Proof.
  intros Hd. unfold attach_admission. apply wp_bind, wp_get. apply wp_if; intros _; [|by apply wp_err].
  apply wp_bind. unfold wp at 1, update at 1. set (h1 := set_hs_admission_path true h).
  assert (Hh1 : R h h1) by (by apply hr_outside).
  apply wp_catch. eapply wp_mono with (Q := λ _, R h) (E := R h); [|done|].
  - apply wp_bind, wp_bind, wp_get, wp_ret. apply wp_bind, wp_lift; [|done]. intros s' Hs'.
    destruct (attach_staged_evolves _ _ _ Hd Hs') as [He Hm].
    refine (wp_mono _ _ _ _ _ _ (publish_keeps R s' h1 He _) _ _); [by rewrite Hm|cbn beta..].
    + intros _ h2 Hh. by etransitivity.
    + intros h2 Hh. by etransitivity.
  - cbn beta. intros h2 Hh2 e. apply wp_bind. unfold wp at 1, update at 1. apply wp_err.
    etransitivity; [exact Hh2|by apply hr_outside].
Qed.

Lemma archive_host_wp staged k :
  wp (archive_host staged)
    (λ s' _, ∃ documents, s' = set_st_historical_members
       (st_historical_members staged ∪ st_members staged)
       (set_st_identity_documents documents staged)) (λ _, True) k.
Proof.
  unfold archive_host. apply wp_bind. eapply wp_mono; [apply wp_any| |done]. intros documents k1 _.
  apply wp_bind, wp_lift; [intros _ _|done]. apply wp_ret. by exists documents.
Qed.

(** Publishing a state with one more member. *)
Lemma publish_joins peer staged h :
  evolves (hs_state h) staged → st_members staged = {[peer]} ∪ st_members (hs_state h) →
  wp (publish_state staged) (λ _ h', joins peer h h' ∧ peer ∈ st_members (hs_state h')) (calm h) h.
Proof.
  intros Hs Hm. eapply wp_mono; [apply publish_wp| |]; cbn beta.
  - intros _ h' (w & documents & chunks & -> & Hk & _).
    split; [|cbn; rewrite Hm; by apply elem_of_union_l, elem_of_singleton].
    split_and!; [|done|cbn; rewrite Hm..].
    + etransitivity; [exact Hs|by apply evolves_published].
    + apply union_subseteq_r.
    + done.
  - intros h' [w ->]. by apply calm_quiet, quiet_world.
Qed.

Lemma joins_after peer h h1 h2 : calm h h1 → joins peer h1 h2 → joins peer h h2.
Proof.
  intros (He & Hc & Hm) (He' & Hc' & Hm'). unfold joins. rewrite <-Hm, <-Hc. split; [by etransitivity|done].
Qed.

(** An admission that fails has made nobody a member. *)
Lemma add_member_joins document h :
  wp (add_member document)
    (λ _ h', joins (doc_peer_id document) h h' ∧ doc_peer_id document ∈ st_members (hs_state h'))
    (calm h) h.
Proof.
  set (peer := doc_peer_id document).
  assert (Hsame : joins peer h h) by by apply joins_calm.
  unfold add_member. apply wp_bind, require_running_wp; [intros _|done].
  apply wp_bind, wp_lift; [intros _ _|done]. fold peer.
  apply wp_bind, wp_get. apply wp_if; intros Hden; [|by apply wp_err].
  apply negb_true_iff, bool_decide_eq_false in Hden. apply wp_if; intros Hnot; [by apply wp_ret; apply bool_decide_eq_true in Hnot|].
  apply bool_decide_eq_false in Hnot.
  apply wp_bind, on_world_wp; [intros _ w _|intros; by apply calm_quiet, quiet_world].
  apply wp_bind, wp_bind, wp_get, wp_ret. cbv zeta. cbn [hs_state set_hs_world].
  set (s := hs_state h) in *. set (staged := set_st_members _ _).
  apply wp_bind, on_keys_wp; [|intros w0; apply calm_quiet; exact (quiet_world w0 h)].
  intros staged' k k' Hk. destruct (wp_Ok _ _ _ _ _ _ (archive_host_wp staged k) Hk) as [documents ->].
  cbv zeta. set (through := u64_saturating_sub _ _). set (h1 := set_hs_world _ _).
  pose proof (quiet_world (hs_world h1) h : quiet h h1) as Hq1.
  apply wp_bind, wp_lift; [intros records Hrec|intros _; by apply calm_quiet].
  apply wp_bind, on_world_wp; [intros queue w2 Hqueue|intros w0; apply calm_quiet; exact (quiet_world w0 h)].
  apply (wp_Ok _ _ _ _ _ _ (bootstrap_queue_wp _ _ _ _)) in Hqueue.
  apply wp_bind, on_keys_wp; [intros _ k2 k2' _|intros w0; apply calm_quiet; exact (quiet_world w0 h)].
  apply wp_catch. set (h2 := set_hs_world _ _). set (s' := set_st_bootstrap_through _ _).
  assert (Hc2 : calm h h2) by apply calm_quiet, (quiet_world (hs_world h2) h).
  assert (He : evolves (hs_state h2) s').
  { apply (evolves_join (hs_state h) s' peer queue through);
      [by split_and!|done|done|done|done|done|done|done| | |].
    - apply u64_saturating_sub_N.
    - rewrite Hqueue, bootstrap_contents_records. by eapply bootstrap_records_in_order.
    - rewrite Hqueue, bootstrap_contents_records. intros r Hr.
      by eapply bootstrap_records_le in Hrec as []. }
  refine (wp_mono _ _ _ _ _ _ (publish_joins peer s' h2 He _) _ _); [done|cbn beta..].
  - intros _ h3 [Hh Hp]. split; [by eapply joins_after|done].
  - intros h3 Hh e. apply wp_bind, wp_get, wp_bind.
    apply (keeps_wp calm _ _ _ h); [apply keeps_on_keys, _|by etransitivity|by intros; apply wp_err|done].
Qed.

Lemma add_member_keeps document : keeps hop (add_member document).
Proof.
  intros h. eapply wp_mono; [apply add_member_joins| |]; cbn beta; [intros _ h' [Hj _]; by eapply hop_joins|apply hop_calm].
Qed.
End methods.

#[export] Hint Resolve take_online_control_keeps append_mailbox_keeps acknowledge_applied_keeps
  acknowledge_flush_keeps set_admission_keeps add_member_keeps : host.

(** ** Uploads and a resumed service *)

Section uploads.
Context `{Sha256, MlDsa65, XWing, AesGcm, HkdfSha256, Oracle}.
Context (R : relation HostService) `{!HostRelation R}.

Lemma put_body_keeps file_id body : keeps R (put_body file_id body).
Proof.
  unfold put_body. apply keeps_get. intros h.
  apply wp_bind, on_world_wp; [|intros; by apply (hr_quiet R), quiet_world].
  intros [id chunks] w Hput. unfold wp, update_state, update. apply hr_calm. split_and!; [|done|done].
  apply (evolves_chunks (hs_state h)). exact (wp_Ok _ _ _ _ _ _ (chunk_put_sub _ _ _ _ _) Hput).
Qed.
End uploads.

Section resume.
Context `{Sha256, MlDsa65, XWing, AesGcm, HkdfSha256, Oracle}.
Context (R : relation HostService) `{!HostRelation R}.

Lemma link_matches_kicked file_id link u :
  link_matches file_id link = true → link = Some u → kicked u = ∅.
Proof. by intros Hl ->; destruct u. Qed.

Lemma stage_upload_wp sender m bodies link h :
  link_matches (mf_file_id m) link = true →
  wp (stage_upload sender m bodies link) (λ staged t, calm h t ∧ staged = hs_state t) (calm h) h.
Proof.
  intros Hl. unfold stage_upload. pose proof (put_body_keeps calm) as Hput.
  apply wp_bind, (keeps_wp calm _ _ _ h); [host_steps|done|intros _ h1 Hh1|done].
  apply wp_bind, (keeps_wp calm _ _ _ h);
    [by apply fan_out_control_keeps; [apply _|]|done|intros _ h2 Hh2|done].
  apply wp_bind, (keeps_wp calm _ _ _ h); [|done|intros _ h3 Hh3|done].
  { destruct link as [u|] eqn:Hu; [|by apply keeps_ret, _].
    apply fan_out_control_keeps; [apply _|by eapply link_matches_kicked]. }
  by apply wp_bind, wp_get, wp_ret.
Qed.

Lemma in_transaction_wp (m : SM HostService HostState) h :
  wp m (λ staged t, calm (staged_service h) t ∧ staged = hs_state t) (calm (staged_service h)) (staged_service h) →
  wp (in_transaction m) (λ staged h', framed h h'
      ∧ evolves (hs_state h) staged ∧ st_members staged = st_members (hs_state h)) (framed h) h.
Proof.
  unfold wp, in_transaction. destruct (m (staged_service h)) as [[staged|e] t]; [|by eexists].
  intros [(He & _ & Hm) ->]. split; [by eexists|done].
Qed.

Lemma commit_writer_upload_keeps sender m bodies link :
  keeps R (commit_writer_upload sender m bodies link).
Proof.
  unfold commit_writer_upload.
  apply keeps_bind; [done|by apply verify_writer_manifest_keeps|intros _].
  destruct (link_matches (mf_file_id m) link) eqn:Hl; [|apply keeps_err, _].
  host_steps. intros h.
  apply wp_bind. eapply wp_mono; [by apply in_transaction_wp, stage_upload_wp| |].
  2: { intros h1 Hf. by apply (hr_quiet R), framed_quiet. }
  cbn beta. intros staged h1 (Hf & He & Hm).
  assert (Hh1 : R h h1) by (by apply (hr_quiet R), framed_quiet).
  apply wp_bind. destruct Hf as [w ->].
  refine (wp_mono _ _ _ _ _ _ (publish_keeps R staged (set_hs_world w h) He Hm) _ _); cbn beta.
  - intros _ h2 Hh2. apply (keeps_wp R _ _ _ h); [host_steps|by etransitivity|done|done].
  - intros h2 Hh2. by etransitivity.
Qed.

Lemma save_file_keeps writer path bodies : keeps R (save_file writer path bodies).
Proof. pose proof commit_writer_upload_keeps. unfold save_file. host_steps. Qed.

(** What was not handed out becomes mail. *)
Lemma requeue_records pending s :
  wp (sm_map (λ u, sm_lift (requeue u)) pending)
    (λ moved s', s' = s ∧ qd_content <$> moved = QControl <$> (oc_record <$> pending))
    (λ s' : HostService, s' = s) s.
Proof.
  induction pending as [|u pending IH]; cbn [sm_map]; [by apply wp_ret|].
  apply wp_bind, wp_lift; [|done]. unfold requeue.
  destruct (control_envelope _ _) as [envelope|]; [|done]. intros q [= <-].
  apply wp_bind. eapply wp_mono; [exact IH| |done]. cbn beta. intros moved s' [-> Hm].
  apply wp_ret. split; [done|]. by rewrite !fmap_cons, Hm.
Qed.

Lemma requeue_all_wp pending mailboxes h :
  NoDup pending.*1 →
  wp (sm_fold requeue_pending pending mailboxes)
    (λ mailboxes' h', h' = h ∧ ∀ p, owed (queue_contents mailboxes', ∅) p
       = owed (queue_contents mailboxes, online_records (list_to_map pending)) p
       ∧ (is_Some (queue_contents mailboxes' !! p) →
          is_Some (queue_contents mailboxes !! p) ∨ p ∈ pending.*1))
    (λ h', h' = h) h.
Proof.
  revert mailboxes. induction pending as [|[p l] pending IH]; intros mailboxes; cbn [sm_fold fmap list_fmap fst].
  { intros _. apply wp_ret. split; [done|]. intros p. split; [|by left].
    unfold owed. cbn [fst snd]. by rewrite lookup_empty. }
  intros [Hp Hnd]%NoDup_cons. apply wp_bind. unfold requeue_pending at 1. cbn [fst snd].
  apply wp_bind. eapply wp_mono; [apply requeue_records| |done]. cbn beta. intros moved h2 [-> Hmoved].
  apply wp_ret. eapply wp_mono; [by apply IH| |done]. cbn beta. intros mailboxes' h3 [-> Hm].
  split; [done|]. intros q. destruct (Hm q) as [-> Hq]. rewrite queue_contents_insert in *.
  unfold owed. cbn [fst snd list_to_map foldr]. rewrite online_records_insert. split.
  - destruct (decide (p = q)) as [<-|Hne]; [|by rewrite !lookup_insert_ne].
    rewrite !lookup_insert_eq. cbn [default from_option id]. rewrite fmap_app, queued_records_app, Hmoved,
      queued_records_controls, queue_contents_lookup.
    assert (online_records (list_to_map pending) !! p = None) as ->.
    { unfold online_records. rewrite lookup_fmap, not_elem_of_list_to_map_1 by done. done. }
    cbn. rewrite app_nil_r. by destruct (mailboxes !! p).
  - intros [Hs|Hs]%Hq; [|by right; right]. destruct (decide (p = q)) as [<-|Hne]; [by right; left|].
    rewrite lookup_insert_ne in Hs by done. by left.
Qed.

(** [resume] owes the members what the state it takes over owed them. *)
Lemma resume_wp h : host_ok (hs_state h) → wp resume (λ _, R h) (R h) h.
Proof.
  intros Hs. unfold resume. apply wp_bind, on_keys_wp; [|intros; by apply (hr_quiet R), quiet_world].
  intros local k k' _. apply wp_bind, wp_get. set (h1 := set_hs_world _ h).
  assert (Hq1 : quiet h h1) by apply quiet_world.
  apply wp_if; intros _; [|by apply wp_err, (hr_quiet R)].
  apply wp_bind. eapply wp_mono; [apply requeue_all_wp, sorted_entries_NoDup| |].
  - cbn beta. intros mailboxes h2 [-> Hmail].
    rewrite list_to_map_sorted_entries in Hmail. change (hs_state h1) with (hs_state h) in *.
    apply wp_bind. unfold wp at 1, update_state, update at 1.
    apply (keeps_wp R _ _ _ h); [host_steps| |done|done].
    apply hr_calm. split_and!; [|done|done].
    assert (Hway : ∀ p, owed (queue_contents mailboxes, ∅) p = on_the_way (hs_state h) p) by apply Hmail.
    apply evolves_mail; [by split_and!|done|].
    intros _. split_and!; [done|exact (ho_acked _ Hs)|exact (ho_bootstrap _ Hs)| |].
    + split; [|intros p q Hq; done].
      intros p q Hq. change (queue_contents mailboxes !! p = Some q) in Hq. split.
      * destruct (Hmail p) as [_ [[l Hl]|Hin]]; [by eexists|by destruct (ho_mail _ Hs p l Hl)|].
        apply list_elem_of_fmap in Hin as ([p' l] & -> & Hl%elem_of_sorted_entries).
        refine (proj1 (ho_online _ Hs p' (oc_record <$> l) _)). unfold online_records.
        by rewrite lookup_fmap, Hl.
      * intros r Hr. apply on_the_way_ok; [done|]. rewrite <-Hway. unfold owed. cbn [fst]. rewrite Hq.
        apply elem_of_app. by left.
    + intros p. specialize (Hway p). pose proof (ho_order _ Hs p) as Ho. by rewrite <-Hway in Ho.
  - intros h2 ->. by apply (hr_quiet R).
Qed.
End resume.
