(* ===== verification/HostClaims.v ===== *)
(** * What the host promises

    [commit_delivers]: a commit is all or nothing, and a record once committed is the last thing
    on its way to every recipient.  [host_invariant], [host_history], [kick_permanent]: what holds
    after any sequence of methods.  [unacked_recoverable]: the snapshot leads every member through
    all it has not acknowledged. *)
From S2P Require Import KeyStoreClaims PullClaims.
From S2P Require Export HostMethods.
From Stdlib Require Import Lia ZifyN ZifyNat.

Open Scope N_scope.

Section claims.
Context `{Sha256, MlDsa65, XWing, AesGcm, HkdfSha256}.

(** ** Commits *)

(** The files after an update: the manifest it brings, without the file it removes. *)
Definition manifests_after (manifests : gmap FileId TrustedManifest) (update : ControlUpdate)
    (trusted : option TrustedManifest) (removed_file : option FileId) : gmap FileId TrustedManifest :=
  let manifests := match update, trusted with
                   | NewManifest m, Some t => <[mf_file_id m := t]> manifests
                   | _, _ => manifests
                   end in
  match removed_file with Some f => delete f manifests | None => manifests end.

Lemma staged_commit_manifests record trusted tree removed_file next queues online admission s :
  st_manifests (staged_commit record trusted tree removed_file next queues online admission s)
  = manifests_after (st_manifests s) (cr_update record) trusted removed_file.
Proof. unfold staged_commit. by destruct (cr_update record), trusted, removed_file. Qed.

(** What a commit of [update] as instruction [st_next_control s] makes of a state. *)
Record committed (update : ControlUpdate) (trusted : option TrustedManifest) (s s' : HostState) : Prop := {
  cm_valid : validate_link_kind (st_manifests s) update = Ok tt;
  cm_tree : ∃ removed_file, apply_tree_update (st_tree s) update = Ok (st_tree s', removed_file)
    ∧ st_manifests s' = manifests_after (st_manifests s) update trusted removed_file;
  cm_next : u64_N (st_next_control s') = u64_N (st_next_control s) + 1;
  cm_members : st_members s' = st_members s ∖ kicked update;
  cm_denied : st_denied s' = kicked update ∪ st_denied s;
  cm_log : st_log s' = log_after (ack_floor s') (st_log s ++ [mkControlRecord (st_next_control s) update]);
  cm_way p : on_the_way s' p
    = if decide (p ∈ kicked update) then []
      else if decide (p ∈ st_members s ∧ p ≠ st_host_id s)
           then on_the_way s p ++ [mkControlRecord (st_next_control s) update]
           else on_the_way s p;
}.

Lemma commits_committed update trusted h h' :
  commits update trusted h h' → committed update trusted (hs_state h) (hs_state h').
Proof.
  intros (live & tree & removed_file & next & queues & online & admission & Hk & Ht & Hn & _
    & Hdel & _ & (w & documents & chunks & -> & _)).
  set (s := hs_state h) in *. set (record := mkControlRecord (st_next_control s) update) in *.
  destruct (staged_commit_fields record trusted tree removed_file next queues online admission s)
    as (_ & Etree & _ & Emem & Eden & Elog & Enext & Eack & _ & Email & Eonline & _).
  pose proof (λ p, staged_commit_way s update trusted tree removed_file next queues online admission
    live p Hdel) as Hway. fold record in Hway.
  pose proof (staged_commit_manifests record trusted tree removed_file next queues online admission s) as Eman.
  revert Hway Etree Emem Eden Elog Enext Eack Email Eonline Eman.
  generalize (staged_commit record trusted tree removed_file next queues online admission s).
  cbn [hs_state set_hs_world set_hs_state cr_update cr_id record].
  intros s' Hway Etree Emem Eden Elog Enext Eack Email Eonline Eman.
  apply u64_checked_add_Some in Hn. split.
  - exact Hk.
  - exists removed_file. cbn. rewrite Etree, Eman. done.
  - cbn. by rewrite Enext.
  - exact Emem.
  - exact Eden.
  - change (st_log (published documents chunks s')) with (log_after (ack_floor s') (st_log s')).
    change (ack_floor (published documents chunks s')) with (ack_floor s'). by rewrite Elog.
  - intros p. change (on_the_way (published documents chunks s') p) with (on_the_way s' p).
    exact (Hway p).
Qed.

(** ** The snapshot *)

Lemma recovered_lookup s p :
  p ∈ st_members s → p ≠ st_host_id s →
  default [] (recovered_mailboxes s !! p)
  = recovered_queue s p (default [] (queue_contents (st_mailboxes s) !! p)).
Proof.
  intros Hp Hne.
  assert (Hfold : ∀ (peers : list PeerId) (mailboxes : gmap PeerId (list QueueContent)), NoDup peers →
    foldl (λ mailboxes peer, if bool_decide (peer = st_host_id s) then mailboxes
             else <[peer := recovered_queue s peer (default [] (mailboxes !! peer))]> mailboxes)
      mailboxes peers !! p
    = if decide (p ∈ peers) then Some (recovered_queue s p (default [] (mailboxes !! p)))
      else mailboxes !! p).
  { intros peers mailboxes Hnd. revert mailboxes.
    induction Hnd as [|peer peers Hni Hnd IH]; intros mailboxes; cbn [foldl]; [done|]. rewrite IH.
    case_bool_decide as Hh.
    - apply decide_ext. set_solver.
    - destruct (decide (p = peer)) as [->|Hpp].
      + by rewrite decide_False, decide_True, lookup_insert_eq by (done || by left).
      + rewrite !lookup_insert_ne by done. apply decide_ext. set_solver. }
  unfold recovered_mailboxes.
  set (m := foldl _ _ _). assert (Hm : m !! p = Some (recovered_queue s p
    (default [] (queue_contents (st_mailboxes s) !! p)))).
  { unfold m. rewrite Hfold by apply NoDup_sorted_elements. by rewrite decide_True by by apply elem_of_sorted_elements. }
  destruct (filter _ m !! p) as [q|] eqn:Hq.
  - apply map_lookup_filter_Some in Hq as [Hq _]. rewrite Hm in Hq. by injection Hq as <-.
  - apply map_lookup_filter_None in Hq as [Hq|Hq]; [by rewrite Hq in Hm|].
    specialize (Hq _ Hm). cbn in Hq. by apply dec_stable in Hq.
Qed.

Lemma elem_of_sort_records l r : r ∈ sort_records l ↔ r ∈ l.
Proof. unfold sort_records. by rewrite merge_sort_Permutation. Qed.

Lemma queued_records_bodies q : queued_records (filter is_chunk q) = [].
Proof.
  induction q as [|c q IH]; [done|]. rewrite filter_cons. case_decide as Hc; [|done].
  unfold queued_records in *. cbn. by rewrite Hc.
Qed.

(** The records of a recovered mailbox: those of the mailbox and what is missing. *)
Lemma elem_of_recovered_records s p q r :
  r ∈ queued_records (recovered_queue s p q) ↔ r ∈ queued_records q ∨ r ∈ missing_records s p q.
Proof.
  unfold recovered_queue. case_bool_decide as Hm.
  - rewrite Hm. split; [by left|]. by intros [|?%elem_of_nil].
  - rewrite queued_records_app, queued_records_controls, queued_records_bodies, app_nil_r.
    by rewrite elem_of_sort_records, elem_of_app.
Qed.

Lemma log_unique first log next r r' :
  log_ok first log next → r ∈ log → r' ∈ log → cr_id r = cr_id r' → r = r'.
Proof.
  intros (Hi & _) [i Hr]%list_elem_of_lookup [j Hr']%list_elem_of_lookup Hid.
  pose proof (Hi _ _ Hr). pose proof (Hi _ _ Hr'). assert (i = j) as -> by (rewrite Hid in *; lia).
  congruence.
Qed.

Lemma in_order_le l : StronglySorted record_le l → NoDup (cr_id <$> l) → in_order l.
Proof.
  induction 1 as [|r l Hl IH Hr]; cbn; [by constructor|]. intros [Hni Hnd]%NoDup_cons.
  apply StronglySorted_cons. split; [|by apply IH]. rewrite Forall_forall in Hr |- *.
  intros r' Hin. specialize (Hr r' Hin). unfold record_le, record_lt in *.
  assert (cr_id r ≠ cr_id r') by (intros Hid; apply Hni; rewrite Hid; by apply list_elem_of_fmap_2).
  assert (u64_N (cr_id r) ≠ u64_N (cr_id r')) by (intros ?%u64_eq; done). lia.
Qed.

Lemma in_order_NoDup l : in_order l → NoDup (cr_id <$> l).
Proof.
  induction 1 as [|r l Hl IH Hr]; cbn; [by constructor|]. apply NoDup_cons. split; [|done].
  intros (r' & Hid & Hin)%list_elem_of_fmap. rewrite Forall_forall in Hr. specialize (Hr r' Hin).
  unfold record_lt in Hr. rewrite Hid in Hr. lia.
Qed.

Lemma log_in_order first log next : log_ok first log next → in_order log.
Proof.
  intros (Hi & _ & _). revert first Hi. induction log as [|r log IH]; intros first Hi; [constructor|].
  assert (Hlog : ∀ i r', log !! i = Some r' → u64_N (cr_id r') = first + 1 + N.of_nat i).
  { intros i r' Hl. rewrite (Hi (S i) r' Hl). lia. }
  apply StronglySorted_cons. split; [|by eapply IH].
  apply Forall_lookup. intros i r' Hl. unfold record_lt. rewrite (Hlog i r' Hl), (Hi 0%nat r eq_refl). lia.
Qed.

Lemma NoDup_filter_ids (P : ControlRecord → Prop) `{∀ r, Decision (P r)} l :
  NoDup (cr_id <$> l) → NoDup (cr_id <$> filter P l).
Proof.
  induction l as [|r l IH]; [done|]. cbn [fmap list_fmap]. intros [Hni Hnd]%NoDup_cons.
  rewrite filter_cons. case_decide; [|by apply IH]. cbn. apply NoDup_cons. split; [|by apply IH].
  intros (r' & Hid & [_ Hin]%list_elem_of_filter)%list_elem_of_fmap. apply Hni. rewrite Hid.
  by apply list_elem_of_fmap_2.
Qed.

Lemma recovered_in_order s p q :
  (∃ first, log_ok first (st_log s) (st_next_control s)) → in_order (queued_records q) →
  in_order (queued_records (recovered_queue s p q)).
Proof.
  intros [first Hlog] Hq. unfold recovered_queue. case_bool_decide; [done|].
  rewrite queued_records_app, queued_records_controls, queued_records_bodies, app_nil_r.
  apply in_order_le.
  - apply StronglySorted_merge_sort.
    + intros r1 r2 r3. unfold record_le. lia.
    + intros r1 r2. unfold record_le. lia.
  - unfold sort_records. rewrite merge_sort_Permutation, fmap_app. apply NoDup_app. split_and!.
    + by apply in_order_NoDup.
    + intros id Hid (r & -> & [[_ Hr] _]%list_elem_of_filter)%list_elem_of_fmap. done.
    + apply NoDup_filter_ids, in_order_NoDup. by eapply log_in_order.
Qed.

(** C16: the snapshot leads every member through all it has not acknowledged.  The mailbox it keeps
    for the member has its instructions in rising order, and each instruction number after what
    the member's acknowledgement or bootstrap covers, up to the last commit, is in the log exactly
    once and that record is in the mailbox, whether it was mailed, waits for a connection, or was
    handed out and not acknowledged. *)
Theorem unacked_recoverable s p :
  host_ok s → p ∈ st_members s → p ≠ st_host_id s →
  let mail := queued_records (default [] (rm_mailboxes (host_metadata s) !! p)) in
  in_order mail
  ∧ ∀ n, u64_N (covered_through s p) < n < u64_N (st_next_control s) →
      ∃ r, u64_N (cr_id r) = n ∧ r ∈ st_log s
        ∧ (∀ r', r' ∈ st_log s → u64_N (cr_id r') = n → r' = r) ∧ r ∈ mail.
Proof.
  intros Hs Hp Hne mail. unfold mail.
  change (rm_mailboxes (host_metadata s)) with (recovered_mailboxes s).
  rewrite recovered_lookup by done. set (q := default [] _).
  destruct (ho_log _ Hs) as (first & Hlog & Hkeep). specialize (Hkeep p Hp). split.
  { apply recovered_in_order; [by exists first|].
    exact (StronglySorted_app_1_l _ _ _ (ho_order _ Hs p)). }
  intros n Hn. destruct (log_complete _ _ _ n Hlog) as (r & Hr & Hid); [lia|].
  exists r. split_and!; [done|done| |].
  { intros r' Hr' Hid'. eapply log_unique; [exact Hlog|done|done|]. apply u64_eq. lia. }
  apply elem_of_recovered_records.
  destruct (decide (cr_id r ∈ (cr_id <$> queued_records q))) as [Hin|Hni].
  - left. apply list_elem_of_fmap in Hin as (r' & Hid' & Hr').
    destruct (on_the_way_ok s p r' Hs) as [_ [Hl|Hc]];
      [apply elem_of_app; by left| |rewrite <-Hid' in Hc; lia].
    by rewrite (log_unique _ _ _ r r' Hlog Hr Hl Hid').
  - right. apply list_elem_of_filter. split; [|done]. split; [lia|done].
Qed.

(** C17: a commit is all or nothing.  If it succeeds, the new instruction has the next number, the
    tree and the manifests are those the update gives, the log ends with it, and it is the last
    thing on its way to every member but the host; a kicked member is denied and nothing is on the
    way to it.  If it fails at any point, only ciphertexts have changed. *)
Theorem commit_delivers `{Oracle} update trusted rotated h :
  carries update trusted →
  match commit_verified_with_code update trusted rotated h with
  | (Ok _, h') => committed update trusted (hs_state h) (hs_state h')
  | (Err _, h') => quiet h h'
  end.
Proof.
  intros Hc. apply (wp_mono (commit_verified_with_code update trusted rotated) _ _ _ _ h
    (commit_verified_wp update trusted rotated h Hc)); [|done].
  intros _ h'. apply commits_committed.
Qed.
End claims.

(** ** The life of a host *)

Inductive HostCommand :=
  | HWorld (w : World)
  | HHeartbeat (peer : PeerId) (ttl : N)
  | HPresence (peer : PeerId)
  | HAddMember (document : IdentityDocument)
  | HKick (target : PeerId) (code : option JoinCode)
  | HTakeDisconnects
  | HAttachAdmission (metadata : VaultMetadata)
  | HSetAdmission (metadata : VaultMetadata)
  | HCommit (m : Manifest)
  | HFanOut (sender : PeerId) (update : ControlUpdate)
  | HTakeOnline (recipient : PeerId)
  | HRefresh
  | HMailbox (recipient : PeerId)
  | HAppendMailbox (recipient : PeerId) (file_id : FileId) (index : u64)
  | HChallenge (recipient : PeerId)
  | HPrepareFlush (peer : PeerId) (challenge : FlushChallenge) (signature : bytes)
  | HAckFlush (peer : PeerId) (prepared : PreparedHostFlush)
  | HAckApplied (peer : PeerId) (through : u64)
  | HMkdir (sender : PeerId) (path : text)
  | HLinkFile (sender : PeerId) (path : text) (child : FileId)
  | HUnlink (sender : PeerId) (path : text)
  | HRename (sender : PeerId) (source destination : text)
  | HPutChunk (file_id : FileId) (body : u64 * bytes)
  | HUpload (sender : PeerId) (m : Manifest) (bodies : list (u64 * bytes)) (link : option ControlUpdate)
  | HSaveFile (writer : StoreInner) (path : text) (bodies : list bytes)
  | HStop
  | HResume.

Section life.
Context `{Sha256, MlDsa65, XWing, AesGcm, HkdfSha256, Oracle}.

Definition ignore {A} (m : SM HostService A) : SM HostService unit := do! _ := m in sm_ret tt.

(** One call; [HWorld] is whatever else uses the key store and the disk in between, [HPutChunk] a
    user of the shared chunk store. *)
Definition run_host (c : HostCommand) : SM HostService unit :=
  match c with
  | HWorld w => update (set_hs_world w)
  | HHeartbeat peer ttl => heartbeat peer ttl
  | HPresence peer => ignore (presence peer)
  | HAddMember document => add_member document
  | HKick target code => ignore (kick_with_code target code)
  | HTakeDisconnects => ignore take_disconnects
  | HAttachAdmission metadata => attach_admission metadata
  | HSetAdmission metadata => set_admission metadata
  | HCommit m => commit m
  | HFanOut sender update => fan_out_control sender update
  | HTakeOnline recipient => ignore (take_online_control recipient)
  | HRefresh => refresh_mailboxes
  | HMailbox recipient => ignore (mailbox recipient)
  | HAppendMailbox recipient file_id index => append_mailbox recipient file_id index
  | HChallenge recipient => ignore (issue_flush_challenge recipient)
  | HPrepareFlush peer challenge signature => ignore (prepare_flush peer challenge signature)
  | HAckFlush peer prepared => acknowledge_flush peer prepared
  | HAckApplied peer through => acknowledge_applied peer through
  | HMkdir sender path => ignore (mkdir sender path)
  | HLinkFile sender path child => link_file sender path child
  | HUnlink sender path => host_unlink sender path
  | HRename sender source destination => host_rename sender source destination
  | HPutChunk file_id body => put_body file_id body
  | HUpload sender m bodies link => commit_writer_upload sender m bodies link
  | HSaveFile writer path bodies => ignore (save_file writer path bodies)
  | HStop => update (set_hs_running false)
  | HResume =>
      do! _ := update (λ h, new_service (hs_world h) (hs_state h)) in
      resume
  end.

(** The admission file of a vault denies none of its members; [attach_admission] does not check. *)
Definition command_ok (h : HostService) (c : HostCommand) : Prop :=
  match c with
  | HAttachAdmission metadata => st_members (hs_state h) ## vm_denied metadata
  | _ => True
  end.

(** A host after any calls, successful or not. *)
Inductive host_reaches (h : HostService) : HostService → Prop :=
  | host_now : host_reaches h h
  | host_then h1 c : host_reaches h h1 → command_ok h1 c → host_reaches h (run_host c h1).2.

Lemma ignore_keeps {A} R `{!HostRelation R} (m : SM HostService A) : keeps R m → keeps R (ignore m).
Proof. intros Hm. apply keeps_bind; [done|done|]. intros _. by apply keeps_ret. Qed.

Lemma run_host_hop c h : command_ok h c → hop h (run_host c h).2.
Proof.
  intros Hc.
  assert (Hk : ∀ m : SM HostService unit, keeps hop m → hop h (m h).2).
  { intros m Hm. apply (wp_state m (hop h)), Hm. }
  pose proof (commit_writer_upload_keeps hop). pose proof (save_file_keeps hop).
  pose proof (put_body_keeps hop).
  pose proof (λ A, ignore_keeps (A := A) hop).
  destruct c; cbn [run_host]; try (apply Hk; host_steps; fail).
  - by apply (wp_state (attach_admission metadata) (hop h)), attach_admission_wp; [apply _|].
  - unfold sm_bind, update at 1. set (h1 := new_service _ _). intros [Hs Hch].
    pose proof (resume_wp hop h1 Hs) as Hw. apply (wp_state resume (hop h1)) in Hw.
    apply Hw. split; [exact Hs|]. by intros p c.
Qed.

Lemma host_reaches_hop h h1 : host_reaches h h1 → hop h h1.
Proof. induction 1 as [|h1 c Hr IH Hc]; [reflexivity|]. etransitivity; [exact IH|by apply run_host_hop]. Qed.

(** ** Promises for a lifetime *)

(** The state of a vault with these members before any instruction. *)
Lemma new_vault_ok members chunks root s w w' :
  new_in_vault members chunks root w = (Ok s, w') →
  host_ok s ∧ st_members s = members ∧ st_expected_root s = root ∧ st_denied s = ∅.
Proof.
  unfold new_in_vault, HostService_new. intros Hn. sm_destruct.
  match goal with Hg : bool_decide _ = true |- _ => apply bool_decide_eq_true in Hg as Hhost end.
  split_and!; [|done|done|done]. split; cbn.
  - apply tree_ok_new.
  - done.
  - exact Hhost.
  - apply disjoint_empty_r.
  - intros f t Hf. by rewrite lookup_empty in Hf.
  - exists 1. split; [|intros p _; lia]. split; [by intros i r Hr; rewrite lookup_nil in Hr|done].
  - done.
  - intros p a Hp. by rewrite lookup_empty in Hp.
  - intros p a Hp. by rewrite lookup_empty in Hp.
  - intros p q Hp. by rewrite lookup_fmap, lookup_empty in Hp.
  - intros p q Hp. by rewrite lookup_fmap, lookup_empty in Hp.
  - intros p. constructor.
  - rewrite map_size_empty, map_size_singleton. done.
Qed.

(** C15: whatever is called on a new vault's host, in any order, with any clock, randomness and
    failing writes, and whatever else uses the key store and the disk in between - but no admission
    file is attached in which a member is also denied, which [attach_admission] would accept
    ([command_ok]) - every state it goes through satisfies [host_ok]: well-formed tree, every
    committed file held, members not denied, a log without gaps that has all some member has not
    acknowledged, and instructions on their way in order; flush challenges are open for members
    only. *)
Theorem host_invariant members chunks root s w w' h :
  new_in_vault members chunks root w = (Ok s, w') → host_reaches (new_service w' s) h →
  host_ok (hs_state h) ∧ challenged h
  ∧ st_expected_root (hs_state h) = root ∧ st_host_id (hs_state h) = st_host_id s.
Proof.
  intros (Hs & _ & Hroot & _)%new_vault_ok Hr.
  destruct (host_reaches_hop _ _ Hr) as [Hs' Hch]; [by split|].
  split_and!; [apply Hs'|done| |by rewrite (su_host _ _ Hs')].
  rewrite (su_root _ _ Hs'). exact Hroot.
Qed.

(** History is never rewritten.  Along any calls a member that is not denied stays one and its
    acknowledgement never goes back, the denied stay denied, and an instruction in the log was in
    it before or has a number that had not been given out. *)
Theorem host_history h h' :
  service_ok h → host_reaches h h' →
  let s := hs_state h in let s' := hs_state h' in
  (∀ p, p ∈ st_members s → p ∉ st_denied s' →
     p ∈ st_members s' ∧ u64_N (acked_through s p) <= u64_N (acked_through s' p))
  ∧ st_denied s ⊆ st_denied s'
  ∧ (∀ r, r ∈ st_log s' → r ∈ st_log s ∨ u64_N (st_next_control s) <= u64_N (cr_id r))
  ∧ u64_N (st_next_control s) <= u64_N (st_next_control s').
Proof.
  intros Hok Hr. destruct (host_reaches_hop _ _ Hr Hok) as [[] _]. split_and!; [done|done| |done].
  intros r Hin. destruct (decide (u64_N (cr_id r) < u64_N (st_next_control (hs_state h)))); [|right; lia].
  left. auto.
Qed.

Lemma kick_denies target code h :
  wp (kick_with_code target code) (λ _ h', target ∈ st_denied (hs_state h')) (λ _, True) h.
Proof.
  unfold kick_with_code. apply wp_bind, require_running_wp; [intros _|done].
  apply wp_bind, require_member_wp; [intros _|done]. apply wp_bind, wp_get. apply wp_if; intros _; [|done].
  apply wp_bind. eapply wp_mono; [by apply (commit_verified_wp (Kick target) None)| |done]. cbn beta.
  intros _ h1 Hc%commits_committed. pose proof (cm_denied _ _ _ _ Hc) as Hd.
  apply wp_bind. eapply wp_mono; [apply note_recent_op_wp| |done]. cbn beta. intros _ h2 [Hs2 _].
  do 3 (apply wp_bind; unfold wp at 1, update at 1).
  apply wp_bind, on_world_wp; [|done]. intros _ w _. apply wp_ret. cbn. rewrite Hs2, Hd.
  apply elem_of_union_l. cbn [kicked]. by apply elem_of_singleton.
Qed.

(** C18: a kick is for good.  After a kick that reported success, whatever is called (admission
    files attached as in [host_invariant]), the target is denied and no member, nothing is on its way to it, it has no acknowledgement, bootstrap or
    challenge, and it is not admitted again. *)
Theorem kick_permanent h h1 h2 target code t :
  service_ok h → kick_with_code target code h = (Ok t, h1) → host_reaches h1 h2 →
  let s := hs_state h2 in
  target ∈ st_denied s ∧ (target ∉ st_members s) ∧ on_the_way s target = []
  ∧ st_acked_through s !! target = None ∧ st_bootstrap_through s !! target = None
  ∧ hs_challenges h2 !! target = None
  ∧ ∀ document, doc_peer_id document = target → verify_identity document = Ok tt →
      hs_running h2 = true → add_member document h2 = (Err AuthenticationFailed, h2).
Proof.
  intros Hok Hkick Hr.
  pose proof (wp_Ok _ _ _ _ _ _ (kick_denies target code h) Hkick) as Hden.
  assert (Hh1 : hop h h1).
  { pose proof (kick_with_code_keeps hop target code h) as Hw. unfold wp in Hw. by rewrite Hkick in Hw. }
  destruct (Hh1 Hok) as [Hs1 Hch1].
  destruct (host_reaches_hop _ _ Hr (conj (su_ok _ _ Hs1) Hch1)) as [Hs2 Hch2].
  apply (su_denied _ _ Hs2) in Hden. destruct Hs2 as [Hok2 _ _ _ _ _ _].
  assert (Hnot : target ∉ st_members (hs_state h2)) by (intros Hin; by eapply (ho_denied _ Hok2)).
  assert (Hnone : ∀ A (m : gmap PeerId A), (∀ x, m !! target = Some x → target ∈ st_members (hs_state h2)) →
    m !! target = None).
  { intros A m Hm. destruct (m !! target) as [x|]; [|done]. destruct Hnot. by apply (Hm x). }
  split_and!; [done|done| | | | |].
  - unfold on_the_way, owed, contents. cbn [fst snd].
    rewrite (Hnone _ (queue_contents _)), (Hnone _ (online_records _)); [done| |].
    + intros x Hx. exact (proj1 (ho_online _ Hok2 target x Hx)).
    + intros x Hx. exact (proj1 (ho_mail _ Hok2 target x Hx)).
  - apply Hnone. intros x Hx. exact (proj1 (ho_acked _ Hok2 target x Hx)).
  - apply Hnone. intros x Hx. exact (proj1 (ho_bootstrap _ Hok2 target x Hx)).
  - apply Hnone. intros x Hx. exact (Hch2 target x Hx).
  - intros document <- Hv Hrun. unfold add_member, require_running, sm_bind, sm_get, sm_lift.
    rewrite Hrun. cbn [sm_ret]. rewrite Hv. cbv beta iota zeta. by rewrite (bool_decide_eq_true_2 _ Hden).
Qed.
(** C19: a flush acknowledges exactly what was offered.  When it succeeds, the challenge is one open
    for that peer and the mailbox is what was prepared; the peer is taken to have applied
    everything up to the last number in its mailbox and its bootstrap, its mailbox, coverage and
    challenge are gone, and nothing is taken from the other members. *)
Theorem flush_ack_exact peer prepared h h' :
  acknowledge_flush peer prepared h = (Ok tt, h') →
  let s := hs_state h in let s' := hs_state h' in
  phf_peer_id prepared = peer
  ∧ hs_challenges h !! peer = Some (phf_challenge prepared)
  ∧ mailbox_envelopes s peer = phf_envelopes prepared
  ∧ u64_N (acked_through s' peer)
    = N.max (u64_N (acked_through s peer))
        (N.max (u64_N (last_queued (default [] (st_mailboxes s !! peer))))
           (u64_N (ack_of (st_bootstrap_through s) peer)))
  ∧ on_the_way s' peer = default [] (online_records (st_online s) !! peer)
  ∧ st_bootstrap_through s' = delete peer (st_bootstrap_through s)
  ∧ hs_challenges h' = delete peer (hs_challenges h)
  ∧ (∀ p, p ≠ peer → on_the_way s' p = on_the_way s p ∧ acked_through s' p = acked_through s p)
  ∧ st_tree s' = st_tree s ∧ st_manifests s' = st_manifests s ∧ st_members s' = st_members s.
Proof.
  intros Hack s s'. cut (wp (acknowledge_flush peer prepared) (λ _ h1,
    phf_peer_id prepared = peer
    ∧ hs_challenges h !! peer = Some (phf_challenge prepared)
    ∧ mailbox_envelopes s peer = phf_envelopes prepared
    ∧ ∃ documents chunks w, h1 = set_hs_world w (set_hs_challenges (delete peer (hs_challenges h))
        (set_hs_state (published documents chunks (flushed peer s)) h))) (λ _, True) h).
  { intros Hw. pose proof (wp_Ok _ _ _ _ _ _ Hw Hack) as (Hp & Hc & He & documents & chunks & w & ->).
    unfold s'. clear s'. cbn [hs_state hs_challenges set_hs_world set_hs_state set_hs_challenges].
    assert (Hway : ∀ p, on_the_way (published documents chunks (flushed peer s)) p
      = (if decide (peer = p) then [] else mailed s p) ++ default [] (online_records (st_online s) !! p)).
    { intros p. rewrite on_the_way_mailed. f_equal. unfold mailed.
      change (st_mailboxes (published _ _ _)) with (delete peer (st_mailboxes s)).
      case_decide as Hd; [by subst; rewrite lookup_delete_eq|by rewrite lookup_delete_ne]. }
    assert (Hacked : ∀ p, acked_through (published documents chunks (flushed peer s)) p
      = if decide (peer = p) then u64_max (acked_through s peer)
          (u64_max (last_queued (default [] (st_mailboxes s !! peer))) (ack_of (st_bootstrap_through s) peer))
        else acked_through s p) by (intros p; apply ack_of_insert).
    split_and!; try done.
    - rewrite Hacked, decide_True by done. by rewrite !u64_max_N.
    - by rewrite Hway, decide_True.
    - intros q Hq. rewrite Hway, Hacked, !decide_False by congruence. by rewrite on_the_way_mailed. }
  unfold acknowledge_flush. apply wp_bind, require_running_wp; [intros _|done].
  apply wp_bind, wp_get. apply wp_if; intros Hc; [|done].
  apply andb_true_iff in Hc as [Hp%bool_decide_eq_true Hc%bool_decide_eq_true].
  apply wp_if; intros _; [|done]. apply wp_if; intros He; [|done]. apply bool_decide_eq_true in He.
  apply wp_bind, wp_bind, wp_get, wp_ret. cbv zeta.
  change (set_st_bootstrap_through _ _) with (flushed peer s).
  apply wp_bind. eapply wp_mono; [apply publish_wp| |done].
  cbn beta. intros _ h1 (w & documents & chunks & -> & _).
  apply wp_bind. unfold wp at 1, update at 1. apply on_keys_wp; [|done]. intros x k k' _.
  split_and!; [done|done|done|]. by eexists documents, chunks, _.
Qed.
End life.

(** ** Examples *)

Section sample.
#[local] Existing Instances sample_sha256 sample_mldsa sample_xwing sample_gcm sample_hkdf sample_oracle.

(** The host is [sample_a], with a pair key for [sample_b]. *)
Definition sample_world : World :=
  mkWorld sample_created.2 (mkDisk None None None ∅)
    (mkDurableInner u64_zero (array_N 32 8) None false false) 0.
Definition sample_vault : Result HostState * World :=
  new_in_vault {[ sample_a ]} (from_records ∅) (array_N 32 8) sample_world.
Definition run_all (cs : list HostCommand) (h : HostService) : HostService :=
  foldl (λ h c, (run_host c h).2) h cs.

(** The calls of one flush of [sample_b]'s mailbox, with its signature. *)
Definition sample_flush (h : HostService) : list HostCommand :=
  match issue_flush_challenge sample_b h with
  | (Ok challenge, h) =>
      let signature := default [] (result_ok (sign sample_seed_b FLUSH_CONTEXT (array_bytes (flush_m challenge)))) in
      match prepare_flush sample_b challenge signature h with
      | (Ok prepared, _) =>
          [HChallenge sample_b; HPrepareFlush sample_b challenge signature; HAckFlush sample_b prepared]
      | (Err _, _) => []
      end
  | (Err _, _) => []
  end.

Definition sample_mkdir (name : Byte.byte) (id : N) : HostCommand :=
  HFanOut sample_a (Link (array_N 32 8) (default (Text [] I) (text_of_bytes [name])) (array_N 32 id) true).

(** A vault with [sample_b] in it, its first mailbox flushed. *)
Definition sample_host : HostService :=
  match sample_vault with
  | (Ok s, w) =>
      let h := run_all [HAddMember (sample_document sample_seed_b)] (new_service w s) in
      run_all (sample_flush h) h
  | (Err _, w) => new_service w (mkHostState sample_a (DirectoryTree_new sample_a) ∅ sample_a ∅ ∅ ∅ ∅ ∅
                    (from_records ∅) ∅ [] (u64! 1) ∅ ∅ u64_zero None)
  end.

(** [sample_b] is connected while a directory is made, is handed the instruction, and then away. *)
Definition sample_handed : HostService :=
  run_all [HHeartbeat sample_b 10; sample_mkdir Byte.x61 50; HTakeOnline sample_b; HHeartbeat sample_b 0] sample_host.
(** Another directory is made and the mailbox flushed. *)
Definition sample_away : HostService := run_all [sample_mkdir Byte.x62 51] sample_handed.
Definition sample_lost : HostService := run_all (sample_flush sample_away) sample_away.

Definition ids (l : list ControlRecord) : list N := (λ r, u64_N (cr_id r)) <$> l.

(** An instruction handed out on a connection that then breaks can be lost.  Instruction 1 is
    handed to the member's connection, instruction 2 is mailed, and a flush of that mail takes 1
    as acknowledged too: it is in no log, mailbox or snapshot any more, though what was sent to
    the member was 2 alone.  Before the flush the snapshot still had both. *)
Example handed_out_lost :
  ids (st_log (hs_state sample_handed)) = [1] ∧ on_the_way (hs_state sample_handed) sample_b = []
  ∧ acked_through (hs_state sample_handed) sample_b = u64_zero
  ∧ ids (on_the_way (hs_state sample_away) sample_b) = [2]
  ∧ ids (queued_records (default [] (recovered_mailboxes (hs_state sample_away) !! sample_b))) = [1; 2]
  ∧ u64_N (acked_through (hs_state sample_lost) sample_b) = 2
  ∧ st_log (hs_state sample_lost) = [] ∧ on_the_way (hs_state sample_lost) sample_b = []
  ∧ recovered_mailboxes (hs_state sample_lost) !! sample_b = None.
Proof. vm_compute. by split_and!. Qed.

Definition plain (c : HostCommand) : bool :=
  match c with HAttachAdmission _ => false | _ => true end.

Lemma run_all_reaches cs h h1 :
  forallb plain cs = true → host_reaches h h1 → host_reaches h (run_all cs h1).
Proof.
  revert h1. induction cs as [|c cs IH]; intros h1 Hcs Hr; [done|].
  apply andb_true_iff in Hcs as [Hc Hcs]. cbn [run_all foldl]. apply IH; [done|].
  apply host_then; [done|]. by destruct c.
Qed.

Lemma sample_flush_plain h : forallb plain (sample_flush h) = true.
Proof.
  unfold sample_flush. destruct (issue_flush_challenge sample_b h) as [[c|e] h1]; [|done].
  by destruct (prepare_flush _ _ _ h1) as [[]].
Qed.

Lemma sample_host_reached s w :
  sample_vault = (Ok s, w) → host_reaches (new_service w s) sample_host.
Proof.
  intros Hv. unfold sample_host. rewrite Hv.
  apply run_all_reaches; [apply sample_flush_plain|]. by apply run_all_reaches, host_now.
Qed.

Lemma sample_lost_reached : host_reaches sample_host sample_lost.
Proof.
  apply run_all_reaches; [apply sample_flush_plain|]. apply run_all_reaches; [done|].
  by apply run_all_reaches, host_now.
Qed.

Lemma host_invariant_witness :
  host_ok (hs_state sample_host) ∧ challenged sample_host
  ∧ bool_decide (sample_b ∈ st_members (hs_state sample_host)) = true.
Proof.
  assert (Hok : is_ok sample_vault.1 = true) by (vm_compute; reflexivity).
  destruct sample_vault as [[s|e] w] eqn:Hv; [|discriminate Hok].
  pose proof (sample_host_reached s w Hv) as Hr. unfold sample_vault in Hv.
  pose proof (host_invariant _ _ _ s _ w sample_host Hv Hr) as Hi.
  split; [exact (proj1 Hi)|]. split; [exact (proj1 (proj2 Hi))|]. vm_compute. reflexivity.
Defined.

Lemma sample_host_ok : service_ok sample_host.
Proof.
  assert (Hok : is_ok sample_vault.1 = true) by (vm_compute; reflexivity).
  destruct sample_vault as [[s|e] w] eqn:Hv; [|discriminate Hok].
  pose proof (new_vault_ok _ _ _ _ _ _ Hv) as (Hs & _).
  destruct (host_reaches_hop _ _ (sample_host_reached s w Hv)) as [Hs' Hc]; [by split|].
  split; [apply Hs'|exact Hc].
Qed.

Lemma host_history_witness :
  st_denied (hs_state sample_host) ⊆ st_denied (hs_state sample_lost)
  ∧ u64_N (st_next_control (hs_state sample_lost)) = 3.
Proof.
  destruct (host_history sample_host sample_lost sample_host_ok sample_lost_reached) as (_ & Hd & _).
  split; [exact Hd|]. vm_compute. reflexivity.
Defined.

Lemma sample_away_ok : host_ok (hs_state sample_away).
Proof.
  assert (Hr : host_reaches sample_host sample_away).
  { apply run_all_reaches; [done|]. by apply run_all_reaches, host_now. }
  destruct (host_reaches_hop _ _ Hr sample_host_ok) as [Hs _]. apply Hs.
Qed.

Lemma unacked_recoverable_witness :
  ∃ r, u64_N (cr_id r) = 1
  ∧ r ∈ queued_records (default [] (rm_mailboxes (host_metadata (hs_state sample_away)) !! sample_b)).
Proof.
  destruct (unacked_recoverable (hs_state sample_away) sample_b) as (_ & Hn).
  - exact sample_away_ok.
  - refine (proj1 (bool_decide_eq_true (sample_b ∈ st_members (hs_state sample_away))) _).
    vm_compute. reflexivity.
  - refine (proj1 (bool_decide_eq_true (sample_b ≠ st_host_id (hs_state sample_away))) _).
    vm_compute. reflexivity.
  - destruct (Hn 1) as (r & Hid & _ & _ & Hin).
    { assert (u64_N (covered_through (hs_state sample_away) sample_b) = 0) as -> by (vm_compute; reflexivity).
      assert (u64_N (st_next_control (hs_state sample_away)) = 3) as -> by (vm_compute; reflexivity).
      split; reflexivity. }
    exact (ex_intro _ r (conj Hid Hin)).
Defined.

Lemma commit_delivers_witness :
  match commit_verified_with_code (Clear (array_N 32 9)) None None sample_host with
  | (Ok _, h') => on_the_way (hs_state h') sample_b
                  = on_the_way (hs_state sample_host) sample_b ++ [mkControlRecord (u64! 1) (Clear (array_N 32 9))]
  | (Err _, _) => False
  end.
Proof.
  pose proof (commit_delivers (Clear (array_N 32 9)) None None sample_host I) as Hc.
  assert (Hok : is_ok (commit_verified_with_code (Clear (array_N 32 9)) None None sample_host).1 = true)
    by (vm_compute; reflexivity).
  destruct (commit_verified_with_code _ _ _ _) as [[[]|e] h']; [|discriminate Hok].
  rewrite (cm_way _ _ _ _ Hc sample_b). vm_compute. reflexivity.
Defined.

Lemma kick_permanent_witness :
  match kick_with_code sample_b None sample_host with
  | (Ok _, h') => sample_b ∈ st_denied (hs_state h') ∧ on_the_way (hs_state h') sample_b = []
  | (Err _, _) => False
  end.
Proof.
  assert (Hok : is_ok (kick_with_code sample_b None sample_host).1 = true) by (vm_compute; reflexivity).
  destruct (kick_with_code sample_b None sample_host) as [[t|e] h'] eqn:Hk; [|discriminate Hok].
  destruct (kick_permanent sample_host h' h' sample_b None t sample_host_ok Hk (host_now h'))
    as (Hd & _ & Hw & _).
  split; [exact Hd|exact Hw].
Defined.

Definition sample_prepared : Result PreparedHostFlush * HostService :=
  let h := run_all [HChallenge sample_b] sample_away in
  match hs_challenges h !! sample_b with
  | Some challenge =>
      prepare_flush sample_b challenge
        (default [] (result_ok (sign sample_seed_b FLUSH_CONTEXT (array_bytes (flush_m challenge))))) h
  | None => (Err AuthenticationFailed, h)
  end.

Lemma flush_ack_exact_witness :
  match sample_prepared with
  | (Ok prepared, h) =>
      match acknowledge_flush sample_b prepared h with
      | (Ok _, h') => mailbox_envelopes (hs_state h) sample_b = phf_envelopes prepared
                      ∧ u64_N (acked_through (hs_state h') sample_b) = 2
      | (Err _, _) => False
      end
  | (Err _, _) => False
  end.
Proof.
  assert (Hok : match sample_prepared with
    | (Ok prepared, h) => is_ok (acknowledge_flush sample_b prepared h).1
        && (u64_N (acked_through (acknowledge_flush sample_b prepared h).2.(hs_state) sample_b) =? 2)
    | (Err _, _) => false end = true) by (vm_compute; reflexivity).
  destruct sample_prepared as [[prepared|e] h]; [|discriminate Hok].
  destruct (acknowledge_flush sample_b prepared h) as [[[]|e] h'] eqn:Ha; [|discriminate Hok].
  apply N.eqb_eq in Hok. split; [|exact Hok].
  exact (proj1 (proj2 (proj2 (flush_ack_exact sample_b prepared h h' Ha)))).
Defined.
End sample.
