(* ===== verification/Vault.v ===== *)
(** * The vault as host and members see it

    [vault_step] is what an instruction means: the tree and the manifests after it.  The host's
    commit and the member's [stage_control] both refine it, so that members follow the host;
    replaying the history that [bootstrap_records] makes up rebuilds the tree and the manifests
    from nothing. *)
From S2P Require Import TreePaths.
From S2P Require Export HostMethods Member.
From Stdlib Require Import Lia ZifyN ZifyNat.

Open Scope N_scope.

(** ** The meaning of an instruction *)

Definition VaultView : Type := DirectoryTree * gmap FileId TrustedManifest.

(** The manifests after an update that removed a file or did not. *)
Definition manifests_step (manifests : gmap FileId TrustedManifest) (update : ControlUpdate)
    (removed_file : option FileId) : gmap FileId TrustedManifest :=
  let manifests := match update with
                   | NewManifest m => <[mf_file_id m := mkTrustedManifest m]> manifests
                   | _ => manifests
                   end in
  match removed_file with Some f => delete f manifests | None => manifests end.

Definition vault_step (v : VaultView) (update : ControlUpdate) : Result VaultView :=
  let? _ := validate_link_kind v.2 update in
  let? (tree, removed_file) := apply_tree_update v.1 update in
  Ok (tree, manifests_step v.2 update removed_file).

Fixpoint vault_steps (v : VaultView) (updates : list ControlUpdate) : Result VaultView :=
  match updates with
  | [] => Ok v
  | update :: updates => let? v := vault_step v update in vault_steps v updates
  end.

Definition empty_view (root : FileId) : VaultView := (DirectoryTree_new root, ∅).
Definition host_view (s : HostState) : VaultView := (st_tree s, st_manifests s).
Definition member_view (s : StagedReplica) : VaultView := (sr_tree s, sr_manifests s).

Lemma vault_steps_app v l l' :
  vault_steps v (l ++ l') = res_bind (vault_steps v l) (λ v, vault_steps v l').
Proof.
  revert v. induction l as [|u l IH]; intros v; [done|]. cbn.
  destruct (vault_step v u); [|done]. apply IH.
Qed.

(** ** Linking a part of a tree *)

Lemma link_complete t p (n : text) c d len :
  validate_name n = Ok tt → is_dir t p = true → c ≠ tr_expected_root t →
  (∀ k e, tr_entries t !! k = Some e → de_child e ≠ c) → tr_entries t !! (p, n) = None →
  path_len t p = Ok len →
  len + (if bool_decide (p = tr_expected_root t) then 0 else 1) + lenN (text_bytes n)
    <= MAX_PATH_BYTES →
  link t p n c d
  = Ok (mkDirectoryTree (tr_expected_root t) (<[(p, n) := mkDirent p n c d]> (tr_entries t))).
Proof.
  intros Hv Hd Hc Hfresh Hkey Hlen Hmax. unfold link. rewrite Hv. cbn [res_bind]. rewrite Hd. cbn [negb].
  rewrite bool_decide_eq_false_2 by done.
  rewrite (proj2 (existsb_values_false _ _)).
  2: { intros k e Hk. apply bool_decide_eq_false_2. by eapply Hfresh. }
  cbn [orb]. rewrite Hkey, Hlen. cbn [res_bind]. unfold usize_add, MAX_PATH_BYTES, u64_limit in *.
  rewrite (proj2 (N.ltb_lt _ _)) by (case_bool_decide; lia). cbn.
  rewrite (proj2 (N.ltb_lt _ _)) by lia. by rewrite (proj2 (N.ltb_ge _ _)) by lia.
Qed.

(** [t] is a part of [T] from which the rest can be linked. *)
Record part_of (T t : DirectoryTree) : Prop := {
  po_ok : tree_ok t;
  po_root : tr_expected_root t = tr_expected_root T;
  po_sub : tr_entries t ⊆ tr_entries T;
}.

Lemma find_child_part T t c e :
  tree_ok T → part_of T t → find_child t c = Some e → find_child T c = Some e.
Proof.
  intros HT [_ _ Hsub] [<- [k Hk]]%find_child_Some.
  apply (find_child_unique T k); [exact (ok_unique T HT)|by eapply lookup_weaken].
Qed.

(** A directory of the part has the same way to the root. *)
Lemma part_path T t p :
  tree_ok T → part_of T t → is_dir t p = true →
  ∃ b n, climb T p b n ∧ path_len t p = Ok (b + (N.of_nat n - 1)).
Proof.
  intros HT Hp Hd. pose proof Hp as [Ht Hroot Hsub].
  assert (Hclimb : ∀ len, path_len t p = Ok len → ∃ b n, climb T p b n ∧ path_len t p = Ok (b + (N.of_nat n - 1))).
  { intros len Hlen. pose proof Hlen as (b & n & Hc & _ & -> & _)%path_len_climb.
    exists b, n. split; [|done]. apply (climb_mono t T); [by symmetry| |done].
    intros c e. by apply find_child_part. }
  apply is_dir_true in Hd as [->|(k & e & Hk & <- & Hdir)].
  - apply (Hclimb 0). unfold path_len. by rewrite bool_decide_eq_true_2.
  - destruct (decide (text_bytes (de_name e) = [])) as [Hn|Hn].
    + rewrite (ok_names t Ht k e Hk Hn) in *. apply (Hclimb 0). unfold path_len. cbn.
      by rewrite bool_decide_eq_true_2.
    + destruct (ok_graph t Ht k e Hk Hn) as [_ [len Hlen]]. by apply (Hclimb len).
Qed.

Lemma part_link T t e :
  tree_ok T → part_of T t → tr_entries T !! dirent_key e = Some e → text_bytes (de_name e) ≠ [] →
  tr_entries t !! dirent_key e = None → is_dir t (de_parent e) = true →
  let t' := mkDirectoryTree (tr_expected_root t) (<[dirent_key e := e]> (tr_entries t)) in
  link t (de_parent e) (de_name e) (de_child e) (de_is_dir e) = Ok t' ∧ part_of T t'.
Proof.
  intros HT Hp HeT Hn Hnew Hd t'. pose proof Hp as [Ht Hroot Hsub].
  destruct (ok_valid T HT _ e HeT Hn) as [Hv Hc].
  destruct (part_path T t _ HT Hp Hd) as (b & n & Hclimb & Hlen).
  assert (Hlink : link t (de_parent e) (de_name e) (de_child e) (de_is_dir e) = Ok t').
  { rewrite (link_complete t _ _ _ _ (b + (N.of_nat n - 1))); [|done|done|by rewrite Hroot| |done|done|].
    - unfold t', dirent_key. by destruct e.
    - intros k e' Hk Hce. assert (Hk' : tr_entries T !! k = Some e') by (by eapply lookup_weaken).
      rewrite (ok_unique T HT _ _ _ _ Hk' HeT Hce) in Hk. by rewrite Hnew in Hk.
    - destruct (ok_graph T HT _ e HeT Hn) as [_ [len HlenT]].
      apply path_len_climb in HlenT as (bT & nT & HclimbT & _ & -> & Hmax).
      assert (Hstep : climb T (de_child e) (lenN (text_bytes (de_name e)) + b) (S n)).
      { apply climb_step; [done| |done]. apply (find_child_unique T (dirent_key e)); [exact (ok_unique T HT)|done]. }
      destruct (climb_det _ _ _ _ _ _ HclimbT Hstep) as [-> ->]. rewrite Hroot. case_bool_decide as Hpr.
      + rewrite Hpr in Hclimb. inversion Hclimb; [|done]. subst. lia.
      + inversion Hclimb; [done|]. subst. lia. }
  split; [done|]. split; [by eapply tree_ok_link|exact Hroot|].
  cbn. apply insert_subseteq_l; [done|exact Hsub].
Qed.

(** ** Replaying a tree *)

Definition link_of (e : Dirent) : ControlUpdate :=
  Link (de_parent e) (de_name e) (de_child e) (de_is_dir e).

Definition linked (t : DirectoryTree) (e : Dirent) : Prop := tr_entries t !! dirent_key e = Some e.

Section replay.
Variables (T : DirectoryTree) (M : gmap FileId TrustedManifest).
Hypothesis HT : tree_ok T.
Hypothesis HM : ∀ f, is_Some (M !! f) → is_dir T f = false.

Lemma step_link t e :
  part_of T t → linked T e → text_bytes (de_name e) ≠ [] → tr_entries t !! dirent_key e = None →
  is_dir t (de_parent e) = true →
  let t' := mkDirectoryTree (tr_expected_root t) (<[dirent_key e := e]> (tr_entries t)) in
  vault_step (t, M) (link_of e) = Ok (t', M) ∧ part_of T t'.
Proof.
  intros Hp He Hn Hnew Hd t'. destruct (part_link T t e HT Hp He Hn Hnew Hd) as [Hl Hp'].
  split; [|done]. unfold vault_step, link_of. cbn [snd fst].
  assert (validate_link_kind M (Link (de_parent e) (de_name e) (de_child e) (de_is_dir e)) = Ok tt) as ->.
  { cbn. destruct (de_is_dir e) eqn:Hdir; [|done]. rewrite bool_decide_eq_false_2; [done|].
    intros Hs%HM. assert (is_dir T (de_child e) = true) as Ht by (apply is_dir_true; right; by eexists _, e).
    by rewrite Ht in Hs. }
  cbn [res_bind apply_tree_update]. by rewrite Hl.
Qed.

(** One pass links what it lists, and lists every entry below a directory it knew. *)
Record passed (l : list Dirent) (t : DirectoryTree) (dirs : gset FileId)
    (out : gset FileId * list ControlUpdate * list Dirent) (t' : DirectoryTree) : Prop := {
  pa_steps : vault_steps (t, M) out.1.2 = Ok (t', M);
  pa_part : part_of T t';
  pa_sub : tr_entries t ⊆ tr_entries t';
  pa_dirs : dirs ⊆ out.1.1;
  pa_is_dir f : f ∈ out.1.1 → is_dir t' f = true;
  pa_listed e : e ∈ l → e ∈ out.2 ∨ (linked t' e ∧ (de_is_dir e = true → de_child e ∈ out.1.1));
  pa_deferred e : e ∈ out.2 → e ∈ l ∧ tr_entries t' !! dirent_key e = None;
  pa_new k e : tr_entries t' !! k = Some e →
    tr_entries t !! k = Some e ∨ (e ∈ l ∧ k = dirent_key e);
  pa_NoDup : NoDup (dirent_key <$> out.2);
  pa_le : (length out.2 ≤ length l)%nat;
  pa_lt e : e ∈ l → de_parent e ∈ dirs → (length out.2 < length l)%nat;
}.

Lemma link_pass_passed l t dirs :
  part_of T t → (∀ f, f ∈ dirs → is_dir t f = true) →
  (∀ e, e ∈ l → linked T e ∧ text_bytes (de_name e) ≠ [] ∧ tr_entries t !! dirent_key e = None) →
  NoDup (dirent_key <$> l) →
  ∃ t', passed l t dirs (link_pass l dirs) t'.
Proof.
  revert t dirs. induction l as [|e l IH]; intros t dirs Hp Hdirs Hl Hnd; cbn [link_pass].
  { exists t. split; cbn; try done; try (by intros ? ?%elem_of_nil); auto. }
  destruct (Hl e (list_elem_of_here _ _)) as (He & Hn & Hnew).
  apply NoDup_cons in Hnd as [Hni Hnd]. case_bool_decide as Hd.
  - destruct (step_link t e Hp He Hn Hnew (Hdirs _ Hd)) as [Hstep Hp1].
    set (t1 := mkDirectoryTree _ _) in *. set (dirs1 := if de_is_dir e then _ else dirs).
    assert (Hsub1 : tr_entries t ⊆ tr_entries t1) by (by apply insert_subseteq).
    assert (He1 : linked t1 e) by apply lookup_insert_eq.
    assert (Hd1 : dirs ⊆ dirs1) by (unfold dirs1; destruct (de_is_dir e); set_solver).
    destruct (IH t1 dirs1) as [t' Hpass]; [done| | |done|].
    { intros f Hf. assert (Hor : f ∈ dirs ∨ (de_is_dir e = true ∧ f = de_child e))
        by (unfold dirs1 in Hf; destruct (de_is_dir e); set_solver).
      destruct Hor as [Hf'|[Hde ->]]; [by apply (is_dir_mono t), Hdirs|].
      apply is_dir_true. right. by exists (dirent_key e), e. }
    { intros e' He'. destruct (Hl e' (list_elem_of_further _ _ _ He')) as (? & ? & Hnew').
      split_and!; [done|done|]. unfold t1. cbn. rewrite lookup_insert_ne; [done|].
      intros Hk. apply Hni. rewrite Hk. by apply list_elem_of_fmap_2. }
    destruct (link_pass l dirs1) as [[dirs' ups] def] eqn:Hlp. exists t'.
    destruct Hpass as [h1 h2 h3 h4 h5 h6 h7 hn h8 h9 h10]. cbn [fst snd] in *. split; cbn [fst snd].
    + cbn [vault_steps]. fold (link_of e). rewrite Hstep. exact h1.
    + done.
    + by etransitivity.
    + by etransitivity.
    + done.
    + intros e' [->|He']%elem_of_cons; [|by apply h6]. right. split.
      * unfold linked. by eapply lookup_weaken.
      * intros Hde. apply h4. unfold dirs1. rewrite Hde. set_solver.
    + intros e' He'. destruct (h7 e' He'). split; [by right|done].
    + intros k e' Hk. destruct (hn k e' Hk) as [Hk1|[Hin ->]]; [|right; split; [by right|done]].
      cbn in Hk1. apply lookup_insert_Some in Hk1 as [[<- <-]|[_ Hk1]]; [|by left].
      right. split; [by left|done].
    + done.
    + cbn. lia.
    + intros e' _ _. cbn. lia.
  - destruct (IH t dirs) as [t' Hpass]; [done|done| |done|].
    { intros e' He'. apply Hl. by right. }
    destruct (link_pass l dirs) as [[dirs' ups] def] eqn:Hlp. exists t'.
    destruct Hpass as [h1 h2 h3 h4 h5 h6 h7 hn h8 h9 h10]. cbn [fst snd] in *. split; cbn [fst snd].
    + done.
    + done.
    + done.
    + done.
    + done.
    + intros e' [->|He']%elem_of_cons; [by left; left|]. destruct (h6 e' He'); [by left; right|by right].
    + intros e' [->|He']%elem_of_cons; [|destruct (h7 e' He'); split; [by right|done]].
      split; [by left|]. destruct (tr_entries t' !! dirent_key e) as [e'|] eqn:Hk; [|done].
      destruct (hn _ _ Hk) as [Hk'|[Hin Hk']]; [by rewrite Hnew in Hk'|].
      destruct Hni. rewrite Hk'. by apply list_elem_of_fmap_2.
    + intros k e' Hk. destruct (hn k e' Hk) as [Hk1|[Hin ->]]; [by left|right; split; [by right|done]].
    + cbn. apply NoDup_cons. split; [|done]. intros (e' & Hk & He')%list_elem_of_fmap.
      destruct Hni. rewrite Hk. apply list_elem_of_fmap_2. by apply h7.
    + cbn. lia.
    + intros e' [->|He']%elem_of_cons Hd'; [done|]. cbn. specialize (h10 e' He' Hd'). lia.
Qed.

(** What the passes keep: every entry is still to come or linked, directories known. *)
Record replaying (remaining : list Dirent) (dirs : gset FileId) (t : DirectoryTree) : Prop := {
  rp_part : part_of T t;
  rp_dirs f : f ∈ dirs → is_dir t f = true;
  rp_root : tr_expected_root T ∈ dirs;
  rp_remaining e : e ∈ remaining →
    linked T e ∧ text_bytes (de_name e) ≠ [] ∧ tr_entries t !! dirent_key e = None;
  rp_all k e : tr_entries T !! k = Some e → text_bytes (de_name e) ≠ [] →
    e ∈ remaining ∨ (linked t e ∧ (de_is_dir e = true → de_child e ∈ dirs));
  rp_NoDup : NoDup (dirent_key <$> remaining);
}.

(** While entries remain, one of them is below a known directory. *)
Lemma replaying_progress remaining dirs t :
  replaying remaining dirs t → remaining ≠ [] →
  ∃ e, e ∈ remaining ∧ de_parent e ∈ dirs.
Proof.
  intros Hr Hne. destruct remaining as [|e0 rest] eqn:Hrem; [done|]. rewrite <-Hrem in *.
  assert (Hstep : ∀ n b e, e ∈ remaining → climb T (de_parent e) b n →
    ∃ e, e ∈ remaining ∧ de_parent e ∈ dirs).
  { induction n as [|n IH]; intros b e He Hclimb.
    - exists e. split; [done|]. inversion Hclimb as [Hroot|]. apply (rp_root _ _ _ Hr).
    - destruct (rp_remaining _ _ _ Hr e He) as (HeT & Hn & _).
      destruct (ok_graph T HT _ e HeT Hn) as [Hdir _].
      inversion Hclimb as [|p e' b' n' Hp Hf Hclimb']; subst.
      pose proof Hf as [Hc [k Hk]]%find_child_Some.
      assert (Hn' : text_bytes (de_name e') ≠ []).
      { intros Hnil. apply Hp. rewrite <-Hc. by rewrite (ok_names T HT k e' Hk Hnil). }
      destruct (rp_all _ _ _ Hr k e' Hk Hn') as [Hin|[_ Hd]]; [by apply (IH b' e')|].
      exists e. split; [done|]. rewrite <-Hc. apply Hd.
      apply is_dir_true in Hdir as [Hroot|(k' & e'' & Hk' & Hc' & Hd')]; [by destruct Hp|].
      rewrite <-Hc in Hc'. rewrite (ok_unique T HT _ _ _ _ Hk' Hk Hc') in Hk'.
      rewrite Hk in Hk'. by injection Hk' as ->. }
  assert (He0 : e0 ∈ remaining) by (rewrite Hrem; by left).
  destruct (rp_remaining _ _ _ Hr e0 He0) as (HeT & Hn & _).
  destruct (ok_graph T HT _ e0 HeT Hn) as [_ [len Hlen]].
  apply path_len_climb in Hlen as (b & n & Hclimb & _).
  destruct (ok_valid T HT _ e0 HeT Hn) as [_ Hc].
  inversion Hclimb as [|c e' b' n' Hc' Hf Hclimb']; [congruence|]. subst.
  rewrite (find_child_unique T _ e0 (ok_unique T HT) HeT) in Hf. injection Hf as <-.
  by apply (Hstep n' b' e0).
Qed.

Lemma replaying_done dirs t : replaying [] dirs t → t = T.
Proof.
  intros Hr. destruct (rp_part _ _ _ Hr) as [Ht Hroot Hsub].
  assert (tr_entries t = tr_entries T) as Heq.
  { apply map_eq. intros k. destruct (tr_entries T !! k) as [e|] eqn:Hk.
    2: { by eapply lookup_weaken_None. }
    rewrite (ok_keys T HT k e Hk) in Hk |- *.
    destruct (decide (text_bytes (de_name e) = [])) as [Hn|Hn].
    - rewrite (ok_names T HT _ e Hk Hn). cbn. rewrite <-Hroot. apply (ok_root t Ht).
    - destruct (rp_all _ _ _ Hr _ e Hk Hn) as [Hin%elem_of_nil|[Hl _]]; [done|exact Hl]. }
  destruct t, T. cbn in *. by subst.
Qed.

(** Every pass but the last lists an entry, so the loop ends with the whole tree. *)
Lemma link_loop_replays fuel remaining dirs t :
  replaying remaining dirs t → (length remaining ≤ fuel)%nat →
  ∃ updates, link_loop fuel remaining dirs = Some (Ok updates)
    ∧ vault_steps (t, M) updates = Ok (T, M).
Proof.
  revert remaining dirs t. induction fuel as [|fuel IH]; intros remaining dirs t Hr Hlen;
    (destruct (decide (remaining = [])) as [->|Hne];
      [exists []; split; [done|]; cbn; by rewrite (replaying_done _ _ Hr)|]).
  { destruct remaining; [done|cbn in Hlen; lia]. }
  destruct (replaying_progress _ _ _ Hr Hne) as (e0 & He0 & Hd0).
  destruct (link_pass_passed remaining t dirs (rp_part _ _ _ Hr) (rp_dirs _ _ _ Hr)
    (rp_remaining _ _ _ Hr) (rp_NoDup _ _ _ Hr)) as [t' Hp].
  assert (Hunfold : link_loop (S fuel) remaining dirs
    = let '(dirs, updates, deferred) := link_pass remaining dirs in
      if (length deferred =? length remaining)%nat then Some (Err (State "replica tree is not rooted"))
      else match link_loop fuel deferred dirs with
           | Some (Ok rest) => Some (Ok (updates ++ rest)) | r => r end) by (by destruct remaining).
  rewrite Hunfold. clear Hunfold. destruct (link_pass remaining dirs) as [[dirs' ups] def].
  destruct Hp as [h1 h2 h3 h4 h5 h6 h7 hn h8 h9 h10]. cbn [fst snd] in *.
  specialize (h10 e0 He0 Hd0). rewrite (proj2 (Nat.eqb_neq _ _)) by lia.
  destruct (IH def dirs' t') as (rest & -> & Hrest); [|lia|].
  - split; [done|done|by apply h4, (rp_root _ _ _ Hr)| | |done].
    + intros e He. destruct (h7 e He) as [Hin Hnew].
      destruct (rp_remaining _ _ _ Hr e Hin) as (? & ? & _). done.
    + intros k e Hk Hn. destruct (rp_all _ _ _ Hr k e Hk Hn) as [Hin|[Hl Hd]]; [by apply h6|].
      right. split; [by eapply lookup_weaken|]. intros Hde. by apply h4, Hd.
  - exists (ups ++ rest). split; [done|]. by rewrite vault_steps_app, h1.
Qed.

Lemma link_pass_length l dirs :
  (length (link_pass l dirs).1.2 + length (link_pass l dirs).2 = length l)%nat.
Proof.
  revert dirs. induction l as [|e l IH]; intros dirs; [done|]. cbn [link_pass]. case_bool_decide.
  - specialize (IH (if de_is_dir e then {[de_child e]} ∪ dirs else dirs)).
    destruct (link_pass l _) as [[d u] r]. cbn in *. lia.
  - specialize (IH dirs). destruct (link_pass l dirs) as [[d u] r]. cbn in *. lia.
Qed.

Lemma link_loop_length fuel remaining dirs updates :
  link_loop fuel remaining dirs = Some (Ok updates) → length updates = length remaining.
Proof.
  revert remaining dirs updates. induction fuel as [|fuel IH]; intros [|e l] dirs updates; cbn [link_loop].
  - by intros [= <-].
  - done.
  - by intros [= <-].
  - pose proof (link_pass_length (e :: l) dirs) as Hlen.
    destruct (link_pass (e :: l) dirs) as [[d u] r]. destruct (_ =? _)%nat; [done|].
    destruct (link_loop fuel r d) as [[rest|]|] eqn:Hl; try done. intros [= <-].
    rewrite length_app, (IH _ _ _ Hl). exact Hlen.
Qed.

Lemma link_updates_replay :
  ∃ updates, link_updates (tr_expected_root T) (dirents T) = Ok updates
    ∧ (length updates + 1 ≤ size (tr_entries T))%nat
    ∧ vault_steps (DirectoryTree_new (tr_expected_root T), M) updates = Ok (T, M).
Proof.
  unfold link_updates. set (remaining := filter _ _).
  destruct (link_loop_replays (length remaining) remaining {[tr_expected_root T]}
    (DirectoryTree_new (tr_expected_root T))) as (updates & Hl & Hs); [|done|].
  2: { rewrite Hl. exists updates. split; [done|]. split; [|done].
       rewrite (link_loop_length _ _ _ _ Hl). rewrite <-length_sorted_entries.
       assert (Hsub : root_dirent (tr_expected_root T) :: remaining ⊆+ tree_values T).
       { apply NoDup_submseteq.
         - apply NoDup_cons. split; [by intros [Hn _]%list_elem_of_filter|].
           apply NoDup_filter. apply (NoDup_fmap_1 dirent_key).
           unfold dirents. rewrite tree_values_keys by done. apply sorted_entries_NoDup.
         - intros e [->|[_ He]%list_elem_of_filter]%elem_of_cons; [|exact He].
           apply elem_of_values. eexists. apply (ok_root T HT). }
       apply submseteq_length in Hsub. unfold tree_values in Hsub. rewrite length_fmap in Hsub.
       cbn in Hsub. lia. }
  assert (Hin : ∀ e, e ∈ remaining ↔ text_bytes (de_name e) ≠ [] ∧ linked T e).
  { intros e. unfold remaining. rewrite list_elem_of_filter. unfold dirents. rewrite elem_of_values.
    split; intros [Hn Hk]; (split; [done|]); [|by eexists].
    destruct Hk as [k Hk]. unfold linked, dirent_key. by rewrite <-(ok_keys T HT k e Hk). }
  split.
  - split; [apply tree_ok_new|done|]. cbn. apply insert_subseteq_l; [apply (ok_root T HT)|].
    apply map_empty_subseteq.
  - intros f ->%elem_of_singleton. apply is_dir_true. by left.
  - by apply elem_of_singleton.
  - intros e [Hn Hl]%Hin. split_and!; [done|done|]. cbn. apply lookup_singleton_ne.
    unfold dirent_key. intros [= _ Hname]. apply Hn. by rewrite <-Hname.
  - intros k e Hk Hn. left. apply Hin. split; [done|]. unfold linked, dirent_key.
    by rewrite <-(ok_keys T HT k e Hk).
  - unfold remaining. eapply sublist_NoDup; [|apply fmap_sublist, sublist_filter].
    unfold dirents. rewrite tree_values_keys by done. apply sorted_entries_NoDup.
Qed.
End replay.

(** ** Replaying the manifests *)

Definition commit_of (t : TrustedManifest) : ControlUpdate := NewManifest (manifest t).

Lemma steps_manifests root l M0 :
  NoDup l.*1 →
  (∀ f t, (f, t) ∈ l → mf_file_id (manifest t) = f ∧ f ≠ root) →
  vault_steps (DirectoryTree_new root, M0) (commit_of <$> l.*2)
  = Ok (DirectoryTree_new root, list_to_map l ∪ M0).
Proof.
  revert M0. induction l as [|[f t] l IH]; intros M0; cbn [fmap list_fmap fst snd vault_steps].
  { intros _ _. cbn. by rewrite (left_id_L ∅ (∪)). }
  intros [Hni Hnd]%NoDup_cons Hl. destruct (Hl f t (list_elem_of_here _ _)) as [Hf Hr].
  unfold vault_step, commit_of at 1 2 3. cbn [validate_link_kind res_bind apply_tree_update fst snd].
  assert (is_dir (DirectoryTree_new root) (mf_file_id (manifest t)) = false) as ->.
  { apply not_true_iff_false. rewrite is_dir_true, Hf. intros [->|(k & e & Hk & Hc & _)]; [done|].
    cbn in Hk. apply lookup_singleton_Some in Hk as [_ <-]. cbn in Hc. congruence. }
  cbn [res_bind]. rewrite IH; [|done|intros f' t' Hin; apply Hl; by right]. do 2 f_equal.
  cbn [manifests_step list_to_map foldr fst snd]. rewrite Hf.
  replace (mkTrustedManifest (manifest t)) with t by (by destruct t).
  rewrite <-insert_union_r by (by apply not_elem_of_list_to_map_1). by rewrite insert_union_l.
Qed.

Section bootstrap.
Context `{Sha256}.

(** What a bootstrap needs of the state. *)
Lemma host_ok_files_off_root s f t :
  host_ok s → st_manifests s !! f = Some t →
  mf_file_id (manifest t) = f ∧ is_dir (st_tree s) f = false ∧ f ≠ st_expected_root s.
Proof.
  intros Hs Hf. destruct (ho_files _ Hs f t Hf) as (Hid & Hd & _). split_and!; [done|done|].
  intros ->. rewrite <-(ho_root _ Hs) in Hd.
  assert (is_dir (st_tree s) (tr_expected_root (st_tree s)) = true) as Ht by (apply is_dir_true; by left).
  by rewrite Ht in Hd.
Qed.

Lemma bootstrap_updates_replay s through :
  host_ok s →
  ∃ updates, bootstrap_updates s through = Ok updates
    ∧ vault_steps (empty_view (st_expected_root s)) updates = Ok (host_view s)
    ∧ (length updates + 1 ≤ size (st_manifests s) + size (tr_entries (st_tree s))
       ∨ (length updates = 1 ∧ u64_N through ≠ 0%N))%nat.
Proof.
  intros Hs. pose proof (ho_tree _ Hs) as HT.
  destruct (link_updates_replay (st_tree s) (st_manifests s) HT) as (links & Hlinks & Hlen & Hsteps).
  { intros f [t Ht]. by apply (host_ok_files_off_root s f t Hs). }
  rewrite (ho_root _ Hs) in Hlinks, Hsteps. unfold bootstrap_updates. rewrite Hlinks. cbn [res_bind].
  change (λ t, NewManifest (manifest t)) with commit_of.
  assert (Hall : vault_steps (empty_view (st_expected_root s)) ((commit_of <$> map_values (st_manifests s)) ++ links)
    = Ok (host_view s)).
  { rewrite vault_steps_app. unfold empty_view, map_values.
    rewrite steps_manifests; [|apply sorted_entries_NoDup|].
    - cbn [res_bind]. rewrite list_to_map_sorted_entries, (right_id_L ∅ (∪)). exact Hsteps.
    - intros f t Hin%elem_of_sorted_entries. by destruct (host_ok_files_off_root s f t Hs Hin) as (? & _ & ?). }
  eexists. split; [done|]. case_bool_decide as Hnil; cbn [andb].
  - rewrite Hnil in Hall. destruct (negb _) eqn:Hz; cbn [vault_steps] in *.
    + split; [exact Hall|right]. split; [done|]. apply negb_true_iff, N.eqb_neq in Hz. done.
    + split; [by rewrite Hnil|left]. rewrite Hnil. cbn. lia.
  - split; [exact Hall|left]. rewrite length_app, length_fmap. unfold map_values.
    rewrite length_fmap, length_sorted_entries. lia.
Qed.

(** ** What a bootstrap says *)

Definition is_link (u : ControlUpdate) : Prop := ∃ p n c d, u = Link p n c d.

Lemma link_pass_links l dirs : Forall is_link (link_pass l dirs).1.2.
Proof.
  revert dirs. induction l as [|e l IH]; intros dirs; [constructor|]. cbn [link_pass]. case_bool_decide.
  - specialize (IH (if de_is_dir e then {[de_child e]} ∪ dirs else dirs)).
    destruct (link_pass l _) as [[d u] r]. cbn in *. constructor; [by do 4 eexists|done].
  - specialize (IH dirs). by destruct (link_pass l dirs) as [[d u] r].
Qed.

Lemma link_loop_links fuel remaining dirs updates :
  link_loop fuel remaining dirs = Some (Ok updates) → Forall is_link updates.
Proof.
  revert remaining dirs updates. induction fuel as [|fuel IH]; intros [|e l] dirs updates; cbn [link_loop].
  - intros [= <-]. constructor.
  - done.
  - intros [= <-]. constructor.
  - pose proof (link_pass_links (e :: l) dirs) as Hp.
    destruct (link_pass (e :: l) dirs) as [[d u] r]. destruct (_ =? _)%nat; [done|].
    destruct (link_loop fuel r d) as [[rest|]|] eqn:Hl; try done. intros [= <-].
    apply Forall_app. split; [exact Hp|by eapply IH].
Qed.

Lemma bootstrap_updates_kinds s through updates u :
  bootstrap_updates s through = Ok updates → u ∈ updates →
  (∃ f t, st_manifests s !! f = Some t ∧ u = commit_of t) ∨ is_link u ∨ u = Add zero_root.
Proof.
  unfold bootstrap_updates, link_updates.
  destruct (link_loop _ _ _) as [[links|]|] eqn:Hl; cbn; try done. apply link_loop_links in Hl.
  intros [= <-] Hu. case_bool_decide as Hn; cbn [andb] in Hu.
  - destruct (negb _); [|by rewrite Hn in Hu; apply elem_of_nil in Hu]. apply list_elem_of_singleton in Hu. by right; right.
  - apply elem_of_app in Hu as [(t & -> & [f Hf]%elem_of_map_values)%list_elem_of_fmap|Hu].
    + left. by exists f, t.
    + right. left. by eapply Forall_forall in Hl.
Qed.

(** The last record bears the number the bootstrap covers. *)
Lemma bootstrap_records_last s through records :
  bootstrap_records s through = Ok records → u64_N through ≠ 0 →
  ∃ r, last records = Some r ∧ cr_id r = through.
Proof.
  intros Hr Hz. pose proof (bootstrap_records_Ok _ _ _ Hr) as (Hu & Hle & Hi).
  destruct (last records) as [r|] eqn:Hlast.
  - exists r. split; [done|]. apply u64_eq. rewrite last_lookup in Hlast. rewrite (Hi _ _ Hlast).
    apply lookup_lt_Some in Hlast. unfold lenN in *. lia.
  - apply last_None in Hlast. subst. cbn in Hu. unfold bootstrap_updates in Hu.
    destruct (link_updates _ _) as [links|]; [|done]. cbn [res_bind] in Hu. injection Hu as Hu.
    case_bool_decide as Hn; cbn [andb] in Hu; [|done].
    rewrite (proj2 (N.eqb_neq _ _)) in Hu by done. done.
Qed.

Lemma number_records_total first updates :
  first + lenN updates <= u64_limit → ∃ records, number_records first updates = Ok records.
Proof.
  revert first. induction updates as [|u updates IH]; intros first Hle; cbn; [by eexists|].
  unfold lenN in *. cbn in Hle. destruct (u64_of_N_is_Some first) as (id & -> & _); [lia|]. cbn.
  destruct (IH (first + 1)) as [rs ->]; [lia|]. by eexists.
Qed.

(** A host in order can always make up the history for a new member. *)
Lemma bootstrap_records_total s through :
  host_ok s → u64_N through + 1 = u64_N (st_next_control s) →
  ∃ records, bootstrap_records s through = Ok records.
Proof.
  intros Hs Ht. destruct (bootstrap_updates_replay s through Hs) as (updates & Hu & _ & Hlen).
  pose proof (ho_history _ Hs) as Hh. unfold bootstrap_records. rewrite Hu. cbn [res_bind].
  assert (Hle : lenN updates <= u64_N through) by (unfold lenN; lia).
  pose proof (u64_bound through) as Hb. unfold u64_checked_sub. rewrite (proj2 (N.leb_le _ _)) by done.
  destruct (u64_of_N_is_Some (u64_N through - lenN updates)) as (d & -> & Hd); [lia|]. cbn.
  destruct (u64_of_N_is_Some (u64_N d + 1)) as (first & Hf & Hfirst).
  { pose proof (u64_bound (st_next_control s)). lia. }
  unfold u64_checked_add. rewrite Hf. cbn. apply number_records_total.
  pose proof (u64_bound (st_next_control s)). lia.
Qed.
End bootstrap.
