(* ===== verification/MemberInv.v ===== *)
(** * What a member's replica keeps

    [staged_step] is what applying a new instruction makes of a staged replica, and
    [stage_control_mode_wp] shows that [stage_control_mode] does that or nothing.  [staged_ok] is
    the invariant of a replica: its vault is what replaying its log from nothing gives. *)
From S2P Require Import KeyStoreOps.
From S2P Require Export Vault.
From Stdlib Require Import Lia ZifyN ZifyNat.

Open Scope N_scope.

Section control.
Context `{Sha256, MlDsa65, XWing, AesGcm, HkdfSha256}.

(** ** One instruction *)

(** Who is a member and who is denied after an update: a snapshot's manifests say nothing of
    today's members, and otherwise a writer met before is taken for one. *)
Definition members_step (accepted_snapshot : bool) (update : ControlUpdate) (staged : StagedReplica)
    : gset PeerId * gset PeerId :=
  match update with
  | NewManifest m =>
      (if negb accepted_snapshot && negb (bool_decide (mf_writer_id m ∈ sr_denied staged))
          && bool_decide (mf_writer_id m ∈ sr_historical_members staged)
       then {[mf_writer_id m]} ∪ sr_members staged else sr_members staged, sr_denied staged)
  | Kick target => (sr_members staged ∖ {[target]}, {[target]} ∪ sr_denied staged)
  | _ => (sr_members staged, sr_denied staged)
  end.

(** The document a writer's manifests are checked with: the archive's, or else the key store's. *)
Definition writer_document (k : StoreInner) (staged : StagedReplica) (writer : PeerId)
    : option IdentityDocument :=
  match sr_identity_documents staged !! writer with
  | Some document => Some document
  | None => if bool_decide (writer = local_id k) then Some (li_document (si_local k))
            else si_peers k !! writer
  end.

(** What an update needs besides its effect on the vault. *)
Definition authorised (k : StoreInner) (host_id : PeerId) (accepted_snapshot : bool)
    (update : ControlUpdate) (staged : StagedReplica) : Prop :=
  match update with
  | NewManifest m =>
      (accepted_snapshot = false → mf_writer_id m ∈ (members_step false update staged).1)
      ∧ ∃ document, writer_document k staged (mf_writer_id m) = Some document
                    ∧ manifest_signed document m = Ok tt
  | Kick target => target ≠ host_id ∧ target ∈ sr_members staged
  | _ => True
  end.

(** A new instruction, applied. *)
Record staged_step (k : StoreInner) (host_id : PeerId) (accepted_snapshot : bool)
    (record : ControlRecord) (staged staged' : StagedReplica) : Prop := {
  ss_after : u64_N (sr_bootstrap_through staged) < u64_N (cr_id record);
  ss_order last : last_control (sr_controls staged) = Some last → u64_N last < u64_N (cr_id record);
  ss_authorised : authorised k host_id accepted_snapshot (cr_update record) staged;
  ss_view : vault_step (member_view staged) (cr_update record) = Ok (member_view staged');
  ss_log : sr_log staged' = sr_log staged ++ [record];
  ss_controls : sr_controls staged' = <[cr_id record := record]> (sr_controls staged);
  ss_members : (sr_members staged', sr_denied staged')
    = members_step accepted_snapshot (cr_update record) staged;
  ss_through : sr_bootstrap_through staged' = sr_bootstrap_through staged;
  ss_documents : sr_identity_documents staged' = sr_identity_documents staged;
  ss_historical : sr_historical_members staged' = sr_historical_members staged;
}.

(** The staged replica with a manifest and members. *)
Definition with_manifest (m : Manifest) (members : gset PeerId) (staged : StagedReplica)
    : StagedReplica :=
  set_sr_manifests (<[mf_file_id m := mkTrustedManifest m]> (sr_manifests staged))
    (set_sr_members members staged).

Lemma verify_accepted_Ok m writer t :
  verify_accepted m writer = Ok t →
  t = mkTrustedManifest m ∧ mf_writer_id m = doc_peer_id writer ∧ manifest_signed writer m = Ok tt.
Proof.
  unfold verify_accepted. destruct (verify_identity writer) as [[]|]; cbn; [|done].
  case_bool_decide; cbn; [|done]. destruct (manifest_signed writer m) as [[]|]; cbn; [|done].
  by intros [= <-].
Qed.

Lemma query_ok_wp {A} (f : StoreInner → Result A) k :
  wp (query f) (λ x k', k' = k ∧ f k = Ok x) (λ k', k' = k) k.
Proof.
  unfold wp. destruct (query f k) as [[x|e] k'] eqn:Hq.
  - apply query_Ok in Hq as (-> & _ & ->). done.
  - by rewrite <-(query_state f k), Hq.
Qed.

Lemma TrustedManifest_verify_wp m members k :
  wp (TrustedManifest_verify m members)
    (λ t k', k' = k ∧ t = mkTrustedManifest m ∧ mf_writer_id m ∈ members
       ∧ ∃ document, manifest_signed document m = Ok tt
           ∧ (if bool_decide (mf_writer_id m = local_id k) then Some (li_document (si_local k))
              else si_peers k !! mf_writer_id m) = Some document)
    (λ k', k' = k) k.
Proof.
  unfold TrustedManifest_verify. apply wp_if; [intros Hin%bool_decide_eq_true|by intros _; apply wp_err].
  apply wp_bind. eapply wp_mono; [apply query_ok_wp|cbn beta|done]. intros local ? [-> [= <-]].
  apply wp_bind.
  eapply wp_mono with (Q := λ d k', k' = k ∧ (if bool_decide (mf_writer_id m = local_id k)
    then Some (li_document (si_local k)) else si_peers k !! mf_writer_id m) = Some d);
    [|cbn beta|done].
  - case_bool_decide.
    + eapply wp_mono; [apply query_ok_wp|cbn beta|done]. by intros d ? [-> [= <-]].
    + eapply wp_mono; [apply query_ok_wp|cbn beta|done]. intros d ? [-> Hd]. split; [done|].
      destruct (si_peers k !! mf_writer_id m); [by injection Hd as ->|done].
  - intros d ? [-> Hd]. apply wp_bind, wp_lift; [intros [] Hs|done]. apply wp_ret. eauto 10.
Qed.

Lemma stage_manifest_wp m accepted_snapshot staged k :
  wp (stage_manifest m accepted_snapshot staged)
    (λ staged' k', k' = k
       ∧ staged' = with_manifest m (members_step accepted_snapshot (NewManifest m) staged).1 staged
       ∧ ∀ host_id, authorised k host_id accepted_snapshot (NewManifest m) staged)
    (λ k', k' = k) k.
Proof.
  unfold stage_manifest.
  set (staged1 := if (_ && _ && _) then _ else staged).
  assert (Hst : staged1 = set_sr_members (members_step accepted_snapshot (NewManifest m) staged).1 staged).
  { unfold staged1. cbn. destruct (_ && _ && _); [done|by destruct staged]. }
  clearbody staged1. subst staged1. cbn [sr_identity_documents set_sr_members sr_members].
  apply wp_bind.
  eapply wp_mono with (Q := λ t k', k' = k ∧ t = mkTrustedManifest m
    ∧ ∀ host_id, authorised k host_id accepted_snapshot (NewManifest m) staged); [|cbn beta|done].
  2: { intros t ? (-> & -> & Ha). by apply wp_ret. }
  destruct accepted_snapshot.
  - apply wp_bind, wp_lift; [intros writer Hw|done]. apply wp_lift; [intros t Ht|done].
    destruct (sr_identity_documents staged !! mf_writer_id m) as [d|] eqn:Hd; [|done].
    injection Hw as ->. apply verify_accepted_Ok in Ht as (-> & _ & Hs).
    split_and!; [done|done|]. intros host_id. split; [done|]. exists writer. unfold writer_document. by rewrite Hd.
  - unfold verify_record_manifest. apply wp_if; [intros Hin%bool_decide_eq_true|by intros _; apply wp_err].
    destruct (sr_identity_documents staged !! mf_writer_id m) as [d|] eqn:Hd.
    + apply wp_lift; [intros t Ht|done]. apply verify_accepted_Ok in Ht as (-> & _ & Hs).
      split_and!; [done|done|]. intros host_id. split; [done|]. exists d. unfold writer_document. by rewrite Hd.
    + eapply wp_mono; [apply TrustedManifest_verify_wp|cbn beta|done].
      intros t ? (-> & -> & _ & d & Hs & Hk). split_and!; [done|done|]. intros host_id. split; [done|].
      exists d. unfold writer_document. by rewrite Hd.
Qed.

(** [stage_control_mode] applies a new instruction or, for one known already, does nothing. *)
Lemma stage_control_mode_wp host_id accepted_snapshot staged record k :
  wp (stage_control_mode host_id accepted_snapshot staged record)
    (λ r k', k' = k
       ∧ if r.1 : bool then staged_step k host_id accepted_snapshot record staged r.2 else r.2 = staged)
    (λ k', k' = k) k.
Proof.
  unfold stage_control_mode. apply wp_if; [by intros _; apply wp_ret|]. intros Hafter%N.leb_gt.
  destruct (sr_controls staged !! cr_id record) as [prior|] eqn:Hprior.
  { apply wp_if; intros _; [by apply wp_ret|by apply wp_err]. }
  apply wp_if; [intros Horder|by intros _; apply wp_err].
  apply wp_bind, wp_lift; [intros [] Hkind|done].
  apply wp_bind, wp_lift; [intros [tree removed] Htree|done].
  apply wp_bind.
  eapply wp_mono with (Q := λ s1 k', k' = k
    ∧ authorised k host_id accepted_snapshot (cr_update record) staged
    ∧ sr_tree s1 = sr_tree staged ∧ sr_controls s1 = sr_controls staged ∧ sr_log s1 = sr_log staged
    ∧ sr_bootstrap_through s1 = sr_bootstrap_through staged
    ∧ sr_identity_documents s1 = sr_identity_documents staged
    ∧ sr_historical_members s1 = sr_historical_members staged
    ∧ sr_manifests s1 = manifests_step (sr_manifests staged) (cr_update record) None
    ∧ (sr_members s1, sr_denied s1) = members_step accepted_snapshot (cr_update record) staged);
    [|cbn beta|done].
  - destruct (cr_update record) as [m| | | | | |target|] eqn:Hu; try (by apply wp_ret).
    + eapply wp_mono; [apply stage_manifest_wp|cbn beta|done]. intros s1 ? (-> & -> & Ha). by split_and!.
    + unfold stage_kick. apply wp_if; [|by intros _; apply wp_err].
      intros [Hne%negb_true_iff%bool_decide_eq_false Hin%bool_decide_eq_true]%andb_true_iff.
      apply wp_ret. by split_and!.
  - intros s1 ? (-> & Ha & Ht & Hc & Hl & Hb & Hd & Hh & Hm & Hmem). apply wp_ret. split; [done|]. cbn [fst snd].
    split; try done.
    + intros last Hlast. rewrite Hlast in Horder. apply negb_true_iff, N.leb_gt in Horder. done.
    + unfold vault_step, member_view. cbn [fst snd]. rewrite Hkind. cbn [res_bind]. rewrite Htree.
      cbn [res_bind]. destruct removed; cbn; rewrite Hm; by destruct (cr_update record).
    + destruct removed; cbn; by rewrite Hl.
    + destruct removed; cbn; by rewrite Hc.
    + destruct removed; cbn; by rewrite <-Hmem.
    + destruct removed; cbn; done.
    + destruct removed; cbn; done.
    + destruct removed; cbn; done.
Qed.
End control.

(** ** The vault stays in order *)

Record vault_ok (root : FileId) (v : VaultView) : Prop := {
  vo_tree : tree_ok v.1;
  vo_root : tr_expected_root v.1 = root;
  vo_files f t : v.2 !! f = Some t → mf_file_id (manifest t) = f ∧ is_dir v.1 f = false;
}.

Lemma empty_view_ok root : vault_ok root (empty_view root).
Proof. split; [apply tree_ok_new|done|]. intros f t Hf. by apply (lookup_empty_Some f t) in Hf. Qed.

Lemma vault_step_ok root v update v' :
  vault_ok root v → vault_step v update = Ok v' → vault_ok root v'.
Proof.
  intros [Ht Hr Hf] Hs. unfold vault_step in Hs.
  destruct (validate_link_kind v.2 update) as [[]|] eqn:Hk; [|done]. cbn [res_bind] in Hs.
  destruct (apply_tree_update v.1 update) as [[tree removed]|] eqn:Hu; [|done].
  cbn [res_bind] in Hs. injection Hs as <-.
  destruct (apply_tree_update_ok _ _ _ _ Ht Hu) as [Ht' Hr']. split; [done|by rewrite <-Hr|].
  assert (Hold : ∀ f t, v.2 !! f = Some t → is_dir tree f = false).
  { intros f t Hft. apply not_true_iff_false. intros Hd.
    destruct (apply_tree_update_dirs _ _ _ _ _ Hu Hd) as [Hd'|(p & n & ->)].
    - by rewrite (proj2 (Hf _ _ Hft)) in Hd'.
    - cbn in Hk. rewrite bool_decide_eq_true_2 in Hk; [done|by eexists]. }
  intros f t. cbn [snd fst]. unfold manifests_step. intros Hft.
  assert (Hft' : match update with
                 | NewManifest m => <[mf_file_id m := mkTrustedManifest m]> v.2
                 | _ => v.2 end !! f = Some t).
  { destruct removed; [by apply lookup_delete_Some in Hft as [_ ?]|done]. }
  destruct update as [m| | | | | | |]; try (split; [by apply Hf in Hft' as [? _]|by eapply Hold]).
  apply lookup_insert_Some in Hft' as [[<- <-]|[_ Hft']]; [|split; [by apply Hf in Hft' as [? _]|by eapply Hold]].
  split; [done|]. cbn in Hu. destruct (is_dir v.1 (mf_file_id m)) eqn:Hd; [done|]. by injection Hu as <- _.
Qed.

Lemma vault_steps_ok root v updates v' :
  vault_ok root v → vault_steps v updates = Ok v' → vault_ok root v'.
Proof.
  revert v. induction updates as [|u updates IH]; intros v Hv; cbn; [by intros [= <-]|].
  destruct (vault_step v u) as [v1|] eqn:Hs; [|done]. apply IH. by eapply vault_step_ok.
Qed.

(** ** Numbers of a log *)

Lemma controls_of_snoc log r : controls_of (log ++ [r]) = <[cr_id r := r]> (controls_of log).
Proof. unfold controls_of. by rewrite foldl_app. Qed.

Lemma controls_of_lookup log id r : controls_of log !! id = Some r → r ∈ log ∧ cr_id r = id.
Proof.
  revert id r. induction log as [|r' log IH] using rev_ind; intros id r; [done|].
  rewrite controls_of_snoc. intros [[<- <-]|[_ Hr]]%lookup_insert_Some.
  - split; [apply elem_of_app; right; by left|done].
  - destruct (IH _ _ Hr). split; [apply elem_of_app; by left|done].
Qed.

Lemma elem_of_controls_of log r : r ∈ log → is_Some (controls_of log !! cr_id r).
Proof.
  induction log as [|r' log IH] using rev_ind; [by intros ?%elem_of_nil|].
  intros [Hr| ->%list_elem_of_singleton]%elem_of_app; rewrite controls_of_snoc.
  - apply lookup_insert_is_Some. destruct (decide (cr_id r' = cr_id r)); [by left|right; eauto].
  - rewrite lookup_insert_eq. by eexists.
Qed.

Lemma last_control_Some controls last :
  last_control controls = Some last →
  is_Some (controls !! last) ∧ ∀ id, is_Some (controls !! id) → u64_N id <= u64_N last.
Proof.
  unfold last_control. rewrite fmap_Some. intros ([last' r] & Hl & ->). cbn [fst].
  apply last_Some in Hl as [l Hl].
  split. { exists r. apply elem_of_sorted_entries. rewrite Hl. apply elem_of_app. right. by left. }
  intros id [r' Hr%elem_of_sorted_entries]. rewrite Hl in Hr.
  apply elem_of_app in Hr as [Hr|[= -> _]%list_elem_of_singleton]; [|done].
  pose proof (sorted_entries_sorted controls) as Hs. rewrite Hl, fmap_app in Hs.
  apply StronglySorted_app in Hs as (Hlt & _ & _).
  specialize (Hlt id last'). unfold key_lt, ltb, u64_ord in Hlt. rewrite N.ltb_lt in Hlt.
  apply N.lt_le_incl, Hlt; [|by left]. apply (list_elem_of_fmap_2 fst) in Hr. exact Hr.
Qed.

Lemma last_control_None controls : last_control controls = None → controls = ∅.
Proof.
  unfold last_control. rewrite fmap_None, last_None. intros Hl. apply map_eq. intros id.
  rewrite lookup_empty. destruct (controls !! id) as [r|] eqn:Hr; [|done].
  apply elem_of_sorted_entries in Hr. rewrite Hl in Hr. by apply elem_of_nil in Hr.
Qed.

(** A number later than the last is later than the whole log. *)
Lemma last_control_later log id :
  (∀ last, last_control (controls_of log) = Some last → u64_N last < u64_N id) ↔
  (∀ r, r ∈ log → u64_N (cr_id r) < u64_N id).
Proof.
  split.
  - intros Hlast r Hr. pose proof (elem_of_controls_of _ _ Hr) as Hs.
    destruct (last_control (controls_of log)) as [last|] eqn:Hl.
    + specialize (Hlast _ eq_refl). apply last_control_Some in Hl as [_ Hmax].
      specialize (Hmax _ Hs). lia.
    + apply last_control_None in Hl. rewrite Hl in Hs. by apply is_Some_None in Hs.
  - intros Hlog last [[r Hr] _]%last_control_Some.
    destruct (controls_of_lookup _ _ _ Hr) as [Hin <-]. by apply Hlog.
Qed.

(** ** Instructions that are accepted *)

Section accepted.
Context `{Sha256, MlDsa65, XWing, AesGcm, HkdfSha256}.

(** What makes a member accept an update that its vault allows. *)
Definition acceptable (host_id : PeerId) (accepted_snapshot : bool) (update : ControlUpdate)
    (staged : StagedReplica) : Prop :=
  match update with
  | NewManifest m =>
      (accepted_snapshot = false → mf_writer_id m ∈ (members_step false update staged).1)
      ∧ ∃ document, sr_identity_documents staged !! mf_writer_id m = Some document
                    ∧ verify_accepted m document = Ok (mkTrustedManifest m)
  | Kick target => target ≠ host_id ∧ target ∈ sr_members staged
  | _ => True
  end.

Lemma stage_manifest_total host_id accepted_snapshot m staged k :
  acceptable host_id accepted_snapshot (NewManifest m) staged →
  ∃ staged', stage_manifest m accepted_snapshot staged k = (Ok staged', k).
Proof.
  intros [Hmem (d & Hd & Hv)]. unfold stage_manifest.
  set (staged1 := if (_ && _ && _) then _ else staged).
  assert (Hst : staged1 = set_sr_members (members_step accepted_snapshot (NewManifest m) staged).1 staged).
  { unfold staged1. cbn. destruct (_ && _ && _); [done|by destruct staged]. }
  clearbody staged1. subst staged1. unfold sm_bind, sm_lift, sm_ret.
  cbn [sr_identity_documents set_sr_members sr_members]. destruct accepted_snapshot.
  - rewrite Hd. cbn. rewrite Hv. by eexists.
  - unfold verify_record_manifest. rewrite bool_decide_eq_true_2 by (by apply Hmem).
    rewrite Hd. unfold sm_lift. rewrite Hv. by eexists.
Qed.

Lemma stage_control_mode_new host_id accepted_snapshot staged record k new staged' k' :
  u64_N (sr_bootstrap_through staged) < u64_N (cr_id record) →
  sr_controls staged !! cr_id record = None →
  stage_control_mode host_id accepted_snapshot staged record k = (Ok (new, staged'), k') → new = true.
Proof.
  intros Hafter Hnone. unfold stage_control_mode. rewrite (proj2 (N.leb_gt _ _)) by done. rewrite Hnone.
  intros Hs. sm_destruct. by match goal with x : DirectoryTree * option FileId |- _ => destruct x end; sm_destruct.
Qed.

Lemma stage_control_mode_total host_id accepted_snapshot staged record v k :
  u64_N (sr_bootstrap_through staged) < u64_N (cr_id record) →
  sr_controls staged !! cr_id record = None →
  (∀ last, last_control (sr_controls staged) = Some last → u64_N last < u64_N (cr_id record)) →
  vault_step (member_view staged) (cr_update record) = Ok v →
  acceptable host_id accepted_snapshot (cr_update record) staged →
  ∃ staged', stage_control_mode host_id accepted_snapshot staged record k = (Ok (true, staged'), k)
    ∧ staged_step k host_id accepted_snapshot record staged staged' ∧ member_view staged' = v.
Proof.
  intros Hafter Hnone Hlast Hv Hacc.
  assert (∃ staged', stage_control_mode host_id accepted_snapshot staged record k
    = (Ok (true, staged'), k)) as [staged' Hs].
  { unfold stage_control_mode. rewrite (proj2 (N.leb_gt _ _)) by done. rewrite Hnone.
    assert (match last_control (sr_controls staged) with
            | Some last => negb (u64_N (cr_id record) <=? u64_N last) | None => true end = true) as ->.
    { destruct (last_control (sr_controls staged)) as [last|]; [|done].
      apply negb_true_iff, N.leb_gt. by apply Hlast. }
    unfold vault_step, member_view in Hv. cbn [fst snd] in Hv.
    destruct (validate_link_kind (sr_manifests staged) (cr_update record)) as [[]|] eqn:Hk; [|done].
    cbn [res_bind] in Hv.
    destruct (apply_tree_update (sr_tree staged) (cr_update record)) as [[tree removed]|] eqn:Ht; [|done].
    unfold sm_bind, sm_lift. destruct (cr_update record) as [m| | | | | |target|]; try by eexists.
    - destruct (stage_manifest_total host_id accepted_snapshot m staged k Hacc) as [s1 ->]. by eexists.
    - destruct Hacc as [Hne Hin]. unfold stage_kick.
      rewrite bool_decide_eq_false_2, bool_decide_eq_true_2 by done. by eexists. }
  exists staged'. split; [done|].
  destruct (wp_Ok _ _ _ _ _ _ (stage_control_mode_wp host_id accepted_snapshot staged record k) Hs)
    as [_ Hstep]. cbn [fst snd] in Hstep. split; [done|].
  pose proof (ss_view _ _ _ _ _ _ Hstep) as Hv'. rewrite Hv in Hv'. by injection Hv'.
Qed.
End accepted.
