(* ===== verification/MemberMachine.v ===== *)
(** * A member through any calls

    [staged_ok] and [member_ok] are the invariants of a replica; [follows] is what a replica never
    goes back on.  Every method keeps both, whether it returns or fails. *)
From S2P Require Import KeyStoreOps.
From S2P Require Export MemberInv.
From Stdlib Require Import Lia ZifyN ZifyNat.

Open Scope N_scope.

(** ** Invariants *)

(** The vault a replica shows is what its log, replayed from nothing, gives. *)
Record staged_ok (host_id : PeerId) (root : FileId) (s : StagedReplica) : Prop := {
  so_host : host_id ∈ sr_members s;
  so_denied : sr_members s ## sr_denied s;
  so_controls : sr_controls s = controls_of (sr_log s);
  so_order : in_order (sr_log s);
  so_positive r : r ∈ sr_log s → 1 <= u64_N (cr_id r);
  so_replay : vault_steps (empty_view root) (cr_update <$> sr_log s) = Ok (member_view s);
}.

(** What a later state of a replica keeps of an earlier one. *)
Record grown (s s' : StagedReplica) : Prop := {
  gr_log : sr_log s `prefix_of` sr_log s';
  gr_denied : sr_denied s ⊆ sr_denied s';
  gr_historical : sr_historical_members s ⊆ sr_historical_members s';
  gr_through : u64_N (sr_bootstrap_through s) <= u64_N (sr_bootstrap_through s');
}.

#[export] Instance grown_preorder : PreOrder grown.
Proof.
  split; [intros s; by split|]. intros a b c [l1 d1 h1 t1] [l2 d2 h2 t2].
  split; [by etransitivity|by etransitivity|by etransitivity|lia].
Qed.

Definition writers_known (s : StagedReplica) : Prop :=
  (∀ f t, sr_manifests s !! f = Some t → is_Some (sr_identity_documents s !! mf_writer_id (manifest t)))
  ∧ ∀ r writer, r ∈ sr_log s → record_writer r = Some writer → is_Some (sr_identity_documents s !! writer).

Record member_ok (m : MemberReplica) : Prop := {
  mo_staged : staged_ok (mr_host_id m) (mr_expected_root m) (mr_replica m);
  mo_historical : sr_members (mr_replica m) ⊆ sr_historical_members (mr_replica m);
  mo_writers : writers_known (mr_replica m);
  mo_last : mr_last_applied m = staged_last u64_zero (mr_replica m);
}.

Record follows (m m' : MemberReplica) : Prop := {
  fo_host : mr_host_id m' = mr_host_id m;
  fo_root : mr_expected_root m' = mr_expected_root m;
  fo_replica : grown (mr_replica m) (mr_replica m');
  fo_last : u64_N (mr_last_applied m) <= u64_N (mr_last_applied m');
}.

#[export] Instance follows_preorder : PreOrder follows.
Proof.
  split; [intros m; by split|]. intros a b c [h1 r1 g1 l1] [h2 r2 g2 l2].
  split; [congruence|congruence|by etransitivity|lia].
Qed.

(** Nothing changed that the invariant speaks of. *)
Record same_member (m m' : MemberReplica) : Prop := {
  sm_host : mr_host_id m' = mr_host_id m;
  sm_root : mr_expected_root m' = mr_expected_root m;
  sm_replica : mr_replica m' = mr_replica m;
  sm_last : mr_last_applied m' = mr_last_applied m;
}.

#[export] Instance same_member_equiv : Equivalence same_member.
Proof.
  split; [intros m; by split|intros ?? []; split; congruence|intros ??? [] []; split; congruence].
Qed.

Definition member_hop (m m' : MemberReplica) : Prop := member_ok m → member_ok m' ∧ follows m m'.

#[export] Instance member_hop_preorder : PreOrder member_hop.
Proof.
  split; [intros m Hm; split; [done|reflexivity]|]. intros a b c Hab Hbc Ha.
  destruct (Hab Ha) as [Hb Fab], (Hbc Hb) as [Hc Fbc]. split; [done|by etransitivity].
Qed.

#[export] Instance same_member_hop : subrelation same_member member_hop.
Proof.
  intros m m' [Hh Hr Hs Hl] [h1 h2 h3 h4]. split; (split; rewrite ?Hh, ?Hr, ?Hs, ?Hl); done.
Qed.

(** ** Staged replicas *)

Section staged.
Context `{Sha256, MlDsa65, XWing, AesGcm, HkdfSha256}.

Lemma staged_step_ok k host_id root accepted_snapshot record s s' :
  staged_ok host_id root s → staged_step k host_id accepted_snapshot record s s' →
  staged_ok host_id root s' ∧ grown s s'.
Proof.
  intros [Hh Hd Hc Ho Hp Hr] [Hafter Hlast Hauth Hview Hlog Hcon Hmem Hthr _ Hhist].
  assert (Hnum : ∀ r, r ∈ sr_log s → u64_N (cr_id r) < u64_N (cr_id record)).
  { apply last_control_later. rewrite <-Hc. exact Hlast. }
  assert (host_id ∈ sr_members s' ∧ sr_members s' ## sr_denied s' ∧ sr_denied s ⊆ sr_denied s')
    as (Hh' & Hd' & Hden).
  { revert Hmem. unfold members_step. destruct (cr_update record) as [m| | | | | |target|]; intros [= -> ->];
      try done.
    - split_and!; [by destruct (_ && _ && _); set_solver| |done].
      destruct (negb accepted_snapshot && _ && _) eqn:Hb; [|done].
      apply andb_true_iff in Hb as [[_ Hb%negb_true_iff%bool_decide_eq_false]%andb_true_iff _]. set_solver.
    - destruct Hauth as [Hne _]. set_solver. }
  split; split; try done.
  - by rewrite Hcon, Hc, Hlog, controls_of_snoc.
  - rewrite Hlog. apply in_order_snoc; [done|]. exact Hnum.
  - intros r. rewrite Hlog. intros [Hin| ->%list_elem_of_singleton]%elem_of_app; [by apply Hp|lia].
  - rewrite Hlog, fmap_app, vault_steps_app, Hr. cbn. by rewrite Hview.
  - rewrite Hlog. by apply prefix_app_r.
  - by rewrite Hhist.
  - by rewrite Hthr.
Qed.

(** The fields an archive or a chunk store changes are not part of the invariant. *)
Lemma staged_ok_same host_id root s s' :
  sr_members s' = sr_members s → sr_denied s' = sr_denied s → sr_controls s' = sr_controls s →
  sr_log s' = sr_log s → member_view s' = member_view s →
  staged_ok host_id root s → staged_ok host_id root s'.
Proof. intros Hm Hd Hc Hl Hv []. split; rewrite ?Hm, ?Hd, ?Hc, ?Hl, ?Hv; done. Qed.

Lemma staged_last_grown s s' :
  in_order (sr_log s') → grown s s' →
  u64_N (staged_last u64_zero s) <= u64_N (staged_last u64_zero s').
Proof.
  intros Ho [[l Hl] _ _ Ht]. unfold staged_last. rewrite !u64_max_N.
  rewrite Hl in Ho |- *. destruct (last (sr_log s)) as [r|] eqn:Hr.
  - rewrite last_app. destruct (last l) as [r'|] eqn:Hr'; [|rewrite Hr; lia].
    apply StronglySorted_app in Ho as (Hlt & _ & _).
    assert (record_lt r r') as Hrr.
    { apply Hlt.
      - apply last_Some in Hr as [l0 ->]. apply elem_of_app. right. by left.
      - apply last_Some in Hr' as [l0 ->]. apply elem_of_app. right. by left. }
    unfold record_lt in Hrr. lia.
  - change (u64_N u64_zero) with 0. lia.
Qed.

(** Counting from the last applied number is the same as from nothing. *)
Lemma staged_last_from s s' :
  grown s s' → staged_last (staged_last u64_zero s) s' = staged_last u64_zero s'.
Proof.
  intros [[l Hl] _ _ Ht]. unfold staged_last at 1 3. destruct (last (sr_log s')) as [r|] eqn:Hr; [done|].
  apply last_None in Hr. rewrite Hl in Hr. apply app_nil in Hr as [Hs _].
  apply u64_eq. unfold staged_last. rewrite Hs. cbn [last]. rewrite !u64_max_N.
  change (u64_N u64_zero) with 0. lia.
Qed.
End staged.

(** ** Methods *)

Section methods.
Context `{Sha256, MlDsa65, XWing, AesGcm, HkdfSha256, Oracle}.

Lemma on_member_world_wp {A} (f : SM World A) (Q : A → Prop) m :
  (∀ w, wp f (λ x _, Q x) (λ _, True) w) →
  wp (on_member_world f) (λ x m', same_member m m' ∧ Q x) (same_member m) m.
Proof.
  intros Hf. apply wp_zoom. specialize (Hf (mr_world m)). unfold wp in *.
  destruct (f (mr_world m)) as [[x|e] w]; [split; [by split|exact Hf]|by split].
Qed.

Lemma on_member_keys_wp {A} (f : SM StoreInner A) (Q : A → Prop) m :
  (∀ k, wp f (λ x _, Q x) (λ _, True) k) →
  wp (on_member_keys f) (λ x m', same_member m m' ∧ Q x) (same_member m) m.
Proof.
  intros Hf. apply (on_member_world_wp (keys f)). intros w. apply wp_zoom.
  eapply wp_mono; [apply Hf|done|done].
Qed.

Lemma on_member_world_same {A} (f : SM World A) m :
  wp (on_member_world f) (λ _, same_member m) (same_member m) m.
Proof.
  eapply wp_mono; [apply (on_member_world_wp f (λ _, True)); intros; by apply wp_any| |done].
  by intros x m' [? _].
Qed.

Lemma on_member_keys_same {A} (f : SM StoreInner A) m :
  wp (on_member_keys f) (λ _, same_member m) (same_member m) m.
Proof. apply (on_member_world_same (keys f)). Qed.

(** [discard_peer] only forgets keys. *)
Lemma discard_peers_same peers m :
  wp (sm_each discard_peer peers) (λ _, same_member m) (same_member m) m.
Proof.
  apply (wp_each discard_peer (same_member m)); [reflexivity|]. intros p m1 _ Hm1.
  eapply wp_mono; [apply on_member_world_same| |]; cbn beta; [intros _ m2|intros m2]; intros; by etransitivity.
Qed.

Lemma require_writer_documents_Ok manifests log documents :
  require_writer_documents manifests log documents = Ok tt →
  (∀ f t, manifests !! f = Some t → is_Some (documents !! mf_writer_id (manifest t)))
  ∧ ∀ r writer, r ∈ log → record_writer r = Some writer → is_Some (documents !! writer).
Proof.
  unfold require_writer_documents. destruct (forallb _ _) eqn:Hall; [|done]. intros _.
  rewrite forallb_forall in Hall. split.
  - intros f t Hf. apply (bool_decide_unpack _). apply Is_true_true, Hall, list_elem_of_In, elem_of_app. left.
    apply list_elem_of_fmap. exists t. split; [done|]. apply elem_of_map_values. by exists f.
  - intros r writer Hr Hw. apply (bool_decide_unpack _). apply Is_true_true, Hall, list_elem_of_In, elem_of_app.
    right. apply list_elem_of_omap. by exists r.
Qed.

(** The staged replica with what publishing adds to it. *)
Definition archived_replica (documents : gmap PeerId IdentityDocument) (staged : StagedReplica)
    : StagedReplica :=
  set_sr_historical_members (sr_historical_members staged ∪ sr_members staged)
    (set_sr_identity_documents documents staged).

(** [m'] is [m] with [staged] for its replica. *)
Record installed (staged : StagedReplica) (m m' : MemberReplica) : Prop := {
  in_host : mr_host_id m' = mr_host_id m;
  in_root : mr_expected_root m' = mr_expected_root m;
  in_replica : ∃ documents chunks,
    mr_replica m' = set_sr_chunks chunks (archived_replica documents staged)
    ∧ archived (sr_identity_documents staged) documents;
  in_writers : writers_known (mr_replica m');
  in_last : mr_last_applied m' = staged_last (mr_last_applied m) staged;
}.

Lemma installed_same staged m m1 m2 m3 :
  same_member m m1 → installed staged m1 m2 → same_member m2 m3 → installed staged m m3.
Proof.
  intros [h1 r1 s1 l1] [h2 r2 s2 w2 l2] [h3 r3 s3 l3].
  split; rewrite ?h3, ?r3, ?s3, ?l3, ?l2, ?h2, ?r2, ?l1; done.
Qed.

Lemma archive_replica_wp staged k :
  wp (archive_replica staged)
    (λ staged' _, ∃ documents, staged' = archived_replica documents staged
       ∧ archived (sr_identity_documents staged) documents
       ∧ require_writer_documents (sr_manifests staged) (sr_log staged) documents = Ok tt)
    (λ _, True) k.
Proof.
  unfold archive_replica. apply wp_bind. eapply wp_mono; [apply archive_documents_archived|cbn beta|done].
  intros documents k1 Ha. apply wp_bind, wp_lift; [intros [] Hr|done]. apply wp_ret. by exists documents.
Qed.

(** Publishing installs the staged replica, or leaves everything as it was. *)
Lemma apply_staged_wp staged m :
  wp (apply_staged staged) (λ _, installed staged m) (λ m', same_member m m' ∨ installed staged m m') m.
Proof.
  unfold apply_staged. apply wp_bind, wp_get, wp_bind.
  eapply wp_mono; [eapply on_member_keys_wp, archive_replica_wp|cbn beta|by left].
  intros staged1 m1 [Hm1 (documents & -> & Ha & Hr)]. apply wp_bind.
  eapply wp_mono; [apply on_member_keys_same|cbn beta|cbn beta; left; by etransitivity].
  intros metadata m2 Hm2. apply wp_bind.
  eapply wp_mono; [apply on_member_world_same|cbn beta|cbn beta; left; by do 2 (etransitivity; [done|])].
  intros chunks m3 Hm3. apply wp_bind. unfold wp at 1.
  set (m4 := set_mr_last_applied _ _).
  assert (Hi : installed staged m m4).
  { assert (same_member m m3) as [h r s l] by (by do 2 (etransitivity; [done|])).
    split; [exact h|exact r|by exists documents, chunks| |].
    - by apply require_writer_documents_Ok in Hr.
    - unfold m4. cbn. rewrite l. done. }
  eapply wp_mono; [apply discard_peers_same|cbn beta|cbn beta].
  - intros _ m5 Hm5. by apply (installed_same staged m m m4 m5).
  - intros m5 Hm5. right. by apply (installed_same staged m m m4 m5).
Qed.

Lemma installed_hop staged m m' :
  (member_ok m → staged_ok (mr_host_id m) (mr_expected_root m) staged ∧ grown (mr_replica m) staged) →
  installed staged m m' → member_hop m m'.
Proof.
  intros Hst [Hh Hr (documents & chunks & Hrep & _) Hw Hl] Hm. destruct (Hst Hm) as [Hok Hg].
  assert (Hok' : staged_ok (mr_host_id m) (mr_expected_root m) (mr_replica m')).
  { rewrite Hrep. revert Hok. by apply staged_ok_same. }
  assert (Hg' : grown (mr_replica m) (mr_replica m')).
  { etransitivity; [exact Hg|]. rewrite Hrep. split; cbn; try done. set_solver. }
  assert (Hl' : mr_last_applied m' = staged_last u64_zero (mr_replica m')).
  { rewrite Hl, (mo_last _ Hm), (staged_last_from _ _ Hg). by rewrite Hrep. }
  split; split; rewrite ?Hh, ?Hr; try done.
  - rewrite Hrep. cbn. set_solver.
  - rewrite Hl', (mo_last _ Hm). apply staged_last_grown; [apply (so_order _ _ _ Hok')|done].
Qed.

(** How a method is shown to keep the invariant: it publishes a replica in order, at most. *)
Lemma apply_staged_hop staged m :
  (member_ok m → staged_ok (mr_host_id m) (mr_expected_root m) staged ∧ grown (mr_replica m) staged) →
  wp (apply_staged staged) (λ _, member_hop m) (member_hop m) m.
Proof.
  intros Hst. eapply wp_mono; [apply apply_staged_wp|cbn beta|cbn beta].
  - intros _ m'. by apply installed_hop.
  - intros m' [Hs|Hi]; [by apply same_member_hop|by eapply installed_hop].
Qed.

(** ** Changes of a staged replica *)

Definition advance (host_id : PeerId) (root : FileId) (s s' : StagedReplica) : Prop :=
  staged_ok host_id root s → staged_ok host_id root s' ∧ grown s s'.

#[export] Instance advance_preorder host_id root : PreOrder (advance host_id root).
Proof.
  split; [intros s Hs; split; [done|reflexivity]|]. intros a b c Hab Hbc Ha.
  destruct (Hab Ha) as [Hb Gab], (Hbc Hb) as [Hc Gbc]. split; [done|by etransitivity].
Qed.

(** As long as a bootstrap is not complete, the number it covers stays. *)
Definition applied (host_id : PeerId) (root : FileId) (s s' : StagedReplica) : Prop :=
  advance host_id root s s' ∧ sr_bootstrap_through s' = sr_bootstrap_through s.

#[export] Instance applied_preorder host_id root : PreOrder (applied host_id root).
Proof.
  split; [intros s; by split|]. intros a b c [Hab Tab] [Hbc Tbc].
  split; [by etransitivity|congruence].
Qed.

Lemma applied_chunks host_id root chunks s : applied host_id root s (set_sr_chunks chunks s).
Proof. split; [|done]. intros Hs. split; [by revert Hs; apply staged_ok_same|by split]. Qed.

Lemma stage_control_applied host_id root accepted_snapshot s record k :
  wp (stage_control_mode host_id accepted_snapshot s record)
    (λ r _, applied host_id root s r.2) (λ _, True) k.
Proof.
  eapply wp_mono; [apply stage_control_mode_wp|cbn beta|done]. intros [[] s'] k' [_ Hs]; cbn [fst snd] in Hs.
  - split; [|by apply Hs]. intros Hok. by eapply staged_step_ok.
  - rewrite Hs. reflexivity.
Qed.

Lemma add_history_Ok s documents s' :
  add_history s documents = Ok s' →
  ∃ archive historical, s' = set_sr_identity_documents archive (set_sr_historical_members historical s)
    ∧ sr_historical_members s ⊆ historical.
Proof.
  unfold add_history. revert s'. induction documents as [|d documents IH] using rev_ind; intros s'.
  { intros [= <-]. exists (sr_identity_documents s), (sr_historical_members s). by destruct s. }
  rewrite foldl_app. cbn [foldl]. destruct (foldl _ _ documents) as [s1|]; [|done]. cbn [res_bind].
  destruct (verify_identity d) as [[]|]; [|done]. cbn [res_bind]. intros [= <-].
  destruct (IH _ eq_refl) as (archive & historical & -> & Hsub). exists (<[doc_peer_id d := d]> archive), ({[doc_peer_id d]} ∪ historical). split; [done|]. set_solver.
Qed.

Lemma add_history_applied host_id root documents s s' :
  add_history s documents = Ok s' → applied host_id root s s'.
Proof.
  intros (archive & historical & -> & Hsub)%add_history_Ok. split; [|done]. intros Hok.
  split; [by revert Hok; apply staged_ok_same|by split].
Qed.

Lemma begin_bootstrap_through root last_applied s through installing s' :
  begin_bootstrap root last_applied s through = Ok (installing, s') →
  sr_bootstrap_through s' = sr_bootstrap_through s
  ∧ ∀ n, installing = Some n → u64_N (sr_bootstrap_through s) <= u64_N n.
Proof.
  unfold begin_bootstrap. destruct through as [through|]; [|by intros [= <- <-]].
  case_bool_decide; [by intros [= <- <-]|].
  destruct (N.ltb_spec (u64_N through) (u64_N (sr_bootstrap_through s))); [done|].
  destruct (_ <? _); [done|]. cbn [orb]. destruct (negb _); [done|]. intros [= <- <-].
  split; [done|by intros n [= <-]].
Qed.

(** A bootstrap starts over only where nothing was applied. *)
Lemma begin_bootstrap_ok m through installing s' :
  member_ok m →
  begin_bootstrap (mr_expected_root m) (mr_last_applied m) (mr_replica m) through = Ok (installing, s') →
  staged_ok (mr_host_id m) (mr_expected_root m) s' ∧ grown (mr_replica m) s'.
Proof.
  intros Hm. unfold begin_bootstrap. destruct through as [through|].
  2: { intros [= <- <-]. split; [apply mo_staged, Hm|reflexivity]. }
  case_bool_decide; [intros [= <- <-]; split; [apply mo_staged, Hm|reflexivity]|].
  destruct (_ || _); [done|].
  destruct (N.eqb_spec (u64_N (mr_last_applied m)) 0) as [Hz|]; [|done]. cbn [negb]. intros [= <- <-].
  pose proof (mo_staged _ Hm) as [Hh Hd Hc Ho Hp Hr].
  assert (Hlog : sr_log (mr_replica m) = []).
  { rewrite (mo_last _ Hm) in Hz. unfold staged_last in Hz. rewrite u64_max_N in Hz.
    destruct (last (sr_log (mr_replica m))) as [r|] eqn:Hlast; [|by apply last_None].
    apply last_Some in Hlast as [l Hl']. specialize (Hp r). rewrite Hl' in Hp.
    assert (1 <= u64_N (cr_id r)) by (apply Hp, elem_of_app; right; by left). lia. }
  split; [|split; cbn; try done; by rewrite Hlog].
  split; cbn; try done; [constructor|by intros r ?%elem_of_nil].
Qed.

(** ** Methods on a state that is the same so far *)

Lemma hop_same m m1 m2 : same_member m m1 → member_hop m1 m2 → member_hop m m2.
Proof. intros Hs. etransitivity; [by apply same_member_hop|done]. Qed.

(** Once nothing has changed yet, a method may go on as if it started there. *)
Lemma wp_hop_same {A} (f : SM MemberReplica A) m m1 :
  same_member m m1 → wp f (λ _, member_hop m1) (member_hop m1) m1 →
  wp f (λ _, member_hop m) (member_hop m) m1.
Proof. intros Hs Hf. eapply wp_mono; [exact Hf| |]; intros; by eapply hop_same. Qed.

Lemma wp_hop_keys {A B} (f : SM StoreInner A) (g : A → SM MemberReplica B) m :
  (∀ x m1, same_member m m1 → wp (g x) (λ _, member_hop m) (member_hop m) m1) →
  wp (do! x := on_member_keys f in g x) (λ _, member_hop m) (member_hop m) m.
Proof.
  intros Hg. apply wp_bind. eapply wp_mono; [apply on_member_keys_same|cbn beta; intros; by apply Hg|].
  intros m1 Hm1. by apply same_member_hop.
Qed.

Lemma wp_hop_lift {A B} (r : Result A) (g : A → SM MemberReplica B) m m1 :
  same_member m m1 → (∀ x, r = Ok x → wp (g x) (λ _, member_hop m) (member_hop m) m1) →
  wp (do! x := sm_lift r in g x) (λ _, member_hop m) (member_hop m) m1.
Proof. intros Hs Hg. apply wp_bind, wp_lift; [done|intros _; by apply same_member_hop]. Qed.

Lemma wp_hop_check {B} (b : bool) e (g : SM MemberReplica B) m m1 :
  same_member m m1 → (b = true → wp g (λ _, member_hop m) (member_hop m) m1) →
  wp (check! b else e in g) (λ _, member_hop m) (member_hop m) m1.
Proof. intros Hs Hg. apply wp_if; [done|intros _; apply wp_err; by apply same_member_hop]. Qed.

Lemma wp_hop_bind {A B} (f : SM MemberReplica A) (g : A → SM MemberReplica B) (Q : A → Prop) m m1 :
  same_member m m1 → wp f (λ x m', same_member m1 m' ∧ Q x) (same_member m1) m1 →
  (∀ x m2, same_member m m2 → Q x → wp (g x) (λ _, member_hop m) (member_hop m) m2) →
  wp (sm_bind f g) (λ _, member_hop m) (member_hop m) m1.
Proof.
  intros Hs Hf Hg. apply wp_bind. eapply wp_mono; [exact Hf|cbn beta|cbn beta].
  - intros x m2 [Hm2 HQ]. apply Hg; [by etransitivity|done].
  - intros m2 Hm2. apply same_member_hop. by etransitivity.
Qed.

Lemma wp_hop_query {A B} (f : SM StoreInner A) (g : A → SM MemberReplica B) m m1 :
  same_member m m1 → (∀ x m2, same_member m m2 → wp (g x) (λ _, member_hop m) (member_hop m) m2) →
  wp (do! x := on_member_keys f in g x) (λ _, member_hop m) (member_hop m) m1.
Proof.
  intros Hs Hg. eapply (wp_hop_bind _ _ (λ _, True)); [exact Hs| |auto].
  eapply wp_mono; [apply on_member_keys_same|by split|done].
Qed.

Lemma apply_staged_same {B} staged (g : SM MemberReplica B) m m1 :
  same_member m m1 →
  (member_ok m → staged_ok (mr_host_id m) (mr_expected_root m) staged ∧ grown (mr_replica m) staged) →
  (∀ m2, member_hop m m2 → wp g (λ _, member_hop m) (member_hop m) m2) →
  wp (do! _ := apply_staged staged in g) (λ _, member_hop m) (member_hop m) m1.
Proof.
  intros Hs Hst Hg. apply wp_bind. pose proof Hs as [Hh Hr Hrep _].
  eapply wp_mono; [apply apply_staged_hop|cbn beta; intros; by apply Hg, (hop_same _ m1)
                  |intros; by apply (hop_same _ m1)].
  intros Hm1. rewrite Hh, Hr, Hrep. apply Hst.
  by destruct (same_member_hop m1 m (symmetry Hs) Hm1).
Qed.

Lemma wp_tail (f : SM MemberReplica unit) Q E m : wp (do! _ := f in sm_ret tt) Q E m → wp f Q E m.
Proof. unfold wp, sm_bind. by destruct (f m) as [[[]|e] m']. Qed.

Lemma wp_hop_publish staged m m1 :
  same_member m m1 →
  (member_ok m → staged_ok (mr_host_id m) (mr_expected_root m) staged ∧ grown (mr_replica m) staged) →
  wp (apply_staged staged) (λ _, member_hop m) (member_hop m) m1.
Proof.
  intros Hs Hst. apply wp_tail. apply apply_staged_same; [done|done|]. intros m2 Hm2. by apply wp_ret.
Qed.

(** ** Membership *)

Lemma add_members_hop members m : wp (add_members members) (λ _, member_hop m) (member_hop m) m.
Proof.
  apply wp_bind, wp_get. apply wp_hop_check; [reflexivity|intros Hhost%bool_decide_eq_true].
  apply wp_hop_query; [reflexivity|]. intros local m1 Hm1. apply wp_hop_check; [done|intros _].
  apply wp_bind, wp_bind, wp_get, wp_ret. rewrite (sm_replica _ _ Hm1).
  apply wp_hop_publish; [done|]. intros Hm. pose proof (mo_staged _ Hm) as [].
  split; split; cbn; try done; set_solver.
Qed.

Lemma learn_history_hop documents m : wp (learn_history documents) (λ _, member_hop m) (member_hop m) m.
Proof.
  apply wp_bind, wp_get, wp_if; intros _; [apply wp_ret; reflexivity|].
  apply wp_bind, wp_bind, wp_get, wp_ret. apply wp_hop_lift; [reflexivity|]. intros staged Hs.
  apply wp_hop_publish; [reflexivity|]. intros Hm. eapply add_history_applied; [exact Hs|].
  by apply mo_staged.
Qed.

Lemma reconcile_members_hop members denied m :
  wp (reconcile_members members denied) (λ _, member_hop m) (member_hop m) m.
Proof.
  apply wp_bind, wp_get. apply wp_hop_check; [reflexivity|intros Hhost%bool_decide_eq_true].
  apply wp_hop_query; [reflexivity|]. intros local m1 Hm1. apply wp_hop_check; [done|].
  intros [[_ Hdis%bool_decide_eq_true]%andb_true_iff _]%andb_true_iff.
  apply wp_if; intros _; [apply wp_ret; by apply same_member_hop|].
  apply wp_bind, wp_bind, wp_get, wp_ret. apply wp_hop_check; [done|intros Hsub%bool_decide_eq_true].
  rewrite (sm_replica _ _ Hm1) in Hsub |- *.
  apply wp_hop_publish; [done|]. intros Hm. pose proof (mo_staged _ Hm) as [].
  split; split; cbn; try done; set_solver.
Qed.

(** ** Controls *)

Lemma apply_record_hop record m : wp (apply_record record) (λ _, member_hop m) (member_hop m) m.
Proof.
  apply wp_bind, wp_get, wp_bind, wp_bind, wp_get, wp_ret.
  eapply wp_hop_bind; [reflexivity| |].
  { apply on_member_keys_wp. intros k. apply (stage_control_applied _ (mr_expected_root m)). }
  intros [new staged] m1 Hm1 Hadv. cbn [snd] in Hadv. apply wp_hop_publish; [done|].
  intros Hm. by apply Hadv, mo_staged.
Qed.

Lemma check_header_same header session m :
  wp (check_header_for_session header session) (λ _, same_member m) (same_member m) m.
Proof.
  apply wp_bind, wp_get, wp_if; [intros _|intros _; by apply wp_err].
  apply wp_bind. eapply wp_mono; [apply on_member_keys_same|cbn beta|done]. intros local m1 Hm1.
  apply wp_if; [intros _; by apply wp_ret|intros _; by apply wp_err].
Qed.

Lemma wp_hop_then {B} (g : SM MemberReplica B) m m1 :
  member_hop m m1 → wp g (λ _, member_hop m1) (member_hop m1) m1 →
  wp g (λ _, member_hop m) (member_hop m) m1.
Proof. intros Hm Hg. eapply wp_mono; [exact Hg| |]; intros; by etransitivity. Qed.

Lemma apply_control_hop packet m : wp (apply_control packet) (λ _, member_hop m) (member_hop m) m.
Proof.
  apply wp_bind, wp_get. apply wp_hop_query; [reflexivity|]. intros _ m1 Hm1.
  apply wp_hop_query; [done|]. intros session m2 Hm2.
  eapply (wp_hop_bind _ _ (λ _, True)); [done| |].
  { eapply wp_mono; [apply check_header_same|by split|done]. }
  intros _ m3 Hm3 _. apply wp_if; intros _; [apply wp_ret; by apply same_member_hop|].
  apply wp_hop_query; [done|]. intros session' m4 Hm4.
  apply wp_hop_query; [done|]. intros plaintext m5 Hm5.
  apply wp_hop_lift; [done|]. intros record _. apply wp_bind.
  eapply wp_mono; [apply wp_hop_same; [exact Hm5|apply apply_record_hop]|cbn beta|done].
  intros _ m6 Hm6. unfold wp, member_update. etransitivity; [exact Hm6|]. by apply same_member_hop.
Qed.

Lemma apply_authenticated_control_hop record m :
  wp (apply_authenticated_control record) (λ _, member_hop m) (member_hop m) m.
Proof.
  apply wp_bind, wp_get. apply wp_hop_query; [reflexivity|]. intros _ m1 Hm1.
  apply wp_hop_same; [done|]. apply apply_record_hop.
Qed.

(** ** Draining a mailbox *)

Lemma wp_same_bind {A B} (f : SM MemberReplica A) (g : A → SM MemberReplica B) (Q : A → Prop)
    (R : B → MemberReplica → Prop) m m1 :
  same_member m m1 → wp f (λ x m', same_member m1 m' ∧ Q x) (same_member m1) m1 →
  (∀ x m2, same_member m m2 → Q x → wp (g x) R (same_member m) m2) →
  wp (sm_bind f g) R (same_member m) m1.
Proof.
  intros Hs Hf Hg. apply wp_bind. eapply wp_mono; [exact Hf|cbn beta|cbn beta].
  - intros x m2 [Hm2 HQ]. apply Hg; [by etransitivity|done].
  - intros m2 Hm2. by etransitivity.
Qed.

Lemma drain_opened_applied host_id root installing d opened k :
  wp (drain_opened host_id installing d opened)
    (λ d' _, applied host_id root (dr_staged d) (dr_staged d')) (λ _, True) k.
Proof.
  destruct opened as [record|file_id index plaintext]; cbn [drain_opened].
  - apply wp_bind. eapply wp_mono; [apply (stage_control_applied host_id root)|cbn beta|done].
    intros [new s'] k' Hs. by apply wp_ret.
  - apply wp_if; [intros _; apply wp_ret; cbn; reflexivity|done].
Qed.

Lemma note_counter_staged frame n d d' : note_counter frame n d = Ok d' → dr_staged d' = dr_staged d.
Proof. unfold note_counter. intros Hn. by repeat case_match; simplify_eq. Qed.

Lemma drain_envelope_wp session installing d envelope m :
  wp (drain_envelope session installing d envelope)
    (λ d' m', same_member m m' ∧ applied (mr_host_id m) (mr_expected_root m) (dr_staged d) (dr_staged d'))
    (same_member m) m.
Proof.
  unfold drain_envelope. cbv zeta. eapply (wp_same_bind _ _ (λ _, True)); [reflexivity| |].
  { eapply wp_mono; [apply check_header_same|by split|done]. }
  intros _ m1 Hm1 _. apply wp_bind, wp_lift; [intros frame _|done].
  apply wp_bind, wp_lift; [intros d1 Hd1|done]. rewrite <-(note_counter_staged _ _ _ _ Hd1).
  apply wp_bind, wp_get. eapply (wp_same_bind _ _ (λ _, True)); [exact Hm1| |].
  { destruct (find_receipt envelope _); [by apply wp_ret|].
    eapply wp_mono; [apply on_member_keys_same|by split|done]. }
  intros opened m2 Hm2 _. apply wp_bind. unfold wp at 1, member_update.
  set (m3 := match find_receipt _ _ with Some _ => _ | None => _ end).
  assert (Hm3 : same_member m m3).
  { etransitivity; [exact Hm2|]. unfold m3. by destruct (find_receipt envelope (mr_receipts m2)). }
  rewrite (sm_host _ _ Hm1).
  eapply wp_mono; [apply on_member_keys_wp; intros k; apply (drain_opened_applied _ (mr_expected_root m))
                  |cbn beta|cbn beta; intros; by etransitivity].
  intros d2 m4 [Hm4 Hadv]. split; [by etransitivity|done].
Qed.

Lemma drain_body_wp host_id root acc body m :
  wp (drain_body acc body)
    (λ acc' m', same_member m m' ∧ applied host_id root acc.1 acc'.1) (same_member m) m.
Proof.
  destruct acc as [s written], body as [[file_id index] plaintext]. cbn [drain_body].
  repeat (apply wp_if; intros _; [apply wp_ret; split; [reflexivity|cbn; reflexivity]|]).
  apply wp_bind. eapply wp_mono; [apply on_member_world_same|cbn beta|done].
  intros [put chunks] m1 Hm1. apply wp_ret. split; [done|apply applied_chunks].
Qed.

(** A fold whose steps advance the replica advances it. *)
Lemma wp_fold_applied {B X} host_id root (f : B → X → SM MemberReplica B) (st : B → StagedReplica) l b m :
  (∀ b x m1, same_member m m1 →
     wp (f b x) (λ b' m', same_member m1 m' ∧ applied host_id root (st b) (st b')) (same_member m1) m1) →
  wp (sm_fold f l b) (λ b' m', same_member m m' ∧ applied host_id root (st b) (st b')) (same_member m) m.
Proof.
  intros Hf.
  apply (wp_fold f (λ b' m', same_member m m' ∧ applied host_id root (st b) (st b')) (same_member m)).
  { split; reflexivity. }
  intros b1 x m1 _ [Hm1 Hb1]. eapply wp_mono; [by apply Hf|cbn beta|cbn beta; intros; by etransitivity].
  intros b2 m2 [Hm2 Hb2]. split; by etransitivity.
Qed.

(** A complete bootstrap raises the covered number; nothing else changes. *)
Lemma advance_through host_id root s through :
  u64_N (sr_bootstrap_through s) <= u64_N through →
  advance host_id root s (set_sr_bootstrap_through through s).
Proof. intros Ht Hs. split; [by revert Hs; apply staged_ok_same|by split]. Qed.

Lemma end_drain_wp installing d m :
  (∀ n, installing = Some n → u64_N (sr_bootstrap_through (dr_staged d)) <= u64_N n) →
  wp (end_drain installing d)
    (λ r m', same_member m m' ∧ advance (mr_host_id m) (mr_expected_root m) (dr_staged d) r.1)
    (same_member m) m.
Proof.
  intros Hin. unfold end_drain. apply wp_bind.
  eapply wp_mono; [apply (wp_fold_applied (mr_host_id m) (mr_expected_root m) drain_body fst);
                   intros; apply drain_body_wp|cbn beta|done].
  intros [s written] m1 (Hm1 & Ha & Ht). cbn [fst] in Ha, Ht. apply wp_bind.
  destruct installing as [through|]; [|apply wp_ret, wp_ret; by split].
  apply wp_if; [intros _|by intros _; apply wp_err]. apply wp_ret, wp_ret. split; [done|]. cbn [fst].
  etransitivity; [exact Ha|]. apply advance_through. rewrite Ht. by apply Hin.
Qed.

Lemma prepare_mailbox_wp envelopes history through session m :
  wp (prepare_mailbox_for_session envelopes history through session)
    (λ prepared m', same_member m m'
       ∧ (member_ok m → staged_ok (mr_host_id m) (mr_expected_root m) (prf_staged prepared)
                        ∧ grown (mr_replica m) (prf_staged prepared)))
    (same_member m) m.
Proof.
  apply wp_bind, wp_get, wp_if; [intros _|intros _; by apply wp_err].
  apply wp_bind. unfold wp at 1, member_update. set (m1 := set_mr_receipts _ m).
  assert (Hm1 : same_member m m1) by done. clearbody m1.
  apply wp_bind, wp_bind, wp_get, wp_ret. rewrite (sm_replica _ _ Hm1).
  apply wp_bind, wp_lift; [intros [installing s1] Hs1|done].
  apply wp_bind, wp_lift; [intros s2 Hs2|done].
  set (d0 := mkDrain _ _ _ _ _ _). pose proof (sm_host _ _ Hm1) as Hh. pose proof (sm_root _ _ Hm1) as Hr.
  eapply (wp_same_bind _ _ (λ d, applied (mr_host_id m) (mr_expected_root m) s2 (dr_staged d)));
    [exact Hm1| |].
  { apply (wp_fold_applied _ _ _ dr_staged). intros d x m2 Hm2.
    pose proof (drain_envelope_wp session installing d x m2) as Hw.
    by rewrite (sm_host _ _ Hm2), (sm_root _ _ Hm2), Hh, Hr in Hw. }
  intros d m2 Hm2 [Hd Hdt]. pose proof (sm_host _ _ Hm2) as Hh2. pose proof (sm_root _ _ Hm2) as Hr2.
  destruct (begin_bootstrap_through _ _ _ _ _ _ Hs1) as [Ht Hn].
  destruct (add_history_applied (mr_host_id m) (mr_expected_root m) _ _ _ Hs2) as [Hadv2 Ht2].
  apply wp_bind. eapply wp_mono; [apply end_drain_wp|cbn beta|cbn beta; intros; by etransitivity].
  { intros n Hi. rewrite Hdt, Ht2, Ht. by apply Hn. }
  intros [staged report] m3 [Hm3 Ha]. rewrite Hh2, Hr2 in Ha. cbn [fst] in Ha. apply wp_bind.
  eapply wp_mono; [apply on_member_keys_same|cbn beta|cbn beta; intros; by do 2 (etransitivity; [done|])].
  intros local m4 Hm4. apply wp_ret. split; [by do 2 (etransitivity; [done|])|]. intros Hm. cbn.
  destruct (begin_bootstrap_ok m through installing s1) as [Hs1ok Hg1]; [done| |].
  { rewrite <-Hs1. f_equal; by rewrite ?Hr, ?(sm_last _ _ Hm1). }
  destruct (Hadv2 Hs1ok) as [Hs2ok Hg2], (Hd Hs2ok) as [Hdok Hgd], (Ha Hdok) as [Hok Hgs].
  split; [done|]. by do 3 (etransitivity; [done|]).
Qed.

Lemma commit_prepared_hop prepared m m1 :
  same_member m m1 →
  (member_ok m → staged_ok (mr_host_id m) (mr_expected_root m) (prf_staged prepared)
                 ∧ grown (mr_replica m) (prf_staged prepared)) →
  wp (commit_prepared prepared) (λ _, member_hop m) (member_hop m) m1.
Proof.
  intros Hs Hp. apply wp_bind, wp_get. apply wp_hop_query; [done|]. intros local m2 Hm2.
  apply wp_hop_check; [done|intros _]. apply apply_staged_same; [done|done|].
  intros m3 Hm3. by apply wp_ret.
Qed.

(** A drain: the mail is prepared, published and forgotten, with nothing in between. *)
Definition drain (envelopes : list MailboxEnvelope) (history : list IdentityDocument)
    (through : option u64) (session : PairSession) : SM MemberReplica FlushReport :=
  do! prepared := prepare_mailbox_for_session envelopes history through session in
  do! report := commit_prepared prepared in
  do! _ := finish_receipts in
  sm_ret report.

Lemma drain_hop envelopes history through session m :
  wp (drain envelopes history through session) (λ _, member_hop m) (member_hop m) m.
Proof.
  eapply wp_hop_bind; [reflexivity|apply prepare_mailbox_wp|]. intros prepared m1 Hm1 Hp.
  apply wp_bind. eapply wp_mono; [by apply (commit_prepared_hop _ m)|cbn beta|done].
  intros report m2 Hm2. unfold wp, sm_bind, finish_receipts, member_update. cbn.
  etransitivity; [exact Hm2|]. by apply same_member_hop.
Qed.

Lemma evict_file_hop file_id m : wp (evict_file file_id) (λ _, member_hop m) (member_hop m) m.
Proof.
  unfold evict_file. apply wp_hop_query; [reflexivity|]. intros local m1 Hm1. apply wp_bind, wp_get.
  cbv zeta. apply wp_hop_check; [done|intros _].
  apply wp_hop_query; [done|]. intros session m2 Hm2. apply wp_hop_query; [done|]. intros _ m3 Hm3.
  apply wp_hop_lift; [done|]. intros metadata _. apply wp_hop_check; [done|intros _].
  apply wp_hop_lift; [done|]. intros metadata' _.
  eapply (wp_hop_bind _ _ (λ _, True)); [done| |].
  { eapply wp_mono; [apply on_member_world_same|by split|done]. }
  intros chunks m4 Hm4 _. unfold wp, sm_bind, member_update. cbn.
  etransitivity; [apply same_member_hop, Hm4|]. intros [Hs Hh Hw Hl].
  set (m5 := set_mr_replica _ m4). split.
  - split; [by revert Hs; apply staged_ok_same|done|done|done].
  - by split; [done|done|by split|].
Qed.
End methods.
