(* ===== verification/MemberClaims.v ===== *)
(** * Members follow their host

    [member_invariant], [member_history]: what holds of a replica after any calls, and what it
    never goes back on.  [member_follows]: instructions the host commits have the same effect on a
    member.  [bootstrap_rebuilds], [bootstrap_installs]: the history made up for a new member leads
    it from nothing to the host's vault. *)
From S2P Require Import KeyStoreClaims PullClaims.
From S2P Require Export HostClaims MemberMachine.
From Stdlib Require Import Lia ZifyN ZifyNat.

Open Scope N_scope.

(** ** The life of a member *)

Inductive MemberCommand :=
  | MWorld (w : World)
  | MChunks (chunks : MemoryChunkStore)
  | MAddMembers (members : gset PeerId)
  | MLearnHistory (documents : list IdentityDocument)
  | MReconcile (members denied : gset PeerId)
  | MControl (packet : ControlPacket)
  | MAuthenticated (record : ControlRecord)
  | MPrepare (envelopes : list MailboxEnvelope) (history : list IdentityDocument)
      (through : option u64) (session : PairSession)
  | MDrain (envelopes : list MailboxEnvelope) (history : list IdentityDocument)
      (through : option u64) (session : PairSession)
  | MFinish
  | MEvict (file_id : FileId).

Section life.
Context `{Sha256, MlDsa65, XWing, AesGcm, HkdfSha256, Oracle}.

Definition ignored {A} (m : SM MemberReplica A) : SM MemberReplica unit := do! _ := m in sm_ret tt.

(** One call; [MWorld] is whatever else uses the key store and the disk in between, [MChunks] a
    user of the shared chunk store. *)
Definition run_member (c : MemberCommand) : SM MemberReplica unit :=
  match c with
  | MWorld w => member_update (set_mr_world w)
  | MChunks chunks => member_update (λ m, set_mr_replica (set_sr_chunks chunks (mr_replica m)) m)
  | MAddMembers members => add_members members
  | MLearnHistory documents => learn_history documents
  | MReconcile members denied => reconcile_members members denied
  | MControl packet => apply_control packet
  | MAuthenticated record => apply_authenticated_control record
  | MPrepare envelopes history through session =>
      ignored (prepare_mailbox_for_session envelopes history through session)
  | MDrain envelopes history through session => ignored (drain envelopes history through session)
  | MFinish => finish_receipts
  | MEvict file_id => ignored (evict_file file_id)
  end.

(** A replica after any calls, successful or not. *)
Inductive member_reaches (m : MemberReplica) : MemberReplica → Prop :=
  | member_now : member_reaches m m
  | member_then m1 c : member_reaches m m1 → member_reaches m (run_member c m1).2.

Lemma ignored_hop {A} (f : SM MemberReplica A) m :
  wp f (λ _, member_hop m) (member_hop m) m → member_hop m (ignored f m).2.
Proof. unfold wp, ignored, sm_bind. by destruct (f m) as [[]]. Qed.

Lemma chunks_hop chunks m : member_hop m (set_mr_replica (set_sr_chunks chunks (mr_replica m)) m).
Proof.
  intros [Hs Hh Hw Hl]. split.
  - split; [by revert Hs; apply staged_ok_same|done|done|done].
  - by split; [done|done|by split|].
Qed.

Lemma run_member_hop c m : member_hop m (run_member c m).2.
Proof.
  destruct c; cbn [run_member].
  - by apply same_member_hop.
  - apply chunks_hop.
  - apply (wp_state _ (member_hop m)), add_members_hop.
  - apply (wp_state _ (member_hop m)), learn_history_hop.
  - apply (wp_state _ (member_hop m)), reconcile_members_hop.
  - apply (wp_state _ (member_hop m)), apply_control_hop.
  - apply (wp_state _ (member_hop m)), apply_authenticated_control_hop.
  - apply ignored_hop. eapply wp_mono; [apply prepare_mailbox_wp|cbn beta|cbn beta].
    + intros _ m' [Hm _]. by apply same_member_hop.
    + intros m'. apply same_member_hop.
  - apply ignored_hop, drain_hop.
  - by apply same_member_hop.
  - apply ignored_hop, evict_file_hop.
Qed.

Lemma member_reaches_hop m m' : member_reaches m m' → member_hop m m'.
Proof. induction 1 as [|m1 c _ IH]; [reflexivity|]. etransitivity; [exact IH|]. apply run_member_hop. Qed.

Lemma new_member_ok w host_id members chunks root m :
  new_member w host_id members chunks root = (Ok tt, m) →
  member_ok m ∧ mr_host_id m = host_id ∧ mr_expected_root m = root.
Proof.
  unfold new_member, MemberReplica_new. case_bool_decide as Hh; [|done]. cbn [negb].
  destruct (ks_peer (w_keys w)).1 as [local|e]; [|done]. cbn [res_bind].
  case_bool_decide; [|done]. cbn [negb]. set (m0 := mkMemberReplica _ _ _ _ _ _ _).
  set (m1 := set_mr_expected_root root (set_mr_replica (set_sr_tree (DirectoryTree_new root) (mr_replica m0)) m0)).
  intros Hv. cut (wp (enter_vault root) (λ _ m', ∃ w' chunks', m' = set_mr_world w'
    (set_mr_replica (set_sr_chunks chunks' (mr_replica m1)) m1)) (λ _, True) m0).
  { intros Hw. apply (wp_Ok _ _ _ _ _ _ Hw) in Hv as (w' & chunks' & ->).
    split_and!; [|done|done]. split; cbn; [|done| |].
    - split; cbn; try done; [constructor|by intros r ?%elem_of_nil].
    - split; cbn; [intros f t Hf; by apply lookup_empty_Some in Hf|by intros r writer ?%elem_of_nil].
    - by vm_compute. }
  unfold enter_vault. apply wp_bind. unfold wp at 1, member_update at 1. fold m1.
  apply wp_bind, wp_get, wp_bind, wp_zoom. eapply wp_mono; [apply wp_any|cbn beta|done].
  intros metadata w' _. unfold wp, member_update. by eexists w', _.
Qed.

(** C20: what holds of a member.  After any calls on a new replica, with any clock, any randomness
    and any write failing: the host is a member and nobody denied is; the log's numbers rise and
    the table of instructions is the log; the directory tree is in order and no file is a
    directory; and the vault it shows is exactly what replaying its log from an empty vault
    gives.  The last number applied is the last of the log or of the bootstrap. *)
Theorem member_invariant w host_id members chunks root m m' :
  new_member w host_id members chunks root = (Ok tt, m) → member_reaches m m' →
  member_ok m' ∧ mr_host_id m' = host_id ∧ vault_ok root (member_view (mr_replica m')).
Proof.
  intros (Hm & Hh & Hr)%new_member_ok Hm'.
  destruct (member_reaches_hop _ _ Hm' Hm) as [Hok [Hh' Hr' _ _]]. split_and!; [done|congruence|].
  rewrite <-Hr, <-Hr'. eapply vault_steps_ok; [apply empty_view_ok|]. apply (so_replay _ _ _ (mo_staged _ Hok)).
Qed.

(** What a member never goes back on.  Whatever is called, the log is only added to and what is
    added takes the vault from the old to the new; nobody denied is forgiven and nobody met
    forgotten; the last number applied and the one covered by a bootstrap never fall. *)
Theorem member_history m m' :
  member_ok m → member_reaches m m' →
  (∃ added, sr_log (mr_replica m') = sr_log (mr_replica m) ++ added
     ∧ vault_steps (member_view (mr_replica m)) (cr_update <$> added) = Ok (member_view (mr_replica m')))
  ∧ sr_denied (mr_replica m) ⊆ sr_denied (mr_replica m')
  ∧ (∀ p, p ∈ sr_denied (mr_replica m) → p ∉ sr_members (mr_replica m'))
  ∧ sr_historical_members (mr_replica m) ⊆ sr_historical_members (mr_replica m')
  ∧ u64_N (mr_last_applied m) <= u64_N (mr_last_applied m')
  ∧ u64_N (sr_bootstrap_through (mr_replica m)) <= u64_N (sr_bootstrap_through (mr_replica m')).
Proof.
  intros Hm Hr. destruct (member_reaches_hop _ _ Hr Hm) as [Hm' [_ Hroot [[added Hlog] Hd Hh Ht] Hl]].
  split_and!; try done.
  - exists added. split; [done|].
    pose proof (so_replay _ _ _ (mo_staged _ Hm')) as Hrep.
    rewrite Hlog, Hroot, fmap_app, vault_steps_app, (so_replay _ _ _ (mo_staged _ Hm)) in Hrep. exact Hrep.
  - intros p Hp Hin. apply (so_denied _ _ _ (mo_staged _ Hm') p); [done|]. by apply Hd.
Qed.
End life.

(** ** In step with the host *)

Section follow.
Context `{Sha256, MlDsa65, XWing, AesGcm, HkdfSha256}.

Lemma committed_step update trusted s s' :
  carries update trusted → committed update trusted s s' →
  vault_step (host_view s) update = Ok (host_view s').
Proof.
  intros Hc [Hk (removed_file & Ht & Hm) _ _ _ _ _]. unfold vault_step, host_view. cbn [fst snd].
  rewrite Hk. cbn [res_bind]. rewrite Ht. cbn [res_bind]. rewrite Hm. do 2 f_equal.
  unfold manifests_step, manifests_after. destruct update as [m| | | | | | |]; try done.
  destruct Hc as (t & -> & <-). by destruct t.
Qed.

(** A run of the host, by the instructions it commits. *)
Inductive commits_run : HostState → list ControlRecord → HostState → Prop :=
  | run_none s : commits_run s [] s
  | run_other s s1 records s' :
      host_view s1 = host_view s → st_next_control s1 = st_next_control s →
      commits_run s1 records s' → commits_run s records s'
  | run_commit s update trusted s1 records s' :
      carries update trusted → committed update trusted s s1 → commits_run s1 records s' →
      commits_run s (mkControlRecord (st_next_control s) update :: records) s'.

(** The member shows what the host shows, and has applied nothing the host has not yet given. *)
Record in_step (staged : StagedReplica) (s : HostState) : Prop := {
  is_view : member_view staged = host_view s;
  is_controls : sr_controls staged = controls_of (sr_log staged);
  is_through : u64_N (sr_bootstrap_through staged) < u64_N (st_next_control s);
  is_log r : r ∈ sr_log staged → u64_N (cr_id r) < u64_N (st_next_control s);
}.

Lemma in_step_new staged s update :
  in_step staged s → let record := mkControlRecord (st_next_control s) update in
  u64_N (sr_bootstrap_through staged) < u64_N (cr_id record)
  ∧ sr_controls staged !! cr_id record = None
  ∧ ∀ last, last_control (sr_controls staged) = Some last → u64_N last < u64_N (cr_id record).
Proof.
  intros [Hv Hc Ht Hl] record. split_and!; [done| |rewrite Hc; by apply last_control_later].
  rewrite Hc. destruct (controls_of (sr_log staged) !! cr_id record) as [r|] eqn:Hr; [|done].
  apply controls_of_lookup in Hr as [Hin Hid]. apply Hl in Hin. rewrite Hid in Hin. cbn in Hin. lia.
Qed.

Lemma in_step_staged k host_id update trusted staged staged' s s' :
  in_step staged s → carries update trusted → committed update trusted s s' →
  staged_step k host_id false (mkControlRecord (st_next_control s) update) staged staged' →
  in_step staged' s' ∧ sr_log staged' = sr_log staged ++ [mkControlRecord (st_next_control s) update].
Proof.
  intros [Hv Hc Ht Hl] Hcar Hcom Hss. pose proof (cm_next _ _ _ _ Hcom) as Hn.
  pose proof (committed_step _ _ _ _ Hcar Hcom) as Hstep. rewrite <-Hv in Hstep.
  pose proof (ss_view _ _ _ _ _ _ Hss) as Hv'. cbn [cr_update] in Hv'. rewrite Hstep in Hv'.
  split; [|apply (ss_log _ _ _ _ _ _ Hss)]. split.
  - congruence.
  - by rewrite (ss_controls _ _ _ _ _ _ Hss), (ss_log _ _ _ _ _ _ Hss), controls_of_snoc, Hc.
  - rewrite (ss_through _ _ _ _ _ _ Hss). lia.
  - intros r. rewrite (ss_log _ _ _ _ _ _ Hss). intros [Hr%Hl| ->%list_elem_of_singleton]%elem_of_app; cbn; lia.
Qed.

(** The instructions a member gets, one after the other. *)
Definition stage_all (host_id : PeerId) (records : list ControlRecord) (staged : StagedReplica)
    : SM StoreInner StagedReplica :=
  sm_fold (λ staged record, do! (_, staged) := stage_control host_id staged record in sm_ret staged)
    records staged.

(** C21: members refine their host.  A member in step with the host that gets the instructions the
    host commits, in order, ends in step with the host: same directory tree, same manifests, the
    instructions added to its log, its key store untouched.  It can fail at one instruction only
    if that is a manifest whose writer it does not accept or cannot check, or a kick of the host
    or of somebody it does not have for a member. *)
Theorem member_follows host_id s records s' staged k :
  commits_run s records s' → in_step staged s →
  match stage_all host_id records staged k with
  | (Ok staged', k') => in_step staged' s' ∧ sr_log staged' = sr_log staged ++ records ∧ k' = k
  | (Err _, _) => ∃ before record after staged1,
      records = before ++ record :: after
      ∧ stage_all host_id before staged k = (Ok staged1, k)
      ∧ ¬ acceptable host_id false (cr_update record) staged1
  end.
Proof.
  intros Hrun. revert staged k. induction Hrun as [s|s s1 records s' Hv Hn _ IH|s update trusted s1 records s' Hc Hcom _ IH];
    intros staged k Hst.
  - cbn. by rewrite app_nil_r.
  - apply IH. destruct Hst as [h1 h2 h3 h4]. split; rewrite ?Hv, ?Hn; done.
  - set (record := mkControlRecord _ _).
    destruct (stage_control host_id staged record k) as [[[new staged1]|e] k1] eqn:Hs.
    + pose proof (wp_Ok _ _ _ _ _ _ (stage_control_mode_wp host_id false staged record k) Hs) as [-> Hstep].
      cbn [fst snd] in Hstep.
      destruct (in_step_new _ _ update Hst) as (Ha & Hnone & _).
      rewrite (stage_control_mode_new _ _ _ _ _ _ _ _ Ha Hnone Hs) in Hstep.
      destruct (in_step_staged _ _ _ _ _ _ _ _ Hst Hc Hcom Hstep) as [Hst1 Hlog].
specialize (IH staged1 k Hst1). unfold stage_all in *. cbn [sm_fold].
      unfold sm_bind at 1, sm_bind at 1. rewrite Hs. cbn [sm_ret].
      destruct (sm_fold _ records staged1 k) as [[staged'|e] k'].
      * destruct IH as (h1 & h2 & ->). split_and!; [done| |done]. by rewrite h2, Hlog, <-app_assoc.
      * destruct IH as (before & r & after & staged2 & -> & Hb & Hn). exists (record :: before), r, after, staged2.
        split_and!; [done| |done]. cbn [sm_fold]. unfold sm_bind at 1, sm_bind at 1. by rewrite Hs.
    + unfold stage_all at 1. cbn [sm_fold]. unfold sm_bind at 1, sm_bind at 1. rewrite Hs.
      exists [], record, records, staged. split_and!; [done|done|]. intros Hacc.
      destruct (in_step_new _ _ update Hst) as (Ha & Hnone & Hlast).
      destruct (stage_control_mode_total host_id false staged record (host_view s1) k) as (s2 & Hs2 & _);
        [done|done|done| |done|].
      * rewrite (is_view _ _ Hst). by eapply committed_step.
      * unfold stage_control in Hs. by rewrite Hs in Hs2.
Qed.
End follow.

(** ** Bootstrap *)

Section bootstrap.
Context `{Sha256, MlDsa65, XWing, AesGcm, HkdfSha256}.

(** C23: the history made up for a new member is equivalent to the history that was.  A host in order
    can always make it up for all it has given; its numbers rise from at least 1 to exactly the
    last number given; and replaying it from an empty vault gives the host's tree and manifests,
    whatever the history that led to them. *)
Theorem bootstrap_rebuilds s through :
  host_ok s → u64_N through + 1 = u64_N (st_next_control s) →
  ∃ records, bootstrap_records s through = Ok records
    ∧ in_order records
    ∧ (∀ r, r ∈ records → 1 <= u64_N (cr_id r) <= u64_N through)
    ∧ (u64_N through ≠ 0 → ∃ r, last records = Some r ∧ cr_id r = through)
    ∧ vault_steps (empty_view (st_expected_root s)) (cr_update <$> records) = Ok (host_view s).
Proof.
  intros Hs Ht. destruct (bootstrap_records_total s through Hs Ht) as [records Hr]. exists records.
  destruct (bootstrap_updates_replay s through Hs) as (updates & Hu & Hsteps & _).
  pose proof (bootstrap_records_Ok _ _ _ Hr) as (Hu' & _). rewrite Hu in Hu'. injection Hu' as ->.
  split_and!; [done|by eapply bootstrap_records_in_order| | |done].
  - intros r. by apply (bootstrap_records_le s).
  - by apply (bootstrap_records_last s).
Qed.

(** A drain that has applied part of a bootstrap. *)
Lemma install_records host_id root through records d v k :
  staged_ok host_id root (dr_staged d) →
  (∀ r, r ∈ records → u64_N (sr_bootstrap_through (dr_staged d)) < u64_N (cr_id r) <= u64_N through) →
  (∀ r r', r ∈ sr_log (dr_staged d) → r' ∈ records → record_lt r r') →
  in_order records →
  vault_steps (member_view (dr_staged d)) (cr_update <$> records) = Ok v →
  (∀ r staged, r ∈ records → sr_identity_documents staged = sr_identity_documents (dr_staged d) →
     acceptable host_id true (cr_update r) staged) →
  ∃ d', sm_fold (drain_opened host_id (Some through)) (OControl <$> records) d k = (Ok d', k)
    ∧ staged_ok host_id root (dr_staged d') ∧ member_view (dr_staged d') = v
    ∧ sr_log (dr_staged d') = sr_log (dr_staged d) ++ records
    ∧ dr_controls d' = dr_controls d + lenN records
    ∧ dr_saw_bootstrap_end d'
      = dr_saw_bootstrap_end d || existsb (λ r, bool_decide (cr_id r = through)) records.
Proof.
  revert d. induction records as [|r records IH]; intros d Hok Hid Hlog Hord Hsteps Hacc.
  { exists d. cbn in *. rewrite app_nil_r, orb_false_r. injection Hsteps as <-.
    split_and!; try done. unfold lenN. cbn. lia. }
  cbn [fmap list_fmap vault_steps] in Hsteps.
  destruct (vault_step (member_view (dr_staged d)) (cr_update r)) as [v1|] eqn:Hv1; [|done].
  cbn [res_bind] in Hsteps. apply StronglySorted_inv in Hord as [Hord Hr].
  rewrite Forall_forall in Hr. destruct (Hid r (list_elem_of_here _ _)) as [Hafter Hle].
  assert (Hnum : ∀ r', r' ∈ sr_log (dr_staged d) → u64_N (cr_id r') < u64_N (cr_id r)).
  { intros r' Hr'. apply (Hlog r' r Hr'). by left. }
  destruct (stage_control_mode_total host_id true (dr_staged d) r v1 k) as (s1 & Hs1 & Hss & Hview).
  { done. }
  { rewrite (so_controls _ _ _ Hok). destruct (controls_of (sr_log (dr_staged d)) !! cr_id r) as [r'|] eqn:Hr'; [|done].
    apply controls_of_lookup in Hr' as [Hin%Hnum Heq]. rewrite Heq in Hin. lia. }
  { rewrite (so_controls _ _ _ Hok). by apply last_control_later. }
  { done. }
  { apply Hacc; [by left|done]. }
  set (d1 := mkDrain s1 (dr_controls d + 1) (dr_last_packet d) (dr_last_chunk d) (dr_bodies d)
    (dr_saw_bootstrap_end d || bool_decide (cr_id r = through))).
  assert (Hd1 : drain_opened host_id (Some through) d (OControl r) k = (Ok d1, k)).
  { cbn [drain_opened]. rewrite (proj2 (N.leb_le _ _)) by done. unfold sm_bind. rewrite Hs1. unfold sm_ret, d1.
    do 3 f_equal. cbn [andb]. f_equal. apply bool_decide_ext. split; [by intros [= ->]|by intros ->]. }
  destruct (IH d1) as (d' & Hfold & Hok' & Hv' & Hlog' & Hc' & He').
  - by eapply staged_step_ok.
  - intros r' Hr'. cbn. rewrite (ss_through _ _ _ _ _ _ Hss). apply Hid. by right.
  - intros r1 r2. cbn. rewrite (ss_log _ _ _ _ _ _ Hss).
    intros [Hr1| ->%list_elem_of_singleton]%elem_of_app Hr2; [apply Hlog; [done|by right]|by apply Hr].
  - done.
  - cbn. by rewrite Hview.
  - intros r' s Hr' Hdoc. apply Hacc; [by right|]. cbn in Hdoc. by rewrite (ss_documents _ _ _ _ _ _ Hss) in Hdoc.
  - exists d'. cbn [fmap list_fmap sm_fold]. unfold sm_bind at 1. rewrite Hd1.
    split_and!; [exact Hfold|done|done| | |].
    + rewrite Hlog'. cbn. by rewrite (ss_log _ _ _ _ _ _ Hss), <-app_assoc.
    + rewrite Hc'. cbn. unfold lenN. cbn. lia.
    + rewrite He'. cbn. by rewrite orb_assoc.
Qed.

(** The documents a member has are those of every writer of the host's files, and check them. *)
Definition knows_writers (manifests : gmap FileId TrustedManifest)
    (documents : gmap PeerId IdentityDocument) : Prop :=
  ∀ f t, manifests !! f = Some t →
    ∃ document, documents !! mf_writer_id (manifest t) = Some document
                ∧ verify_accepted (manifest t) document = Ok t.

(** C22: a bootstrap brings a new member to the host's vault.  A member that has applied nothing is
    made ready for a bootstrap up to the host's last instruction; once it knows the writers, its
    drain accepts every record the host made up, sees the end of the bootstrap, and shows exactly
    the host's tree and manifests. *)
Theorem bootstrap_installs s m through records k :
  host_ok s → bootstrap_records s through = Ok records → u64_N through ≠ 0 →
  member_ok m → mr_last_applied m = u64_zero → mr_expected_root m = st_expected_root s →
  ∃ s1, begin_bootstrap (mr_expected_root m) (mr_last_applied m) (mr_replica m) (Some through)
        = Ok (Some through, s1)
    ∧ ∀ documents s2, add_history s1 documents = Ok s2 →
        knows_writers (st_manifests s) (sr_identity_documents s2) →
        ∃ d, sm_fold (drain_opened (mr_host_id m) (Some through)) (OControl <$> records)
               (mkDrain s2 0 None None [] (bool_decide (Some through = Some u64_zero))) k = (Ok d, k)
          ∧ dr_saw_bootstrap_end d = true ∧ dr_controls d = lenN records
          ∧ member_view (dr_staged d) = host_view s ∧ sr_log (dr_staged d) = records.
Proof.
  intros Hs Hr Hz Hm Hlast Hroot.
  assert (Hthr : u64_N (sr_bootstrap_through (mr_replica m)) = 0).
  { pose proof (mo_last _ Hm) as Hl. rewrite Hlast in Hl. apply (f_equal u64_N) in Hl.
    unfold staged_last in Hl. rewrite u64_max_N in Hl. change (u64_N u64_zero) with 0 in Hl. lia. }
  set (s1 := set_sr_log [] (set_sr_controls ∅ (set_sr_manifests ∅
    (set_sr_tree (DirectoryTree_new (mr_expected_root m)) (mr_replica m))))).
  assert (Hbegin : begin_bootstrap (mr_expected_root m) (mr_last_applied m) (mr_replica m) (Some through)
    = Ok (Some through, s1)).
  { unfold begin_bootstrap. rewrite bool_decide_eq_false_2 by (intros ->; lia).
    rewrite Hlast, Hthr. change (u64_N u64_zero) with 0.
    rewrite (proj2 (N.ltb_ge _ _)) by lia. done. }
  exists s1. split; [done|]. intros documents s2 Hs2 Hk.
  destruct (begin_bootstrap_ok _ _ _ _ Hm Hbegin) as [Hs1 _].
  destruct (add_history_applied (mr_host_id m) (mr_expected_root m) _ _ _ Hs2) as [Hadv Ht2].
  destruct (Hadv Hs1) as [Hs2ok _].
  apply add_history_Ok in Hs2 as (archive & historical & -> & _). set (s2 := set_sr_identity_documents _ _) in *.
  destruct (bootstrap_updates_replay s through Hs) as (updates & Hu & Hsteps & _).
  pose proof (bootstrap_records_Ok _ _ _ Hr) as (Hu' & _). rewrite Hu in Hu'. injection Hu' as ->.
  destruct (install_records (mr_host_id m) (mr_expected_root m) through records
    (mkDrain s2 0 None None [] (bool_decide (Some through = Some u64_zero))) (host_view s) k)
    as (d & Hfold & _ & Hv & Hlog & Hc & He).
  - done.
  - intros r Hin%(bootstrap_records_le _ _ _ _ Hr). cbn. rewrite Hthr. lia.
  - by intros r r' ?%elem_of_nil.
  - by eapply bootstrap_records_in_order.
  - rewrite <-Hsteps, <-Hroot. done.
  - intros r staged Hin Hdoc. apply (list_elem_of_fmap_2 cr_update) in Hin.
    destruct (bootstrap_updates_kinds s through _ _ Hu Hin) as [(f & t & Hf & ->)|[(p & n & c & dir & ->)| ->]];
      [|done|done].
    split; [done|]. destruct (Hk f t Hf) as (document & Hd & Hver). exists document. rewrite Hdoc.
    split; [exact Hd|]. rewrite Hver. by destruct t.
  - exists d. split_and!; [exact Hfold| |rewrite Hc; cbn; lia|done|done].
    rewrite He. destruct (bootstrap_records_last s through records Hr Hz) as (r & Hr' & Hid).
    apply orb_true_iff. right. apply existsb_exists. exists r. split; [|by apply bool_decide_eq_true_2].
    apply list_elem_of_In. apply last_Some in Hr' as [l ->]. apply elem_of_app. right. by left.
Qed.
End bootstrap.

(** ** Examples *)

Section sample.
#[local] Existing Instances sample_sha256 sample_mldsa sample_xwing sample_gcm sample_hkdf sample_oracle.

(** [sample_b] joins the vault of [sample_a]. *)
Definition sample_member_world : World :=
  mkWorld sample_received.2 (mkDisk None None None ∅)
    (mkDurableInner u64_zero (array_N 32 8) None false false) 0.
Definition sample_both : gset PeerId := {[ sample_a; sample_b ]}.
Definition sample_member : MemberReplica :=
  (new_member sample_member_world sample_a sample_both (from_records ∅) (array_N 32 8)).2.

Definition sample_update (name : Byte.byte) (id : N) : ControlUpdate :=
  Link (array_N 32 8) (default (Text [] I) (text_of_bytes [name])) (array_N 32 id) true.
Definition sample_applied : MemberReplica :=
  (run_member (MAuthenticated (mkControlRecord (u64! 1) (sample_update Byte.x61 50))) sample_member).2.

Lemma sample_joined_Ok :
  new_member sample_member_world sample_a sample_both (from_records ∅) (array_N 32 8)
  = (Ok tt, sample_member).
Proof.
  assert (Hok : is_ok (new_member sample_member_world sample_a sample_both (from_records ∅) (array_N 32 8)).1
    = true) by (vm_compute; reflexivity).
  unfold sample_member. by destruct (new_member _ _ _ _ _) as [[[]|e] m].
Qed.

Lemma sample_applied_reached : member_reaches sample_member sample_applied.
Proof. apply member_then, member_now. Qed.

Lemma member_invariant_witness :
  mr_host_id sample_applied = sample_a
  ∧ vault_ok (array_N 32 8) (member_view (mr_replica sample_applied))
  ∧ ids (sr_log (mr_replica sample_applied)) = [1].
Proof.
  pose proof (member_invariant sample_member_world sample_a sample_both (from_records ∅) (array_N 32 8)
    sample_member sample_applied sample_joined_Ok sample_applied_reached) as Hi.
  split; [exact (proj1 (proj2 Hi))|]. split; [exact (proj2 (proj2 Hi))|]. vm_compute. reflexivity.
Defined.

Lemma sample_member_ok : member_ok sample_member ∧ mr_expected_root sample_member = array_N 32 8.
Proof.
  pose proof (new_member_ok sample_member_world sample_a sample_both (from_records ∅) (array_N 32 8)
    sample_member sample_joined_Ok) as Hm.
  split; [exact (proj1 Hm)|exact (proj2 (proj2 Hm))].
Qed.

Lemma member_history_witness :
  ∃ added, sr_log (mr_replica sample_applied) = sr_log (mr_replica sample_member) ++ added
    ∧ length (sr_log (mr_replica sample_applied)) = 1%nat.
Proof.
  pose proof (proj1 (member_history sample_member sample_applied (proj1 sample_member_ok)
    sample_applied_reached)) as [added [Hl _]].
  exists added. split; [exact Hl|]. vm_compute. reflexivity.
Defined.

(** The host makes a directory. *)
Definition sample_committed : Result unit * HostService :=
  commit_verified_with_code (sample_update Byte.x61 50) None None sample_host.

Lemma sample_in_step : in_step (mr_replica sample_member) (hs_state sample_host).
Proof.
  pose proof (proj1 sample_member_ok) as Hm. pose proof (mo_staged _ Hm) as Hs.
  split; [|apply (so_controls _ _ _ Hs)| |].
  - refine (proj1 (bool_decide_eq_true (member_view (mr_replica sample_member) = host_view (hs_state sample_host))) _).
    vm_compute. reflexivity.
  - apply N.ltb_lt. vm_compute. reflexivity.
  - assert (sr_log (mr_replica sample_member) = []) as -> by (vm_compute; reflexivity).
    by intros r ?%elem_of_nil.
Qed.

Lemma member_follows_witness :
  match stage_all sample_a [mkControlRecord (u64! 1) (sample_update Byte.x61 50)]
          (mr_replica sample_member) sample_received.2 with
  | (Ok staged', _) => in_step staged' (hs_state sample_committed.2)
  | (Err _, _) => False
  end.
Proof.
  pose proof (commit_delivers (sample_update Byte.x61 50) None None sample_host I) as Hc.
  assert (Hn : st_next_control (hs_state sample_host) = u64! 1) by (vm_compute; reflexivity).
  assert (Hok : is_ok sample_committed.1 = true) by (vm_compute; reflexivity).
  assert (Hst : is_ok (stage_all sample_a [mkControlRecord (u64! 1) (sample_update Byte.x61 50)]
    (mr_replica sample_member) sample_received.2).1 = true) by (vm_compute; reflexivity).
  fold sample_committed in Hc. destruct sample_committed as [[[]|e] h']; [|discriminate Hok].
  assert (Hrun : commits_run (hs_state sample_host) [mkControlRecord (u64! 1) (sample_update Byte.x61 50)] (hs_state h')).
  { rewrite <-Hn. exact (run_commit (hs_state sample_host) (sample_update Byte.x61 50) None (hs_state h') []
      (hs_state h') I Hc (run_none _)). }
  pose proof (member_follows sample_a _ _ _ _ sample_received.2 Hrun sample_in_step) as Hf.
  destruct (stage_all _ _ _ _) as [[staged'|e] k']; [|discriminate Hst]. exact (proj1 Hf).
Defined.

Lemma sample_through : u64_N (u64! 2) + 1 = u64_N (st_next_control (hs_state sample_away)).
Proof. vm_compute. reflexivity. Qed.

Lemma bootstrap_rebuilds_witness :
  ∃ records, bootstrap_records (hs_state sample_away) (u64! 2) = Ok records ∧ ids records = [1; 2].
Proof.
  destruct (bootstrap_rebuilds (hs_state sample_away) (u64! 2) sample_away_ok sample_through)
    as (records & Hr & _).
  exists records. split; [exact Hr|].
  assert (Hi : match bootstrap_records (hs_state sample_away) (u64! 2) with
    | Ok records => ids records = [1; 2] | Err _ => False end) by (vm_compute; reflexivity).
  rewrite Hr in Hi. exact Hi.
Defined.

Lemma bootstrap_installs_witness :
  ∃ records d s1, bootstrap_records (hs_state sample_away) (u64! 2) = Ok records
    ∧ sm_fold (drain_opened sample_a (Some (u64! 2))) (OControl <$> records)
        (mkDrain s1 0 None None [] false) sample_received.2 = (Ok d, sample_received.2)
    ∧ member_view (dr_staged d) = host_view (hs_state sample_away).
Proof.
  destruct (bootstrap_records_total (hs_state sample_away) (u64! 2) sample_away_ok sample_through) as [records Hr].
  destruct (bootstrap_installs (hs_state sample_away) sample_member (u64! 2) records sample_received.2
    sample_away_ok Hr) as (s1 & _ & Hi).
  - discriminate.
  - exact (proj1 sample_member_ok).
  - vm_compute. reflexivity.
  - rewrite (proj2 sample_member_ok). vm_compute. reflexivity.
  - destruct (Hi [] s1 eq_refl) as (d & Hf & _ & _ & Hv & _).
    + assert (st_manifests (hs_state sample_away) = ∅) as ->.
      { refine (proj1 (bool_decide_eq_true (st_manifests (hs_state sample_away) = ∅)) _). vm_compute. reflexivity. }
      intros f t Hf. destruct (lookup_empty_Some f t Hf).
    + exists records, d, s1. split; [exact Hr|]. split; [|exact Hv].
      assert (mr_host_id sample_member = sample_a) as Hh by (vm_compute; reflexivity).
      rewrite Hh in Hf. exact Hf.
Defined.
End sample.
