(* ===== verification/Frame.v ===== *)
(** * Frames on a TCP stream ([net/frame.rs])

    A frame is a version byte, the length of its body and the body: a kind and a payload.  A
    reader is given what is left of the stream; [UnexpectedEof] is its end. *)
From S2P Require Export Bytes.
From Stdlib Require Import Lia ZifyN.

Open Scope N_scope.

Definition FRAME_VERSION : N := 1.
Definition MAX_FRAME_BODY_LEN : N := 1024 * 1024.
Definition MIN_FRAME_KIND : N := 1.
Definition MAX_FRAME_KIND : N := 14.
Definition IDENTITY_KIND : byte := Byte.x01.
Definition EPOCH_HINT_KIND : byte := Byte.x02.
Definition WRAP_KIND : byte := Byte.x03.
Definition WRAP_ACK_KIND : byte := Byte.x04.
Definition DIR_LOOKUP_KIND : byte := Byte.x05.
Definition DIR_AD_KIND : byte := Byte.x06.
Definition DIR_PUT_KIND : byte := Byte.x07.
Definition DIR_FORGET_KIND : byte := Byte.x08.
Definition JOIN_KIND : byte := Byte.x09.
Definition GCM_PACKET_KIND : byte := Byte.x0a.
Definition GCM_CHUNK_KIND : byte := Byte.x0b.
Definition FLUSH_CHALLENGE_KIND : byte := Byte.x0c.
Definition FLUSH_SIGNATURE_KIND : byte := Byte.x0d.
Definition HEARTBEAT_KIND : byte := Byte.x0e.

Record Frame := mkFrame {
  fr_kind : byte;
  fr_payload : bytes;
}.

#[export] Instance Frame_dec : EqDecision Frame.
Proof. solve_decision. Defined.

Definition validate_kind (kind : byte) : Result unit :=
  if (MIN_FRAME_KIND <=? byte_N kind) && (byte_N kind <=? MAX_FRAME_KIND) then Ok tt
  else Err (InvalidInput "unknown TCP frame type").

(** [payload.len().checked_add(1)] *)
Definition body_length (payload : bytes) : Result N :=
  let n := lenN payload + 1 in
  if n <? u64_limit then Ok n else Err (InvalidInput "TCP frame body length overflow").

Definition Frame_new (kind : byte) (payload : bytes) : Result Frame :=
  let? _ := validate_kind kind in
  let? body_len := body_length payload in
  if MAX_FRAME_BODY_LEN <? body_len then Err (InvalidInput "TCP frame body exceeds 1 MiB")
  else Ok (mkFrame kind payload).

(** [read_u8], [read_u32] and [read_exact]: a number of bytes, or the end of the stream. *)
Definition read_exact (n : N) (stream : bytes) : Result (bytes * bytes) :=
  if lenN stream <? n then Err (Io UnexpectedEof)
  else Ok (take (N.to_nat n) stream, drop (N.to_nat n) stream).

Definition read_frame (stream : bytes) : Result (Frame * bytes) :=
  let? (version, stream) := read_exact 1 stream in
  if negb (be_val version =? FRAME_VERSION) then Err (InvalidInput "unsupported TCP frame version")
  else
    let? (len, stream) := read_exact 4 stream in
    let body_len := be_val len in
    if body_len =? 0 then Err (InvalidInput "TCP frame body omits type")
    else if MAX_FRAME_BODY_LEN <? body_len then Err (InvalidInput "TCP frame body exceeds 1 MiB")
    else
      let? (body, stream) := read_exact body_len stream in
      match body with
      | [] => Err (Io UnexpectedEof)
      | kind :: payload =>
          let? _ := validate_kind kind in
          Ok (mkFrame kind payload, stream)
      end.

(** The bytes [write_frame] puts on the stream. *)
Definition write_frame (frame : Frame) : Result bytes :=
  let? _ := validate_kind (fr_kind frame) in
  let? body_len := body_length (fr_payload frame) in
  let? body_len := (if body_len <? u32_limit then Ok body_len
                    else Err (InvalidInput "TCP frame body exceeds u32 encoding limit")) in
  if MAX_FRAME_BODY_LEN <? body_len then Err (InvalidInput "TCP frame body exceeds 1 MiB")
  else Ok (be_bytes 1 FRAME_VERSION ++ be_bytes 4 body_len ++ fr_kind frame :: fr_payload frame).

(** ** Properties *)

Definition frame_ok (frame : Frame) : Prop :=
  1 <= byte_N (fr_kind frame) <= 14 ∧ lenN (fr_payload frame) < MAX_FRAME_BODY_LEN.

Lemma validate_kind_Ok kind : validate_kind kind = Ok tt ↔ 1 <= byte_N kind <= 14.
Proof.
  unfold validate_kind, MIN_FRAME_KIND, MAX_FRAME_KIND.
  destruct (N.leb_spec 1 (byte_N kind)), (N.leb_spec (byte_N kind) 14); cbn; split; try done; lia.
Qed.

Lemma Frame_new_Ok kind payload frame :
  Frame_new kind payload = Ok frame ↔ frame = mkFrame kind payload ∧ frame_ok frame.
Proof.
  unfold Frame_new, frame_ok, body_length. destruct (validate_kind kind) as [[]|e] eqn:Hk; cbn [res_bind].
  - apply validate_kind_Ok in Hk. unfold MAX_FRAME_BODY_LEN. pose proof (eq_refl : u64_limit = 18446744073709551616).
    destruct (N.ltb_spec (lenN payload + 1) u64_limit); cbn [res_bind].
    + destruct (N.ltb_spec (1024 * 1024) (lenN payload + 1)).
      * split; [done|]. intros [-> [_ Hl]]. cbn in Hl. lia.
      * split; [intros [= <-]; cbn; split; [done|]; split; [done|lia]|]. by intros [-> _].
    + split; [done|]. intros [-> [_ Hl]]. cbn in Hl. lia.
  - split; [done|]. intros [-> [Hb _]]. cbn in Hb. apply validate_kind_Ok in Hb. congruence.
Qed.

Lemma write_frame_Ok frame w :
  write_frame frame = Ok w ↔
  frame_ok frame
  ∧ w = be_bytes 1 FRAME_VERSION ++ be_bytes 4 (lenN (fr_payload frame) + 1) ++ fr_kind frame :: fr_payload frame.
Proof.
  unfold write_frame, frame_ok, body_length. destruct (validate_kind (fr_kind frame)) as [[]|e] eqn:Hk; cbn [res_bind].
  - apply validate_kind_Ok in Hk. unfold MAX_FRAME_BODY_LEN.
    pose proof (eq_refl : u64_limit = 18446744073709551616). pose proof (eq_refl : u32_limit = 4294967296).
    destruct (N.ltb_spec (lenN (fr_payload frame) + 1) u64_limit); cbn [res_bind].
    2: { split; [done|]. intros [[_ Hl] _]. lia. }
    destruct (N.ltb_spec (lenN (fr_payload frame) + 1) u32_limit); cbn [res_bind].
    2: { split; [done|]. intros [[_ Hl] _]. lia. }
    destruct (N.ltb_spec (1024 * 1024) (lenN (fr_payload frame) + 1)).
    + split; [done|]. intros [[_ Hl] _]. lia.
    + split; [intros [= <-]; split; [split; [done|lia]|done]|]. by intros [_ ->].
  - split; [done|]. intros [[Hb _] _]. apply validate_kind_Ok in Hb. congruence.
Qed.

Lemma read_exact_Ok n stream a rest :
  read_exact n stream = Ok (a, rest) ↔ stream = a ++ rest ∧ lenN a = n.
Proof.
  unfold read_exact, lenN. destruct (N.ltb_spec (N.of_nat (length stream)) n).
  - split; [done|]. intros [-> Ha]. rewrite length_app in *. lia.
  - split.
    + intros [= <- <-]. rewrite take_drop, length_take. split; [done|lia].
    + intros [-> Ha]. rewrite <-Ha, Nat2N.id, take_app_length, drop_app_length. done.
Qed.

Lemma read_exact_app n a rest : lenN a = n → read_exact n (a ++ rest) = Ok (a, rest).
Proof. intros Ha. by apply read_exact_Ok. Qed.

(** The reader and the writer agree exactly: a frame is read from what its writer puts on the
    stream, whatever follows, and from nothing else; and every frame the constructor accepts can
    be written. *)
Theorem frame_wire_exact stream frame rest :
  (read_frame stream = Ok (frame, rest) ↔ ∃ w, write_frame frame = Ok w ∧ stream = w ++ rest)
  ∧ (Frame_new (fr_kind frame) (fr_payload frame) = Ok frame ↔ ∃ w, write_frame frame = Ok w).
Proof.
  split.
  2: { rewrite Frame_new_Ok. split.
       - intros [_ Hok]. eexists. by apply write_frame_Ok.
       - intros [w [Hok _]%write_frame_Ok]. split; [by destruct frame|done]. }
  unfold read_frame. split.
  - destruct (read_exact 1 stream) as [[v s1]|] eqn:H1; [|done]. cbn [res_bind].
    destruct (N.eqb_spec (be_val v) FRAME_VERSION) as [Hv|]; [|done]. cbn [negb].
    destruct (read_exact 4 s1) as [[len s2]|] eqn:H2; [|done]. cbn [res_bind].
    destruct (N.eqb_spec (be_val len) 0); [done|].
    destruct (N.ltb_spec MAX_FRAME_BODY_LEN (be_val len)); [done|].
    destruct (read_exact (be_val len) s2) as [[body s3]|] eqn:H3; [|done]. cbn [res_bind].
    apply read_exact_Ok in H1 as [-> Hl1], H2 as [-> Hl2], H3 as [-> Hl3].
    destruct body as [|kind payload]; [done|]. destruct (validate_kind kind) as [[]|] eqn:Hk; [|done].
    cbn [res_bind]. intros [= <- <-]. rewrite lenN_cons in Hl3.
    eexists. rewrite write_frame_Ok. split; [split; [|reflexivity]|].
    + split; [by apply validate_kind_Ok|]. cbn. lia.
    + cbn [fr_kind fr_payload]. rewrite <-Hv, Hl3.
      replace 4%nat with (length len) by (unfold lenN in Hl2; lia).
      replace 1%nat with (length v) by (unfold lenN in Hl1; lia).
      by rewrite !be_bytes_be_val, <-!app_assoc.
  - intros (w & [[Hk Hlen] ->]%write_frame_Ok & ->). unfold MAX_FRAME_BODY_LEN in *.
    rewrite <-!app_assoc.
    rewrite read_exact_app by by rewrite lenN_be_bytes. cbn [res_bind].
    rewrite be_val_be_bytes by done. change (FRAME_VERSION =? FRAME_VERSION) with true. cbn [negb].
    rewrite read_exact_app by by rewrite lenN_be_bytes. cbn [res_bind].
    rewrite be_val_be_bytes by (change (256 ^ N.of_nat 4) with 4294967296; lia).
    rewrite (proj2 (N.eqb_neq _ _)) by lia. rewrite (proj2 (N.ltb_ge _ _)) by lia.
    rewrite read_exact_app by (rewrite lenN_cons; lia). cbn [res_bind].
    rewrite (proj2 (validate_kind_Ok _)) by done. cbn [res_bind]. by destruct frame.
Qed.
