(* ===== verification/Codes.v ===== *)
(** * Join codes and vault ids as text ([net/mod.rs], [net/short_code.rs])

    Base32 without padding, the codes built on it, and the six-character codes people type.
    [code_text_exact]: a text is read as a code exactly when it is how that code is written;
    [short_code_canonical]: every way of typing a short code gives the same join code. *)
From S2P Require Export Types Encoding.
From Stdlib Require Import Lia ZifyN ZifyNat.

Open Scope N_scope.

Definition BASE32 : bytes := bstr "ABCDEFGHIJKLMNOPQRSTUVWXYZ234567".

(** [BASE32\[digit\]] and [BASE32.iter().position(...)]. *)
Definition base32_digit (digit : N) : byte := nth (N.to_nat digit) BASE32 Byte.x00.
Definition base32_position (c : byte) : option N :=
  (λ p, N.of_nat p.1) <$> list_find (eq c) BASE32.

(** [(bits << n) | value] on a [u16]. *)
Definition u16_shift_in (bits n value : N) : N := N.lor (N.land (N.shiftl bits n) 65535) value.

(** [while available >= 5]: the digits, and what is left available; [available] passes are more
    than enough, each takes 5 away. *)
Fixpoint emit_digits (passes : nat) (bits available : N) : bytes * N :=
  match passes with
  | O => ([], available)
  | S passes =>
      if 5 <=? available then
        let available := available - 5 in
        let '(output, left_over) := emit_digits passes bits available in
        (base32_digit (N.land (N.shiftr bits available) 31) :: output, left_over)
      else ([], available)
  end.

Fixpoint encode_base32_loop (l : bytes) (bits available : N) : bytes :=
  match l with
  | [] =>
      if available =? 0 then []
      else [base32_digit (N.land (N.land (N.shiftl bits (5 - available)) 65535) 31)]
  | byte :: l =>
      let bits := u16_shift_in bits 8 (byte_N byte) in
      let '(output, available) := emit_digits (N.to_nat (available + 8)) bits (available + 8) in
      output ++ encode_base32_loop l bits available
  end.
Definition encode_base32 (l : bytes) : bytes := encode_base32_loop l 0 0.

Fixpoint decode_base32_loop (value : bytes) (bits available : N) : Result bytes :=
  match value with
  | [] =>
      if negb (available =? 0) && negb (N.land bits (N.shiftl 1 available - 1) =? 0)
      then Err (InvalidInput "non-canonical Base32 trailing bits")
      else Ok []
  | byte :: value =>
      let? digit := ok_or (base32_position byte) (InvalidInput "invalid Base32 character") in
      let bits := u16_shift_in bits 5 digit in
      let available := available + 5 in
      if 8 <=? available then
        let available := available - 8 in
        let? output := decode_base32_loop value bits available in
        Ok (byte_of_N (N.shiftr bits available) :: output)
      else decode_base32_loop value bits available
  end.
Definition decode_base32 (value : bytes) : Result bytes := decode_base32_loop value 0 0.

Definition is_base32 (c : byte) : bool := bool_decide (c ∈ BASE32).

Definition JoinCode_to_string (code : JoinCode) : bytes := encode_base32 (array_bytes code).
Definition JoinCode_from_str (value : bytes) : Result JoinCode :=
  if negb (lenN value =? 26) || negb (forallb is_base32 value)
  then Err (InvalidInput "join code must be 26 uppercase RFC 4648 Base32 characters")
  else
    let? decoded := decode_base32 value in
    ok_or (array_of_bytes 16 decoded) (InvalidInput "join code must encode exactly 16 bytes").

Definition VaultId_to_string (id : VaultId) : bytes := encode_base32 (array_bytes id).
Definition VaultId_from_str (value : bytes) : Result VaultId :=
  if negb (lenN value =? 52) || negb (forallb is_base32 value)
  then Err (InvalidInput "vault id must be 52 uppercase RFC 4648 Base32 characters")
  else
    let? decoded := decode_base32 value in
    ok_or (array_of_bytes 32 decoded) (InvalidInput "vault id must encode exactly 32 bytes").

(** ** Digits *)

Lemma base32_position_digit d : d < 32 → base32_position (base32_digit d) = Some d.
Proof.
  intros Hd. assert (Hall : forallb (λ d, bool_decide (base32_position (base32_digit d) = Some d))
    (N.of_nat <$> seq 0 32) = true) by (vm_compute; reflexivity).
  rewrite forallb_forall in Hall. apply (bool_decide_eq_true_1 _), Hall.
  apply (proj1 (list_elem_of_In _ _)), list_elem_of_fmap. exists (N.to_nat d).
  split; [lia|apply elem_of_seq; lia].
Qed.

Lemma base32_position_Some c d : base32_position c = Some d → d < 32 ∧ base32_digit d = c.
Proof.
  assert (Hall : match base32_position c with
    | Some d => (d <? 32) && bool_decide (base32_digit d = c) | None => true end = true)
    by (destruct c; vm_compute; reflexivity).
  intros Hc. rewrite Hc in Hall. apply andb_true_iff in Hall as [Hd Hb].
  split; [by apply N.ltb_lt|by apply bool_decide_eq_true in Hb].
Qed.

Lemma is_base32_position c : is_base32 c = true ↔ ∃ d, base32_position c = Some d.
Proof.
  assert (Hall : is_base32 c = match base32_position c with Some _ => true | None => false end)
    by (destruct c; vm_compute; reflexivity).
  rewrite Hall. destruct (base32_position c); naive_solver.
Qed.

Definition digit_value (c : byte) : N := default 0 (base32_position c).
Definition digits_value (l : bytes) : N := foldl (λ acc c, acc * 32 + digit_value c) 0 l.

Lemma digits_value_go l acc :
  foldl (λ acc c, acc * 32 + digit_value c) acc l = acc * 32 ^ lenN l + digits_value l.
Proof.
  unfold digits_value. revert acc. induction l as [|c l IH]; intros acc.
  - rewrite (@lenN_nil byte). cbn. lia.
  - cbn [foldl]. rewrite IH, (IH (0 * 32 + digit_value c)), lenN_cons, N.add_1_r, N.pow_succ_r'. lia.
Qed.

Lemma digits_value_cons c l : digits_value (c :: l) = digit_value c * 32 ^ lenN l + digits_value l.
Proof. unfold digits_value at 1. cbn [foldl]. rewrite digits_value_go. lia. Qed.

Lemma digits_value_app l l' : digits_value (l ++ l') = digits_value l * 32 ^ lenN l' + digits_value l'.
Proof. unfold digits_value at 1. rewrite foldl_app, digits_value_go. done. Qed.

Definition digits (l : bytes) : Prop := Forall (λ c, is_base32 c = true) l.

Lemma digit_value_bound c : digit_value c < 32.
Proof.
  unfold digit_value. destruct (base32_position c) as [d|] eqn:Hd; cbn; [|lia].
  by apply base32_position_Some in Hd as [? _].
Qed.

Lemma digits_value_bound l : digits_value l < 32 ^ lenN l.
Proof.
  induction l as [|c l IH]; [rewrite (@lenN_nil byte); done|].
  rewrite digits_value_cons, lenN_cons, N.add_1_r, N.pow_succ_r'. pose proof (digit_value_bound c). nia.
Qed.

Lemma digit_value_inj c c' :
  is_base32 c = true → is_base32 c' = true → digit_value c = digit_value c' → c = c'.
Proof.
  intros [d Hd]%is_base32_position [d' Hd']%is_base32_position. unfold digit_value. rewrite Hd, Hd'.
  cbn. intros ->. apply base32_position_Some in Hd as [_ <-], Hd' as [_ <-]. done.
Qed.

Lemma digits_value_inj l l' :
  digits l → digits l' → length l = length l' → digits_value l = digits_value l' → l = l'.
Proof.
  intros Hl. revert l'. induction Hl as [|c l Hc Hl IH]; intros [|c' l'] Hl'; try done.
  inversion Hl' as [|?? Hc' Hl'']; subst. intros [= Hlen]. rewrite !digits_value_cons. unfold lenN. rewrite Hlen.
  pose proof (digits_value_bound l) as H1. pose proof (digits_value_bound l') as H2.
  unfold lenN in H1, H2. rewrite Hlen in H1. intros Heq.
  assert (digit_value c = digit_value c') as Hcc by nia.
  f_equal; [by apply digit_value_inj|]. apply IH; [done|done|]. rewrite Hcc in Heq. lia.
Qed.

(** ** The bit buffers *)

Lemma land_ones_mod a n : N.land a (N.ones n) = a mod 2 ^ n.
Proof. apply N.land_ones. Qed.

(** A shifted number and what fits below it. *)
Lemma lor_low a n value : value < 2 ^ n → N.lor (N.shiftl a n) value = a * 2 ^ n + value.
Proof.
  intros Hv. rewrite <-N.shiftl_mul_pow2. symmetry. rewrite N.add_nocarry_lxor; [apply N.lxor_lor|].
  all: apply N.bits_inj; intros j; rewrite N.land_spec, N.bits_0;
    (destruct (N.lt_ge_cases j n);
      [rewrite N.shiftl_spec_low by done; done|];
     rewrite <-(N.mod_small value (2 ^ n)) by done;
     rewrite (N.mod_pow2_bits_high value n j) by done; by rewrite andb_false_r).
Qed.

(** The low bits of a buffer of [w] bits after a shift: [value] fits in what was made room for. *)
Lemma shift_in_mod w bits n value a :
  value < 2 ^ n → a + n <= w →
  N.lor (N.land (N.shiftl bits n) (N.ones w)) value mod 2 ^ (a + n) = (bits mod 2 ^ a) * 2 ^ n + value.
Proof.
  intros Hv Ha. apply N.bits_inj. intros i. rewrite <-lor_low by done. destruct (N.lt_ge_cases i (a + n)).
  - rewrite N.mod_pow2_bits_low by done. rewrite !N.lor_spec, N.land_spec, N.ones_spec_low by lia.
    rewrite andb_true_r. f_equal. destruct (N.lt_ge_cases i n).
    + by rewrite !N.shiftl_spec_low.
    + rewrite !N.shiftl_spec_high' by done. symmetry. apply N.mod_pow2_bits_low. lia.
  - rewrite N.mod_pow2_bits_high by done. rewrite N.lor_spec.
    rewrite N.shiftl_spec_high' by lia. rewrite N.mod_pow2_bits_high by lia.
    rewrite <-(N.mod_small value (2 ^ n)) by done. by rewrite N.mod_pow2_bits_high by lia.
Qed.

Lemma u16_shift_in_mod bits n value a :
  value < 2 ^ n → a + n <= 16 →
  u16_shift_in bits n value mod 2 ^ (a + n) = (bits mod 2 ^ a) * 2 ^ n + value.
Proof. apply (shift_in_mod 16). Qed.

(** Taking the digits out of the buffer. *)
Lemma shiftr_digit bits a k :
  (bits / 2 ^ a) mod 2 ^ k * 2 ^ a + bits mod 2 ^ a = bits mod 2 ^ (a + k).
Proof.
  rewrite N.pow_add_r, N.mul_comm. rewrite (N.Div0.mod_mul_r bits (2 ^ a) (2 ^ k)). lia.
Qed.

Lemma emit_digits_spec passes bits available :
  available <= N.of_nat passes →
  let '(output, left_over) := emit_digits passes bits available in
  digits output ∧ left_over < 5 ∧ available = 5 * lenN output + left_over
  ∧ digits_value output * 2 ^ left_over + bits mod 2 ^ left_over = bits mod 2 ^ available.
Proof.
  revert available. induction passes as [|passes IH]; intros available Ha; cbn [emit_digits].
  { assert (available = 0) as -> by lia. split_and!; [constructor|lia|done|]. cbn. lia. }
  destruct (N.leb_spec 5 available) as [H5|H5].
  - specialize (IH (available - 5) ltac:(lia)).
    destruct (emit_digits passes bits (available - 5)) as [output left_over].
    destruct IH as (Hd & Hl & Hlen & Hval).
    assert (Hdig : N.land (N.shiftr bits (available - 5)) 31 < 32).
    { change 31 with (N.ones 5). rewrite N.land_ones. apply N.mod_lt. done. }
    split_and!.
    + constructor; [|done]. apply is_base32_position. eexists. by apply base32_position_digit.
    + done.
    + rewrite lenN_cons. lia.
    + rewrite digits_value_cons. unfold digit_value. rewrite base32_position_digit by done. cbn [default from_option]; unfold id.
      assert (32 ^ lenN output * 2 ^ left_over = 2 ^ (available - 5)) as Hpow.
      { change 32 with (2 ^ 5). rewrite <-N.pow_mul_r, <-N.pow_add_r. f_equal. lia. }
      rewrite N.mul_add_distr_r, <-N.mul_assoc, Hpow, <-N.add_assoc, Hval.
      change 31 with (N.ones 5). rewrite N.land_ones, N.shiftr_div_pow2.
    rewrite shiftr_digit. f_equal. f_equal. lia.
  - split_and!; [by apply Forall_nil|done|change (lenN (@nil byte)) with 0; lia|].
    unfold digits_value. cbn [foldl]. lia.
Qed.

(** ** Encoding *)

Lemma encode_base32_loop_spec l bits available :
  available < 5 →
  digits (encode_base32_loop l bits available)
  ∧ ∃ pad, pad < 5 ∧ 5 * lenN (encode_base32_loop l bits available) = available + 8 * lenN l + pad
    ∧ digits_value (encode_base32_loop l bits available)
      = ((bits mod 2 ^ available) * 256 ^ lenN l + be_val l) * 2 ^ pad.
Proof.
  revert bits available. induction l as [|b l IH]; intros bits available Ha; cbn [encode_base32_loop].
  - destruct (N.eqb_spec available 0) as [->|Hz].
    { split; [constructor|]. exists 0. split_and!; [lia|done|]. cbn. rewrite N.mod_1_r. lia. }
    set (d := N.land _ 31). assert (Hd : d = (bits mod 2 ^ available) * 2 ^ (5 - available)).
    { unfold d. change 65535 with (N.ones 16). change 31 with (N.ones 5). rewrite <-N.land_assoc.
      change (N.land (N.ones 16) (N.ones 5)) with (N.ones 5). rewrite N.land_ones, N.shiftl_mul_pow2.
      replace (2 ^ 5) with (2 ^ available * 2 ^ (5 - available)) by (rewrite <-N.pow_add_r; f_equal; lia).
      by rewrite N.Div0.mul_mod_distr_r. }
    assert (Hd32 : d < 32) by (unfold d; change 31 with (N.ones 5); rewrite N.land_ones; by apply N.mod_lt).
    split; [constructor; [apply is_base32_position; eexists; by apply base32_position_digit|constructor]|].
    exists (5 - available). split_and!; [lia|change (lenN [base32_digit d]) with 1; change (lenN (@nil byte)) with 0; lia|].
    unfold digits_value. cbn [foldl]. unfold digit_value. rewrite base32_position_digit by done. cbn [default from_option]; unfold id.
    change (lenN (@nil byte)) with 0. change (be_val []) with 0. rewrite Hd. lia.
  - set (bits' := u16_shift_in bits 8 (byte_N b)).
    pose proof (emit_digits_spec (N.to_nat (available + 8)) bits' (available + 8) ltac:(lia)) as He.
    destruct (emit_digits _ bits' (available + 8)) as [output left_over].
    destruct He as (Hdo & Hlo & Hlen & Hval).
    destruct (IH bits' left_over Hlo) as (Hdr & pad & Hpad & Hlenr & Hvalr).
    split; [by apply Forall_app|]. exists pad. rewrite lenN_app, lenN_cons.
    split_and!; [done|lia|]. rewrite digits_value_app, Hvalr, be_val_cons.
    assert (Hb : bits' mod 2 ^ (available + 8) = (bits mod 2 ^ available) * 256 + byte_N b).
    { unfold bits'. rewrite u16_shift_in_mod; [done|apply byte_N_bound|lia]. }
    rewrite Hb in Hval.
    assert (Hpow : 32 ^ lenN (encode_base32_loop l bits' left_over) = 2 ^ left_over * 256 ^ lenN l * 2 ^ pad).
    { change 32 with (2 ^ 5). change 256 with (2 ^ 8). rewrite <-!N.pow_mul_r, <-!N.pow_add_r. f_equal. lia. }
    rewrite Hpow, N.add_1_r, N.pow_succ_r'.
    transitivity ((digits_value output * 2 ^ left_over + bits' mod 2 ^ left_over) * 256 ^ lenN l * 2 ^ pad
      + be_val l * 2 ^ pad); [lia|]. rewrite Hval. lia.
Qed.

(** ** Decoding *)

Lemma decode_base32_loop_invalid value bits available :
  ¬ digits value → ∃ e, decode_base32_loop value bits available = Err e.
Proof.
  revert bits available. induction value as [|c value IH]; intros bits available Hd.
  { destruct Hd. constructor. }
  cbn [decode_base32_loop]. destruct (base32_position c) as [d|] eqn:Hc; cbn [ok_or res_bind]; [|by eexists].
  assert (Hv : ¬ digits value).
  { intros Hv. apply Hd. constructor; [|done]. apply is_base32_position. by eexists. }
  destruct (8 <=? available + 5); [|by apply IH].
  destruct (IH (u16_shift_in bits 5 d) (available + 5 - 8) Hv) as [e ->]. by eexists.
Qed.

Lemma decode_base32_loop_spec value bits available :
  digits value → available < 8 →
  ∃ output low left_over, left_over < 8 ∧ low < 2 ^ left_over
    ∧ 5 * lenN value + available = 8 * lenN output + left_over
    ∧ (bits mod 2 ^ available) * 32 ^ lenN value + digits_value value = be_val output * 2 ^ left_over + low
    ∧ decode_base32_loop value bits available
      = if low =? 0 then Ok output else Err (InvalidInput "non-canonical Base32 trailing bits").
Proof.
  intros Hd. revert bits available. induction Hd as [|c value Hc Hd IH]; intros bits available Ha.
  - exists [], (bits mod 2 ^ available), available.
    change (lenN (@nil byte)) with 0. change (be_val []) with 0. change (digits_value []) with 0.
    split_and!; [done|apply N.mod_lt; by apply N.pow_nonzero|lia|lia|].
    cbn [decode_base32_loop]. rewrite N.shiftl_1_l, <-N.pred_sub, <-N.ones_equiv, N.land_ones.
    destruct (N.eqb_spec available 0) as [->|]; cbn [negb andb]; [by rewrite N.mod_1_r|].
    by destruct (bits mod 2 ^ available =? 0).
  - apply is_base32_position in Hc as [d Hc]. cbn [decode_base32_loop]. rewrite Hc. cbn [ok_or res_bind].
    assert (Hd32 : d < 2 ^ 5) by (by apply base32_position_Some in Hc as [? _]).
    set (bits' := u16_shift_in bits 5 d).
    assert (Hb : bits' mod 2 ^ (available + 5) = (bits mod 2 ^ available) * 32 + d)
      by (unfold bits'; by rewrite u16_shift_in_mod by (done || lia)).
    assert (Hval : (bits mod 2 ^ available) * 32 ^ lenN (c :: value) + digits_value (c :: value)
      = (bits' mod 2 ^ (available + 5)) * 32 ^ lenN value + digits_value value).
    { rewrite Hb, digits_value_cons, lenN_cons, N.add_1_r, N.pow_succ_r'. unfold digit_value. rewrite Hc. cbn. lia. }
    rewrite Hval, lenN_cons. destruct (N.leb_spec 8 (available + 5)) as [H8|H8].
    + destruct (IH bits' (available + 5 - 8)) as (output & low & left_over & Hl & Hlow & Hlen & Hv & ->);
        [clear - Ha H8; lia|].
      assert (Hlen' : 5 * (lenN value + 1) + available = 8 * (lenN output + 1) + left_over)
        by (clear - Hlen H8; lia).
      exists (byte_of_N (N.shiftr bits' (available + 5 - 8)) :: output), low, left_over.
      rewrite lenN_cons, be_val_cons, byte_N_of_N.
      split; [exact Hl|]. split; [exact Hlow|]. split; [exact Hlen'|]. split; [|by destruct (low =? 0)].
      set (a := available + 5 - 8) in *. rewrite N.shiftr_div_pow2.
      assert (Hs : (bits' / 2 ^ a) mod 256 * 2 ^ a + bits' mod 2 ^ a = bits' mod 2 ^ (available + 5)).
      { change 256 with (2 ^ 8). rewrite shiftr_digit. f_equal. f_equal. unfold a. clear - H8. lia. }
      rewrite <-Hs.
      assert (Hpow : 2 ^ a * 32 ^ lenN value = 256 ^ lenN output * 2 ^ left_over).
      { change 32 with (2 ^ 5). change 256 with (2 ^ 8). rewrite <-!N.pow_mul_r, <-!N.pow_add_r.
        f_equal. unfold a. clear - Hlen H8. lia. }
      rewrite N.mul_add_distr_r, <-N.mul_assoc, Hpow, <-N.add_assoc, Hv. ring.
    + destruct (IH bits' (available + 5)) as (output & low & left_over & Hl & Hlow & Hlen & Hv & ->);
        [clear - H8; lia|].
      exists output, low, left_over. split; [exact Hl|]. split; [exact Hlow|]. split; [clear - Hlen; lia|].
      split; [exact Hv|reflexivity].
Qed.

(** ** Codes as text *)

Lemma digits_split v w low r :
  low < 2 ^ r → v * 2 ^ r = w * 2 ^ r + low → low = 0 ∧ w = v.
Proof.
  generalize (2 ^ r). intros P Hl Hv.
  assert (Hw : w = v * P / P) by (apply (N.div_unique _ P w low); [done|by rewrite Hv, (N.mul_comm w)]).
  rewrite N.div_mul in Hw by (intros ->; by apply N.nlt_0_r in Hl). subst w. lia.
Qed.

(** Where [m] digits hold [n] bytes and less than a digit more. *)
Lemma base32_exact n m pad (a : array n) value :
  pad < 5 → 5 * m = 8 * N.of_nat n + pad → lenN value = m →
  (decode_base32 value = Ok (array_bytes a) ↔ value = encode_base32 (array_bytes a)).
Proof.
  intros Hpad Hm Hlen.
  assert (Hla : lenN (array_bytes a) = N.of_nat n) by (unfold lenN; by rewrite length_array).
  destruct (encode_base32_loop_spec (array_bytes a) 0 0) as (Hd & pad' & Hpad' & Hle & Hve); [lia|].
  fold (encode_base32 (array_bytes a)) in *. rewrite Hla in Hle.
  assert (pad' = pad ∧ lenN (encode_base32 (array_bytes a)) = m) as [-> Hlm] by lia.
  change (0 mod 2 ^ 0) with 0 in Hve. rewrite N.mul_0_l, N.add_0_l in Hve. split.
  - intros Hdec. destruct (decide (digits value)) as [Hdv|Hdv].
    2: { destruct (decode_base32_loop_invalid value 0 0 Hdv) as [e He].
         unfold decode_base32 in Hdec. by rewrite He in Hdec. }
    destruct (decode_base32_loop_spec value 0 0 Hdv) as (out & low & r & Hr & Hlow & Hlo & Hv & Heq); [lia|].
    unfold decode_base32 in Hdec. rewrite Heq in Hdec. destruct (N.eqb_spec low 0) as [Hz|]; [|done].
    injection Hdec as ->. rewrite Hla in Hlo. assert (r = pad) as -> by lia. rewrite Hz in Hv.
    apply digits_value_inj; [done|done|unfold lenN in *; lia|]. rewrite Hve, <-(N.add_0_r (be_val _ * _)), <-Hv.
    change (0 mod 2 ^ 0) with 0. lia.
  - intros ->. destruct (decode_base32_loop_spec (encode_base32 (array_bytes a)) 0 0 Hd)
      as (out & low & r & Hr & Hlow & Hlo & Hv & Heq); [lia|].
    unfold decode_base32. rewrite Heq. rewrite Hlm in Hlo.
    assert (lenN out = N.of_nat n ∧ r = pad) as [Hlout ->] by lia.
    change (0 mod 2 ^ 0) with 0 in Hv. rewrite N.mul_0_l, N.add_0_l, Hve in Hv.
    destruct (digits_split _ _ _ _ Hlow Hv) as [Hz Hval]. rewrite Hz. cbn [N.eqb]. f_equal.
    apply be_val_inj; [|done]. clear - Hlout. unfold lenN in Hlout. rewrite length_array. lia.
Qed.

Lemma digits_encode l : forallb is_base32 (encode_base32 l) = true.
Proof.
  destruct (encode_base32_loop_spec l 0 0) as [Hd _]; [lia|].
  apply forallb_forall. intros c Hc%list_elem_of_In. by eapply Forall_forall in Hd.
Qed.

Lemma lenN_encode n m pad (a : array n) :
  pad < 5 → 5 * m = 8 * N.of_nat n + pad → lenN (encode_base32 (array_bytes a)) = m.
Proof.
  intros Hpad Hm. destruct (encode_base32_loop_spec (array_bytes a) 0 0) as (_ & pad' & Hpad' & Hl & _); [lia|].
  fold (encode_base32 (array_bytes a)) in Hl.
  assert (lenN (array_bytes a) = N.of_nat n) by (unfold lenN; by rewrite length_array). lia.
Qed.

(** Join codes and vault ids have one text each.  A text is read as a join code, or as a vault
    id, exactly when it is what that code is written as: no other length, case, padding or
    trailing bits. *)
Theorem code_text_exact value (code : JoinCode) (id : VaultId) :
  (JoinCode_from_str value = Ok code ↔ value = JoinCode_to_string code)
  ∧ (VaultId_from_str value = Ok id ↔ value = VaultId_to_string id).
Proof.
  assert (Hgen : ∀ n m pad (a : array n) (e1 e2 : Error), pad < 5 → 5 * m = 8 * N.of_nat n + pad →
    ((if negb (lenN value =? m) || negb (forallb is_base32 value) then Err e1
      else let? decoded := decode_base32 value in ok_or (array_of_bytes n decoded) e2) = Ok a
     ↔ value = encode_base32 (array_bytes a))).
  { intros n m pad a e1 e2 Hpad Hm. split.
    - destruct (N.eqb_spec (lenN value) m) as [Hl|]; [|done]. cbn [negb orb].
      destruct (forallb is_base32 value); [|done]. cbn [negb].
      destruct (decode_base32 value) as [out|] eqn:Hd; [|done]. cbn [res_bind].
      destruct (array_of_bytes n out) as [a'|] eqn:Ha; [|done]. cbn [ok_or]. intros [= <-].
      apply array_of_bytes_Some in Ha. rewrite <-Ha in Hd. by apply (base32_exact n m pad).
    - intros ->. rewrite (proj2 (N.eqb_eq _ _)) by (by apply (lenN_encode n m pad)).
      rewrite digits_encode. cbn [negb orb].
      rewrite (proj2 (base32_exact n m pad a _ Hpad Hm (lenN_encode n m pad a Hpad Hm)) eq_refl).
      cbn [res_bind]. by rewrite array_of_bytes_array. }
  split; [by apply (Hgen 16%nat 26 2)|by apply (Hgen 32%nat 52 4)].
Qed.

(** ** Short codes *)

Definition SHORT_LEN : N := 6.
Definition ALPHABET : bytes := BASE32.
Definition SHORT_CODE_DOMAIN : bytes := bstr "qfs/v1/short-code/".

(** The scalar values of UTF-8 text. *)
Fixpoint chars (l : bytes) : list N :=
  match l with
  | [] => []
  | b0 :: l1 =>
      let lead := byte_N b0 in
      if lead <? 128 then lead :: chars l1
      else
        match l1 with
        | [] => []
        | b1 :: l2 =>
            let c1 := N.land (byte_N b1) 63 in
            if lead <? 224 then N.land lead 31 * 64 + c1 :: chars l2
            else
              match l2 with
              | [] => []
              | b2 :: l3 =>
                  let c2 := c1 * 64 + N.land (byte_N b2) 63 in
                  if lead <? 240 then N.land lead 15 * 4096 + c2 :: chars l3
                  else
                    match l3 with
                    | [] => []
                    | b3 :: l4 => N.land lead 7 * 262144 + c2 * 64 + N.land (byte_N b3) 63 :: chars l4
                    end
              end
        end
  end.

(** [char::is_whitespace] *)
Definition is_whitespace (c : N) : bool :=
  ((9 <=? c) && (c <=? 13)) || (c =? 32) || (c =? 133) || (c =? 160) || (c =? 5760)
  || ((8192 <=? c) && (c <=? 8202)) || (c =? 8232) || (c =? 8233) || (c =? 8239) || (c =? 8287)
  || (c =? 12288).

Fixpoint trim_start (l : list N) : list N :=
  match l with
  | [] => []
  | c :: l' => if is_whitespace c then trim_start l' else l
  end.
Definition trim (l : list N) : list N := reverse (trim_start (reverse (trim_start l))).

(** [to_uppercase] where its result is ASCII: besides the ASCII characters the sharp s, the
    dotless i, the long s and the Latin ligatures.  Everything else has an upper case with a
    character that is not ASCII, and so never in the alphabet. *)
Definition ascii_uppercase (c : N) : option bytes :=
  if (97 <=? c) && (c <=? 122) then Some [byte_of_N (c - 32)]
  else if c <? 128 then Some [byte_of_N c]
  else if c =? 223 then Some (bstr "SS")
  else if c =? 305 then Some (bstr "I")
  else if c =? 383 then Some (bstr "S")
  else if c =? 64256 then Some (bstr "FF")
  else if c =? 64257 then Some (bstr "FI")
  else if c =? 64258 then Some (bstr "FL")
  else if c =? 64259 then Some (bstr "FFI")
  else if c =? 64260 then Some (bstr "FFL")
  else if (c =? 64261) || (c =? 64262) then Some (bstr "ST")
  else None.

Definition normalize_chars (value : list N) : option bytes :=
  upper ← mapM ascii_uppercase (trim value);
  let upper := concat upper in
  if negb (lenN upper =? SHORT_LEN) || negb (forallb (λ c, bool_decide (c ∈ ALPHABET)) upper)
  then None else Some upper.
Definition normalize (value : text) : option bytes := normalize_chars (chars (text_bytes value)).

Section short.
Context `{Sha256}.

Definition derive_chars (short : list N) : Result JoinCode :=
  let? normalized := ok_or (normalize_chars short)
    (InvalidInput "short code must be 6 characters from A-Z2-7") in
  ok_or (array_of_bytes 16 (firstn 16 (array_bytes (sha256 (SHORT_CODE_DOMAIN ++ normalized)))))
    (InvalidInput "short code must be 6 characters from A-Z2-7").
Definition derive (short : text) : Result JoinCode := derive_chars (chars (text_bytes short)).
End short.

(** [generate], given the random bytes. *)
Definition generate (random : array 6) : bytes :=
  (λ b, nth (N.to_nat (N.land (byte_N b) 31)) ALPHABET Byte.x00) <$> array_bytes random.

Lemma alphabet_char c :
  c ∈ ALPHABET → byte_N c < 128 ∧ is_whitespace (byte_N c) = false ∧ ascii_uppercase (byte_N c) = Some [c].
Proof.
  intros Hc. assert (Hall : forallb (λ c, (byte_N c <? 128) && negb (is_whitespace (byte_N c))
    && bool_decide (ascii_uppercase (byte_N c) = Some [c])) ALPHABET = true) by (vm_compute; reflexivity).
  rewrite forallb_forall in Hall. apply list_elem_of_In, Hall in Hc.
  apply andb_true_iff in Hc as [[H1%N.ltb_lt H2%negb_true_iff]%andb_true_iff H3%bool_decide_eq_true]. done.
Qed.

Lemma chars_alphabet l : Forall (λ c, c ∈ ALPHABET) l → chars l = byte_N <$> l.
Proof.
  induction 1 as [|c l Hc _ IH]; [done|]. cbn [chars]. apply alphabet_char in Hc as (Hc & _).
  by rewrite (proj2 (N.ltb_lt _ _) Hc), IH.
Qed.

Lemma trim_start_alphabet l : Forall (λ c, c ∈ ALPHABET) l → trim_start (byte_N <$> l) = byte_N <$> l.
Proof. intros [|c l' Hc _]; [done|]. cbn. by destruct (alphabet_char c Hc) as (_ & -> & _). Qed.

Lemma normalize_chars_alphabet value :
  lenN value = SHORT_LEN → Forall (λ c, c ∈ ALPHABET) value → normalize_chars (byte_N <$> value) = Some value.
Proof.
  intros Hlen Hall. unfold normalize_chars, trim.
  rewrite trim_start_alphabet, <-fmap_reverse, trim_start_alphabet, <-fmap_reverse, reverse_involutive
    by (done || by apply Forall_reverse).
  assert (Hm : mapM ascii_uppercase (byte_N <$> value) = Some ((λ c, [c]) <$> value)).
  { clear Hlen. induction Hall as [|c l Hc _ IH]; [done|]. cbn.
    destruct (alphabet_char c Hc) as (_ & _ & ->). cbn. cbn in IH. by rewrite IH. }
  rewrite Hm. cbn [mbind option_bind].
  assert (Hc : concat ((λ c, [c]) <$> value) = value).
  { clear. induction value as [|c l IH]; [done|]. cbn. cbn in IH. by rewrite IH. }
  rewrite Hc, (proj2 (N.eqb_eq _ _)) by done. cbn [negb orb].
  assert (forallb (λ c, bool_decide (c ∈ ALPHABET)) value = true) as ->; [|done].
  apply forallb_forall. intros c Hin%list_elem_of_In. apply bool_decide_eq_true.
  by eapply Forall_forall in Hall.
Qed.

Lemma normalize_alphabet (value : text) :
  lenN value = SHORT_LEN → Forall (λ c, c ∈ ALPHABET) (text_bytes value) →
  normalize value = Some (text_bytes value).
Proof. intros Hlen Hall. unfold normalize. rewrite chars_alphabet by done. by apply normalize_chars_alphabet. Qed.

Lemma normalize_chars_Some value normal :
  normalize_chars value = Some normal → lenN normal = SHORT_LEN ∧ Forall (λ c, c ∈ ALPHABET) normal.
Proof.
  unfold normalize_chars. intros Hn. destruct (mapM _ _) as [upper|]; [|done]. cbn in Hn.
  destruct (N.eqb_spec (lenN (concat upper)) SHORT_LEN) as [Hl|]; [|done]. cbn [negb orb] in Hn.
  destruct (forallb _ (concat upper)) eqn:Ha; [|done]. injection Hn as <-. split; [done|].
  rewrite forallb_forall in Ha. apply Forall_forall. intros c Hc%list_elem_of_In.
  by apply Ha, bool_decide_eq_true in Hc.
Qed.

Lemma generate_canonical random :
  lenN (generate random) = SHORT_LEN ∧ Forall (λ c, c ∈ ALPHABET) (generate random).
Proof.
  split; [unfold lenN, generate; by rewrite length_fmap, length_array|].
  apply Forall_fmap, Forall_true. intros b. cbv beta delta [compose]. apply list_elem_of_In, nth_In.
  change 31 with (N.ones 5). rewrite N.land_ones. pose proof (N.mod_lt (byte_N b) (2 ^ 5) ltac:(done)) as Hb.
  change (2 ^ 5) with 32 in *. change (length ALPHABET) with 32%nat. lia.
Qed.

(** Short codes have one canonical form.  What [normalize] gives has six characters of the
    alphabet and is its own normal form, so that every way of typing a code derives the same join
    code; and what [generate] gives, whatever the random bytes, is in that form. *)
Theorem short_code_canonical `{Sha256} (typed : text) normal :
  (normalize typed = Some normal →
     lenN normal = SHORT_LEN ∧ Forall (λ c, c ∈ ALPHABET) normal
     ∧ ∀ canonical, text_bytes canonical = normal →
         normalize canonical = Some normal ∧ derive typed = derive canonical)
  ∧ ∀ random (generated : text), text_bytes generated = generate random →
      normalize generated = Some (generate random) ∧ ∃ code, derive generated = Ok code.
Proof.
  assert (Hcanon : ∀ canonical, lenN (text_bytes canonical) = SHORT_LEN →
    Forall (λ c, c ∈ ALPHABET) (text_bytes canonical) → normalize canonical = Some (text_bytes canonical)).
  { intros. by apply normalize_alphabet. }
  split.
  - intros Hn. assert (lenN normal = SHORT_LEN ∧ Forall (λ c, c ∈ ALPHABET) normal) as [Hl Ha].
    { exact (normalize_chars_Some _ _ Hn). }
    split_and!; [done|done|]. intros canonical <-. rewrite Hcanon by done. split; [done|].
    unfold derive, derive_chars. fold (normalize typed) (normalize canonical). by rewrite Hn, Hcanon by done.
  - intros random generated Hg. destruct (generate_canonical random) as [Hl Ha].
    rewrite Hcanon; rewrite Hg; [|done..]. split; [done|]. unfold derive, derive_chars. fold (normalize generated).
    rewrite Hcanon; rewrite Hg; [|done..]. cbn [ok_or res_bind].
    destruct (array_of_bytes_is_Some 16 (firstn 16 (array_bytes (sha256 (SHORT_CODE_DOMAIN ++ generate random)))))
      as (code & -> & _); [by rewrite length_firstn, length_array|by exists code].
Qed.

(** The text of a short code, typed in lower case between spaces. *)
Definition sample_short : text := ltac:(refine (Text (bstr " ab2c7z ") _); vm_compute; reflexivity).

Lemma short_code_canonical_witness `{Sha256} :
  normalize sample_short = Some (bstr "AB2C7Z") ∧ Forall (λ c, c ∈ ALPHABET) (bstr "AB2C7Z").
Proof.
  assert (Hn : normalize sample_short = Some (bstr "AB2C7Z")) by (vm_compute; reflexivity).
  split; [exact Hn|]. exact (proj1 (proj2 (proj1 (short_code_canonical sample_short (bstr "AB2C7Z")) Hn))).
Defined.
