(* ===== verification/Link.v ===== *)
(** * Connections

    A task that talks to a peer over a TCP stream.  It acts on a state [S] it shares with the other
    tasks of the process, and gives them a turn wherever it awaits the stream.  What the stream
    brings is given: an adversary's frames, errors, the end of the stream, at which a deadline
    also counts.  What is written is recorded in order, the frame of a failed write included, since
    it may have arrived. *)
From S2P Require Export Frame HostOps KeyStoreFrame.
From Stdlib Require Import Lia ZifyN ZifyNat.

Open Scope N_scope.

(** ** Shared states with a key store in them *)

(** The key store the tasks share and the count of draws from the system. *)
Class Keyed `{Sha256, MlDsa65, XWing} (S : Type) := {
  kd_keys : S → StoreInner;
  kd_set_keys : StoreInner → S → S;
  kd_tick : S → nat;
  kd_set_tick : nat → S → S;
}.

(** Reading gives what was written, and the two parts are separate. *)
Class KeyedLaws `{Sha256, MlDsa65, XWing} (S : Type) `{!Keyed S} := {
  kd_keys_set k s : kd_keys (kd_set_keys k s) = k;
  kd_tick_set n s : kd_tick (kd_set_tick n s) = n;
  kd_keys_tick n s : kd_keys (kd_set_tick n s) = kd_keys s;
  kd_tick_keys k s : kd_tick (kd_set_keys k s) = kd_tick s;
  kd_set_set k k' s : kd_set_keys k (kd_set_keys k' s) = kd_set_keys k s;
  kd_set_id s : kd_set_keys (kd_keys s) s = s;
}.

(** What other tasks do to the shared state while one awaits. *)
Abbreviation Turn S := (S → S).

Record HandshakeProgress := mkHandshakeProgress {
  hp_peer_id : option PeerId;
  hp_wrap_acknowledged : bool;
  hp_had_pair : bool;
}.

(** The variables of the task that its handshake writes: [progress], which it lends, and what its
    closure captures, [handshake_permit] on the host and [had_admitted_pair] on a member. *)
Record Locals := mkLocals {
  lc_progress : HandshakeProgress;
  lc_permit : option PeerId;
  lc_admitted : bool;
}.

Record Conn (S : Type) := mkConn {
  lk_shared : S;
  (** What each [read_frame] to come gives. *)
  lk_incoming : list (Turn S * Result Frame);
  (** What each write to come gives; [None]: the task is stopped there. *)
  lk_writes : list (Turn S * option (Result unit));
  lk_sent : list Frame;
  lk_locals : Locals;
}.
Arguments mkConn {S}.
Arguments lk_shared {S}.
Arguments lk_incoming {S}.
Arguments lk_writes {S}.
Arguments lk_sent {S}.
Arguments lk_locals {S}.

(** [&mut Result]: the result as a value. *)
Definition sm_attempt {S A} (m : SM S A) : SM S (Result A) := λ s,
  let '(r, s) := m s in (Ok r, s).

Lemma wp_attempt {S A} (m : SM S A) (Q : Result A → S → Prop) E s :
  wp m (λ x, Q (Ok x)) (λ s', ∀ e, Q (Err e) s') s → wp (sm_attempt m) Q E s.
Proof. unfold wp, sm_attempt. destruct (m s) as [[x|e] s']; auto. Qed.

Section link.
Context {S : Type}.

Definition set_lk_shared v (l : Conn S) := mkConn v (lk_incoming l) (lk_writes l) (lk_sent l) (lk_locals l).
Definition set_lk_incoming v (l : Conn S) := mkConn (lk_shared l) v (lk_writes l) (lk_sent l) (lk_locals l).
Definition set_lk_locals v (l : Conn S) := mkConn (lk_shared l) (lk_incoming l) (lk_writes l) (lk_sent l) v.

(** A call on the shared state, between two awaits. *)
Definition shared {A} (m : SM S A) : SM (Conn S) A := sm_zoom lk_shared set_lk_shared m.

Definition locals_update (f : Locals → Locals) : SM (Conn S) unit := λ l,
  (Ok tt, set_lk_locals (f (lk_locals l)) l).
Definition locals_get : SM (Conn S) Locals := λ l, (Ok (lk_locals l), l).

Definition progress_update (f : HandshakeProgress → HandshakeProgress) : SM (Conn S) unit :=
  locals_update (λ v, mkLocals (f (lc_progress v)) (lc_permit v) (lc_admitted v)).

(** [read_frame(stream).await] *)
Definition read_link : SM (Conn S) Frame := λ l,
  match lk_incoming l with
  | [] => (Err (Io UnexpectedEof), l)
  | (turn, r) :: rest => (r, set_lk_incoming rest (set_lk_shared (turn (lk_shared l)) l))
  end.

(** [write_frame(stream, frame).await], its outcome as a value. *)
Definition try_write_link (frame : Frame) : SM (Conn S) (Result unit) :=
  do! encoded := sm_attempt (sm_lift (write_frame frame)) in
  match encoded with
  | Err e => sm_ret (Err e)
  | Ok _ => λ l,
      match lk_writes l with
      | [] => (Ok (Err (Io OtherIo)), l)
      | (turn, outcome) :: rest =>
          let l := mkConn (turn (lk_shared l)) (lk_incoming l) rest (lk_sent l ++ [frame]) (lk_locals l) in
          (ok_or outcome (State "handshake deadline exceeded"), l)
      end
  end.

Definition write_link (frame : Frame) : SM (Conn S) unit :=
  do! r := try_write_link frame in sm_lift r.

(** A loop that reads a frame at each turn: [None] goes on, [Some] leaves it.  There are at most
    as many turns as frames to come; a read after them is the end of the stream
    ([read_loop_unfold]). *)
Fixpoint read_loop_fuel {A} (fuel : nat) (body : Frame → SM (Conn S) (option A)) : SM (Conn S) A :=
  match fuel with
  | O => sm_err (Io UnexpectedEof)
  | Datatypes.S fuel =>
      do! frame := read_link in
      do! leaves := body frame in
      match leaves with
      | Some x => sm_ret x
      | None => read_loop_fuel fuel body
      end
  end.
Definition read_loop {A} (body : Frame → SM (Conn S) (option A)) : SM (Conn S) A := λ l,
  read_loop_fuel (length (lk_incoming l)) body l.

(** ** Calls on the key store *)

Section keys.
Context `{Sha256, MlDsa65, XWing, AesGcm, HkdfSha256, Oracle, !Keyed S}.

Definition link_keys {A} (m : SM StoreInner A) : SM (Conn S) A :=
  sm_zoom (λ l, kd_keys (lk_shared l)) (λ k l, set_lk_shared (kd_set_keys k (lk_shared l)) l) m.

Definition link_draw {A} (f : nat → A) : SM (Conn S) A := λ l,
  let n := kd_tick (lk_shared l) in
  (Ok (f n), set_lk_shared (kd_set_tick (Datatypes.S n) (lk_shared l)) l).

(** [.is_ok()] of a call. *)
Definition link_is_ok {A} (m : SM StoreInner A) : SM (Conn S) bool :=
  do! r := sm_attempt (link_keys m) in sm_ret (is_ok r).

(** What the creation of a wrap draws. *)
Definition link_wrap_input : SM (Conn S) WrapInput :=
  do! key := link_draw (oc_random 32) in
  do! random := link_draw (oc_random 64) in
  do! io := link_draw oc_write in
  sm_ret (mkWrapInput key random io).

(** A method that writes the state file once. *)
Definition link_write {A} (m : WriteOutcome → SM StoreInner A) : SM (Conn S) A :=
  do! io := link_draw oc_write in link_keys (m io).
Definition link_create {A} (m : WrapInput → SM StoreInner A) : SM (Conn S) A :=
  do! input := link_wrap_input in link_keys (m input).
End keys.
End link.

(** ** Rules *)

Section rules.
Context {S : Type}.
Implicit Types l : Conn S.

Lemma wp_shared {A} (m : SM S A) (Q : A → Conn S → Prop) E l :
  wp m (λ x s, Q x (set_lk_shared s l)) (λ s, E (set_lk_shared s l)) (lk_shared l) → wp (shared m) Q E l.
Proof. apply wp_zoom. Qed.

(** What is left of the connection, and what was sent on it. *)
Record moved (l l' : Conn S) : Prop := {
  mv_incoming : lk_incoming l' `suffix_of` lk_incoming l;
  mv_writes : lk_writes l' `suffix_of` lk_writes l;
  mv_sent : lk_sent l `prefix_of` lk_sent l';
}.

#[export] Instance moved_preorder : PreOrder moved.
Proof.
  split; [intros l; by split|].
  intros a b c [i1 w1 s1] [i2 w2 s2]. split; by etransitivity.
Qed.

(** Every turn that is to come keeps [R]. *)
Definition turns (R : relation S) l : Prop :=
  (∀ turn r, (turn, r) ∈ lk_incoming l → ∀ s, R s (turn s))
  ∧ ∀ turn r, (turn, r) ∈ lk_writes l → ∀ s, R s (turn s).

Lemma turns_moved R l l' : moved l l' → turns R l → turns R l'.
Proof.
  intros [Hi Hw _] [H1 H2]. split; intros turn r Hin.
  - apply (H1 turn r). by eapply elem_of_suffix.
  - apply (H2 turn r). by eapply elem_of_suffix.
Qed.

(** ** What a task keeps

    [R] relates the shared state before and after, whatever the task returns, if it does for the
    turns of the other tasks. *)

Definition after (R : relation S) l l' : Prop := moved l l' ∧ R (lk_shared l) (lk_shared l').

#[export] Instance after_preorder (R : relation S) `{!PreOrder R} : PreOrder (after R).
Proof.
  split; [intros l; split; reflexivity|]. intros a b c [] []. split; by etransitivity.
Qed.

Definition link_keeps {A} (R : relation S) (m : SM (Conn S) A) : Prop :=
  ∀ l, turns R l → wp m (λ _, after R l) (after R l) l.

Section keeps.
Context (R : relation S) `{!PreOrder R}.

(** A step of a longer run, from [l0]. *)
Lemma link_keeps_wp {A} (m : SM (Conn S) A) (Q : A → Conn S → Prop) (E : Conn S → Prop) l0 l :
  link_keeps R m → turns R l → after R l0 l →
  (∀ x l', turns R l' → after R l0 l' → Q x l') → (∀ l', after R l0 l' → E l') → wp m Q E l.
Proof.
  intros Hm Ht Hl HQ HE. eapply wp_mono; [by apply Hm| |].
  - intros x l' Hl'. apply HQ; [by eapply turns_moved; [apply Hl'|]|by etransitivity].
  - intros l' Hl'. apply HE. by etransitivity.
Qed.

Lemma link_keeps_bind {A B} (m : SM (Conn S) A) (k : A → SM (Conn S) B) :
  link_keeps R m → (∀ x, link_keeps R (k x)) → link_keeps R (sm_bind m k).
Proof.
  intros Hm Hk l Ht. apply wp_bind. eapply link_keeps_wp; [exact Hm|done|reflexivity| |done].
  intros x l' Ht' Hl'. by eapply link_keeps_wp; [apply Hk| | |done|done].
Qed.

Lemma link_keeps_ret {A} (x : A) : link_keeps R (sm_ret x).
Proof. intros l _. apply wp_ret. reflexivity. Qed.
Lemma link_keeps_err {A} e : link_keeps R (sm_err (A := A) e).
Proof. intros l _. apply wp_err. reflexivity. Qed.
Lemma link_keeps_lift {A} (r : Result A) : link_keeps R (sm_lift r).
Proof. intros l _. apply wp_lift; [intros x _|intros _]; reflexivity. Qed.
Lemma link_keeps_attempt {A} (m : SM (Conn S) A) : link_keeps R m → link_keeps R (sm_attempt m).
Proof. intros Hm l Ht. apply wp_attempt. eapply wp_mono; [by apply Hm|done|done]. Qed.
Lemma link_keeps_locals f : link_keeps R (locals_update f).
Proof. intros l _. unfold wp, locals_update. split; [by split|reflexivity]. Qed.
Lemma link_keeps_locals_get : link_keeps R locals_get.
Proof. intros l _. unfold wp, locals_get. reflexivity. Qed.
Lemma link_keeps_progress f : link_keeps R (progress_update f).
Proof. apply link_keeps_locals. Qed.

Lemma link_keeps_shared {A} (m : SM S A) :
  (∀ s, wp m (λ _, R s) (R s) s) → link_keeps R (shared m).
Proof.
  intros Hm l _. apply wp_shared. eapply wp_mono; [apply Hm| |].
  - intros x s Hs. split; [by split|done].
  - intros s Hs. split; [by split|done].
Qed.

Lemma link_keeps_read : link_keeps R read_link.
Proof.
  intros l [Hi _]. unfold wp, read_link. destruct (lk_incoming l) as [|[turn r] rest] eqn:Hl; [reflexivity|].
  assert (after R l (set_lk_incoming rest (set_lk_shared (turn (lk_shared l)) l))).
  { split; [split; cbn; [rewrite Hl; by exists [(turn, r)]|done|done]|]. cbn. eapply Hi. by left. }
  by destruct r.
Qed.

Lemma link_keeps_try_write frame : link_keeps R (try_write_link frame).
Proof.
  apply link_keeps_bind; [apply link_keeps_attempt, link_keeps_lift|].
  intros [encoded|e]; [|apply link_keeps_ret]. intros l [_ Hw]. unfold wp.
  destruct (lk_writes l) as [|[turn outcome] rest] eqn:Hl; [reflexivity|].
  assert (after R l (mkConn (turn (lk_shared l)) (lk_incoming l) rest (lk_sent l ++ [frame]) (lk_locals l))).
  { split; [split; cbn; [done|rewrite Hl; by exists [(turn, outcome)]|by apply prefix_app_r]|].
    cbn. eapply Hw. by left. }
  by destruct outcome.
Qed.

Lemma link_keeps_write frame : link_keeps R (write_link frame).
Proof. apply link_keeps_bind; [apply link_keeps_try_write|]. intros r. apply link_keeps_lift. Qed.

Lemma link_keeps_loop {A} (body : Frame → SM (Conn S) (option A)) :
  (∀ frame, link_keeps R (body frame)) → link_keeps R (read_loop body).
Proof.
  intros Hbody. enough (Hfuel : ∀ fuel, link_keeps R (read_loop_fuel fuel body))
    by (intros l Ht; apply (Hfuel (length (lk_incoming l)) l Ht)).
  intros fuel. induction fuel as [|fuel IH]; cbn [read_loop_fuel]; [apply link_keeps_err|].
  apply link_keeps_bind; [apply link_keeps_read|]. intros frame.
  apply link_keeps_bind; [apply Hbody|]. intros [x|]; [apply link_keeps_ret|exact IH].
Qed.
End keeps.

(** A body that only moves on along the connection. *)
Definition moves {A} (m : SM (Conn S) A) : Prop := ∀ l, wp m (λ _, moved l) (moved l) l.

Lemma read_loop_enough {A} (body : Frame → SM (Conn S) (option A)) fuel l :
  (∀ frame, moves (body frame)) → (length (lk_incoming l) <= fuel)%nat →
  read_loop_fuel fuel body l = read_loop body l.
Proof.
  intros Hbody. unfold read_loop. enough (Hgen : ∀ n fuel l, (length (lk_incoming l) <= n)%nat → (n <= fuel)%nat →
    read_loop_fuel fuel body l = read_loop_fuel n body l) by (intros; by apply Hgen).
  clear fuel l. induction n as [|n IH]; intros fuel l Hl Hf.
  - destruct fuel as [|fuel]; [done|]. cbn. unfold sm_bind, read_link, sm_err.
    destruct l as [s [|? ?] w o p]; [done|cbn in Hl; lia].
  - destruct fuel as [|fuel]; [lia|]. cbn [read_loop_fuel]. unfold sm_bind at 1 3, read_link.
    destruct (lk_incoming l) as [|[turn r] rest] eqn:Hin; [done|]. destruct r as [frame|]; [|done].
    set (l1 := set_lk_incoming rest (set_lk_shared (turn (lk_shared l)) l)).
    unfold sm_bind. pose proof (Hbody frame l1) as Hb. unfold wp in Hb.
    destruct (body frame l1) as [[[x|]|e] l2]; [done| |done].
    apply IH; [|lia]. apply mv_incoming, suffix_length in Hb. cbn in Hb, Hl. lia.
Qed.

Lemma read_loop_unfold {A} (body : Frame → SM (Conn S) (option A)) l :
  (∀ frame, moves (body frame)) →
  read_loop body l =
  (do! frame := read_link in
   do! leaves := body frame in
   match leaves with Some x => sm_ret x | None => read_loop body end) l.
Proof.
  intros Hbody. rewrite <-(read_loop_enough body (Datatypes.S (length (lk_incoming l)))); [|done|lia].
  cbn [read_loop_fuel]. unfold sm_bind at 1 3. unfold read_link.
  destruct (lk_incoming l) as [|[turn r] rest] eqn:Hin; [done|]. destruct r as [frame|]; [|done].
  set (l1 := set_lk_incoming rest (set_lk_shared (turn (lk_shared l)) l)).
  unfold sm_bind. pose proof (Hbody frame l1) as Hb. unfold wp in Hb.
  destruct (body frame l1) as [[[x|]|e] l2]; [done| |done].
  apply read_loop_enough; [done|]. apply mv_incoming, suffix_length in Hb. cbn in *. lia.
Qed.

(** ** Calls on the key store *)

Section keys.
Context `{Sha256, MlDsa65, XWing, AesGcm, HkdfSha256, Oracle, !Keyed S}.

(** [R] for the shared state holds where [T] does for its key store. *)
Class KeyRelation (T : relation StoreInner) (R : relation S) : Prop := {
  kr_store :: PreOrder T;
  kr_shared :: PreOrder R;
  kr_keys s k : T (kd_keys s) k → R s (kd_set_keys k s);
  kr_tick s n : R s (kd_set_tick n s);
}.

Context (T : relation StoreInner) (R : relation S) `{!KeyRelation T R}.

Lemma link_keeps_keys {A} (m : SM StoreInner A) : stays T m → link_keeps R (link_keys m).
Proof.
  intros Hm l _. apply wp_zoom. eapply wp_mono; [apply Hm| |]; cbn beta.
  - intros x k Hk. split; [by split|by apply kr_keys].
  - intros k Hk. split; [by split|by apply kr_keys].
Qed.

Lemma link_keeps_draw {A} (f : nat → A) : link_keeps R (link_draw f).
Proof. intros l _. split; [by split|apply kr_tick]. Qed.

Lemma link_keeps_is_ok {A} (m : SM StoreInner A) : stays T m → link_keeps R (link_is_ok m).
Proof.
  intros Hm. apply (link_keeps_bind R); [by apply (link_keeps_attempt R), link_keeps_keys|].
  intros r. apply (link_keeps_ret R).
Qed.

Lemma link_keeps_input : link_keeps R link_wrap_input.
Proof.
  do 3 (apply (link_keeps_bind R); [apply link_keeps_draw|intros ?]). apply (link_keeps_ret R).
Qed.

Lemma link_keeps_stored {A} (m : WriteOutcome → SM StoreInner A) :
  (∀ io, stays T (m io)) → link_keeps R (link_write m).
Proof.
  intros Hm. apply (link_keeps_bind R); [apply link_keeps_draw|]. intros io. by apply link_keeps_keys.
Qed.

Lemma link_keeps_created {A} (m : WrapInput → SM StoreInner A) :
  (∀ input, stays T (m input)) → link_keeps R (link_create m).
Proof.
  intros Hm. apply (link_keeps_bind R); [apply link_keeps_input|]. intros input. by apply link_keeps_keys.
Qed.
End keys.
End rules.
