(* ===== verification/Session.v ===== *)
(** * The pair handshake ([net/session.rs])

    Both ends send their identity, then their epoch for the other; one sends a wrapped key and
    the other acknowledges it.  A host that already has a confirmed pair with the peer keeps it
    untouched until the peer is admitted again: the new key is then only a candidate. *)
From S2P Require Export Link.
From Stdlib Require Import Lia ZifyN ZifyNat.

Open Scope N_scope.

Section session.
Context `{Sha256, MlDsa65, XWing, AesGcm, HkdfSha256, Oracle, SocketAddrs}.

Record EstablishedSession := mkEstablishedSession {
  es_peer : IdentityDocument;
  es_session : PairSession;
}.

Definition require_kind (frame : Frame) (expected : byte) : Result unit :=
  if negb (bool_decide (fr_kind frame = expected))
  then Err (State "unexpected frame during pair handshake")
  else Ok tt.

(** The wrap's signature, checked without the key store. *)
Definition verify_wrap (peer : IdentityDocument) (message : WrapMessage) : Result unit :=
  let? m := wrap_m message in
  verify (doc_vk peer) WRAP_CONTEXT m (wm_signature message).

Context {S : Type} `{!Keyed S}.

Definition send_wrap (message : WrapMessage) : SM (Conn S) unit :=
  do! frame := sm_lift (let? payload := encode_wrap message in Frame_new WRAP_KIND payload) in
  write_link frame.

Definition send_ack (epoch : Epoch) (retry_pending : bool) : SM (Conn S) unit :=
  do! frame := sm_lift (Frame_new WRAP_ACK_KIND (encode_wrap_ack epoch retry_pending)) in
  write_link frame.

(** What a handshake returns, with the acknowledgement noted. *)
Definition established (peer : IdentityDocument) (session : PairSession)
    : SM (Conn S) EstablishedSession :=
  do! _ := progress_update (λ p, mkHandshakeProgress (hp_peer_id p) true (hp_had_pair p)) in
  sm_ret (mkEstablishedSession peer session).

Definition initial_wrap (local peer : IdentityDocument) (local_epoch remote_epoch : Epoch)
    : SM (Conn S) (option WrapMessage) :=
  let floor := u64_max local_epoch remote_epoch in
  let smaller := ltb (doc_peer_id local) (doc_peer_id peer) in
  do! cached := link_keys (cached_pair (doc_peer_id peer)) in
  do! has_active := link_is_ok (current_session (doc_peer_id peer)) in
  let cached_is_eligible :=
    match cached with
    | Some (initiator, message) =>
        bool_decide (initiator = doc_peer_id local) && bool_decide (wm_epoch message = floor) && has_active
    | None => false
    end in
  if cached_is_eligible && ((u64_N remote_epoch <=? u64_N local_epoch) || smaller) then
    do! found := sm_lift (ok_or cached (State "eligible cached wrap disappeared")) in
    do! message := link_keys (retry found.2) in
    sm_ret (Some message)
  else
    let should_initiate :=
      smaller
      && (negb (bool_decide (local_epoch = remote_epoch)) || bool_decide (cached = None)
          || bool_decide (local_epoch = u64_zero) || negb has_active) in
    if should_initiate then
      do! _ := link_write (λ io, observe_remote_epoch io (doc_peer_id peer) floor) in
      do! epoch := link_keys (next_epoch (doc_peer_id peer)) in
      do! created := link_create (λ input, create input (doc_peer_id peer) (doc_ek peer) epoch) in
      sm_ret (Some created.2)
    else sm_ret None.

Definition prepare_incoming_floor (peer : IdentityDocument) (message : WrapMessage)
    : SM (Conn S) unit :=
  do! active := link_is_ok (current_session (doc_peer_id peer)) in
  if active then sm_ret tt
  else
    do! local_id := link_keys ks_peer in
    if geb (doc_peer_id peer) local_id
       || negb (bool_decide (wm_min_id message = id_min (doc_peer_id peer) local_id))
       || negb (bool_decide (wm_max_id message = id_max (doc_peer_id peer) local_id))
    then sm_ret tt
    else
      do! floor := link_keys (peer_epoch (doc_peer_id peer)) in
      match u64_checked_sub (wm_epoch message) 1 with
      | None => sm_ret tt
      | Some predecessor =>
          if u64_N floor <? u64_N predecessor then
            do! _ := sm_lift (verify_wrap peer message) in
            link_write (λ io, observe_remote_epoch io (doc_peer_id peer) predecessor)
          else sm_ret tt
      end.

(** A wrap that arrives in the plain handshake: the session it leads to, if any. *)
Definition take_wrap (peer : IdentityDocument) (message : WrapMessage)
    : SM (Conn S) (option EstablishedSession) :=
  do! current := sm_attempt (link_keys (current_session (doc_peer_id peer))) in
  if match current with
     | Ok session => u64_N (wm_epoch message) <? u64_N (ps_epoch session)
     | Err _ => false
     end
  then do! _ := sm_lift (verify_wrap peer message) in sm_ret None
  else
    do! _ := prepare_incoming_floor peer message in
    do! opened := sm_attempt (link_write (λ io, unwrap io (doc_peer_id peer) message)) in
    match opened with
    | Ok session =>
        do! retry := link_keys (retry_epoch (doc_peer_id peer)) in
        if bool_decide (is_Some retry) then
          do! _ := send_ack (wm_epoch message) true in
          do! created := link_create (λ input, retry_collision input (doc_peer_id peer)) in
          do! _ := send_wrap created.2 in
          sm_ret None
        else
          do! _ := send_ack (ps_epoch session) false in
          do! established := established peer session in
          sm_ret (Some established)
    | Err (EpochConflict _) => sm_ret None
    | Err error => sm_err error
    end.

Definition take_ack (peer : IdentityDocument) (payload : bytes)
    : SM (Conn S) (option EstablishedSession) :=
  do! (epoch, retry_pending) := sm_lift (decode_wrap_ack payload) in
  if retry_pending : bool then sm_ret None
  else
    do! session := link_keys (current_session (doc_peer_id peer)) in
    check! bool_decide (epoch = ps_epoch session)
      else State "WrapAck epoch does not match active session" in
    do! established := established peer session in
    sm_ret (Some established).

Definition finish_wrap_frame (peer : IdentityDocument) (frame : Frame)
    : SM (Conn S) (option EstablishedSession) :=
  if bool_decide (fr_kind frame = WRAP_KIND) then
    do! message := sm_lift (decode_wrap (fr_payload frame)) in
    take_wrap peer message
  else if bool_decide (fr_kind frame = WRAP_ACK_KIND) then take_ack peer (fr_payload frame)
  else sm_err (State "unexpected frame during pair handshake").

Definition finish_wrap (peer : IdentityDocument) : SM (Conn S) EstablishedSession :=
  read_loop (finish_wrap_frame peer).

(** ** With a confirmed pair to keep *)

(** A wrap that arrives while a candidate is agreed on. *)
Definition take_candidate_wrap (peer : IdentityDocument) (incoming : WrapMessage)
    : SM (Conn S) (option EstablishedSession) :=
  do! current := sm_attempt (link_keys (candidate_session (doc_peer_id peer))) in
  if match current with
     | Ok candidate => u64_N (wm_epoch incoming) <? u64_N (ps_epoch candidate)
     | Err _ => false
     end
  then do! _ := sm_lift (verify_wrap peer incoming) in sm_ret None
  else
    do! opened := sm_attempt (link_write (λ io, unwrap_candidate io (doc_peer_id peer) incoming)) in
    match opened with
    | Ok candidate =>
        do! retry := link_keys (candidate_retry_epoch (doc_peer_id peer)) in
        if bool_decide (is_Some retry) then
          do! _ := send_ack (ps_epoch candidate) true in
          do! io := link_draw oc_write in
          do! created := link_create (λ input, retry_candidate_collision io input (doc_peer_id peer)) in
          do! _ := send_wrap created.2 in
          sm_ret None
        else
          do! _ := send_ack (ps_epoch candidate) false in
          do! established := established peer candidate in
          sm_ret (Some established)
    | Err (EpochConflict _) => sm_ret None
    | Err error => sm_err error
    end.

Definition take_candidate_ack (peer : IdentityDocument) (payload : bytes)
    : SM (Conn S) (option EstablishedSession) :=
  do! (epoch, retry_pending) := sm_lift (decode_wrap_ack payload) in
  if retry_pending : bool then
    do! _ := link_write (λ io, discard_candidate io (doc_peer_id peer)) in
    sm_ret None
  else
    do! candidate := link_keys (candidate_session (doc_peer_id peer)) in
    check! bool_decide (ps_epoch candidate = epoch)
      else State "WrapAck epoch does not match admission candidate" in
    do! established := established peer candidate in
    sm_ret (Some established).

Definition finish_candidate_frame (peer : IdentityDocument) (frame : Frame)
    : SM (Conn S) (option EstablishedSession) :=
  if bool_decide (fr_kind frame = WRAP_KIND) then
    do! incoming := sm_lift (decode_wrap (fr_payload frame)) in
    take_candidate_wrap peer incoming
  else if bool_decide (fr_kind frame = WRAP_ACK_KIND) then take_candidate_ack peer (fr_payload frame)
  else sm_err (State "unexpected frame during candidate handshake").

Definition finish_candidate (peer : IdentityDocument) (local_epoch remote_epoch : Epoch)
    : SM (Conn S) EstablishedSession :=
  do! confirmed := link_keys (current_session (doc_peer_id peer)) in
  let confirmed_epoch := ps_epoch confirmed in
  do! cached := link_keys (cached_candidate (doc_peer_id peer)) in
  do! local_id := link_keys ks_peer in
  do! _ :=
    match cached with
    | Some (initiator, cached) =>
        if bool_decide (initiator = local_id) then
          do! message := link_keys (retry cached) in
          send_wrap message
        else sm_ret tt
    | None =>
        if ltb local_id (doc_peer_id peer)
           || ((u64_N confirmed_epoch <? u64_N local_epoch) && (u64_N remote_epoch <=? u64_N local_epoch))
        then
          do! epoch := link_keys (next_epoch (doc_peer_id peer)) in
          do! created := link_create (λ input, create_candidate input (doc_peer_id peer) (doc_ek peer) epoch) in
          send_wrap created.2
        else sm_ret tt
    end in
  read_loop (finish_candidate_frame peer).

Definition rotation_refused : Error := State "active pair cannot rotate during another Join".

Definition finish_preserved (peer : IdentityDocument) (local_epoch remote_epoch : Epoch)
    : SM (Conn S) EstablishedSession :=
  do! session := link_keys (current_session (doc_peer_id peer)) in
  if negb (bool_decide (local_epoch = ps_epoch session)) || negb (bool_decide (remote_epoch = ps_epoch session))
  then finish_candidate peer local_epoch remote_epoch
  else
    do! found := link_keys (cached_pair (doc_peer_id peer)) in
    do! (initiator, cached) := sm_lift (ok_or found (State "active pair has no cached wrap")) in
    do! local_id := link_keys ks_peer in
    let local_initiated := bool_decide (initiator = local_id) in
    do! _ := (if local_initiated
              then do! message := link_keys (retry cached) in send_wrap message
              else sm_ret tt) in
    do! frame := read_link in
    do! _ :=
      (if bool_decide (fr_kind frame = WRAP_KIND) && negb local_initiated then
         do! incoming := sm_lift (decode_wrap (fr_payload frame)) in
         check! bool_decide (incoming = cached) else rotation_refused in
         do! opened := link_write (λ io, unwrap io (doc_peer_id peer) incoming) in
         check! bool_decide (ps_epoch opened = ps_epoch session) else rotation_refused in
         send_ack (ps_epoch session) false
       else if bool_decide (fr_kind frame = WRAP_ACK_KIND) && local_initiated then
         do! (epoch, retry_pending) := sm_lift (decode_wrap_ack (fr_payload frame)) in
         check! negb retry_pending && bool_decide (epoch = ps_epoch session) else rotation_refused in
         sm_ret tt
       else sm_err rotation_refused) in
    established peer session.

(** ** The handshake *)

Definition expected_matches (expected : option DirectoryAd) (peer : IdentityDocument) : bool :=
  match expected with
  | Some ad => bool_decide (ad_peer_id ad = doc_peer_id peer) && bool_decide (ad_ek ad = doc_ek peer)
               && bool_decide (ad_vk ad = doc_vk peer)
  | None => true
  end.

Definition establish_guarded (expected : option DirectoryAd)
    (preserve_existing : PeerId → SM (Conn S) bool) : SM (Conn S) EstablishedSession :=
  do! local := link_keys ks_identity in
  do! identity := sm_lift (let? payload := encode_identity local in Frame_new IDENTITY_KIND payload) in
  do! _ := write_link identity in
  do! peer_frame := read_link in
  do! _ := sm_lift (require_kind peer_frame IDENTITY_KIND) in
  do! peer := sm_lift (decode_identity (fr_payload peer_frame)) in
  do! _ := sm_lift (verify_identity peer) in
  check! expected_matches expected peer else AuthenticationFailed in
  let id := doc_peer_id peer in
  do! _ := progress_update (λ p, mkHandshakeProgress (Some id) (hp_wrap_acknowledged p) (hp_had_pair p)) in
  do! current := link_is_ok (current_session id) in
  do! had_pair := (if current then sm_ret true
                   else do! cached := link_keys (cached_pair id) in
                        sm_ret (bool_decide (is_Some cached))) in
  do! _ := progress_update (λ p, mkHandshakeProgress (hp_peer_id p) (hp_wrap_acknowledged p) had_pair) in
  do! preserve := preserve_existing id in
  do! _ :=
    (if preserve then
       do! known := link_keys (load_verified_peer id) in
       check! bool_decide (known = peer) && had_pair else AuthenticationFailed in
       sm_ret tt
     else
       do! io := link_draw oc_write in
       link_create (λ input, import_peer io input peer)) in
  do! local_epoch := link_keys (peer_epoch id) in
  do! hint := sm_lift (Frame_new EPOCH_HINT_KIND (epoch_hint_m (doc_peer_id local) local_epoch)) in
  do! _ := write_link hint in
  do! hint_frame := read_link in
  do! _ := sm_lift (require_kind hint_frame EPOCH_HINT_KIND) in
  do! (hint_peer, remote_epoch) := sm_lift (decode_epoch_hint (fr_payload hint_frame)) in
  check! bool_decide (hint_peer = id) else AuthenticationFailed in
  if preserve : bool then finish_preserved peer local_epoch remote_epoch
  else
    do! message := initial_wrap local peer local_epoch remote_epoch in
    do! _ := match message with
             | Some message => send_wrap message
             | None => sm_ret tt
             end in
    finish_wrap peer.

Definition establish (expected : option DirectoryAd) : SM (Conn S) EstablishedSession :=
  establish_guarded expected (λ _, sm_ret false).

(** ** Packets of a session *)

Definition seal_packet_with_session (session : PairSession) (plaintext : bytes)
    : SM StoreInner ControlPacket :=
  do! local := ks_peer in
  do! n := next_outbound_seq (ps_key_handle session) Packet in
  let header := mkPacketHeader PROTOCOL_VERSION local (KeyStore.ps_peer_id session)
                  (KeyStore.ps_epoch session) n in
  do! ciphertext := seal (ps_key_handle session) (nonce header Packet) (packet_aad header) plaintext in
  sm_ret (mkControlPacket header ciphertext).

Definition session_seal_packet (peer : PeerId) (plaintext : bytes) : SM StoreInner ControlPacket :=
  do! session := current_session peer in
  seal_packet_with_session session plaintext.

Definition open_packet_with_session (session : PairSession) (packet : ControlPacket)
    : SM StoreInner bytes :=
  open (ps_key_handle session) (nonce (cp_header packet) Packet) (packet_aad (cp_header packet))
    (cp_ciphertext packet).

Definition session_open_packet (peer : PeerId) (packet : ControlPacket) : SM StoreInner bytes :=
  do! session := current_session peer in
  open_packet_with_session session packet.
End session.
