(* ===== verification/SessionInv.v ===== *)
(** * What a handshake keeps

    The key store's invariant through a handshake with any peer, and what the preserving handshake
    leaves alone. *)
From S2P Require Export Session.
From Stdlib Require Import Lia ZifyN ZifyNat.

Open Scope N_scope.

(** One step of a task whose calls keep what they should. *)
Ltac link_step :=
  lazymatch goal with
  | |- link_keeps ?R (sm_bind _ _) => apply (link_keeps_bind R); [|intros ?]
  | |- link_keeps ?R (sm_ret _) => apply (link_keeps_ret R)
  | |- link_keeps ?R (sm_err _) => apply (link_keeps_err R)
  | |- link_keeps ?R (sm_lift _) => apply (link_keeps_lift R)
  | |- link_keeps ?R (sm_attempt _) => apply (link_keeps_attempt R)
  | |- link_keeps ?R (progress_update _) => apply (link_keeps_progress R)
  | |- link_keeps ?R read_link => apply (link_keeps_read R)
  | |- link_keeps ?R (write_link _) => apply (link_keeps_write R)
  | |- link_keeps ?R (read_loop _) => apply (link_keeps_loop R); intros ?
  | |- link_keeps ?R (link_keys _) => apply (link_keeps_keys _ R)
  | |- link_keeps ?R (link_draw _) => apply (link_keeps_draw _ R)
  | |- link_keeps ?R (link_is_ok _) => apply (link_keeps_is_ok _ R)
  | |- link_keeps ?R (link_write _) => apply (link_keeps_stored _ R); intros ?
  | |- link_keeps ?R (link_create _) => apply (link_keeps_created _ R); intros ?
  | |- link_keeps _ (match ?x with _ => _ end) => destruct x
  | |- stays ?T (query _) => apply (stays_query T)
  | |- stays ?T (current_session _) => apply (stays_query T)
  | |- stays ?T (candidate_session _) => apply (stays_query T)
  | |- stays ?T (cached_pair _) => apply (stays_query T)
  | |- stays ?T (cached_candidate _) => apply (stays_query T)
  | |- stays ?T (retry_epoch _) => apply (stays_query T)
  | |- stays ?T (candidate_retry_epoch _) => apply (stays_query T)
  | |- stays ?T (next_epoch _) => apply (stays_query T)
  | |- stays ?T (peer_epoch _) => apply (stays_query T)
  | |- stays ?T ks_peer => apply (stays_query T)
  | |- stays ?T ks_identity => apply (stays_query T)
  | |- stays ?T (load_verified_peer _) => apply (stays_query T)
  end.
Create HintDb link discriminated.
#[export] Hint Constants Opaque : link.
#[export] Hint Extern 0 (stays ?T (retry _)) => apply (stays_retry T) : link.
Ltac link_keep := repeat link_step; auto with link nocore.

Section session.
Context `{Sha256, MlDsa65, XWing, AesGcm, HkdfSha256, Oracle, SocketAddrs}.
Context {S : Type} `{!Keyed S}.
Context (T : relation StoreInner) (R : relation S) `{!KeyRelation T R}.

(** The calls of the plain handshake, and of the one with a candidate. *)
Class PlainCalls (peer : PeerId) : Prop := {
  pc_create input ek epoch : stays T (create input peer ek epoch);
  pc_unwrap io message : stays T (unwrap io peer message);
  pc_observe io epoch : stays T (observe_remote_epoch io peer epoch);
  pc_retry input : stays T (retry_collision input peer);
}.
Class CandidateCalls (peer : PeerId) : Prop := {
  cc_create input ek epoch : stays T (create_candidate input peer ek epoch);
  cc_unwrap io message : stays T (unwrap_candidate io peer message);
  cc_discard io : stays T (discard_candidate io peer);
  cc_retry io input : stays T (retry_candidate_collision io input peer);
}.
#[local] Hint Resolve pc_create pc_unwrap pc_observe pc_retry cc_create cc_unwrap cc_discard cc_retry : link.

Lemma send_wrap_keeps message : link_keeps R (send_wrap message).
Proof. unfold send_wrap. link_keep. Qed.
#[local] Hint Resolve send_wrap_keeps : link.
Lemma send_ack_keeps epoch pending : link_keeps R (send_ack epoch pending).
Proof. unfold send_ack. link_keep. Qed.
#[local] Hint Resolve send_ack_keeps : link.
Lemma established_keeps peer session : link_keeps R (established peer session).
Proof. unfold established. link_keep. Qed.
#[local] Hint Resolve established_keeps : link.

Lemma take_ack_keeps peer payload : link_keeps R (take_ack peer payload).
Proof. unfold take_ack. link_keep. Qed.
#[local] Hint Resolve take_ack_keeps : link.

Section plain.
Context (peer : IdentityDocument) `{!PlainCalls (doc_peer_id peer)}.

Lemma initial_wrap_keeps local local_epoch remote_epoch :
  link_keeps R (initial_wrap local peer local_epoch remote_epoch).
Proof. unfold initial_wrap. link_keep. Qed.
#[local] Hint Resolve initial_wrap_keeps : link.

Lemma prepare_floor_keeps message : link_keeps R (prepare_incoming_floor peer message).
Proof. unfold prepare_incoming_floor. link_keep. Qed.
#[local] Hint Resolve prepare_floor_keeps : link.

Lemma take_wrap_keeps message : link_keeps R (take_wrap peer message).
Proof. unfold take_wrap. link_keep. Qed.
#[local] Hint Resolve take_wrap_keeps : link.

Lemma finish_wrap_frame_keeps frame : link_keeps R (finish_wrap_frame peer frame).
Proof. unfold finish_wrap_frame. link_keep. Qed.
#[local] Hint Resolve finish_wrap_frame_keeps : link.

Lemma finish_wrap_keeps : link_keeps R (finish_wrap peer).
Proof. unfold finish_wrap. link_keep. Qed.
#[local] Hint Resolve finish_wrap_keeps : link.
End plain.

Section candidate.
Context (peer : IdentityDocument) `{!CandidateCalls (doc_peer_id peer)}.

Lemma take_candidate_wrap_keeps message : link_keeps R (take_candidate_wrap peer message).
Proof. unfold take_candidate_wrap. link_keep. Qed.
#[local] Hint Resolve take_candidate_wrap_keeps : link.

Lemma take_candidate_ack_keeps payload : link_keeps R (take_candidate_ack peer payload).
Proof. unfold take_candidate_ack. link_keep. Qed.
#[local] Hint Resolve take_candidate_ack_keeps : link.

Lemma finish_candidate_frame_keeps frame : link_keeps R (finish_candidate_frame peer frame).
Proof. unfold finish_candidate_frame. link_keep. Qed.
#[local] Hint Resolve finish_candidate_frame_keeps : link.

Lemma finish_candidate_keeps local_epoch remote_epoch :
  link_keeps R (finish_candidate peer local_epoch remote_epoch).
Proof. unfold finish_candidate. link_keep. Qed.
#[local] Hint Resolve finish_candidate_keeps : link.
End candidate.

Lemma finish_preserved_keeps peer `{!PlainCalls (doc_peer_id peer), !CandidateCalls (doc_peer_id peer)}
    local_epoch remote_epoch :
  link_keeps R (finish_preserved peer local_epoch remote_epoch).
Proof. unfold finish_preserved. link_keep. by apply (finish_candidate_keeps peer). Qed.
End session.

#[export] Hint Extern 0 (link_keeps ?R (send_wrap _)) => apply (send_wrap_keeps _ R) : link.
#[export] Hint Extern 0 (link_keeps ?R (send_ack _ _)) => apply (send_ack_keeps _ R) : link.
#[export] Hint Extern 0 (link_keeps ?R (established _ _)) => apply (established_keeps _ R) : link.
#[export] Hint Extern 0 (link_keeps ?R (take_ack _ _)) => apply (take_ack_keeps _ R) : link.
#[export] Hint Extern 0 (link_keeps ?R (initial_wrap _ _ _ _)) => apply (initial_wrap_keeps _ R _ _ _ _) : link.
#[export] Hint Extern 0 (link_keeps ?R (prepare_incoming_floor _ _)) => apply (prepare_floor_keeps _ R _ _) : link.
#[export] Hint Extern 0 (link_keeps ?R (take_wrap _ _)) => apply (take_wrap_keeps _ R _ _) : link.
#[export] Hint Extern 0 (link_keeps ?R (finish_wrap_frame _ _)) => apply (finish_wrap_frame_keeps _ R _ _) : link.
#[export] Hint Extern 0 (link_keeps ?R (finish_wrap _)) => apply (finish_wrap_keeps _ R _) : link.
#[export] Hint Extern 0 (link_keeps ?R (take_candidate_wrap _ _)) => apply (take_candidate_wrap_keeps _ R _ _) : link.
#[export] Hint Extern 0 (link_keeps ?R (take_candidate_ack _ _)) => apply (take_candidate_ack_keeps _ R _ _) : link.
#[export] Hint Extern 0 (link_keeps ?R (finish_candidate_frame _ _)) => apply (finish_candidate_frame_keeps _ R _ _) : link.
#[export] Hint Extern 0 (link_keeps ?R (finish_candidate _ _ _)) => apply (finish_candidate_keeps _ R _ _ _) : link.
#[export] Hint Extern 0 (link_keeps ?R (finish_preserved _ _ _)) => apply (finish_preserved_keeps _ R _ _ _) : link.

(** ** What a handshake returns *)

Section agreed.
Context `{Sha256, MlDsa65, XWing, AesGcm, HkdfSha256, Oracle, SocketAddrs}.
Context {S : Type} `{!Keyed S}.
Implicit Types l : Conn S.

(** Nothing is asked of the shared state. *)
Definition any {A : Type} : relation A := λ _ _, True.

#[export] Instance any_relation : KeyRelation (any (A := StoreInner)) (any (A := S)).
Proof. split; try done; by split. Qed.

Lemma stays_any {A} (m : SM StoreInner A) : stays any m.
Proof. intros s. apply wp_any. Qed.
#[local] Hint Resolve stays_any : link.

#[export] Instance any_plain peer : PlainCalls any peer.
Proof. split; intros; apply stays_any. Qed.
#[export] Instance any_candidate peer : CandidateCalls any peer.
Proof. split; intros; apply stays_any. Qed.

Lemma turns_any l : turns any l.
Proof. by split. Qed.

(** One more step of a run that began at [l0]. *)
Lemma moves_wp {A} (m : SM (Conn S) A) (Q : A → Conn S → Prop) (E : Conn S → Prop) l0 l :
  link_keeps any m → moved l0 l → (∀ x l', moved l0 l' → Q x l') → (∀ l', moved l0 l' → E l') → wp m Q E l.
Proof.
  intros Hm Hl HQ HE. eapply wp_mono; [apply Hm, turns_any| |]; cbn beta.
  - intros x l' [Hl' _]. apply HQ. by etransitivity.
  - intros l' [Hl' _]. apply HE. by etransitivity.
Qed.

Definition received l (frame : Frame) : Prop := ∃ turn, (turn, Ok frame) ∈ lk_incoming l.

(** The epoch was acknowledged: this end sent the acknowledgement last, or one arrived. *)
Definition acknowledged l l' (epoch : Epoch) : Prop :=
  (∃ frame, Frame_new WRAP_ACK_KIND (encode_wrap_ack epoch false) = Ok frame ∧ last (lk_sent l') = Some frame)
  ∨ ∃ frame, received l frame ∧ fr_kind frame = WRAP_ACK_KIND
      ∧ decode_wrap_ack (fr_payload frame) = Ok (epoch, false).

Record agreed (peer : IdentityDocument) l (e : EstablishedSession) l' : Prop := {
  ag_peer : es_peer e = peer;
  ag_session : KeyStore.ps_peer_id (es_session e) = doc_peer_id peer;
  ag_acknowledged : acknowledged l l' (KeyStore.ps_epoch (es_session e));
  ag_progress : hp_wrap_acknowledged (lc_progress (lk_locals l')) = true;
}.

Lemma established_wp peer session l (Q : EstablishedSession → Conn S → Prop) E l1 :
  KeyStore.ps_peer_id session = doc_peer_id peer → acknowledged l l1 (KeyStore.ps_epoch session) →
  (∀ e l', agreed peer l e l' → Q e l') → wp (established peer session) Q E l1.
Proof. intros Hs Ha HQ. unfold established. by apply HQ. Qed.

Lemma send_ack_wp epoch l l1 (Q : unit → Conn S → Prop) E :
  (∀ l', acknowledged l l' epoch → Q tt l') → (∀ l', E l') → wp (send_ack epoch false) Q E l1.
Proof.
  intros HQ HE. unfold send_ack. apply wp_bind, wp_lift; [intros frame Hf|done].
  unfold wp, write_link, try_write_link, sm_bind, sm_attempt, sm_lift.
  destruct (write_frame frame); [|apply HE]. destruct (lk_writes l1) as [|[turn [[[]|]|]] rest]; try apply HE.
  apply HQ. left. exists frame. split; [done|]. cbn. apply last_snoc.
Qed.

(** ** Sessions belong to the peer *)

Lemma inner_session_peer s peer epoch session :
  inner_session s peer epoch = Ok session → KeyStore.ps_peer_id session = peer.
Proof. unfold inner_session. destruct (find_slot _ _ _); [|done]. by intros [= <-]. Qed.

Lemma unwrap_session io peer message candidate s :
  wp (unwrap_inner io peer message candidate) (λ x _, KeyStore.ps_peer_id x = peer) (λ _, True) s.
Proof.
  unfold unwrap_inner, install, install_candidate, take_slot. tested; try done; by eapply inner_session_peer.
Qed.

Lemma current_session_peer peer s :
  wp (current_session peer) (λ x _, KeyStore.ps_peer_id x = peer) (λ _, True) s.
Proof.
  apply wp_query; [|done]. intros x. destruct (si_pairs s !! peer); [|done]. apply inner_session_peer.
Qed.

Lemma candidate_session_peer peer s :
  wp (candidate_session peer) (λ x _, KeyStore.ps_peer_id x = peer) (λ _, True) s.
Proof.
  apply wp_query; [|done]. intros x. destruct (si_candidates s !! peer); [|done]. apply inner_session_peer.
Qed.

Lemma wp_link_keys {A} (m : SM StoreInner A) (P : A → Prop) (Q : A → Conn S → Prop) (E : Conn S → Prop) l0 l :
  (∀ s, wp m (λ x _, P x) (λ _, True) s) → moved l0 l →
  (∀ x l', P x → moved l0 l' → Q x l') → (∀ l', moved l0 l' → E l') → wp (link_keys m) Q E l.
Proof.
  intros Hm Hl HQ HE. apply wp_zoom. eapply wp_mono; [apply Hm| |]; cbn beta.
  - intros x k Hx. apply HQ; [done|]. etransitivity; [exact Hl|by split].
  - intros k _. apply HE. etransitivity; [exact Hl|by split].
Qed.

Lemma wp_link_write {A} (m : WriteOutcome → SM StoreInner A) (P : A → Prop) (Q : A → Conn S → Prop) (E : Conn S → Prop) l0 l :
  (∀ io s, wp (m io) (λ x _, P x) (λ _, True) s) → moved l0 l →
  (∀ x l', P x → moved l0 l' → Q x l') → (∀ l', moved l0 l' → E l') → wp (link_write m) Q E l.
Proof.
  intros Hm Hl HQ HE. apply wp_bind. apply (moves_wp _ _ _ l0); [apply (link_keeps_draw any any)|done| |exact HE].
  intros io l1 Hl1. by eapply wp_link_keys.
Qed.

(** ** The functions of the handshake *)

(** A frame read on the way is one of those that were to come. *)
Lemma read_wp l l1 (Q : Frame → Conn S → Prop) (E : Conn S → Prop) :
  moved l l1 → (∀ frame l', received l frame → moved l l' → Q frame l') → (∀ l', E l') → wp read_link Q E l1.
Proof.
  intros Hl HQ HE. unfold wp, read_link. destruct (lk_incoming l1) as [|[turn r] rest] eqn:Hin; [apply HE|].
  destruct r as [frame|]; [|apply HE]. apply HQ.
  - exists turn. eapply elem_of_suffix; [|apply (mv_incoming _ _ Hl)]. rewrite Hin. by left.
  - etransitivity; [exact Hl|]. split; cbn; [rewrite Hin; by exists [(turn, Ok frame)]|done..].
Qed.

(** One step of a task that moves on; [l0] is where the run began. *)
Ltac moves_step l0 :=
  cbn beta;
  lazymatch goal with
  | |- ∀ _, _ => intros ?
  | |- wp (sm_bind _ _) _ _ _ => apply wp_bind
  | |- wp (sm_ret _) _ _ _ => apply wp_ret
  | |- wp (sm_err _) _ _ _ => apply wp_err
  | |- wp (sm_lift _) _ _ _ => apply wp_lift; [intros ? ?|intros _]
  | |- wp (match ?x with _ => _ end) _ _ _ => destruct x eqn:?
  | |- wp (sm_attempt _) _ _ _ => apply wp_attempt
  | |- wp (link_keys (current_session _)) _ _ _ =>
      eapply (wp_link_keys _ _ _ _ l0); [apply current_session_peer|eassumption|intros ? ? ? ?|intros ? ?]
  | |- wp (link_keys (candidate_session _)) _ _ _ =>
      eapply (wp_link_keys _ _ _ _ l0); [apply candidate_session_peer|eassumption|intros ? ? ? ?|intros ? ?]
  | |- wp (link_write (λ io, unwrap io _ _)) _ _ _ =>
      eapply (wp_link_write _ _ _ _ l0); [intros ? ?; apply unwrap_session|eassumption|intros ? ? ? ?|intros ? ?]
  | |- wp (link_write (λ io, unwrap_candidate io _ _)) _ _ _ =>
      eapply (wp_link_write _ _ _ _ l0); [intros ? ?; apply unwrap_session|eassumption|intros ? ? ? ?|intros ? ?]
  | |- wp read_link _ _ _ => apply (read_wp l0); [eassumption|intros ? ? ? ?|intros ?]
  | |- wp (send_ack _ false) _ _ _ => apply (send_ack_wp _ l0); [intros ? ?|intros ?]
  | |- wp (established _ _) _ _ _ => eapply (established_wp _ _ l0); [try done|try done|intros ? ? ?]
  | |- wp _ _ _ _ => apply (moves_wp _ _ _ l0); [by link_keep|eassumption|intros ? ? ?|intros ? ?]
  end.
Ltac moves_along l0 := repeat moves_step l0; try done.

(** What a frame of a handshake from [l] leads to. *)
Definition goes_on (peer : IdentityDocument) l (r : option EstablishedSession) l' : Prop :=
  match r with Some e => agreed peer l e l' | None => moved l l' end.

Lemma take_ack_wp peer frame l l1 :
  moved l l1 → received l frame → fr_kind frame = WRAP_ACK_KIND →
  wp (take_ack peer (fr_payload frame)) (goes_on peer l) (λ _, True) l1.
Proof.
  intros Hl Hr Hk. unfold take_ack. moves_along l.
  right. exists frame. match goal with Hb : bool_decide _ = true |- _ => apply bool_decide_eq_true in Hb as -> end.
  by simplify_eq.
Qed.

Lemma take_wrap_wp peer message l l1 :
  moved l l1 → wp (take_wrap peer message) (goes_on peer l) (λ _, True) l1.
Proof. intros Hl. unfold take_wrap. moves_along l. Qed.

Lemma take_candidate_wrap_wp peer message l l1 :
  moved l l1 → wp (take_candidate_wrap peer message) (goes_on peer l) (λ _, True) l1.
Proof. intros Hl. unfold take_candidate_wrap. moves_along l. Qed.

Lemma take_candidate_ack_wp peer frame l l1 :
  moved l l1 → received l frame → fr_kind frame = WRAP_ACK_KIND →
  wp (take_candidate_ack peer (fr_payload frame)) (goes_on peer l) (λ _, True) l1.
Proof.
  intros Hl Hr Hk. unfold take_candidate_ack. moves_along l.
  right. exists frame. match goal with Hb : bool_decide _ = true |- _ => apply bool_decide_eq_true in Hb as -> end.
  by simplify_eq.
Qed.

Lemma read_loop_wp {A} (body : Frame → SM (Conn S) (option A)) (Q : A → Conn S → Prop) l l1 :
  moved l l1 →
  (∀ frame l', received l frame → moved l l' →
     wp (body frame) (λ r l', match r with Some x => Q x l' | None => moved l l' end) (λ _, True) l') →
  wp (read_loop body) Q (λ _, True) l1.
Proof.
  intros Hl Hbody. unfold wp, read_loop.
  change (wp (read_loop_fuel (length (lk_incoming l1)) body) Q (λ _, True) l1).
  generalize (length (lk_incoming l1)). intros fuel. revert l1 Hl.
  induction fuel as [|fuel IH]; intros l1 Hl; cbn [read_loop_fuel]; [done|].
  apply wp_bind, (read_wp l); [done| |done]. intros frame l2 Hr Hl2.
  apply wp_bind. eapply wp_mono; [by apply Hbody| |done]. cbn beta.
  intros [x|] l3 Hx; [done|by apply IH].
Qed.

Lemma finish_wrap_frame_wp peer frame l l1 :
  moved l l1 → received l frame → wp (finish_wrap_frame peer frame) (goes_on peer l) (λ _, True) l1.
Proof.
  intros Hl Hr. unfold finish_wrap_frame. case_bool_decide as Hk; [|case_bool_decide as Hk'; [|done]].
  - apply wp_bind, wp_lift; [intros message _|done]. by apply take_wrap_wp.
  - by apply take_ack_wp.
Qed.

Lemma finish_candidate_frame_wp peer frame l l1 :
  moved l l1 → received l frame → wp (finish_candidate_frame peer frame) (goes_on peer l) (λ _, True) l1.
Proof.
  intros Hl Hr. unfold finish_candidate_frame. case_bool_decide as Hk; [|case_bool_decide as Hk'; [|done]].
  - apply wp_bind, wp_lift; [intros message _|done]. by apply take_candidate_wrap_wp.
  - by apply take_candidate_ack_wp.
Qed.

Lemma finish_wrap_wp peer l l1 : moved l l1 → wp (finish_wrap peer) (λ e, agreed peer l e) (λ _, True) l1.
Proof.
  intros Hl. apply (read_loop_wp _ _ l); [done|]. intros frame l2 Hr Hl2. by apply finish_wrap_frame_wp.
Qed.

Lemma finish_candidate_wp peer local_epoch remote_epoch l l1 :
  moved l l1 → wp (finish_candidate peer local_epoch remote_epoch) (λ e, agreed peer l e) (λ _, True) l1.
Proof.
  intros Hl. unfold finish_candidate.
  assert (Hloop : ∀ l2, moved l l2 →
    wp (read_loop (finish_candidate_frame peer)) (λ e, agreed peer l e) (λ _, True) l2).
  { intros l2 Hl2. apply (read_loop_wp _ _ l); [done|]. intros. by apply finish_candidate_frame_wp. }
  do 6 (moves_step l; try done). apply wp_bind. apply (moves_wp _ _ _ l); [by link_keep|done| |done].
  intros _ l2 Hl2. by apply Hloop.
Qed.

Lemma finish_preserved_wp peer local_epoch remote_epoch l l1 :
  moved l l1 → wp (finish_preserved peer local_epoch remote_epoch) (λ e, agreed peer l e) (λ _, True) l1.
Proof.
  intros Hl. unfold finish_preserved. do 2 (moves_step l; try done).
  apply wp_if; intros _; [by apply finish_candidate_wp|].
  moves_along l;
    match goal with Hb : bool_decide (fr_kind ?frame = WRAP_ACK_KIND) && _ = true |- _ =>
      apply andb_true_iff in Hb as [Hk%bool_decide_eq_true Hinit]; try done;
      right; exists frame; do 2 (split; [done|]) end.
  match goal with Hb : negb ?b && bool_decide (?u = _) = true |- _ =>
    apply andb_true_iff in Hb as [->%negb_true_iff <-%bool_decide_eq_true] end. by simplify_eq.
Qed.

(** ** The handshake *)

(** A document the peer may present. *)
Definition presented l (d : IdentityDocument) : Prop :=
  ∃ frame, received l frame ∧ decode_identity (fr_payload frame) = Ok d.

(** The document of the advertised principal, under the advertised keys. *)
Definition expected_document (expected : option DirectoryAd) (d : IdentityDocument) : Prop :=
  ∀ ad, expected = Some ad → ad_peer_id ad = doc_peer_id d ∧ ad_ek ad = doc_ek d ∧ ad_vk ad = doc_vk d.

Lemma expected_matches_true expected d : expected_matches expected d = true → expected_document expected d.
Proof.
  intros Hm ad ->. cbn in Hm. apply andb_true_iff in Hm as [[?%bool_decide_eq_true ?%bool_decide_eq_true]%andb_true_iff ?%bool_decide_eq_true].
  done.
Qed.

(** What is known of the document a handshake returned. *)
Record vouched (expected : option DirectoryAd) l (d : IdentityDocument) : Prop := {
  vo_verified : verify_identity d = Ok tt;
  vo_expected : expected_document expected d;
  vo_presented : presented l d;
}.

Lemma establish_agreed expected preserve l :
  (∀ id, link_keeps any (preserve id)) →
  wp (establish_guarded expected preserve)
    (λ e l', vouched expected l (es_peer e) ∧ agreed (es_peer e) l e l') (λ _, True) l.
Proof.
  intros Hpre. unfold establish_guarded. pose proof (reflexivity l : moved l l) as Hl.
  do 6 (moves_step l; try done).
  apply wp_bind, (read_wp l); [done| |done]. intros frame l1 Hr Hl1.
  do 6 (moves_step l; try done). apply wp_if; [intros Hexp|done].
  match goal with Hd : decode_identity _ = Ok ?p, Hv : verify_identity _ = Ok ?u |- _ =>
    rename p into peer; destruct u;
    assert (Hvouched : vouched expected l peer) by (split; [done|by apply expected_matches_true|by exists frame]) end.
  match goal with |- wp ?m _ _ _ => enough (Hm : wp m (λ e, agreed peer l e) (λ _, True) l1) end.
  { eapply wp_mono; [exact Hm| |done]. cbn beta. intros e l2 Ha. by rewrite (ag_peer _ _ _ _ Ha). }
  do 4 (apply wp_bind; apply (moves_wp _ _ _ l); [by link_keep|done| |done]; intros ? ? ?).
  apply wp_bind, (moves_wp _ _ _ l); [apply Hpre|done| |done]. intros preserved l2 Hl2.
  do 2 (apply wp_bind; apply (moves_wp _ _ _ l); [by link_keep|done| |done]; intros ? ? ?).
  do 11 (moves_step l; try done). apply wp_if; intros _; [|done]. apply wp_if; intros _.
  - by apply finish_preserved_wp.
  - do 2 (apply wp_bind; apply (moves_wp _ _ _ l); [by link_keep|done| |done]; intros ? ? ?).
    by apply finish_wrap_wp.
Qed.
End agreed.

(** ** The invariant through a handshake *)

Section keeps.
Context `{Sha256, MlDsa65, XWing, AesGcm, HkdfSha256, Oracle, SocketAddrs, Past}.
Context {S : Type} `{!Keyed S, !KeyedLaws S}.
Implicit Types l : Conn S.

(** The identity documents that occur; no two of them collide. *)
Definition collision_free_documents (known : IdentityDocument → Prop) : Prop :=
  ∀ d d', known d → known d' → doc_peer_id d = doc_peer_id d' → doc_vk d = doc_vk d'.

Definition store_ok (known : IdentityDocument → Prop) (s : StoreInner) : Prop :=
  inv s ∧ ∀ p d, si_peers s !! p = Some d → known d.

Definition keeps_store (known : IdentityDocument → Prop) (s s' : StoreInner) : Prop :=
  store_ok known s → store_ok known s' ∧ local_id s' = local_id s.

#[export] Instance keeps_store_preorder known : PreOrder (keeps_store known).
Proof.
  split; [by intros s|]. intros a b c Hab Hbc Ha. destruct (Hab Ha) as [Hb E1], (Hbc Hb) as [Hc E2].
  split; [done|congruence].
Qed.

Lemma stays_store {A} known (m : SM StoreInner A) :
  (∀ s, inv s → wp m (λ _, inv) inv s) → stays same_peers m → stays (keeps_store known) m.
Proof.
  intros Hi Hp s. specialize (Hi s). specialize (Hp s). unfold wp, keeps_store, same_peers in *.
  destruct (m s) as [[x|e] s']; intros [Hs Hk]; destruct Hp as [Hps Hl]; (split; [|done]); split;
    [by apply Hi|by rewrite Hps|by apply Hi|by rewrite Hps].
Qed.

Lemma import_store known io input document :
  collision_free_documents known → known document →
  stays (keeps_store known) (import_peer io input document).
Proof.
  intros Hfree Hd s. pose proof (import_peer_wp io input document s) as Hi.
  pose proof (import_peers io input document s) as Hp. unfold wp, keeps_store in *.
  assert (Hn : store_ok known s → no_vk_collision s document).
  { intros [Hs Hk] q Hq _. apply Hfree; [by eapply Hk|done|].
    by apply (ci_peers s (inv_core s Hs)) in Hq as [-> _]. }
  assert (Hins : ∀ s', store_ok known s →
    si_peers s' = <[doc_peer_id document := document]> (si_peers s) →
    ∀ p d, si_peers s' !! p = Some d → known d).
  { intros s' [_ Hk] -> p d [[_ <-]|[_ ?]]%lookup_insert_Some; [done|by eapply Hk]. }
  destruct (import_peer io input document s) as [[x|e] s']; intros Hs.
  - destruct Hp as [Hp Hl]. split; [|done]. split; [by apply Hi; [apply Hn|apply Hs]|by apply Hins].
  - destruct Hp as [Hp Hl]. split; [|done]. split; [by apply Hi; [apply Hn|apply Hs]|].
    destruct Hp as [Hp| ->]; [by apply Hins|apply Hs].
Qed.

#[export] Instance store_plain known peer : PlainCalls (keeps_store known) peer.
Proof.
  split; intros; apply stays_store.
  - intros s Hs. by apply create_inv.
  - apply create_peers.
  - intros s Hs. eapply wp_mono; [by apply unwrap_inner_wp|by intros x s' []|done].
  - apply unwrap_peers.
  - intros s Hs. by apply observe_wp.
  - apply observe_peers.
  - intros s Hs. by apply retry_collision_wp.
  - apply retry_collision_peers.
Qed.

#[export] Instance store_candidate known peer : CandidateCalls (keeps_store known) peer.
Proof.
  split; intros; apply stays_store.
  - intros s Hs. by apply create_inv.
  - apply create_peers.
  - intros s Hs. eapply wp_mono; [by apply unwrap_inner_wp|by intros x s' []|done].
  - apply unwrap_peers.
  - intros s Hs. by apply discard_candidate_wp.
  - apply discard_candidate_peers.
  - intros s Hs. by apply retry_candidate_collision_wp.
  - apply retry_candidate_peers.
Qed.

(** The same of a shared state. *)
Definition keeps_shared (known : IdentityDocument → Prop) (s s' : S) : Prop :=
  keeps_store known (kd_keys s) (kd_keys s').

#[export] Instance keeps_shared_relation known : KeyRelation (keeps_store known) (keeps_shared known).
Proof.
  split; [apply _| |..].
  - split; [intros s; unfold keeps_shared; reflexivity|]. intros a b c Hab Hbc. unfold keeps_shared in *. by etransitivity.
  - intros s k. unfold keeps_shared. by rewrite kd_keys_set.
  - intros s n. unfold keeps_shared. rewrite kd_keys_tick. reflexivity.
Qed.
End keeps.

(** ** The handshake *)

Section handshake.
Context `{Sha256, MlDsa65, XWing, AesGcm, HkdfSha256, Oracle, SocketAddrs}.
Context {S : Type} `{!Keyed S}.
Implicit Types l : Conn S.
Context (T : relation StoreInner) (R : relation S) `{!KeyRelation T R}.

Lemma read_keeps l l1 (Q : Frame → Conn S → Prop) (E : Conn S → Prop) :
  turns R l1 → after R l l1 →
  (∀ frame l', received l frame → turns R l' → after R l l' → Q frame l') → (∀ l', after R l l' → E l') →
  wp read_link Q E l1.
Proof.
  intros Ht [Hl Hr] HQ HE.
  eapply wp_mono; [apply wp_conj; [by apply (link_keeps_read R)|]| |].
  - apply (read_wp l l1 (λ frame l', received l frame) (λ _, True)); [done| |done]. by intros.
  - cbn beta. intros frame l' [Hl' Hf]. apply HQ; [done|by eapply turns_moved; [apply Hl'|]|].
    etransitivity; [by split|exact Hl'].
  - cbn beta. intros l' [Hl' _]. apply HE. etransitivity; [by split|exact Hl'].
Qed.

Lemma establish_keeps expected preserve l :
  (∀ peer, PlainCalls T peer) → (∀ peer, CandidateCalls T peer) →
  (∀ d io input, presented l d → stays T (import_peer io input d)) →
  (∀ id, link_keeps R (preserve id)) → turns R l →
  wp (establish_guarded expected preserve) (λ _, after R l) (after R l) l.
Proof.
  intros HP HC Himport Hpre Ht. unfold establish_guarded.
  apply wp_bind. eapply (link_keeps_wp R); [by link_keep|done|reflexivity| |done]. intros local l1 Ht1 Hl1.
  apply wp_bind, wp_lift; [intros identity _|done].
  apply wp_bind. eapply (link_keeps_wp R); [by link_keep|done|done| |done]. intros _ l2 Ht2 Hl2.
  apply wp_bind, (read_keeps l); [done|done| |done]. intros frame l3 Hf Ht3 Hl3.
  apply wp_bind, wp_lift; [intros _ _|done].
  apply wp_bind, wp_lift; [intros peer Hpeer|done].
  assert (Himp : ∀ io input, stays T (import_peer io input peer)).
  { intros io input. apply Himport. by exists frame. }
  match goal with |- wp ?m _ _ _ => assert (Hm : link_keeps R m) by (link_keep; apply Himp) end.
  eapply (link_keeps_wp R); [exact Hm|done|done|done|done].
Qed.

End handshake.

(** ** Preserving the confirmed pairs *)

Section preserving.
Context `{Sha256, MlDsa65, XWing, AesGcm, HkdfSha256, Oracle, SocketAddrs, Past}.
Context {S : Type} `{!Keyed S, !KeyedLaws S}.
Implicit Types l : Conn S.

(** Every confirmed pair, and what belongs to it, is as it was. *)
Definition keeps_pairs (s s' : S) : Prop := pairs_kept (kd_keys s) (kd_keys s').

#[export] Instance keeps_pairs_relation : KeyRelation pairs_kept keeps_pairs.
Proof.
  split; [apply _| |..].
  - split; [intros s; unfold keeps_pairs; reflexivity|]. intros a b c Hab Hbc. unfold keeps_pairs in *. by etransitivity.
  - intros s k. unfold keeps_pairs. by rewrite kd_keys_set.
  - intros s n. unfold keeps_pairs. rewrite kd_keys_tick. reflexivity.
Qed.

#[export] Instance pairs_kept_calls peer : CandidateCalls pairs_kept peer.
Proof.
  split; intros; apply (stays_kept peer);
    [apply create_candidate_aside|apply unwrap_candidate_aside|apply discard_candidate_aside|apply retry_candidate_aside].
Qed.

Lemma link_query_wp {A} (f : StoreInner → Result A) (Q : A → Conn S → Prop) (E : Conn S → Prop) l :
  (∀ x, f (kd_keys (lk_shared l)) = Ok x → Q x l) → E l → wp (link_keys (query f)) Q E l.
Proof.
  intros HQ HE. assert (Hid : set_lk_shared (kd_set_keys (kd_keys (lk_shared l)) (lk_shared l)) l = l).
  { rewrite kd_set_id. by destruct l. }
  apply wp_zoom, wp_query; rewrite Hid; auto.
Qed.

(** A state from which nothing confirmed is lost. *)
Definition settled (s : S) : Prop := inv (kd_keys s) ∧ ∀ p, parted p (kd_keys s).

Lemma unwrap_again peer q l (Q : PairSession → Conn S → Prop) (E : Conn S → Prop) :
  inv (kd_keys (lk_shared l)) → si_pairs (kd_keys (lk_shared l)) !! peer = Some q →
  pp_initiator q ≠ local_id (kd_keys (lk_shared l)) →
  (∀ x l', after keeps_pairs l l' → Q x l') → (∀ l', after keeps_pairs l l' → E l') →
  wp (link_write (λ io, unwrap io peer (pp_wrap q))) Q E l.
Proof.
  intros Hi Hq Hne HQ HE. apply wp_bind. unfold wp at 1, link_draw.
  apply wp_zoom. cbn [lk_shared set_lk_shared]. rewrite kd_keys_tick.
  assert (Hsame : ∀ n, after keeps_pairs l (set_lk_shared (kd_set_keys (kd_keys (lk_shared l))
    (kd_set_tick n (lk_shared l))) (set_lk_shared (kd_set_tick n (lk_shared l)) l))).
  { intros n. split; [by split|]. cbn. unfold keeps_pairs. by rewrite kd_keys_set. }
  apply unwrap_duplicate; [done|done|done| |by apply HE]. intros x _. by apply HQ.
Qed.

Lemma finish_preserved_keeps_pairs peer local_epoch remote_epoch l0 l :
  settled (lk_shared l0) → after keeps_pairs l0 l → turns keeps_pairs l →
  wp (finish_preserved peer local_epoch remote_epoch) (λ _, after keeps_pairs l0) (after keeps_pairs l0) l.
Proof.
  intros [Hi0 Hp0] Hl Ht. unfold finish_preserved.
  apply wp_bind. eapply (link_keeps_wp keeps_pairs); [by link_keep|done|exact Hl| |done]. intros session l1 Ht1 Hl1.
  apply wp_if; intros _.
  { eapply (link_keeps_wp keeps_pairs); [by link_keep|done|exact Hl1|done|done]. }
  apply wp_bind, link_query_wp; [|done]. intros found [= <-].
  apply wp_bind, wp_lift; [intros [initiator cached] Hfound|done].
  destruct (si_pairs (kd_keys (lk_shared l1)) !! doc_peer_id peer) as [q|] eqn:Hq; [|done]. injection Hfound as <- <-.
  apply wp_bind, link_query_wp; [|done]. intros local_id [= <-].
  apply wp_bind. eapply (link_keeps_wp keeps_pairs); [|done|exact Hl1| |done].
  { link_keep. }
  intros _ l2 Ht2 Hl2.
  apply wp_bind. eapply (link_keeps_wp keeps_pairs); [by link_keep|done|exact Hl2| |done]. intros frame l3 Ht3 Hl3.
  destruct (proj2 Hl1 Hi0 Hp0) as (_ & _ & C1), (proj2 Hl3 Hi0 Hp0) as (Hi3 & _ & C3).
  assert (Hq3 : si_pairs (kd_keys (lk_shared l3)) !! doc_peer_id peer = Some q)
    by (by rewrite (cs_pairs _ _ C3), <-(cs_pairs _ _ C1)).
  assert (Hlocal : local_id (kd_keys (lk_shared l3)) = local_id (kd_keys (lk_shared l1)))
    by (unfold local_id; by rewrite (cs_local _ _ C3), (cs_local _ _ C1)).
  apply wp_bind, wp_if; intros Hk.
  - apply andb_true_iff in Hk as [_ Hinit%negb_true_iff%bool_decide_eq_false].
    apply wp_bind, wp_lift; [intros incoming _|done]. apply wp_if; [intros ->%bool_decide_eq_true|done].
    apply wp_bind, (unwrap_again _ q l3); [done|done|by rewrite Hlocal| |].
    + intros opened l4 Hl4. assert (Hal : after keeps_pairs l0 l4) by (etransitivity; [exact Hl3|exact Hl4]).
      apply wp_if; intros _; [|done].
      eapply (link_keeps_wp keeps_pairs); [by link_keep|by eapply turns_moved; [apply Hl4|]|exact Hal| |done].
      intros _ l5 Ht5 Hl5. by eapply (link_keeps_wp keeps_pairs); [link_keep|..].
    + intros l4 Hl4. etransitivity; [exact Hl3|exact Hl4].
  - match goal with |- wp ?m _ _ _ => assert (Hm : link_keeps keeps_pairs m) by link_keep end.
    eapply (link_keeps_wp keeps_pairs); [exact Hm|done|exact Hl3| |done].
    intros _ l5 Ht5 Hl5. by eapply (link_keeps_wp keeps_pairs); [link_keep|..].
Qed.

(** One step of a longer run. *)
Ltac keeps_step R l0 :=
  eapply (link_keeps_wp R _ _ _ l0); [by link_keep|eassumption|eassumption|intros ? ? ? ?|by intros].

Lemma establish_keeps_pairs expected preserve l :
  (∀ id, link_keeps keeps_pairs (preserve id)) →
  (∀ id l', wp (preserve id) (λ b _, b = true) (λ _, True) l') →
  settled (lk_shared l) → turns keeps_pairs l →
  wp (establish_guarded expected preserve) (λ _, after keeps_pairs l) (after keeps_pairs l) l.
Proof.
  intros Hpre Htrue Hs Ht. unfold establish_guarded.
  pose proof (reflexivity l : after keeps_pairs l l) as Hl.
  apply wp_bind. keeps_step keeps_pairs l. apply wp_bind, wp_lift; [intros identity _|done].
  do 2 (apply wp_bind; keeps_step keeps_pairs l).
  do 3 (apply wp_bind, wp_lift; [intros ? _|done]). apply wp_if; intros _; [|done].
  do 4 (apply wp_bind; keeps_step keeps_pairs l).
  apply wp_bind. eapply wp_mono; [apply wp_conj; [by apply Hpre|apply Htrue]| |].
  2: { cbn beta. intros lf [Hlf _]. by etransitivity. }
  cbn beta. intros b lp [Hlp ->].
  assert (turns keeps_pairs lp) by (by eapply turns_moved; [apply Hlp|]).
  assert (after keeps_pairs l lp) by (by etransitivity).
  do 2 (apply wp_bind; keeps_step keeps_pairs l). apply wp_bind, wp_lift; [intros hint _|done].
  do 2 (apply wp_bind; keeps_step keeps_pairs l).
  apply wp_bind, wp_lift; [intros _ _|done]. apply wp_bind, wp_lift; [intros [? ?] _|done].
  apply wp_if; intros _; [|done]. by apply finish_preserved_keeps_pairs.
Qed.
End preserving.
