(* ===== verification/SessionContact.v ===== *)
(** * Two ends of a first contact

    The handshake of two members that meet, run at both ends over connections that carry what the
    other end sends. *)
From S2P Require Export SessionInv KeyStoreClaims.
From Stdlib Require Import Lia ZifyN ZifyNat.

Open Scope N_scope.

(** ** Running a task *)

Section run.
Context {S : Type}.

Lemma bind_run {S0 A B} (m : SM S0 A) (k : A → SM S0 B) s x s' : m s = (Ok x, s') → sm_bind m k s = k x s'.
Proof. intros Hm. unfold sm_bind. by rewrite Hm. Qed.

Lemma lift_run {S0 A} (r : Result A) (s : S0) x : r = Ok x → sm_lift r s = (Ok x, s).
Proof. by intros ->. Qed.

(** A connection on which every write succeeds and nobody else takes a turn. *)
Definition arriving (frames : list Frame) : list (Turn S * Result Frame) := (λ f, (id, Ok f)) <$> frames.
Definition writable (n : nat) : list (Turn S * option (Result unit)) := repeat (id, Some (Ok tt)) n.

Lemma write_frame_new kind payload frame :
  Frame_new kind payload = Ok frame → ∃ encoded, write_frame frame = Ok encoded.
Proof.
  unfold Frame_new, write_frame. destruct (validate_kind kind) as [[]|] eqn:Hk; [|done]. cbn.
  destruct (body_length payload) as [n|] eqn:Hn; [|done]. cbn.
  destruct (N.ltb_spec MAX_FRAME_BODY_LEN n) as [|Hle]; [done|]. intros [= <-]. cbn. rewrite Hk. cbn. rewrite Hn. cbn.
  rewrite (proj2 (N.ltb_lt n u32_limit)) by (unfold MAX_FRAME_BODY_LEN in Hle; unfold u32_limit; lia). cbn.
  rewrite (proj2 (N.ltb_ge MAX_FRAME_BODY_LEN n)) by lia. by eexists.
Qed.

Lemma write_run frame encoded (s : S) incoming n sent progress :
  write_frame frame = Ok encoded →
  write_link frame (mkConn s incoming (writable (Datatypes.S n)) sent progress)
  = (Ok tt, mkConn s incoming (writable n) (sent ++ [frame]) progress).
Proof.
  intros He. unfold write_link, try_write_link, sm_bind, sm_attempt, sm_lift. by rewrite He.
Qed.

(** A frame a constructor made. *)
Lemma write_new frame kind payload (s : S) incoming n sent progress :
  Frame_new kind payload = Ok frame →
  write_link frame (mkConn s incoming (writable (Datatypes.S n)) sent progress)
  = (Ok tt, mkConn s incoming (writable n) (sent ++ [frame]) progress).
Proof. intros [encoded He]%write_frame_new. by apply (write_run _ encoded). Qed.

Lemma framed_write (r : Result bytes) kind frame (s : S) incoming n sent progress :
  (let? payload := r in Frame_new kind payload) = Ok frame →
  write_link frame (mkConn s incoming (writable (Datatypes.S n)) sent progress)
  = (Ok tt, mkConn s incoming (writable n) (sent ++ [frame]) progress).
Proof. destruct r as [payload|]; [|done]. apply write_new. Qed.

Lemma progress_run f (s : S) incoming writes sent progress :
  progress_update f (mkConn s incoming writes sent progress) = (Ok tt, mkConn s incoming writes sent (mkLocals (f (lc_progress progress)) (lc_permit progress) (lc_admitted progress))).
Proof. done. Qed.

Lemma read_run frame frames (s : S) writes sent progress :
  read_link (mkConn s (arriving (frame :: frames)) writes sent progress)
  = (Ok frame, mkConn s (arriving frames) writes sent progress).
Proof. done. Qed.

Lemma frame_new_Ok kind payload frame :
  Frame_new kind payload = Ok frame → frame = mkFrame kind payload ∧ fits payload.
Proof.
  unfold Frame_new. destruct (validate_kind kind) as [[]|]; [|done]. cbn. unfold body_length.
  destruct (N.ltb_spec (lenN payload + 1) u64_limit) as [Hl|]; [|done]. cbn.
  destruct (MAX_FRAME_BODY_LEN <? _); [done|]. intros [= <-]. split; [done|].
  unfold fits, usize_limit. lia.
Qed.

Lemma frame_new_small kind payload :
  validate_kind kind = Ok tt → lenN payload < MAX_FRAME_BODY_LEN → Frame_new kind payload = Ok (mkFrame kind payload).
Proof.
  intros Hk Hl. unfold Frame_new, body_length. rewrite Hk. cbn.
  rewrite (proj2 (N.ltb_lt _ u64_limit)) by (unfold MAX_FRAME_BODY_LEN in Hl; unfold u64_limit; lia). cbn.
  by rewrite (proj2 (N.ltb_ge _ _)) by lia.
Qed.

Section keys.
Context `{Sha256, MlDsa65, XWing, AesGcm, HkdfSha256, Oracle, !Keyed S, !KeyedLaws S}.

Lemma keys_run {A} (m : SM StoreInner A) (r : Result A) k s incoming writes sent progress :
  m (kd_keys s) = (r, k) →
  link_keys m (mkConn s incoming writes sent progress) = (r, mkConn (kd_set_keys k s) incoming writes sent progress).
Proof. intros Hm. unfold link_keys, sm_zoom. cbn. by rewrite Hm. Qed.

Lemma query_run {A} (f : StoreInner → Result A) (r : Result A) s incoming writes sent progress :
  si_failed (kd_keys s) = false → f (kd_keys s) = r →
  link_keys (query f) (mkConn s incoming writes sent progress) = (r, mkConn s incoming writes sent progress).
Proof.
  intros Hf Hr. rewrite (keys_run _ r (kd_keys s)); [by rewrite kd_set_id|].
  unfold query, sm_bind, lock. by rewrite Hf, <-Hr.
Qed.

Lemma draw_run {A} (f : nat → A) (s : S) incoming writes sent progress :
  link_draw f (mkConn s incoming writes sent progress)
  = (Ok (f (kd_tick s)), mkConn (kd_set_tick (Datatypes.S (kd_tick s)) s) incoming writes sent progress).
Proof. done. Qed.
End keys.
End run.

(** ** The two ends *)

Section ends.
Context `{Sha256, MlDsa65, XWing, AesGcm, HkdfSha256, SocketAddrs}.

(** What is drawn from the [n]th draw on. *)
Definition input_at (o : Oracle) (n : nat) : WrapInput :=
  mkWrapInput (oc_random 32 n) (oc_random 64 (S n)) (oc_write (S (S n))).

Definition start_progress : Locals := mkLocals (mkHandshakeProgress None false false) None false.

Definition identity_frame (local : IdentityDocument) : Result Frame :=
  let? payload := encode_identity local in Frame_new IDENTITY_KIND payload.
Definition hint_frame (local : PeerId) (epoch : Epoch) : Frame :=
  mkFrame EPOCH_HINT_KIND (epoch_hint_m local epoch).
Definition ack_frame (epoch : Epoch) : Frame := mkFrame WRAP_ACK_KIND (encode_wrap_ack epoch false).
Definition wrap_frame (message : WrapMessage) : Result Frame :=
  let? payload := encode_wrap message in Frame_new WRAP_KIND payload.

(** ** Hints and acknowledgements *)

Definition encode_hint (p : PeerId * Epoch) : Result bytes := put (array_bytes p.1) +++ put_u64 p.2.
Definition encode_ack (p : Epoch * bool) : Result bytes := put_u64 p.1 +++ put_byte (byte_of_bool p.2).

Lemma hint_codec : Codec decode_epoch_hint encode_hint.
Proof. apply run_codec. codec encode_hint. Qed.
Lemma ack_codec : Codec decode_wrap_ack encode_ack.
Proof. apply run_codec. codec encode_ack. Qed.

Lemma lenN_hint local epoch : lenN (epoch_hint_m local epoch) = 40.
Proof. unfold epoch_hint_m, lenN. by rewrite length_app, length_array, length_u64_to_be. Qed.
Lemma lenN_ack epoch pending : lenN (encode_wrap_ack epoch pending) = 9.
Proof. unfold encode_wrap_ack, lenN. by rewrite length_app, length_u64_to_be. Qed.

Lemma decode_hint local epoch : decode_epoch_hint (epoch_hint_m local epoch) = Ok (local, epoch).
Proof. apply hint_codec; [by unfold fits; rewrite lenN_hint|done]. Qed.
Lemma decode_ack epoch pending : decode_wrap_ack (encode_wrap_ack epoch pending) = Ok (epoch, pending).
Proof. apply ack_codec; [by unfold fits; rewrite lenN_ack|done]. Qed.

Lemma hint_frame_new local epoch :
  Frame_new EPOCH_HINT_KIND (epoch_hint_m local epoch) = Ok (hint_frame local epoch).
Proof. apply frame_new_small; [done|by rewrite lenN_hint]. Qed.
Lemma ack_frame_new epoch : Frame_new WRAP_ACK_KIND (encode_wrap_ack epoch false) = Ok (ack_frame epoch).
Proof. apply frame_new_small; [done|by rewrite lenN_ack]. Qed.

Lemma identity_frame_decode local frame :
  identity_frame local = Ok frame → fr_kind frame = IDENTITY_KIND ∧ decode_identity (fr_payload frame) = Ok local.
Proof.
  unfold identity_frame. destruct (encode_identity local) as [payload|] eqn:He; [|done]. cbn. intros Hf.
  destruct (frame_new_Ok _ _ _ Hf) as [-> Hfit]. split; [done|]. by apply identity_codec.
Qed.
Lemma wrap_frame_decode message frame :
  wrap_frame message = Ok frame → fr_kind frame = WRAP_KIND ∧ decode_wrap (fr_payload frame) = Ok message.
Proof.
  unfold wrap_frame. destruct (encode_wrap message) as [payload|] eqn:He; [|done]. cbn. intros Hf.
  destruct (frame_new_Ok _ _ _ Hf) as [-> Hfit]. split; [done|]. by apply wrap_codec.
Qed.
End ends.

(** ** What the calls of a first contact leave *)

Section store.
Context `{Sha256, MlDsa65, XWing, AesGcm, HkdfSha256}.

(** The store has not failed, and keeps its identity, its pairs and what it owes. *)
Record quiet (k k' : StoreInner) : Prop := {
  qt_alive : si_failed k' = false;
  qt_local : si_local k' = si_local k;
  qt_pairs : si_pairs k' = si_pairs k;
  qt_owed : si_retry_epochs k' = si_retry_epochs k;
}.

Lemma quiet_trans k k1 k2 : quiet k k1 → quiet k1 k2 → quiet k k2.
Proof. intros [] []. split; congruence. Qed.

Lemma lock_Ok k k' : lock k = (Ok tt, k') → k' = k ∧ si_failed k = false.
Proof. unfold lock. destruct (si_failed k); [done|]. by intros [= <-]. Qed.

(** The first steps of a call that succeeds. *)
Lemma locked_Ok {A} (m : SM StoreInner A) k x k' :
  (do! _ := lock in m) k = (Ok x, k') → si_failed k = false ∧ m k = (Ok x, k').
Proof. unfold sm_bind, lock. by destruct (si_failed k). Qed.
Lemma lift_Ok {S A B} (r : Result A) (f : A → SM S B) k x k' :
  (do! y := sm_lift r in f y) k = (Ok x, k') → ∃ y, r = Ok y ∧ f y k = (Ok x, k').
Proof. unfold sm_bind, sm_lift. destruct r as [y|]; [|done]. by exists y. Qed.
Lemma bind_Ok {S A B} (m : SM S A) (f : A → SM S B) k x k' :
  (do! y := m in f y) k = (Ok x, k') → ∃ y k1, m k = (Ok y, k1) ∧ f y k1 = (Ok x, k').
Proof. unfold sm_bind. destruct (m k) as [[y|] k1]; [|done]. by exists y, k1. Qed.

Lemma import_first io input d k k' :
  import_peer io input d k = (Ok tt, k') → si_pairs k !! doc_peer_id d = None →
  quiet k k' ∧ si_epoch_watermarks k' = si_epoch_watermarks k
  ∧ si_peers k' = <[doc_peer_id d := d]> (si_peers k) ∧ verify_identity d = Ok tt
  ∧ doc_peer_id d ≠ local_id k.
Proof.
  intros Hi Hn. unfold import_peer in Hi. apply lift_Ok in Hi as ([] & Hv & [Hf Hi]%locked_Ok).
  unfold sm_bind at 1, sm_get at 1 in Hi. case_bool_decide as Hl; [done|]. cbn [negb] in Hi.
  rewrite Hn in Hi. destruct (match si_peers k !! doc_peer_id d with Some _ => _ | None => true end); [|done].
  apply bind_Ok in Hi as ([] & k1 & [= <-] & Hi).
  apply bind_Ok in Hi as ([] & k2 & [file ->]%persist_Ok & Hi).
  rewrite bool_decide_eq_false_2 in Hi by (by intros []).
  assert (Hk : k' = set_state_file file (set_peers (<[doc_peer_id d := d]> (si_peers k)) k)).
  { destruct (si_peers k !! doc_peer_id d); [rewrite andb_false_r in Hi|]; by injection Hi. }
  by rewrite Hk.
Qed.

Lemma observe_first io peer epoch k k' :
  observe_remote_epoch io peer epoch k = (Ok tt, k') →
  quiet k k' ∧ watermark k' peer = u64_max (watermark k peer) epoch ∧ si_peers k' = si_peers k.
Proof.
  intros [Hf Ho]%locked_Ok. unfold sm_bind at 1, sm_get in Ho.
  destruct (bool_decide (is_Some (si_peers k !! peer))); [|done]. unfold u64_max.
  destruct (N.ltb_spec (u64_N (watermark k peer)) (u64_N epoch)).
  - apply bind_Ok in Ho as ([] & k1 & [= <-] & [file ->]%persist_Ok). split; [by split|].
    split; [|done]. rewrite (proj2 (N.leb_le _ _)) by lia.
    unfold watermark. cbn. by rewrite lookup_insert_eq.
  - injection Ho as <-. split; [by split|]. split; [|done].
    destruct (N.leb_spec (u64_N (watermark k peer)) (u64_N epoch)); [|done]. apply u64_eq. lia.
Qed.

Lemma install_alive io peer initiator message key k x k' :
  install io peer initiator message key k = (Ok x, k') → si_failed k = false →
  si_failed k' = false ∧ si_retry_epochs k' = si_retry_epochs k.
Proof.
  intros Hi Hf. unfold install in Hi. apply bind_Ok in Hi as (slot & k1 & Ht & Hi).
  assert (Hk1 : si_failed k1 = false ∧ si_retry_epochs k1 = si_retry_epochs k).
  { unfold take_slot, sm_bind, sm_get, sm_lift in Ht.
    destruct (ok_or _ _); [|done]. injection Ht as <- <-. done. }
  do 4 (apply bind_Ok in Hi as ([] & ? & [= <-] & Hi)).
  apply bind_Ok in Hi as ([] & k2 & [file ->]%persist_Ok & Hi).
  apply bind_Ok in Hi as (? & ? & [= <- <-] & Hi).
  unfold sm_lift in Hi. injection Hi as _ <-. exact Hk1.
Qed.
Lemma create_alive input peer ek epoch k x k' :
  create input peer ek epoch k = (Ok x, k') → si_failed k' = false.
Proof.
  intros [Hf Hc]%locked_Ok. apply bind_Ok in Hc as (? & ? & [= <- <-] & Hc).
  apply lift_Ok in Hc as (d & Hd & Hc).
  do 3 (match type of Hc with (if ?b then _ else _) _ = _ => destruct b; [|done] end).
  apply lift_Ok in Hc as (next & _ & Hc).
  match type of Hc with (if ?b then _ else _) _ = _ => destruct b; [|done] end.
  apply lift_Ok in Hc as (key & _ & Hc). apply lift_Ok in Hc as (m & _ & Hc).
  apply bind_Ok in Hc as ([] & k1 & [= <-] & Hc). apply bind_Ok in Hc as (session & k2 & Hin & [= _ <-]).
  by destruct (install_alive _ _ _ _ _ _ _ _ Hin).
Qed.

Lemma session_now peer q k x :
  si_failed k = false → si_pairs k !! peer = Some q → inner_session k peer (pp_epoch q) = Ok x →
  current_session peer k = (Ok x, k).
Proof. intros Hf Hq Hs. unfold current_session, query, sm_bind, lock, sm_get, sm_lift. by rewrite Hf, Hq; cbn; rewrite Hs. Qed.

(** A creation leaves the session current and files its key. *)
Lemma create_first `{!Past} input peer ek epoch k x m k' :
  create input peer ek epoch k = (Ok (x, m), k') → inv k →
  current_session peer k' = (Ok x, k') ∧ ps_epoch x = epoch ∧ wm_epoch m = epoch
  ∧ si_failed k' = false
  ∧ ∃ key, wrap_message (si_local k) peer ek epoch key (wi_random input) = Ok m ∧ session_key k' x key.
Proof.
  intros Hc Hi. pose proof (create_alive _ _ _ _ _ _ _ Hc) as Hf.
  pose proof (wp_Ok _ _ _ _ _ _ (create_inner_wp input peer ek epoch false k Hi) Hc)
    as (_ & Hm & _ & _ & Hx & Hq & key & Hw & Hk & He). cbn in Hm, Hx, Hq, Hw, Hk, He.
  split; [by eapply session_now|]. do 3 (split; [done|]). by exists key.
Qed.

(** So does a wrap that arrives where there was no pair. *)
Lemma unwrap_first `{!Past} io peer m k x k' :
  unwrap io peer m k = (Ok x, k') → inv k → si_pairs k !! peer = None →
  si_failed k' = false ∧ si_retry_epochs k' = si_retry_epochs k ∧ ps_epoch x = wm_epoch m
  ∧ (∃ d, si_peers k !! peer = Some d ∧ check_wrap k peer m d = Ok tt)
  ∧ ∃ key, unwrap_key (si_local k) m = Ok key ∧ session_key k' x key.
Proof.
  intros Hu Hi Hn.
  pose proof (wp_Ok _ _ _ _ _ _ (unwrap_inner_wp io peer m false k Hi) Hu)
    as (_ & _ & q & _ & _ & _ & _ & [[Hq _]|(key & Hkey & Hs & He)]); cbn in *; [by rewrite Hn in Hq|].
  apply locked_Ok in Hu as [Hf Hu]. apply bind_Ok in Hu as (? & ? & [= <- <-] & Hu).
  apply lift_Ok in Hu as (d & Hd & Hu). destruct (si_peers k !! peer) as [d'|] eqn:Hp; [|done].
  injection Hd as ->. apply lift_Ok in Hu as ([] & Hcheck & Hu).
  apply lift_Ok in Hu as (expected & _ & Hu). apply lift_Ok in Hu as (reception & Hr & Hu).
  rewrite Hn in Hr. destruct reception as [|collision supersede].
  { unfold classify in Hr. destruct (negb false && _); [done|]. cbn in Hr. done. }
  apply classify_Fresh in Hr as (-> & -> & _).
  apply lift_Ok in Hu as (key' & _ & Hu). apply bind_Ok in Hu as ([] & k1 & [= <-] & Hu).
  destruct (install_alive _ _ _ _ _ _ _ _ Hu Hf) as [Hf' Hr'].
  do 3 (split; [done|]). split; [by exists d|]. by exists key.
Qed.
End store.

(** ** One end after the other *)

(** The next step of a run, given by [t]. *)
Tactic Notation "run" "by" tactic3(t) := erewrite bind_run; [|t].

Section sides.
Context `{Sha256, MlDsa65, XWing, AesGcm, HkdfSha256, Oracle, SocketAddrs}.
Context {S : Type} `{!Keyed S, !KeyedLaws S}.

Lemma is_ok_run {A} (f : StoreInner → Result A) (r : Result A) (s : S) incoming writes sent progress :
  si_failed (kd_keys s) = false → f (kd_keys s) = r →
  link_is_ok (query f) (mkConn s incoming writes sent progress) = (Ok (is_ok r), mkConn s incoming writes sent progress).
Proof.
  intros Hf Hr. unfold link_is_ok, sm_bind, sm_attempt. by rewrite (query_run _ r).
Qed.

(** What runs on the key store leaves a shared state with that store and a later tick. *)
Definition left_with (s s' : S) (k : StoreInner) (draws : nat) : Prop :=
  kd_keys s' = k ∧ kd_tick s' = (draws + kd_tick s)%nat.

Lemma link_keys_run {A} (m : SM StoreInner A) (r : Result A) k (s : S) incoming writes sent progress :
  m (kd_keys s) = (r, k) →
  ∃ s', left_with s s' k 0 ∧
    link_keys m (mkConn s incoming writes sent progress) = (r, mkConn s' incoming writes sent progress).
Proof.
  intros Hm. exists (kd_set_keys k s). split; [|by apply keys_run].
  split; [apply kd_keys_set|apply kd_tick_keys].
Qed.

Lemma link_draw_run {A} (f : nat → A) (s : S) incoming writes sent progress :
  ∃ s', left_with s s' (kd_keys s) 1 ∧
    link_draw f (mkConn s incoming writes sent progress) = (Ok (f (kd_tick s)), mkConn s' incoming writes sent progress).
Proof.
  eexists. split; [|apply draw_run]. split; [apply kd_keys_tick|apply kd_tick_set].
Qed.

Lemma link_write_run {A} (m : WriteOutcome → SM StoreInner A) (r : Result A) k (s : S) incoming writes sent progress :
  m (oc_write (kd_tick s)) (kd_keys s) = (r, k) →
  ∃ s', left_with s s' k 1 ∧
    link_write m (mkConn s incoming writes sent progress) = (r, mkConn s' incoming writes sent progress).
Proof.
  intros Hm. unfold link_write. rewrite (bind_run _ _ _ _ _ (draw_run _ _ _ _ _ _)).
  eexists. split; [|apply keys_run; by rewrite kd_keys_tick].
  split; [apply kd_keys_set|by rewrite kd_tick_keys, kd_tick_set].
Qed.

Lemma link_create_run {A} (m : WrapInput → SM StoreInner A) (r : Result A) k (s : S) incoming writes sent progress :
  m (input_at _ (kd_tick s)) (kd_keys s) = (r, k) →
  ∃ s', left_with s s' k 3 ∧
    link_create m (mkConn s incoming writes sent progress) = (r, mkConn s' incoming writes sent progress).
Proof.
  intros Hm. unfold link_create, link_wrap_input.
  set (s3 := kd_set_tick (3 + kd_tick s) (kd_set_tick (2 + kd_tick s) (kd_set_tick (1 + kd_tick s) s))).
  assert (Hd : (do! key := link_draw (oc_random 32) in
    do! random := link_draw (oc_random 64) in
    do! io := link_draw oc_write in sm_ret (mkWrapInput key random io)) (mkConn s incoming writes sent progress)
    = (Ok (input_at _ (kd_tick s)), mkConn s3 incoming writes sent progress)).
  { do 3 rewrite (bind_run _ _ _ _ _ (draw_run _ _ _ _ _ _)). by rewrite !kd_tick_set. }
  rewrite (bind_run _ _ _ _ _ Hd). exists (kd_set_keys k s3). split.
  - split; [apply kd_keys_set|]. unfold s3. by rewrite kd_tick_keys, kd_tick_set.
  - apply keys_run. unfold s3. by rewrite !kd_keys_tick.
Qed.

End sides.

(** ** The two ends of a first contact *)

Section contact.
Context `{Sha256, MlDsa65, XWing, AesGcm, HkdfSha256, Oracle, SocketAddrs}.

(** What the end with the smaller id does to its store, from the [n]th draw on: it knows the
    other's document and hint, and makes the key. *)
Definition initiate (n : nat) (peer : IdentityDocument) (remote : Epoch)
    : SM StoreInner (PairSession * WrapMessage) :=
  let id := doc_peer_id peer in
  do! _ := import_peer (oc_write n) (input_at _ (1 + n)) peer in
  do! k := sm_get in
  do! _ := observe_remote_epoch (oc_write (4 + n)) id (u64_max (watermark k id) remote) in
  do! epoch := next_epoch id in
  create (input_at _ (5 + n)) id (doc_ek peer) epoch.

(** What the other end does: it takes the key. *)
Definition respond (n : nat) (peer : IdentityDocument) (message : WrapMessage)
    : SM StoreInner PairSession :=
  let id := doc_peer_id peer in
  do! _ := import_peer (oc_write n) (input_at _ (1 + n)) peer in
  do! k := sm_get in
  match u64_checked_sub (wm_epoch message) 1 with
  | Some predecessor =>
      if u64_N (watermark k id) <? u64_N predecessor then
        do! _ := observe_remote_epoch (oc_write (4 + n)) id predecessor in
        unwrap (oc_write (5 + n)) id message
      else unwrap (oc_write (4 + n)) id message
  | None => unwrap (oc_write (4 + n)) id message
  end.

(** A store that has no pair with the member who presents [d], and owes it nothing. *)
Record unacquainted `{!Past} (k : StoreInner) (d : IdentityDocument) : Prop := {
  un_inv : inv k;
  un_documents : no_vk_collision k d;
  un_pair : si_pairs k !! doc_peer_id d = None;
  un_owed : si_retry_epochs k !! doc_peer_id d = None;
}.

Lemma import_first_inv `{!Past} io input d k k' :
  import_peer io input d k = (Ok tt, k') → unacquainted k d → inv k'.
Proof.
  intros Hi [Hinv Hnc _ _]. exact (wp_Ok _ _ _ _ _ _ (import_peer_wp io input d k Hnc Hinv) Hi).
Qed.

(** The calls of [initiate], one after the other. *)
Lemma initiate_Ok `{!Past} n peer remote k x m k' :
  initiate n peer remote k = (Ok (x, m), k') → unacquainted k peer →
  let id := doc_peer_id peer in
  ∃ k1 k2 epoch,
    import_peer (oc_write n) (input_at _ (1 + n)) peer k = (Ok tt, k1) ∧ quiet k k1
    ∧ observe_remote_epoch (oc_write (4 + n)) id (u64_max (watermark k id) remote) k1 = (Ok tt, k2)
    ∧ quiet k k2 ∧ watermark k1 id = watermark k id
    ∧ u64_checked_add (watermark k2 id) 1 = Some epoch
    ∧ create (input_at _ (5 + n)) id (doc_ek peer) epoch k2 = (Ok (x, m), k')
    ∧ inv k2 ∧ verify_identity peer = Ok tt.
Proof.
  intros Hr Hun id. unfold initiate in Hr. apply bind_Ok in Hr as ([] & k1 & Hi & Hr).
  destruct (import_first _ _ _ _ _ Hi (un_pair k peer Hun)) as (Hq1 & Hw & _ & Hv & _).
  assert (Hwm : watermark k1 id = watermark k id) by (unfold watermark; by rewrite Hw).
  apply bind_Ok in Hr as (? & ? & [= <- <-] & Hr). apply bind_Ok in Hr as ([] & k2 & Ho & Hr).
  fold id in Ho. rewrite Hwm in Ho. pose proof (import_first_inv _ _ _ _ _ Hi Hun) as Hi1.
  destruct (observe_first _ _ _ _ _ Ho) as [Hq2 _].
  apply bind_Ok in Hr as (epoch & k3 & (-> & _ & Hn)%query_Ok & Hr).
  exists k1, k2, epoch. split; [done|]. split; [done|]. split; [done|].
  split; [by eapply quiet_trans|]. split; [done|]. split; [|split; [done|split; [|done]]].
  - fold id in Hn. destruct (u64_checked_add _ _); [|done]. by injection Hn as ->.
  - exact (wp_Ok _ _ _ _ _ _ (observe_wp _ _ _ _ Hi1) Ho).
Qed.
Context {S : Type} `{!Keyed S, !KeyedLaws S}.

(** Both ends begin alike: documents and hints are exchanged, and the document is imported. *)
Lemma greeting_run (s : S) local peer e k1 fl fp frames n :
  let id := doc_peer_id peer in
  import_peer (oc_write (kd_tick s)) (input_at _ (1 + kd_tick s)) peer (kd_keys s) = (Ok tt, k1) →
  si_pairs (kd_keys s) !! id = None → si_failed (kd_keys s) = false → si_failed k1 = false →
  li_document (si_local (kd_keys s)) = local → verify_identity peer = Ok tt →
  identity_frame local = Ok fl → identity_frame peer = Ok fp →
  ∃ s1 progress, left_with s s1 k1 4 ∧
    establish None (mkConn s (arriving (fp :: hint_frame id e :: frames)) (writable (2 + n)) [] start_progress)
    = (do! message := initial_wrap local peer (watermark k1 id) e in
       do! _ := match message with
                | Some message => send_wrap message
                | None => sm_ret tt
                end in
       finish_wrap peer)
        (mkConn s1 (arriving frames) (writable n) [fl; hint_frame (doc_peer_id local) (watermark k1 id)] progress).
Proof.
  intros id Himp Hnone Hf Hf1 Hda Hv Hfl Hfp. unfold establish, establish_guarded.
  run by (exact (query_run _ (Ok local) _ _ _ _ _ Hf (f_equal Ok Hda))).
  run by (exact (lift_run _ _ _ Hfl)).
  run by (apply (framed_write (encode_identity local) IDENTITY_KIND); exact Hfl).
  run by (apply read_run).
  destruct (identity_frame_decode _ _ Hfp) as [Hkp Hdp].
  run by (apply lift_run; unfold require_kind; by rewrite Hkp, bool_decide_eq_true_2).
  run by (exact (lift_run _ _ _ Hdp)). run by (exact (lift_run _ _ _ Hv)).
  cbn [expected_matches]. run by (apply progress_run).
  run by (apply is_ok_run; [exact Hf|cbn beta; fold id; by rewrite Hnone]). cbn [is_ok ok_or res_bind].
  run by (run by (apply query_run; [exact Hf|cbn beta; fold id; by rewrite Hnone]); reflexivity).
  run by (apply progress_run). run by reflexivity.
  match goal with |- context[mkConn s ?i ?w ?o ?p] => set (pr := p); clearbody pr;
    destruct (link_draw_run oc_write s i w o pr) as (s0 & [Hk0 Ht0] & Hr0) end.
  rewrite <-Hk0 in Himp. change (1 + kd_tick s)%nat with (1 + kd_tick s)%nat in Himp. rewrite <-Ht0 in Himp.
  match type of Hr0 with _ = (_, mkConn _ ?i ?w ?o ?p) =>
    destruct (link_create_run (λ input, import_peer (oc_write (kd_tick s)) input peer) _ _ s0 i w o p Himp)
      as (s1 & [Hk1 Ht1] & Hr1) end.
  run by (run by (exact Hr0); exact Hr1). rewrite <-Hk1 in Hf1 |- *.
  run by (apply query_run; [exact Hf1|reflexivity]).
  run by (exact (lift_run _ _ _ (hint_frame_new _ _))).
  run by (exact (write_new _ _ _ _ _ _ _ _ (hint_frame_new _ _))).
  run by (apply read_run). run by reflexivity. run by (exact (lift_run _ _ _ (decode_hint _ _))).
  cbn beta iota. fold id. rewrite bool_decide_eq_true_2 by done.
  exists s1, pr. split; [|done]. split; [done|]. by rewrite Ht1, Ht0.
Qed.

Lemma read_loop_run {A} (body : Frame → SM (Conn S) (option A)) frame frames (s : S) writes sent progress x l :
  body frame (mkConn s (arriving frames) writes sent progress) = (Ok (Some x), l) →
  read_loop body (mkConn s (arriving (frame :: frames)) writes sent progress) = (Ok x, l).
Proof.
  intros Hb. unfold read_loop. cbn [lk_incoming arriving fmap list_fmap length read_loop_fuel].
  run by (apply read_run). by rewrite (bind_run _ _ _ _ _ Hb).
Qed.

(** The smaller id, without a pair, makes one. *)
Lemma initial_wrap_smaller (s : S) local peer e k2 epoch xa m k' incoming writes sent progress :
  let id := doc_peer_id peer in
  si_pairs (kd_keys s) !! id = None → si_failed (kd_keys s) = false →
  ltb (doc_peer_id local) id = true →
  observe_remote_epoch (oc_write (kd_tick s)) id (u64_max (watermark (kd_keys s) id) e) (kd_keys s) = (Ok tt, k2) →
  si_failed k2 = false → u64_checked_add (watermark k2 id) 1 = Some epoch →
  create (input_at _ (1 + kd_tick s)) id (doc_ek peer) epoch k2 = (Ok (xa, m), k') →
  ∃ s', kd_keys s' = k' ∧
    initial_wrap local peer (watermark (kd_keys s) id) e (mkConn s incoming writes sent progress)
    = (Ok (Some m), mkConn s' incoming writes sent progress).
Proof.
  intros id Hnone Hf Hlt Hobs Hf2 Hnext Hcr. unfold initial_wrap.
  run by (apply query_run; [exact Hf|cbn beta; fold id; by rewrite Hnone]).
  run by (apply is_ok_run; [exact Hf|cbn beta; fold id; by rewrite Hnone]). cbn [fmap option_fmap option_map is_ok ok_or res_bind].
  fold id. rewrite Hlt, !orb_true_r. cbn [andb negb].
  destruct (link_write_run (λ io, observe_remote_epoch io id (u64_max (watermark (kd_keys s) id) e)) _ _ s
    incoming writes sent progress Hobs) as (s2 & [Hk2 Ht2] & Hr2).
  run by (exact Hr2). rewrite <-Hk2 in Hf2, Hnext, Hcr.
  run by (apply query_run; [exact Hf2|cbn beta; by rewrite Hnext]).
  change (1 + kd_tick s)%nat with (1 + kd_tick s)%nat in Hcr. rewrite <-Ht2 in Hcr.
  destruct (link_create_run (λ input, create input id (doc_ek peer) epoch) _ _ s2 incoming writes sent progress Hcr)
    as (s3 & [Hk3 _] & Hr3).
  run by (exact Hr3). by exists s3.
Qed.

(** The larger id, without a pair, waits for one. *)
Lemma initial_wrap_larger (s : S) local peer ours e incoming writes sent progress :
  let id := doc_peer_id peer in
  si_pairs (kd_keys s) !! id = None → si_failed (kd_keys s) = false →
  ltb (doc_peer_id local) id = false →
  initial_wrap local peer ours e (mkConn s incoming writes sent progress)
  = (Ok None, mkConn s incoming writes sent progress).
Proof.
  intros id Hnone Hf Hlt. unfold initial_wrap.
  run by (apply query_run; [exact Hf|cbn beta; fold id; by rewrite Hnone]).
  run by (apply is_ok_run; [exact Hf|cbn beta; fold id; by rewrite Hnone]).
  fold id. by rewrite Hlt.
Qed.

(** The acknowledgement of the current session ends the handshake. *)
Lemma finish_ack_run (s : S) peer x writes sent progress :
  current_session (doc_peer_id peer) (kd_keys s) = (Ok x, kd_keys s) →
  ∃ progress', finish_wrap peer (mkConn s (arriving [ack_frame (ps_epoch x)]) writes sent progress)
    = (Ok (mkEstablishedSession peer x), mkConn s [] writes sent progress').
Proof.
  intros Hc. eexists. apply read_loop_run. unfold finish_wrap_frame. cbn [ack_frame fr_kind fr_payload].
  rewrite bool_decide_eq_false_2 by done. rewrite bool_decide_eq_true_2 by done. unfold take_ack.
  run by (exact (lift_run _ _ _ (decode_ack _ _))).
  cbn beta iota. run by (rewrite (keys_run _ _ _ _ _ _ _ _ Hc), kd_set_id; reflexivity).
  rewrite bool_decide_eq_true_2 by done. run by reflexivity. reflexivity.
Qed.

Lemma initiator_run `{!Past} (s : S) da db eb xa m k' fa fb fw :
  let id := doc_peer_id db in
  initiate (kd_tick s) db eb (kd_keys s) = (Ok (xa, m), k') →
  unacquainted (kd_keys s) db → li_document (si_local (kd_keys s)) = da → si_failed (kd_keys s) = false →
  ltb (doc_peer_id da) id = true →
  identity_frame da = Ok fa → identity_frame db = Ok fb → wrap_frame m = Ok fw →
  ∃ s' progress, kd_keys s' = k' ∧
    establish None (mkConn s (arriving [fb; hint_frame id eb; ack_frame (wm_epoch m)]) (writable 3) [] start_progress)
    = (Ok (mkEstablishedSession db xa),
       mkConn s' [] [] [fa; hint_frame (doc_peer_id da) (watermark (kd_keys s) id); fw] progress).
Proof.
  intros id Hrun Hun Hda Hf Hlt Hfa Hfb Hfw. pose proof (un_pair _ _ Hun) as Hnone.
  destruct (initiate_Ok _ _ _ _ _ _ _ Hrun Hun)
    as (k1 & k2 & epoch & Himp & [Hf1 Hl1 Hp1 _] & Hobs & [Hf2 Hl2 Hp2 _] & Hwm & Hnext & Hcr & Hi2 & Hv).
  destruct (create_first _ _ _ _ _ _ _ _ Hcr Hi2) as (Hcur & Hxe & Hme & Hf3 & _).
  destruct (greeting_run s da db eb k1 fa fb [ack_frame (wm_epoch m)] 1 Himp Hnone Hf Hf1 Hda Hv Hfa Hfb)
    as (s1 & pr & [Hk1 Ht1] & Hgreet).
  fold id in Hgreet. change (writable 3) with (writable (S := S) (2 + 1)). rewrite Hgreet.
  rewrite <-Hk1 in Hf1, Hobs. fold id in Hobs, Hwm. rewrite <-Hwm, <-Hk1 in Hobs.
  rewrite <-Hp1 in Hnone. rewrite <-Hk1 in Hnone. replace (4 + kd_tick s)%nat with (kd_tick s1) in Hobs by done.
  replace (5 + kd_tick s)%nat with (1 + kd_tick s1)%nat in Hcr by (rewrite Ht1; done).
  rewrite <-Hk1.
  match goal with |- context[mkConn s1 ?i ?w ?o pr] =>
    destruct (initial_wrap_smaller s1 da db eb k2 epoch xa m k' i w o pr Hnone Hf1 Hlt Hobs Hf2 Hnext Hcr)
      as (s2 & Hk2 & Hwrap) end.
  run by (exact Hwrap). run by (unfold send_wrap; run by (exact (lift_run _ _ _ Hfw)); apply (framed_write (encode_wrap m) WRAP_KIND); exact Hfw).
  rewrite <-Hk2 in Hcur. rewrite Hme, <-Hxe.
  match goal with |- context[mkConn s2 _ ?w ?o ?p] =>
    destruct (finish_ack_run s2 db xa w o p Hcur) as (pr' & Hfin) end.
  rewrite Hfin, Hk1, Hwm. by exists s2, pr'.
Qed.

(** The calls of [respond]: how the floor is raised, and what comes of the wrap. *)
Definition floor_run (n : nat) (id : PeerId) (message : WrapMessage) : SM StoreInner nat :=
  do! k := sm_get in
  match u64_checked_sub (wm_epoch message) 1 with
  | Some predecessor =>
      if u64_N (watermark k id) <? u64_N predecessor
      then do! _ := observe_remote_epoch (oc_write n) id predecessor in sm_ret (1 + n)%nat
      else sm_ret n
  | None => sm_ret n
  end.

Lemma respond_split n peer message k :
  respond n peer message k =
  (do! _ := import_peer (oc_write n) (input_at _ (1 + n)) peer in
   do! n' := floor_run (4 + n) (doc_peer_id peer) message in
   unwrap (oc_write n') (doc_peer_id peer) message) k.
Proof.
  unfold respond, floor_run, sm_bind, sm_get. destruct (import_peer _ _ _ k) as [[[]|] k1]; [|done].
  destruct (u64_checked_sub (wm_epoch message) 1); [|done]. case_match; [|done].
  by destruct (observe_remote_epoch _ _ _ k1) as [[[]|] k2].
Qed.

Lemma respond_Ok `{!Past} n peer m k x k' :
  respond n peer m k = (Ok x, k') → unacquainted k peer →
  let id := doc_peer_id peer in
  ∃ k1 k2 n',
    import_peer (oc_write n) (input_at _ (1 + n)) peer k = (Ok tt, k1) ∧ quiet k k1
    ∧ floor_run (4 + n) id m k1 = (Ok n', k2) ∧ si_retry_epochs k2 !! id = None
    ∧ si_pairs k2 !! id = None ∧ si_local k2 = si_local k
    ∧ watermark k1 id = watermark k id ∧ inv k2
    ∧ unwrap (oc_write n') id m k2 = (Ok x, k') ∧ verify_identity peer = Ok tt
    ∧ id ≠ local_id k ∧ si_peers k2 !! id = Some peer.
Proof.
  intros Hr Hun id. rewrite respond_split in Hr. apply bind_Ok in Hr as ([] & k1 & Hi & Hr).
  destruct (import_first _ _ _ _ _ Hi (un_pair k peer Hun)) as (Hq1 & Hw & Hp & Hv & Hne).
  apply bind_Ok in Hr as (n' & k2 & Hfl & Hr). fold id in Hfl, Hr, Hp, Hne.
  pose proof (import_first_inv _ _ _ _ _ Hi Hun) as Hi1.
  assert (Hq2 : quiet k1 k2 ∧ inv k2 ∧ si_peers k2 = si_peers k1).
  { unfold floor_run in Hfl. apply bind_Ok in Hfl as (? & ? & [= <- <-] & Hfl).
    assert (Hsame : quiet k1 k1 ∧ inv k1 ∧ si_peers k1 = si_peers k1) by (split; [split; try done; apply Hq1|done]).
    destruct (u64_checked_sub (wm_epoch m) 1); [|by injection Hfl as _ <-].
    destruct (_ <? _); [|by injection Hfl as _ <-].
    apply bind_Ok in Hfl as ([] & k3 & Ho & [= _ <-]).
    destruct (observe_first _ _ _ _ _ Ho) as (? & _ & ?). split; [done|]. split; [|done].
    exact (wp_Ok _ _ _ _ _ _ (observe_wp _ _ _ _ Hi1) Ho). }
  destruct Hq2 as (Hq2 & Hi2 & Hp2). pose proof (quiet_trans _ _ _ Hq1 Hq2) as [Hf Hl Hps Ho].
  destruct Hun as [_ _ Hn1 Hn2].
  exists k1, k2, n'. do 3 (split; [done|]). rewrite Ho, Hps, Hp2, Hp, lookup_insert_eq.
  do 3 (split; [done|]). split; [unfold watermark; by rewrite Hw|]. done.
Qed.

Lemma floor_link_run (s : S) peer m k2 n' incoming writes sent progress :
  let id := doc_peer_id peer in
  let local := local_id (kd_keys s) in
  floor_run (kd_tick s) id m (kd_keys s) = (Ok n', k2) → verify_wrap peer m = Ok tt →
  si_pairs (kd_keys s) !! id = None → si_failed (kd_keys s) = false → geb id local = false →
  wm_min_id m = id_min id local → wm_max_id m = id_max id local →
  ∃ s', kd_keys s' = k2 ∧ kd_tick s' = n' ∧
    prepare_incoming_floor peer m (mkConn s incoming writes sent progress)
    = (Ok tt, mkConn s' incoming writes sent progress).
Proof.
  intros id local Hfl Hv Hnone Hf Hg Hmin Hmax. unfold prepare_incoming_floor.
  run by (apply is_ok_run; [exact Hf|cbn beta; fold id; by rewrite Hnone]). cbn [is_ok ok_or res_bind].
  run by (apply query_run; [exact Hf|reflexivity]). fold id local. rewrite Hg.
  rewrite !bool_decide_eq_true_2 by done. cbn [negb orb].
  run by (apply query_run; [exact Hf|reflexivity]).
  unfold floor_run in Hfl. apply bind_Ok in Hfl as (? & ? & [= <- <-] & Hfl).
  assert (Hstay : ∀ r, sm_ret (kd_tick s) (kd_keys s) = (Ok n', k2) →
    r = (Ok tt, mkConn s incoming writes sent progress) →
    ∃ s', kd_keys s' = k2 ∧ kd_tick s' = n' ∧ r = (Ok tt, mkConn s' incoming writes sent progress)).
  { intros r [= <- <-] ->. by exists s. }
  destruct (u64_checked_sub (wm_epoch m) 1) as [predecessor|]; [|by apply Hstay].
  destruct (_ <? _); [|by apply Hstay].
  apply bind_Ok in Hfl as ([] & k3 & Ho & [= <- <-]).
  run by (exact (lift_run _ _ _ Hv)).
  destruct (link_write_run (λ io, observe_remote_epoch io id predecessor) _ _ s incoming writes sent progress Ho)
    as (s2 & [Hk2 Ht2] & Hr2). by exists s2.
Qed.

Lemma id_min_comm (a b : PeerId) : id_min a b = id_min b a.
Proof.
  unfold id_min. destruct (ltb_total a b) as [Hl|[->|Hl]]; [|done|];
    by rewrite (ltb_asym _ _ Hl), Hl.
Qed.
Lemma id_max_comm (a b : PeerId) : id_max a b = id_max b a.
Proof.
  unfold id_max. destruct (ltb_total a b) as [Hl|[->|Hl]]; [|done|];
    by rewrite (ltb_asym _ _ Hl), Hl.
Qed.

(** The wrap that arrives is taken and acknowledged. *)
Lemma take_wrap_run `{!Past} (s : S) peer m k2 n' x k' incoming n sent progress :
  let id := doc_peer_id peer in
  floor_run (kd_tick s) id m (kd_keys s) = (Ok n', k2) → unwrap (oc_write n') id m k2 = (Ok x, k') →
  si_pairs (kd_keys s) !! id = None → si_failed (kd_keys s) = false → ltb id (local_id (kd_keys s)) = true →
  inv k2 → si_pairs k2 !! id = None → si_retry_epochs k2 !! id = None → si_peers k2 !! id = Some peer →
  local_id k2 = local_id (kd_keys s) →
  ∃ s' progress', kd_keys s' = k' ∧
    take_wrap peer m (mkConn s incoming (writable (1 + n)) sent progress)
    = (Ok (Some (mkEstablishedSession peer x)),
       mkConn s' incoming (writable n) (sent ++ [ack_frame (wm_epoch m)]) progress').
Proof.
  intros id Hfl Hun Hnone Hf Hlt Hi2 Hn2 Ho2 Hp2 Hl2.
  destruct (unwrap_first _ _ _ _ _ _ Hun Hi2 Hn2) as (Hf' & Hr' & He & (d & Hd & Hcheck) & _).
  rewrite Hp2 in Hd. injection Hd as <-. apply check_wrap_Ok in Hcheck as (Hmin & Hmax & w & Hw & Hv).
  rewrite Hl2, id_min_comm in Hmin. rewrite Hl2, id_max_comm in Hmax.
  assert (Hver : verify_wrap peer m = Ok tt) by (unfold verify_wrap; by rewrite Hw).
  assert (Hg : geb id (local_id (kd_keys s)) = false) by (unfold geb; by rewrite Hlt).
  unfold take_wrap.
  assert (Hnc : current_session id (kd_keys s) = (Err KeyUnavailable, kd_keys s)).
  { unfold current_session, query, sm_bind, lock, sm_get, sm_lift. by rewrite Hf, Hnone. }
  run by (unfold sm_attempt; rewrite (keys_run _ _ _ _ _ _ _ _ Hnc), kd_set_id; reflexivity). cbn beta iota.
  destruct (floor_link_run s peer m k2 n' incoming (writable (1 + n)) sent progress Hfl Hver Hnone Hf Hg Hmin Hmax)
    as (s2 & <- & <- & Hr2).
  run by (exact Hr2).
  destruct (link_write_run (λ io, unwrap io id m) _ _ s2 incoming (writable (1 + n)) sent progress Hun)
    as (s3 & [Hk3 _] & Hr3).
  run by (unfold sm_attempt; fold id; rewrite Hr3; reflexivity). cbn beta iota. rewrite <-Hk3 in Hf'.
  run by (apply query_run; [exact Hf'|cbn beta; rewrite Hk3, Hr'; fold id; by rewrite Ho2]).
  rewrite bool_decide_eq_false_2 by (by intros []). rewrite He.
  run by (unfold send_ack; run by (exact (lift_run _ _ _ (ack_frame_new _))); exact (write_new _ _ _ _ _ _ _ _ (ack_frame_new _))).
  run by reflexivity. by eexists s3, _.
Qed.

Lemma responder_run `{!Past} (s : S) da db ea xb m k' fa fb fw :
  let id := doc_peer_id da in
  respond (kd_tick s) da m (kd_keys s) = (Ok xb, k') →
  unacquainted (kd_keys s) da → li_document (si_local (kd_keys s)) = db → si_failed (kd_keys s) = false →
  ltb id (doc_peer_id db) = true →
  identity_frame da = Ok fa → identity_frame db = Ok fb → wrap_frame m = Ok fw →
  ∃ s' progress, kd_keys s' = k' ∧
    establish None (mkConn s (arriving [fa; hint_frame id ea; fw]) (writable 3) [] start_progress)
    = (Ok (mkEstablishedSession da xb),
       mkConn s' [] [] [fb; hint_frame (doc_peer_id db) (watermark (kd_keys s) id); ack_frame (wm_epoch m)] progress).
Proof.
  intros id Hrun Hun Hdb Hf Hlt Hfa Hfb Hfw. pose proof (un_pair _ _ Hun) as Hnone.
  destruct (respond_Ok _ _ _ _ _ _ Hrun Hun)
    as (k1 & k2 & n' & Himp & [Hf1 Hl1 Hp1 _] & Hfl & Ho2 & Hn2 & Hl2 & Hwm & Hi2 & Hunw & Hv & _ & Hp2).
  destruct (greeting_run s db da ea k1 fb fa [fw] 1 Himp Hnone Hf Hf1 Hdb Hv Hfb Hfa)
    as (s1 & pr & [Hk1 Ht1] & Hgreet).
  fold id in Hgreet, Hwm, Hnone, Ho2, Hn2, Hp2, Hunw, Hfl.
  change (writable 3) with (writable (S := S) (2 + 1)). rewrite Hgreet, Hwm.
  assert (Hloc : local_id k1 = doc_peer_id db) by (unfold local_id; by rewrite Hl1, Hdb).
  assert (Hloc2 : local_id k2 = local_id k1) by (unfold local_id; by rewrite Hl1, Hl2).
  rewrite <-Hp1 in Hnone. rewrite <-Hloc in Hlt. rewrite <-Hk1 in Hf1, Hnone, Hfl, Hlt, Hloc2.
  rewrite <-Ht1 in Hfl.
  run by (apply initial_wrap_larger; [exact Hnone|exact Hf1|]; rewrite <-Hloc, <-Hk1; by apply ltb_asym).
  run by reflexivity.
  match goal with |- context[mkConn s1 _ _ ?o ?p] =>
    destruct (take_wrap_run s1 da m k2 n' xb k' (arriving []) 0 o p Hfl Hunw Hnone Hf1 Hlt Hi2 Hn2 Ho2 Hp2 Hloc2)
      as (s2 & pr' & Hk2 & Htake) end.
  destruct (wrap_frame_decode _ _ Hfw) as [Hkw Hdw].
  exists s2, pr'. split; [done|]. apply read_loop_run. unfold finish_wrap_frame.
  rewrite Hkw, bool_decide_eq_true_2 by done. run by (exact (lift_run _ _ _ Hdw)). exact Htake.
Qed.
End contact.
