(* ===== verification/ContactEnds.v ===== *)
(** * How the calls of a first contact end

    [initiate] and [respond] succeed, or an error of the member's own store or system says why:
    nothing the other end did. *)
From S2P Require Export SessionContact.
From Stdlib Require Import Lia ZifyN ZifyNat.

Open Scope N_scope.

(** ** The reasons *)

Section reasons.
Context `{Sha256, MlDsa65, XWing, AesGcm, HkdfSha256}.

(** The document is new, on file already, or younger than the one on file. *)
Definition current (s : StoreInner) (d : IdentityDocument) : Prop :=
  ∀ previous, si_peers s !! doc_peer_id d = Some previous →
    d = previous ∨ u64_N (doc_created_at previous) < u64_N (doc_created_at d).

Definition imported (d : IdentityDocument) (s : StoreInner) : StoreInner :=
  set_peers (<[doc_peer_id d := d]> (si_peers s)) s.
Definition floored (peer : PeerId) (epoch : Epoch) (s : StoreInner) : StoreInner :=
  set_epoch_watermarks (<[peer := epoch]> (si_epoch_watermarks s)) s.

(** What a first contact writes: the document, then the epoch, then the key that goes with a
    message of [made]. *)
Inductive contact_state (d : IdentityDocument) (made : WrapMessage → Prop) (s : StoreInner) : StoreInner → Prop :=
  | contact_document : contact_state d made s (imported d s)
  | contact_floor epoch : contact_state d made s (floored (doc_peer_id d) epoch (imported d s))
  | contact_key t next initiator message key :
      t = imported d s ∨ (∃ epoch, t = floored (doc_peer_id d) epoch (imported d s)) → made message →
      u64_N next = u64_N (si_next_slot s) + 1 →
      contact_state d made s (installed next (doc_peer_id d) initiator message key t).

(** Why a member's own store stops a first contact: a write fails, a state to be written does
    not encode or not within the limit of the file, or there is no key slot left. *)
Inductive store_stops (o : Oracle) (d : IdentityDocument) (made : WrapMessage → Prop) (s : StoreInner) : Error → Prop :=
  | stops_write n e renamed : oc_write n = WriteFailed e renamed → store_stops o d made s e
  | stops_size t e : contact_state d made s t → (persist Written t).1 = Err e → store_stops o d made s e
  | stops_slots : u64_limit <= u64_N (si_next_slot s) + 1 →
      store_stops o d made s (State "keystore slots exhausted").

(** The wrap messages a member can make for [d]. *)
Definition own_wrap (d : IdentityDocument) (s : StoreInner) (m : WrapMessage) : Prop :=
  ∃ epoch key random, wrap_message (si_local s) (doc_peer_id d) (doc_ek d) epoch key random = Ok m.

(** Why the member who is to make the key does not: its store; no randomness; the cryptography
    refuses the wrap; or the epochs are used up, [remote] being the one the peer hints at. *)
Inductive no_wrap (o : Oracle) (d : IdentityDocument) (remote : Epoch) (s : StoreInner) : Error → Prop :=
  | no_wrap_store e : store_stops o d (own_wrap d s) s e → no_wrap o d remote s e
  | no_wrap_entropy n e : oc_random 32 n = Err e → no_wrap o d remote s e
  | no_wrap_crypto n epoch key e :
      wrap_message (si_local s) (doc_peer_id d) (doc_ek d) epoch key (oc_random 64 n) = Err e →
      no_wrap o d remote s e
  | no_wrap_epoch :
      u64_limit <= N.max (u64_N (watermark s (doc_peer_id d))) (u64_N remote) + 1 →
      no_wrap o d remote s (State "epoch exhausted").

Lemma persist_stops o d made s n t e :
  contact_state d made s t → (persist (@oc_write o n) t).1 = Err e → store_stops o d made s e.
Proof.
  intros Ht [[renamed Hio]|He]%persist_Err; [by eapply stops_write|by eapply stops_size].
Qed.

(** What is written depends on the persisted state alone. *)
Lemma persist_ext io s t : persisted_state s = persisted_state t → (persist io s).1 = (persist io t).1.
Proof.
  intros Hp. unfold persist. rewrite Hp. destruct (encode_store_state _); [|done].
  unfold atomic_write. destruct (_ <? _); [done|]. by destruct io.
Qed.

(** ** The calls *)

Lemma import_ends (R : Error → Prop) io input d s :
  si_failed s = false → verify_identity d = Ok tt → doc_peer_id d ≠ local_id s → current s d →
  si_pairs s !! doc_peer_id d = None →
  (∀ e, (persist io (imported d s)).1 = Err e → R e) →
  ends (import_peer io input d) (λ _ s', ∃ file, s' = set_state_file file (imported d s)) R s.
Proof.
  intros Hf Hv Hne Hcur Hnone HR. unfold import_peer. apply ends_bind, ends_lift; [intros _ _|by rewrite Hv].
  apply ends_bind. unfold lock, ends at 1. rewrite Hf. apply ends_bind. unfold sm_get, ends at 1.
  rewrite bool_decide_eq_false_2 by done. cbn [negb].
  assert (match si_peers s !! doc_peer_id d with
    | Some previous => negb (negb (bool_decide (d = previous))
        && (u64_N (doc_created_at d) <=? u64_N (doc_created_at previous)))
    | None => true end = true) as ->.
  { destruct (si_peers s !! doc_peer_id d) as [previous|] eqn:Hp; [|done].
    destruct (Hcur previous Hp) as [->|Hlt]; [by rewrite bool_decide_eq_true_2|].
    rewrite (proj2 (N.leb_gt _ _)) by done. by rewrite andb_false_r. }
  apply ends_bind. cbn. apply ends_bind. fold (imported d s). unfold ends at 1.
  destruct (persist io (imported d s)) as [[x|e] s1] eqn:Hp.
  - apply persist_Ok in Hp as [file ->]. rewrite Hnone.
    rewrite bool_decide_eq_false_2 by (by intros []).
    destruct (si_peers s !! doc_peer_id d); rewrite ?andb_false_r; by exists file.
  - by apply HR.
Qed.

Lemma observe_ends (R : Error → Prop) io peer epoch s :
  si_failed s = false → is_Some (si_peers s !! peer) →
  (∀ e, (persist io (floored peer epoch s)).1 = Err e → R e) →
  ends (observe_remote_epoch io peer epoch)
    (λ _ s', s' = s ∧ u64_N epoch <= u64_N (watermark s peer)
             ∨ u64_N (watermark s peer) < u64_N epoch
               ∧ ∃ file, s' = set_state_file file (floored peer epoch s)) R s.
Proof.
  intros Hf Hp HR. unfold observe_remote_epoch. apply ends_bind. unfold lock, ends at 1. rewrite Hf.
  apply ends_bind. unfold sm_get, ends at 1. rewrite bool_decide_eq_true_2 by done.
  destruct (N.ltb_spec (u64_N (watermark s peer)) (u64_N epoch)) as [Hlt|Hge].
  - apply ends_bind. cbn. fold (floored peer epoch s). unfold ends.
    destruct (persist io (floored peer epoch s)) as [[x|e] s1] eqn:Hw; [|by apply HR].
    apply persist_Ok in Hw as [file ->]. right. split; [done|]. by exists file.
  - by left.
Qed.

Lemma unwrap_ends (R : Error → Prop) io peer m d key s :
  keys_ok (si_epoch_watermarks s) (si_next_slot s) (si_keys s) → si_failed s = false →
  si_peers s !! peer = Some d → check_wrap s peer m d = Ok tt → si_pairs s !! peer = None →
  u64_N (wm_epoch m) = u64_N (watermark s peer) + 1 → geb peer (local_id s) = false →
  unwrap_key (si_local s) m = Ok key →
  (u64_limit <= u64_N (si_next_slot s) + 1 → R (State "keystore slots exhausted")) →
  (∀ next e, u64_N next = u64_N (si_next_slot s) + 1 →
     (persist io (installed next peer peer m key s)).1 = Err e → R e) →
  ends (unwrap io peer m) (λ _ _, True) R s.
Proof.
  intros Hk Hf Hd Hc Hn He Hg Hu Hslots HR. unfold unwrap, unwrap_inner.
  apply ends_bind. unfold lock, ends at 1. rewrite Hf. apply ends_bind. unfold sm_get, ends at 1.
  apply ends_bind, ends_lift; rewrite Hd; [intros ? [= <-]|done].
  apply ends_bind, ends_lift; rewrite Hc; [intros _ _|done].
  apply ends_bind. rewrite (proj2 (u64_checked_add_Some _ _ (wm_epoch m))) by done.
  unfold sm_lift at 1, ends at 1. cbn [ok_or].
  apply ends_bind. rewrite Hn. unfold classify. rewrite Hg, bool_decide_eq_true_2 by done. cbn [negb andb orb res_bind].
  unfold sm_lift at 1, ends at 1. apply ends_bind, ends_lift; rewrite Hu; [intros ? [= <-]|done].
  apply ends_bind. unfold sm_ret at 1, ends at 1.
  eapply ends_mono; [by apply install_ends|done|done].
Qed.
End reasons.

(** ** The two members *)

Section members.
Context `{Sha256, MlDsa65, XWing, AesGcm, HkdfSha256}.
Context {o : Oracle}.

(** A member's own document verifies. *)
Lemma own_document_verifies local : local_ok local → verify_identity (li_document local) = Ok tt.
Proof. intros Hl. apply (local_ok_vk local Hl). Qed.

(** The state after the document and the epoch are on file. *)
Definition greeted (d : IdentityDocument) (s t : StoreInner) : Prop :=
  ∃ t' file, t = set_state_file file t'
    ∧ (t' = imported d s ∨ ∃ epoch file', t' = floored (doc_peer_id d) epoch (set_state_file file' (imported d s))
         ∧ u64_N (watermark s (doc_peer_id d)) < u64_N epoch).

Lemma greeted_wms d s t : greeted d s t → wms_le (si_epoch_watermarks s) (si_epoch_watermarks t).
Proof.
  intros (t' & file & -> & [->|(epoch & file' & -> & Hlt)]); [apply wms_le_refl|].
  cbn. apply wms_le_insert. rewrite <-wm_of_watermark. lia.
Qed.

(** It has the document and is otherwise as before. *)
Lemma greeted_fields d s t :
  greeted d s t →
  si_failed t = si_failed s ∧ si_local t = si_local s ∧ si_pairs t = si_pairs s
  ∧ si_keys t = si_keys s ∧ si_next_slot t = si_next_slot s ∧ si_peers t !! doc_peer_id d = Some d.
Proof.
  intros (t' & file & -> & [->|(epoch & file' & -> & _)]); cbn; by rewrite lookup_insert_eq.
Qed.

(** The key on top of it is what a first contact writes. *)
Lemma greeted_key d made s t next initiator message key retry :
  greeted d s t → made message → u64_N next = u64_N (si_next_slot s) + 1 →
  ∃ t', contact_state d made s t'
    ∧ persisted_state (installed next (doc_peer_id d) initiator message key (set_retry_epochs retry t))
      = persisted_state t'.
Proof.
  intros (t' & file & -> & [->|(epoch & file' & -> & _)]) Hm Hn.
  - exists (installed next (doc_peer_id d) initiator message key (imported d s)). split; [|done].
    apply contact_key; auto.
  - exists (installed next (doc_peer_id d) initiator message key (floored (doc_peer_id d) epoch (imported d s))).
    split; [|done]. apply contact_key; eauto.
Qed.

Lemma initiate_ends `{!Past} n d remote s :
  unacquainted s d → si_failed s = false → verify_identity d = Ok tt → doc_peer_id d ≠ local_id s →
  current s d → ltb (local_id s) (doc_peer_id d) = true →
  ends (initiate n d remote) (λ _ _, True) (no_wrap o d remote s) s.
Proof.
  intros [Hi _ Hn _] Hf Hv Hne Hcur Hlt. unfold initiate. apply ends_bind.
  eapply ends_mono; [apply import_ends; try done| |done].
  { intros e He. apply no_wrap_store. by eapply persist_stops; [apply contact_document|]. }
  cbn beta. intros _ s1 [file ->]. apply ends_bind. unfold sm_get, ends at 1. apply ends_bind.
  set (s1 := set_state_file file (imported d s)).
  change (watermark s1 (doc_peer_id d)) with (watermark s (doc_peer_id d)).
  set (floor := u64_max (watermark s (doc_peer_id d)) remote).
  eapply ends_mono; [apply (observe_ends (no_wrap o d remote s)); [done| |]| |done].
  { exists d. apply lookup_insert_eq. }
  { intros e He. apply no_wrap_store.
    rewrite (persist_ext _ _ (floored (doc_peer_id d) floor (imported d s))) in He by done.
    by eapply persist_stops; [apply contact_floor|]. }
  cbn beta. intros _ s2 Hs2.
  assert (Hg : greeted d s s2 ∧ u64_N (watermark s2 (doc_peer_id d)) = u64_N floor).
  { unfold greeted. destruct Hs2 as [[-> Hle]|[Hlt' [file' ->]]].
    - split; [exists (imported d s), file; auto|]. unfold floor in *. rewrite u64_max_N in *.
      change (watermark s1 (doc_peer_id d)) with (watermark s (doc_peer_id d)) in *. lia.
    - split; [exists (floored (doc_peer_id d) floor s1), file'; eauto 10|].
      unfold watermark, floored. cbn. by rewrite lookup_insert_eq. }
  destruct Hg as [Hg Hw]. pose proof (greeted_fields d s s2 Hg) as (Hf2 & Hl2 & Hp2 & Hk2 & Hn2 & Hd2).
  apply ends_bind. unfold next_epoch, query. apply ends_bind. unfold lock, ends at 1. rewrite Hf2, Hf.
  apply ends_bind. unfold sm_get, ends at 1. unfold ends at 1, sm_lift.
  destruct (u64_checked_add (watermark s2 (doc_peer_id d)) 1) as [epoch|] eqn:Hnext; cbn [ok_or].
  2: { apply no_wrap_epoch. apply u64_of_N_None in Hnext. unfold floor in Hw. rewrite u64_max_N in Hw. lia. }
  apply u64_checked_add_Some in Hnext.
  eapply ends_mono; [apply (create_ends _ _ _ _ _ d s2); try done|done|done].
  - rewrite Hk2, Hn2. eapply keys_ok_wms; [exact (greeted_wms d s s2 Hg)|apply (ci_keys s), Hi].
  - rewrite Hl2. apply (ci_local s), Hi.
  - congruence.
  - right. unfold local_id in *. by rewrite Hl2.
  - intros e. apply no_wrap_entropy.
  - intros key e. rewrite Hl2. apply no_wrap_crypto.
  - rewrite Hn2. intros Hs. by apply no_wrap_store, stops_slots.
  - intros t e (next & key & m & Hnx & Hme & Hm & ->) He. apply no_wrap_store. rewrite Hn2 in Hnx.
    rewrite Hl2 in Hm.
    destruct (greeted_key d (own_wrap d s) s s2 next (local_id s2) m key
      (delete (doc_peer_id d) (si_retry_epochs s2)) Hg
      (ex_intro _ epoch (ex_intro _ key (ex_intro _ _ Hm))) Hnx) as (t' & Ht' & Hsame).
    rewrite (persist_ext _ _ t' Hsame) in He. exact (persist_stops o d _ s (S (S (5 + n))) t' e Ht' He).
Qed.

(** The wrap of a member whose epoch is above this one's. *)
Lemma respond_ends `{!Past} n d m key s (made : WrapMessage → Prop) :
  unacquainted s d → si_failed s = false → verify_identity d = Ok tt → doc_peer_id d ≠ local_id s →
  current s d → ltb (doc_peer_id d) (local_id s) = true → made m →
  u64_N (watermark s (doc_peer_id d)) < u64_N (wm_epoch m) →
  check_wrap s (doc_peer_id d) m d = Ok tt → unwrap_key (si_local s) m = Ok key →
  ends (respond n d m) (λ _ _, True) (store_stops o d made s) s.
Proof.
  intros [Hi _ Hn _] Hf Hv Hne Hcur Hlt Hmade Hep Hcheck Hkey.
  unfold ends. rewrite respond_split. change (ends (do! _ := import_peer (oc_write n) (input_at o (1 + n)) d in
    do! n' := floor_run (4 + n) (doc_peer_id d) m in unwrap (oc_write n') (doc_peer_id d) m)
    (λ _ _, True) (store_stops o d made s) s). apply ends_bind.
  eapply ends_mono; [apply import_ends; try done| |done].
  { intros e He. by eapply persist_stops; [apply contact_document|]. }
  cbn beta. intros _ s1 [file ->]. apply ends_bind. unfold floor_run. apply ends_bind. unfold sm_get, ends at 1.
  set (s1 := set_state_file file (imported d s)).
  change (watermark s1 (doc_peer_id d)) with (watermark s (doc_peer_id d)).
  destruct (u64_checked_sub (wm_epoch m) 1) as [floor|] eqn:Hsub.
  2: { exfalso. destruct (u64_of_N_is_Some (u64_N (wm_epoch m) - 1)) as (a & Ha & _);
       [pose proof (u64_bound (wm_epoch m)); lia|].
       unfold u64_checked_sub in Hsub. rewrite (proj2 (N.leb_le 1 _)) in Hsub by lia. congruence. }
  apply u64_checked_sub_Some in Hsub as [_ Hfl].
  assert (Hunwrap : ∀ n' s2, greeted d s s2 → u64_N (watermark s2 (doc_peer_id d)) = u64_N floor →
    ends (unwrap (oc_write n') (doc_peer_id d) m) (λ _ _, True) (store_stops o d made s) s2).
  { intros n' s2 Hg Hw. pose proof (greeted_fields d s s2 Hg) as (Hf2 & Hl2 & Hp2 & Hk2 & Hn2 & Hd2).
    apply (unwrap_ends _ _ _ _ d key); [| |done| | | | | | |].
    - rewrite Hk2, Hn2. eapply keys_ok_wms; [exact (greeted_wms d s s2 Hg)|apply (ci_keys s), Hi].
    - congruence.
    - unfold check_wrap, local_id in *. by rewrite Hl2.
    - congruence.
    - lia.
    - unfold local_id in *. rewrite Hl2. by apply geb_false.
    - by rewrite Hl2.
    - rewrite Hn2. apply stops_slots.
    - intros next e Hnx He. rewrite Hn2 in Hnx.
      destruct (greeted_key d made s s2 next (doc_peer_id d) m key (si_retry_epochs s2) Hg Hmade Hnx)
        as (t' & Ht' & Hsame).
      rewrite (persist_ext _ _ t') in He by (rewrite <-Hsame; by destruct s2).
      exact (persist_stops o d made s n' t' e Ht' He). }
  destruct (N.ltb_spec (u64_N (watermark s (doc_peer_id d))) (u64_N floor)) as [Hlow|Hhigh].
  - apply ends_bind. eapply ends_mono; [apply (observe_ends (store_stops o d made s)); [done| |]| |done].
    { exists d. apply lookup_insert_eq. }
    { intros e He. rewrite (persist_ext _ _ (floored (doc_peer_id d) floor (imported d s))) in He by done.
      by eapply persist_stops; [apply contact_floor|]. }
    cbn beta. intros _ s2 [[_ Hle]|[_ [file' ->]]].
    { change (watermark s1 (doc_peer_id d)) with (watermark s (doc_peer_id d)) in Hle. lia. }
    apply Hunwrap.
    + exists (floored (doc_peer_id d) floor s1), file'. eauto 10.
    + unfold watermark, floored. cbn. by rewrite lookup_insert_eq.
  - unfold sm_ret at 1, ends at 1. apply Hunwrap; [exists (imported d s), file; auto|].
    change (watermark s1 (doc_peer_id d)) with (watermark s (doc_peer_id d)). lia.
Qed.
End members.
