(* ===== verification/SessionClaims.v ===== *)
(** * What the pair handshake guarantees

    Theorems about [establish_guarded] against any peer, and about the two ends of a first
    contact.  A witness runs them with a shared state that is a key store and a tick. *)
From S2P Require Export ContactEnds.
From Stdlib Require Import Lia ZifyN ZifyNat.

Open Scope N_scope.

Section claims.
Context `{Sha256, MlDsa65, XWing, AesGcm, HkdfSha256, Oracle, SocketAddrs}.
Context {S : Type} `{!Keyed S, !KeyedLaws S}.
Implicit Types l : Conn S.

(** C7: whatever the peer sends, whenever it stops, whatever other tasks do meanwhile that keeps
    the key store's invariant and whatever writes fail, a handshake keeps the invariant and the
    local identity.  When it returns, the document is one the peer presented, verified, and the
    expected one when there was an expectation; the session is filed under its id; and its epoch
    was acknowledged, by this end last of all or by a frame of the peer. *)
Theorem handshake_safe `{!Past} known expected preserve l :
  collision_free_documents known → (∀ d, presented l d → known d) →
  store_ok known (kd_keys (lk_shared l)) → turns (keeps_shared known) l →
  (∀ id, link_keeps (keeps_shared known) (preserve id)) → (∀ id, moves (preserve id)) →
  let '(r, l') := establish_guarded expected preserve l in
  store_ok known (kd_keys (lk_shared l'))
  ∧ local_id (kd_keys (lk_shared l')) = local_id (kd_keys (lk_shared l))
  ∧ ∀ e, r = Ok e → vouched expected l (es_peer e) ∧ agreed (es_peer e) l e l'.
Proof.
  intros Hfree Hknown Hs Ht Hpre Hmoves.
  assert (Hk : wp (establish_guarded expected preserve) (λ _, after (keeps_shared known) l)
                 (after (keeps_shared known) l) l).
  { apply (establish_keeps (keeps_store known)); try apply _; try done.
    intros d io input Hd. apply import_store; [done|by apply Hknown]. }
  assert (Ha := establish_agreed expected preserve l (λ id l _, wp_mono _ _ _ _ _ _ (Hmoves id l)
    (λ _ _ Hm, conj Hm I) (λ _ Hm, conj Hm I))).
  unfold wp in Hk, Ha. destruct (establish_guarded expected preserve l) as [r l'].
  assert (Hkeep : after (keeps_shared known) l l') by (by destruct r).
  destruct (proj2 Hkeep Hs) as [Hs' Hl']. split; [done|]. split; [done|]. by intros e ->.
Qed.

(** C8: in a shared state that is [settled] - the key store's invariant holds and no peer has a
    candidate at the epoch of its confirmed pair - when the guard asks to preserve what is
    confirmed, and other tasks and the guard keep such states and what is confirmed in them, a
    handshake, however it ends and whatever the peer sends, leaves a settled state and changes no
    confirmed pair, no identity document, no admission mark, no traffic gate and no key of a
    confirmed pair, so that every session that could be used still can be, unless the store
    failed.  The condition on epochs is needed: [shared_epoch_discarded] below is a store that
    took a plain wrap at its candidate's epoch, where discarding the candidate takes the
    confirmed key with it.  A store without candidates is settled. *)
Theorem preserving_handshake `{!Past} expected preserve l :
  settled (lk_shared l) → turns keeps_pairs l →
  (∀ id, link_keeps keeps_pairs (preserve id)) →
  (∀ id l', wp (preserve id) (λ b _, b = true) (λ _, True) l') →
  let l' := (establish_guarded expected preserve l).2 in
  settled (lk_shared l') ∧ confirmed_same (kd_keys (lk_shared l)) (kd_keys (lk_shared l'))
  ∧ ∀ peer, si_failed (kd_keys (lk_shared l')) = si_failed (kd_keys (lk_shared l)) →
      (current_session peer (kd_keys (lk_shared l'))).1 = (current_session peer (kd_keys (lk_shared l))).1.
Proof.
  intros Hs Ht Hpre Htrue. pose proof (establish_keeps_pairs expected preserve l Hpre Htrue Hs Ht) as Hk.
  unfold wp in Hk. destruct (establish_guarded expected preserve l) as [r l']. cbn.
  assert (Hkeep : after keeps_pairs l l') by (by destruct r).
  destruct Hs as [Hi Hp], (proj2 Hkeep Hi Hp) as (Hi' & Hp' & Hc).
  split; [by split|]. split; [done|]. intros peer Hf. by apply current_session_kept.
Qed.

(** What a process is before it meets the member who presents [peer]. *)
Record ready (past : Past) (s : S) (local peer : IdentityDocument) : Prop := {
  rd_unacquainted : unacquainted (H6 := past) (kd_keys s) peer;
  rd_document : li_document (si_local (kd_keys s)) = local;
  rd_alive : si_failed (kd_keys s) = false;
  rd_current : current (kd_keys s) peer;
}.
End claims.

Section first_contact.
Context `{Sha256, MlDsa65, XWing, AesGcm, HkdfSha256, SocketAddrs}.
Context {S : Type} `{!Keyed S, !KeyedLaws S}.

(** One end, whose system draws from [o], when [frames] arrive. *)
Definition meet (o : Oracle) (frames : list Frame) (s : S) : Result EstablishedSession * Conn S :=
  establish None (mkConn s (arriving frames) (writable 3) [] start_progress).
Definition initiate_with (o : Oracle) (n : nat) (peer : IdentityDocument) (remote : Epoch) k := initiate n peer remote k.
Definition respond_with (o : Oracle) (n : nat) (peer : IdentityDocument) (m : WrapMessage) k := respond n peer m k.

(** The message the first member made is one the other takes, whatever its own epochs are. *)
Lemma initiated_acceptable past_a past_b oa sa sb da db xa m ka :
  ready past_a sa da db → ready past_b sb db da → ltb (doc_peer_id da) (doc_peer_id db) = true →
  initiate_with oa (kd_tick sa) db (watermark (kd_keys sb) (doc_peer_id da)) (kd_keys sa) = (Ok (xa, m), ka) →
  u64_N (watermark (kd_keys sb) (doc_peer_id da)) < u64_N (wm_epoch m)
  ∧ check_wrap (kd_keys sb) (doc_peer_id da) m da = Ok tt
  ∧ ∃ key, unwrap_key (si_local (kd_keys sb)) m = Ok key.
Proof.
  intros [Hua Hda _ _] [Hub Hdb _ _] Hlt Hini.
  destruct (initiate_Ok _ _ _ _ _ _ _ Hini Hua)
    as (k1 & k2 & epoch & _ & _ & Hobs & [_ Hl2 _ _] & _ & Hnext & Hcr & Hi2 & _).
  destruct (observe_first _ _ _ _ _ Hobs) as (_ & Hw & _).
  destruct (create_first _ _ _ _ _ _ _ _ Hcr Hi2) as (_ & _ & Hme & _ & key & Hwrap & _).
  apply u64_checked_add_Some in Hnext. rewrite Hw, !u64_max_N in Hnext.
  destruct (local_ok_vk (si_local (kd_keys sb))) as (_ & Hek & _); [apply (inv_core _ (un_inv _ _ Hub))|].
  rewrite Hdb in Hek. rewrite Hek in Hwrap. pose proof Hwrap as Hopen%unwrap_of_wrap.
  apply wrap_message_Ok in Hwrap as (_ & Hmin & Hmax & Hv); [|apply (ci_local _ (inv_core _ Hi2))].
  rewrite Hl2, Hda in Hmin, Hmax, Hv. split; [rewrite Hme; lia|]. split; [|by exists key].
  unfold check_wrap, local_id. rewrite Hdb, Hmin, Hmax.
  rewrite (bool_decide_eq_true_2 _ (id_min_comm _ _)), (bool_decide_eq_true_2 _ (id_max_comm _ _)).
  cbn [negb orb]. destruct Hv as (w & Hw' & Hver). rewrite Hw'. exact Hver.
Qed.

(** A member's own document, at the other end. *)
Lemma ready_verified past s local peer : ready past s local peer → verify_identity local = Ok tt.
Proof. intros [Hun <- _ _]. apply own_document_verifies, (ci_local _ (inv_core _ (un_inv _ _ Hun))). Qed.

Lemma key_lt_ne (a b : PeerId) : ltb a b = true → a ≠ b.
Proof. intros Hlt ->. by rewrite ltb_irrefl in Hlt. Qed.

Lemma initiation_stopped past_a past_b oa sa sb da db remote e ka :
  ready past_a sa da db → ready past_b sb db da → ltb (doc_peer_id da) (doc_peer_id db) = true →
  initiate_with oa (kd_tick sa) db remote (kd_keys sa) = (Err e, ka) → no_wrap oa db remote (kd_keys sa) e.
Proof.
  intros [Hua Hda Hfa Hcur] Hrb Hlt Hini.
  assert (Hid : local_id (kd_keys sa) = doc_peer_id da) by (unfold local_id; by rewrite Hda).
  assert (He := initiate_ends (o := oa) (H4 := past_a) (kd_tick sa) db remote (kd_keys sa) Hua Hfa
    (ready_verified _ _ _ _ Hrb)). unfold ends in He. unfold initiate_with in Hini. rewrite Hini in He.
  apply He; rewrite ?Hid; auto. intros Heq. by apply key_lt_ne in Hlt.
Qed.

Lemma response_stopped past_a past_b oa ob sa sb da db xa m ka e kb :
  ready past_a sa da db → ready past_b sb db da → ltb (doc_peer_id da) (doc_peer_id db) = true →
  initiate_with oa (kd_tick sa) db (watermark (kd_keys sb) (doc_peer_id da)) (kd_keys sa) = (Ok (xa, m), ka) →
  respond_with ob (kd_tick sb) da m (kd_keys sb) = (Err e, kb) →
  store_stops ob da (λ made, made = m) (kd_keys sb) e.
Proof.
  intros Hra Hrb Hlt Hini Hres.
  destruct (initiated_acceptable _ _ _ _ _ _ _ _ _ _ Hra Hrb Hlt Hini) as (Hep & Hcheck & key & Hkey).
  destruct Hrb as [Hub Hdb Hfb Hcur].
  assert (Hid : local_id (kd_keys sb) = doc_peer_id db) by (unfold local_id; by rewrite Hdb).
  assert (He := respond_ends (o := ob) (H4 := past_b) (kd_tick sb) da m key (kd_keys sb) (λ made, made = m) Hub Hfb
    (ready_verified _ _ _ _ Hra)). unfold ends in He. unfold respond_with in Hres. rewrite Hres in He.
  apply He; rewrite ?Hid; auto. by apply key_lt_ne.
Qed.

(** When the calls of both succeed, so do the handshakes. *)
Lemma contact_of_calls past_a past_b oa ob sa sb da db xa m ka xb kb fa fb fw :
  ready past_a sa da db → ready past_b sb db da → ltb (doc_peer_id da) (doc_peer_id db) = true →
  identity_frame da = Ok fa → identity_frame db = Ok fb → wrap_frame m = Ok fw →
  let hint_a := hint_frame (doc_peer_id da) (watermark (kd_keys sa) (doc_peer_id db)) in
  let hint_b := hint_frame (doc_peer_id db) (watermark (kd_keys sb) (doc_peer_id da)) in
  initiate_with oa (kd_tick sa) db (watermark (kd_keys sb) (doc_peer_id da)) (kd_keys sa) = (Ok (xa, m), ka) →
  respond_with ob (kd_tick sb) da m (kd_keys sb) = (Ok xb, kb) →
  let to_b := [fa; hint_a; fw] in
  let to_a := [fb; hint_b; ack_frame (wm_epoch m)] in
  ∃ sa' sb' pa pb key,
    meet oa to_a sa = (Ok (mkEstablishedSession db xa), mkConn sa' [] [] to_b pa)
    ∧ meet ob to_b sb = (Ok (mkEstablishedSession da xb), mkConn sb' [] [] to_a pb)
    ∧ kd_keys sa' = ka ∧ kd_keys sb' = kb
    ∧ session_key ka xa key ∧ session_key kb xb key
    ∧ ps_epoch xa = wm_epoch m ∧ ps_epoch xb = wm_epoch m.
Proof.
  intros [Hua Hda Hfa _] [Hub Hdb Hfb _] Hlt Ha Hb Hw hint_a hint_b Hini Hres to_b to_a.
  destruct (initiate_Ok _ _ _ _ _ _ _ Hini Hua) as (k1 & k2 & epoch & _ & _ & _ & [_ Hl2 _ _] & _ & _ & Hcr & Hi2 & _).
  destruct (create_first _ _ _ _ _ _ _ _ Hcr Hi2) as (_ & Hxe & Hme & _ & key & Hwrap & Hka).
  destruct (respond_Ok _ _ _ _ _ _ Hres Hub) as (j1 & j2 & n' & _ & _ & _ & _ & Hn2 & Hlb & _ & Hib & Hun & _).
  destruct (unwrap_first _ _ _ _ _ _ Hun Hib Hn2) as (_ & _ & Hxb & _ & key' & Hkey & Hkb).
  destruct (local_ok_vk (si_local j2)) as (_ & Hek & _); [apply (inv_core j2 Hib)|].
  rewrite Hlb, Hdb in Hek. rewrite Hek, <-Hlb in Hwrap. apply unwrap_of_wrap in Hwrap.
  rewrite Hkey in Hwrap. injection Hwrap as ->.
  destruct (initiator_run (H4 := oa) sa da db _ xa m ka fa fb fw Hini Hua Hda Hfa Hlt Ha Hb Hw) as (sa' & pa & Hsa & Hra).
  destruct (responder_run (H4 := ob) sb da db (watermark (kd_keys sa) (doc_peer_id db)) xb m kb fa fb fw Hres Hub Hdb Hfb Hlt Ha Hb Hw)
    as (sb' & pb & Hsb & Hrb).
  exists sa', sb', pa, pb, key. split; [exact Hra|]. split; [exact Hrb|]. split_and!; congruence || done.
Qed.

(** C9: two members who have no pair with each other meet, over connections on which each gets
    what the other sends, each with a store that has not failed and no younger document of the
    other on file.  Nothing one does keeps the other from finishing: the member with the smaller
    id makes the key, or its own store, its system, the cryptography or the last epoch stops it
    ([no_wrap]); the other takes that key, or its own store stops it - a write that fails, a
    state too large, no slot left ([store_stops]).  When neither is stopped both handshakes
    complete: each end sends exactly the three frames the other needs, returns the other's
    document and leaves its store as its calls do; both sessions have one epoch and lead to one
    key. *)
Theorem first_contact_completes past_a past_b oa ob sa sb da db fa fb :
  ready past_a sa da db → ready past_b sb db da → ltb (doc_peer_id da) (doc_peer_id db) = true →
  identity_frame da = Ok fa → identity_frame db = Ok fb →
  let hint_a := hint_frame (doc_peer_id da) (watermark (kd_keys sa) (doc_peer_id db)) in
  let hint_b := hint_frame (doc_peer_id db) (watermark (kd_keys sb) (doc_peer_id da)) in
  match initiate_with oa (kd_tick sa) db (watermark (kd_keys sb) (doc_peer_id da)) (kd_keys sa) with
  | (Err e, _) => no_wrap oa db (watermark (kd_keys sb) (doc_peer_id da)) (kd_keys sa) e
  | (Ok (xa, m), ka) => ∀ fw, wrap_frame m = Ok fw →
      match respond_with ob (kd_tick sb) da m (kd_keys sb) with
      | (Err e, _) => store_stops ob da (λ made, made = m) (kd_keys sb) e
      | (Ok xb, kb) =>
          let to_b := [fa; hint_a; fw] in
          let to_a := [fb; hint_b; ack_frame (wm_epoch m)] in
          ∃ sa' sb' pa pb key,
            meet oa to_a sa = (Ok (mkEstablishedSession db xa), mkConn sa' [] [] to_b pa)
            ∧ meet ob to_b sb = (Ok (mkEstablishedSession da xb), mkConn sb' [] [] to_a pb)
            ∧ kd_keys sa' = ka ∧ kd_keys sb' = kb
            ∧ session_key ka xa key ∧ session_key kb xb key
            ∧ ps_epoch xa = wm_epoch m ∧ ps_epoch xb = wm_epoch m
      end
  end.
Proof.
  intros Hra Hrb Hlt Ha Hb hint_a hint_b.
  destruct (initiate_with _ _ _ _ _) as [[[xa m]|e] ka] eqn:Hini.
  2: { exact (initiation_stopped _ _ _ _ _ _ _ _ _ _ Hra Hrb Hlt Hini). }
  intros fw Hw. destruct (respond_with _ _ _ _ _) as [[xb|e] kb] eqn:Hres.
  - exact (contact_of_calls _ _ _ _ _ _ _ _ _ _ _ _ _ _ _ _ Hra Hrb Hlt Ha Hb Hw Hini Hres).
  - exact (response_stopped _ _ _ _ _ _ _ _ _ _ _ _ _ Hra Hrb Hlt Hini Hres).
Qed.
End first_contact.

(** ** Two members meet *)

Section sample.
#[local] Existing Instances sample_sha256 sample_mldsa sample_xwing sample_gcm sample_hkdf sample_oracle sample_addrs.

(** A process with a key store and nothing else. *)
Definition Alone : Type := StoreInner * nat.
#[local] Instance alone_keyed : Keyed Alone := {|
  kd_keys s := s.1; kd_set_keys k s := (k, s.2); kd_tick s := s.2; kd_set_tick n s := (s.1, n) |}.
#[local] Instance alone_laws : KeyedLaws Alone.
Proof. by split; intros; cbn; try done; destruct s. Qed.

(** The one with the smaller id, the other, before they know each other. *)
Definition sample_new (seed : array 32) : StoreInner := running (sample_run [sample_start seed]).1.
Definition sample_seed_small : array 32 := if ltb sample_a sample_b then sample_seed_a else sample_seed_b.
Definition sample_seed_large : array 32 := if ltb sample_a sample_b then sample_seed_b else sample_seed_a.
Definition sample_small : Alone := (sample_new sample_seed_small, 3%nat).
Definition sample_large : Alone := (sample_new sample_seed_large, 40%nat).
Definition sample_small_document : IdentityDocument := li_document (si_local sample_small.1).
Definition sample_large_document : IdentityDocument := li_document (si_local sample_large.1).

Definition value_of {A} (r : Result A) (x : A) : A := match r with Ok y => y | Err _ => x end.
Definition sample_frame : Frame := mkFrame IDENTITY_KIND [].
Definition sample_initiated := initiate_with sample_oracle 3 sample_large_document u64_zero sample_small.1.
Definition sample_message : WrapMessage := (sample_session sample_initiated.1).2.
Definition sample_responded := respond_with sample_oracle 40 sample_small_document sample_message sample_large.1.
Definition small_frame : Frame := value_of (identity_frame sample_small_document) sample_frame.
Definition large_frame : Frame := value_of (identity_frame sample_large_document) sample_frame.
Definition key_frame : Frame := value_of (wrap_frame sample_message) sample_frame.

Lemma sample_new_inv seed :
  imports_new [sample_start seed] empty_disk = true →
  (match (sample_run [sample_start seed]).1 with Running _ => true | Stopped _ => false end) = true →
  ∃ past, inv_at past (sample_new seed).
Proof.
  intros Hc%imports_new_free Hr. unfold sample_new.
  destruct (sample_run _) as [w log] eqn:He. destruct (exec_from_empty _ _ _ Hc He) as (Hi & _). exists log.
  destruct w; [exact Hi|discriminate Hr].
Qed.

(** A store that knows nobody is ready to meet anybody. *)
Definition knows_nobody (k : StoreInner) : bool :=
  (map_len (si_peers k) =? 0) && (map_len (si_pairs k) =? 0) && (map_len (si_retry_epochs k) =? 0)
  && negb (si_failed k).

Lemma map_len_0 `{Countable K} {A} (m : gmap K A) : (map_len m =? 0) = true → m = ∅.
Proof. intros Hm%N.eqb_eq. apply map_size_empty_iff. unfold map_len in Hm. lia. Qed.

Lemma knows_nobody_ready past (s : Alone) peer :
  inv_at past s.1 → knows_nobody s.1 = true → ready past s (li_document (si_local s.1)) peer.
Proof.
  intros Hi (((Hp%map_len_0 & Hq%map_len_0)%andb_true_iff & Hr%map_len_0)%andb_true_iff & Hf%negb_true_iff)%andb_true_iff.
  split; [|done|done|intros previous; cbn; by rewrite Hp].
  split; [exact Hi| |cbn; by rewrite Hq|cbn; by rewrite Hr].
  intros previous. cbn. by rewrite Hp.
Qed.

Lemma first_contact_completes_witness :
  let '((initiated, ka), (responded, kb)) := (sample_initiated, sample_responded) in
  match initiated, responded with
  | Ok (xa, _), Ok xb => ∃ key, session_key ka xa key ∧ session_key kb xb key
  | _, _ => False
  end.
Proof.
  assert (Hknows : knows_nobody sample_small.1 && knows_nobody sample_large.1 = true) by (vm_compute; reflexivity).
  apply andb_true_iff in Hknows as [Hsmall Hlarge].
  destruct (sample_new_inv sample_seed_small) as [past_a Ha].
  { vm_compute. reflexivity. }
  { vm_compute. reflexivity. }
  destruct (sample_new_inv sample_seed_large) as [past_b Hb].
  { vm_compute. reflexivity. }
  { vm_compute. reflexivity. }
  assert (Hframes : identity_frame sample_small_document = Ok small_frame
    ∧ identity_frame sample_large_document = Ok large_frame ∧ wrap_frame sample_message = Ok key_frame
    ∧ ltb (doc_peer_id sample_small_document) (doc_peer_id sample_large_document) = true
    ∧ watermark sample_large.1 (doc_peer_id sample_small_document) = u64_zero).
  { split_and!; vm_compute; reflexivity. }
  destruct Hframes as (Hfa & Hfb & Hfw & Hlt & Hzero).
  assert (Hok : is_ok sample_initiated.1 && is_ok sample_responded.1 = true) by (vm_compute; reflexivity).
  destruct sample_initiated as [[[xa m]|] ka] eqn:Hini; [|discriminate Hok].
  destruct sample_responded as [[xb|] kb] eqn:Hres; [|discriminate Hok].
  unfold sample_message in Hfw. unfold sample_responded, sample_message in Hres. rewrite Hini in Hfw, Hres. cbn [fst sample_session snd] in Hfw, Hres.
  unfold sample_initiated in Hini. rewrite <-Hzero in Hini.
  pose proof (first_contact_completes past_a past_b sample_oracle sample_oracle sample_small sample_large
    sample_small_document sample_large_document small_frame large_frame
    (knows_nobody_ready past_a sample_small sample_large_document Ha Hsmall)
    (knows_nobody_ready past_b sample_large sample_small_document Hb Hlarge) Hlt Hfa Hfb) as Hmeet.
  cbv zeta in Hmeet. change (initiate_with sample_oracle 3 sample_large_document
    (watermark sample_large.1 (doc_peer_id sample_small_document)) sample_small.1 = (Ok (xa, m), ka)) in Hini.
  cbn [kd_tick kd_keys alone_keyed] in Hmeet. change (sample_small.2) with 3%nat in Hmeet.
  change (sample_large.2) with 40%nat in Hmeet. rewrite Hini in Hmeet. specialize (Hmeet key_frame Hfw).
  rewrite Hres in Hmeet. destruct Hmeet as (_ & _ & _ & _ & key & _ & _ & _ & _ & Hka & Hkb & _).
  exact (ex_intro _ key (conj Hka Hkb)).
Defined.

(** What reaches the one with the smaller id, its end of the connection, and what comes of it. *)
Definition sample_arriving : list Frame :=
  [large_frame; hint_frame (doc_peer_id sample_large_document) u64_zero; ack_frame (wm_epoch sample_message)].
Definition sample_end : Conn Alone := mkConn sample_small (arriving sample_arriving) (writable 3) [] start_progress.
Definition sample_known (d : IdentityDocument) : Prop := d = sample_large_document.

Lemma arriving_received {T} (frames : list Frame) (s : T) writes sent progress frame :
  SessionInv.received (mkConn s (arriving frames) writes sent progress) frame → frame ∈ frames.
Proof. intros (turn & (f & [= _ ->] & Hin)%list_elem_of_fmap). exact Hin. Qed.

Lemma arriving_turns {T} (R : relation T) `{!PreOrder R} (frames : list Frame) (s : T) n sent progress :
  turns R (mkConn s (arriving frames) (writable n) sent progress).
Proof.
  split; intros turn r Hin s'.
  - apply list_elem_of_fmap in Hin as (f & [= -> _] & _). reflexivity.
  - apply list_elem_of_In, repeat_spec in Hin. injection Hin as -> _. reflexivity.
Qed.

Definition presents_only (d : IdentityDocument) (frame : Frame) : bool :=
  match decode_identity (fr_payload frame) with Ok d' => bool_decide (d' = d) | Err _ => true end.

Lemma handshake_safe_witness :
  let '(r, l') := establish None sample_end in
  match r with
  | Ok e => verify_identity (es_peer e) = Ok tt ∧ acknowledged sample_end l' (ps_epoch (es_session e))
  | Err _ => False
  end.
Proof.
  destruct (sample_new_inv sample_seed_small) as [past Hi].
  { vm_compute. reflexivity. }
  { vm_compute. reflexivity. }
  assert (Hk : knows_nobody sample_small.1 = true) by (vm_compute; reflexivity).
  assert (Hp : forallb (presents_only sample_large_document) sample_arriving = true) by (vm_compute; reflexivity).
  assert (Hok : is_ok (establish None sample_end).1 = true) by (vm_compute; reflexivity).
  assert (Hstore : store_ok (H6 := past) sample_known sample_small.1).
  { split; [exact Hi|]. apply andb_true_iff in Hk as [Hk _]. apply andb_true_iff in Hk as [Hk _].
    apply andb_true_iff in Hk as [Hk%map_len_0 _]. rewrite Hk. intros p d Hd. discriminate Hd. }
  assert (Hpresented : ∀ d, presented sample_end d → sample_known d).
  { intros d (frame & Hr%arriving_received & Hd). apply list_elem_of_In in Hr.
    pose proof (proj1 (forallb_forall _ _) Hp frame Hr) as Hf. unfold presents_only in Hf. rewrite Hd in Hf.
    exact (bool_decide_eq_true_1 _ Hf). }
  pose proof (handshake_safe (H6 := past) sample_known None (λ _, sm_ret false) sample_end
    (λ d d' Hd Hd' _, f_equal doc_vk (eq_trans Hd (eq_sym Hd'))) Hpresented Hstore
    (arriving_turns (keeps_shared sample_known) _ _ _ _ _) (λ _, link_keeps_ret _ _)
    (λ _ l, reflexivity (R := moved) l)) as Hsafe.
  unfold establish in Hok |- *. destruct (establish_guarded _ _ _) as [[e|] l']; [|discriminate Hok].
  destruct Hsafe as (_ & _ & Hsafe). destruct (Hsafe e eq_refl) as [Hv Ha].
  exact (conj (vo_verified _ _ _ Hv) (ag_acknowledged _ _ _ _ Ha)).
Defined.

(** A store that has a confirmed pair with the peer meets it again, and is to preserve the pair. *)
Definition sample_again : Conn Alone :=
  mkConn (sample_created.2, 50%nat)
    (arriving [value_of (identity_frame (sample_document sample_seed_b)) sample_frame;
               hint_frame sample_b (u64! 1); ack_frame (u64! 1)])
    (writable 3) [] start_progress.
Definition sample_met := establish_guarded None (λ _, sm_ret true) sample_again.

Lemma preserving_handshake_witness :
  is_ok sample_met.1 = true ∧ map_len (si_pairs sample_created.2) = 1
  ∧ si_pairs (kd_keys (lk_shared sample_met.2)) = si_pairs sample_created.2.
Proof.
  split; [vm_compute; reflexivity|]. split; [vm_compute; reflexivity|].
  destruct (sample_store_inv sample_seed_a sample_seed_b) as [past Hi].
  { vm_compute. reflexivity. }
  { vm_compute. reflexivity. }
  assert (Hcr : is_ok sample_created.1 && (map_len (si_candidates sample_created.2) =? 0) = true) by (vm_compute; reflexivity).
  apply andb_true_iff in Hcr as [Hok Hcand%map_len_0].
  assert (Hi' : inv_at past sample_created.2).
  { pose proof (create_inner_wp (H4 := past) sample_wrap (local_id (sample_store sample_seed_b sample_seed_a))
      (doc_ek (li_document (si_local (sample_store sample_seed_b sample_seed_a)))) (u64! 1) false
      (sample_store sample_seed_a sample_seed_b) Hi) as Hwp.
    unfold wp in Hwp. fold sample_created in Hwp. destruct sample_created as [[x|] s']; [|discriminate Hok]. apply Hwp. }
  assert (Hsettled : settled (H6 := past) (lk_shared sample_again)).
  { split; [exact Hi'|]. intros p q c _ Hc. cbn [sample_again lk_shared kd_keys alone_keyed fst] in Hc. rewrite Hcand in Hc. discriminate Hc. }
  exact (cs_pairs _ _ (proj1 (proj2 (preserving_handshake (H6 := past) None (λ _, sm_ret true) sample_again Hsettled
    (arriving_turns (keeps_pairs (H6 := past)) _ _ _ _ _) (λ _, link_keeps_ret _ _) (λ _ _, eq_refl))))).
Defined.
(** A peer agrees on a candidate at epoch 2 and then sends a plain wrap at epoch 2, which is taken:
    pair and candidate are at one epoch.  Discarding the candidate drops the keys of the peer at
    that epoch, the confirmed pair's among them. *)
Definition shared_wrap (candidate : bool) : WrapMessage :=
  (sample_session (create_inner sample_wrap sample_b (doc_ek (sample_document sample_seed_b)) (u64! 2)
    candidate sample_created.2).1).2.
Definition shared_epoch : StoreInner :=
  (unwrap_inner Written sample_a (shared_wrap false) false
    (unwrap_inner Written sample_a (shared_wrap true) true sample_received.2).2).2.

Example shared_epoch_discarded :
  (is_ok (current_session sample_a shared_epoch).1 = true)
  ∧ (current_session sample_a (discard_candidate Written sample_a shared_epoch).2).1 = Err KeyUnavailable.
Proof. split; vm_compute; reflexivity. Qed.
End sample.
