(* ===== verification/Hosting.v ===== *)
(** * Hosted vaults ([net/vaults.rs], [net/join.rs])

    The process of a host: the vaults it serves, which member is bound to which, and admission.
    A vault's host is behind an [Rc<RefCell<..>>] that the vault set and the connections share;
    here they share an address, at which [Hosting] keeps the host.  All hosts of a process use its
    one key store.  A method that awaits the directory server is given what became of the call and
    what other tasks did meanwhile. *)
From S2P Require Export Link Session Directory.
From Stdlib Require Import Lia ZifyN ZifyNat.

Open Scope N_scope.

Definition HANDSHAKE_DEADLINE : N := 5 * 1000000000.
Definition IDLE_TIMEOUT : N := 30 * 1000000000.
Definition MAX_CONNECTIONS : N := 128.
Definition MAX_PROVISIONAL : N := 32.
Definition MAX_DRAIN_BYTES : N := 64 * 1024 * 1024.
Definition MAX_DRAIN_FRAMES : N := 100000.
Definition TRANSPORT_GATE : u64 := U64 (u64_limit - 1) I.

(** ** Join requests *)

Section request.
Context `{Sha256, MlDsa65, XWing, SocketAddrs}.

Definition signing_key : SM StoreInner (array 32) := query (λ s, Ok (li_signing_seed (si_local s))).

(** [JoinRequest::sign] *)
Definition JoinRequest_sign (vault_id : VaultId) (join_code : JoinCode) : SM StoreInner JoinRequest :=
  do! document := ks_identity in
  let request signature := mkJoinRequest vault_id join_code document signature in
  do! seed := signing_key in
  do! m := sm_lift (join_request_m (request [])) in
  do! signature := sm_lift (sign seed JOIN_CONTEXT m) in
  sm_ret (request signature).

Definition JoinRequest_verify (request : JoinRequest) (exchanged : IdentityDocument) : Result unit :=
  if negb (bool_decide (jr_document request = exchanged)) then Err AuthenticationFailed
  else
    let? m := join_request_m request in
    verify (doc_vk exchanged) JOIN_CONTEXT m (jr_signature request).

(** [DirectoryAd::sign], [DirForget::sign] *)
Definition DirectoryAd_sign (vault_id : VaultId) (addr : SocketAddr) (issued_at : u64)
    : SM StoreInner DirectoryAd :=
  do! identity := ks_identity in
  do! seed := signing_key in
  sm_lift (sign_ad identity seed vault_id addr issued_at).

Definition DirForget_sign (vault_id : VaultId) (join_code : JoinCode) (issued_at : u64)
    : SM StoreInner DirForget :=
  do! peer_id := ks_peer in
  do! seed := signing_key in
  let request signature := mkDirForget peer_id vault_id join_code issued_at signature in
  do! m := sm_lift (dir_forget_m (request [])) in
  do! signature := sm_lift (sign seed DIRECTORY_CONTEXT m) in
  sm_ret (request signature).
End request.

(** ** A hosted vault *)

Record VaultHost := mkVaultHost {
  vh_host : HostService;
  vh_active_peers : gset PeerId;
}.
Definition set_vh_host v s := mkVaultHost v (vh_active_peers s).
Definition set_vh_active v s := mkVaultHost (vh_host s) v.

Section vault.
Context `{Sha256, MlDsa65, XWing, AesGcm, HkdfSha256, Oracle, SocketAddrs}.

(** A method of the host service, and of its key store. *)
Definition in_service {A} (m : SM HostService A) : SM VaultHost A := sm_zoom vh_host set_vh_host m.
Definition vault_keys {A} (m : SM StoreInner A) : SM VaultHost A := in_service (on_keys m).

(** [self.host.admission().expect(..)]; a panic is an error here. *)
Definition admission : SM VaultHost VaultMetadata :=
  do! v := sm_get in
  sm_lift (ok_or (st_admission (hs_state (vh_host v)))
             (State "VaultHost always attaches admission metadata")).

(** The admission file, or the metadata of a vault that starts. *)
Definition vault_metadata : SM World VaultMetadata :=
  do! disk := disk_get in
  do! content := sm_lift (read_private (dk_admission disk)) in
  match content with
  | Some content => sm_lift (decode_vault_metadata content)
  | None =>
      do! vault_id := random_bytes 32 in
      do! join_code := random_bytes 16 in
      do! local := keys ks_peer in
      sm_ret (mkVaultMetadata vault_id join_code u64_zero [local] ∅)
  end.

(** A host service that starts on the process's world. *)
Definition attached (metadata : VaultMetadata) (m : SM HostService unit) (h : HostService)
    : SM World VaultHost := λ w,
  match (do! _ := m in attach_admission metadata) (set_hs_world w h) with
  | (Ok _, h) => (Ok (mkVaultHost h ∅), hs_world h)
  | (Err e, h) => (Err e, hs_world h)
  end.

(** [VaultHost::load_or_create] *)
Definition load_or_create : SM World VaultHost :=
  do! metadata := vault_metadata in
  do! s := new_in_vault (list_to_set (vm_members metadata)) MemoryChunkStore_new (vm_vault_id metadata) in
  λ w, attached metadata (sm_ret tt) (new_service w s) w.

(** [VaultHost::open_durable] *)
Definition vault_open : SM World VaultHost :=
  do! _ := recover_admission_transaction in
  do! metadata := vault_metadata in
  do! h := host_open (vm_vault_id metadata) (list_to_set (vm_members metadata)) in
  attached metadata (sm_ret tt) h.

(** [VaultHost::resume] *)
Definition vault_resume (s : HostState) : SM World VaultHost :=
  do! disk := disk_get in
  do! content := sm_lift (read_private (dk_admission disk)) in
  do! content := sm_lift (ok_or content (State "vault admission metadata is missing")) in
  do! metadata := sm_lift (decode_vault_metadata content) in
  λ w, attached metadata resume (new_service w s) w.

(** ** Advertising *)

Definition ad_exhausted : Error := State "ad timestamp exhausted".

(** [unix_time()?.max(issued_at.checked_add(1).ok_or(..)?)] *)
Definition next_issued_at : SM VaultHost u64 :=
  do! now := in_service (on_world unix_time) in
  do! metadata := admission in
  do! next := sm_lift (ok_or (u64_checked_add (vm_issued_at metadata) 1) ad_exhausted) in
  sm_ret (u64_max now next).

Definition set_vm_issued_at (issued_at : u64) (m : VaultMetadata) : VaultMetadata :=
  mkVaultMetadata (vm_vault_id m) (vm_join_code m) issued_at (vm_members m) (vm_denied m).
Definition set_vm_join_code (code : JoinCode) (m : VaultMetadata) : VaultMetadata :=
  mkVaultMetadata (vm_vault_id m) code (vm_issued_at m) (vm_members m) (vm_denied m).

(** [VaultHost::publish]; [put] is what became of the request to the directory. *)
Definition publish (addr : SocketAddr) (put : Result unit) : SM VaultHost DirectoryAd :=
  do! issued_at := next_issued_at in
  do! metadata := admission in
  do! ad := vault_keys (DirectoryAd_sign (vm_vault_id metadata) addr issued_at) in
  do! _ := sm_lift put in
  do! _ := in_service (set_admission (set_vm_issued_at issued_at metadata)) in
  sm_ret ad.

(** What [republish] does before it calls the directory: the request it makes. *)
Definition republish_local (addr : SocketAddr) : SM VaultHost (JoinCode * DirectoryAd) :=
  do! metadata := admission in
  do! issued_at := next_issued_at in
  do! ad := vault_keys (DirectoryAd_sign (vm_vault_id metadata) addr issued_at) in
  do! _ := in_service (set_admission (set_vm_issued_at issued_at metadata)) in
  sm_ret (vm_join_code metadata, ad).

(** The same of [rotate_code_with]: the new code is in force before the directory hears of it. *)
Definition rotate_local (addr : SocketAddr) (code : JoinCode)
    : SM VaultHost (JoinCode * DirectoryAd * DirForget) :=
  do! old := admission in
  do! issued_at := next_issued_at in
  do! forgotten_at := sm_lift (ok_or (u64_checked_add issued_at 1) ad_exhausted) in
  do! metadata := admission in
  do! ad := vault_keys (DirectoryAd_sign (vm_vault_id metadata) addr issued_at) in
  do! forget := vault_keys (DirForget_sign (vm_vault_id metadata) (vm_join_code old) forgotten_at) in
  do! _ := in_service (set_admission (set_vm_issued_at forgotten_at (set_vm_join_code code metadata))) in
  sm_ret (code, ad, forget).

(** The same of [kick_with_code]: the timestamps were reserved by the kick. *)
Definition kick_local (addr : SocketAddr) (target : PeerId) (code : JoinCode)
    : SM VaultHost (PeerId * JoinCode * DirectoryAd * DirForget) :=
  do! old := admission in
  do! kicked := in_service (kick_with_code target (Some code)) in
  do! metadata := admission in
  let forgotten_at := vm_issued_at metadata in
  do! issued_at := sm_lift (ok_or (u64_checked_sub forgotten_at 1)
                             (State "ad timestamp is not reserved")) in
  do! ad := vault_keys (DirectoryAd_sign (vm_vault_id metadata) addr issued_at) in
  do! forget := vault_keys (DirForget_sign (vm_vault_id metadata) (vm_join_code old) forgotten_at) in
  sm_ret (kicked, vm_join_code metadata, ad, forget).

(** ** Admission *)

Definition VaultHost_admit (request : JoinRequest) (peer : IdentityDocument) : SM VaultHost unit :=
  do! _ := sm_lift (JoinRequest_verify request peer) in
  do! metadata := admission in
  do! v := sm_get in
  let s := hs_state (vh_host v) in
  check! bool_decide (jr_vault_id request = vm_vault_id metadata)
         && negb (bool_decide (doc_peer_id peer ∈ st_denied s))
    else AuthenticationFailed in
  check! hs_running (vh_host v) else State "host is not running" in
  let current_code := bool_decide (jr_join_code request = vm_join_code metadata) in
  if bool_decide (doc_peer_id peer ∈ st_members s) then sm_ret tt
  else
    check! current_code else AuthenticationFailed in
    in_service (add_member peer).

(** The document of each member. *)
Definition member_document (peer : PeerId) : SM VaultHost IdentityDocument :=
  do! local := vault_keys ks_peer in
  if bool_decide (peer = local) then vault_keys ks_identity
  else vault_keys (load_verified_peer peer).

Definition welcome : SM VaultHost NetControl :=
  do! v := sm_get in
  let s := hs_state (vh_host v) in
  do! members := sm_map member_document (sorted_elements (st_members s)) in
  do! metadata := admission in
  sm_ret (JoinAccepted (vm_vault_id metadata) members (historical_documents (vh_host v)) (st_denied s)).

(** The peer becomes active before it is admitted, and is not if it is refused. *)
Definition activate (request : JoinRequest) (peer : IdentityDocument) : SM VaultHost unit :=
  do! v := sm_get in
  check! negb (bool_decide (doc_peer_id peer ∈ vh_active_peers v)) else State "peer already connected" in
  do! _ := sm_put (set_vh_active ({[doc_peer_id peer]} ∪ vh_active_peers v) v) in
  sm_catch (VaultHost_admit request peer) (λ error,
    do! v := sm_get in
    do! _ := sm_put (set_vh_active (vh_active_peers v ∖ {[doc_peer_id peer]}) v) in
    sm_err error).
End vault.

(** ** The process *)

Record PairBinding := mkPairBinding {
  pb_vault_id : VaultId;
  pb_confirmed_epoch : option Epoch;
}.

Section hosting.
Context `{Sha256, MlDsa65, XWing, AesGcm, HkdfSha256, Oracle, SocketAddrs}.

Record Hosting := mkHosting {
  ho_keys : StoreInner;
  ho_tick : nat;
  (** The hosts in memory by address; a host that left the set is still there for its connections. *)
  ho_cells : gmap N VaultHost;
  (** [VaultSetState] *)
  ho_vaults : gmap VaultId N;
  ho_bindings : gmap PeerId PairBinding;
  (** What the connections of [serve_host] count. *)
  ho_handshakes : gset PeerId;
  ho_connections : N;
  ho_provisional : N;
}.

Definition set_ho_keys v h := mkHosting v (ho_tick h) (ho_cells h) (ho_vaults h) (ho_bindings h) (ho_handshakes h) (ho_connections h) (ho_provisional h).
Definition set_ho_tick v h := mkHosting (ho_keys h) v (ho_cells h) (ho_vaults h) (ho_bindings h) (ho_handshakes h) (ho_connections h) (ho_provisional h).
Definition set_ho_cells v h := mkHosting (ho_keys h) (ho_tick h) v (ho_vaults h) (ho_bindings h) (ho_handshakes h) (ho_connections h) (ho_provisional h).
Definition set_ho_vaults v h := mkHosting (ho_keys h) (ho_tick h) (ho_cells h) v (ho_bindings h) (ho_handshakes h) (ho_connections h) (ho_provisional h).
Definition set_ho_bindings v h := mkHosting (ho_keys h) (ho_tick h) (ho_cells h) (ho_vaults h) v (ho_handshakes h) (ho_connections h) (ho_provisional h).
Definition set_ho_handshakes v h := mkHosting (ho_keys h) (ho_tick h) (ho_cells h) (ho_vaults h) (ho_bindings h) v (ho_connections h) (ho_provisional h).
Definition set_ho_connections v h := mkHosting (ho_keys h) (ho_tick h) (ho_cells h) (ho_vaults h) (ho_bindings h) (ho_handshakes h) v (ho_provisional h).
Definition set_ho_provisional v h := mkHosting (ho_keys h) (ho_tick h) (ho_cells h) (ho_vaults h) (ho_bindings h) (ho_handshakes h) (ho_connections h) v.

#[export] Instance hosting_keyed : Keyed Hosting :=
  {| kd_keys := ho_keys; kd_set_keys := set_ho_keys; kd_tick := ho_tick; kd_set_tick := set_ho_tick |}.
#[export] Instance hosting_laws : KeyedLaws Hosting.
Proof. split; try done. by intros []. Qed.

Definition host_update (f : Hosting → Hosting) : SM Hosting unit := λ h, (Ok tt, f h).
Definition hosting_keys {A} (m : SM StoreInner A) : SM Hosting A := sm_zoom ho_keys set_ho_keys m.

(** The process's key store and draws, put in a host's world for the time of a call. *)
Definition load_vault (k : StoreInner) (tick : nat) (v : VaultHost) : VaultHost :=
  let w := set_w_tick tick (set_w_keys k (hs_world (vh_host v))) in
  set_vh_host (set_hs_world w (vh_host v)) v.

(** A call on the host at an address.  No address is freed while it is held. *)
Definition on_cell {A} (a : N) (m : SM VaultHost A) : SM Hosting A := λ h,
  match ho_cells h !! a with
  | None => (Err (State "vault host is gone"), h)
  | Some v =>
      let '(r, v) := m (load_vault (ho_keys h) (ho_tick h) v) in
      let w := hs_world (vh_host v) in
      (r, set_ho_cells (<[a := v]> (ho_cells h)) (set_ho_tick (w_tick w) (set_ho_keys (w_keys w) h)))
  end.
Definition on_service {A} (a : N) (m : SM HostService A) : SM Hosting A := on_cell a (in_service m).

Definition cell_vault_id (a : N) : SM Hosting VaultId :=
  on_cell a (do! metadata := admission in sm_ret (vm_vault_id metadata)).
Definition cell_members (a : N) : SM Hosting (gset PeerId) :=
  on_service a (do! h := sm_get in sm_ret (st_members (hs_state h))).

(** [Rc::new(RefCell::new(vault))] *)
Definition new_cell (v : VaultHost) : SM Hosting N := λ h,
  let a := N.of_nat (size (ho_cells h)) in
  (Ok a, set_ho_cells (<[a := v]> (ho_cells h)) h).

(** ** The vault set ([net/vaults.rs]) *)

Definition has_session (peer : PeerId) : SM Hosting bool := λ h,
  (Ok (is_ok (current_session peer (ho_keys h)).1), h).

Definition VaultSet_new (k : StoreInner) : Result Hosting :=
  let? _ := (ks_peer k).1 in
  Ok (mkHosting k 0 ∅ ∅ ∅ ∅ 0 0).

Definition conflict (peer bound requested : array 32) : Error :=
  VaultSessionConflict (array_bytes peer) (array_bytes bound) (array_bytes requested).

(** The binding a member with a pair gets when its vault is hosted. *)
Definition bind_member (local : PeerId) (vault_id : VaultId) (bindings : gmap PeerId PairBinding)
    (member : PeerId) : SM Hosting (gmap PeerId PairBinding) :=
  do! paired := (if bool_decide (member = local) then sm_ret false else has_session member) in
  if negb paired then sm_ret bindings
  else
    check! match bindings !! member with
           | Some bound => bool_decide (pb_vault_id bound = vault_id)
           | None => true
           end else match bindings !! member with
                    | Some bound => conflict member (pb_vault_id bound) vault_id
                    | None => AuthenticationFailed
                    end in
    sm_ret (<[member := mkPairBinding vault_id None]> bindings).

(** [VaultSet::insert] *)
Definition vaultset_insert (a : N) : SM Hosting unit :=
  do! vault_id := cell_vault_id a in
  do! peer_id := hosting_keys ks_peer in
  do! local := hosting_keys ks_peer in
  check! bool_decide (peer_id = local) else InvalidInput "vault host identity differs from vault set" in
  do! h := sm_get in
  check! bool_decide (ho_vaults h !! vault_id = None) else InvalidInput "vault is already hosted" in
  do! members := cell_members a in
  do! h := sm_get in
  do! bindings := sm_fold (bind_member peer_id vault_id) (sorted_elements members) (ho_bindings h) in
  do! _ := host_update (set_ho_bindings bindings) in
  host_update (λ h, set_ho_vaults (<[vault_id := a]> (ho_vaults h)) h).

(** [VaultSet::remove] *)
Definition vaultset_remove (vault_id : VaultId) : SM Hosting (option N) :=
  do! h := sm_get in
  match ho_vaults h !! vault_id with
  | None => sm_ret None
  | Some a =>
      do! _ := host_update (set_ho_vaults (delete vault_id (ho_vaults h))) in
      do! _ := host_update (λ h, set_ho_bindings
                 (filter (λ p, pb_vault_id p.2 ≠ vault_id) (ho_bindings h)) h) in
      sm_ret (Some a)
  end.

Definition vaults : SM Hosting (list N) := do! h := sm_get in sm_ret (map_values (ho_vaults h)).
Definition get_vault (vault_id : VaultId) : SM Hosting (option N) :=
  do! h := sm_get in sm_ret (ho_vaults h !! vault_id).
Definition bound_vault (peer : PeerId) : SM Hosting (option VaultId) :=
  do! h := sm_get in sm_ret (pb_vault_id <$> (ho_bindings h !! peer)).

Definition has_confirmed_pair (peer : PeerId) : SM Hosting bool := λ h,
  (Ok match ho_bindings h !! peer with
      | Some binding =>
          match pb_confirmed_epoch binding, (current_session peer (ho_keys h)).1 with
          | Some confirmed, Ok session => bool_decide (KeyStore.ps_epoch session = confirmed)
          | _, _ => false
          end
      | None => false
      end, h).

Definition check_binding (peer : PeerId) (requested : VaultId) : SM Hosting unit :=
  do! bound := bound_vault peer in
  match bound with
  | Some bound =>
      check! bool_decide (bound = requested) else conflict peer bound requested in sm_ret tt
  | None => sm_ret tt
  end.

Definition set_refresh_mailboxes : SM Hosting unit :=
  do! addresses := vaults in
  sm_each (λ a, on_service a refresh_mailboxes) addresses.

Definition set_stop : SM Hosting unit :=
  do! addresses := vaults in
  sm_each (λ a, on_service a (update (set_hs_running false))) addresses.

Definition unbind (peer : PeerId) (vault_id : VaultId) : SM Hosting unit :=
  host_update (λ h,
    if match ho_bindings h !! peer with
       | Some binding => bool_decide (pb_vault_id binding = vault_id)
       | None => false
       end
    then set_ho_bindings (delete peer (ho_bindings h)) h else h).

Definition bind (peer : PeerId) (vault_id : VaultId) : SM Hosting unit :=
  do! _ := check_binding peer vault_id in
  do! session := hosting_keys (current_session peer) in
  host_update (λ h, set_ho_bindings
    (<[peer := mkPairBinding vault_id (Some (KeyStore.ps_epoch session))]> (ho_bindings h)) h).

Definition set_take_disconnects : SM Hosting (list PeerId) :=
  do! addresses := vaults in
  sm_fold (λ disconnected a,
    do! vault_id := cell_vault_id a in
    do! peers := on_service a take_disconnects in
    do! _ := sm_each (λ peer, unbind peer vault_id) peers in
    sm_ret (disconnected ++ peers)) addresses [].

(** [VaultSet::from] *)
Definition vaultset_from (v : VaultHost) : Result Hosting :=
  let w := hs_world (vh_host v) in
  let? metadata := ok_or (st_admission (hs_state (vh_host v)))
                     (State "VaultHost always attaches admission metadata") in
  let vault_id := vm_vault_id metadata in
  let paired := filter (λ p, is_ok (current_session p (w_keys w)).1 = true)
                  (st_members (hs_state (vh_host v))) in
  Ok (mkHosting (w_keys w) (w_tick w) {[0 := v]} {[vault_id := 0]}
        (gset_to_gmap (mkPairBinding vault_id None) paired) ∅ 0 0).
End hosting.
