(* ===== verification/Channel.v ===== *)
(** * Encrypted messages on a connection ([net/join.rs], [net/locate.rs])

    What both ends of a joined connection share: control messages sealed under the pair key, the
    frames a mailbox travels in, and have queries. *)
From S2P Require Export Session Pull Hosting.
From Stdlib Require Import Lia ZifyN ZifyNat.

Open Scope N_scope.

#[export] Instance NetControl_eq_dec : EqDecision NetControl.
Proof. solve_decision. Defined.

(** [bytes.starts_with(prefix)] *)
Definition starts_with (prefix l : bytes) : bool := bool_decide (take (length prefix) l = prefix).

Section channel.
Context `{Sha256, MlDsa65, XWing, AesGcm, HkdfSha256, Oracle, SocketAddrs}.

(** ** Mailbox frames *)

Definition body_frame (envelope : MailboxEnvelope) : Result Frame :=
  let header := mkPacketHeader PROTOCOL_VERSION (env_sender_id envelope) (env_recipient_id envelope)
                  (env_epoch envelope) (env_seq envelope) in
  let? frame := decode_mailbox_frame (env_ciphertext envelope) in
  match frame with
  | FControl ciphertext =>
      let? payload := encode_control_packet (mkControlPacket header ciphertext) in
      Frame_new GCM_PACKET_KIND payload
  | FChunkBody file_id index ciphertext =>
      let? payload := encode_chunk_body_frame (mkChunkBodyFrame header file_id index ciphertext) in
      Frame_new GCM_CHUNK_KIND payload
  end.

Definition queued_frame (received : Frame) : Result MailboxEnvelope :=
  let? (header, inner) :=
    (if bool_decide (fr_kind received = GCM_PACKET_KIND) then
       let? packet := decode_control_packet (fr_payload received) in
       Ok (cp_header packet, FControl (cp_ciphertext packet))
     else if bool_decide (fr_kind received = GCM_CHUNK_KIND) then
       let? body := decode_chunk_body_frame (fr_payload received) in
       Ok (cb_header body, FChunkBody (cb_file_id body) (cb_index body) (cb_ciphertext body))
     else Err (State "unexpected frame during mailbox drain")) in
  let? ciphertext := encode_mailbox_frame inner in
  Ok (mkMailboxEnvelope (hdr_receiver_id header) (hdr_sender_id header) (hdr_epoch header)
        (hdr_seq header) u64_zero ciphertext).

(** ** Sending and reading *)

Definition packet_frame (packet : ControlPacket) : Result Frame :=
  let? payload := encode_control_packet packet in Frame_new GCM_PACKET_KIND payload.
Definition chunk_frame (body : ChunkBodyFrame) : Result Frame :=
  let? payload := encode_chunk_body_frame body in Frame_new GCM_CHUNK_KIND payload.

Context {S : Type} `{!Keyed S}.

(** [send_frame]; its timeout is one way a write fails. *)
Definition send_frame (frame : Result Frame) : SM (Conn S) unit :=
  do! frame := sm_lift frame in write_link frame.

Definition control_frame (selected : PairSession) (control : NetControl) : SM StoreInner Frame :=
  do! plaintext := sm_lift (encode_net_control control) in
  do! packet := seal_packet_with_session selected plaintext in
  sm_lift (packet_frame packet).

(** [send_control_for_session(..).await], its outcome as a value. *)
Definition try_send_control_for_session (selected : PairSession) (control : NetControl)
    : SM (Conn S) (Result unit) :=
  do! frame := sm_attempt (link_keys (control_frame selected control)) in
  match frame with
  | Ok frame => try_write_link frame
  | Err e => sm_ret (Err e)
  end.

Definition send_control_for_session (selected : PairSession) (control : NetControl)
    : SM (Conn S) unit :=
  do! r := try_send_control_for_session selected control in sm_lift r.

Definition send_control (peer : PeerId) (control : NetControl) : SM (Conn S) unit :=
  do! session := link_keys (current_session peer) in
  send_control_for_session session control.

(** A frame that is not the duplicate of the acknowledgement of [epoch]. *)
Definition after_ack (epoch : Epoch) (frame : Frame) : SM (Conn S) (option Frame) :=
  if bool_decide (fr_kind frame = WRAP_ACK_KIND) then
    do! (ack, retry) := sm_lift (decode_wrap_ack (fr_payload frame)) in
    sm_ret (if bool_decide (ack = epoch) && negb retry then None else Some frame)
  else sm_ret (Some frame).

Definition read_after_ack (epoch : Epoch) : SM (Conn S) Frame := read_loop (after_ack epoch).

Definition read_control_for_session (selected : PairSession) : SM (Conn S) NetControl :=
  do! received := read_after_ack (KeyStore.ps_epoch selected) in
  check! bool_decide (fr_kind received = GCM_PACKET_KIND) else State "expected encrypted control" in
  do! packet := sm_lift (decode_control_packet (fr_payload received)) in
  do! plaintext := link_keys (open_packet_with_session selected packet) in
  sm_lift (decode_net_control plaintext).

Definition read_control (peer : PeerId) : SM (Conn S) NetControl :=
  do! session := link_keys (current_session peer) in
  read_control_for_session session.

Definition require_live_header (header : PacketHeader) (sender receiver : PeerId)
    : SM StoreInner unit :=
  if negb (bool_decide (hdr_sender_id header = sender))
     || negb (bool_decide (hdr_receiver_id header = receiver))
     || negb (bool_decide (hdr_version header = PROTOCOL_VERSION))
  then sm_err AuthenticationFailed
  else
    do! session := current_session sender in
    check! bool_decide (hdr_epoch header = KeyStore.ps_epoch session) else AuthenticationFailed in
    sm_ret tt.

(** A pair that came of a join that was refused. *)
Definition discard_rejected_candidate (selected : PairSession) (had_pair : bool)
    : SM (Conn S) unit :=
  let peer := KeyStore.ps_peer_id selected in
  do! candidate := sm_attempt (link_keys (candidate_session peer)) in
  if match candidate with
     | Ok s => bool_decide (KeyStore.ps_epoch s = KeyStore.ps_epoch selected)
     | Err _ => false
     end
  then link_write (λ io, discard_candidate io peer)
  else if negb had_pair then link_write (λ io, discard_pair io peer)
  else sm_ret tt.

(** ** Have queries ([net/locate.rs]) *)

(** A packet with a plaintext, sealed for the peer and sent. *)
Definition send_packet (peer : PeerId) (plaintext : Result bytes) : SM (Conn S) unit :=
  do! plaintext := sm_lift plaintext in
  do! packet := link_keys (session_seal_packet peer plaintext) in
  send_frame (packet_frame packet).

Definition require_header (peer : PeerId) (header : PacketHeader) : SM StoreInner unit :=
  if negb (bool_decide (hdr_version header = PROTOCOL_VERSION))
     || negb (bool_decide (hdr_sender_id header = peer))
  then sm_err AuthenticationFailed
  else
    do! local := ks_peer in
    check! bool_decide (hdr_receiver_id header = local) else AuthenticationFailed in
    do! session := current_session peer in
    check! bool_decide (hdr_epoch header = KeyStore.ps_epoch session) else AuthenticationFailed in
    sm_ret tt.

(** The plaintext of the packet that comes next. *)
Definition read_have (peer : PeerId) (expected : string) : SM (Conn S) bytes :=
  do! received := read_link in
  do! _ := link_keys (require_live_traffic peer) in
  check! bool_decide (fr_kind received = GCM_PACKET_KIND) else State expected in
  do! packet := sm_lift (decode_control_packet (fr_payload received)) in
  do! _ := link_keys (require_header peer (cp_header packet)) in
  link_keys (session_open_packet peer packet).

Definition query_over_stream (peer : PeerId) (query : HaveQuery) : SM (Conn S) HaveReply :=
  do! _ := link_keys (require_live_traffic peer) in
  do! _ := send_packet peer (encode_have_query query) in
  do! plaintext := read_have peer "expected encrypted have reply" in
  do! reply := sm_lift (decode_have_reply plaintext) in
  do! _ := sm_lift (HaveReply_validate reply query) in
  sm_ret reply.

(** [chunks] reads the shared chunk store. *)
Definition serve_have_once (peer : PeerId) (chunks : SM S MemoryChunkStore) : SM (Conn S) unit :=
  do! _ := link_keys (require_live_traffic peer) in
  do! plaintext := read_have peer "expected encrypted have query" in
  do! query := sm_lift (decode_have_query plaintext) in
  do! store := shared chunks in
  do! reply := sm_lift (answer_have query store) in
  send_packet peer (encode_have_reply reply).
End channel.
