(* ===== verification/Serve.v ===== *)
(** * Serving members ([net/join.rs])

    What [serve_host] does for a connection: the handshake, the join request and its admission,
    the drain of the member's mailbox, and then whatever the member asks, until the connection
    ends.  The connection is a task over the process's [Hosting]; it holds the address of its
    vault's host. *)
From S2P Require Export Channel.
From Stdlib Require Import Lia ZifyN ZifyNat.

Open Scope N_scope.

Section serve.
Context `{Sha256, MlDsa65, XWing, AesGcm, HkdfSha256, Oracle, SocketAddrs}.

Definition Task (A : Type) : Type := SM (Conn Hosting) A.
Definition task_service {A} (a : N) (m : SM HostService A) : Task A := shared (on_service a m).

(** ** Permits *)

(** [CounterPermit::acquire], for a connection and for its handshake. *)
Definition accept_connection : SM Hosting bool :=
  do! h := sm_get in
  if MAX_CONNECTIONS <=? ho_connections h then sm_ret false
  else if MAX_PROVISIONAL <=? ho_provisional h then sm_ret false
  else
    do! _ := host_update (λ h, set_ho_connections (ho_connections h + 1) h) in
    do! _ := host_update (λ h, set_ho_provisional (ho_provisional h + 1) h) in
    sm_ret true.

Definition drop_connection : SM Hosting unit := host_update (λ h, set_ho_connections (ho_connections h - 1) h).
Definition drop_provisional : SM Hosting unit := host_update (λ h, set_ho_provisional (ho_provisional h - 1) h).

(** [HandshakePermit::acquire], into the task's variable. *)
Definition acquire_handshake (peer : PeerId) : Task unit :=
  do! taken := shared (do! h := sm_get in
    if bool_decide (peer ∈ ho_handshakes h) then sm_ret false
    else do! _ := host_update (λ h, set_ho_handshakes ({[peer]} ∪ ho_handshakes h) h) in sm_ret true) in
  check! taken else State "peer handshake already in progress" in
  locals_update (λ v, mkLocals (lc_progress v) (Some peer) (lc_admitted v)).

Definition drop_handshake : Task unit :=
  do! v := locals_get in
  match lc_permit v with
  | Some peer =>
      do! _ := shared (host_update (λ h, set_ho_handshakes (ho_handshakes h ∖ {[peer]}) h)) in
      locals_update (λ v, mkLocals (lc_progress v) None (lc_admitted v))
  | None => sm_ret tt
  end.

(** [PeerPermit::drop] *)
Definition drop_peer (a : N) (vault_id : VaultId) (peer : PeerId) : SM Hosting unit :=
  do! _ := on_cell a (
    do! v := sm_get in
    do! _ := sm_put (set_vh_active (vh_active_peers v ∖ {[peer]}) v) in
    do! _ := sm_attempt (in_service (heartbeat peer 0)) in
    sm_ret tt) in
  do! paired := has_session peer in
  if paired : bool then sm_ret tt else unbind peer vault_id.

(** ** Admission *)

(** A join that ends before it names a vault. *)
Definition refuse_request {A} (selected : PairSession) (peer : PeerId) (had_pair : bool) (error : Error)
    : Task A :=
  do! denial := try_send_control_for_session selected AdmissionDenied in
  do! _ := (if had_pair then sm_ret tt else link_write (λ io, discard_pair io peer)) in
  do! _ := sm_lift denial in
  sm_err error.

(** A join request refused for what it asks. *)
Definition refuse_join {A} (selected : PairSession) (had_pair : bool) (denial : NetControl) (error : Error)
    : Task A :=
  do! denial := try_send_control_for_session selected denial in
  do! _ := discard_rejected_candidate selected had_pair in
  do! _ := sm_lift denial in
  sm_err error.

Definition open_request (peer : IdentityDocument) (selected : PairSession) (frame : Frame)
    : SM StoreInner JoinRequest :=
  do! packet := sm_lift (decode_control_packet (fr_payload frame)) in
  do! plaintext := open_packet_with_session selected packet in
  sm_lift (decode_join_request plaintext peer).

Definition hosting_write {A} (m : WriteOutcome → SM StoreInner A) : SM Hosting A := λ h,
  hosting_keys (m (oc_write (ho_tick h))) (set_ho_tick (Datatypes.S (ho_tick h)) h).

(** The closure [admit] of [serve_host]: one turn of the host's thread. *)
Definition admit_peer (request : JoinRequest) (peer : IdentityDocument) (selected : PairSession)
    : SM Hosting (N * VaultId) :=
  let id := doc_peer_id peer in
  do! found := get_vault (jr_vault_id request) in
  do! a := sm_lift (ok_or found AuthenticationFailed) in
  do! _ := on_cell a (activate request peer) in
  do! h := sm_get in
  do! _ :=
    (if match (candidate_session id (ho_keys h)).1 with
        | Ok s => bool_decide (KeyStore.ps_epoch s = KeyStore.ps_epoch selected)
        | Err _ => false
        end
     then
       do! old := hosting_keys (current_session id) in
       do! _ := hosting_write (λ io, promote_candidate io id (KeyStore.ps_epoch selected)) in
       hosting_write (λ io, retire io (ps_key_handle old))
     else sm_ret tt) in
  do! _ := bind id (jr_vault_id request) in
  do! _ := hosting_keys (block_live_traffic id TRANSPORT_GATE) in
  sm_ret (a, jr_vault_id request).

(** Up to the admission of the peer, under the handshake's deadline: the peer, its vault's host
    and the vault's id. *)
Definition admit_connection : Task (PeerId * N * VaultId) :=
  do! established := establish_guarded None (λ id,
    do! _ := acquire_handshake id in
    shared (has_confirmed_pair id)) in
  let peer := es_peer established in
  let selected := es_session established in
  do! frame := read_after_ack (KeyStore.ps_epoch selected) in
  do! v := locals_get in
  let had_pair := hp_had_pair (lc_progress v) in
  if negb (bool_decide (fr_kind frame = GCM_PACKET_KIND)) then
    refuse_request selected (doc_peer_id peer) had_pair AuthenticationFailed
  else
    do! request := sm_attempt (link_keys (open_request peer selected frame)) in
    match request with
    | Err error => refuse_request selected (doc_peer_id peer) had_pair error
    | Ok request =>
        do! bound := shared (bound_vault (doc_peer_id peer)) in
        do! _ := match bound with
                 | Some bound =>
                     if negb (bool_decide (bound = jr_vault_id request)) then
                       refuse_join selected had_pair (JoinRejected bound (jr_vault_id request))
                         (conflict (doc_peer_id peer) bound (jr_vault_id request))
                     else sm_ret tt
                 | None => sm_ret tt
                 end in
        do! admitted := sm_attempt (shared (admit_peer request peer selected)) in
        match admitted with
        | Ok (a, vault_id) => sm_ret (doc_peer_id peer, a, vault_id)
        | Err error => refuse_join selected had_pair AdmissionDenied error
        end
    end.

(** ** The mailbox drain *)

(** The offer, with the challenge that is to be signed. *)
Definition flush_offer (peer : PeerId) : SM HostService FlushOffer :=
  do! _ := refresh_mailboxes in
  do! queue := mailbox peer in
  do! count := sm_lift (ok_or (u32_of_N (lenN queue)) (State "mailbox too large")) in
  check! negb (MAX_DRAIN_FRAMES <? u32_N count) else State "mailbox drain exceeds frame budget" in
  do! challenge := issue_flush_challenge peer in
  do! h := sm_get in
  sm_ret (mkFlushOffer challenge count (historical_documents h)
            (st_bootstrap_through (hs_state h) !! peer)).

Definition flush_to_peer (a : N) (peer : PeerId) : Task unit :=
  do! offer := task_service a (flush_offer peer) in
  do! _ := send_frame (let? payload := encode_flush_offer offer in Frame_new FLUSH_CHALLENGE_KIND payload) in
  do! session := link_keys (current_session peer) in
  do! sig := read_after_ack (KeyStore.ps_epoch session) in
  check! bool_decide (fr_kind sig = FLUSH_SIGNATURE_KIND) else State "expected flush signature" in
  do! prepared := task_service a (prepare_flush peer (fo_challenge offer) (fr_payload sig)) in
  check! bool_decide (lenN (phf_envelopes prepared) = u32_N (fo_frame_count offer))
         && bool_decide (phf_bootstrap_through prepared = fo_bootstrap_through offer)
    else State "mailbox changed during challenge" in
  do! digest := sm_lift (flush_transport_digest_with_bootstrap (phf_envelopes prepared)
                           (fo_historical offer) (fo_bootstrap_through offer)) in
  do! _ := sm_each (λ envelope, send_frame (body_frame envelope)) (phf_envelopes prepared) in
  do! _ := send_control peer (FlushEnd digest) in
  do! ack := read_control peer in
  check! bool_decide (ack = FlushApplied digest) else AuthenticationFailed in
  do! _ := task_service a (acknowledge_flush peer prepared) in
  send_control peer Ready.

(** ** Live requests *)

Record PendingUpload := mkPendingUpload {
  pu_trusted : TrustedManifest;
  pu_bodies : gmap u64 bytes;
  pu_bytes : N;
}.

Definition upload_complete (pending : PendingUpload) : bool :=
  bool_decide (map_len (pu_bodies pending) = lenN (mf_chunk_ids (manifest (pu_trusted pending)))).

(** The peer's chunks, for [InProcessPullCoordinator]. *)
Definition in_pull {A} (m : SM Peer A) : SM HostService A := λ h,
  let '(r, p) := m (mkPeer (hs_world h) (st_chunks (hs_state h))) in
  (r, set_hs_state (set_st_chunks (pe_chunks p) (hs_state h)) (set_hs_world (pe_world p) h)).

(** The pending controls, then the membership that lets the member check them. *)
Definition send_member_state (a : N) (peer : PeerId) : Task unit :=
  do! packets := task_service a (take_online_control peer) in
  do! _ := sm_each (λ packet, send_frame (packet_frame packet)) packets in
  do! greeting := shared (on_cell a welcome) in
  send_control peer greeting.

Definition send_pending_controls (a : N) (peer : PeerId) : Task unit :=
  do! _ := send_member_state a peer in
  send_control peer Heartbeat.

Definition finalize_upload (peer : PeerId) (upload : option PendingUpload) (link : option ControlUpdate)
    : SM HostService unit :=
  do! completed := sm_lift (ok_or upload (State "completed upload disappeared")) in
  check! upload_complete completed else State "file upload is incomplete" in
  commit_writer_upload peer (manifest (pu_trusted completed)) (sorted_entries (pu_bodies completed)) link.

(** A control record of a member: the upload that is pending afterwards. *)
Definition receive_member_control (peer : PeerId) (update : ControlUpdate) (upload : option PendingUpload)
    : SM HostService (option PendingUpload) :=
  match update with
  | NewManifest m =>
      check! bool_decide (upload = None) else State "file upload is incomplete" in
      do! trusted := verify_writer_manifest peer m in
      sm_ret (Some (mkPendingUpload trusted ∅ 0))
  | Link _ _ child false =>
      do! pending := sm_lift (ok_or upload (State "file link arrived without an upload")) in
      check! bool_decide (child = mf_file_id (manifest (pu_trusted pending))) && upload_complete pending
        else State "file link does not complete the upload" in
      do! _ := finalize_upload peer upload (Some update) in
      sm_ret None
  | update =>
      check! bool_decide (upload = None) else State "file upload is incomplete" in
      do! _ := fan_out_control peer update in
      sm_ret None
  end.

Definition receive_upload_body (peer : PeerId) (body : ChunkBodyFrame) (upload : option PendingUpload)
    : SM StoreInner (option PendingUpload) :=
  do! pending := sm_lift (ok_or upload (State "chunk body arrived without a manifest")) in
  do! session := current_session peer in
  do! plaintext := open_chunk session body (pu_trusted pending) in
  do! total := sm_lift (ok_or (usize_add (pu_bytes pending) (lenN plaintext))
                          (InvalidInput "upload size overflow")) in
  check! negb (MAX_DRAIN_BYTES <? total) else InvalidInput "upload exceeds memory budget" in
  check! bool_decide (pu_bodies pending !! cb_index body = None)
    else InvalidInput "duplicate upload chunk index" in
  sm_ret (Some (mkPendingUpload (pu_trusted pending) (<[cb_index body := plaintext]> (pu_bodies pending)) total)).

(** A have query, and a pull request. *)
Definition serve_have (a : N) (peer : PeerId) (plaintext : bytes) : Task unit :=
  do! query := sm_lift (decode_have_query plaintext) in
  do! chunks := task_service a (do! h := sm_get in sm_ret (st_chunks (hs_state h))) in
  do! reply := sm_lift (answer_have query chunks) in
  do! _ := send_member_state a peer in
  do! _ := send_packet peer (encode_have_reply reply) in
  send_control peer Heartbeat.

Definition serve_pull (a : N) (peer : PeerId) (request : PullRequest) : Task unit :=
  do! responses := task_service a (in_pull (Pull.serve request peer)) in
  do! _ := send_member_state a peer in
  do! _ := sm_each (λ body, send_frame (chunk_frame body)) responses in
  send_control peer Heartbeat.

(** A control of the connection itself: the upload that is pending afterwards. *)
Definition serve_control (a : N) (peer : PeerId) (control : NetControl) (upload : option PendingUpload)
    : Task (option PendingUpload) :=
  let served upload :=
    do! _ := task_service a (heartbeat peer IDLE_TIMEOUT) in
    do! _ := send_pending_controls a peer in
    sm_ret upload in
  match control with
  | Heartbeat =>
      match upload with
      | Some pending =>
          if negb (upload_complete pending) then
            do! _ := send_control peer (HeartbeatApplied u64_zero) in sm_ret upload
          else
            do! _ := task_service a (finalize_upload peer upload None) in served None
      | None => served None
      end
  | HeartbeatApplied through =>
      do! _ := task_service a (acknowledge_applied peer through) in served upload
  | _ => sm_err (State "unsupported live control")
  end.

Definition pending_after (a : N) (peer : PeerId) (upload : option PendingUpload)
    : Task (option PendingUpload) :=
  do! _ := (if bool_decide (upload = None) then send_pending_controls a peer else sm_ret tt) in
  sm_ret upload.

Definition serve_packet_frame (a : N) (peer : PeerId) (payload : bytes) (upload : option PendingUpload)
    : Task (option PendingUpload) :=
  do! packet := sm_lift (decode_control_packet payload) in
  do! local := link_keys ks_peer in
  do! _ := link_keys (require_live_header (cp_header packet) peer local) in
  do! plaintext := link_keys (session_open_packet peer packet) in
  if starts_with HAVE_MAGIC plaintext then
    do! _ := serve_have a peer plaintext in sm_ret upload
  else
    match decode_net_control plaintext with
    | Ok control => serve_control a peer control upload
    | Err _ =>
        match decode_pull_request plaintext with
        | Ok request => do! _ := serve_pull a peer request in sm_ret upload
        | Err _ =>
            do! record := sm_lift (decode_control_record plaintext) in
            check! bool_decide (cr_id record = u64_zero) else AuthenticationFailed in
            do! upload := task_service a (receive_member_control peer (cr_update record) upload) in
            pending_after a peer upload
        end
    end.

Definition serve_chunk_frame (a : N) (peer : PeerId) (payload : bytes) (upload : option PendingUpload)
    : Task (option PendingUpload) :=
  do! body := sm_lift (decode_chunk_body_frame payload) in
  do! local := link_keys ks_peer in
  do! _ := link_keys (require_live_header (cb_header body) peer local) in
  do! upload := link_keys (receive_upload_body peer body upload) in
  pending_after a peer upload.

(** One turn of the loop of [serve_live].  While it waits it looks whether the peer still is a
    member; a kick that comes while it waits is one of the errors a read may give. *)
Definition live_turn (a : N) (peer : PeerId) (upload : option PendingUpload)
    : Task (option PendingUpload) :=
  do! _ := link_keys (require_live_traffic peer) in
  do! session := link_keys (current_session peer) in
  do! members := shared (cell_members a) in
  check! bool_decide (peer ∈ members) else State "peer membership was revoked" in
  do! received := read_after_ack (KeyStore.ps_epoch session) in
  do! _ := link_keys (require_live_traffic peer) in
  if bool_decide (fr_kind received = GCM_PACKET_KIND) then
    serve_packet_frame a peer (fr_payload received) upload
  else if bool_decide (fr_kind received = GCM_CHUNK_KIND) then
    serve_chunk_frame a peer (fr_payload received) upload
  else sm_err (State "unsupported live frame").

(** The loop ends with an error only.  Every turn that does not fail has read a frame. *)
Fixpoint live_fuel (fuel : nat) (a : N) (peer : PeerId) (upload : option PendingUpload) : Task unit :=
  match fuel with
  | O => sm_err (Io UnexpectedEof)
  | Datatypes.S fuel =>
      do! upload := live_turn a peer upload in
      live_fuel fuel a peer upload
  end.

Definition serve_live (a : N) (peer : PeerId) : Task unit := λ l,
  live_fuel (Datatypes.S (length (lk_incoming l))) a peer None l.

(** ** A connection *)

(** What follows the admission, while the peer's permit is held. *)
Definition serve_admitted (a : N) (peer : PeerId) : Task unit :=
  do! _ := flush_to_peer a peer in
  do! greeting := shared (on_cell a welcome) in
  do! _ := send_control peer greeting in
  do! _ := link_keys (unblock_live_traffic peer TRANSPORT_GATE) in
  do! _ := task_service a (heartbeat peer IDLE_TIMEOUT) in
  serve_live a peer.

(** The task [serve_host] spawns for a connection it accepted. *)
Definition serve_connection : Task unit :=
  do! admission := sm_attempt admit_connection in
  do! _ := drop_handshake in
  do! _ := shared drop_provisional in
  do! result :=
    match admission with
    | Ok (peer, a, vault_id) =>
        do! result := sm_attempt (serve_admitted a peer) in
        do! _ := shared (drop_peer a vault_id peer) in
        sm_ret result
    | Err error => sm_ret (Err error)
    end in
  do! _ := shared drop_connection in
  sm_lift result.
End serve.
