(* ===== verification/Join.v ===== *)
(** * Joining a vault ([net/join.rs])

    The side of a member: [join_host], from the handshake with the host to the replica that is up
    to date, and [JoinedPeer], what the member does over the connection afterwards.  The tasks of
    a member share its key store and the replica of the vault. *)
From S2P Require Export Channel Member.
From Stdlib Require Import Lia ZifyN ZifyNat.

Open Scope N_scope.

(** The member's process, as far as this vault goes. *)
Record Joining := mkJoining {
  jn_world : World;
  (** The replica that was given or that the join creates. *)
  jn_replica : option MemberReplica;
}.

Section joining.
Context `{Sha256, MlDsa65, XWing, AesGcm, HkdfSha256, Oracle, SocketAddrs}.

Definition set_jn_world v j := mkJoining v (jn_replica j).
Definition set_jn_replica v j := mkJoining (jn_world j) v.

#[export] Instance joining_keyed : Keyed Joining :=
  {| kd_keys j := w_keys (jn_world j); kd_set_keys k j := set_jn_world (set_w_keys k (jn_world j)) j;
     kd_tick j := w_tick (jn_world j); kd_set_tick n j := set_jn_world (set_w_tick n (jn_world j)) j |}.
#[export] Instance joining_laws : KeyedLaws Joining.
Proof. split; try done; by intros [[] ?]. Qed.

Definition Task (A : Type) : Type := SM (Conn Joining) A.

(** A call on the replica, whose keys and draws are the process's. *)
Definition load_replica (w : World) (m : MemberReplica) : MemberReplica :=
  set_mr_world (set_w_tick (w_tick w) (set_w_keys (w_keys w) (mr_world m))) m.
Definition on_replica {A} (f : SM MemberReplica A) : SM Joining A := λ j,
  match jn_replica j with
  | None => (Err (State "no replica"), j)
  | Some m =>
      let '(r, m) := f (load_replica (jn_world j) m) in
      let w := mr_world m in
      (r, mkJoining (set_w_tick (w_tick w) (set_w_keys (w_keys w) (jn_world j))) (Some m))
  end.
Definition task_replica {A} (f : SM MemberReplica A) : Task A := shared (on_replica f).
Definition task_world {A} (f : SM World A) : Task A := shared (sm_zoom jn_world set_jn_world f).

(** ** The replica of a join *)

(** [MemberReplica::new_in_vault] with a store in memory; there is no replica when it fails. *)
Definition new_replica (host_id vault_id : array 32) : SM Joining unit := λ j,
  match (ks_peer (w_keys (jn_world j))).1 with
  | Err e => (Err e, j)
  | Ok local =>
      match new_member (jn_world j) host_id {[local; host_id]} MemoryChunkStore_new vault_id with
      | (Ok _, m) => (Ok tt, mkJoining (mr_world m) (Some m))
      | (Err e, _) => (Err e, j)
      end
  end.

Definition replica_for (ad : DirectoryAd) : SM Joining unit :=
  do! j := sm_get in
  match jn_replica j with
  | Some m => check! bool_decide (mr_host_id m = ad_peer_id ad) else AuthenticationFailed in sm_ret tt
  | None => new_replica (ad_peer_id ad) (ad_vault_id ad)
  end.

(** The identities a host sends of the current members. *)
Definition import_identity (local : IdentityDocument) (ids : gset PeerId) (identity : IdentityDocument)
    : Task (gset PeerId) :=
  let ids := {[doc_peer_id identity]} ∪ ids in
  if bool_decide (doc_peer_id identity = doc_peer_id local) then
    check! bool_decide (identity = local) else AuthenticationFailed in sm_ret ids
  else
    do! cached := sm_attempt (link_keys (load_verified_peer (doc_peer_id identity))) in
    if match cached with Ok cached => bool_decide (cached = identity) | Err _ => false end
    then sm_ret ids
    else
      do! io := link_draw oc_write in
      do! _ := link_create (λ input, import_peer io input identity) in
      sm_ret ids.

Definition import_current_identities (members : list IdentityDocument) : Task (gset PeerId) :=
  do! local := link_keys ks_identity in
  sm_fold (import_identity local) members ∅.

(** The membership a host sends, taken over into the replica; [records] were buffered before. *)
Definition apply_membership (members historical : list IdentityDocument) (denied : gset PeerId)
    (records : list ControlRecord) : Task unit :=
  do! ids := import_current_identities members in
  check! bool_decide (ids ## denied) else AuthenticationFailed in
  do! _ := task_replica (learn_history historical) in
  do! _ := sm_each (λ record, task_replica (apply_authenticated_control record)) records in
  task_replica (reconcile_members ids denied).

(** ** The drain of the mailbox *)

Fixpoint receive_envelopes (n : nat) (epoch : Epoch) (total : N) : Task (list MailboxEnvelope) :=
  match n with
  | O => sm_ret []
  | Datatypes.S n =>
      do! received := read_after_ack epoch in
      do! total := sm_lift (ok_or (usize_add total (lenN (fr_payload received)))
                              (InvalidInput "mailbox size overflow")) in
      check! negb (MAX_DRAIN_BYTES <? total) else InvalidInput "mailbox memory budget exceeded" in
      do! envelope := sm_lift (queued_frame received) in
      do! rest := receive_envelopes n epoch total in
      sm_ret (envelope :: rest)
  end.

(** The session of this join replaces the one before. *)
Definition promote_selected (selected : PairSession) : Task unit :=
  let peer := KeyStore.ps_peer_id selected in
  do! candidate := sm_attempt (link_keys (candidate_session peer)) in
  if match candidate with
     | Ok s => bool_decide (KeyStore.ps_epoch s = KeyStore.ps_epoch selected)
     | Err _ => false
     end
  then
    do! old := link_keys (current_session peer) in
    do! _ := link_write (λ io, promote_candidate io peer (KeyStore.ps_epoch selected)) in
    link_write (λ io, retire io (ps_key_handle old))
  else sm_ret tt.

Definition receive_flush (selected : PairSession) (offer : FlushOffer) : Task unit :=
  let peer := KeyStore.ps_peer_id selected in
  let epoch := KeyStore.ps_epoch selected in
  check! negb (MAX_DRAIN_FRAMES <? u32_N (fo_frame_count offer))
    else InvalidInput "mailbox frame budget exceeded" in
  do! seed := link_keys signing_key in
  do! signature := sm_lift (sign seed FLUSH_CONTEXT (array_bytes (flush_m (fo_challenge offer)))) in
  do! _ := send_frame (Frame_new FLUSH_SIGNATURE_KIND signature) in
  do! envelopes := receive_envelopes (N.to_nat (u32_N (fo_frame_count offer))) epoch 0 in
  do! prepared := task_replica (prepare_mailbox_for_session envelopes (fo_historical offer)
                                  (fo_bootstrap_through offer) selected) in
  do! digest := sm_lift (flush_transport_digest_with_bootstrap envelopes (fo_historical offer)
                           (fo_bootstrap_through offer)) in
  do! ending := read_control_for_session selected in
  check! bool_decide (ending = FlushEnd digest) else AuthenticationFailed in
  do! _ := promote_selected selected in
  do! _ := task_replica (commit_prepared prepared) in
  do! _ := send_control peer (FlushApplied digest) in
  do! ready := read_control peer in
  check! bool_decide (ready = Ready) else AuthenticationFailed in
  sm_ret tt.

(** ** The join *)

(** The peer that joined: its connection and what it buffered. *)
Record JoinedPeer := mkJoinedPeer {
  jp_link : Conn Joining;
  jp_peer_id : PeerId;
  jp_vault_id : VaultId;
  jp_pending_controls : list ControlRecord;
  jp_pending_control_bytes : N;
}.

(** An answer in place of the challenge: the host refused. *)
Definition refused_by (selected : PairSession) (payload : bytes) : Task FlushOffer :=
  do! packet := sm_lift (decode_control_packet payload) in
  do! plaintext := link_keys (open_packet_with_session selected packet) in
  do! control := sm_lift (decode_net_control plaintext) in
  do! v := locals_get in
  match control with
  | JoinRejected bound requested =>
      do! _ := discard_rejected_candidate selected (lc_admitted v) in
      do! local := link_keys ks_peer in
      sm_err (conflict local bound requested)
  | AdmissionDenied =>
      do! _ := discard_rejected_candidate selected (lc_admitted v) in
      sm_err AuthenticationFailed
  | _ => sm_err AuthenticationFailed
  end.

(** Up to the host's challenge, under the handshake's deadline.  The stream is connected: only
    the clock was read before. *)
Definition request_join (ad : DirectoryAd) (code : JoinCode) : Task (FlushOffer * PairSession) :=
  do! established := establish_guarded (Some ad) (λ peer,
    do! admitted := link_keys (has_admitted_pair peer) in
    do! _ := locals_update (λ v, mkLocals (lc_progress v) (lc_permit v) admitted) in
    sm_ret admitted) in
  let selected := es_session established in
  do! request := link_keys (JoinRequest_sign (ad_vault_id ad) code) in
  do! plaintext := sm_lift (encode_join_request request) in
  do! packet := link_keys (seal_packet_with_session selected plaintext) in
  do! _ := send_frame (packet_frame packet) in
  do! received := read_after_ack (KeyStore.ps_epoch selected) in
  do! offer :=
    (if bool_decide (fr_kind received = GCM_PACKET_KIND) then refused_by selected (fr_payload received)
     else
       check! bool_decide (fr_kind received = FLUSH_CHALLENGE_KIND)
         else State "expected flush challenge after Join" in
       sm_lift (decode_flush_offer (fr_payload received))) in
  sm_ret (offer, selected).

Definition join_host (ad : DirectoryAd) (code : JoinCode) : Task JoinedPeer :=
  do! now := task_world unix_time in
  do! _ := sm_lift (verify_ad ad now) in
  let host := ad_peer_id ad in
  do! (offer, selected) := request_join ad code in
  do! _ := shared (replica_for ad) in
  do! _ := link_keys (block_live_traffic host TRANSPORT_GATE) in
  do! _ := receive_flush selected offer in
  do! greeting := read_control host in
  do! _ := match greeting with
           | JoinAccepted vault_id members historical denied =>
               check! bool_decide (vault_id = ad_vault_id ad) else AuthenticationFailed in
               apply_membership members historical denied []
           | _ => sm_err AuthenticationFailed
           end in
  do! _ := link_keys (unblock_live_traffic host TRANSPORT_GATE) in
  do! _ := link_keys (mark_admitted host) in
  do! _ := task_replica finish_receipts in
  λ l, (Ok (mkJoinedPeer l host (ad_vault_id ad) [] 0), l).
End joining.
