(* ===== verification/Joined.v ===== *)
(** * A member's connection ([JoinedPeer] in [net/join.rs])

    What a member does over the connection of a join: requests, each answered by the records it
    has missed, the membership to check them by and a heartbeat that ends the answer.  The loops
    of the code read until the answer ends and have no bound or deadline of their own: a host that
    goes on sending keeps the member reading.  Here the frames to come are a finite list, and the
    reading of an absent one fails. *)
From S2P Require Export Join.
From Stdlib Require Import Lia ZifyN ZifyNat.

Open Scope N_scope.

Section joined.
Context `{Sha256, MlDsa65, XWing, AesGcm, HkdfSha256, Oracle, SocketAddrs}.

Definition Live (A : Type) : Type := SM JoinedPeer A.

Definition set_jp_link v p := mkJoinedPeer v (jp_peer_id p) (jp_vault_id p) (jp_pending_controls p) (jp_pending_control_bytes p).
Definition set_jp_pending v n p := mkJoinedPeer (jp_link p) (jp_peer_id p) (jp_vault_id p) v n.

(** A step on the connection, a call on the key store, the replica and the process's world. *)
Definition on_link {A} (m : Task A) : Live A := sm_zoom jp_link set_jp_link m.
Definition live_keys {A} (m : SM StoreInner A) : Live A := on_link (link_keys m).
Definition live_replica {A} (f : SM MemberReplica A) : Live A := on_link (task_replica f).
Definition live_get {A} (f : MemberReplica → A) : Live A := live_replica (do! m := sm_get in sm_ret (f m)).
Definition live_random (n : nat) : Live (array n) := on_link (task_world (random_bytes n)).

(** A loop each of whose turns reads a frame: [inl] goes on, [inr] leaves it. *)
Fixpoint live_loop_fuel {A B} (fuel : nat) (body : B → Live (B + A)) (b : B) : Live A :=
  match fuel with
  | O => sm_err (Io UnexpectedEof)
  | Datatypes.S fuel =>
      do! r := body b in
      match r with
      | inl b => live_loop_fuel fuel body b
      | inr x => sm_ret x
      end
  end.
Definition live_loop {A B} (body : B → Live (B + A)) (b : B) : Live A := λ p,
  live_loop_fuel (Datatypes.S (length (lk_incoming (jp_link p)))) body b p.

(** ** Reading an answer *)

(** The next frame, while the pair is live. *)
Definition read_live : Live Frame :=
  do! p := sm_get in
  do! session := live_keys (current_session (jp_peer_id p)) in
  do! received := on_link (read_after_ack (KeyStore.ps_epoch session)) in
  do! _ := live_keys (require_live_traffic (jp_peer_id p)) in
  sm_ret received.

Definition open_live (payload : bytes) : Live bytes :=
  do! p := sm_get in
  do! packet := sm_lift (decode_control_packet payload) in
  do! local := live_keys ks_peer in
  do! _ := live_keys (require_live_header (cp_header packet) (jp_peer_id p) local) in
  live_keys (session_open_packet (jp_peer_id p) packet).

Definition read_live_packet : Live bytes :=
  do! received := read_live in
  check! bool_decide (fr_kind received = GCM_PACKET_KIND) else State "unexpected live frame" in
  open_live (fr_payload received).

Definition apply_member_identities (members historical : list IdentityDocument) (denied : gset PeerId)
    : Live unit :=
  do! ids := on_link (import_current_identities members) in
  check! bool_decide (ids ## denied) else AuthenticationFailed in
  do! _ := live_replica (learn_history historical) in
  do! p := sm_get in
  let pending := jp_pending_controls p in
  do! _ := sm_put (set_jp_pending [] 0 p) in
  do! _ := sm_each (λ record, live_replica (apply_authenticated_control record)) pending in
  live_replica (reconcile_members ids denied).

(** [true] at the heartbeat that ends the answer. *)
Definition apply_live_plaintext (plaintext : bytes) : Live bool :=
  match decode_net_control plaintext with
  | Ok Heartbeat =>
      do! p := sm_get in
      check! bool_decide (jp_pending_controls p = []) else AuthenticationFailed in sm_ret true
  | Ok (JoinAccepted vault_id members historical denied) =>
      do! p := sm_get in
      check! bool_decide (vault_id = jp_vault_id p) else State "unexpected live reply" in
      do! _ := apply_member_identities members historical denied in
      sm_ret false
  | Ok _ => sm_err (State "unexpected live reply")
  | Err _ =>
      do! record := sm_lift (decode_control_record plaintext) in
      do! p := sm_get in
      do! total := sm_lift (ok_or (usize_add (jp_pending_control_bytes p) (lenN plaintext))
                              (InvalidInput "pending control size overflow")) in
      do! _ := sm_put (set_jp_pending (jp_pending_controls p) total p) in
      check! negb ((MAX_DRAIN_BYTES <? total) || (MAX_DRAIN_FRAMES <=? lenN (jp_pending_controls p)))
        else InvalidInput "pending control budget exceeded" in
      do! _ := sm_put (set_jp_pending (jp_pending_controls p ++ [record]) total p) in
      sm_ret false
  end.

(** One turn of the loop, up to the end of the answer. *)
Definition drain_turn (_ : unit) : Live (unit + u64) :=
  do! plaintext := read_live_packet in
  do! ends := apply_live_plaintext plaintext in
  if ends : bool then do! through := live_get mr_last_applied in sm_ret (inr through)
  else sm_ret (inl tt).

Definition drain_live_reply : Live u64 := live_loop drain_turn tt.

(** ** Acknowledging *)

Definition heartbeat_once : Live unit :=
  do! p := sm_get in
  do! _ := live_keys (require_live_traffic (jp_peer_id p)) in
  do! through := live_get mr_last_applied in
  do! _ := on_link (send_control (jp_peer_id p) (HeartbeatApplied through)) in
  do! _ := drain_live_reply in
  sm_ret tt.

Definition acknowledge_after_drain : Live unit := heartbeat_once.

Definition finish_submission : Live unit :=
  do! _ := drain_live_reply in acknowledge_after_drain.

(** [run], while its timer ticks; each tick lets other tasks run. *)
Fixpoint joined_run (ticks : list (Turn Joining)) : Live unit :=
  match ticks with
  | [] => sm_ret tt
  | turn :: ticks =>
      do! _ := on_link (shared (λ j, (Ok tt, turn j))) in
      do! _ := heartbeat_once in
      joined_run ticks
  end.

(** ** Submitting *)

Definition send_record (update : ControlUpdate) : Live unit :=
  do! p := sm_get in
  do! _ := live_keys (require_live_traffic (jp_peer_id p)) in
  on_link (send_packet (jp_peer_id p) (encode_control_record (mkControlRecord u64_zero update))).

Definition is_new_manifest (update : ControlUpdate) : bool :=
  match update with NewManifest _ => true | _ => false end.

Definition submit_control (update : ControlUpdate) : Live unit :=
  check! negb (is_new_manifest update) else InvalidInput "use submit_manifest to send file content" in
  do! p := sm_get in
  do! _ := live_keys (require_live_traffic (jp_peer_id p)) in
  do! _ := send_record update in
  finish_submission.

(** A body under its index. *)
Definition chunk_index (index : nat) : Result u64 :=
  ok_or (u64_of_N (N.of_nat index)) (InvalidInput "chunk index exceeds u64").

(** The bodies are those the manifest names; [index] is the first one's. *)
Fixpoint check_bodies (file_id : FileId) (index : nat) (expected : list ChunkId) (bodies : list bytes)
    : Result unit :=
  match expected, bodies with
  | id :: expected, plaintext :: bodies =>
      let? i := chunk_index index in
      if negb (bool_decide (chunk_id file_id i plaintext = id)) then Err AuthenticationFailed
      else check_bodies file_id (Datatypes.S index) expected bodies
  | _, _ => Ok tt
  end.

Fixpoint send_bodies (session : PairSession) (file_id : FileId) (index : nat) (bodies : list bytes)
    : Task unit :=
  match bodies with
  | [] => sm_ret tt
  | plaintext :: bodies =>
      do! i := sm_lift (chunk_index index) in
      do! body := link_keys (encrypt_at_send session file_id i plaintext) in
      do! _ := send_frame (chunk_frame body) in
      send_bodies session file_id (Datatypes.S index) bodies
  end.

Definition send_manifest_bodies (m : Manifest) (bodies : list bytes) : Live unit :=
  do! p := sm_get in
  do! local := live_keys ks_peer in
  check! bool_decide (mf_writer_id m = local) && bool_decide (lenN (mf_chunk_ids m) = lenN bodies)
    else InvalidInput "manifest does not match upload bodies" in
  do! _ := sm_lift (check_bodies (mf_file_id m) 0 (mf_chunk_ids m) bodies) in
  do! _ := send_record (NewManifest m) in
  do! session := live_keys (current_session (jp_peer_id p)) in
  on_link (send_bodies session (mf_file_id m) 0 bodies).

(** The bodies put in a copy of the store. *)
Fixpoint put_bodies (file_id : FileId) (index : nat) (bodies : list bytes) (staged : MemoryChunkStore)
    : SM World MemoryChunkStore :=
  match bodies with
  | [] => sm_ret staged
  | plaintext :: bodies =>
      do! i := sm_lift (chunk_index index) in
      do! (_, staged) := chunk_put file_id i plaintext staged in
      put_bodies file_id (Datatypes.S index) bodies staged
  end.

Definition store_local_bodies (m : Manifest) (bodies : list bytes) : SM MemberReplica unit :=
  do! r := sm_get in
  do! staged := on_member_world (put_bodies (mf_file_id m) 0 bodies (sr_chunks (mr_replica r))) in
  do! staged := on_member_world (persist_current staged) in
  member_update (λ r, set_mr_replica (set_sr_chunks staged (mr_replica r)) r).

Definition submit_manifest (m : Manifest) (bodies : list bytes) : Live unit :=
  do! p := sm_get in
  do! _ := live_keys (require_live_traffic (jp_peer_id p)) in
  do! _ := send_manifest_bodies m bodies in
  do! _ := on_link (send_control (jp_peer_id p) Heartbeat) in
  do! _ := finish_submission in
  live_replica (store_local_bodies m bodies).

(** ** File operations *)

Definition joined_mkdir (path : text) : Live FileId :=
  do! r := live_get mr_replica in
  do! (parent, name) := sm_lift (parent_of (sr_tree r) path) in
  do! child := live_random 32 in
  do! _ := submit_control (Link parent name child true) in
  sm_ret child.

Definition joined_unlink (path : text) : Live unit :=
  do! r := live_get mr_replica in
  do! (parent, name) := sm_lift (parent_of (sr_tree r) path) in
  submit_control (Unlink parent name).

Definition joined_rename (source destination : text) : Live unit :=
  do! r := live_get mr_replica in
  do! (src_parent, src_name) := sm_lift (parent_of (sr_tree r) source) in
  do! (dst_parent, dst_name) := sm_lift (parent_of (sr_tree r) destination) in
  submit_control (Rename src_parent src_name dst_parent dst_name).

(** The version a save of the file gets. *)
Definition version_after (manifests : gmap FileId TrustedManifest) (existing : option FileId) : Result u64 :=
  match existing ≫= (λ id, manifests !! id) with
  | None => Ok (u64! 1)
  | Some t => ok_or (u64_checked_add (mf_version (manifest t)) 1) (State "manifest version exhausted")
  end.

Definition joined_save_file (path : text) (bodies : list bytes) : Live FileId :=
  do! p := sm_get in
  do! _ := live_keys (require_live_traffic (jp_peer_id p)) in
  do! r := live_get mr_replica in
  let tree := sr_tree r in
  do! (parent, name) := sm_lift (parent_of tree path) in
  let existing := result_ok (resolve tree path) in
  check! negb (match existing with Some id => is_dir tree id | None => false end)
    else InvalidInput "cannot save a directory" in
  do! version := sm_lift (version_after (sr_manifests r) existing) in
  do! fresh := live_random 32 in
  let file_id := default fresh existing in
  do! local := live_keys ks_peer in
  do! (ids, size) := sm_lift (describe_bodies file_id 0 bodies u64_zero) in
  let unsigned := mkManifest file_id ids size local version [] in
  do! seed := live_keys signing_key in
  do! message := sm_lift (manifest_m unsigned) in
  do! signature := sm_lift (sign seed MANIFEST_CONTEXT message) in
  let m := mkManifest file_id ids size local version signature in
  do! _ := send_manifest_bodies m bodies in
  do! _ := match existing with
           | None => send_record (Link parent name file_id false)
           | Some _ => on_link (send_control (jp_peer_id p) Heartbeat)
           end in
  do! _ := finish_submission in
  do! _ := live_replica (store_local_bodies m bodies) in
  sm_ret file_id.

(** ** Requests *)

(** One turn while a have reply is awaited. *)
Definition have_turn (query : HaveQuery) (reply : option HaveReply) : Live (option HaveReply + option HaveReply) :=
  do! plaintext := read_live_packet in
  if starts_with HAVE_MAGIC plaintext then
    check! bool_decide (reply = None) else AuthenticationFailed in
    do! candidate := sm_lift (decode_have_reply plaintext) in
    do! _ := sm_lift (HaveReply_validate candidate query) in
    sm_ret (inl (Some candidate))
  else
    do! ends := apply_live_plaintext plaintext in
    sm_ret (if ends : bool then inr reply else inl reply).

Definition have_query (query : HaveQuery) : Live HaveReply :=
  do! p := sm_get in
  do! _ := live_keys (require_live_traffic (jp_peer_id p)) in
  do! _ := on_link (send_packet (jp_peer_id p) (encode_have_query query)) in
  do! reply := live_loop (have_turn query) None in
  do! reply := sm_lift (ok_or reply (State "host omitted have reply")) in
  do! _ := acknowledge_after_drain in
  sm_ret reply.

(** One turn while chunks are awaited: the responses and the frames so far. *)
Definition pull_turn (request : PullRequest) (acc : list ChunkBodyFrame * N)
    : Live (list ChunkBodyFrame * N + list ChunkBodyFrame) :=
  let '(responses, frames) := acc in
  do! received := read_live in
  do! frames := sm_lift (ok_or (u32_of_N (frames + 1)) (InvalidInput "pull response frame overflow")) in
  check! negb (MAX_DRAIN_FRAMES <? u32_N frames) else InvalidInput "pull response frame budget exceeded" in
  if bool_decide (fr_kind received = GCM_CHUNK_KIND) then
    check! negb (lenN (pr_chunk_ids request) <=? lenN responses) else AuthenticationFailed in
    do! body := sm_lift (decode_chunk_body_frame (fr_payload received)) in
    sm_ret (inl (responses ++ [body], u32_N frames))
  else if bool_decide (fr_kind received = GCM_PACKET_KIND) then
    do! plaintext := open_live (fr_payload received) in
    do! ends := apply_live_plaintext plaintext in
    sm_ret (if ends : bool then inr responses else inl (responses, u32_N frames))
  else sm_err (State "unexpected pull response frame").

(** The replica's chunks, for [InProcessPullCoordinator]. *)
Definition replica_pull {A} (m : SM Peer A) : SM MemberReplica A := λ r,
  let '(x, p) := m (mkPeer (mr_world r) (sr_chunks (mr_replica r))) in
  (x, set_mr_replica (set_sr_chunks (pe_chunks p) (mr_replica r)) (set_mr_world (pe_world p) r)).

Definition joined_pull (request : PullRequest) (trusted : TrustedManifest) : Live N :=
  do! p := sm_get in
  do! _ := live_keys (require_live_traffic (jp_peer_id p)) in
  do! _ := on_link (send_packet (jp_peer_id p) (encode_pull_request request)) in
  do! responses := live_loop (pull_turn request) ([], 0) in
  do! chunks := live_get (λ r, sr_chunks (mr_replica r)) in
  if bool_decide (responses = []) && existsb (λ id, negb (chunk_has id chunks)) (pr_chunk_ids request) then
    do! _ := acknowledge_after_drain in
    sm_err (State "holder returned no requested chunks")
  else
    do! written := live_replica (replica_pull (accept_responses responses trusted)) in
    do! _ := acknowledge_after_drain in
    sm_ret written.
End joined.
