(* ===== verification/KeyCalls.v ===== *)
(** * What the host does to the key store it shares

    [preserves R m]: [R] relates the state before [m] and after it, whatever it returns.  Every
    method of the host's service keeps any relation on the key store that the calls it makes on
    the store keep ([ServiceCalls]); only an admission imports a document, the new member's. *)
From S2P Require Export KeyStoreFrame HostOps.
From Stdlib Require Import Lia ZifyN ZifyNat.

Open Scope N_scope.

Definition preserves {S A} (R : relation S) (m : SM S A) : Prop := ∀ s, wp m (λ _, R s) (R s) s.

Section rules.
Context {S : Type} (R : relation S) `{!PreOrder R}.

Lemma preserves_after {A} (m : SM S A) (Q : A → S → Prop) (E : S → Prop) s0 s :
  preserves R m → R s0 s → (∀ x s', R s0 s' → Q x s') → (∀ s', R s0 s' → E s') → wp m Q E s.
Proof.
  intros Hm Hs HQ HE. eapply wp_mono; [apply Hm| |]; cbn beta; intros; [apply HQ|apply HE]; by etransitivity.
Qed.
Lemma preserves_bind {A B} (m : SM S A) (k : A → SM S B) :
  preserves R m → (∀ x, preserves R (k x)) → preserves R (sm_bind m k).
Proof.
  intros Hm Hk s. apply wp_bind. eapply wp_mono; [apply Hm| |done]. cbn beta. intros x s1 Hs.
  by apply (preserves_after _ _ _ s).
Qed.
Lemma preserves_ret {A} (x : A) : preserves R (sm_ret x).
Proof. intros s. by apply wp_ret. Qed.
Lemma preserves_err {A} e : preserves R (sm_err (A := A) e).
Proof. intros s. by apply wp_err. Qed.
Lemma preserves_lift {A} (r : Result A) : preserves R (sm_lift r).
Proof. intros s. by apply wp_lift. Qed.
Lemma preserves_get : preserves R sm_get.
Proof. intros s. by apply wp_get. Qed.
Lemma preserves_each {A} (f : A → SM S unit) l : (∀ x, preserves R (f x)) → preserves R (sm_each f l).
Proof. intros Hf s. apply wp_each; [reflexivity|]. intros x s1 _ Hs. by apply (preserves_after _ _ _ s). Qed.
Lemma preserves_map {A B} (f : A → SM S B) l : (∀ x, preserves R (f x)) → preserves R (sm_map f l).
Proof.
  intros Hf. induction l; [apply preserves_ret|]. apply preserves_bind; [done|]. intros y.
  apply preserves_bind; [done|]. intros ys. apply preserves_ret.
Qed.
Lemma preserves_fold {A B} (f : B → A → SM S B) l : (∀ x b, preserves R (f b x)) → ∀ b, preserves R (sm_fold f l b).
Proof.
  intros Hf. induction l; intros b; [apply preserves_ret|]. apply preserves_bind; [done|]. intros b'. apply IHl.
Qed.
Lemma preserves_catch {A} (m : SM S A) g :
  preserves R m → (∀ e, preserves R (g e)) → preserves R (sm_catch m g).
Proof.
  intros Hm Hg s. apply wp_catch. eapply wp_mono; [apply Hm|done|]. cbn beta. intros s1 Hs e.
  by apply (preserves_after _ _ _ s).
Qed.
Lemma preserves_try {A} (m : SM S A) : preserves R m → preserves R (try m).
Proof. intros Hm s. apply wp_try. eapply wp_mono; [apply Hm|done|done]. Qed.
Lemma preserves_zoom {T A} (R' : relation T) get set (m : SM T A) :
  preserves R' m → (∀ s t, R' (get s) t → R s (set t s)) → preserves R (sm_zoom get set m).
Proof. intros Hm Hset s. apply wp_zoom. eapply wp_mono; [apply Hm| |]; cbn beta; auto. Qed.
End rules.

(** Steps of a method whose calls are known to keep the relation. *)
Create HintDb calls discriminated.
#[export] Hint Constants Opaque : calls.
Ltac preserve_step :=
  lazymatch goal with
  | |- preserves ?R (sm_bind _ _) => apply (preserves_bind R); [|intros ?]
  | |- preserves ?R (sm_ret _) => apply (preserves_ret R)
  | |- preserves ?R (sm_err _) => apply (preserves_err R)
  | |- preserves ?R (sm_lift _) => apply (preserves_lift R)
  | |- preserves ?R sm_get => apply (preserves_get R)
  | |- preserves ?R (sm_each _ _) => apply (preserves_each R); intros ?
  | |- preserves ?R (sm_map _ _) => apply (preserves_map R); intros ?
  | |- preserves ?R (sm_fold _ _ _) => apply (preserves_fold R); intros ? ?
  | |- preserves ?R (sm_catch _ _) => apply (preserves_catch R); [|intros ?]
  | |- preserves ?R (try _) => apply (preserves_try R)
  | |- preserves _ (match ?x with _ => _ end) => destruct x
  | |- preserves _ (let _ := _ in _) => cbv zeta
  end.
Ltac preserve := repeat first [solve [eauto with calls nocore typeclass_instances] | preserve_step].

(** ** Calls on the key store *)

Section calls.
Context `{Sha256, MlDsa65, XWing, AesGcm, HkdfSha256}.

(** What a service asks of its key store, but for imports. *)
Class ServiceCalls (T : relation StoreInner) : Prop := {
  sc_preorder :: PreOrder T;
  sc_pair A handle (f : SM PairKeyState A) : keeps_key f → preserves T (with_pair_state handle f);
  sc_block peer owner : preserves T (block_live_traffic peer owner);
  sc_unblock peer owner : preserves T (unblock_live_traffic peer owner);
  sc_discard io peer : preserves T (discard_pair io peer);
}.

Context (T : relation StoreInner) `{!ServiceCalls T}.
Hint Extern 0 (PreOrder _) => apply _ : calls.
Hint Resolve sc_block sc_unblock sc_discard : calls.

Lemma preserves_query {A} (f : StoreInner → Result A) : preserves T (query f).
Proof. apply stays_query, _. Qed.
Hint Resolve preserves_query : calls.
Hint Extern 0 (preserves _ ks_peer) => apply preserves_query : calls.
Hint Extern 0 (preserves _ ks_identity) => apply preserves_query : calls.
Hint Extern 0 (preserves _ (current_session _)) => apply preserves_query : calls.
Hint Extern 0 (preserves _ (require_live_traffic _)) => apply preserves_query : calls.
Hint Extern 0 (preserves _ (owns_live_gate _ _)) => apply preserves_query : calls.
Hint Extern 0 (preserves _ (load_verified_peer _)) => apply preserves_query : calls.

Lemma next_outbound_seq_calls handle pt : preserves T (next_outbound_seq handle pt).
Proof.
  intros s. pose proof (next_outbound_seq_state handle pt s) as Hs. unfold wp.
  by destruct (next_outbound_seq handle pt s) as [[n|e] s']; cbn in Hs; subst.
Qed.
Hint Resolve next_outbound_seq_calls : calls.

Lemma seal_calls handle n aad text : preserves T (seal handle n aad text).
Proof. unfold seal. preserve. apply sc_pair, seal_key_keeps. Qed.
Lemma open_calls handle n aad text : preserves T (open handle n aad text).
Proof. unfold open. preserve. apply sc_pair, open_key_keeps. Qed.
Hint Resolve seal_calls open_calls : calls.

Lemma seal_packet_calls session receiver plaintext : preserves T (seal_packet session receiver plaintext).
Proof. unfold seal_packet. preserve. Qed.
Lemma open_packet_calls session header ciphertext : preserves T (open_packet session header ciphertext).
Proof. unfold open_packet. preserve. Qed.
Lemma encrypt_at_send_calls session file_id index text : preserves T (encrypt_at_send session file_id index text).
Proof. unfold encrypt_at_send. preserve. Qed.
Lemma open_chunk_calls session frame trusted : preserves T (open_chunk session frame trusted).
Proof. unfold open_chunk. preserve. Qed.
Hint Resolve seal_packet_calls open_packet_calls encrypt_at_send_calls open_chunk_calls : calls.

Lemma seal_control_calls session record : preserves T (seal_control session record).
Proof. unfold seal_control. preserve. Qed.
Hint Resolve seal_control_calls : calls.
Lemma reseal_calls session chunks entry : preserves T (reseal session chunks entry).
Proof. unfold reseal. preserve. Qed.
Lemma reseal_online_calls session old : preserves T (reseal_online session old).
Proof. unfold reseal_online. preserve. Qed.
Lemma queue_body_calls session queued_at chunks current prior queue slot :
  preserves T (queue_body session queued_at chunks current prior queue slot).
Proof. unfold queue_body. preserve. Qed.
Hint Resolve reseal_calls reseal_online_calls queue_body_calls : calls.
Lemma queue_bodies_calls session queued_at s peer current queue :
  preserves T (queue_bodies session queued_at s peer current queue).
Proof. unfold queue_bodies. preserve. Qed.
Lemma bootstrap_control_calls session queued_at record :
  preserves T (bootstrap_control session queued_at record).
Proof. unfold bootstrap_control. preserve. Qed.
Lemma bootstrap_chunk_calls session queued_at chunks slot :
  preserves T (bootstrap_chunk session queued_at chunks slot).
Proof. unfold bootstrap_chunk. preserve. Qed.
Lemma TrustedManifest_verify_calls m members : preserves T (TrustedManifest_verify m members).
Proof. unfold TrustedManifest_verify. preserve. Qed.

Lemma find_document_calls peer : preserves T (find_document peer).
Proof.
  unfold find_document. preserve. intros s. pose proof (preserves_query (λ s, ok_or (si_peers s !! peer) KeyUnavailable) s) as Hq.
  unfold wp in *. fold (load_verified_peer peer) in *.
  by destruct (load_verified_peer peer s) as [[d|[]] s'].
Qed.
Hint Resolve find_document_calls : calls.
Lemma archive_host_calls staged : preserves T (archive_host staged).
Proof. unfold archive_host, archive_documents, archive_document. preserve. Qed.
End calls.

#[export] Hint Resolve sc_block sc_unblock sc_discard preserves_query next_outbound_seq_calls seal_calls
  open_calls seal_packet_calls open_packet_calls encrypt_at_send_calls open_chunk_calls seal_control_calls
  reseal_calls reseal_online_calls queue_bodies_calls bootstrap_control_calls bootstrap_chunk_calls
  TrustedManifest_verify_calls archive_host_calls : calls.
#[export] Hint Extern 0 (PreOrder _) => apply _ : calls.
#[export] Hint Extern 0 (ServiceCalls _) => apply _ : calls.
#[export] Hint Extern 0 (preserves _ ks_peer) => apply (preserves_query _ _) : calls.
#[export] Hint Extern 0 (preserves _ ks_identity) => apply (preserves_query _ _) : calls.
#[export] Hint Extern 0 (preserves _ (current_session _)) => apply (preserves_query _ _) : calls.
#[export] Hint Extern 0 (preserves _ (candidate_session _)) => apply (preserves_query _ _) : calls.
#[export] Hint Extern 0 (preserves _ (require_live_traffic _)) => apply (preserves_query _ _) : calls.
#[export] Hint Extern 0 (preserves _ (owns_live_gate _ _)) => apply (preserves_query _ _) : calls.
#[export] Hint Extern 0 (preserves _ (load_verified_peer _)) => apply (preserves_query _ _) : calls.

(** ** The host's methods *)

(** [T] of the key store in a state. *)
Definition via `{Sha256, MlDsa65, XWing} {S} (get : S → StoreInner) (T : relation StoreInner) : relation S :=
  λ s s', T (get s) (get s').

#[export] Instance via_preorder `{Sha256, MlDsa65, XWing} {S} (get : S → StoreInner) T `{!PreOrder T} :
  PreOrder (via get T).
Proof.
  unfold via. split; [intros s; reflexivity|]. intros a b c ? ?. by etransitivity.
Qed.

Section methods.
Context `{Sha256, MlDsa65, XWing, AesGcm, HkdfSha256, Oracle}.

Definition host_keys (h : HostService) : StoreInner := w_keys (hs_world h).

Context (T : relation StoreInner) `{!ServiceCalls T}.
Abbreviation world := (via w_keys T).
Abbreviation service := (via host_keys T).

Lemma keys_calls {A} (m : SM StoreInner A) : preserves T m → preserves world (keys m).
Proof. intros Hm. by eapply preserves_zoom. Qed.
Lemma on_world_calls {A} (m : SM World A) : preserves world m → preserves service (on_world m).
Proof. intros Hm. by eapply preserves_zoom. Qed.
Hint Resolve keys_calls on_world_calls : calls.
Lemma on_keys_calls {A} (m : SM StoreInner A) : preserves T m → preserves service (on_keys m).
Proof. intros Hm. unfold on_keys. preserve. Qed.
Hint Resolve on_keys_calls : calls.

(** *** Files, which are no keys *)

Lemma draw_calls {A} (f : nat → A) : preserves world (draw f).
Proof. intros w. unfold wp, draw, via. cbn. reflexivity. Qed.
Hint Resolve draw_calls : calls.
Lemma draw_ok_calls {A} (f : nat → Result A) : preserves world (draw_ok f).
Proof. unfold draw_ok. preserve. Qed.
Hint Resolve draw_ok_calls : calls.
Hint Extern 0 (preserves _ unix_time) => apply draw_ok_calls : calls.
Hint Extern 0 (preserves _ unix_millis) => apply draw_calls : calls.
Hint Extern 0 (preserves _ (random_bytes _)) => apply draw_ok_calls : calls.

Lemma disk_get_calls : preserves world disk_get.
Proof. intros w. unfold wp, via. cbn. reflexivity. Qed.
Lemma durable_get_calls : preserves world durable_get.
Proof. intros w. unfold wp, via. cbn. reflexivity. Qed.
Lemma durable_update_calls f : preserves world (durable_update f).
Proof. intros w. unfold wp, via. cbn. reflexivity. Qed.
Hint Resolve disk_get_calls durable_get_calls durable_update_calls : calls.

Ltac on_files :=
  let w := fresh in intros w; unfold wp, via; cbn beta;
  match goal with
  | |- context [atomic_write ?a ?b ?c ?d ?e] => destruct (atomic_write a b c d e) as [[[]|] ?]
  | |- context [remove_synced ?a ?b] => destruct (remove_synced a b) as [[[]|] ?]
  end; cbn; reflexivity.

Lemma atomic_private_write_calls name content : preserves world (atomic_private_write name content).
Proof.
  unfold atomic_private_write, atomic_private_write_bounded. preserve. on_files.
Qed.
Lemma atomic_private_write_bounded_calls name content maximum :
  preserves world (atomic_private_write_bounded name content maximum).
Proof.
  unfold atomic_private_write_bounded. preserve. on_files.
Qed.
Lemma remove_file_calls name : preserves world (remove_file name).
Proof.
  unfold remove_file. preserve. on_files.
Qed.
Lemma write_chunk_file_calls id content : preserves world (write_chunk_file id content).
Proof.
  unfold write_chunk_file. preserve. on_files.
Qed.
Lemma sweep_directory_calls retained : preserves world (sweep_directory retained).
Proof.
  unfold sweep_directory. preserve. intros w. destruct x; unfold wp, via; cbn; reflexivity.
Qed.
Hint Resolve atomic_private_write_calls atomic_private_write_bounded_calls remove_file_calls
  write_chunk_file_calls sweep_directory_calls : calls.

Lemma read_bounded_calls name maximum : preserves world (read_bounded name maximum).
Proof. unfold read_bounded. preserve. Qed.
Lemma restore_calls name content : preserves world (restore name content).
Proof. unfold restore. preserve. Qed.
Lemma clear_journal_calls : preserves world clear_journal.
Proof. unfold clear_journal. preserve. Qed.
Hint Resolve read_bounded_calls restore_calls clear_journal_calls : calls.
Lemma persist_files_calls path replica admission : preserves world (persist_files path replica admission).
Proof. unfold persist_files, persist_inner, publish_files, rollback. preserve. Qed.
Hint Resolve persist_files_calls : calls.

Lemma persist_snapshot_calls write metadata s :
  (∀ encoded, preserves world (write encoded)) → preserves world (persist_snapshot write metadata s).
Proof. intros Hw. unfold persist_snapshot. preserve. Qed.
Hint Resolve persist_snapshot_calls : calls.
Lemma persist_metadata_calls metadata s : preserves world (persist_metadata metadata s).
Proof. unfold persist_metadata, durable_persist. preserve. Qed.
Lemma persist_admission_calls metadata content s :
  preserves world (persist_metadata_with_admission metadata content s).
Proof. unfold persist_metadata_with_admission, durable_persist_with_admission. preserve. Qed.
Lemma write_chunk_calls id plaintext : preserves world (write_chunk id plaintext).
Proof. unfold write_chunk. preserve. Qed.
Hint Resolve persist_metadata_calls persist_admission_calls write_chunk_calls : calls.
Lemma chunk_put_calls file_id index plaintext s : preserves world (chunk_put file_id index plaintext s).
Proof. unfold chunk_put. preserve. Qed.
Hint Resolve chunk_put_calls : calls.

(** *** Methods *)

Lemma update_calls f : (∀ h, hs_world (f h) = hs_world h) → preserves service (update f).
Proof. intros Hf h. unfold wp, update, via, host_keys. cbn. rewrite Hf. reflexivity. Qed.
Hint Extern 0 (preserves _ (update _)) => apply update_calls; reflexivity : calls.
Hint Extern 0 (preserves _ (update_state _)) => apply update_calls; reflexivity : calls.

Lemma require_running_calls : preserves service require_running.
Proof. unfold require_running. preserve. Qed.
Lemma require_member_calls peer : preserves service (require_member peer).
Proof. unfold require_member. preserve. Qed.
Lemma stage_state_calls : preserves service stage_state.
Proof. unfold stage_state. preserve. Qed.
Lemma publish_state_calls staged : preserves service (publish_state staged).
Proof. unfold publish_state. preserve. Qed.
Hint Resolve require_running_calls require_member_calls stage_state_calls publish_state_calls : calls.
Lemma heartbeat_calls peer ttl : preserves service (heartbeat peer ttl).
Proof. unfold heartbeat. preserve. Qed.
Lemma presence_calls peer : preserves service (presence peer).
Proof. unfold presence. preserve. Qed.
Lemma note_recent_op_calls sender id : preserves service (note_recent_op sender id).
Proof. unfold note_recent_op. preserve. Qed.
Lemma refresh_mailboxes_calls : preserves service refresh_mailboxes.
Proof. unfold refresh_mailboxes, refresh_mailbox, refresh_entry. preserve. Qed.
Hint Resolve heartbeat_calls presence_calls note_recent_op_calls refresh_mailboxes_calls : calls.
Lemma mailbox_calls recipient : preserves service (mailbox recipient).
Proof. unfold mailbox. preserve. Qed.
Lemma reopen_gates_calls blocked : preserves service (reopen_gates blocked).
Proof. unfold reopen_gates. preserve. Qed.
Hint Resolve mailbox_calls reopen_gates_calls : calls.

(** *** Commits *)

Definition prep_keys (p : Prep) : StoreInner := host_keys (pc_host p).
Abbreviation prep := (via prep_keys T).

Lemma in_host_calls {A} (m : SM HostService A) : preserves service m → preserves prep (in_host m).
Proof. intros Hm. by eapply preserves_zoom. Qed.
Lemma prep_update_calls f : (∀ p, pc_host (f p) = pc_host p) → preserves prep (prep_update f).
Proof. intros Hf p. unfold wp, prep_update, via, prep_keys. cbn. rewrite Hf. reflexivity. Qed.
Hint Resolve in_host_calls : calls.
Hint Extern 0 (preserves _ (prep_update _)) => apply prep_update_calls; reflexivity : calls.
Lemma try_calls {A} (m : SM HostService A) : preserves service m → preserves service (try m).
Proof. intros Hm. by apply (preserves_try service). Qed.
Lemma map_calls {A B} (f : A → SM StoreInner B) l : (∀ x, preserves T (f x)) → preserves T (sm_map f l).
Proof. apply (preserves_map T). Qed.
Hint Resolve try_calls map_calls : calls.

Lemma prepare_recipient_calls record queued_at removed_file trusted peer :
  preserves prep (prepare_recipient record queued_at removed_file trusted peer).
Proof. unfold prepare_recipient. preserve. Qed.
Hint Resolve prepare_recipient_calls : calls.

Lemma apply_kick_calls target rotated staged : preserves service (apply_kick target rotated staged).
Proof. unfold apply_kick. preserve. Qed.
Hint Resolve apply_kick_calls : calls.
Lemma apply_commit_calls record trusted rotated tree removed_file next queues online :
  preserves service (apply_commit record trusted rotated tree removed_file next queues online).
Proof. unfold apply_commit. preserve. Qed.
Hint Resolve apply_commit_calls : calls.

Lemma commit_verified_calls update trusted rotated :
  preserves service (commit_verified_with_code update trusted rotated).
Proof.
  unfold commit_verified_with_code. preserve. intros h. unfold wp.
  match goal with |- context [sm_each ?f ?l ?p] =>
    assert (Hp : preserves prep (sm_each f l)) by preserve; specialize (Hp p); unfold wp in Hp;
    destruct (sm_each f l p) as [[prepared|e] q] end;
  lazymatch goal with |- let (_, _) := ?m (pc_host _) in _ =>
    assert (Hm : preserves service m) by preserve;
    exact (preserves_after service m _ _ h _ Hm Hp (λ _ _ Hx, Hx) (λ _ Hx, Hx)) end.
Qed.
Hint Resolve commit_verified_calls : calls.
Lemma commit_calls m : preserves service (commit m).
Proof. unfold commit, commit_verified. preserve. Qed.
Lemma kick_with_code_calls target code : preserves service (kick_with_code target code).
Proof. unfold kick_with_code. preserve. apply on_world_calls. preserve. Qed.
Hint Resolve commit_calls kick_with_code_calls : calls.
Lemma fan_out_control_calls sender update : preserves service (fan_out_control sender update).
Proof. unfold fan_out_control, commit_instruction, commit_verified, kick. preserve. Qed.
Hint Resolve fan_out_control_calls : calls.

(** *** Mail, flushes and uploads *)

Lemma take_online_control_calls recipient : preserves service (take_online_control recipient).
Proof. unfold take_online_control, refresh_pending. preserve. Qed.
Lemma issue_flush_challenge_calls recipient : preserves service (issue_flush_challenge recipient).
Proof. unfold issue_flush_challenge. preserve. Qed.
Lemma prepare_flush_calls peer challenge signature : preserves service (prepare_flush peer challenge signature).
Proof. unfold prepare_flush. preserve. Qed.
Lemma acknowledge_flush_calls peer prepared : preserves service (acknowledge_flush peer prepared).
Proof. unfold acknowledge_flush. preserve. Qed.
Lemma acknowledge_applied_calls peer through : preserves service (acknowledge_applied peer through).
Proof. unfold acknowledge_applied. preserve. Qed.
Lemma verify_writer_manifest_calls sender m : preserves service (verify_writer_manifest sender m).
Proof. unfold verify_writer_manifest. preserve. Qed.
Hint Resolve verify_writer_manifest_calls : calls.
Lemma stage_upload_calls sender m bodies link : preserves service (stage_upload sender m bodies link).
Proof. unfold stage_upload, put_body. preserve. Qed.
Lemma in_transaction_calls {A} (m : SM HostService A) : preserves service m → preserves service (in_transaction m).
Proof.
  intros Hm h. specialize (Hm (staged_service h)). unfold wp, in_transaction in *.
  by destruct (m (staged_service h)) as [[x|e] t].
Qed.
Hint Resolve stage_upload_calls in_transaction_calls : calls.
Lemma commit_writer_upload_calls sender m bodies link : preserves service (commit_writer_upload sender m bodies link).
Proof. unfold commit_writer_upload. preserve. Qed.
Lemma set_admission_calls metadata : preserves service (set_admission metadata).
Proof. unfold set_admission. preserve. Qed.
Lemma take_disconnects_calls : preserves service take_disconnects.
Proof. unfold take_disconnects. preserve. Qed.

(** *** Admission *)

Lemma bootstrap_queue_calls staged peer records : preserves world (bootstrap_queue staged peer records).
Proof. unfold bootstrap_queue. preserve. Qed.
Hint Resolve bootstrap_queue_calls : calls.

Lemma add_member_calls document :
  (∀ io input, preserves T (import_peer io input document)) → preserves service (add_member document).
Proof.
  intros Himport. unfold add_member. preserve. apply on_world_calls. unfold import_member, draw_wrap. preserve.
Qed.
End methods.

#[export] Hint Resolve keys_calls on_world_calls on_keys_calls require_running_calls require_member_calls
  stage_state_calls publish_state_calls heartbeat_calls refresh_mailboxes_calls mailbox_calls
  fan_out_control_calls kick_with_code_calls take_online_control_calls issue_flush_challenge_calls
  prepare_flush_calls acknowledge_flush_calls acknowledge_applied_calls verify_writer_manifest_calls
  commit_writer_upload_calls set_admission_calls take_disconnects_calls : calls.
#[export] Hint Resolve draw_calls draw_ok_calls disk_get_calls durable_get_calls durable_update_calls
  persist_files_calls persist_metadata_calls chunk_put_calls add_member_calls : calls.
#[export] Hint Extern 0 (preserves _ unix_time) => apply draw_ok_calls : calls.
#[export] Hint Extern 0 (preserves _ unix_millis) => apply draw_calls : calls.
#[export] Hint Extern 0 (preserves _ (random_bytes _)) => apply draw_ok_calls : calls.
#[export] Hint Extern 0 (preserves _ (update _)) => apply update_calls; [apply _|reflexivity] : calls.
#[export] Hint Extern 0 (preserves _ (update_state _)) => apply update_calls; [apply _|reflexivity] : calls.
