(* ===== verification/MemberCalls.v ===== *)
(** * What a member's replica does to the key store it uses

    The same as for a host: every method of the replica keeps any relation on the key store that
    the calls it makes on the store keep. *)
From S2P Require Export KeyCalls Member.
From Stdlib Require Import Lia ZifyN ZifyNat.

Open Scope N_scope.

Section replica.
Context `{Sha256, MlDsa65, XWing, AesGcm, HkdfSha256, Oracle}.

Definition member_keys (m : MemberReplica) : StoreInner := w_keys (mr_world m).

Context (T : relation StoreInner) `{!ServiceCalls T}.
Abbreviation world := (via w_keys T).
Abbreviation replica := (via member_keys T).

Lemma on_member_world_calls {A} (f : SM World A) : preserves world f → preserves replica (on_member_world f).
Proof. intros Hf. by eapply preserves_zoom. Qed.
Lemma on_member_keys_calls {A} (f : SM StoreInner A) : preserves T f → preserves replica (on_member_keys f).
Proof. intros Hf. eapply preserves_zoom; [by apply (keys_calls T)|done]. Qed.
Lemma member_update_calls f : (∀ m, mr_world (f m) = mr_world m) → preserves replica (member_update f).
Proof. intros Hf m. unfold wp, member_update, via, member_keys. rewrite Hf. reflexivity. Qed.
Hint Resolve on_member_world_calls on_member_keys_calls : calls.
Hint Extern 0 (preserves _ (member_update _)) => apply member_update_calls; intros; cbn; first [done|by case_match] : calls.

Lemma stage_calls : preserves replica stage.
Proof. unfold stage. preserve. Qed.
Lemma verify_record_manifest_calls m members archive : preserves T (verify_record_manifest m members archive).
Proof. unfold verify_record_manifest. preserve. Qed.
Hint Resolve stage_calls verify_record_manifest_calls : calls.
Lemma stage_control_mode_calls host_id accepted_snapshot staged record :
  preserves T (stage_control_mode host_id accepted_snapshot staged record).
Proof. unfold stage_control_mode, stage_manifest, stage_kick. preserve. Qed.
Lemma archive_replica_calls staged : preserves T (archive_replica staged).
Proof. unfold archive_replica, archive_documents, archive_document. preserve; apply find_document_calls, _. Qed.
Lemma metadata_for_calls root last staged : preserves T (metadata_for root last staged).
Proof. unfold metadata_for. preserve. Qed.
Lemma discard_peer_calls peer : preserves replica (discard_peer peer).
Proof. unfold discard_peer. apply on_member_world_calls. preserve. Qed.
Hint Resolve stage_control_mode_calls archive_replica_calls metadata_for_calls discard_peer_calls : calls.
Lemma apply_staged_calls staged : preserves replica (apply_staged staged).
Proof. unfold apply_staged. preserve. intros m. unfold wp, via, member_keys. cbn. reflexivity. Qed.
Hint Resolve apply_staged_calls : calls.

Lemma enter_vault_calls root : preserves replica (enter_vault root).
Proof. unfold enter_vault. preserve. Qed.
Lemma learn_history_calls documents : preserves replica (learn_history documents).
Proof. unfold learn_history. preserve. Qed.
Lemma reconcile_members_calls members denied : preserves replica (reconcile_members members denied).
Proof. unfold reconcile_members. preserve. Qed.
Lemma apply_record_calls record : preserves replica (apply_record record).
Proof. unfold apply_record, stage_control. preserve. Qed.
Hint Resolve apply_record_calls : calls.
Lemma apply_authenticated_control_calls record : preserves replica (apply_authenticated_control record).
Proof. unfold apply_authenticated_control. preserve. Qed.
Lemma finish_receipts_calls : preserves replica finish_receipts.
Proof. unfold finish_receipts. preserve. Qed.

Lemma open_frame_calls session header staged frame : preserves T (open_frame session header staged frame).
Proof. unfold open_frame. preserve. Qed.
Lemma drain_opened_calls host_id installing d opened : preserves T (drain_opened host_id installing d opened).
Proof. unfold drain_opened. preserve. Qed.
Lemma check_header_calls header session : preserves replica (check_header_for_session header session).
Proof. unfold check_header_for_session. preserve. Qed.
Hint Resolve open_frame_calls drain_opened_calls check_header_calls : calls.
Lemma drain_envelope_calls session installing d envelope :
  preserves replica (drain_envelope session installing d envelope).
Proof. unfold drain_envelope. preserve. Qed.
Lemma drain_body_calls acc body : preserves replica (drain_body acc body).
Proof. unfold drain_body. preserve. Qed.
Hint Resolve drain_envelope_calls drain_body_calls : calls.
Lemma prepare_mailbox_calls envelopes history through session :
  preserves replica (prepare_mailbox_for_session envelopes history through session).
Proof. unfold prepare_mailbox_for_session, end_drain. preserve. Qed.
Lemma commit_prepared_calls prepared : preserves replica (commit_prepared prepared).
Proof. unfold commit_prepared. preserve. Qed.
End replica.

#[export] Hint Resolve on_member_world_calls on_member_keys_calls learn_history_calls reconcile_members_calls
  apply_authenticated_control_calls finish_receipts_calls prepare_mailbox_calls commit_prepared_calls
  enter_vault_calls : calls.
#[export] Hint Extern 0 (preserves _ (member_update _)) =>
  apply member_update_calls; [apply _|intros; cbn; first [done|by case_match]] : calls.
