(* ===== verification/HostingInv.v ===== *)
(** * What serving a connection keeps

    The processes of one host share a key store and the hosts of its vaults.  [serving]: what may
    become of them, in steps that keep the key store's invariant and each host's, and at which a
    peer becomes a member only by a signed request that names the code then in force.  Serving a
    connection, whatever its peer sends, is such a run. *)
From S2P Require Export Serve KeyCalls SessionInv HostMethods.
From Stdlib Require Import Lia ZifyN ZifyNat.

Open Scope N_scope.

Section store.
Context `{Sha256, MlDsa65, XWing, AesGcm, HkdfSha256, Past}.

Lemma keeps_store_sub {A} known (m : SM StoreInner A) :
  (∀ s, inv s → wp m (λ _, inv) inv s) →
  (∀ s, wp m (λ _ s', si_peers s' ⊆ si_peers s ∧ local_id s' = local_id s)
          (λ s', si_peers s' ⊆ si_peers s ∧ local_id s' = local_id s) s) →
  preserves (keeps_store known) m.
Proof.
  intros Hi Hp s. specialize (Hi s). specialize (Hp s). unfold wp, keeps_store in *.
  destruct (m s) as [[x|e] s']; intros [Hs Hk]; destruct Hp as [Hps Hl]; (split; [|done]); split;
    [by apply Hi| |by apply Hi|]; intros p d Hd; by eapply Hk, lookup_weaken.
Qed.

Lemma with_pair_peers {A} handle (f : SM PairKeyState A) : stays same_peers (with_pair_state handle f).
Proof. intros s. unfold with_pair_state. by method. Qed.

#[export] Instance store_calls known : ServiceCalls (keeps_store known).
Proof.
  split; [apply _|..]; intros.
  - apply stays_store; [|apply with_pair_peers]. intros s Hs. by apply with_pair_state_wp.
  - apply stays_store; [intros s Hs; by apply block_wp|]. intros s. unfold block_live_traffic. by method.
  - apply stays_store; [intros s Hs; by apply unblock_wp|]. intros s. unfold unblock_live_traffic. by method.
  - apply keeps_store_sub; [intros s Hs; by apply discard_pair_wp|]. intros s. unfold discard_pair.
    method; (split; [|done]); try done; apply delete_subseteq.
Qed.

Lemma promote_peers io peer epoch : stays same_peers (promote_candidate io peer epoch).
Proof. intros s. unfold promote_candidate. by method. Qed.
Lemma promote_store known io peer epoch : preserves (keeps_store known) (promote_candidate io peer epoch).
Proof. apply stays_store; [intros s Hs; by apply promote_wp|apply promote_peers]. Qed.
Lemma retire_store known io handle : preserves (keeps_store known) (retire io handle).
Proof.
  apply stays_store; [intros s Hs; by apply retire_wp|]. intros s. unfold retire. by method.
Qed.
End store.

(** ** Runs of the process *)

Section serving.
Context `{Sha256, MlDsa65, XWing, AesGcm, HkdfSha256, Oracle, SocketAddrs, Past}.
Context (known : IdentityDocument → Prop).

Definition vault_state (v : VaultHost) : HostState := hs_state (vh_host v).
Definition vault_store (v : VaultHost) : StoreInner := host_keys (vh_host v).

(** A peer that presents a signed request for the vault, with the code in force. *)
Definition admissible (v : VaultHost) (peer : PeerId) : Prop :=
  ∃ request document metadata,
    doc_peer_id document = peer ∧ known document
    ∧ JoinRequest_verify request document = Ok tt
    ∧ st_admission (vault_state v) = Some metadata
    ∧ jr_vault_id request = vm_vault_id metadata ∧ jr_join_code request = vm_join_code metadata
    ∧ peer ∉ st_denied (vault_state v).

Record vault_step (v v' : VaultHost) : Prop := {
  vs_hop : hop (vh_host v) (vh_host v');
  vs_joined p : p ∈ st_members (vault_state v') → p ∈ st_members (vault_state v) ∨ admissible v p;
}.

(** Nobody joins. *)
Definition vault_tame (v v' : VaultHost) : Prop := tame (vh_host v) (vh_host v').

#[export] Instance vault_tame_preorder : PreOrder vault_tame.
Proof. split; [intros v; unfold vault_tame; reflexivity|]. intros a b c. unfold vault_tame. by etransitivity. Qed.

Lemma tame_vault_step v v' : vault_tame v v' → vault_step v v'.
Proof. intros [Hh Hm]. split; [done|]. intros p Hp. left. by apply Hm. Qed.

(** What a call on a vault may do to it and to the key store. *)
Definition cell_step (v v' : VaultHost) : Prop :=
  keeps_store known (vault_store v) (vault_store v') ∧ vault_step v v'.
Definition cell_tame (v v' : VaultHost) : Prop :=
  keeps_store known (vault_store v) (vault_store v') ∧ vault_tame v v'.

#[export] Instance cell_tame_preorder : PreOrder cell_tame.
Proof.
  split; [intros v; split; reflexivity|]. intros a b c [] []. split; by etransitivity.
Qed.

(** No host is lost, and one that is new satisfies its invariant. *)
Record hosting_step (h h' : Hosting) : Prop := {
  hg_keys : keeps_store known (ho_keys h) (ho_keys h');
  hg_cells a v : ho_cells h !! a = Some v → ∃ v', ho_cells h' !! a = Some v' ∧ vault_step v v';
  hg_new a v : ho_cells h !! a = None → ho_cells h' !! a = Some v → service_ok (vh_host v);
}.

Definition serving : relation Hosting := rtc hosting_step.

#[export] Instance serving_preorder : PreOrder serving.
Proof. unfold serving. split; apply _. Qed.

(** Hosts that stay as they are. *)
Lemma serving_keys h h' :
  ho_cells h' = ho_cells h → keeps_store known (ho_keys h) (ho_keys h') → serving h h'.
Proof.
  intros Hc Hk. apply rtc_once. split; [done|..]; intros a v; rewrite Hc; [|congruence].
  intros Ha. exists v. split; [done|]. by apply tame_vault_step.
Qed.
Lemma serving_same h h' : ho_cells h' = ho_cells h → ho_keys h' = ho_keys h → serving h h'.
Proof. intros Hc Hk. apply serving_keys; [done|]. by rewrite Hk. Qed.

#[export] Instance serving_relation : KeyRelation (keeps_store known) serving.
Proof.
  split; [apply _|apply _| |].
  - intros h k Hk. by apply serving_keys.
  - intros h n. by apply serving_same.
Qed.

(** ** Calls on a vault *)

Lemma on_cell_serving {A} a (m : SM VaultHost A) : preserves cell_step m → preserves serving (on_cell a m).
Proof.
  intros Hm h. unfold wp, on_cell. destruct (ho_cells h !! a) as [v|] eqn:Ha; [|reflexivity].
  specialize (Hm (load_vault (ho_keys h) (ho_tick h) v)). unfold wp in Hm.
  destruct (m _) as [r v'].
  assert (Hstep : cell_step (load_vault (ho_keys h) (ho_tick h) v) v') by (by destruct r).
  assert (serving h (set_ho_cells (<[a := v']> (ho_cells h))
    (set_ho_tick (w_tick (hs_world (vh_host v'))) (set_ho_keys (w_keys (hs_world (vh_host v'))) h))))
    by (apply rtc_once; destruct Hstep as [Hk [Hh Hj]]; split; [exact Hk|..]; intros b u Hb; cbn;
        destruct (decide (a = b)) as [<-|Hne]; rewrite ?lookup_insert_eq, ?lookup_insert_ne by done;
        [exists v'; split; [done|]; assert (u = v) as -> by congruence; by split
        |exists u; split; [done|]; by apply tame_vault_step|congruence|congruence]).
  by destruct r.
Qed.

Lemma cell_tame_step {A} (m : SM VaultHost A) : preserves cell_tame m → preserves cell_step m.
Proof.
  intros Hm v. eapply wp_mono; [apply Hm| |]; cbn beta.
  - intros x v' [Hk Ht]. split; [done|]. by apply tame_vault_step.
  - intros v' [Hk Ht]. split; [done|]. by apply tame_vault_step.
Qed.

Lemma in_service_tame {A} (m : SM HostService A) :
  keeps tame m → preserves (via host_keys (keeps_store known)) m → preserves cell_tame (in_service m).
Proof.
  intros Ht Hk v. apply wp_zoom. eapply wp_mono; [apply wp_conj; [apply Ht|apply Hk]| |]; cbn beta.
  - by intros x h [].
  - by intros h [].
Qed.

Lemma on_service_serving {A} a (m : SM HostService A) :
  keeps tame m → preserves (via host_keys (keeps_store known)) m → preserves serving (on_service a m).
Proof. intros Ht Hk. by apply on_cell_serving, cell_tame_step, in_service_tame. Qed.

Lemma vault_keys_tame {A} (m : SM StoreInner A) :
  preserves (keeps_store known) m → preserves cell_tame (vault_keys m).
Proof.
  intros Hm. apply in_service_tame; [apply keeps_on_keys, _|]. by apply on_keys_calls.
Qed.

Lemma hosting_keys_serving {A} (m : SM StoreInner A) :
  preserves (keeps_store known) m → preserves serving (hosting_keys m).
Proof. intros Hm. eapply preserves_zoom; [exact Hm|]. intros h k Hk. by apply serving_keys. Qed.

Lemma host_update_serving f :
  (∀ h, ho_cells (f h) = ho_cells h) → (∀ h, ho_keys (f h) = ho_keys h) → preserves serving (host_update f).
Proof. intros Hc Hk h. by apply serving_same. Qed.

(** ** Admission *)

Lemma admission_wp (Q : VaultMetadata → VaultHost → Prop) (E : VaultHost → Prop) v :
  (∀ metadata, st_admission (vault_state v) = Some metadata → Q metadata v) → E v → wp admission Q E v.
Proof.
  intros HQ HE. apply wp_bind, wp_get, wp_lift; [|done]. intros metadata Hm. apply HQ.
  unfold vault_state. by destruct (st_admission _); simplify_eq/=.
Qed.

Context (Hfree : collision_free_documents known).

Lemma admit_step request d v :
  known d → wp (VaultHost_admit request d) (λ _, cell_step v) (cell_tame v) v.
Proof.
  intros Hd. assert (Hrefl : cell_tame v v) by reflexivity.
  assert (Hsame : cell_step v v) by (split; [apply Hrefl|by apply tame_vault_step]).
  unfold VaultHost_admit. apply wp_bind, wp_lift; [intros [] Hv|done].
  apply wp_bind, admission_wp; [|done]. intros metadata Hm. apply wp_bind, wp_get.
  apply wp_if; intros Hc; [|by apply wp_err].
  apply andb_true_iff in Hc as [Hid%bool_decide_eq_true Hden%negb_true_iff%bool_decide_eq_false].
  apply wp_if; intros _; [|by apply wp_err]. cbv zeta. apply wp_if; intros Hin; [by apply wp_ret|].
  apply wp_if; intros Hcode; [|by apply wp_err]. apply bool_decide_eq_true in Hcode.
  assert (Ha : admissible v (doc_peer_id d)) by (exists request, d, metadata; by split_and!).
  apply wp_zoom. eapply wp_mono; [apply wp_conj; [apply add_member_joins|]| |].
  - apply (add_member_calls (keeps_store known)). intros io input. by apply import_store.
  - cbn beta. intros _ h [[Hj _] Hk]. split; [exact Hk|]. split; [exact (hop_joins _ _ _ Hj)|].
    destruct Hj as (_ & _ & _ & Hm'). intros p Hp%Hm'. apply elem_of_union in Hp as [->%elem_of_singleton|Hp]; auto.
  - cbn beta. intros h [Hj Hk]. split; [exact Hk|]. by apply tame_calm.
Qed.

Lemma cell_step_host v v1 v' : vh_host v1 = vh_host v → cell_step v1 v' → cell_step v v'.
Proof. destruct v, v1. cbn. intros -> [Hk [Hh Hj]]. split; [exact Hk|by split]. Qed.

Lemma activate_step request d : known d → preserves cell_step (activate request d).
Proof.
  intros Hd v. assert (Hrefl : cell_tame v v) by reflexivity.
  assert (Hsame : cell_step v v) by (split; [apply Hrefl|by apply tame_vault_step]).
  unfold activate. apply wp_bind, wp_get. apply wp_if; intros _; [|by apply wp_err].
  apply wp_bind, wp_put, wp_catch. eapply wp_mono; [by apply admit_step|intros x v1; by apply cell_step_host|]. cbn beta.
  intros v1 [Hk Ht] e. apply wp_bind, wp_get, wp_bind, wp_put, wp_err.
  split; [exact Hk|]. by apply tame_vault_step.
Qed.

(** ** Methods that change no membership *)

Lemma member_document_tame peer : preserves cell_tame (member_document peer).
Proof.
  unfold member_document. repeat preserve_step; apply vault_keys_tame; preserve.
Qed.

Lemma admission_tame : preserves cell_tame admission.
Proof. intros v. by apply admission_wp. Qed.

Lemma welcome_tame : preserves cell_tame welcome.
Proof. unfold welcome. repeat preserve_step; [apply member_document_tame|apply admission_tame]. Qed.

Lemma update_tame f : (∀ v, vh_host (f v) = vh_host v) → ∀ v, cell_tame v (f v).
Proof. intros Hf v. unfold cell_tame, vault_tame, vault_store. rewrite Hf. split; reflexivity. Qed.

Lemma cell_vault_id_serving a : preserves serving (cell_vault_id a).
Proof. unfold cell_vault_id. apply on_cell_serving, cell_tame_step. repeat preserve_step. apply admission_tame. Qed.

Lemma has_session_serving peer : preserves serving (has_session peer).
Proof. intros h. unfold wp, has_session. reflexivity. Qed.
Lemma has_confirmed_pair_serving peer : preserves serving (has_confirmed_pair peer).
Proof. intros h. unfold wp, has_confirmed_pair. reflexivity. Qed.

(** ** Tasks *)

Implicit Types l : Conn Hosting.

Lemma shared_keeps {A} (m : SM Hosting A) : preserves serving m → link_keeps serving (shared m).
Proof. apply link_keeps_shared. Qed.

Lemma task_service_keeps {A} a (m : SM HostService A) :
  keeps tame m → preserves (via host_keys (keeps_store known)) m → link_keeps serving (task_service a m).
Proof. intros Ht Hk. by apply shared_keeps, on_service_serving. Qed.

Lemma service_get_keeps {A} a (f : HostService → A) :
  link_keeps serving (task_service a (do! h := sm_get in sm_ret (f h))).
Proof. apply task_service_keeps; [host_steps|preserve]. Qed.

(** A holder that only reads its chunks. *)
Lemma in_pull_tame request peer : keeps tame (in_pull (Pull.serve request peer)).
Proof.
  intros h. unfold wp, in_pull.
  assert (Hs : preserves (λ p p' : Peer, pe_chunks p' = pe_chunks p) (Pull.serve request peer)).
  { assert (PreOrder (λ p p' : Peer, pe_chunks p' = pe_chunks p)) by (split; [done|intros a b c E1 E2; congruence]).
    assert (Hkeys : ∀ B (m : SM StoreInner B), preserves (λ p p' : Peer, pe_chunks p' = pe_chunks p) (pe_keys m)).
    { intros B m p. apply wp_zoom. eapply wp_mono; [apply wp_any|done|done]. }
    unfold Pull.serve. repeat first [apply Hkeys|preserve_step]. intros p. done. }
  specialize (Hs (mkPeer (hs_world h) (st_chunks (hs_state h)))). unfold wp in Hs.
  destruct (Pull.serve request peer _) as [r p].
  assert (tame h (set_hs_state (set_st_chunks (pe_chunks p) (hs_state h)) (set_hs_world (pe_world p) h))).
  { assert (pe_chunks p = st_chunks (hs_state h)) as -> by (by destruct r).
    apply (hr_outside tame); [by destruct (hs_state h)|done]. }
  by destruct r.
Qed.

Lemma in_pull_calls request peer :
  preserves (via host_keys (keeps_store known)) (in_pull (Pull.serve request peer)).
Proof.
  intros h. unfold wp, in_pull.
  assert (Hs : preserves (via (λ p, w_keys (pe_world p)) (keeps_store known)) (Pull.serve request peer)).
  { assert (Hkeys : ∀ B (m : SM StoreInner B), preserves (keeps_store known) m →
      preserves (via (λ p, w_keys (pe_world p)) (keeps_store known)) (pe_keys m)).
    { intros B m Hm. eapply preserves_zoom; [by apply (keys_calls (keeps_store known))|done]. }
    unfold Pull.serve. repeat first [apply Hkeys; solve [preserve]|preserve_step].
    intros p. unfold wp, via. cbn. reflexivity. }
  specialize (Hs (mkPeer (hs_world h) (st_chunks (hs_state h)))). unfold wp in Hs.
  destruct (Pull.serve request peer _) as [r p]. by destruct r.
Qed.
End serving.

(** ** Messages on a connection *)

Section channel.
Context `{Sha256, MlDsa65, XWing, AesGcm, HkdfSha256, Oracle, SocketAddrs}.
Context {S : Type} `{!Keyed S} (T : relation StoreInner) (R : relation S) `{!KeyRelation T R, !ServiceCalls T}.

Lemma link_keeps_each {A} (f : A → SM (Conn S) unit) l :
  (∀ x, link_keeps R (f x)) → link_keeps R (sm_each f l).
Proof.
  intros Hf. induction l as [|x l IH]; [apply (link_keeps_ret R)|].
  apply (link_keeps_bind R); [apply Hf|]. by intros _.
Qed.

Lemma link_keys_keeps {A} (m : SM StoreInner A) : preserves T m → link_keeps R (link_keys m).
Proof. apply link_keeps_keys. done. Qed.

Ltac channel_step :=
  lazymatch goal with
  | |- link_keeps _ (try_write_link _) => apply (link_keeps_try_write R)
  | |- link_keeps _ (sm_each _ _) => apply link_keeps_each; intros ?
  | |- link_keeps _ (link_keys _) => apply link_keys_keeps; solve [preserve]
  | |- _ => link_step
  end.
Ltac channel := repeat channel_step; auto with link nocore.

Lemma control_frame_calls selected control : preserves T (control_frame selected control).
Proof. unfold control_frame, seal_packet_with_session. preserve. Qed.
Lemma open_with_session_calls selected packet : preserves T (open_packet_with_session selected packet).
Proof. unfold open_packet_with_session. preserve. Qed.
Hint Resolve control_frame_calls open_with_session_calls : calls.

Lemma send_frame_keeps frame : link_keeps R (send_frame frame).
Proof. unfold send_frame. channel. Qed.
Lemma try_send_keeps selected control : link_keeps R (try_send_control_for_session selected control).
Proof. unfold try_send_control_for_session. channel. Qed.
Hint Resolve send_frame_keeps try_send_keeps : link.
Lemma send_control_keeps peer control : link_keeps R (send_control peer control).
Proof. unfold send_control, send_control_for_session. channel. Qed.
Lemma read_after_ack_keeps epoch : link_keeps R (read_after_ack epoch).
Proof. unfold read_after_ack, after_ack. channel. Qed.
Hint Resolve send_control_keeps read_after_ack_keeps : link.
Lemma read_control_for_session_keeps selected : link_keeps R (read_control_for_session selected).
Proof. unfold read_control_for_session. channel. Qed.
Hint Resolve read_control_for_session_keeps : link.
Lemma read_control_keeps peer : link_keeps R (read_control peer).
Proof. unfold read_control. channel. Qed.
Lemma require_live_header_calls header sender receiver : preserves T (require_live_header header sender receiver).
Proof. unfold require_live_header. preserve. Qed.
Lemma require_header_calls peer header : preserves T (require_header peer header).
Proof. unfold require_header. preserve. Qed.
Lemma session_seal_calls peer plaintext : preserves T (session_seal_packet peer plaintext).
Proof. unfold session_seal_packet, seal_packet_with_session. preserve. Qed.
Lemma session_open_calls peer packet : preserves T (session_open_packet peer packet).
Proof. unfold session_open_packet. preserve. Qed.
Hint Resolve require_live_header_calls require_header_calls session_seal_calls session_open_calls : calls.
Lemma send_packet_keeps peer plaintext : link_keeps R (send_packet peer plaintext).
Proof. unfold send_packet. channel. Qed.
End channel.

#[export] Hint Resolve control_frame_calls open_with_session_calls require_live_header_calls
  require_header_calls session_seal_calls session_open_calls : calls.

(** ** Reading *)

Section reading.
Context `{Sha256, MlDsa65, XWing, AesGcm, HkdfSha256, Oracle, SocketAddrs}.
Context {S : Type} `{!Keyed S}.

(** What is left to read got shorter, from [l0] on. *)
Definition read_some (l0 l : Conn S) : Prop := (length (lk_incoming l) < length (lk_incoming l0))%nat.

Lemma read_some_moves {A} (m : SM (Conn S) A) l0 l :
  link_keeps any m → read_some l0 l → wp m (λ _, read_some l0) (λ _, True) l.
Proof.
  intros Hm Hl. eapply wp_mono; [apply Hm, turns_any| |done]. cbn beta. intros x l' [Hl' _].
  apply mv_incoming, suffix_length in Hl'. unfold read_some in *. lia.
Qed.

Lemma after_ack_any epoch frame : link_keeps any (after_ack epoch frame : SM (Conn S) _).
Proof. unfold after_ack. repeat link_step. Qed.

Lemma after_ack_loop fuel epoch : link_keeps any (read_loop_fuel fuel (after_ack epoch) : SM (Conn S) Frame).
Proof.
  induction fuel as [|fuel IH]; cbn [read_loop_fuel]; [apply (link_keeps_err any)|].
  apply (link_keeps_bind any); [apply (link_keeps_read any)|intros frame].
  apply (link_keeps_bind any); [apply after_ack_any|]. intros [x|]; [apply (link_keeps_ret any)|exact IH].
Qed.

Lemma read_after_ack_reads epoch (l0 l : Conn S) :
  moved l0 l → wp (read_after_ack epoch) (λ _, read_some l0) (λ _, True) l.
Proof.
  intros Hl0. apply mv_incoming, suffix_length in Hl0. unfold read_after_ack, read_loop. unfold wp.
  change (wp (read_loop_fuel (length (lk_incoming l)) (after_ack epoch)) (λ _, read_some l0) (λ _, True) l).
  destruct (length (lk_incoming l)) as [|fuel] eqn:Hlen; [done|]. cbn [read_loop_fuel].
  apply wp_bind. unfold wp at 1, read_link. destruct (lk_incoming l) as [|[turn [frame|e]] rest]; [done| |done].
  match goal with |- wp ?m _ _ ?l1 => assert (Hread : read_some l0 l1); [unfold read_some; cbn in *; lia|];
    apply read_some_moves; [|exact Hread] end.
  apply (link_keeps_bind any); [apply after_ack_any|].
  intros [x|]; [apply (link_keeps_ret any)|apply after_ack_loop].
Qed.

Lemma read_after_ack_received epoch (l0 l : Conn S) :
  moved l0 l → wp (read_after_ack epoch) (λ frame _, received l0 frame) (λ _, True) l.
Proof.
  intros Hl. apply (read_loop_wp _ _ l0); [done|]. intros frame l1 Hr Hl1. unfold after_ack.
  apply wp_if; intros _; [|by apply wp_ret]. apply wp_bind, wp_lift; [intros [ack retry] _|done].
  apply wp_ret. by destruct (_ && _).
Qed.
End reading.

(** ** The task of a connection *)

Section tasks.
Context `{Sha256, MlDsa65, XWing, AesGcm, HkdfSha256, Oracle, SocketAddrs, Past}.
Context (known : IdentityDocument → Prop) (Hfree : collision_free_documents known).
Abbreviation R := (serving known).
Abbreviation T := (keeps_store known).

Hint Extern 0 (link_keeps _ (send_frame _)) => apply (send_frame_keeps T R) : link.
Hint Extern 0 (link_keeps _ (send_packet _ _)) => apply (send_packet_keeps T R) : link.
Hint Extern 0 (link_keeps _ (send_control _ _)) => apply (send_control_keeps T R) : link.
Hint Extern 0 (link_keeps _ (try_send_control_for_session _ _)) => apply (try_send_keeps T R) : link.
Hint Extern 0 (link_keeps _ (read_control _)) => apply (read_control_keeps T R) : link.
Hint Extern 0 (link_keeps _ (read_after_ack _)) => apply (read_after_ack_keeps T R) : link.
Hint Extern 0 (link_keeps _ (task_service _ (do! h := sm_get in sm_ret _))) => apply (service_get_keeps known _) : link.
Hint Extern 0 (PreOrder _) => apply _ : link.
Hint Extern 0 (preserves _ (discard_candidate _ _)) => apply (cc_discard T) : calls.

Ltac task_step :=
  first [solve [auto with link nocore]|
  lazymatch goal with
  | |- link_keeps _ (try_write_link _) => apply (link_keeps_try_write R)
  | |- link_keeps _ (sm_each _ _) => apply (link_keeps_each T R); intros ?
  | |- link_keeps _ (link_keys _) => apply (link_keys_keeps T R); solve [preserve]
  | |- link_keeps _ (link_write _) => apply (link_keeps_stored T R); intros ?
  | |- link_keeps _ (locals_update _) => apply (link_keeps_locals R)
  | |- link_keeps _ locals_get => apply (link_keeps_locals_get R)
  | |- link_keeps _ (task_service _ _) => apply task_service_keeps; [host_steps|solve [preserve]]
  | |- link_keeps _ (let _ := _ in _) => cbv zeta
  | |- stays ?T ?m => change (preserves T m); solve [preserve]
  | |- _ => link_step
  end].
Ltac task := repeat task_step.

Lemma welcome_keeps a : link_keeps R (shared (on_cell a welcome)).
Proof. apply shared_keeps, on_cell_serving, cell_tame_step, welcome_tame. Qed.
Hint Resolve welcome_keeps : link.

Lemma flush_offer_tame peer : keeps tame (flush_offer peer).
Proof. unfold flush_offer. host_steps. Qed.
Lemma flush_offer_calls peer : preserves (via host_keys T) (flush_offer peer).
Proof. unfold flush_offer. preserve. Qed.

Lemma flush_to_peer_keeps a peer : link_keeps R (flush_to_peer a peer).
Proof.
  unfold flush_to_peer. apply (link_keeps_bind R); [apply task_service_keeps; [apply flush_offer_tame|apply flush_offer_calls]|].
  intros offer. task.
Qed.

Lemma send_member_state_keeps a peer : link_keeps R (send_member_state a peer).
Proof. unfold send_member_state. task. Qed.
Hint Resolve send_member_state_keeps : link.
Lemma send_pending_controls_keeps a peer : link_keeps R (send_pending_controls a peer).
Proof. unfold send_pending_controls. task. Qed.
Hint Resolve send_pending_controls_keeps : link.

Lemma finalize_upload_tame peer upload link : keeps tame (finalize_upload peer upload link).
Proof. pose proof (commit_writer_upload_keeps tame). unfold finalize_upload. host_steps. Qed.
Lemma finalize_upload_calls peer upload link : preserves (via host_keys T) (finalize_upload peer upload link).
Proof. unfold finalize_upload. preserve. Qed.
Lemma receive_control_tame peer update upload : keeps tame (receive_member_control peer update upload).
Proof. pose proof finalize_upload_tame. unfold receive_member_control. host_steps. Qed.
Lemma receive_control_calls peer update upload : preserves (via host_keys T) (receive_member_control peer update upload).
Proof. pose proof finalize_upload_calls. unfold receive_member_control. preserve. Qed.
Lemma receive_body_calls peer body upload : preserves T (receive_upload_body peer body upload).
Proof. unfold receive_upload_body. preserve. Qed.

Lemma serve_have_keeps a peer plaintext : link_keeps R (serve_have a peer plaintext).
Proof. unfold serve_have. task. Qed.
Lemma serve_pull_keeps a peer request : link_keeps R (serve_pull a peer request).
Proof.
  unfold serve_pull. apply (link_keeps_bind R); [apply task_service_keeps; [apply in_pull_tame|apply in_pull_calls]|].
  intros responses. task.
Qed.
Lemma serve_control_keeps a peer control upload : link_keeps R (serve_control a peer control upload).
Proof.
  pose proof finalize_upload_tame. pose proof finalize_upload_calls. unfold serve_control. task.
Qed.
Hint Resolve serve_have_keeps serve_pull_keeps serve_control_keeps : link.
Lemma pending_after_keeps a peer upload : link_keeps R (pending_after a peer upload).
Proof. unfold pending_after. task. Qed.
Hint Resolve pending_after_keeps : link.
Lemma packet_frame_keeps a peer payload upload : link_keeps R (serve_packet_frame a peer payload upload).
Proof.
  pose proof receive_control_tame. pose proof receive_control_calls. unfold serve_packet_frame. task.
Qed.
Lemma chunk_frame_keeps a peer payload upload : link_keeps R (serve_chunk_frame a peer payload upload).
Proof. pose proof receive_body_calls. unfold serve_chunk_frame. task. Qed.
Hint Resolve packet_frame_keeps chunk_frame_keeps : link.
Lemma cell_members_keeps a : link_keeps R (shared (cell_members a)).
Proof. apply shared_keeps. unfold cell_members. apply on_service_serving; [host_steps|preserve]. Qed.
Hint Resolve cell_members_keeps : link.
Lemma live_turn_keeps a peer upload : link_keeps R (live_turn a peer upload).
Proof. unfold live_turn. task. Qed.
Lemma serve_live_keeps a peer : link_keeps R (serve_live a peer).
Proof.
  enough (Hfuel : ∀ fuel upload, link_keeps R (live_fuel fuel a peer upload)) by (intros l Ht; by apply Hfuel).
  intros fuel. induction fuel as [|fuel IH]; intros upload; cbn [live_fuel]; [apply (link_keeps_err R)|].
  apply (link_keeps_bind R); [apply live_turn_keeps|intros ?; apply IH].
Qed.
Hint Resolve serve_live_keeps flush_to_peer_keeps : link.
Lemma serve_admitted_keeps a peer : link_keeps R (serve_admitted a peer).
Proof. unfold serve_admitted. task. Qed.

(** ** Before the admission *)

Lemma refuse_request_keeps {A} selected peer had_pair error : link_keeps R (refuse_request (A := A) selected peer had_pair error).
Proof. unfold refuse_request. task. Qed.
Lemma discard_rejected_keeps selected had_pair : link_keeps R (discard_rejected_candidate selected had_pair).
Proof.
  unfold discard_rejected_candidate. task.
Qed.
Hint Resolve discard_rejected_keeps : link.
Lemma refuse_join_keeps {A} selected had_pair denial error : link_keeps R (refuse_join (A := A) selected had_pair denial error).
Proof. unfold refuse_join. task. Qed.

Lemma acquire_handshake_keeps peer : link_keeps R (acquire_handshake peer).
Proof.
  unfold acquire_handshake. apply (link_keeps_bind R); [|intros taken; task].
  apply shared_keeps. repeat preserve_step. by apply host_update_serving.
Qed.
Lemma drop_handshake_keeps : link_keeps R drop_handshake.
Proof.
  unfold drop_handshake. task. apply shared_keeps. by apply host_update_serving.
Qed.

Lemma hosting_write_serving {A} (m : WriteOutcome → SM StoreInner A) :
  (∀ io, preserves T (m io)) → preserves R (hosting_write m).
Proof.
  intros Hm h. unfold wp, hosting_write.
  pose proof (hosting_keys_serving known _ (Hm (oc_write (ho_tick h))) (set_ho_tick (Datatypes.S (ho_tick h)) h)) as Hk.
  unfold wp in Hk. destruct (hosting_keys _ _) as [[x|e] h'];
    (etransitivity; [|exact Hk]; by apply serving_same).
Qed.

Lemma check_binding_serving peer requested : preserves R (check_binding peer requested).
Proof. unfold check_binding, bound_vault. repeat preserve_step. Qed.

Lemma bind_serving peer vault_id : preserves R (bind peer vault_id).
Proof.
  unfold bind. apply (preserves_bind R); [apply check_binding_serving|intros _].
  apply (preserves_bind R); [apply hosting_keys_serving; preserve|intros session]. by apply host_update_serving.
Qed.

Lemma unbind_serving peer vault_id : preserves R (unbind peer vault_id).
Proof. unfold unbind. apply host_update_serving; intros h; by case_match. Qed.

Lemma admit_peer_serving request d selected : known d → preserves R (admit_peer request d selected).
Proof.
  intros Hd. unfold admit_peer, get_vault. cbv zeta.
  apply (preserves_bind R); [repeat preserve_step|intros found]. apply (preserves_bind R); [preserve_step|intros a].
  apply (preserves_bind R); [by apply on_cell_serving, activate_step|intros _].
  apply (preserves_bind R); [preserve_step|intros h].
  apply (preserves_bind R); [|intros _].
  - destruct (match _ with Ok _ => _ | Err _ => _ end); [|preserve_step].
    apply (preserves_bind R); [apply hosting_keys_serving; preserve|intros old].
    apply (preserves_bind R); [apply hosting_write_serving; intros; apply promote_store|intros _].
    apply hosting_write_serving. intros. apply retire_store.
  - apply (preserves_bind R); [apply bind_serving|intros _].
    apply (preserves_bind R); [apply hosting_keys_serving; preserve|intros _; preserve_step].
Qed.

Lemma drop_active_tame peer :
  preserves (cell_tame known)
    (do! v := sm_get in
     do! _ := sm_put (set_vh_active (vh_active_peers v ∖ {[peer]}) v) in
     do! _ := sm_attempt (in_service (heartbeat peer 0)) in
     sm_ret tt).
Proof.
  intros v. apply wp_bind, wp_get, wp_bind, wp_put, wp_bind, wp_attempt.
  assert (Hh : preserves (cell_tame known) (in_service (heartbeat peer 0)))
    by (apply in_service_tame; [host_steps|preserve]).
  apply (preserves_after (cell_tame known) _ _ _ v); [exact Hh|by apply (update_tame known (set_vh_active _))|..];
    intros; by apply wp_ret.
Qed.

Lemma drop_peer_serving a vault_id peer : preserves R (drop_peer a vault_id peer).
Proof.
  unfold drop_peer. apply (preserves_bind R); [by apply on_cell_serving, cell_tame_step, drop_active_tame|intros _].
  apply (preserves_bind R); [apply has_session_serving|intros [|]]; [preserve_step|apply unbind_serving].
Qed.

(** ** A connection *)

Lemma shared_any {A} (m : SM Hosting A) : link_keeps any (shared m).
Proof. apply (link_keeps_shared any). intros h. apply wp_any. Qed.

(** The guard of the handshake. *)
Lemma guard_any id : link_keeps any (do! _ := acquire_handshake id in shared (has_confirmed_pair id)).
Proof.
  apply (link_keeps_bind any); [|intros _; apply shared_any]. unfold acquire_handshake.
  apply (link_keeps_bind any); [apply shared_any|intros [|]];
    [apply (link_keeps_locals any)|apply (link_keeps_err any)].
Qed.

Lemma guard_keeps id : link_keeps R (do! _ := acquire_handshake id in shared (has_confirmed_pair id)).
Proof.
  apply (link_keeps_bind R); [apply acquire_handshake_keeps|intros _]. apply shared_keeps, has_confirmed_pair_serving.
Qed.

Lemma open_request_calls peer selected frame : preserves T (open_request peer selected frame).
Proof. unfold open_request. preserve. Qed.
Hint Resolve open_request_calls : calls.

Lemma bound_vault_keeps peer : link_keeps R (shared (bound_vault peer)).
Proof. apply shared_keeps. unfold bound_vault. repeat preserve_step. Qed.

Lemma admit_connection_keeps l :
  (∀ d, presented l d → known d) → turns R l → wp admit_connection (λ _, after R l) (after R l) l.
Proof.
  intros Hknown Ht. unfold admit_connection. apply wp_bind. eapply wp_mono; [apply wp_conj|..].
  - apply (establish_keeps T R); try apply _; try done; [|apply guard_keeps].
    intros d io input Hd. apply import_store; auto.
  - apply establish_agreed, guard_any.
  - cbn beta. intros e l1 [Hl1 [Hv _]]. pose proof (Hknown _ (vo_presented _ _ _ Hv)) as Hd. cbv zeta.
    match goal with |- wp ?m _ _ _ => assert (Hm : link_keeps R m) end.
    { pose proof bound_vault_keeps. task; try apply refuse_request_keeps; try apply refuse_join_keeps.
      by apply shared_keeps, admit_peer_serving. }
    by eapply (link_keeps_wp R); [exact Hm|eapply turns_moved; [apply Hl1|]|..].
  - by cbn beta; intros l1 [].
Qed.

Lemma serve_connection_keeps l :
  (∀ d, presented l d → known d) → turns R l → wp serve_connection (λ _, after R l) (after R l) l.
Proof.
  intros Hknown Ht. unfold serve_connection. apply wp_bind, wp_attempt.
  assert (Hrest : ∀ admission l1, after R l l1 →
    wp (do! _ := drop_handshake in
        do! _ := shared drop_provisional in
        do! result :=
          match admission with
          | Ok (peer, a, vault_id) =>
              do! result := sm_attempt (serve_admitted a peer) in
              do! _ := shared (drop_peer a vault_id peer) in
              sm_ret result
          | Err error => sm_ret (Err error)
          end in
        do! _ := shared drop_connection in
        sm_lift result) (λ _, after R l) (after R l) l1).
  { intros admission l1 Hl1. match goal with |- wp ?m _ _ _ => assert (Hm : link_keeps R m) end.
    { pose proof drop_handshake_keeps. pose proof serve_admitted_keeps. task.
      - apply shared_keeps. by apply host_update_serving.
      - apply shared_keeps, drop_peer_serving.
      - apply shared_keeps. by apply host_update_serving. }
    by eapply (link_keeps_wp R); [exact Hm|eapply turns_moved; [apply Hl1|]|..]. }
  eapply wp_mono; [by apply admit_connection_keeps| |]; cbn beta.
  - intros x l1 Hl1. exact (Hrest (Ok x) l1 Hl1).
  - intros l1 Hl1 e. exact (Hrest (Err e) l1 Hl1).
Qed.
End tasks.

(** ** What a run leads to *)

Section runs.
Context `{Sha256, MlDsa65, XWing, AesGcm, HkdfSha256, Oracle, SocketAddrs, Past}.
Context (known : IdentityDocument → Prop).

Definition hosting_ok (h : Hosting) : Prop :=
  SessionInv.store_ok known (ho_keys h) ∧ ∀ a v, ho_cells h !! a = Some v → service_ok (vh_host v).

(** At some moment between the two, the peer was admissible to the vault at [a]. *)
Definition let_in (h h' : Hosting) (a : N) (peer : PeerId) : Prop :=
  ∃ h1 v1, serving known h h1 ∧ serving known h1 h' ∧ ho_cells h1 !! a = Some v1 ∧ admissible known v1 peer.

(** What became of the vault at an address. *)
Record vault_served (h h' : Hosting) (a : N) (v v' : VaultHost) : Prop := {
  vd_succeeds : succeeds (vault_state v) (vault_state v');
  vd_joined p : p ∈ st_members (vault_state v') → p ∈ st_members (vault_state v) ∨ let_in h h' a p;
}.

Lemma let_in_before h h1 h' a p : serving known h h1 → let_in h1 h' a p → let_in h h' a p.
Proof. intros Hh (h2 & v2 & Hr & ? & ? & ?). exists h2, v2. split_and!; try done. by etransitivity. Qed.

Lemma serving_ok h h' :
  serving known h h' → hosting_ok h →
  hosting_ok h' ∧ local_id (ho_keys h') = local_id (ho_keys h)
  ∧ ∀ a v, ho_cells h !! a = Some v → ∃ v', ho_cells h' !! a = Some v' ∧ vault_served h h' a v v'.
Proof.
  induction 1 as [h|h h1 h' [Hk Hc Hn] Hrun IH]; intros [Hs Hv].
  { split; [done|]. split; [done|]. intros a v Ha. exists v. split; [done|]. destruct (Hv a v Ha).
    split; [|by left]. by apply (reflexivity (R := evolves)). }
  assert (Hstep : serving known h h1) by (by apply rtc_once).
  destruct (Hk Hs) as [Hs1 Hl1].
  assert (Hok1 : hosting_ok h1).
  { split; [done|]. intros a v1 Ha1. destruct (ho_cells h !! a) as [v|] eqn:Ha; [|by eapply Hn].
    destruct (Hc a v Ha) as (u & Hu & [Hh _]). assert (u = v1) as -> by congruence.
    destruct (Hh (Hv a v Ha)) as [He Hch]. split; [apply He|done]. }
  destruct (IH Hok1) as (Hok' & Hl' & Hserved). split; [done|]. split; [congruence|].
  intros a v Ha. destruct (Hc a v Ha) as (v1 & Ha1 & [Hh Hj]).
  destruct (Hserved a v1 Ha1) as (v' & Ha' & [He' Hj']). exists v'. split; [done|]. split.
  - pose proof (Hv a v Ha) as Hok. destruct (Hh Hok) as [He _].
    apply (transitivity (R := evolves) (y := vault_state v1)); [by intros _|by intros _|apply Hok].
  - intros p [Hp|Hp]%Hj'; [|right; by eapply let_in_before].
    destruct (Hj p Hp) as [Hin|Hadm]; [by left|right]. exists h, v. split_and!; [reflexivity| |done|done].
    by etransitivity.
Qed.
End runs.
