(* ===== verification/JoinInv.v ===== *)
(** * What joining and a member's connection keep

    [joining]: what may become of a member's key store and of its replica of the vault.  A join
    prepares the mailbox it drains before the host's end marker arrives, and publishes it after;
    other tasks are to leave the replica alone meanwhile ([undisturbed]). *)
From S2P Require Export Joined MemberCalls HostingInv MemberClaims.
From Stdlib Require Import Lia ZifyN ZifyNat.

Open Scope N_scope.

(** ** Messages *)

Section told.
Context `{Sha256, MlDsa65, XWing, AesGcm, HkdfSha256, Oracle, SocketAddrs}.
Context {S : Type} `{!Keyed S}.
Implicit Types l : Conn S.

(** What some key opens from a frame to come, and the controls among it. *)
Definition opens (packet : ControlPacket) (plaintext : bytes) : Prop :=
  ∃ key, gcm_decrypt key (nonce (cp_header packet) Packet) (packet_aad (cp_header packet))
           (cp_ciphertext packet) = Some plaintext.
Definition opened l (plaintext : bytes) : Prop :=
  ∃ frame packet,
    received l frame ∧ decode_control_packet (fr_payload frame) = Ok packet ∧ opens packet plaintext.
Definition told l (control : NetControl) : Prop :=
  ∃ plaintext, opened l plaintext ∧ decode_net_control plaintext = Ok control.

Lemma received_moved l l' frame : moved l l' → received l' frame → received l frame.
Proof. intros Hm [turn Hr]. exists turn. eapply elem_of_suffix; [exact Hr|apply Hm]. Qed.
Lemma opened_moved l l' plaintext : moved l l' → opened l' plaintext → opened l plaintext.
Proof.
  intros Hm (frame & packet & Hr & Ho). exists frame, packet.
  split; [by eapply received_moved|done].
Qed.
Lemma told_moved l l' control : moved l l' → told l' control → told l control.
Proof. intros Hm (plaintext & Ho & Hd). exists plaintext. split; [by eapply opened_moved|done]. Qed.

Lemma with_pair_state_value {A} handle (f : SM PairKeyState A) (P : A → Prop) s :
  (∀ k, wp f (λ x _, P x) (λ _, True) k) → wp (with_pair_state handle f) (λ x _, P x) (λ _, True) s.
Proof.
  intros Hf. unfold with_pair_state. apply wp_bind. eapply wp_mono; [apply wp_any|cbn beta|done]. intros _ s1 _.
  apply wp_bind, wp_get, wp_if; intros _; [|done]. apply wp_bind, wp_lift; [|done]. intros k _.
  specialize (Hf k). unfold wp in Hf. destruct (f k) as [[x|e] k']; [|unfold wp; by cbn].
  unfold wp, sm_bind, modify, sm_lift. by cbn.
Qed.

Lemma open_key_value local header payload_type n aad ciphertext k :
  wp (open_key local header payload_type n aad ciphertext)
    (λ x _, ∃ key, gcm_decrypt key n aad ciphertext = Some x) (λ _, True) k.
Proof.
  unfold open_key. apply wp_bind, wp_get, wp_bind, wp_lift; [intros key _|done].
  apply wp_bind, wp_put, wp_bind, wp_lift; [intros _ _|done].
  apply wp_bind, wp_lift; [intros x Hx|done]. apply wp_bind, wp_lift; [intros window _|done].
  apply wp_bind, wp_put, wp_ret. exists (ks_key k). by destruct (gcm_decrypt _ _ _ _); simplify_eq/=.
Qed.

Lemma open_with_session_value session packet s :
  wp (open_packet_with_session session packet)
    (λ x _, opens packet x) (λ _, True) s.
Proof.
  unfold open_packet_with_session, open_packet, open.
  repeat first [apply wp_bind; eapply wp_mono; [apply wp_any|cbn beta; intros ? ? _|done]].
  case_match. eapply wp_mono; [apply with_pair_state_value; intros k; apply open_key_value|cbn beta|done].
  intros plaintext _ Hx. exact Hx.
Qed.

Lemma session_open_value peer packet s :
  wp (session_open_packet peer packet)
    (λ x _, opens packet x) (λ _, True) s.
Proof.
  unfold session_open_packet. apply wp_bind. eapply wp_mono; [apply wp_any|cbn beta|done]. intros session s1 _.
  apply open_with_session_value.
Qed.

Lemma read_control_for_session_told selected l0 l :
  moved l0 l → wp (read_control_for_session selected) (λ c _, told l0 c) (λ _, True) l.
Proof.
  intros Hl. unfold read_control_for_session. apply wp_bind.
  eapply wp_mono; [by apply (read_after_ack_received _ l0)|cbn beta|done]. intros frame l1 Hr.
  apply wp_if; intros _; [|done]. apply wp_bind, wp_lift; [intros packet Hp|done].
  apply wp_bind, wp_zoom. eapply wp_mono; [apply open_with_session_value|cbn beta|done].
  intros x k Hx. apply wp_lift; [|done]. intros c Hc. exists x. split; [|done]. by exists frame, packet.
Qed.

Lemma read_control_told peer l0 l :
  moved l0 l → wp (read_control peer) (λ c _, told l0 c) (λ _, True) l.
Proof.
  intros Hl. unfold read_control. apply wp_bind, wp_zoom.
  eapply wp_mono; [apply wp_any|cbn beta|done]. intros session k _.
  apply read_control_for_session_told. etransitivity; [exact Hl|by split].
Qed.
End told.

(** ** The member's process *)

Section process.
Context `{Sha256, MlDsa65, XWing, AesGcm, HkdfSha256, Oracle, SocketAddrs, Past}.
Context (known : IdentityDocument → Prop).
Abbreviation T := (keeps_store known).
Abbreviation jn_keys := (λ j, w_keys (jn_world j)).

Record joining (j j' : Joining) : Prop := {
  js_keys : T (jn_keys j) (jn_keys j');
  js_replica m : jn_replica j = Some m → ∃ m', jn_replica j' = Some m' ∧ member_hop m m';
  js_new m' : jn_replica j = None → jn_replica j' = Some m' → member_ok m';
}.

(** The replica stays what it is. *)
Record undisturbed (j j' : Joining) : Prop := {
  un_keys : T (jn_keys j) (jn_keys j');
  un_replica : option_Forall2 same_member (jn_replica j) (jn_replica j');
}.

#[export] Instance joining_preorder : PreOrder joining.
Proof.
  split; [intros j; split; [reflexivity|intros m Hm; by exists m|intros m' -> [=]]|].
  intros a b c [Hk1 Hr1 Hn1] [Hk2 Hr2 Hn2]. split; [by etransitivity|..].
  - intros m (m1 & Hm1 & Hh1)%Hr1. destruct (Hr2 m1 Hm1) as (m2 & Hm2 & Hh2). exists m2. split; [done|by etransitivity].
  - intros m' Ha Hc. destruct (jn_replica b) as [m1|] eqn:Hb; [|by apply Hn2].
    destruct (Hr2 m1 eq_refl) as (m2 & Hm2 & Hh2). simplify_eq. by apply Hh2, Hn1.
Qed.

#[export] Instance undisturbed_preorder : PreOrder undisturbed.
Proof.
  split; [intros j; split; reflexivity|]. intros a b c [] []. split; by etransitivity.
Qed.

Lemma undisturbed_joining j j' : undisturbed j j' → joining j j'.
Proof.
  intros [Hk Hr]. split; [done|..].
  - intros m Hm. rewrite Hm in Hr. inversion Hr as [? m' Hs Heq1 Heq2|]; subst. exists m'. split; [done|].
    by apply same_member_hop.
  - intros m' Hj Hj'. rewrite Hj, Hj' in Hr. inversion Hr.
Qed.

#[export] Instance joining_relation : KeyRelation T joining.
Proof.
  split; [apply _|apply _| |].
  - intros j k Hk. apply undisturbed_joining. split; [exact Hk|reflexivity].
  - intros j n. apply undisturbed_joining. split; [reflexivity|reflexivity].
Qed.
#[export] Instance undisturbed_relation : KeyRelation T undisturbed.
Proof.
  split; [apply _|apply _| |].
  - intros j k Hk. split; [exact Hk|reflexivity].
  - intros j n. split; reflexivity.
Qed.

Lemma turns_joining l : turns undisturbed l → turns joining l.
Proof. intros [Hi Hw]. split; intros; apply undisturbed_joining; eauto. Qed.

(** *** Calls on the replica *)

Lemma load_same w m : same_member m (load_replica w m).
Proof. done. Qed.

Lemma on_replica_wp {A} (f : SM MemberReplica A) (Q : A → Joining → Prop) (E : Joining → Prop) j :
  (jn_replica j = None → E j) →
  (∀ m, jn_replica j = Some m →
     let back m' := mkJoining (set_w_tick (w_tick (mr_world m')) (set_w_keys (w_keys (mr_world m')) (jn_world j))) (Some m') in
     wp f (λ x m', Q x (back m')) (λ m', E (back m')) (load_replica (jn_world j) m)) →
  wp (on_replica f) Q E j.
Proof.
  intros Hn Hs. unfold wp, on_replica in *. destruct (jn_replica j) as [m|]; [|by apply Hn].
  specialize (Hs m eq_refl). cbn zeta in Hs. by destruct (f _) as [[x|e] m'].
Qed.

Lemma on_replica_joining {A} (f : SM MemberReplica A) :
  (∀ m, wp f (λ _, member_hop m) (member_hop m) m) → preserves (via member_keys T) f →
  preserves joining (on_replica f).
Proof.
  intros Hf Hk j. apply on_replica_wp; [intros _; reflexivity|]. intros m Hm. cbn zeta.
  assert (Hback : ∀ m', member_hop (load_replica (jn_world j) m) m' →
    via member_keys T (load_replica (jn_world j) m) m' → joining j
      (mkJoining (set_w_tick (w_tick (mr_world m')) (set_w_keys (w_keys (mr_world m')) (jn_world j))) (Some m'))).
  { intros m' Hh Hk'. split; cbn; [exact Hk'| |congruence]. intros u Hu. assert (u = m) as -> by congruence.
    exists m'. split; [done|]. eapply hop_same; [apply load_same|exact Hh]. }
  eapply wp_mono; [apply wp_conj; [apply Hf|apply Hk]| |]; cbn beta; [intros x m' []|intros m' []]; by apply Hback.
Qed.

Lemma on_replica_undisturbed {A} (f : SM MemberReplica A) (P : A → MemberReplica → Prop) j m :
  jn_replica j = Some m →
  (∀ m1, same_member m m1 → wp f (λ x m', same_member m m' ∧ P x m) (same_member m) m1) →
  preserves (via member_keys T) f →
  wp (on_replica f) (λ x j', undisturbed j j' ∧ P x m) (undisturbed j) j.
Proof.
  intros Hm Hf Hk. apply on_replica_wp; [congruence|]. intros u Hu. assert (u = m) as -> by congruence. cbn zeta.
  assert (Hback : ∀ m', same_member m m' → via member_keys T (load_replica (jn_world j) m) m' → undisturbed j
      (mkJoining (set_w_tick (w_tick (mr_world m')) (set_w_keys (w_keys (mr_world m')) (jn_world j))) (Some m'))).
  { intros m' Hs Hk'. split; cbn; [exact Hk'|]. rewrite Hm. by constructor. }
  eapply wp_mono; [apply wp_conj; [apply Hf, load_same|apply Hk]| |]; cbn beta.
  - intros x m' [[Hs HP] Hk']. split; [by apply Hback|done].
  - intros m' [Hs Hk']. by apply Hback.
Qed.

Lemma world_keeps {A} (f : SM World A) : preserves (via w_keys T) f → link_keeps joining (task_world f).
Proof.
  intros Hf. apply link_keeps_shared. intros j. apply wp_zoom.
  assert (Hback : ∀ w, via w_keys T (jn_world j) w → joining j (set_jn_world w j)).
  { intros w Hw. apply undisturbed_joining. split; [exact Hw|reflexivity]. }
  eapply wp_mono; [apply Hf| |]; cbn beta; intros; by apply Hback.
Qed.

Lemma replica_keeps {A} (f : SM MemberReplica A) :
  (∀ m, wp f (λ _, member_hop m) (member_hop m) m) → preserves (via member_keys T) f →
  link_keeps joining (task_replica f).
Proof. intros Hf Hk. by apply link_keeps_shared, on_replica_joining. Qed.

Lemma new_replica_joining host_id vault_id : ∀ j, jn_replica j = None →
  wp (new_replica host_id vault_id) (λ _, joining j) (joining j) j.
Proof.
  intros j Hn. unfold wp, new_replica. destruct (ks_peer _).1 as [local|e]; [|reflexivity].
  destruct (new_member _ _ _ _ _) as [[[]|e] m] eqn:Hm; [|reflexivity].
  pose proof (new_member_ok _ _ _ _ _ _ Hm) as (Hok & _ & _). split; cbn; [|congruence|congruence].
  unfold new_member in Hm. destruct (MemberReplica_new _ _ _ _) as [m0|] eqn:Hm0; [|done].
  assert (mr_world m0 = jn_world j) as <-.
  { unfold MemberReplica_new in Hm0. case_bool_decide; [|done]. cbn [negb] in Hm0.
    destruct (ks_peer _).1; [|done]. cbn [res_bind] in Hm0. case_bool_decide; [|done]. by simplify_eq/=. }
  pose proof (enter_vault_calls T vault_id m0) as Hk. unfold wp in Hk. by rewrite Hm in Hk.
Qed.

Lemma replica_for_keeps ad : link_keeps joining (shared (replica_for ad)).
Proof.
  apply link_keeps_shared. intros j. unfold replica_for. apply wp_bind, wp_get.
  destruct (jn_replica j) eqn:Hj; [|by apply new_replica_joining].
  apply wp_if; intros _; [apply wp_ret|apply wp_err]; reflexivity.
Qed.
End process.

(** ** The join *)

Section join.
Context `{Sha256, MlDsa65, XWing, AesGcm, HkdfSha256, Oracle, SocketAddrs, Past}.
Context (known : IdentityDocument → Prop) (Hfree : collision_free_documents known).
Abbreviation R := (joining known).
Abbreviation U := (undisturbed known).
Abbreviation T := (keeps_store known).

(** The members a host tells of are among the documents that occur. *)
Definition known_members (members : list IdentityDocument) : Prop := ∀ d, d ∈ members → known d.
Definition told_known (l : Conn Joining) : Prop :=
  ∀ vault_id members historical denied,
    told l (JoinAccepted vault_id members historical denied) → known_members members.

Lemma told_known_moved l l' : moved l l' → told_known l → told_known l'.
Proof. intros Hm Hl v ms h d Ht. by eapply Hl, told_moved. Qed.

Hint Extern 0 (PreOrder _) => apply _ : link.
Hint Extern 0 (preserves _ (discard_candidate _ _)) => apply (cc_discard T) : calls.
Hint Extern 0 (preserves _ (promote_candidate _ _ _)) => apply promote_store : calls.
Hint Extern 0 (preserves _ (retire _ _)) => apply retire_store : calls.
Hint Extern 0 (preserves _ (has_admitted_pair _)) => apply (preserves_query _ _) : calls.

(** Steps on the connection, for a relation [Q] that is one of the two. *)
Ltac link_task Q :=
  repeat first [solve [auto with link nocore]|
  lazymatch goal with
  | |- link_keeps _ (try_write_link _) => apply (link_keeps_try_write Q)
  | |- link_keeps _ (sm_each _ _) => apply (link_keeps_each T Q); intros ?
  | |- link_keeps _ (link_keys _) => apply (link_keys_keeps T Q); solve [preserve]
  | |- link_keeps _ (link_write _) => apply (link_keeps_stored T Q); intros ?
  | |- link_keeps _ (link_create _) => apply (link_keeps_created T Q); intros ?
  | |- link_keeps _ (locals_update _) => apply (link_keeps_locals Q)
  | |- link_keeps _ locals_get => apply (link_keeps_locals_get Q)
  | |- link_keeps _ (send_frame _) => apply (send_frame_keeps T Q)
  | |- link_keeps _ (send_packet _ _) => apply (send_packet_keeps T Q)
  | |- link_keeps _ (send_control _ _) => apply (send_control_keeps T Q)
  | |- link_keeps _ (read_control _) => apply (read_control_keeps T Q)
  | |- link_keeps _ (read_control_for_session _) => apply (read_control_for_session_keeps T Q)
  | |- link_keeps _ (read_after_ack _) => apply (read_after_ack_keeps T Q)
  | |- link_keeps _ (let _ := _ in _) => cbv zeta
  | |- stays ?T ?m => change (preserves T m); solve [preserve]
  | |- _ => link_step
  end].

Lemma mark_admitted_store peer : preserves T (mark_admitted peer).
Proof.
  apply stays_store; [intros s Hs; by apply mark_admitted_wp|]. intros s. unfold mark_admitted. by method.
Qed.
Hint Resolve mark_admitted_store : calls.

Lemma discard_rejected_joining selected had_pair : link_keeps R (discard_rejected_candidate selected had_pair).
Proof. unfold discard_rejected_candidate. link_task (joining known). Qed.
Hint Resolve discard_rejected_joining : link.

Lemma refused_by_keeps selected payload : link_keeps R (refused_by selected payload).
Proof. unfold refused_by. link_task (joining known). Qed.
Hint Resolve refused_by_keeps : link.

Lemma JoinRequest_sign_store vault_id code : preserves T (JoinRequest_sign vault_id code).
Proof. unfold JoinRequest_sign, signing_key. preserve. Qed.
Lemma seal_with_session_store session plaintext : preserves T (seal_packet_with_session session plaintext).
Proof. unfold seal_packet_with_session. preserve. Qed.
Hint Resolve JoinRequest_sign_store seal_with_session_store : calls.

Lemma receive_envelopes_keeps n epoch total : link_keeps R (receive_envelopes n epoch total).
Proof. revert total. induction n as [|n IH]; intros total; cbn [receive_envelopes]; link_task (joining known); apply IH. Qed.

Lemma promote_selected_keeps selected : link_keeps U (promote_selected selected).
Proof. unfold promote_selected. link_task (undisturbed known). Qed.

(** *** The drain *)

(** What was prepared fits the replica as it is. *)
Definition prepared_for (prepared : PreparedReplicaFlush) (m : MemberReplica) : Prop :=
  member_ok m → staged_ok (mr_host_id m) (mr_expected_root m) (prf_staged prepared)
                ∧ grown (mr_replica m) (prf_staged prepared).

Lemma prepare_undisturbed envelopes history through session j m :
  jn_replica j = Some m →
  wp (on_replica (prepare_mailbox_for_session envelopes history through session))
    (λ prepared j', U j j' ∧ prepared_for prepared m) (U j) j.
Proof.
  intros Hm. apply (on_replica_undisturbed _ _ prepared_for); [done| |preserve]. intros m1 Hm1.
  pose proof Hm1 as [Hh Hr Hrep _].
  eapply wp_mono; [apply prepare_mailbox_wp|cbn beta|cbn beta; intros; by etransitivity].
  intros prepared m2 [Hm2 Hp]. split; [by etransitivity|]. intros Hok. rewrite <-Hh, <-Hr, <-Hrep. apply Hp.
  by destruct (same_member_hop m m1 Hm1 Hok).
Qed.

Lemma commit_joining prepared j0 j m :
  jn_replica j0 = Some m → prepared_for prepared m → U j0 j →
  wp (on_replica (commit_prepared prepared)) (λ _, R j0) (R j0) j.
Proof.
  intros Hm Hp Hj. pose proof (un_replica _ _ _ Hj) as Hr. rewrite Hm in Hr.
  inversion Hr as [? m1 Hs Heq1 Heq2|]; subst. apply on_replica_wp; [congruence|].
  intros u Hu. assert (u = m1) as -> by congruence. cbn zeta.
  eapply wp_mono; [apply wp_conj; [apply (commit_prepared_hop prepared m); [by destruct Hs|exact Hp]
    |apply (commit_prepared_calls T)]| |]; cbn beta.
  all: match goal with |- ∀ (x : FlushReport), _ => intros x m2 [Hh Hk] | _ => intros m2 [Hh Hk] end.
  all: split; cbn; [etransitivity; [apply Hj|exact Hk]| |congruence].
  all: intros v Hv; exists m2; split; [done|]; by assert (v = m) as -> by congruence.
Qed.

(** A step of a run from [l0], whose other tasks leave the replica alone. *)
Lemma joining_step {A} (m : SM (Conn Joining) A) (Q : A → Conn Joining → Prop) (E : Conn Joining → Prop) l0 l :
  link_keeps R m → turns U l → after R l0 l →
  (∀ x l', turns U l' → after R l0 l' → Q x l') → (∀ l', after R l0 l' → E l') → wp m Q E l.
Proof.
  intros Hm Ht Hl HQ HE. eapply wp_mono; [apply Hm, turns_joining, Ht| |]; cbn beta.
  - intros x l' Hl'. apply HQ; [by eapply turns_moved; [apply Hl'|]|by etransitivity].
  - intros l' Hl'. apply HE. by etransitivity.
Qed.

Lemma receive_flush_keeps selected offer l :
  turns U l → wp (receive_flush selected offer) (λ _, after R l) (after R l) l.
Proof.
  intros Ht. assert (Hl : after R l l) by reflexivity. unfold receive_flush. cbv zeta.
  apply wp_if; intros _; [|by apply wp_err].
  apply wp_bind, (joining_step _ _ _ l); [unfold signing_key; link_task (joining known)|done|done| |done].
  intros seed l1 Ht1 Hl1. apply wp_bind, wp_lift; [intros signature _|done].
  apply wp_bind, (joining_step _ _ _ l); [link_task (joining known)|done|done| |done]. intros _ l2 Ht2 Hl2.
  apply wp_bind, (joining_step _ _ _ l); [apply receive_envelopes_keeps|done|done| |done].
  intros envelopes l3 Ht3 Hl3. apply wp_bind, wp_shared.
  destruct (jn_replica (lk_shared l3)) as [m|] eqn:Hm.
  2: { unfold wp, on_replica. rewrite Hm. by destruct l3. }
  assert (Hback : ∀ j, U (lk_shared l3) j → after U l3 (set_lk_shared j l3)) by (intros j Hj; by split).
  assert (Hend : ∀ l', after U l3 l' → after R l l').
  { intros l' [Hmv Hj]. etransitivity; [exact Hl3|]. split; [done|by apply undisturbed_joining]. }
  eapply wp_mono; [by apply prepare_undisturbed|cbn beta|cbn beta; intros j Hj; by apply Hend, Hback].
  intros prepared j [Hj Hp]. apply Hback in Hj. clear Hback. set (l4 := set_lk_shared j l3) in *. clearbody l4.
  assert (Ht4 : turns U l4) by (eapply turns_moved; [apply Hj|done]).
  apply wp_bind, wp_lift; [intros digest _|intros _; by apply Hend].
  apply wp_bind, (link_keeps_wp U _ _ _ l3); [link_task (undisturbed known)|done|done| |done].
  intros ending l5 Ht5 Hl5. apply wp_if; intros _; [|apply wp_err; by apply Hend].
  apply wp_bind, (link_keeps_wp U _ _ _ l3); [apply promote_selected_keeps|done|done| |done].
  intros _ l6 Ht6 Hl6. apply wp_bind, wp_shared.
  assert (Hcommit : ∀ j', R (lk_shared l3) j' → after R l (set_lk_shared j' l6)).
  { intros j' Hj'. etransitivity; [exact Hl3|]. split; [|exact Hj']. etransitivity; [apply Hl6|by split]. }
  eapply wp_mono; [by apply (commit_joining _ (lk_shared l3) _ m); [|exact Hp|apply Hl6]|cbn beta|cbn beta; auto].
  intros report j' Hj'%Hcommit. set (l7 := set_lk_shared j' l6) in *.
  assert (Ht7 : turns U l7) by (eapply turns_moved; [|exact Ht6]; by split). clearbody l7.
  match goal with |- wp ?m _ _ _ => assert (Hm7 : link_keeps R m) by link_task (joining known) end.
  by eapply (joining_step _ _ _ l).
Qed.

(** *** The membership *)

Lemma import_identity_keeps local ids identity : known identity → link_keeps R (import_identity local ids identity).
Proof.
  intros Hd. unfold import_identity. cbv zeta. link_task (joining known). by apply import_store.
Qed.

Lemma import_identities_keeps members : known_members members → link_keeps R (import_current_identities members).
Proof.
  intros Hm. unfold import_current_identities. apply (link_keeps_bind R); [link_task (joining known)|intros local].
  generalize (∅ : gset PeerId). induction members as [|d members IH]; intros ids; cbn [sm_fold].
  - apply (link_keeps_ret R).
  - apply (link_keeps_bind R); [apply import_identity_keeps, Hm; by left|].
    intros ids'. apply IH. intros d' Hd'. apply Hm. by right.
Qed.

Lemma learn_history_keeps documents : link_keeps R (task_replica (learn_history documents)).
Proof. apply replica_keeps; [intros m; apply learn_history_hop|preserve]. Qed.
Lemma reconcile_members_keeps members denied : link_keeps R (task_replica (reconcile_members members denied)).
Proof. apply replica_keeps; [intros m; apply reconcile_members_hop|preserve]. Qed.
Lemma apply_control_keeps record : link_keeps R (task_replica (apply_authenticated_control record)).
Proof. apply replica_keeps; [intros m; apply apply_authenticated_control_hop|preserve]. Qed.
Hint Resolve learn_history_keeps reconcile_members_keeps apply_control_keeps : link.

Lemma apply_membership_keeps members historical denied records :
  known_members members → link_keeps R (apply_membership members historical denied records).
Proof.
  intros Hm. pose proof (import_identities_keeps members Hm). unfold apply_membership. link_task (joining known).
Qed.

Lemma finish_receipts_keeps : link_keeps R (task_replica finish_receipts).
Proof.
  apply replica_keeps; [|preserve]. intros m. unfold wp, finish_receipts, member_update. by apply same_member_hop.
Qed.

(** *** [join_host] *)

Lemma unix_time_keeps : link_keeps R (task_world unix_time).
Proof. apply world_keeps. preserve. Qed.

Lemma request_join_keeps ad code l :
  (∀ d, presented l d → known d) → turns U l →
  wp (request_join ad code) (λ _, after R l) (after R l) l.
Proof.
  intros Hknown Ht%turns_joining. unfold request_join. apply wp_bind. eapply wp_mono.
  - apply (establish_keeps T R); try apply _; try done; [|intros peer; link_task (joining known)].
    + intros d io input Hd. apply import_store; auto.
  - cbn beta. intros established l1 Hl1. cbv zeta.
    match goal with |- wp ?m _ _ _ => assert (Hm : link_keeps R m) by link_task (joining known) end.
    by eapply (link_keeps_wp R); [exact Hm|eapply turns_moved; [apply Hl1|]|..].
  - done.
Qed.

(** The replica is one of the advertised host's vault. *)
Definition replica_of (ad : DirectoryAd) (j : Joining) : Prop :=
  ∃ m, jn_replica j = Some m ∧ mr_host_id m = ad_peer_id ad.

Lemma replica_for_wp ad j : wp (replica_for ad) (λ _, replica_of ad) (λ _, True) j.
Proof.
  unfold replica_for. apply wp_bind, wp_get. destruct (jn_replica j) as [m|] eqn:Hj.
  - apply wp_if; [intros Hm%bool_decide_eq_true|done]. apply wp_ret. by exists m.
  - unfold wp, new_replica. destruct (ks_peer _).1 as [local|]; [|done].
    destruct (new_member _ _ _ _ _) as [[[]|e] m] eqn:Hm; [|done].
    apply new_member_ok in Hm as (_ & Hh & _). by exists m.
Qed.

(** What a join that returns has seen to: the document the host presented is verified and is the
    advertised one, and from some moment on the replica was one of the host's vault. *)
Record join_done (ad : DirectoryAd) (l l' : Conn Joining) : Prop := {
  jd_vouched : ∃ d, vouched (Some ad) l d;
  jd_replica : ∃ j, R (lk_shared l) j ∧ replica_of ad j ∧ R j (lk_shared l');
}.

Lemma vouched_moved expected (l l' : Conn Joining) d : moved l l' → vouched expected l' d → vouched expected l d.
Proof.
  intros Hm [Hv He (frame & Hr & Hd)]. split; [done|done|]. exists frame. split; [|done]. by eapply received_moved.
Qed.

Lemma request_join_vouched ad code l : wp (request_join ad code) (λ _ _, ∃ d, vouched (Some ad) l d) (λ _, True) l.
Proof.
  unfold request_join. apply wp_bind.
  eapply wp_mono; [apply establish_agreed|cbn beta|done].
  - intros id. apply (link_keeps_bind any); [apply (link_keeps_keys any any), stays_any|intros admitted].
    apply (link_keeps_bind any); [apply (link_keeps_locals any)|intros _]. apply (link_keeps_ret any).
  - intros e l1 [Hv _]. eapply wp_mono; [apply wp_any|cbn beta; intros; by eexists|done].
Qed.

Lemma join_host_keeps ad code l :
  (∀ d, presented l d → known d) → told_known l → turns U l →
  wp (join_host ad code)
    (λ p l', after R l l' ∧ join_done ad l l' ∧ p = mkJoinedPeer l' (ad_peer_id ad) (ad_vault_id ad) [] 0)
    (after R l) l.
Proof.
  intros Hknown Htold Ht. assert (Hl : after R l l) by reflexivity. unfold join_host. cbv zeta.
  apply wp_bind, (joining_step _ _ _ l); [apply unix_time_keeps|done|done| |done]. intros now l1 Ht1 Hl1.
  apply wp_bind, wp_lift; [intros _ _|done].
  apply wp_bind. eapply wp_mono; [apply wp_conj; [apply request_join_keeps; [|exact Ht1]|apply request_join_vouched]|cbn beta
    |cbn beta; intros l2 [Hl2 _]; by etransitivity].
  { intros d (frame & Hr & Hd). apply Hknown. exists frame. split; [|done]. eapply received_moved; [apply Hl1|exact Hr]. }
  intros [offer selected] l2 [Hl2 [d Hv]]. apply (vouched_moved _ l) in Hv; [|apply Hl1].
  assert (Ht2 : turns U l2) by (eapply turns_moved; [apply Hl2|done]).
  assert (Hl02 : after R l l2) by (by etransitivity). clear l1 Ht1 Hl1 Hl2.
  apply wp_bind. eapply wp_mono; [apply wp_conj; [apply replica_for_keeps, turns_joining, Ht2
    |apply (wp_shared _ (λ _ l3, replica_of ad (lk_shared l3)) (λ _, True)), replica_for_wp]|cbn beta
    |cbn beta; intros l3 [Hl3 _]; by etransitivity].
  intros _ l3 [Hl23 Hrep]. assert (Ht3 : turns U l3) by (eapply turns_moved; [apply Hl23|done]).
  assert (Hl3 : after R l l3) by (by etransitivity). assert (Hr3 : R (lk_shared l) (lk_shared l3)) by apply Hl3.
  apply (wp_mono _ (λ p l', after R l3 l' ∧ p = mkJoinedPeer l' (ad_peer_id ad) (ad_vault_id ad) [] 0) _ (after R l3)).
  2: { intros p l' [Hl' Hp]. split; [by etransitivity|]. split; [|done]. split; [by exists d|].
       exists (lk_shared l3). split; [done|]. split; [done|apply Hl']. }
  2: { intros l' Hl'. by etransitivity. }
  assert (Htold3 : told_known l3) by (eapply told_known_moved; [apply Hl3|done]).
  clear l Hknown Htold Ht Hl Hl02 Hv Hl23 Hr3 Hl3 l2 Ht2 Hrep. rename l3 into l, Ht3 into Ht, Htold3 into Htold.
  assert (Hl : after R l l) by reflexivity.
  apply wp_bind, (joining_step _ _ _ l); [link_task (joining known)|done|done| |done]. intros _ l4 Ht4 Hl4.
  apply wp_bind. eapply wp_mono; [by apply receive_flush_keeps|cbn beta|cbn beta; intros; by etransitivity].
  intros _ l5 Hl5. assert (Ht5 : turns U l5) by (eapply turns_moved; [apply Hl5|done]).
  assert (Hl05 : after R l l5) by (by etransitivity).
  apply wp_bind. eapply wp_mono; [apply wp_conj; [apply (read_control_keeps T R), turns_joining, Ht5
    |apply (read_control_told _ l), Hl05]|cbn beta|cbn beta; intros l6 [Hl6 _]; by etransitivity].
  intros greeting l6 [Hl6 Hg]. assert (Ht6 : turns U l6) by (eapply turns_moved; [apply Hl6|done]).
  assert (Hl06 : after R l l6) by (by etransitivity).
  apply wp_bind, (joining_step _ _ _ l); [|done|done| |done].
  { destruct greeting as [v ms h dn| | | | | | |]; try apply (link_keeps_err R).
    pose proof (apply_membership_keeps ms h dn [] (Htold _ _ _ _ Hg)). link_task (joining known). }
  intros _ l7 Ht7 Hl7.
  apply wp_bind, (joining_step _ _ _ l); [link_task (joining known)|done|done| |done]. intros _ l8 Ht8 Hl8.
  apply wp_bind, (joining_step _ _ _ l); [link_task (joining known)|done|done| |done]. intros _ l9 Ht9 Hl9.
  apply wp_bind, (joining_step _ _ _ l); [apply finish_receipts_keeps|done|done| |done]. intros _ l10 Ht10 Hl10.
  by unfold wp.
Qed.
End join.
