(* ===== verification/JoinedInv.v ===== *)
(** * What a member's calls on its connection keep

    The rules for the methods of [JoinedPeer], and that each of them, whatever the host answers,
    is a run of the member's process ([joining]). *)
From S2P Require Export JoinInv.
From Stdlib Require Import Lia ZifyN ZifyNat.

Open Scope N_scope.

Section rules.
Context `{Sha256, MlDsa65, XWing, AesGcm, HkdfSha256, Oracle, SocketAddrs}.
Context (R : relation Joining) `{!PreOrder R}.
(** What is asked of the frames that are to come. *)
Context (C : Conn Joining → Prop) (HC : ∀ l l', moved l l' → C l → C l').

Record lives (p p' : JoinedPeer) : Prop := {
  lv_link : after R (jp_link p) (jp_link p');
  lv_peer : jp_peer_id p' = jp_peer_id p;
  lv_vault : jp_vault_id p' = jp_vault_id p;
  lv_buffer : lenN (jp_pending_controls p) <= MAX_DRAIN_FRAMES → lenN (jp_pending_controls p') <= MAX_DRAIN_FRAMES;
}.

#[export] Instance lives_preorder : PreOrder lives.
Proof.
  split; [intros p; split; [reflexivity|done|done|done]|]. intros a b c [] []. split; [by etransitivity|congruence|congruence|tauto].
Qed.

Definition ready (p : JoinedPeer) : Prop := turns R (jp_link p) ∧ C (jp_link p).

Lemma ready_lives p p' : lives p p' → ready p → ready p'.
Proof. intros [[Hm _] _ _ _] [Ht Hc]. split; [by eapply turns_moved|by eapply HC]. Qed.

Definition live_keeps {A} (m : Live A) : Prop := ∀ p, ready p → wp m (λ _, lives p) (lives p) p.

(** One more step of a run from [p0]. *)
Lemma live_keeps_wp {A} (m : Live A) (Q : A → JoinedPeer → Prop) (E : JoinedPeer → Prop) p0 p :
  live_keeps m → ready p0 → lives p0 p →
  (∀ x p', lives p0 p' → Q x p') → (∀ p', lives p0 p' → E p') → wp m Q E p.
Proof.
  intros Hm Hr Hp HQ HE. eapply wp_mono; [apply Hm; by eapply ready_lives| |]; cbn beta.
  - intros x p' Hp'. apply HQ. by etransitivity.
  - intros p' Hp'. apply HE. by etransitivity.
Qed.

Lemma live_keeps_bind {A B} (m : Live A) (k : A → Live B) :
  live_keeps m → (∀ x, live_keeps (k x)) → live_keeps (sm_bind m k).
Proof.
  intros Hm Hk p Hr. apply wp_bind. apply (live_keeps_wp _ _ _ p); [done|done|reflexivity| |done].
  intros x p' Hp'. by apply (live_keeps_wp _ _ _ p).
Qed.
Lemma live_keeps_ret {A} (x : A) : live_keeps (sm_ret x).
Proof. intros p _. apply wp_ret. reflexivity. Qed.
Lemma live_keeps_err {A} e : live_keeps (sm_err (A := A) e).
Proof. intros p _. apply wp_err. reflexivity. Qed.
Lemma live_keeps_lift {A} (r : Result A) : live_keeps (sm_lift r).
Proof. intros p _. apply wp_lift; [intros x _|intros _]; reflexivity. Qed.
Lemma live_keeps_get : live_keeps sm_get.
Proof. intros p _. apply wp_get. reflexivity. Qed.
Lemma live_keeps_each {A} (f : A → Live unit) l : (∀ x, live_keeps (f x)) → live_keeps (sm_each f l).
Proof.
  intros Hf. induction l as [|x l IH]; [apply live_keeps_ret|]. apply live_keeps_bind; [apply Hf|]. by intros _.
Qed.
Lemma live_keeps_link {A} (m : SM (Conn Joining) A) : link_keeps R m → live_keeps (on_link m).
Proof.
  intros Hm p [Ht _]. apply wp_zoom. eapply wp_mono; [by apply Hm| |]; cbn beta; intros; by split.
Qed.
(** What is buffered is the method's own. *)
Lemma live_keeps_taken {B} (f : JoinedPeer → Live B) :
  (∀ p, live_keeps (f p)) →
  live_keeps (do! p := sm_get in do! _ := sm_put (set_jp_pending [] 0 p) in f p).
Proof.
  intros Hf p Hr. apply wp_bind, wp_get, wp_bind, wp_put.
  by apply (live_keeps_wp _ _ _ p).
Qed.

Lemma live_keeps_loop_fuel {A B} fuel (body : B → Live (B + A)) :
  (∀ b, live_keeps (body b)) → ∀ b, live_keeps (live_loop_fuel fuel body b).
Proof.
  intros Hb. induction fuel as [|fuel IH]; intros b; cbn [live_loop_fuel]; [apply live_keeps_err|].
  apply live_keeps_bind; [apply Hb|]. intros [b'|x]; [apply IH|apply live_keeps_ret].
Qed.
Lemma live_keeps_loop {A B} (body : B → Live (B + A)) b :
  (∀ b, live_keeps (body b)) → live_keeps (live_loop body b).
Proof. intros Hb p. by apply live_keeps_loop_fuel. Qed.
End rules.

(** ** The methods *)

Section methods.
Context `{Sha256, MlDsa65, XWing, AesGcm, HkdfSha256, Oracle, SocketAddrs, Past}.
Context (known : IdentityDocument → Prop) (Hfree : collision_free_documents known).
Abbreviation R := (joining known).
Abbreviation T := (keeps_store known).
Abbreviation C := (told_known known).
Abbreviation live := (live_keeps R C).
Abbreviation lives := (lives R).
Abbreviation ready := (ready R C).

Let HC : ∀ l l', moved l l' → C l → C l' := told_known_moved known.

Create HintDb live discriminated.
Hint Constants Opaque : live.
Hint Extern 0 (preserves _ signing_key) => apply (preserves_query _ _) : calls.

Ltac live_step :=
  first [solve [auto with live nocore]|
  lazymatch goal with
  | |- live_keeps _ _ (sm_bind _ _) => apply (live_keeps_bind R C HC); [|intros ?]
  | |- live_keeps _ _ (sm_ret _) => apply (live_keeps_ret R C)
  | |- live_keeps _ _ (sm_err _) => apply (live_keeps_err R C)
  | |- live_keeps _ _ (sm_lift _) => apply (live_keeps_lift R C)
  | |- live_keeps _ _ sm_get => apply (live_keeps_get R C)
  | |- live_keeps _ _ (sm_each _ _) => apply (live_keeps_each R C HC); intros ?
  | |- live_keeps _ _ (live_loop _ _) => apply (live_keeps_loop R C HC); intros ?
  | |- live_keeps _ _ (live_keys _) => apply (live_keeps_link R C), (link_keys_keeps T R); solve [preserve]
  | |- live_keeps _ _ (on_link (send_packet _ _)) => apply (live_keeps_link R C), (send_packet_keeps T R)
  | |- live_keeps _ _ (on_link (send_control _ _)) => apply (live_keeps_link R C), (send_control_keeps T R)
  | |- live_keeps _ _ (on_link (read_after_ack _)) => apply (live_keeps_link R C), (read_after_ack_keeps T R)
  | |- live_keeps _ _ (match ?x with _ => _ end) => destruct x
  | |- live_keeps _ _ (let _ := _ in _) => cbv zeta
  end].
Ltac live_task := repeat live_step.

Lemma live_replica_keeps {A} (f : SM MemberReplica A) :
  (∀ m, wp f (λ _, member_hop m) (member_hop m) m) → preserves (via member_keys T) f → live (live_replica f).
Proof. intros Hf Hk. by apply (live_keeps_link R C), replica_keeps. Qed.

Lemma live_get_keeps {A} (f : MemberReplica → A) : live (live_get f).
Proof. apply live_replica_keeps; [intros m; apply wp_bind, wp_get, wp_ret; reflexivity|preserve]. Qed.
Lemma live_random_keeps n : live (live_random n).
Proof. apply (live_keeps_link R C), world_keeps. preserve. Qed.
Hint Resolve live_get_keeps live_random_keeps : live.

(** *** What is read *)

Lemma read_live_wp p0 p :
  ready p0 → lives p0 p →
  wp read_live (λ frame p', lives p0 p' ∧ received (jp_link p0) frame) (lives p0) p.
Proof.
  intros Hr Hp. unfold read_live. apply wp_bind, wp_get, wp_bind.
  apply (live_keeps_wp R C HC _ _ _ p0); [live_task|done|done| |done]. intros session p1 Hp1.
  apply wp_bind, wp_zoom. pose proof (ready_lives R C HC _ _ Hp1 Hr) as [Ht1 _].
  assert (Hback : ∀ l, after R (jp_link p1) l → lives p0 (set_jp_link l p1)) by (intros l Hl; etransitivity; [exact Hp1|by split]).
  eapply wp_mono; [apply wp_conj; [apply (read_after_ack_keeps T R), Ht1|apply (read_after_ack_received _ (jp_link p0)), Hp1]|..];
    cbn beta; [|intros l [Hl _]; by apply Hback].
  intros frame l [Hl Hf]. apply wp_bind.
  apply (live_keeps_wp R C HC _ _ _ p0); [live_task|done|by apply Hback| |done]. intros _ p2 Hp2. by apply wp_ret.
Qed.

Lemma open_live_wp frame p0 p :
  ready p0 → lives p0 p → received (jp_link p0) frame →
  wp (open_live (fr_payload frame)) (λ x p', lives p0 p' ∧ opened (jp_link p0) x) (lives p0) p.
Proof.
  intros Hr Hp Hf. unfold open_live. apply wp_bind, wp_get, wp_bind, wp_lift; [intros packet Hpacket|done].
  apply wp_bind, (live_keeps_wp R C HC _ _ _ p0); [live_task|done|done| |done]. intros local p1 Hp1.
  apply wp_bind, (live_keeps_wp R C HC _ _ _ p0); [live_task|done|done| |done]. intros _ p2 Hp2.
  apply wp_zoom, wp_zoom. assert (Hcalls : preserves T (session_open_packet (jp_peer_id p) packet)) by preserve.
  assert (Hback : ∀ k, T (kd_keys (lk_shared (jp_link p2))) k →
    lives p0 (set_jp_link (set_lk_shared (kd_set_keys k (lk_shared (jp_link p2))) (jp_link p2)) p2)).
  { intros k Hk. etransitivity; [exact Hp2|]. split; [split; [by split|exact (kr_keys _ _ Hk)]|done|done|done]. }
  eapply wp_mono; [apply wp_conj; [apply Hcalls|apply session_open_value]|..]; cbn beta.
  - intros x k [Hk Hx]. split; [by apply Hback|]. by exists frame, packet.
  - intros k [Hk _]. by apply Hback.
Qed.

Lemma read_live_packet_wp p0 p :
  ready p0 → lives p0 p →
  wp read_live_packet (λ x p', lives p0 p' ∧ opened (jp_link p0) x) (lives p0) p.
Proof.
  intros Hr Hp. unfold read_live_packet. apply wp_bind.
  eapply wp_mono; [by apply (read_live_wp p0)|cbn beta|done]. intros frame p1 [Hp1 Hf].
  apply wp_if; intros _; [|by apply wp_err]. by apply open_live_wp.
Qed.

(** *** What is applied *)

Lemma apply_identities_keeps members historical denied :
  known_members known members → live (apply_member_identities members historical denied).
Proof.
  intros Hm. unfold apply_member_identities.
  apply (live_keeps_bind R C HC); [by apply (live_keeps_link R C), import_identities_keeps|intros ids].
  live_step; [|live_task]. apply (live_keeps_bind R C HC).
  { apply live_replica_keeps; [intros m; apply learn_history_hop|preserve]. }
  intros _. apply (live_keeps_taken R C HC (λ p, do! _ := sm_each (λ record, live_replica (apply_authenticated_control record))
    (jp_pending_controls p) in live_replica (reconcile_members ids denied))). intros p.
  apply (live_keeps_bind R C HC); [|intros _].
  - apply (live_keeps_each R C HC). intros record.
    apply live_replica_keeps; [intros m; apply apply_authenticated_control_hop|preserve].
  - apply live_replica_keeps; [intros m; apply reconcile_members_hop|preserve].
Qed.

Lemma apply_live_plaintext_wp plaintext p0 p :
  ready p0 → lives p0 p → opened (jp_link p0) plaintext →
  wp (apply_live_plaintext plaintext) (λ _, lives p0) (lives p0) p.
Proof.
  intros Hr Hp Ho. unfold apply_live_plaintext.
  assert (Hset : ∀ v n, (lenN (jp_pending_controls p) <= MAX_DRAIN_FRAMES → lenN v <= MAX_DRAIN_FRAMES) →
    lives p0 (set_jp_pending v n p)) by (intros v n Hv; etransitivity; [exact Hp|by split]).
  destruct (decode_net_control plaintext) as [[v ms h d| | | | | | |]|e] eqn:Hd; try done.
  - apply wp_bind, wp_get, wp_if; intros _; [|done].
    assert (Hm : known_members known ms) by (eapply (proj2 Hr); by exists plaintext).
    apply wp_bind, (live_keeps_wp R C HC _ _ _ p0); [by apply apply_identities_keeps|done|done| |done].
    intros _ p1 Hp1. by apply wp_ret.
  - apply wp_bind, wp_get, wp_if; intros _; [by apply wp_ret|done].
  - apply wp_bind, wp_lift; [intros record _|done]. apply wp_bind, wp_get, wp_bind, wp_lift; [intros total _|done].
    apply wp_bind, wp_put, wp_if; intros Hb; [|by apply wp_err, Hset]. apply wp_bind, wp_put, wp_ret, Hset. intros _.
    apply negb_true_iff, orb_false_iff in Hb as [_ Hb%N.leb_gt]. unfold lenN in *. rewrite length_app. cbn. lia.
Qed.

Lemma drain_turn_keeps b : live (drain_turn b).
Proof.
  intros p Hr. unfold drain_turn. apply wp_bind.
  eapply wp_mono; [apply (read_live_packet_wp p); [done|reflexivity]|cbn beta|done]. intros x p1 [Hp1 Ho].
  apply wp_bind. eapply wp_mono; [by apply (apply_live_plaintext_wp _ p)|cbn beta|done]. intros ends p2 Hp2.
  apply (live_keeps_wp R C HC _ _ _ p); [destruct ends; live_task|done..].
Qed.
Hint Resolve drain_turn_keeps : live.

Lemma drain_live_reply_keeps : live drain_live_reply.
Proof. unfold drain_live_reply. live_task. Qed.
Hint Resolve drain_live_reply_keeps : live.
Lemma heartbeat_once_keeps : live heartbeat_once.
Proof. unfold heartbeat_once. live_task. Qed.
Hint Resolve heartbeat_once_keeps : live.
Lemma acknowledge_keeps : live acknowledge_after_drain.
Proof. exact heartbeat_once_keeps. Qed.
Hint Resolve acknowledge_keeps : live.
Lemma finish_submission_keeps : live finish_submission.
Proof. unfold finish_submission. live_task. Qed.
Hint Resolve finish_submission_keeps : live.

Lemma joined_run_keeps ticks : (∀ turn, turn ∈ ticks → ∀ j, R j (turn j)) → live (joined_run ticks).
Proof.
  induction ticks as [|turn ticks IH]; intros Ht; cbn [joined_run]; [live_task|].
  apply (live_keeps_bind R C HC); [|intros _; apply (live_keeps_bind R C HC); [apply heartbeat_once_keeps|intros _]].
  - apply (live_keeps_link R C), link_keeps_shared. intros j. unfold wp. apply Ht. by left.
  - apply IH. intros turn' Hin. apply Ht. by right.
Qed.

(** *** Submissions and requests *)

Lemma send_record_keeps update : live (send_record update).
Proof. unfold send_record. live_task. Qed.
Hint Resolve send_record_keeps : live.
Lemma submit_control_keeps update : live (submit_control update).
Proof. unfold submit_control. live_task. Qed.
Hint Resolve submit_control_keeps : live.

Lemma send_bodies_keeps session file_id index bodies : link_keeps R (send_bodies session file_id index bodies).
Proof.
  revert index. induction bodies as [|body bodies IH]; intros index; cbn [send_bodies]; [apply (link_keeps_ret R)|].
  apply (link_keeps_bind R); [apply (link_keeps_lift R)|intros i].
  apply (link_keeps_bind R); [apply (link_keys_keeps T R); preserve|intros sealed].
  apply (link_keeps_bind R); [apply (send_frame_keeps T R)|intros _]. apply IH.
Qed.

Lemma send_manifest_keeps m bodies : live (send_manifest_bodies m bodies).
Proof. unfold send_manifest_bodies. live_task. apply (live_keeps_link R C), send_bodies_keeps. Qed.
Hint Resolve send_manifest_keeps : live.

Lemma put_bodies_calls file_id index bodies staged : preserves (via w_keys T) (put_bodies file_id index bodies staged).
Proof.
  revert index staged. induction bodies as [|body bodies IH]; intros index staged; cbn [put_bodies]; [preserve|].
  repeat preserve_step; [preserve|apply IH].
Qed.

Lemma chunks_hop_same m m1 chunks :
  same_member m m1 → member_hop m (set_mr_replica (set_sr_chunks chunks (mr_replica m1)) m1).
Proof. intros Hs. eapply hop_same; [exact Hs|]. apply chunks_hop. Qed.

Lemma store_bodies_keeps m bodies : live (live_replica (store_local_bodies m bodies)).
Proof.
  apply live_replica_keeps.
  - intros r. unfold store_local_bodies. apply wp_bind, wp_get.
    apply wp_bind. eapply wp_mono; [apply on_member_world_same|cbn beta|cbn beta; intros r1; by apply same_member_hop].
    intros staged r1 Hr1. apply wp_bind.
    eapply wp_mono; [apply on_member_world_same|cbn beta|cbn beta; intros r2 Hr2; apply same_member_hop; by etransitivity].
    intros staged' r2 Hr2. unfold wp, member_update. apply chunks_hop_same. by etransitivity.
  - unfold store_local_bodies. pose proof put_bodies_calls. preserve.
    all: apply on_member_world_calls; unfold persist_current; preserve.
Qed.
Hint Resolve store_bodies_keeps : live.

Lemma submit_manifest_keeps m bodies : live (submit_manifest m bodies).
Proof. unfold submit_manifest. live_task. Qed.
Lemma joined_mkdir_keeps path : live (joined_mkdir path).
Proof. unfold joined_mkdir. live_task. Qed.
Lemma joined_unlink_keeps path : live (joined_unlink path).
Proof. unfold joined_unlink. live_task. Qed.
Lemma joined_rename_keeps source destination : live (joined_rename source destination).
Proof. unfold joined_rename. live_task. Qed.
Lemma joined_save_file_keeps path bodies : live (joined_save_file path bodies).
Proof. unfold joined_save_file. live_task. Qed.

(** *** Requests *)

Lemma have_turn_keeps query reply : live (have_turn query reply).
Proof.
  intros p Hr. unfold have_turn. apply wp_bind.
  eapply wp_mono; [apply (read_live_packet_wp p); [done|reflexivity]|cbn beta|done]. intros x p1 [Hp1 Ho].
  apply wp_if; intros _; [apply (live_keeps_wp R C HC _ _ _ p); [live_task|done..]|].
  apply wp_bind. eapply wp_mono; [by apply (apply_live_plaintext_wp _ p)|cbn beta|done]. intros ends p2 Hp2.
  by apply wp_ret.
Qed.
Hint Resolve have_turn_keeps : live.
Lemma have_query_keeps query : live (have_query query).
Proof. unfold have_query. live_task. Qed.

Lemma pull_turn_keeps request acc : live (pull_turn request acc).
Proof.
  intros p Hr. unfold pull_turn. destruct acc as [responses frames]. apply wp_bind.
  eapply wp_mono; [apply (read_live_wp p); [done|reflexivity]|cbn beta|done]. intros frame p1 [Hp1 Hf].
  apply wp_bind, wp_lift; [intros n _|done]. apply wp_if; intros _; [|by apply wp_err].
  apply wp_if; intros _; [apply (live_keeps_wp R C HC _ _ _ p); [live_task|done..]|].
  apply wp_if; intros _; [|by apply wp_err]. apply wp_bind.
  eapply wp_mono; [by apply (open_live_wp _ p)|cbn beta|done]. intros x p2 [Hp2 Ho].
  apply wp_bind. eapply wp_mono; [by apply (apply_live_plaintext_wp _ p)|cbn beta|done]. intros ends p3 Hp3.
  by apply wp_ret.
Qed.
Hint Resolve pull_turn_keeps : live.

Lemma accept_responses_calls responses trusted :
  preserves (via (λ p, w_keys (pe_world p)) T) (accept_responses responses trusted).
Proof.
  assert (Hkeys : ∀ B (m : SM StoreInner B), preserves T m → preserves (via (λ p, w_keys (pe_world p)) T) (pe_keys m)).
  { intros B m Hm. eapply preserves_zoom; [by apply (keys_calls T)|done]. }
  assert (Hworld : ∀ B (m : SM World B), preserves (via w_keys T) m →
    preserves (via (λ p, w_keys (pe_world p)) T) (sm_zoom pe_world set_pe_world m)).
  { intros B m Hm. by eapply preserves_zoom. }
  unfold accept_responses, stage_response, put_staged.
  repeat first [apply Hkeys; solve [preserve]|apply Hworld; solve [unfold persist_current; preserve]|preserve_step].
  all: intros p; unfold wp, via; cbn; reflexivity.
Qed.

Lemma replica_pull_keeps {A} (m : SM Peer A) :
  preserves (via (λ p, w_keys (pe_world p)) T) m → live (live_replica (replica_pull m)).
Proof.
  intros Hm. apply live_replica_keeps; intros r; unfold wp, replica_pull.
  - destruct (m _) as [[x|e] p]; by apply (chunks_hop_same r (set_mr_world (pe_world p) r)).
  - specialize (Hm (mkPeer (mr_world r) (sr_chunks (mr_replica r)))). unfold wp in Hm.
    by destruct (m _) as [[x|e] p].
Qed.

Lemma joined_pull_keeps request trusted : live (joined_pull request trusted).
Proof.
  unfold joined_pull. live_task. apply replica_pull_keeps, accept_responses_calls.
Qed.
End methods.
