(* ===== verification/ServeClaims.v ===== *)
(** * What the host's process guarantees

    Theorems about admissions and the connections of members; a witness runs a process that hosts
    one vault, to which a member connects who presents its code. *)
From S2P Require Export HostingInv HostClaims SessionClaims.
From Stdlib Require Import Lia ZifyN ZifyNat.

Open Scope N_scope.

Section claims.
Context `{Sha256, MlDsa65, XWing, AesGcm, HkdfSha256, Oracle, SocketAddrs}.

(** ** Safety *)

(** C10: serving a connection, whatever its peer sends and whenever it stops, whatever writes fail
    and whatever other tasks do meanwhile that is such a run too, keeps the invariant of the key
    store and of every host of the process, and the history of each.  A peer is a member of a
    vault afterwards only if it was one before, or if at some moment it was admissible: a verified
    document was its, a request it signed named the vault and the code then in force, and it was
    not denied. *)
Theorem serving_safe `{!Past} known (l : Conn Hosting) :
  collision_free_documents known → (∀ d, presented l d → known d) →
  hosting_ok known (lk_shared l) → turns (serving known) l →
  let l' := (serve_connection l).2 in
  hosting_ok known (lk_shared l') ∧ local_id (ho_keys (lk_shared l')) = local_id (ho_keys (lk_shared l))
  ∧ ∀ a v, ho_cells (lk_shared l) !! a = Some v →
      ∃ v', ho_cells (lk_shared l') !! a = Some v'
        ∧ vault_served known (lk_shared l) (lk_shared l') a v v'.
Proof.
  intros Hfree Hknown Hok Ht. pose proof (serve_connection_keeps known Hfree l Hknown Ht) as Hk.
  apply wp_state in Hk. by apply serving_ok; [apply Hk|].
Qed.

(** ** The start of a vault *)

Lemma load_or_create_ok w v w' :
  (∀ m w1, vault_metadata w = (Ok m, w1) → list_to_set (vm_members m) ## vm_denied m) →
  load_or_create w = (Ok v, w') → service_ok (vh_host v) ∧ hs_world (vh_host v) = w'.
Proof.
  intros Hd. unfold load_or_create, attached, sm_bind at 1 2. destruct (vault_metadata w) as [[m|] w1] eqn:Hm; [|done].
  specialize (Hd m w1 eq_refl). destruct (new_in_vault _ _ _ w1) as [[s|] w2] eqn:Hn; [|done].
  apply new_vault_ok in Hn as (Hs & Hmem & _ & _).
  change (do! _ := sm_ret tt in attach_admission m) with (attach_admission m).
  pose proof (attach_admission_wp hop m (set_hs_world w2 (new_service w2 s))) as Ha.
  unfold wp in Ha. unfold sm_bind, sm_ret. destruct (attach_admission m _) as [[[]|] h]; [|done]. intros [= <- <-].
  rewrite <-Hmem in Hd. destruct (Ha Hd) as [Hsu Hch]; [by split|]. split; [|done]. split; [apply Hsu|exact Hch].
Qed.

Lemma fresh_metadata w m w1 :
  dk_admission (w_disk w) = None → vault_metadata w = (Ok m, w1) → vm_denied m = ∅.
Proof.
  intros Hd Hm. refine (wp_Ok _ (λ m _, vm_denied m = ∅) (λ _, True) _ _ _ _ Hm). unfold vault_metadata.
  apply wp_bind. unfold wp at 1, disk_get. rewrite Hd. cbn [read_private]. apply wp_bind, wp_lift; [|done].
  intros content [= <-]. apply wp_bind. eapply wp_mono; [apply wp_any| |done]. intros vault_id w2 _.
  apply wp_bind. eapply wp_mono; [apply wp_any| |done]. intros code w3 _.
  apply wp_bind. eapply wp_mono; [apply wp_any| |done]. intros local w4 _. by apply wp_ret.
Qed.

Lemma load_or_create_keys `{!Past} known : preserves (via w_keys (keeps_store known)) load_or_create.
Proof.
  assert (Hh : ∀ m, preserves (via host_keys (keeps_store known)) (do! _ := sm_ret tt in attach_admission m)).
  { intros m. unfold attach_admission. preserve. }
  unfold load_or_create. apply (preserves_bind (via w_keys (keeps_store known))).
  { unfold vault_metadata. preserve. }
  intros m. apply (preserves_bind (via w_keys (keeps_store known))).
  { unfold new_in_vault, HostService_new, draw_owner. preserve. }
  intros s w. unfold wp, attached. specialize (Hh m (set_hs_world w (new_service w s))). unfold wp in Hh.
  by destruct ((do! _ := sm_ret tt in attach_admission m) _) as [[[]|] h].
Qed.

(** ** Admission *)

(** What a join request must be: signed by the peer, for this vault, and with the code in force
    unless the peer is a member; the host runs and has not denied the peer. *)
Definition entitled (request : JoinRequest) (d : IdentityDocument) (v : VaultHost) : Prop :=
  let s := vault_state v in
  JoinRequest_verify request d = Ok tt ∧ hs_running (vh_host v) = true ∧ (doc_peer_id d ∉ st_denied s)
  ∧ ∃ metadata, st_admission s = Some metadata ∧ jr_vault_id request = vm_vault_id metadata
      ∧ (doc_peer_id d ∈ st_members s ∨ jr_join_code request = vm_join_code metadata).

(** An admission has one of three outcomes. *)
Inductive admit_outcome request d v : Result unit * VaultHost → Prop :=
  | admit_refused e : ¬ entitled request d v → admit_outcome request d v (Err e, v)
  | admit_again : entitled request d v → doc_peer_id d ∈ st_members (vault_state v) →
      admit_outcome request d v (Ok tt, v)
  | admit_new : entitled request d v → doc_peer_id d ∉ st_members (vault_state v) →
      admit_outcome request d v (in_service (add_member d) v).

Lemma admit_cases request d v : admit_outcome request d v (VaultHost_admit request d v).
Proof.
  unfold VaultHost_admit, admission. unfold sm_bind at 1, sm_lift at 1.
  destruct (JoinRequest_verify request d) as [[]|e] eqn:Hv; [|apply admit_refused; intros [? _]; congruence].
  unfold sm_bind at 1 2, sm_get at 1, sm_lift at 1. fold (vault_state v).
  destruct (st_admission (vault_state v)) as [m|] eqn:Hm; cbn [ok_or];
    [|apply admit_refused; intros (_ & _ & _ & ? & ? & _); congruence].
  unfold sm_bind at 1, sm_get at 1. fold (vault_state v).
  assert (Hent : entitled request d v ↔ hs_running (vh_host v) = true ∧ (doc_peer_id d ∉ st_denied (vault_state v))
    ∧ jr_vault_id request = vm_vault_id m
    ∧ (doc_peer_id d ∈ st_members (vault_state v) ∨ jr_join_code request = vm_join_code m)).
  { unfold entitled. rewrite Hm. split; [intros (_ & ? & ? & ? & [= <-] & ? & ?); done|].
    intros (? & ? & ? & ?). split_and!; try done. by exists m. }
  case_bool_decide; [|by apply admit_refused; tauto].
  case_bool_decide; [by apply admit_refused; tauto|]. cbn [negb andb].
  destruct (hs_running (vh_host v)); [|apply admit_refused; rewrite Hent; by intros []].
  case_bool_decide; [by apply admit_again; [apply Hent; auto|]|].
  case_bool_decide; [by apply admit_new; [apply Hent; auto|]|]. by apply admit_refused; tauto.
Qed.

(** C11: a peer becomes active at a vault exactly when it is not active yet, it is entitled to, and
    the host can make it a member unless it is one.  Then it is active and a member, and no other
    peer is either who was not; when it is refused, who is active and who is a member stays. *)
Theorem admission_exact request d v :
  let p := doc_peer_id d in
  let '(r, v') := activate request d v in
  (r = Ok tt ↔ (p ∉ vh_active_peers v) ∧ entitled request d v
     ∧ (p ∈ st_members (vault_state v) ∨ is_ok (add_member d (vh_host v)).1 = true))
  ∧ match r with
    | Ok _ => vh_active_peers v' = {[p]} ∪ vh_active_peers v
              ∧ st_members (vault_state v') = {[p]} ∪ st_members (vault_state v)
    | Err _ => vh_active_peers v' = vh_active_peers v
               ∧ st_members (vault_state v') = st_members (vault_state v)
    end.
Proof.
  intros p. unfold activate. unfold sm_bind at 1, sm_get at 1. fold p.
  destruct (decide (p ∈ vh_active_peers v)) as [Hact|Hact].
  { rewrite bool_decide_eq_true_2 by done. cbn. split; [|done]. split; [done|]. by intros [? _]. }
  rewrite bool_decide_eq_false_2 by done. cbn [negb]. unfold sm_bind at 1, sm_put at 1, sm_catch.
  set (v1 := set_vh_active _ v).
  assert (He : entitled request d v1 ↔ entitled request d v) by done.
  assert (Hback : ({[p]} ∪ vh_active_peers v) ∖ {[p]} = vh_active_peers v) by set_solver.
  destruct (admit_cases request d v1) as [e Hn|Hent Hin|Hent Hin].
  - cbn. rewrite Hback. split; [|done]. split; [done|]. intros (_ & Hent & _). tauto.
  - cbn. split; [|split; [done|]; change (vault_state v1) with (vault_state v) in *; set_solver]. split; [|done]. intros _. split; [done|].
    split; [tauto|by left].
  - pose proof (add_member_joins d (vh_host v)) as Ha. unfold wp in Ha. unfold in_service, sm_zoom.
    change (vh_host v1) with (vh_host v). destruct (add_member d (vh_host v)) as [[[]|e] h'] eqn:Hadd; cbn.
    + destruct Ha as [(_ & _ & Hsub & Hsup) Hp]. split; [split; [|done]; intros _; split_and!; [done|tauto|by right]|].
      split; [done|]. unfold vault_state. cbn. apply set_eq. intros q. specialize (Hsub q). specialize (Hsup q).
      rewrite elem_of_union, elem_of_singleton in *. split; [tauto|]. intros [->|?]; auto.
    + rewrite Hback. destruct Ha as (_ & _ & Hm). split; [|split; [done|exact Hm]]. split; [done|].
      intros (_ & _ & [Hm'|?]); [|done]. by destruct Hin.
Qed.

(** ** The frames of a drain *)

Lemma frame_fits frame : frame_ok frame → fits (fr_payload frame).
Proof.
  intros [_ Hl]. unfold fits, MAX_FRAME_BODY_LEN in *.
  pose proof (eq_refl : usize_limit = 18446744073709551616). lia.
Qed.

Lemma body_frame_Ok e frame inner :
  decode_mailbox_frame (env_ciphertext e) = Ok inner →
  body_frame e = Ok frame ↔
  frame_ok frame ∧
  match inner with
  | FControl c => fr_kind frame = GCM_PACKET_KIND
      ∧ encode_control_packet (mkControlPacket (envelope_header e) c) = Ok (fr_payload frame)
  | FChunkBody f i c => fr_kind frame = GCM_CHUNK_KIND
      ∧ encode_chunk_body_frame (mkChunkBodyFrame (envelope_header e) f i c) = Ok (fr_payload frame)
  end.
Proof.
  intros Hi. unfold body_frame. rewrite Hi. cbn [res_bind]. fold (envelope_header e).
  destruct inner as [c|f i c]; [destruct (encode_control_packet _) as [payload|]|destruct (encode_chunk_body_frame _) as [payload|]];
    cbn [res_bind]; rewrite ?Frame_new_Ok; (split; [|intros (Hok & Hk & Hp)]); try done;
    try (intros [-> Hok]; by split_and!); (split; [|done]); destruct frame; cbn in *; congruence.
Qed.

(** What a mailbox holds goes over the wire as it is: a frame of the drain that was read is
    taken for an envelope exactly when it is the frame that envelope is sent in, but for the time
    it was queued, which is not sent and reads as zero. *)
Theorem mailbox_frame_exact frame e :
  frame_ok frame → fits (env_ciphertext e) →
  queued_frame frame = Ok e ↔ body_frame e = Ok frame ∧ env_queued_at e = u64_zero.
Proof.
  intros Hok Hc. pose proof (frame_fits frame Hok) as Hf. unfold queued_frame. split.
  - case_bool_decide as Hk; [|case_bool_decide as Hk'; [|done]].
    + destruct (decode_control_packet _) as [p|] eqn:Hp; [|done]. cbn [res_bind].
      apply decode_control_packet_iff in Hp as [Hp Hv]; [|done].
      destruct (encode_mailbox_frame _) as [ct|] eqn:Hct; [|done]. cbn [res_bind]. intros [= <-].
      split; [|done]. apply (codec_iff (dec := decode_mailbox_frame)) in Hct; [|done].
      refine (proj2 (body_frame_Ok _ frame (FControl (cp_ciphertext p)) _) _); [exact Hct|]. split_and!; [done|done|]. rewrite <-Hp. destruct p as [[] ?]; cbn in *. by subst.
    + destruct (decode_chunk_body_frame _) as [p|] eqn:Hp; [|done]. cbn [res_bind].
      apply decode_chunk_body_frame_iff in Hp as [Hp Hv]; [|done].
      destruct (encode_mailbox_frame _) as [ct|] eqn:Hct; [|done]. cbn [res_bind]. intros [= <-].
      split; [|done]. apply (codec_iff (dec := decode_mailbox_frame)) in Hct; [|done].
      refine (proj2 (body_frame_Ok _ frame (FChunkBody (cb_file_id p) (cb_index p) (cb_ciphertext p)) _) _); [exact Hct|].
      split_and!; [done|done|]. rewrite <-Hp. destruct p as [[] ? ? ?]; cbn in *. by subst.
  - intros [Hb Hq]. destruct (decode_mailbox_frame (env_ciphertext e)) as [inner|] eqn:Hi.
    2: { unfold body_frame in Hb. by rewrite Hi in Hb. }
    apply (body_frame_Ok _ _ _ Hi) in Hb as [_ Hb].
    apply (codec_iff (dec := decode_mailbox_frame)) in Hi; [|done].
    destruct inner as [c|f i c]; destruct Hb as [Hk Hp].
    + rewrite bool_decide_eq_true_2 by done.
      rewrite (proj2 (decode_control_packet_iff _ (mkControlPacket (envelope_header e) c) Hf)) by done.
      cbn [res_bind cp_ciphertext cp_header]. rewrite Hi. cbn. rewrite <-Hq. by destruct e.
    + rewrite bool_decide_eq_false_2, bool_decide_eq_true_2 by (by rewrite Hk).
      rewrite (proj2 (decode_chunk_body_frame_iff _ (mkChunkBodyFrame (envelope_header e) f i c) Hf)) by done.
      cbn [res_bind cb_ciphertext cb_header cb_file_id cb_index]. rewrite Hi. cbn. rewrite <-Hq. by destruct e.
Qed.

(** ** Uploads *)

Definition body_bytes (bodies : gmap u64 bytes) : N := map_fold (λ _ body total, lenN body + total) 0 bodies.

(** What has arrived of an upload: chunks of its manifest, within the memory budget. *)
Record upload_ok (p : PendingUpload) : Prop := {
  uo_bytes : pu_bytes p = body_bytes (pu_bodies p);
  uo_budget : pu_bytes p <= MAX_DRAIN_BYTES;
  uo_chunks i body : pu_bodies p !! i = Some body →
    manifest_slot (pu_trusted p) i = Some (chunk_id (mf_file_id (manifest (pu_trusted p))) i body);
}.
Definition pending_ok (upload : option PendingUpload) : Prop := ∀ p, upload = Some p → upload_ok p.

Lemma fresh_upload_ok trusted : upload_ok (mkPendingUpload trusted ∅ 0).
Proof. split; cbn; [by unfold body_bytes; rewrite map_fold_empty|done|]. intros i body. by rewrite lookup_empty. Qed.

Lemma open_chunk_wp session frame trusted s :
  wp (open_chunk session frame trusted)
    (λ plaintext _, cb_file_id frame = mf_file_id (manifest trusted)
       ∧ manifest_slot trusted (cb_index frame) = Some (chunk_id (mf_file_id (manifest trusted)) (cb_index frame) plaintext))
    (λ _, True) s.
Proof.
  unfold open_chunk. apply wp_bind. eapply wp_mono; [apply wp_any| |done]. intros plaintext s1 _.
  apply wp_if; intros Hf; [|done]. apply bool_decide_eq_true in Hf. apply wp_bind, wp_lift; [|done].
  intros expected He. apply wp_if; intros Hc; [|done]. apply bool_decide_eq_true in Hc. apply wp_ret.
  split; [done|]. destruct (manifest_slot _ _); [|done]. injection He as ->. by rewrite <-Hc, Hf.
Qed.

Lemma receive_body_ok peer body upload s :
  pending_ok upload → wp (receive_upload_body peer body upload) (λ u _, pending_ok u) (λ _, True) s.
Proof.
  intros Hu. unfold receive_upload_body. apply wp_bind, wp_lift; [|done]. intros p Hp.
  destruct upload as [p'|]; [|done]. injection Hp as ->. destruct (Hu p eq_refl) as [Hb Hm Hc].
  apply wp_bind. eapply wp_mono; [apply wp_any| |done]. intros session s1 _.
  apply wp_bind. eapply wp_mono; [apply open_chunk_wp| |done]. cbn beta. intros plaintext s2 [_ Hslot].
  apply wp_bind, wp_lift; [|done]. intros total Ht. apply wp_if; intros Hle; [|done].
  apply negb_true_iff, N.ltb_ge in Hle. apply wp_if; intros Hnew; [|done]. apply bool_decide_eq_true in Hnew.
  apply wp_ret. intros q [= <-]. split; cbn.
  - unfold usize_add in Ht. destruct (_ <? _); [|done]. injection Ht as <-. unfold body_bytes in *.
    rewrite map_fold_insert_L by (done || intros; lia). lia.
  - done.
  - intros i b [[<- <-]|[_ Hi]]%lookup_insert_Some; [done|by apply Hc].
Qed.

Lemma pending_none : pending_ok None.
Proof. done. Qed.

(** What a step returns, whatever it does to the state. *)
Lemma returns_bind {S A B} (m : SM S A) (k : A → SM S B) (P : B → Prop) s :
  (∀ x s', wp (k x) (λ y _, P y) (λ _, True) s') → wp (sm_bind m k) (λ y _, P y) (λ _, True) s.
Proof. intros Hk. apply wp_bind. eapply wp_mono; [apply wp_any| |done]. cbn beta. auto. Qed.

Lemma receive_control_ok peer update upload h :
  wp (receive_member_control peer update upload) (λ u _, pending_ok u) (λ _, True) h.
Proof.
  unfold receive_member_control.
  repeat match goal with
  | |- wp (sm_bind _ _) _ _ _ => apply returns_bind; intros ? ?
  | |- wp (sm_ret _) _ _ _ => apply wp_ret; first [apply pending_none|by intros p [= <-]; apply fresh_upload_ok]
  | |- wp (match ?x with _ => _ end) _ _ _ => destruct x; try done
  end.
Qed.

Lemma on_service_returns {A} a (m : SM HostService A) (P : A → Prop) s :
  (∀ h, wp m (λ x _, P x) (λ _, True) h) → wp (on_service a m) (λ x _, P x) (λ _, True) s.
Proof.
  intros Hm. unfold wp, on_service, on_cell. destruct (ho_cells s !! a) as [v|]; [|done].
  unfold in_service, sm_zoom. specialize (Hm (vh_host (load_vault (ho_keys s) (ho_tick s) v))). unfold wp in Hm.
  by destruct (m _) as [[x|e] h].
Qed.

Lemma live_turn_ok a peer upload l :
  pending_ok upload → wp (live_turn a peer upload) (λ u _, pending_ok u) (λ _, True) l.
Proof.
  intros Hu. unfold live_turn, serve_packet_frame, serve_chunk_frame, serve_control, pending_after.
  repeat match goal with
  | |- wp (sm_ret _) _ _ _ => apply wp_ret; first [apply pending_none|assumption]
  | |- wp (match ?x with _ => _ end) _ _ _ => destruct x; try done
  | |- wp (let _ := _ in _) _ _ _ => cbv zeta
  | |- wp (sm_bind (task_service _ (receive_member_control _ _ _)) _) _ _ _ =>
      apply wp_bind, wp_shared; eapply wp_mono;
        [apply on_service_returns; intros ?; apply receive_control_ok| |done]; cbn beta; intros ? ? ?
  | |- wp (sm_bind (link_keys (receive_upload_body _ _ _)) _) _ _ _ =>
      apply wp_bind, wp_zoom; eapply wp_mono; [by apply receive_body_ok| |done]; cbn beta; intros ? ? ?
  | |- wp (sm_bind _ _) _ _ _ => apply returns_bind; intros ? ?
  end.
Qed.

Lemma complete_chunks p k id :
  upload_ok p → upload_complete p = true →
  mf_chunk_ids (manifest (pu_trusted p)) !! k = Some id →
  ∃ i body, N.to_nat (u64_N i) = k ∧ pu_bodies p !! i = Some body
    ∧ id = chunk_id (mf_file_id (manifest (pu_trusted p))) i body.
Proof.
  intros [_ _ Hc] Hn%bool_decide_eq_true Hk. set (n := length (mf_chunk_ids (manifest (pu_trusted p)))) in *.
  set (keys := (λ i, N.to_nat (u64_N i)) <$> (map_to_list (pu_bodies p)).*1).
  assert (Hlen : length keys = n).
  { unfold keys. rewrite !length_fmap, length_map_to_list. unfold map_len, lenN in Hn. lia. }
  assert (Hnd : NoDup keys).
  { unfold keys. apply NoDup_fmap_2; [|apply NoDup_fst_map_to_list]. intros x y Hxy. apply u64_eq. lia. }
  assert (Hsub : keys ⊆ seq 0 n).
  { intros j (i & -> & ([i' body] & -> & Hi)%list_elem_of_fmap)%list_elem_of_fmap. apply elem_of_map_to_list in Hi.
    apply Hc in Hi. apply elem_of_seq. cbn. split; [lia|]. by eapply lookup_lt_Some. }
  assert (Hperm : keys ≡ₚ seq 0 n).
  { apply submseteq_length_Permutation; [by apply NoDup_submseteq|]. by rewrite length_seq, Hlen. }
  assert (Hin : k ∈ keys).
  { rewrite Hperm. apply elem_of_seq. split; [lia|]. by eapply lookup_lt_Some. }
  apply list_elem_of_fmap in Hin as (i & -> & ([i' body] & -> & Hi)%list_elem_of_fmap).
  apply elem_of_map_to_list in Hi. exists i', body. split; [done|]. split; [done|].
  apply Hc in Hi. unfold manifest_slot in Hi. cbn in Hk. congruence.
Qed.

(** C12: what a member uploads over its connection is what its manifest says: at every turn the
    bodies held are at most [MAX_DRAIN_BYTES] together and each is the chunk that the manifest
    lists at its index; and an upload is complete, so that it may be committed, only when every
    chunk of the manifest is held. *)
Theorem upload_faithful a peer upload l upload' l' :
  pending_ok upload → live_turn a peer upload l = (Ok upload', l') →
  pending_ok upload'
  ∧ ∀ p, upload' = Some p → upload_complete p = true →
      ∀ k id, mf_chunk_ids (manifest (pu_trusted p)) !! k = Some id →
        ∃ i body, N.to_nat (u64_N i) = k ∧ pu_bodies p !! i = Some body
          ∧ id = chunk_id (mf_file_id (manifest (pu_trusted p))) i body.
Proof.
  intros Hu Hl. pose proof (wp_Ok _ _ _ _ _ _ (live_turn_ok a peer upload l Hu) Hl) as Hu'.
  split; [done|]. intros p Hp Hc k id Hk. by apply complete_chunks; [apply Hu'| |].
Qed.

(** ** The loop of a served connection *)

#[local] Instance any_calls : ServiceCalls any.
Proof. split; [apply _|..]; intros; intros s; apply wp_any. Qed.

#[local] Hint Extern 0 (link_keeps any (shared _)) => apply shared_any : link.
#[local] Hint Extern 0 (link_keeps any (task_service _ _)) => apply shared_any : link.
#[local] Hint Extern 0 (link_keeps any (send_frame _)) => apply (send_frame_keeps any any) : link.
#[local] Hint Extern 0 (link_keeps any (send_packet _ _)) => apply (send_packet_keeps any any) : link.
#[local] Hint Extern 0 (link_keeps any (send_control _ _)) => apply (send_control_keeps any any) : link.
#[local] Hint Extern 0 (link_keeps any (read_after_ack _)) => apply (read_after_ack_keeps any any) : link.
#[local] Hint Extern 0 (link_keeps any (link_keys _)) => apply (link_keys_keeps any any); intros ?; apply wp_any : link.
Ltac moves :=
  repeat first [solve [auto with link nocore]|
    lazymatch goal with
    | |- link_keeps _ (sm_each _ _) => apply (link_keeps_each any any); intros ?
    | |- link_keeps _ (let _ := _ in _) => cbv zeta
    | |- _ => link_step
    end].

Lemma answer_frame_moves a peer frame upload :
  link_keeps any (if bool_decide (fr_kind frame = GCM_PACKET_KIND) then
    serve_packet_frame a peer (fr_payload frame) upload
  else if bool_decide (fr_kind frame = GCM_CHUNK_KIND) then
    serve_chunk_frame a peer (fr_payload frame) upload
  else sm_err (State "unsupported live frame")).
Proof.
  unfold serve_packet_frame, serve_chunk_frame, serve_control, serve_have, serve_pull, pending_after,
    send_pending_controls, send_member_state. moves.
Qed.

(** A turn that does not end the loop has read a frame. *)
Lemma live_turn_reads a peer upload l :
  wp (live_turn a peer upload) (λ _, read_some l) (λ _, True) l.
Proof.
  assert (Hmoves : ∀ A (m : Task A) l1, link_keeps any m → moved l l1 → wp m (λ _, moved l) (λ _, True) l1).
  { intros A m l1 Hm Hl1. eapply wp_mono; [apply Hm, turns_any| |done]. intros x l2 [Hl2 _]. by etransitivity. }
  unfold live_turn. pose proof (reflexivity l : moved l l) as Hrefl.
  do 3 (apply wp_bind; eapply wp_mono; [apply Hmoves; [moves|eassumption]| |done]; cbn beta; intros ? ? ?).
  apply wp_if; intros _; [|done]. apply wp_bind. eapply wp_mono; [by apply read_after_ack_reads| |done].
  cbn beta. intros frame l4 Hl4. apply wp_bind. eapply wp_mono; [apply read_some_moves; [moves|exact Hl4]| |done].
  cbn beta. intros _ l5 Hl5. apply read_some_moves; [apply answer_frame_moves|done].
Qed.

Lemma live_fuel_enough a peer fuel fuel' upload l :
  (length (lk_incoming l) < fuel)%nat → (fuel <= fuel')%nat →
  live_fuel fuel' a peer upload l = live_fuel fuel a peer upload l.
Proof.
  revert fuel' upload l. induction fuel as [|fuel IH]; intros fuel' upload l Hl Hf; [lia|].
  destruct fuel' as [|fuel']; [lia|]. cbn [live_fuel]. unfold sm_bind.
  pose proof (live_turn_reads a peer upload l) as Hr. unfold wp in Hr.
  destruct (live_turn a peer upload l) as [[u|e] l']; [|done]. unfold read_some in Hr. apply IH; lia.
Qed.

(** The loop of a served connection is the loop of the code, a turn and then the loop again
    with the upload the turn leaves pending: the bound on its turns is never what ends it, since
    every turn that returns has read a frame. *)
Theorem serve_loop_unfold a peer upload l fuel :
  (length (lk_incoming l) < fuel)%nat →
  live_fuel fuel a peer upload l
  = (do! upload := live_turn a peer upload in
     λ l, live_fuel (Datatypes.S (length (lk_incoming l))) a peer upload l) l
  ∧ (upload = None → serve_live a peer l = live_fuel fuel a peer upload l).
Proof.
  intros Hf. split.
  - destruct fuel as [|fuel]; [lia|]. cbn [live_fuel]. unfold sm_bind.
    pose proof (live_turn_reads a peer upload l) as Hr. unfold wp in Hr.
    destruct (live_turn a peer upload l) as [[u|e] l']; [|done]. unfold read_some in Hr.
    exact (live_fuel_enough a peer (Datatypes.S (length (lk_incoming l'))) fuel u l' ltac:(lia) ltac:(lia)).
  - intros ->. unfold serve_live. symmetry. apply live_fuel_enough; lia.
Qed.
End claims.

(** ** A member connects *)

Section sample.
#[local] Existing Instances sample_sha256 sample_mldsa sample_xwing sample_gcm sample_hkdf sample_oracle sample_addrs.

(** The one with the smaller id hosts a vault; the other joins it. *)
Definition serving_world : World.World :=
  set_w_keys sample_small.1 (bare_world (mkDisk None None None ∅)).
Definition served_vault : Result VaultHost * World.World := load_or_create serving_world.
Definition served_metadata : VaultMetadata :=
  match served_vault.1 with
  | Ok v => default (mkVaultMetadata sample_id (array_N 16 0) u64_zero [] ∅) (st_admission (vault_state v))
  | Err _ => mkVaultMetadata sample_id (array_N 16 0) u64_zero [] ∅
  end.
Definition served : Result Hosting :=
  let? v := served_vault.1 in let? h := vaultset_from v in Ok (set_ho_tick 3 h).
Definition nothing : Conn Hosting := mkConn (mkHosting sample_small.1 0 ∅ ∅ ∅ ∅ 0 0) [] [] [] start_progress.

(** The process when these frames are to arrive. *)
Definition reached (frames : list Frame) : Conn Hosting :=
  match served with
  | Ok h => mkConn h (arriving frames) (writable 30) [] start_progress
  | Err _ => nothing
  end.
Definition member_session : PairSession := match sample_responded.1 with Ok x => x | Err _ => mkPairSession sample_id u64_zero (mkPairKeyHandle u64_zero sample_id) end.

(** What the member sends, under its pair key. *)
Definition member_says (plaintext : Result bytes) (k : StoreInner) : Frame * StoreInner :=
  let '(r, k) := (do! plaintext := sm_lift plaintext in
     do! packet := seal_packet_with_session member_session plaintext in
     sm_lift (packet_frame packet)) k in (value_of r sample_frame, k).
Definition member_asks : Frame * StoreInner :=
  match JoinRequest_sign (vm_vault_id served_metadata) (vm_join_code served_metadata) sample_responded.2 with
  | (Ok request, k) => member_says (encode_join_request request) k
  | (Err _, k) => (sample_frame, k)
  end.
Definition asking : list Frame := sample_arriving ++ [member_asks.1].

Definition challenged_with : FlushChallenge :=
  match last (lk_sent (serve_connection (reached asking)).2) with
  | Some f => match decode_flush_offer (fr_payload f) with Ok offer => fo_challenge offer | Err _ => sample_id end
  | None => sample_id
  end.
Definition member_signs : Frame :=
  mkFrame FLUSH_SIGNATURE_KIND (value_of (sign (li_signing_seed (si_local member_asks.2)) FLUSH_CONTEXT (array_bytes (flush_m challenged_with))) []).
Definition proving : list Frame := asking ++ [member_signs].
Definition drained_digest : array 32 :=
  match last (lk_sent (serve_connection (reached proving)).2) with
  | Some f => match (do! p := sm_lift (decode_control_packet (fr_payload f)) in open_packet_with_session member_session p) member_asks.2 with
      | (Ok plaintext, _) => match decode_net_control plaintext with Ok (FlushEnd digest) => digest | _ => sample_id end
      | _ => sample_id
      end
  | None => sample_id
  end.

Definition member_applied : Frame * StoreInner := member_says (encode_net_control (FlushApplied drained_digest)) member_asks.2.
Definition drained : list Frame := proving ++ [member_applied.1].

(** What the member asks with, as the member's mailbox would hold it. *)
Definition asked_envelope : MailboxEnvelope :=
  match queued_frame member_asks.1 with Ok e => e | Err _ => mkMailboxEnvelope sample_id sample_id u64_zero u64_zero u64_zero [] end.

Lemma mailbox_frame_exact_witness : body_frame asked_envelope = Ok member_asks.1.
Proof.
  assert (Hok : is_ok (queued_frame member_asks.1) = true) by (vm_compute; reflexivity).
  assert (Hframe : is_ok (Frame_new (fr_kind member_asks.1) (fr_payload member_asks.1)) = true) by (vm_compute; reflexivity).
  assert (Hshape : frame_ok member_asks.1).
  { destruct (Frame_new _ _) as [f|] eqn:Hf; [|discriminate Hframe]. apply Frame_new_Ok in Hf as [-> Hf]. exact Hf. }
  assert (Hfits : (lenN (env_ciphertext asked_envelope) <? usize_limit) = true) by (vm_compute; reflexivity).
  refine (proj1 (proj1 (mailbox_frame_exact member_asks.1 asked_envelope Hshape (proj1 (N.ltb_lt _ _) Hfits)) _)).
  unfold asked_envelope. destruct (queued_frame member_asks.1) as [e|]; [reflexivity|discriminate Hok].
Defined.

(** The connection when the member has drained its mailbox, with what is still to arrive. *)
Definition drained_task : Task N :=
  do! (peer, a, _) := admit_connection in
  do! _ := flush_to_peer a peer in
  do! _ := link_keys (unblock_live_traffic peer TRANSPORT_GATE) in
  do! _ := task_service a (heartbeat peer IDLE_TIMEOUT) in
  sm_ret a.
Definition live_at (frames : list Frame) : Conn Hosting := (drained_task (reached (drained ++ frames))).2.

Definition uploaded : bytes := bstr "hello".
Definition uploaded_id : FileId := array_N 32 77.
Definition uploaded_manifest : Manifest :=
  let unsigned := mkManifest uploaded_id [chunk_id uploaded_id u64_zero uploaded] (u64! 5)
    (doc_peer_id sample_large_document) (u64! 1) [] in
  let message := value_of (manifest_m unsigned) [] in
  mkManifest uploaded_id [chunk_id uploaded_id u64_zero uploaded] (u64! 5) (doc_peer_id sample_large_document) (u64! 1)
    (value_of (sign (li_signing_seed (si_local member_asks.2)) MANIFEST_CONTEXT message) []).
Definition member_manifest : Frame * StoreInner :=
  member_says (encode_control_record (mkControlRecord u64_zero (NewManifest uploaded_manifest))) member_applied.2.
Definition member_body : Frame :=
  match encrypt_at_send member_session uploaded_id u64_zero uploaded member_manifest.2 with
  | (Ok body, _) => value_of (chunk_frame body) sample_frame
  | (Err _, _) => sample_frame
  end.
Definition live := live_at [member_manifest.1; member_body].
Definition first_turn := live_turn 0 (doc_peer_id sample_large_document) None live.
Definition second_turn := match first_turn with (Ok u, l) => live_turn 0 (doc_peer_id sample_large_document) u l | (Err e, l) => (Err e, l) end.

Lemma served_ok :
  is_ok served = true → ∃ past, hosting_ok (H6 := past) sample_known (lk_shared (reached asking)).
Proof.
  intros Hok. destruct (sample_new_inv sample_seed_small) as [past Hi]; [vm_compute; reflexivity..|].
  exists past. unfold reached. destruct served as [h|] eqn:Hserved; [|done]. unfold served in Hserved.
  destruct served_vault as [[v|] w'] eqn:Hv; [|done]. cbn [fst res_bind] in Hserved.
  assert (Hd : ∀ m w1, vault_metadata serving_world = (Ok m, w1) → list_to_set (vm_members m) ## vm_denied m).
  { intros m w1 Hm. rewrite (fresh_metadata serving_world m w1 eq_refl Hm). apply disjoint_empty_r. }
  unfold served_vault in Hv. destruct (load_or_create_ok serving_world v w' Hd Hv) as [Hs Hw].
  unfold vaultset_from in Hserved. destruct (st_admission _) as [metadata|]; [|done]. injection Hserved as <-.
  split; cbn.
  - pose proof (load_or_create_keys (H6 := past) sample_known serving_world) as Hk. unfold wp in Hk.
    rewrite Hv in Hk. rewrite Hw.
    apply Hk. split; [exact Hi|]. cbn.
    assert (Hn : knows_nobody (sample_new sample_seed_small) = true) by (vm_compute; reflexivity).
    apply andb_true_iff in Hn as [Hn _]. apply andb_true_iff in Hn as [Hn _].
    apply andb_true_iff in Hn as [Hn%map_len_0 _]. rewrite Hn. intros p d. by rewrite lookup_empty.
  - intros a u [<- <-]%lookup_singleton_Some. exact Hs.
Qed.

Lemma serving_safe_witness :
  ∃ v', ho_cells (lk_shared (serve_connection (reached asking)).2) !! 0 = Some v' ∧ host_ok (vault_state v').
Proof.
  assert (Hok : is_ok served = true) by (vm_compute; reflexivity).
  assert (Hp : forallb (presents_only sample_large_document) asking = true) by (vm_compute; reflexivity).
  assert (Hcell : bool_decide (is_Some (ho_cells (lk_shared (reached asking)) !! 0)) = true) by (vm_compute; reflexivity).
  destruct (served_ok Hok) as [past Hserved].
  assert (Hshape : ∃ h, reached asking = mkConn h (arriving asking) (writable 30) [] start_progress).
  { unfold reached. destruct served as [h|]; [by exists h|discriminate Hok]. }
  destruct Hshape as [h Hshape]. rewrite Hshape in *.
  assert (Hpresented : ∀ d, presented (mkConn h (arriving asking) (writable 30) [] start_progress) d → sample_known d).
  { intros d (frame & Hr%arriving_received & Hd). apply list_elem_of_In in Hr.
    pose proof (proj1 (forallb_forall _ _) Hp frame Hr) as Hf. unfold presents_only in Hf. rewrite Hd in Hf.
    exact (bool_decide_eq_true_1 _ Hf). }
  destruct (serving_safe (H6 := past) sample_known (mkConn h (arriving asking) (writable 30) [] start_progress)
    (λ d d' Hd Hd' _, f_equal doc_vk (eq_trans Hd (eq_sym Hd'))) Hpresented Hserved
    (arriving_turns (serving sample_known) _ _ _ _ _)) as ((_ & Hall) & _ & Hcells).
  apply bool_decide_eq_true_1 in Hcell as [v Hv]. destruct (Hcells 0 v Hv) as (v' & Hv' & _).
  exact (ex_intro _ v' (conj Hv' (proj1 (Hall 0 v' Hv')))).
Defined.

Lemma upload_faithful_witness :
  match second_turn with
  | (Ok (Some p), _) => upload_complete p = true ∧ upload_ok p
  | _ => False
  end.
Proof.
  assert (Hok : match second_turn with (Ok (Some p), _) => upload_complete p | _ => false end = true) by (vm_compute; reflexivity).
  unfold second_turn, first_turn in *.
  destruct (live_turn 0 (doc_peer_id sample_large_document) None live) as [[u|e] l] eqn:Hfirst; [|discriminate Hok].
  pose proof (upload_faithful 0 (doc_peer_id sample_large_document) None live u l pending_none Hfirst) as [Hu _].
  destruct (live_turn 0 (doc_peer_id sample_large_document) u l) as [[[p|]|e] l'] eqn:Hsecond; try discriminate Hok.
  pose proof (upload_faithful 0 (doc_peer_id sample_large_document) u l (Some p) l' Hu Hsecond) as [Hp _].
  exact (conj Hok (Hp p eq_refl)).
Defined.

Lemma serve_loop_unfold_witness :
  live_fuel 30 0 (doc_peer_id sample_large_document) None live
  = (do! upload := live_turn 0 (doc_peer_id sample_large_document) None in
     λ l, live_fuel (Datatypes.S (length (lk_incoming l))) 0 (doc_peer_id sample_large_document) upload l) live.
Proof.
  assert (Hl : (length (lk_incoming live) <? 30)%nat = true) by (vm_compute; reflexivity).
  exact (proj1 (serve_loop_unfold 0 (doc_peer_id sample_large_document) None live 30 (proj1 (Nat.ltb_lt _ _) Hl))).
Defined.

(** And the peer is a member then. *)
Example member_joined :
  match ho_cells (lk_shared (serve_connection (reached asking)).2) !! 0 with
  | Some v => bool_decide (doc_peer_id sample_large_document ∈ st_members (vault_state v))
  | None => false
  end = true.
Proof. vm_compute. reflexivity. Qed.
End sample.
