(* ===== verification/JoinClaims.v ===== *)
(** * What a member's process guarantees

    Theorems about joining a vault and about the calls of a member on its connection; the witness
    runs a join against the frames that the host of [ServeClaims] sends, and the member sends
    exactly the frames that host was given. *)
From S2P Require Export JoinedInv ServeClaims.
From Stdlib Require Import Lia ZifyN ZifyNat.

Open Scope N_scope.

Section claims.
Context `{Sha256, MlDsa65, XWing, AesGcm, HkdfSha256, Oracle, SocketAddrs}.

(** ** Safety *)

Section safety.
Context `{!Past} (known : IdentityDocument → Prop).

Definition joining_ok (j : Joining) : Prop :=
  SessionInv.store_ok known (w_keys (jn_world j)) ∧ ∀ m, jn_replica j = Some m → member_ok m.

(** What became of the process: its invariants hold and its replica is one that follows. *)
Record joined_on (j j' : Joining) : Prop := {
  jo_ok : joining_ok j';
  jo_local : local_id (w_keys (jn_world j')) = local_id (w_keys (jn_world j));
  jo_replica m : jn_replica j = Some m → ∃ m', jn_replica j' = Some m' ∧ follows m m';
}.

Lemma joining_joined_on j j' : joining known j j' → joining_ok j → joined_on j j'.
Proof.
  intros [Hk Hr Hn] [Hs Hm]. destruct (Hk Hs) as [Hs' Hl]. split; [split; [done|]|done|].
  - intros m' Hm'. destruct (jn_replica j) as [m|] eqn:Hj; [|by apply Hn].
    destruct (Hr m eq_refl) as (m1 & Hm1 & Hh). simplify_eq. by apply Hh, Hm.
  - intros m Hj. destruct (Hr m Hj) as (m' & Hm' & Hh). exists m'. split; [done|]. by apply Hh, Hm.
Qed.

(** C13: a join, whatever the host sends and whenever the connection ends, whatever writes fail and
    whatever other tasks do meanwhile to the key store, keeps the invariants of the key store and
    of the replica and the replica's history, provided they leave the replica alone.  When the join
    returns, the host presented the advertised identity in a verified document, and the replica is
    one of that host's vault. *)
Theorem joining_safe ad code (l : Conn Joining) :
  collision_free_documents known → (∀ d, presented l d → known d) → told_known known l →
  joining_ok (lk_shared l) → turns (undisturbed known) l →
  let '(r, l') := join_host ad code l in
  joined_on (lk_shared l) (lk_shared l')
  ∧ match r with
    | Ok p => jp_link p = l' ∧ jp_peer_id p = ad_peer_id ad ∧ jp_vault_id p = ad_vault_id ad
              ∧ (∃ d, vouched (Some ad) l d) ∧ replica_of ad (lk_shared l')
    | Err _ => True
    end.
Proof.
  intros Hfree Hknown Htold Hok Ht. pose proof (join_host_keeps known Hfree ad code l Hknown Htold Ht) as Hj.
  unfold wp in Hj. destruct (join_host ad code l) as [[p|e] l'].
  - destruct Hj as ([_ Hl] & [Hv (j & Hlj & (m & Hm & Hh) & Hjl)] & ->). split; [by apply joining_joined_on|].
    split_and!; [done|done|done|done|]. pose proof (joining_joined_on _ _ Hlj Hok) as [Hokj _ _].
    destruct (jo_replica _ _ (joining_joined_on _ _ Hjl Hokj) m Hm) as (m' & Hm' & Hf).
    exists m'. split; [done|]. by rewrite (fo_host _ _ Hf).
  - destruct Hj as [_ Hl]. split; [by apply joining_joined_on|done].
Qed.

(** The calls a member makes on its connection. *)
Inductive JoinedCall :=
  | JHeartbeat
  | JMkdir (path : text)
  | JUnlink (path : text)
  | JRename (source destination : text)
  | JSave (path : text) (bodies : list bytes)
  | JSubmit (update : ControlUpdate)
  | JManifest (m : Manifest) (bodies : list bytes)
  | JHave (query : HaveQuery)
  | JPull (request : PullRequest) (trusted : TrustedManifest).

Definition done_with {A} (m : Live A) : Live unit := do! _ := m in sm_ret tt.
Definition run_joined (c : JoinedCall) : Live unit :=
  match c with
  | JHeartbeat => heartbeat_once
  | JMkdir path => done_with (joined_mkdir path)
  | JUnlink path => joined_unlink path
  | JRename source destination => joined_rename source destination
  | JSave path bodies => done_with (joined_save_file path bodies)
  | JSubmit update => submit_control update
  | JManifest m bodies => submit_manifest m bodies
  | JHave query => done_with (have_query query)
  | JPull request trusted => done_with (joined_pull request trusted)
  end.

(** Calls, between which other tasks run. *)
Inductive joined_reaches (p : JoinedPeer) : JoinedPeer → Prop :=
  | reaches_start : joined_reaches p p
  | reaches_call p1 c : joined_reaches p p1 → joined_reaches p (run_joined c p1).2
  | reaches_turn p1 j : joined_reaches p p1 → joining known (lk_shared (jp_link p1)) j →
      joined_reaches p (set_jp_link (set_lk_shared j (jp_link p1)) p1).

Context (Hfree : collision_free_documents known).

Lemma done_with_keeps {A} (m : Live A) :
  live_keeps (joining known) (told_known known) m → live_keeps (joining known) (told_known known) (done_with m).
Proof.
  intros Hm. unfold done_with. apply live_keeps_bind; [apply _|apply told_known_moved|done|intros _]. apply live_keeps_ret, _.
Qed.

Lemma run_joined_keeps c : live_keeps (joining known) (told_known known) (run_joined c).
Proof.
  destruct c; cbn [run_joined]; try apply done_with_keeps.
  - by apply heartbeat_once_keeps.
  - by apply joined_mkdir_keeps.
  - by apply joined_unlink_keeps.
  - by apply joined_rename_keeps.
  - by apply joined_save_file_keeps.
  - by apply submit_control_keeps.
  - by apply submit_manifest_keeps.
  - by apply have_query_keeps.
  - by apply joined_pull_keeps.
Qed.

Lemma joined_reaches_lives p p' :
  JoinedInv.ready (joining known) (told_known known) p → joined_reaches p p' → lives (joining known) p p'.
Proof.
  intros Hr. induction 1 as [|p1 c _ IH|p1 j _ IH Hj]; [reflexivity|..]; (etransitivity; [exact IH|]).
  - apply wp_state, run_joined_keeps. eapply ready_lives; [apply told_known_moved|exact IH|exact Hr].
  - split; [split; [by split|exact Hj]|done|done|done].
Qed.

(** C14: on a joined connection, whatever the host answers, any calls of the member and what other
    tasks do between and during them keep the invariants of the key store and of the replica and
    the replica's history, and at most [MAX_DRAIN_FRAMES] records wait for their membership. *)
Theorem joined_safe p p' :
  told_known known (jp_link p) → turns (joining known) (jp_link p) → joining_ok (lk_shared (jp_link p)) →
  lenN (jp_pending_controls p) <= MAX_DRAIN_FRAMES → joined_reaches p p' →
  joined_on (lk_shared (jp_link p)) (lk_shared (jp_link p'))
  ∧ jp_peer_id p' = jp_peer_id p ∧ jp_vault_id p' = jp_vault_id p
  ∧ lenN (jp_pending_controls p') <= MAX_DRAIN_FRAMES.
Proof.
  intros Htold Ht Hok Hb Hp. destruct (joined_reaches_lives p p') as [[_ Hl] Hpeer Hvault Hbuf]; [by split|done|].
  split; [by apply joining_joined_on|]. auto.
Qed.
End safety.

(** ** The loops that read an answer *)

Section loops.
(** A step that only moves on along the connection. *)
Definition onward {A} (m : Live A) : Prop := ∀ p, wp m (λ _ p', moved (jp_link p) (jp_link p')) (λ _, True) p.

Lemma onward_wp {A} (m : Live A) (Q : A → JoinedPeer → Prop) p0 p :
  onward m → moved (jp_link p0) (jp_link p) → (∀ x p', moved (jp_link p0) (jp_link p') → Q x p') →
  wp m Q (λ _, True) p.
Proof. intros Hm Hp HQ. eapply wp_mono; [apply Hm|cbn beta|done]. intros x p' Hp'. apply HQ. by etransitivity. Qed.
Lemma onward_bind {A B} (m : Live A) (k : A → Live B) : onward m → (∀ x, onward (k x)) → onward (sm_bind m k).
Proof.
  intros Hm Hk p. apply wp_bind. apply (onward_wp _ _ p); [done|done|]. intros x p' Hp'. by apply (onward_wp _ _ p).
Qed.
Lemma onward_lift {A} (r : Result A) : onward (sm_lift r).
Proof. intros p. by apply wp_lift. Qed.
Lemma onward_ret {A} (x : A) : onward (sm_ret x).
Proof. intros p. by apply wp_ret. Qed.
Lemma onward_err {A} e : onward (sm_err (A := A) e).
Proof. done. Qed.
Lemma onward_link {A} (m : SM (Conn Joining) A) : link_keeps any m → onward (on_link m).
Proof.
  intros Hm p. apply wp_zoom. eapply wp_mono; [apply Hm, turns_any|cbn beta|done]. by intros x l [Hl _].
Qed.
Lemma onward_get {A} (k : JoinedPeer → Live A) : (∀ x, onward (k x)) → onward (sm_bind sm_get k).
Proof. intros Hk p. apply wp_bind, wp_get, Hk. Qed.
Lemma onward_each {A} (f : A → Live unit) l : (∀ x, onward (f x)) → onward (sm_each f l).
Proof.
  intros Hf. induction l as [|x l IH]; [apply onward_ret|]. apply onward_bind; [apply Hf|]. by intros _.
Qed.

#[local] Hint Extern 0 (link_keeps any (task_replica _)) =>
  apply (link_keeps_shared any); intros ?; apply wp_any : link.
#[local] Hint Extern 0 (link_keeps any (link_keys _)) => apply (link_keys_keeps any any); intros ?; apply wp_any : link.
#[local] Hint Extern 0 (link_keeps any (link_create _)) => apply (link_keeps_created any any); intros ?; apply stays_any : link.

Ltac onward :=
  repeat first [solve [auto with link nocore]|
    lazymatch goal with
    | |- onward (sm_bind sm_get _) => apply onward_get; intros ?
    | |- onward (sm_bind _ _) => apply onward_bind; [|intros ?]
    | |- onward (sm_ret _) => apply onward_ret
    | |- onward (sm_err _) => apply onward_err
    | |- onward (sm_lift _) => apply onward_lift
    | |- onward (sm_each _ _) => apply onward_each; intros ?
    | |- onward (live_keys _) => apply onward_link
    | |- onward (live_replica _) => apply onward_link
    | |- onward (live_get _) => apply onward_link
    | |- onward (on_link _) => apply onward_link
    | |- onward (match ?x with _ => _ end) => destruct x
    | |- onward (let _ := _ in _) => cbv zeta
    | |- _ => link_step
    end].

Lemma import_identities_any members : link_keeps any (import_current_identities members).
Proof.
  unfold import_current_identities. apply (link_keeps_bind any); [auto with link nocore|intros local].
  generalize (∅ : gset PeerId). induction members as [|d members IH]; intros ids; cbn [sm_fold];
    [apply (link_keeps_ret any)|]. apply (link_keeps_bind any); [|intros ?; apply IH].
  unfold import_identity. cbv zeta. onward.
Qed.
Hint Resolve import_identities_any : link.

Lemma apply_identities_onward members historical denied : onward (apply_member_identities members historical denied).
Proof.
  unfold apply_member_identities. apply onward_bind; [onward|intros ids]. case_match; [|apply onward_err].
  apply onward_bind; [onward|]. intros _ p. apply wp_bind, wp_get, wp_bind, wp_put.
  by apply (onward_wp _ _ p); [onward| |].
Qed.

(** The answer is over only with nothing buffered. *)
Lemma apply_plaintext_wp plaintext p :
  wp (apply_live_plaintext plaintext)
    (λ ends p', moved (jp_link p) (jp_link p') ∧ (ends = true → jp_pending_controls p' = [])) (λ _, True) p.
Proof.
  unfold apply_live_plaintext. destruct (decode_net_control plaintext) as [[v ms h d| | | | | | |]|e]; try done.
  - apply wp_bind, wp_get, wp_if; intros _; [|done]. apply wp_bind.
    apply (onward_wp _ _ p); [apply apply_identities_onward|done|]. intros _ p1 Hp1. apply wp_ret. by split.
  - apply wp_bind, wp_get, wp_if; intros Hb; [|done]. apply bool_decide_eq_true in Hb. by apply wp_ret.
  - apply wp_bind, wp_lift; [intros record _|done]. apply wp_bind, wp_get, wp_bind, wp_lift; [intros total _|done].
    apply wp_bind, wp_put, wp_if; intros _; [|done]. apply wp_bind, wp_put, wp_ret. split; [by split|done].
Qed.

(** What is left to read got shorter. *)
Definition reads {A} (m : Live A) : Prop :=
  ∀ p, wp m (λ _ p', read_some (jp_link p) (jp_link p')) (λ _, True) p.

Lemma reads_then {A B} (m : Live A) (k : A → Live B) :
  reads m → (∀ x, onward (k x)) → reads (sm_bind m k).
Proof.
  intros Hm Hk p. apply wp_bind. eapply wp_mono; [apply Hm|cbn beta|done]. intros x p1 Hp1.
  eapply wp_mono; [apply Hk|cbn beta|done]. intros y p2 Hp2. apply mv_incoming, suffix_length in Hp2.
  unfold read_some in *. lia.
Qed.

Lemma read_live_reads : reads read_live.
Proof.
  intros p. unfold read_live. apply wp_bind, wp_get, wp_bind.
  apply (onward_wp _ _ p); [onward|done|]. intros session p1 Hp1. apply wp_bind, wp_zoom.
  eapply wp_mono; [by apply (read_after_ack_reads _ (jp_link p))|cbn beta|done]. intros frame l Hl.
  apply wp_bind. eapply wp_mono; [apply (onward_link (link_keys (require_live_traffic (jp_peer_id p)))); onward|cbn beta|done].
  intros _ p2 Hp2. apply wp_ret. apply mv_incoming, suffix_length in Hp2. unfold read_some in *. cbn in *. lia.
Qed.

Lemma open_live_onward payload : onward (open_live payload).
Proof. unfold open_live. onward. Qed.
Lemma apply_plaintext_onward plaintext : onward (apply_live_plaintext plaintext).
Proof. intros p. eapply wp_mono; [apply apply_plaintext_wp|by intros ends p' []|done]. Qed.
Lemma read_packet_reads : reads read_live_packet.
Proof.
  apply reads_then; [apply read_live_reads|]. intros frame. destruct (bool_decide _); [apply open_live_onward|apply onward_err].
Qed.

Lemma drain_turn_reads b : reads (drain_turn b).
Proof.
  apply reads_then; [apply read_packet_reads|]. intros x. pose proof apply_plaintext_onward. onward.
Qed.
Lemma have_turn_reads query reply : reads (have_turn query reply).
Proof.
  apply reads_then; [apply read_packet_reads|]. intros x. pose proof apply_plaintext_onward. onward.
Qed.
Lemma pull_turn_reads request acc : reads (pull_turn request acc).
Proof.
  unfold pull_turn. destruct acc as [responses frames]. apply reads_then; [apply read_live_reads|]. intros frame.
  pose proof apply_plaintext_onward. pose proof open_live_onward. onward.
Qed.

Lemma live_loop_enough {A B} (body : B → Live (B + A)) fuel b p :
  (∀ b, reads (body b)) → (length (lk_incoming (jp_link p)) < fuel)%nat →
  live_loop_fuel fuel body b p = live_loop body b p.
Proof.
  intros Hb. unfold live_loop.
  enough (Hgen : ∀ n fuel b p, (length (lk_incoming (jp_link p)) < n)%nat → (n <= fuel)%nat →
    live_loop_fuel fuel body b p = live_loop_fuel n body b p) by (intros Hf; apply Hgen; lia).
  clear fuel b p. induction n as [|n IH]; intros fuel b p Hl Hf; [lia|]. destruct fuel as [|fuel]; [lia|].
  cbn [live_loop_fuel]. unfold sm_bind. pose proof (Hb b p) as Hr. unfold wp in Hr.
  destruct (body b p) as [[[b'|x]|e] p']; [|done|done]. unfold read_some in Hr. apply IH; lia.
Qed.

Lemma live_loop_unfold {A B} (body : B → Live (B + A)) b p :
  (∀ b, reads (body b)) →
  live_loop body b p
  = (do! r := body b in match r with inl b => live_loop body b | inr x => sm_ret x end) p.
Proof.
  intros Hb. unfold live_loop at 1. cbn [live_loop_fuel]. unfold sm_bind. pose proof (Hb b p) as Hr. unfold wp in Hr.
  destruct (body b p) as [[[b'|x]|e] p']; [|done|done]. by apply live_loop_enough.
Qed.

(** An answer that is drained leaves no record unapplied. *)
Lemma drained_leaves_none p : wp drain_live_reply (λ _ p', jp_pending_controls p' = []) (λ _, True) p.
Proof.
  unfold drain_live_reply, live_loop, wp. fold (wp (live_loop_fuel (Datatypes.S (length (lk_incoming (jp_link p)))) drain_turn tt)
    (λ _ p', jp_pending_controls p' = []) (λ _, True) p).
  generalize (Datatypes.S (length (lk_incoming (jp_link p)))). intros fuel. generalize tt. revert p.
  induction fuel as [|fuel IH]; intros p b; cbn [live_loop_fuel]; [done|]. apply wp_bind. unfold drain_turn at 1.
  apply wp_bind. eapply wp_mono; [apply wp_any|cbn beta|done]. intros x p1 _. apply wp_bind.
  eapply wp_mono; [apply apply_plaintext_wp|cbn beta|done]. intros ends p2 [_ Hends].
  destruct ends; [|apply wp_ret, IH]. apply wp_bind. unfold live_get, live_replica, on_link. apply wp_zoom.
  eapply wp_mono; [apply wp_any|cbn beta|done]. intros through l _. apply wp_ret, wp_ret. by apply Hends.
Qed.
End loops.
End claims.

(** ** A join of the host of [ServeClaims] *)

Section sample.
#[local] Existing Instances sample_sha256 sample_mldsa sample_xwing sample_gcm sample_hkdf sample_oracle sample_addrs.

(** Every frame the host sends, given those of a member, and the advertisement it publishes. *)
Definition host_sends (frames : list Frame) : list Frame := lk_sent (serve_connection (reached frames)).2.
Definition host_ad : DirectoryAd :=
  value_of (DirectoryAd_sign (vm_vault_id served_metadata) sample_address (u64! 1000) sample_small.1).1
    (mkDirectoryAd sample_id sample_id sample_address [] [] (U64 0 I) []).

(** A member's process that has never joined, and its end of the connection. *)
Definition joining_world : World.World := set_w_tick 40 (set_w_keys sample_large.1 (bare_world (mkDisk None None None ∅))).
Definition to_join (frames : list Frame) : Conn Joining :=
  mkConn (mkJoining joining_world None) (arriving frames) (writable 20) [] start_progress.
Definition joined (frames : list Frame) : Result JoinedPeer * Conn Joining :=
  join_host host_ad (vm_join_code served_metadata) (to_join frames).

(** Both ends run: the member reads every frame the host sends, and sends the frames the host was given. *)
Definition host_frames : list Frame := host_sends drained.
Example join_meets_host :
  let '(r, l) := joined host_frames in
  (is_ok r && bool_decide (lk_incoming l = []) && bool_decide (lk_sent l = drained))%bool = true.
Proof. vm_compute. reflexivity. Qed.

(** Then the member makes a directory: the host answers what the member sends after those frames. *)
Definition sample_directory : text := Text (bstr "/notes") I.
Definition member_at (frames : list Frame) : option JoinedPeer :=
  match (joined frames).1 with Ok p => Some p | Err _ => None end.
Definition made (p : JoinedPeer) : Result FileId * JoinedPeer := joined_mkdir sample_directory p.
Definition answered (frames : list Frame) : list Frame :=
  match member_at frames with Some p => host_sends (lk_sent (jp_link (made p).2)) | None => [] end.
Definition answers : list Frame := answered (answered host_frames).

(** The directory is in the replica when the call returns, with nothing left to read. *)
Example directory_made :
  match member_at answers with
  | Some p =>
      let '(r, p') := made p in
      match jn_replica (lk_shared (jp_link p')) with
      | Some m => is_ok r && bool_decide (lk_incoming (jp_link p') = [])
                  && is_ok (resolve (sr_tree (mr_replica m)) sample_directory)
      | None => false
      end
  | None => false
  end = true.
Proof. vm_compute. reflexivity. Qed.

(** Whom the two know. *)
Definition both : list IdentityDocument := [sample_small_document; sample_large_document].
Definition both_known (d : IdentityDocument) : Prop := d ∈ both.
Definition presents_known (frame : Frame) : bool :=
  match decode_identity (fr_payload frame) with Ok d => bool_decide (d ∈ both) | Err _ => true end.
Definition tells_known (frame : Frame) : bool :=
  match decode_control_packet (fr_payload frame) with
  | Ok packet =>
      match decode_net_control (drop (44 + length (packet_aad (cp_header packet))) (cp_ciphertext packet)) with
      | Ok (JoinAccepted _ members _ _) => bool_decide (Forall (λ d, d ∈ both) members)
      | _ => true
      end
  | Err _ => true
  end.

Lemma sample_opens packet plaintext :
  opens packet plaintext → plaintext = drop (44 + length (packet_aad (cp_header packet))) (cp_ciphertext packet).
Proof.
  intros [key Ho]. cbn [gcm_decrypt sample_gcm] in Ho. cbv zeta in Ho. destruct (bool_decide _); [|done].
  injection Ho as <-. f_equal. by rewrite !length_app, !length_array.
Qed.

Lemma both_free :
  bool_decide (doc_peer_id sample_small_document = doc_peer_id sample_large_document) = false →
  collision_free_documents both_known.
Proof.
  intros Hn%bool_decide_eq_false d d' Hd Hd' Hp. unfold both_known, both in *.
  apply elem_of_cons in Hd as [->| ->%list_elem_of_singleton];
    apply elem_of_cons in Hd' as [->| ->%list_elem_of_singleton]; congruence.
Qed.

Lemma frames_known frames :
  forallb (λ f, presents_known f && tells_known f) frames = true →
  (∀ d, presented (to_join frames) d → both_known d) ∧ told_known both_known (to_join frames).
Proof.
  intros Hf. rewrite forallb_forall in Hf. unfold to_join. split.
  - intros d (frame & Hr%arriving_received & Hd). apply list_elem_of_In, Hf, andb_true_iff in Hr as [Hp _].
    unfold presents_known in Hp. rewrite Hd in Hp. exact (bool_decide_eq_true_1 _ Hp).
  - intros v members h d (plaintext & (frame & packet & Hr%arriving_received & Hd & Ho%sample_opens) & Hp).
    apply list_elem_of_In, Hf, andb_true_iff in Hr as [_ Ht]. unfold tells_known in Ht. rewrite Hd, <-Ho, Hp in Ht.
    apply bool_decide_eq_true_1 in Ht. rewrite Forall_forall in Ht. exact Ht.
Qed.

Lemma to_join_ok frames :
  knows_nobody sample_large.1 = true →
  imports_new [sample_start sample_seed_large] empty_disk = true →
  (match (sample_run [sample_start sample_seed_large]).1 with Running _ => true | Stopped _ => false end) = true →
  ∃ past, joining_ok (H6 := past) both_known (lk_shared (to_join frames)).
Proof.
  intros Hn Hi Hr. destruct (sample_new_inv sample_seed_large Hi Hr) as [past Hs]. exists past.
  split; [|done]. split; [exact Hs|].
  apply andb_true_iff in Hn as [Hn _]. apply andb_true_iff in Hn as [Hn _].
  apply andb_true_iff in Hn as [Hn%map_len_0 _]. change (w_keys (jn_world (lk_shared (to_join frames)))) with sample_large.1.
  intros p d. by rewrite Hn, lookup_empty.
Qed.

Lemma joining_safe_witness :
  let '(r, l') := joined host_frames in
  match r with
  | Ok _ => replica_of host_ad (lk_shared l') ∧ ∃ d, vouched (Some host_ad) (to_join host_frames) d
  | Err _ => False
  end.
Proof.
  assert (Hok : is_ok (joined host_frames).1 = true) by (vm_compute; reflexivity).
  assert (Hf : forallb (λ f, presents_known f && tells_known f) host_frames = true) by (vm_compute; reflexivity).
  assert (Hfree : bool_decide (doc_peer_id sample_small_document = doc_peer_id sample_large_document) = false)
    by (vm_compute; reflexivity).
  destruct (to_join_ok host_frames) as [past Hj].
  { vm_compute. reflexivity. }
  { vm_compute. reflexivity. }
  { vm_compute. reflexivity. }
  pose proof (joining_safe (H6 := past) both_known host_ad (vm_join_code served_metadata) (to_join host_frames)
    (both_free Hfree) (proj1 (frames_known host_frames Hf)) (proj2 (frames_known host_frames Hf)) Hj
    (arriving_turns (undisturbed both_known) _ _ _ _ _)) as Hsafe.
  unfold joined in *. destruct (join_host _ _ (to_join host_frames)) as [[p|e] l']; [|discriminate Hok].
  destruct Hsafe as (_ & _ & _ & _ & Hv & Hr). exact (conj Hr Hv).
Defined.

(** A joined connection meets what [joined_safe] asks of it. *)
Lemma joined_meets {past : Past} known ad code (l l' : Conn Joining) p :
  collision_free_documents known → (∀ d, presented l d → known d) → told_known known l →
  joining_ok known (lk_shared l) → turns (undisturbed known) l → turns (joining known) l →
  join_host ad code l = (Ok p, l') →
  told_known known (jp_link p) ∧ turns (joining known) (jp_link p) ∧ joining_ok known (lk_shared (jp_link p))
  ∧ lenN (jp_pending_controls p) <= MAX_DRAIN_FRAMES.
Proof.
  intros Hfree Hknown Htold Hok Ht Ht' Hj. pose proof (join_host_keeps known Hfree ad code l Hknown Htold Ht) as Hp.
  unfold wp in Hp. rewrite Hj in Hp. destruct Hp as ([Hm Hl] & _ & ->). cbn. split_and!.
  - by eapply told_known_moved.
  - by eapply turns_moved.
  - apply (joining_joined_on known _ _ Hl Hok).
  - done.
Qed.

Lemma joined_safe_witness :
  ∃ past p p', member_at answers = Some p ∧ p' = (run_joined (JMkdir sample_directory) p).2
    ∧ joined_on (H6 := past) both_known (lk_shared (jp_link p)) (lk_shared (jp_link p')).
Proof.
  assert (Hok : is_ok (joined answers).1 = true) by (vm_compute; reflexivity).
  assert (Hf : forallb (λ f, presents_known f && tells_known f) answers = true) by (vm_compute; reflexivity).
  assert (Hfree : bool_decide (doc_peer_id sample_small_document = doc_peer_id sample_large_document) = false)
    by (vm_compute; reflexivity).
  destruct (to_join_ok answers) as [past Hj].
  { vm_compute. reflexivity. }
  { vm_compute. reflexivity. }
  { vm_compute. reflexivity. }
  unfold member_at. destruct (joined answers) as [[p|e] l'] eqn:Hjoin; [|discriminate Hok]. unfold joined in Hjoin.
  destruct (joined_meets both_known host_ad (vm_join_code served_metadata) (to_join answers) l' p
    (both_free Hfree) (proj1 (frames_known answers Hf)) (proj2 (frames_known answers Hf)) Hj
    (arriving_turns (undisturbed both_known) _ _ _ _ _) (arriving_turns (joining both_known) _ _ _ _ _) Hjoin)
    as (Htold & Ht & Hready & Hb).
  exact (ex_intro _ past (ex_intro _ p (ex_intro _ _ (conj eq_refl (conj eq_refl
    (proj1 (joined_safe (H6 := past) both_known (both_free Hfree) p _ Htold Ht Hready Hb
      (reaches_call both_known p p (JMkdir sample_directory) (reaches_start both_known p))))))))).
Defined.
End sample.
