(* ===== verification/Chars.v ===== *)
(** * Strings as their characters

    A [String] as the list of its Unicode scalar values, for the code that looks at characters:
    [utf8] gives its bytes and [chars] reads them back, an exact correspondence between the valid
    byte strings and the lists of scalar values.  Then the functions of the standard library that
    the line protocols use: [trim], [split_whitespace], decimal numbers and hexadecimal ids. *)
From S2P Require Export Codes.
From Stdlib Require Import Lia ZifyN ZifyNat ZifyBool.

Open Scope N_scope.

(** ** UTF-8 *)

(** ["..."] of ASCII characters. *)
Definition str (s : string) : list N := map byte_N (bstr s).

Definition scalar (c : N) : bool := (c <? 55296) || ((57344 <=? c) && (c <? 1114112)).
Definition string_ok (s : list N) : Prop := Forall (λ c, scalar c = true) s.

(** [char::encode_utf8] *)
Definition utf8_char (c : N) : bytes :=
  if c <? 128 then [byte_of_N c]
  else if c <? 2048 then [byte_of_N (192 + c / 64); byte_of_N (128 + c mod 64)]
  else if c <? 65536 then
    [byte_of_N (224 + c / 4096); byte_of_N (128 + c / 64 mod 64); byte_of_N (128 + c mod 64)]
  else
    [byte_of_N (240 + c / 262144); byte_of_N (128 + c / 4096 mod 64); byte_of_N (128 + c / 64 mod 64);
     byte_of_N (128 + c mod 64)].
Definition utf8 (s : list N) : bytes := mbind utf8_char s.

(** [String::from_utf8] *)
Definition from_utf8 (l : bytes) : option (list N) := if utf8_valid l then Some (chars l) else None.

Lemma land_mod n k : N.land n (2 ^ k - 1) = n mod 2 ^ k.
Proof. rewrite N.sub_1_r, <-N.ones_equiv. apply N.land_ones. Qed.
Lemma land_63 n : N.land n 63 = n mod 64.
Proof. apply (land_mod n 6). Qed.
Lemma land_31 n : N.land n 31 = n mod 32.
Proof. apply (land_mod n 5). Qed.
Lemma land_15 n : N.land n 15 = n mod 16.
Proof. apply (land_mod n 4). Qed.
Lemma land_7 n : N.land n 7 = n mod 8.
Proof. apply (land_mod n 3). Qed.

Ltac divmod := rewrite ?land_63, ?land_31, ?land_15, ?land_7; zify; Z.to_euclidean_division_equations; lia.

Lemma chars_utf8_char c l : scalar c = true → chars (utf8_char c ++ l) = c :: chars l.
Proof.
  unfold scalar, utf8_char. intros Hc.
  assert (Hb : c < 1114112) by lia. clear Hc.
  destruct (N.ltb_spec c 128); [|destruct (N.ltb_spec c 2048); [|destruct (N.ltb_spec c 65536)]];
    cbn [app chars]; rewrite !byte_of_N_small by divmod.
  - by rewrite (proj2 (N.ltb_lt _ _)).
  - rewrite (proj2 (N.ltb_ge _ _)), (proj2 (N.ltb_lt _ _)) by divmod. f_equal. divmod.
  - rewrite (proj2 (N.ltb_ge _ 128)), (proj2 (N.ltb_ge _ 224)), (proj2 (N.ltb_lt _ _)) by divmod. f_equal. divmod.
  - rewrite (proj2 (N.ltb_ge _ 128)), (proj2 (N.ltb_ge _ 224)), (proj2 (N.ltb_ge _ 240)) by divmod. f_equal. divmod.
Qed.

Lemma chars_utf8_app s l : string_ok s → chars (utf8 s ++ l) = s ++ chars l.
Proof.
  induction 1 as [|c s Hc _ IH]; [done|]. cbn. rewrite <-app_assoc, chars_utf8_char by done. by f_equal.
Qed.
Lemma chars_utf8 s : string_ok s → chars (utf8 s) = s.
Proof. intros Hs. rewrite <-(app_nil_r (utf8 s)), chars_utf8_app by done. apply app_nil_r. Qed.

(** Cases on the leading byte. *)
Ltac lead := repeat (lazymatch goal with
  | |- context [if ?b then _ else _] => destruct b eqn:?; [try (exfalso; lia)|]
  end; cbn [utf8_from]); unfold in_range; rewrite ?byte_of_N_small by lia; try lia.

Lemma split_2 c : c = c / 64 * 64 + c mod 64 ∧ c mod 64 < 64.
Proof. divmod. Qed.
Lemma split_3 c : c = c / 4096 * 4096 + c / 64 mod 64 * 64 + c mod 64 ∧ c mod 64 < 64 ∧ c / 64 mod 64 < 64.
Proof. divmod. Qed.
Lemma split_4 c :
  c = c / 262144 * 262144 + c / 4096 mod 64 * 4096 + c / 64 mod 64 * 64 + c mod 64
  ∧ c mod 64 < 64 ∧ c / 64 mod 64 < 64 ∧ c / 4096 mod 64 < 64.
Proof. divmod. Qed.

(** And back. *)
Lemma join_2 p r c : c = p * 64 + r → r < 64 → c / 64 = p ∧ c mod 64 = r.
Proof. pose proof (split_2 c). lia. Qed.
Lemma join_3 p q r c :
  c = p * 4096 + (q * 64 + r) → q < 64 → r < 64 → c / 4096 = p ∧ c / 64 mod 64 = q ∧ c mod 64 = r.
Proof. pose proof (split_3 c). lia. Qed.
Lemma join_4 o p q r c :
  c = o * 262144 + (p * 64 + q) * 64 + r → p < 64 → q < 64 → r < 64 →
  c / 262144 = o ∧ c / 4096 mod 64 = p ∧ c / 64 mod 64 = q ∧ c mod 64 = r.
Proof. pose proof (split_4 c). lia. Qed.

Lemma utf8_char_valid c : scalar c = true → utf8_valid (utf8_char c) = true.
Proof.
  unfold scalar, utf8_char, utf8_valid. intros Hc.
  destruct (N.ltb_spec c 128); [|destruct (N.ltb_spec c 2048); [|destruct (N.ltb_spec c 65536)]];
    cbn [utf8_from]; unfold utf8_ranges, in_range; cbv zeta.
  - rewrite !byte_of_N_small by lia. lead.
  - pose proof (split_2 c) as Hs. revert Hs. generalize (c / 64), (c mod 64). intros q r. intros.
    rewrite !(byte_of_N_small (192 + q)) by lia. lead.
  - pose proof (split_3 c) as Hs. revert Hs. generalize (c / 4096), (c / 64 mod 64), (c mod 64). intros p q r. intros.
    rewrite !(byte_of_N_small (224 + p)) by lia. lead.
  - pose proof (split_4 c) as Hs. revert Hs.
    generalize (c / 262144), (c / 4096 mod 64), (c / 64 mod 64), (c mod 64). intros o p q r. intros.
    rewrite !(byte_of_N_small (240 + o)) by lia. lead.
Qed.

Lemma utf8_valid_utf8 s : string_ok s → utf8_valid (utf8 s) = true.
Proof.
  induction 1 as [|c s Hc _ IH]; [done|]. cbn. by apply utf8_valid_app; [apply utf8_char_valid|].
Qed.

(** What follows a leading byte is a continuation, and the character is the one encoded so. *)
Lemma byte_is b n : byte_N b = n → b = byte_of_N n.
Proof. intros <-. by rewrite byte_of_N_byte_N. Qed.
Lemma cont_mod b : 128 <= byte_N b <= 191 → byte_N b mod 64 = byte_N b - 128.
Proof. divmod. Qed.

(** The sequences of three and of four bytes. *)
Lemma utf8_three b0 l :
  224 <= byte_N b0 → byte_N b0 < 240 → utf8_valid (b0 :: l) = true →
  ∃ b1 b2 l', l = b1 :: b2 :: l' ∧ utf8_valid l' = true ∧ 128 <= byte_N b1 <= 191 ∧ 128 <= byte_N b2 <= 191
    ∧ (byte_N b0 = 224 → 160 <= byte_N b1) ∧ (byte_N b0 = 237 → byte_N b1 <= 159).
Proof.
  intros Hlo Hhi. unfold utf8_valid. cbn [utf8_from]. unfold utf8_ranges, in_range. cbv zeta.
  repeat (lazymatch goal with
    | |- context [match (if ?b then _ else _) with _ => _ end] => destruct b eqn:?; try (exfalso; lia)
    end; try done); cbn [utf8_from]; intros Hl;
  (destruct l as [|b1 [|b2 l]]; [done|cbn [utf8_from] in Hl; rewrite andb_comm in Hl; done|]);
  cbn [utf8_from] in Hl; unfold in_range in Hl; rewrite !andb_true_iff in Hl;
  exists b1, b2, l; (split; [done|]); (split; [apply Hl|]); lia.
Qed.

Lemma utf8_four b0 l :
  240 <= byte_N b0 → utf8_valid (b0 :: l) = true →
  ∃ b1 b2 b3 l', l = b1 :: b2 :: b3 :: l' ∧ utf8_valid l' = true ∧ byte_N b0 <= 244 ∧ 128 <= byte_N b1 <= 191
    ∧ 128 <= byte_N b2 <= 191 ∧ 128 <= byte_N b3 <= 191
    ∧ (byte_N b0 = 240 → 144 <= byte_N b1) ∧ (byte_N b0 = 244 → byte_N b1 <= 143).
Proof.
  intros Hlo. unfold utf8_valid. cbn [utf8_from]. unfold utf8_ranges, in_range. cbv zeta.
  repeat (lazymatch goal with
    | |- context [match (if ?b then _ else _) with _ => _ end] => destruct b eqn:?; try (exfalso; lia)
    end; try done); cbn [utf8_from]; intros Hl;
  (destruct l as [|b1 [|b2 [|b3 l]]]; [done|cbn [utf8_from] in Hl; rewrite andb_comm in Hl; done
    |cbn [utf8_from] in Hl; rewrite !andb_false_r in Hl; done|]);
  cbn [utf8_from] in Hl; unfold in_range in Hl; rewrite !andb_true_iff in Hl;
  exists b1, b2, b3, l; (split; [done|]); (split; [apply Hl|]); lia.
Qed.

Lemma chars_step b0 l :
  utf8_valid (b0 :: l) = true →
  ∃ c l', chars (b0 :: l) = c :: chars l' ∧ b0 :: l = utf8_char c ++ l' ∧ scalar c = true ∧ utf8_valid l' = true
    ∧ (length l' <= length l)%nat.
Proof.
  intros Hv. pose proof (byte_N_bound b0) as Hb. cbn [chars]. cbv zeta.
  destruct (N.ltb_spec (byte_N b0) 128) as [H128|H128].
  { eexists _, l. split; [done|]. unfold utf8_char, scalar. rewrite (proj2 (N.ltb_lt (byte_N b0) 128)) by done.
    split_and!; [by rewrite byte_of_N_byte_N|lia| |lia]. revert Hv. unfold utf8_valid. cbn [utf8_from].
    unfold utf8_ranges. by rewrite (proj2 (N.ltb_lt (byte_N b0) 128)) by done. }
  destruct (N.ltb_spec (byte_N b0) 224) as [H224|H224]; [|destruct (N.ltb_spec (byte_N b0) 240) as [H240|H240]].
  - revert Hv. unfold utf8_valid. cbn [utf8_from]. unfold utf8_ranges, in_range. cbv zeta.
    rewrite (proj2 (N.ltb_ge (byte_N b0) 128)) by done.
    destruct ((194 <=? byte_N b0) && (byte_N b0 <=? 223)) eqn:H2; [|by lead].
    destruct l as [|b1 l]; [done|]. cbn [utf8_from]. unfold in_range. intros [H1 Hl]%andb_true_iff.
    eexists _, l. split; [done|]. pose proof (byte_N_bound b1). rewrite land_31, land_63. unfold utf8_char, scalar.
    assert (Hlead : byte_N b0 mod 32 = byte_N b0 - 192) by divmod.
    rewrite Hlead, cont_mod by lia.
    rewrite (proj2 (N.ltb_ge _ 128)), (proj2 (N.ltb_lt _ 2048)) by lia. split_and!; [|lia|done|cbn; lia].
    edestruct join_2 as [-> ->]; [reflexivity|lia|].
    cbn [app]. f_equal; [|f_equal]; apply byte_is; lia.
  - destruct (utf8_three b0 l H224 H240 Hv) as (b1 & b2 & l' & -> & Hl & H1 & H2 & Hlow & Hsur).
    eexists _, l'. split; [done|]. rewrite land_15, !land_63. unfold utf8_char, scalar.
    assert (Hlead : byte_N b0 mod 16 = byte_N b0 - 224) by divmod.
    rewrite Hlead, !cont_mod by lia.
    rewrite (proj2 (N.ltb_ge _ 128)), (proj2 (N.ltb_ge _ 2048)), (proj2 (N.ltb_lt _ 65536)) by lia.
    split_and!; [|lia|done|cbn; lia].
    edestruct join_3 as (-> & -> & ->); [reflexivity|lia..|].
    cbn [app]. f_equal; [|f_equal; [|f_equal]]; apply byte_is; lia.
  - destruct (utf8_four b0 l H240 Hv) as (b1 & b2 & b3 & l' & -> & Hl & H4 & H1 & H2 & H3 & Hlow & Hhigh).
    eexists _, l'. split; [done|]. rewrite land_7, !land_63. unfold utf8_char, scalar.
    assert (Hlead : byte_N b0 mod 8 = byte_N b0 - 240) by divmod.
    rewrite Hlead, !cont_mod by lia.
    rewrite (proj2 (N.ltb_ge _ 128)), (proj2 (N.ltb_ge _ 2048)), (proj2 (N.ltb_ge _ 65536)) by lia.
    split_and!; [|lia|done|cbn; lia].
    edestruct join_4 as (-> & -> & -> & ->); [reflexivity|lia..|].
    cbn [app]. f_equal; [|f_equal; [|f_equal; [|f_equal]]]; apply byte_is; lia.
Qed.

Lemma utf8_chars l : utf8_valid l = true → utf8 (chars l) = l ∧ string_ok (chars l).
Proof.
  remember (length l) as n eqn:Hn. revert l Hn. induction (lt_wf n) as [n _ IH]. intros [|b0 l] -> Hv; [by split; [|constructor]|].
  destruct (chars_step b0 l Hv) as (c & l' & -> & -> & Hc & Hl & Hlen).
  destruct (IH (length l') ltac:(cbn; lia) l' eq_refl Hl) as [Hu Ho]. cbn [utf8 mbind list_bind].
  split; [by f_equal|by constructor].
Qed.

Lemma from_utf8_Some l s : from_utf8 l = Some s ↔ string_ok s ∧ l = utf8 s.
Proof.
  unfold from_utf8. split.
  - destruct (utf8_valid l) eqn:Hv; [intros [= <-]|done]. by apply utf8_chars in Hv as [-> Hs].
  - intros [Hs ->]. by rewrite utf8_valid_utf8, chars_utf8.
Qed.

Lemma string_ok_app a b : string_ok (a ++ b) ↔ string_ok a ∧ string_ok b.
Proof. apply Forall_app. Qed.

(** ** ASCII *)

Lemma utf8_ascii s : Forall (λ c, c < 128) s → utf8 s = map byte_of_N s.
Proof.
  induction 1 as [|c s Hc _ IH]; [done|]. cbn. unfold utf8_char. rewrite (proj2 (N.ltb_lt _ _)) by done.
  cbn. by f_equal.
Qed.

Definition is_digit (c : N) : bool := (48 <=? c) && (c <=? 57).
(** [char::is_ascii_whitespace] *)
Definition is_ascii_whitespace (c : N) : bool := (c =? 32) || (c =? 9) || (c =? 10) || (c =? 12) || (c =? 13).
(** [char::is_control] *)
Definition is_control (c : N) : bool := (c <? 32) || ((127 <=? c) && (c <? 160)).

(** ** Words *)

(** [str::split_whitespace] *)
Fixpoint words_from (word : list N) (s : list N) : list (list N) :=
  match s with
  | [] => match word with [] => [] | _ => [word] end
  | c :: s =>
      if is_whitespace c then match word with [] => words_from [] s | _ => word :: words_from [] s end
      else words_from (word ++ [c]) s
  end.
Definition split_whitespace (s : list N) : list (list N) := words_from [] s.

(** A word: not empty and without whitespace. *)
Definition is_word (w : list N) : bool :=
  match w with [] => false | _ => forallb (λ c, negb (is_whitespace c)) w end.

Lemma words_from_chars word w s :
  forallb (λ c, negb (is_whitespace c)) w = true → words_from word (w ++ s) = words_from (word ++ w) s.
Proof.
  revert word. induction w as [|c w IH]; intros word Hw; [by rewrite app_nil_r|].
  apply andb_true_iff in Hw as [Hc%negb_true_iff Hw]. cbn. rewrite Hc, IH by done. by rewrite <-app_assoc.
Qed.

(** Words joined by single spaces are those words. *)
Fixpoint spaced (ws : list (list N)) : list N :=
  match ws with [] => [] | [w] => w | w :: ws => w ++ 32 :: spaced ws end.

Lemma split_spaced ws : forallb is_word ws = true → split_whitespace (spaced ws) = ws.
Proof.
  unfold split_whitespace. induction ws as [|w ws IH]; [done|]. intros [Hw Hws]%andb_true_iff.
  assert (Hc : forallb (λ c, negb (is_whitespace c)) w = true ∧ w ≠ []) by (by destruct w). destruct Hc as [Hc Hn].
  destruct ws as [|w' ws].
  - cbn [spaced]. rewrite <-(app_nil_r w) at 1. rewrite words_from_chars by done. cbn. by destruct w.
  - cbn [spaced]. rewrite words_from_chars by done. cbn [app words_from]. change (is_whitespace 32) with true.
    destruct w as [|c w]; [done|]. cbn [app]. f_equal. by apply IH.
Qed.

(** [str::trim] leaves alone what neither begins nor ends with whitespace. *)
Lemma trim_start_idemp s : trim_start (trim_start s) = trim_start s.
Proof. induction s as [|c s IH]; [done|]. cbn. destruct (is_whitespace c) eqn:Hc; [done|]. cbn. by rewrite Hc. Qed.
Lemma trim_start_suffix s : trim_start s `suffix_of` s.
Proof.
  induction s as [|c s IH]; [done|]. cbn. destruct (is_whitespace c); [by apply suffix_cons_r|done].
Qed.
Lemma trim_start_fixed s : trim_start s = s ↔ (∀ c s', s = c :: s' → is_whitespace c = false).
Proof.
  split.
  - intros Hs c s' ->. cbn in Hs. destruct (is_whitespace c); [|done]. pose proof (trim_start_suffix s') as Hl%suffix_length.
    rewrite Hs in Hl. cbn in Hl. lia.
  - intros Hs. destruct s as [|c s]; [done|]. cbn. by rewrite (Hs c s eq_refl).
Qed.
Lemma trim_start_prefix s t : t `prefix_of` s → trim_start s = s → trim_start t = t.
Proof.
  rewrite !trim_start_fixed. intros [r ->] Hs c s' ->. by eapply Hs.
Qed.
Lemma trim_idemp s : trim (trim s) = trim s.
Proof.
  unfold trim. rewrite (trim_start_prefix (trim_start s) (reverse (trim_start (reverse (trim_start s))))).
  - by rewrite reverse_involutive, trim_start_idemp.
  - pose proof (trim_start_suffix (reverse (trim_start s))) as [k Hk]. exists (reverse k).
    rewrite <-reverse_app, <-Hk. by rewrite reverse_involutive.
  - apply trim_start_idemp.
Qed.
Lemma trim_sub s c : c ∈ trim s → c ∈ s.
Proof.
  unfold trim. rewrite elem_of_reverse. intros Hc.
  pose proof (elem_of_suffix _ _ _ Hc (trim_start_suffix _)) as Hc'. rewrite elem_of_reverse in Hc'.
  exact (elem_of_suffix _ _ _ Hc' (trim_start_suffix _)).
Qed.
Lemma trim_ok s : string_ok s → string_ok (trim s).
Proof. unfold string_ok. rewrite !Forall_forall. intros Hs c Hc%trim_sub. by apply Hs. Qed.

Lemma words_head ws : forallb is_word ws = true → ∀ c s, spaced ws = c :: s → is_whitespace c = false.
Proof.
  destruct ws as [|w ws]; [done|]. intros [Hw _]%andb_true_iff c s Hs. destruct w as [|x w]; [done|].
  apply andb_true_iff in Hw as [Hx%negb_true_iff _]. destruct ws; cbn in Hs; by simplify_eq.
Qed.
Lemma words_last ws : forallb is_word ws = true → ∀ c s, spaced ws = s ++ [c] → is_whitespace c = false.
Proof.
  induction ws as [|w ws IH]; [by intros _ c [|]|]. intros [Hw Hws]%andb_true_iff c s Hs.
  destruct ws as [|w' ws].
  - cbn [spaced] in Hs. subst w. assert (Hall : forallb (λ c, negb (is_whitespace c)) (s ++ [c]) = true) by (by destruct (s ++ [c])).
    rewrite forallb_app in Hall. apply andb_true_iff in Hall as [_ [Hc%negb_true_iff _]%andb_true_iff]. done.
  - change (w ++ 32 :: spaced (w' :: ws) = s ++ [c]) in Hs. specialize (IH Hws).
    destruct (spaced (w' :: ws)) as [|x t _] eqn:Ht using rev_ind.
    + destruct w' as [|y w']; [by destruct ws|]. by destruct ws.
    + rewrite app_comm_cons, app_assoc in Hs. apply app_inj_tail in Hs as [_ <-]. by eapply IH.
Qed.
Lemma trim_spaced ws : forallb is_word ws = true → trim (spaced ws) = spaced ws.
Proof.
  intros Hws. unfold trim. rewrite (proj2 (trim_start_fixed (spaced ws))) by by apply words_head.
  rewrite (proj2 (trim_start_fixed (reverse (spaced ws)))); [apply reverse_involutive|].
  intros c s Hs. apply (f_equal reverse) in Hs. rewrite reverse_involutive, reverse_cons in Hs. by eapply words_last.
Qed.

(** ** Decimal numbers *)

Fixpoint decimal_fuel (fuel : nat) (n : N) : list N :=
  match fuel with
  | O => []
  | S fuel => if n <? 10 then [48 + n] else decimal_fuel fuel (n / 10) ++ [48 + n mod 10]
  end.
(** [n.to_string()] of a [u64], which has at most twenty digits. *)
Definition decimal (n : N) : list N := decimal_fuel 20 n.

Definition digits_N (s : list N) : N := foldl (λ n c, n * 10 + (c - 48)) 0 s.
(** [s.parse::<u64>()] of digits: [None] when the number does not fit. *)
Definition parse_digits (s : list N) : option u64 :=
  match s with [] => None | _ => if forallb is_digit s then u64_of_N (digits_N s) else None end.
(** [s.parse::<u64>()], which accepts a leading plus. *)
Definition parse_u64 (s : list N) : option u64 :=
  match s with 43 :: s => parse_digits s | _ => parse_digits s end.

Lemma decimal_fuel_digits fuel n :
  n < 10 ^ N.of_nat fuel →
  digits_N (decimal_fuel fuel n) = n ∧ forallb is_digit (decimal_fuel fuel n) = true
  ∧ (0 < fuel → decimal_fuel fuel n ≠ [])%nat.
Proof.
  revert n. induction fuel as [|fuel IH]; intros n Hn; [cbn in Hn; cbn; lia|]. cbn [decimal_fuel].
  destruct (N.ltb_spec n 10) as [H10|H10].
  { unfold digits_N, is_digit. cbn. split_and!; [lia|rewrite andb_true_r; lia|done]. }
  assert (Hd : n / 10 < 10 ^ N.of_nat fuel).
  { apply N.Div0.div_lt_upper_bound. by rewrite Nat2N.inj_succ, N.pow_succ_r' in Hn. }
  destruct (IH _ Hd) as (Hv & Hall & _). unfold digits_N in *. rewrite foldl_app, Hv, forallb_app, Hall. cbn.
  split_and!; [divmod|unfold is_digit; rewrite andb_true_r; divmod|by destruct (decimal_fuel fuel (n / 10))].
Qed.

Lemma parse_decimal (n : u64) : parse_digits (decimal (u64_N n)) = Some n.
Proof.
  destruct (decimal_fuel_digits 20 (u64_N n)) as (Hv & Hall & Hne).
  { eapply N.lt_trans; [apply u64_bound|]. by vm_compute. }
  unfold parse_digits. unfold decimal. rewrite Hall, Hv.
  destruct (decimal_fuel 20 (u64_N n)) as [|c l]; [by destruct Hne; [lia|]|]. apply u64_of_N_u64_N.
Qed.

Lemma decimal_digits n : n < u64_limit → forallb is_digit (decimal n) = true ∧ decimal n ≠ [].
Proof.
  intros Hn. destruct (decimal_fuel_digits 20 n) as (_ & Hall & Hne); [by eapply N.lt_trans; [exact Hn|vm_compute]|].
  split; [done|]. apply Hne. lia.
Qed.

(** ** Identifiers in hexadecimal *)

Definition hex_char (n : N) : byte := nth (N.to_nat n) (bstr "0123456789abcdef") Byte.x00.
(** [hex] of [net/admin.rs] and of [store/vaults.rs] *)
Definition hex (l : bytes) : bytes := mbind (λ b, [hex_char (N.shiftr (byte_N b) 4); hex_char (N.land (byte_N b) 15)]) l.

(** [hex_digit]: the two copies differ in what they complain of. *)
Definition hex_digit (complaint : string) (b : byte) : Result N :=
  if in_range 48 57 b then Ok (byte_N b - 48)
  else if in_range 97 102 b then Ok (byte_N b - 97 + 10)
  else Err (InvalidInput complaint).

Fixpoint hex_pairs (complaint : string) (value : bytes) : Result bytes :=
  match value with
  | high :: low :: value =>
      let? high := hex_digit complaint high in
      let? low := hex_digit complaint low in
      let? rest := hex_pairs complaint value in
      Ok (byte_of_N (N.lor (N.shiftl high 4) low) :: rest)
  | _ => Ok []
  end.

(** [parse_hex32] and [parse_hex_vault_id] *)
Definition parse_hex (bad_length complaint : string) (value : bytes) : Result (array 32) :=
  guard? lenN value =? 64 else InvalidInput bad_length in
  let? l := hex_pairs complaint value in
  ok_or (array_of_bytes 32 l) (InvalidInput bad_length).

(** A test of all the numbers below a bound. *)
Lemma all_below (k : nat) (P : N → bool) :
  forallb P (map N.of_nat (seq 0 k)) = true → ∀ n, n < N.of_nat k → P n = true.
Proof.
  intros Hall n Hn. rewrite forallb_forall in Hall. apply Hall, in_map_iff. exists (N.to_nat n).
  split; [lia|]. apply in_seq. lia.
Qed.

Lemma hex_char_digit complaint n :
  n < 16 → hex_digit complaint (hex_char n) = Ok n.
Proof.
  intros Hn. pose proof (all_below 16 (λ n, bool_decide (hex_digit complaint (hex_char n) = Ok n)) eq_refl n Hn) as Hd.
  by apply bool_decide_eq_true in Hd.
Qed.

Lemma hex_digit_char complaint b n : hex_digit complaint b = Ok n → n < 16 ∧ hex_char n = b.
Proof.
  pose proof (all_below 256 (λ c, match hex_digit complaint (byte_of_N c) with
    | Ok n => (n <? 16) && bool_decide (hex_char n = byte_of_N c) | Err _ => true end) eq_refl (byte_N b) (byte_N_bound b)) as Hb.
  cbn beta in Hb. rewrite byte_of_N_byte_N in Hb. intros Hd. rewrite Hd in Hb.
  apply andb_true_iff in Hb as [Hn%N.ltb_lt Hc%bool_decide_eq_true]. done.
Qed.

Lemma nibbles n :
  n < 256 → N.shiftr n 4 < 16 ∧ N.land n 15 < 16 ∧ N.lor (N.shiftl (N.shiftr n 4) 4) (N.land n 15) = n.
Proof.
  intros Hn. pose proof (all_below 256 (λ n, (N.shiftr n 4 <? 16) && (N.land n 15 <? 16)
    && (N.lor (N.shiftl (N.shiftr n 4) 4) (N.land n 15) =? n)) eq_refl n Hn) as Hb.
  cbn beta in Hb. rewrite !andb_true_iff, !N.ltb_lt, N.eqb_eq in Hb. tauto.
Qed.
Lemma joined_nibbles high low :
  high < 16 → low < 16 →
  N.lor (N.shiftl high 4) low < 256 ∧ N.shiftr (N.lor (N.shiftl high 4) low) 4 = high
  ∧ N.land (N.lor (N.shiftl high 4) low) 15 = low.
Proof.
  intros Hh Hl. pose proof (all_below 16 (λ high, forallb (λ low, let n := N.lor (N.shiftl high 4) low in
    (n <? 256) && (N.shiftr n 4 =? high) && (N.land n 15 =? low)) (map N.of_nat (seq 0 16))) eq_refl high Hh) as Hb.
  cbn beta in Hb. rewrite forallb_forall in Hb. specialize (Hb low). cbv zeta in *.
  assert (Hin : In low (map N.of_nat (seq 0 16))) by (apply in_map_iff; exists (N.to_nat low); split; [lia|apply in_seq; lia]).
  apply Hb in Hin. rewrite !andb_true_iff, N.ltb_lt, !N.eqb_eq in Hin. tauto.
Qed.

Lemma hex_cons b l : hex (b :: l) = hex_char (N.shiftr (byte_N b) 4) :: hex_char (N.land (byte_N b) 15) :: hex l.
Proof. reflexivity. Qed.

Lemma hex_pairs_hex complaint l : hex_pairs complaint (hex l) = Ok l.
Proof.
  induction l as [|b l IH]; [done|]. rewrite hex_cons. cbn [hex_pairs].
  destruct (nibbles (byte_N b) (byte_N_bound b)) as (Hh & Hl & Hn).
  rewrite !hex_char_digit by done. cbn [res_bind]. rewrite IH. cbn [res_bind]. by rewrite Hn, byte_of_N_byte_N.
Qed.
Lemma length_hex l : length (hex l) = (2 * length l)%nat.
Proof. induction l as [|b l IH]; [done|]. rewrite hex_cons. cbn [length]. lia. Qed.

Lemma hex_pairs_Ok complaint value l :
  hex_pairs complaint value = Ok l → Nat.Even (length value) → value = hex l.
Proof.
  remember (length value) as n eqn:Hn. revert value l Hn. induction (lt_wf n) as [n _ IH].
  intros [|high [|low value]] l -> Hp He; cbn in Hp.
  - by simplify_eq.
  - apply Nat.even_spec in He. discriminate He.
  - destruct (hex_digit complaint high) as [h|] eqn:Hh; [|done]. cbn in Hp.
    destruct (hex_digit complaint low) as [w|] eqn:Hw; [|done]. cbn in Hp.
    destruct (hex_pairs complaint value) as [rest|] eqn:Hr; [|done]. cbn in Hp. injection Hp as <-.
    apply hex_digit_char in Hh as [Hh <-], Hw as [Hw <-].
    rewrite (IH (length value) ltac:(cbn; lia) value rest eq_refl Hr).
    + destruct (joined_nibbles h w Hh Hw) as (Hb & H1 & H2). by rewrite hex_cons, byte_of_N_small, H1, H2.
    + destruct He as [k Hk]. exists (k - 1)%nat. cbn in Hk. lia.
Qed.

(** An identifier is read from exactly its own lower-case text. *)
Lemma parse_hex_exact bad_length complaint value (a : array 32) :
  parse_hex bad_length complaint value = Ok a ↔ value = hex (array_bytes a).
Proof.
  unfold parse_hex. split.
  - destruct (N.eqb_spec (lenN value) 64) as [Hl|]; [|done]. destruct (hex_pairs complaint value) as [l|] eqn:Hp; [|done].
    cbn. destruct (array_of_bytes 32 l) as [b|] eqn:Hb; [|done]. intros [= <-]. apply array_of_bytes_Some in Hb as ->.
    apply (hex_pairs_Ok _ _ _ Hp). exists 32%nat. unfold lenN in Hl. lia.
  - intros ->. unfold lenN. rewrite length_hex, length_array. cbn [N.of_nat]. rewrite hex_pairs_hex. cbn.
    by rewrite array_of_bytes_array.
Qed.
