(* ===== verification/Lines.v ===== *)
(** * Line protocols ([net/profiles.rs], [net/admin.rs])

    Lines of text over a buffered connection: [read_line] as the two servers write it, over bytes
    that arrive in pieces of any size, and [line_read], what it is for: the bytes up to the next
    line feed, however they arrive ([read_line_stream]). *)
From S2P Require Export Chars.
From Stdlib Require Import Lia ZifyN ZifyNat ZifyBool.

Open Scope N_scope.

(** ** The text of an error ([error.rs]) *)

(** What the standard library prints of an I/O error. *)
Class IoText := io_text : io_error → list N.

(** [impl Display for Error] *)
Definition Error_to_string `{IoText} (e : Error) : list N :=
  match e with
  | NotImplemented operation => str "not implemented: " ++ str operation
  | InvalidInput message => str "invalid input: " ++ str message
  | AuthenticationFailed => str "authentication failed"
  | KeyUnavailable => str "key unavailable or retired"
  | State message => str "invalid state: " ++ str message
  | ReplayRejected => str "replayed or expired counter"
  | EpochConflict retry_epoch => str "epoch conflict; retry at epoch " ++ decimal retry_epoch
  | VaultSessionConflict _ _ _ => str "peer already has a live session bound to another vault"
  | Io error => str "I/O error: " ++ io_text error
  end.

(** [one_line] *)
Definition one_line (text : list N) : list N := map (λ c, if (c =? 10) || (c =? 13) then 32 else c) text.

(** ** Reading a line *)

(** [BufReader]: what is buffered, and what the reads to come give; an idle timeout is an error. *)
Record LineReader := mkLineReader { rd_buffer : bytes; rd_incoming : list (Result bytes) }.

(** [fill_buf]: nothing at the end of the stream. *)
Definition fill_buf : SM LineReader bytes := λ r,
  match rd_buffer r with
  | [] =>
      match rd_incoming r with
      | [] => (Ok [], r)
      | Ok chunk :: incoming => (Ok chunk, mkLineReader chunk incoming)
      | Err e :: incoming => (Err e, mkLineReader [] incoming)
      end
  | buffer => (Ok buffer, r)
  end.
Definition consume (n : nat) : SM LineReader unit := λ r, (Ok tt, mkLineReader (drop n (rd_buffer r)) (rd_incoming r)).

Definition newline : byte := Byte.x0a.
Definition position (l : bytes) : option nat := fst <$> list_find (eq newline) l.

Definition usize_saturating_add (a b : N) : N := N.min (a + b) (usize_limit - 1).

Section lines.
(** The limit and the messages of the server. *)
Context (max : N) (too_long not_utf8 : string).

(** A pass of the loop: the line so far, or what [read_line] returns. *)
Definition read_line_turn (line : bytes) : SM LineReader (bytes + option (list N)) :=
  do! available := fill_buf in
  if bool_decide (available = []) then sm_ret (inr None) else
  let '(chunk, complete) :=
    match position available with
    | Some index => (firstn index available, true)
    | None => (available, false)
    end in
  check! negb (max <? usize_saturating_add (lenN line) (lenN chunk)) else InvalidInput too_long in
  let line := line ++ chunk in
  do! _ := consume (length chunk + if complete : bool then 1 else 0) in
  if complete then
    do! text := sm_lift (ok_or (from_utf8 line) (InvalidInput not_utf8)) in
    sm_ret (inr (Some (trim text)))
  else sm_ret (inl line).

Fixpoint read_line_fuel (fuel : nat) (line : bytes) : SM LineReader (option (list N)) :=
  match fuel with
  | O => sm_err (State "out of fuel")
  | S fuel =>
      do! r := read_line_turn line in
      match r with inl line => read_line_fuel fuel line | inr result => sm_ret result end
  end.

(** Every pass that is not the last empties the buffer, so these are more than enough. *)
Definition read_line : SM LineReader (option (list N)) := λ r,
  read_line_fuel (2 + length (rd_incoming r)) [] r.

(** ** What it is for *)

(** The bytes to come, up to an end of the stream or an error. *)
Fixpoint arriving_bytes (incoming : list (Result bytes)) : bytes * option Error :=
  match incoming with
  | [] | Ok [] :: _ => ([], None)
  | Err e :: _ => ([], Some e)
  | Ok chunk :: incoming => let '(l, ending) := arriving_bytes incoming in (chunk ++ l, ending)
  end.
Definition stream (r : LineReader) : bytes * option Error :=
  let '(l, ending) := arriving_bytes (rd_incoming r) in (rd_buffer r ++ l, ending).

(** The line that a stream begins with. *)
Definition line_read (s : bytes * option Error) : Result (option (list N)) :=
  match position s.1 with
  | Some index =>
      guard? negb (max <? N.of_nat index) else InvalidInput too_long in
      let? text := ok_or (from_utf8 (firstn index s.1)) (InvalidInput not_utf8) in
      Ok (Some (trim text))
  | None =>
      guard? negb (max <? lenN s.1) else InvalidInput too_long in
      match s.2 with None => Ok None | Some e => Err e end
  end.
(** What is left after it. *)
Definition after_line (s : bytes * option Error) : bytes * option Error :=
  match position s.1 with Some index => (drop (S index) s.1, s.2) | None => ([], s.2) end.
End lines.

Lemma position_Some l i : position l = Some i ↔ l !! i = Some newline ∧ newline ∉ firstn i l.
Proof.
  unfold position. rewrite fmap_Some. split.
  - intros ([j b] & Hf & ->). apply list_find_Some in Hf as (Hb & <- & Hn). split; [done|].
    intros (k & Hk & Hlt)%elem_of_take. by eapply (Hn k newline).
  - intros [Hl Hn]. exists (i, newline). split; [|done]. apply list_find_Some. split_and!; [done|done|].
    intros j b Hj Hlt <-. apply Hn, elem_of_take. by exists j.
Qed.
Lemma position_None l : position l = None ↔ newline ∉ l.
Proof.
  unfold position. rewrite fmap_None, list_find_None, Forall_forall. split.
  - intros Hl Hn. by eapply (Hl newline).
  - intros Hn b Hb <-. done.
Qed.
Lemma position_app l k : newline ∉ l → position (l ++ k) = (λ i, length l + i)%nat <$> position k.
Proof.
  intros Hl. destruct (position k) as [i|] eqn:Hk; cbn.
  - apply position_Some in Hk as [Hi Hn]. apply position_Some.
    rewrite lookup_app_r, take_app_add' by lia. split.
    + by replace (length l + i - length l)%nat with i by lia.
    + rewrite elem_of_app. naive_solver.
  - apply position_None in Hk. apply position_None. rewrite elem_of_app. naive_solver.
Qed.

Section exact.
Context (max : N) (too_long not_utf8 : string).

Lemma arriving_chunk chunk incoming :
  chunk ≠ [] → stream (mkLineReader [] (Ok chunk :: incoming)) = stream (mkLineReader chunk incoming).
Proof. intros Hc. unfold stream. cbn. destruct chunk; [done|]. by destruct (arriving_bytes incoming). Qed.

(** A pass with bytes in the buffer. *)
Lemma turn_buffered line buffer incoming :
  max < usize_limit - 1 → buffer ≠ [] → newline ∉ line → lenN line <= max →
  let s := stream (mkLineReader buffer incoming) in
  let s := (line ++ s.1, s.2) in
  match read_line_turn max too_long not_utf8 line (mkLineReader buffer incoming) with
  | (Ok (inl line'), r) =>
      line' = line ++ buffer ∧ (newline ∉ line') ∧ lenN line' <= max ∧ r = mkLineReader [] incoming
  | (Ok (inr result), r) => line_read max too_long not_utf8 s = Ok result ∧ stream r = after_line s ∧ result ≠ None
  | (Err e, _) => line_read max too_long not_utf8 s = Err e
  end.
Proof.
  intros Hmax Hb Hline Hlen. unfold stream at 1 2. cbn [rd_buffer rd_incoming].
  destruct (arriving_bytes incoming) as [rest ending] eqn:Hrest. cbn [fst snd]. rewrite app_assoc.
  unfold read_line_turn, sm_bind, fill_buf. cbn [rd_buffer rd_incoming]. destruct buffer as [|b buffer]; [done|].
  rewrite (bool_decide_eq_false_2 _ Hb). set (chunk := b :: buffer) in *.
  assert (Hsat : ∀ n, @eq bool (max <? usize_saturating_add (lenN line) n) (max <? lenN line + n)).
  { intros n. unfold usize_saturating_add. lia. }
  destruct (position chunk) as [i|] eqn:Hi; rewrite Hsat.
  - assert (Hpos : position ((line ++ chunk) ++ rest) = Some (length line + i)%nat).
    { rewrite <-app_assoc, position_app by done. apply position_Some in Hi as [Hl Hn].
      assert (Hi' : position (chunk ++ rest) = Some i); [|by rewrite Hi'].
      apply position_Some. apply lookup_lt_Some in Hl as Hlt. rewrite lookup_app_l, take_app_le by lia. done. }
    pose proof Hi as [Hl _]%position_Some. apply lookup_lt_Some in Hl.
    unfold line_read, after_line. cbn [fst snd]. rewrite Hpos. unfold lenN. rewrite length_take, Nat.min_l by lia.
    replace (N.of_nat (length line) + N.of_nat i) with (N.of_nat (length line + i)) by lia.
    destruct (max <? N.of_nat (length line + i)); cbn [negb]; [done|].
    assert (Htake : firstn (length line + i) ((line ++ chunk) ++ rest) = line ++ firstn i chunk).
    { rewrite <-app_assoc, take_app_add. by rewrite take_app_le by lia. }
    unfold consume. cbn [rd_buffer rd_incoming]. rewrite Htake. unfold sm_lift.
    destruct (from_utf8 _) as [text|]; cbn [ok_or res_bind]; [|done].
    unfold sm_ret. split_and!; [done| |done]. unfold stream. cbn [rd_buffer rd_incoming]. rewrite Hrest. f_equal.
    rewrite Nat.add_1_r, <-app_assoc.
    replace (S (length line + i)) with (length line + S i)%nat by lia. rewrite drop_app_add.
    by rewrite drop_app_le by lia.
  - apply position_None in Hi. destruct (N.ltb_spec max (lenN line + lenN chunk)) as [Hlt|Hge]; cbn [negb].
    + unfold line_read. cbn [fst snd]. rewrite position_app by (rewrite elem_of_app; naive_solver).
      destruct (position rest) as [j|]; cbn; [rewrite length_app|rewrite lenN_app, lenN_app];
        (rewrite (proj2 (N.ltb_lt _ _)); [done|]); unfold lenN in *; lia.
    + unfold consume, sm_ret. cbn [rd_buffer rd_incoming]. rewrite elem_of_app, lenN_app.
      split_and!; [done|naive_solver|lia|]. f_equal. rewrite Nat.add_0_r. apply drop_all.
Qed.

Lemma line_read_end line ending :
  newline ∉ line → lenN line <= max →
  line_read max too_long not_utf8 (line ++ [], ending)
  = match ending with None => Ok None | Some e => Err e end.
Proof.
  intros Hline Hlen. unfold line_read. cbn [fst snd]. rewrite app_nil_r.
  by rewrite (proj2 (position_None _) Hline), (proj2 (N.ltb_ge _ _) Hlen).
Qed.

Lemma read_line_fuel_exact fuel line r :
  max < usize_limit - 1 → newline ∉ line → lenN line <= max →
  (length (rd_incoming r) + (if bool_decide (rd_buffer r = []) then 0 else 1) < fuel)%nat →
  let s := (line ++ (stream r).1, (stream r).2) in
  let '(result, r') := read_line_fuel max too_long not_utf8 fuel line r in
  result = line_read max too_long not_utf8 s ∧ (∀ text, result = Ok (Some text) → stream r' = after_line s).
Proof.
  intros Hmax. revert line r. induction fuel as [|fuel IH]; intros line [buffer incoming] Hline Hlen Hf; [lia|].
  cbv zeta. cbn [rd_buffer rd_incoming] in *.
  assert (Hbuffered : ∀ buffer incoming, buffer ≠ [] → (length incoming < fuel)%nat →
    let s := (line ++ (stream (mkLineReader buffer incoming)).1, (stream (mkLineReader buffer incoming)).2) in
    let '(result, r') := read_line_fuel max too_long not_utf8 (S fuel) line (mkLineReader buffer incoming) in
    result = line_read max too_long not_utf8 s ∧ (∀ text, result = Ok (Some text) → stream r' = after_line s)).
  { clear buffer incoming Hf. intros buffer incoming Hb Hf. cbv zeta. cbn [read_line_fuel]. unfold sm_bind.
    pose proof (turn_buffered line buffer incoming Hmax Hb Hline Hlen) as Ht. cbv zeta in Ht.
    destruct (read_line_turn _ _ _ line _) as [[[line'|result]|e] r']; [|by destruct Ht as (Hl & Hs & _)|by rewrite Ht].
    destruct Ht as (Hl & Hn & Hm & ->). pose proof (IH line' (mkLineReader [] incoming) Hn Hm) as Hrest. cbn in Hrest.
    specialize (Hrest ltac:(lia)). subst line'. unfold stream in *. cbn [rd_buffer rd_incoming] in *.
    destruct (arriving_bytes incoming) as [rest ending]. cbn [fst snd app] in *. rewrite <-app_assoc in Hrest. exact Hrest. }
  destruct (decide (buffer = [])) as [->|Hb].
  - destruct incoming as [|[[|b chunk]|e] incoming].
    + by split; [symmetry; exact (line_read_end line None Hline Hlen)|].
    + by split; [symmetry; exact (line_read_end line None Hline Hlen)|].
    + cbn [length] in Hf. rewrite arriving_chunk by done. apply (Hbuffered (b :: chunk) incoming); [done|lia].
    + by split; [symmetry; exact (line_read_end line (Some e) Hline Hlen)|].
  - rewrite bool_decide_eq_false_2 in Hf by done. apply Hbuffered; [done|lia].
Qed.

(** A line is read from the stream and not from its pieces: [read_line] returns the line that the
    bytes to come begin with, and leaves what is after it. *)
Lemma read_line_stream r :
  max < usize_limit - 1 →
  let '(result, r') := read_line max too_long not_utf8 r in
  result = line_read max too_long not_utf8 (stream r)
  ∧ (∀ text, result = Ok (Some text) → stream r' = after_line (stream r)).
Proof.
  intros Hmax. pose proof (read_line_fuel_exact (2 + length (rd_incoming r)) [] r Hmax) as Hr. cbv zeta in Hr.
  cbn [app] in Hr. rewrite <-surjective_pairing in Hr. apply Hr; [apply not_elem_of_nil|unfold lenN; cbn; lia|].
  destruct (bool_decide _); lia.
Qed.
End exact.
