(* ===== verification/Base64.v ===== *)
(** * Base64 with padding ([net/profiles.rs])

    [base64_exact]: a text decodes exactly when it is what the encoder writes of the bytes it
    decodes to, so no name has two spellings. *)
From S2P Require Export Chars.
From Stdlib Require Import Lia ZifyN ZifyNat ZifyBool.

Open Scope N_scope.

Definition BASE64 : bytes := bstr "ABCDEFGHIJKLMNOPQRSTUVWXYZabcdefghijklmnopqrstuvwxyz0123456789+/".
Definition base64_digit (digit : N) : byte := nth (N.to_nat digit) BASE64 Byte.x00.
Definition base64_position (c : byte) : option N := (λ p, N.of_nat p.1) <$> list_find (eq c) BASE64.
Definition pad64 : byte := Byte.x3d.

(** One to three bytes as four characters. *)
Definition encode_block (chunk : bytes) : bytes :=
  let block i := byte_N (nth i chunk Byte.x00) in
  let bits := N.lor (N.lor (N.shiftl (block 0%nat) 16) (N.shiftl (block 1%nat) 8)) (block 2%nat) in
  map (λ index, if index <=? lenN chunk then base64_digit (N.land (N.shiftr bits (18 - index * 6)) 63) else pad64)
    [0; 1; 2; 3].

Fixpoint encode_base64 (l : bytes) : bytes :=
  match l with
  | a :: b :: c :: l => encode_block [a; b; c] ++ encode_base64 l
  | [] => []
  | chunk => encode_block chunk
  end.

(** [(bits << 6) | digit] on a [u32]. *)
Definition u32_shift_in (bits digit : N) : N := N.lor (N.land (N.shiftl bits 6) (N.ones 32)) digit.

Fixpoint decode_base64_loop (digits : bytes) (bits available : N) : option bytes :=
  match digits with
  | [] =>
      if negb (available =? 0) && negb (N.land bits (N.shiftl 1 available - 1) =? 0) then None else Some []
  | byte :: digits =>
      digit ← base64_position byte;
      let bits := u32_shift_in bits digit in
      let available := available + 6 in
      if 8 <=? available then
        let available := available - 8 in
        output ← decode_base64_loop digits bits available;
        Some (byte_of_N (N.shiftr bits available) :: output)
      else decode_base64_loop digits bits available
  end.

(** [value.bytes().rev().take_while(|byte| *byte == b'=').count()] *)
Fixpoint padding_of (reversed : bytes) : nat :=
  match reversed with
  | c :: reversed => if bool_decide (c = pad64) then S (padding_of reversed) else O
  | [] => O
  end.

Definition decode_base64 (value : bytes) : option bytes :=
  if bool_decide (value = []) || negb (lenN value mod 4 =? 0) then None else
  let padding := padding_of (reverse value) in
  if (2 <? padding)%nat then None
  else decode_base64_loop (firstn (length value - padding) value) 0 0.

(** ** Digits *)

Lemma base64_position_digit d : d < 64 → base64_position (base64_digit d) = Some d.
Proof.
  intros Hd. pose proof (all_below 64 (λ d, bool_decide (base64_position (base64_digit d) = Some d)) eq_refl d Hd) as Hp.
  by apply bool_decide_eq_true in Hp.
Qed.
Lemma base64_position_Some c d : base64_position c = Some d → d < 64 ∧ base64_digit d = c ∧ c ≠ pad64.
Proof.
  assert (Hall : match base64_position c with
    | Some d => (d <? 64) && bool_decide (base64_digit d = c) && negb (bool_decide (c = pad64))
    | None => true end = true)
    by (destruct c; vm_compute; reflexivity).
  intros Hc. rewrite Hc in Hall. rewrite !andb_true_iff, negb_true_iff, N.ltb_lt, bool_decide_eq_true, bool_decide_eq_false in Hall.
  tauto.
Qed.

(** The digits and the bytes of 24 bits. *)
Definition sextet (n i : N) : N := n / 2 ^ (18 - i * 6) mod 64.

Lemma sextet_lt n i : sextet n i < 64.
Proof. by apply N.mod_lt. Qed.

Lemma sextets n :
  n < 16777216 →
  n = sextet n 0 * 262144 + sextet n 1 * 4096 + sextet n 2 * 64 + sextet n 3.
Proof.
  intros Hn. unfold sextet. change (2 ^ (18 - 0 * 6)) with 262144. change (2 ^ (18 - 1 * 6)) with 4096.
  change (2 ^ (18 - 2 * 6)) with 64. change (2 ^ (18 - 3 * 6)) with 1. divmod.
Qed.

Lemma sextets_inj n d0 d1 d2 d3 :
  d0 < 64 → d1 < 64 → d2 < 64 → d3 < 64 → n = d0 * 262144 + d1 * 4096 + d2 * 64 + d3 →
  sextet n 0 = d0 ∧ sextet n 1 = d1 ∧ sextet n 2 = d2 ∧ sextet n 3 = d3.
Proof.
  intros H0 H1 H2 H3 Hn. pose proof (sextets n ltac:(lia)) as Hs.
  pose proof (sextet_lt n 0). pose proof (sextet_lt n 1). pose proof (sextet_lt n 2). pose proof (sextet_lt n 3). lia.
Qed.

Lemma encode_block_bits a b c :
  N.lor (N.lor (N.shiftl (byte_N a) 16) (N.shiftl (byte_N b) 8)) (byte_N c)
  = byte_N a * 65536 + byte_N b * 256 + byte_N c.
Proof.
  pose proof (byte_N_bound a). pose proof (byte_N_bound b). pose proof (byte_N_bound c).
  replace (N.shiftl (byte_N a) 16) with (N.shiftl (byte_N a * 256) 8)
    by (rewrite !N.shiftl_mul_pow2; change (2 ^ 16) with 65536; change (2 ^ 8) with 256; lia).
  rewrite <-N.shiftl_lor. rewrite lor_low by (by change (2 ^ 8) with 256).
  replace (N.lor (byte_N a * 256) (byte_N b)) with (byte_N a * 256 + byte_N b); [change (2 ^ 8) with 256; lia|].
  replace (byte_N a * 256) with (N.shiftl (byte_N a) 8) by (by rewrite N.shiftl_mul_pow2).
  rewrite lor_low by (by change (2 ^ 8) with 256). by rewrite N.shiftl_mul_pow2.
Qed.

Lemma encode_block_sextets chunk :
  encode_block chunk
  = let block i := byte_N (nth i chunk Byte.x00) in
    let n := block 0%nat * 65536 + block 1%nat * 256 + block 2%nat in
    map (λ index, if index <=? lenN chunk then base64_digit (sextet n index) else pad64) [0; 1; 2; 3].
Proof.
  unfold encode_block. cbv zeta. rewrite encode_block_bits. apply map_ext. intros i.
  by rewrite land_63, N.shiftr_div_pow2.
Qed.

(** ** Decoding four digits *)

Lemma shift_in_0 bits d : d < 64 → u32_shift_in bits d mod 64 = d.
Proof. intros Hd. pose proof (shift_in_mod 32 bits 6 d 0 Hd ltac:(lia)) as Hs. rewrite N.mod_1_r in Hs. exact Hs. Qed.
Lemma shift_in_1 bits d x :
  d < 64 → bits mod 64 = x → u32_shift_in bits d mod 4096 = x * 64 + d.
Proof. intros Hd <-. exact (shift_in_mod 32 bits 6 d 6 Hd ltac:(lia)). Qed.
Lemma shift_in_2 bits d x :
  d < 64 → bits mod 16 = x → u32_shift_in bits d mod 1024 = x * 64 + d.
Proof. intros Hd <-. exact (shift_in_mod 32 bits 6 d 4 Hd ltac:(lia)). Qed.
Lemma shift_in_3 bits d x :
  d < 64 → bits mod 4 = x → u32_shift_in bits d mod 256 = x * 64 + d.
Proof. intros Hd <-. exact (shift_in_mod 32 bits 6 d 2 Hd ltac:(lia)). Qed.

(** The bytes of digits. *)
Definition byte_0 (d0 d1 : N) : byte := byte_of_N ((d0 * 64 + d1) / 16).
Definition byte_1 (d1 d2 : N) : byte := byte_of_N ((d1 mod 16 * 64 + d2) / 4).
Definition byte_2 (d2 d3 : N) : byte := byte_of_N (d2 mod 4 * 64 + d3).

Lemma byte_of_N_mod n m : n mod 256 = m mod 256 → byte_of_N n = byte_of_N m.
Proof. intros Hn. unfold byte_of_N. by rewrite Hn. Qed.

Section steps.
Context (d : N) (Hd : d < 64) (digits : bytes) (bits : N).

Lemma decode_at_0 :
  decode_base64_loop (base64_digit d :: digits) bits 0 = decode_base64_loop digits (u32_shift_in bits d) 6.
Proof. cbn [decode_base64_loop]. by rewrite base64_position_digit. Qed.
Lemma decode_at_6 x :
  bits mod 64 = x →
  decode_base64_loop (base64_digit d :: digits) bits 6
  = output ← decode_base64_loop digits (u32_shift_in bits d) 4; Some (byte_0 x d :: output).
Proof.
  intros Hx. cbn [decode_base64_loop]. rewrite base64_position_digit by done. cbn [mbind option_bind].
  change (8 <=? 6 + 6) with true. change (6 + 6 - 8) with 4. cbv iota. unfold byte_0. rewrite N.shiftr_div_pow2.
  replace (byte_of_N (u32_shift_in bits d / 2 ^ 4)) with (byte_of_N ((x * 64 + d) / 16)); [done|].
  apply byte_of_N_mod. rewrite <-(shift_in_1 bits d x) by done. change (2 ^ 4) with 16. divmod.
Qed.
Lemma decode_at_4 x :
  bits mod 16 = x mod 16 →
  decode_base64_loop (base64_digit d :: digits) bits 4
  = output ← decode_base64_loop digits (u32_shift_in bits d) 2; Some (byte_1 x d :: output).
Proof.
  intros Hx. cbn [decode_base64_loop]. rewrite base64_position_digit by done. cbn [mbind option_bind].
  change (8 <=? 4 + 6) with true. change (4 + 6 - 8) with 2. cbv iota. unfold byte_1. rewrite N.shiftr_div_pow2.
  replace (byte_of_N (u32_shift_in bits d / 2 ^ 2)) with (byte_of_N ((x mod 16 * 64 + d) / 4)); [done|].
  apply byte_of_N_mod. rewrite <-(shift_in_2 bits d (x mod 16)) by done. change (2 ^ 2) with 4. divmod.
Qed.
Lemma decode_at_2 x :
  bits mod 4 = x mod 4 →
  decode_base64_loop (base64_digit d :: digits) bits 2
  = output ← decode_base64_loop digits (u32_shift_in bits d) 0; Some (byte_2 x d :: output).
Proof.
  intros Hx. cbn [decode_base64_loop]. rewrite base64_position_digit by done. cbn [mbind option_bind].
  change (8 <=? 2 + 6) with true. change (2 + 6 - 8) with 0. cbv iota. unfold byte_2. rewrite N.shiftr_div_pow2.
  replace (byte_of_N (u32_shift_in bits d / 2 ^ 0)) with (byte_of_N (x mod 4 * 64 + d)); [done|].
  apply byte_of_N_mod. rewrite <-(shift_in_3 bits d (x mod 4)) by done. change (2 ^ 0) with 1. rewrite N.div_1_r.
  by rewrite N.Div0.mod_mod.
Qed.
End steps.

Lemma shift_in_low bits d :
  d < 64 → u32_shift_in bits d mod 16 = d mod 16 ∧ u32_shift_in bits d mod 4 = d mod 4.
Proof. intros Hd. pose proof (shift_in_0 bits d Hd). divmod. Qed.

(** Four digits, and the two or three that may end a text. *)
Lemma decode_four d0 d1 d2 d3 digits bits :
  d0 < 64 → d1 < 64 → d2 < 64 → d3 < 64 → ∃ bits',
  decode_base64_loop (base64_digit d0 :: base64_digit d1 :: base64_digit d2 :: base64_digit d3 :: digits) bits 0
  = output ← decode_base64_loop digits bits' 0; Some (byte_0 d0 d1 :: byte_1 d1 d2 :: byte_2 d2 d3 :: output).
Proof.
  intros H0 H1 H2 H3. exists (u32_shift_in (u32_shift_in (u32_shift_in (u32_shift_in bits d0) d1) d2) d3).
  rewrite decode_at_0 by done.
  rewrite (decode_at_6 d1 H1 _ _ d0) by (by apply shift_in_0).
  rewrite (decode_at_4 d2 H2 _ _ d1) by (by apply shift_in_low).
  rewrite (decode_at_2 d3 H3 _ _ d2) by (by apply shift_in_low).
  by destruct (decode_base64_loop digits _ 0).
Qed.

Lemma decode_three d0 d1 d2 bits :
  d0 < 64 → d1 < 64 → d2 < 64 →
  decode_base64_loop [base64_digit d0; base64_digit d1; base64_digit d2] bits 0
  = if d2 mod 4 =? 0 then Some [byte_0 d0 d1; byte_1 d1 d2] else None.
Proof.
  intros H0 H1 H2. rewrite decode_at_0 by done. rewrite (decode_at_6 d1 H1 _ _ d0) by (by apply shift_in_0).
  rewrite (decode_at_4 d2 H2 _ _ d1) by (by apply shift_in_low). cbn [decode_base64_loop].
  change (negb (2 =? 0)) with true. change (N.shiftl 1 2 - 1) with (2 ^ 2 - 1). rewrite land_mod.
  change (2 ^ 2) with 4. rewrite (proj2 (shift_in_low _ d2 H2)). by destruct (d2 mod 4 =? 0).
Qed.

Lemma decode_two d0 d1 bits :
  d0 < 64 → d1 < 64 →
  decode_base64_loop [base64_digit d0; base64_digit d1] bits 0
  = if d1 mod 16 =? 0 then Some [byte_0 d0 d1] else None.
Proof.
  intros H0 H1. rewrite decode_at_0 by done. rewrite (decode_at_6 d1 H1 _ _ d0) by (by apply shift_in_0).
  cbn [decode_base64_loop].
  change (negb (4 =? 0)) with true. change (N.shiftl 1 4 - 1) with (2 ^ 4 - 1). rewrite land_mod.
  change (2 ^ 4) with 16. rewrite (proj1 (shift_in_low _ d1 H1)). by destruct (d1 mod 16 =? 0).
Qed.

(** ** Blocks *)

(** The four digits of a full block are its bytes', and back. *)
Lemma block_bytes a b c (n := byte_N a * 65536 + byte_N b * 256 + byte_N c) :
  byte_0 (sextet n 0) (sextet n 1) = a ∧ byte_1 (sextet n 1) (sextet n 2) = b ∧ byte_2 (sextet n 2) (sextet n 3) = c.
Proof.
  pose proof (byte_N_bound a). pose proof (byte_N_bound b). pose proof (byte_N_bound c).
  pose proof (sextets n ltac:(lia)) as Hn. pose proof (sextet_lt n 0). pose proof (sextet_lt n 1).
  pose proof (sextet_lt n 2). pose proof (sextet_lt n 3).
  revert Hn. generalize dependent (sextet n 3). generalize dependent (sextet n 2). generalize dependent (sextet n 1).
  generalize dependent (sextet n 0). intros d0 ? d1 ? d2 ? d3 ? Hn. subst n.
  unfold byte_0, byte_1, byte_2. split_and!; symmetry; apply byte_is; divmod.
Qed.

Lemma bytes_block d0 d1 d2 d3 :
  d0 < 64 → d1 < 64 → d2 < 64 → d3 < 64 →
  byte_N (byte_0 d0 d1) * 65536 + byte_N (byte_1 d1 d2) * 256 + byte_N (byte_2 d2 d3)
  = d0 * 262144 + d1 * 4096 + d2 * 64 + d3.
Proof.
  intros H0 H1 H2 H3. unfold byte_0, byte_1, byte_2. rewrite !byte_of_N_small by divmod. divmod.
Qed.

(** ** Texts *)

Definition digit64 (c : byte) : Prop := ∃ d, d < 64 ∧ c = base64_digit d.

Lemma decode_digits digits bits available l :
  decode_base64_loop digits bits available = Some l → Forall digit64 digits.
Proof.
  revert bits available l. induction digits as [|c digits IH]; intros bits available l; [constructor|].
  cbn [decode_base64_loop]. destruct (base64_position c) as [d|] eqn:Hc; [|done]. cbn [mbind option_bind].
  apply base64_position_Some in Hc as (Hd & <- & _). intros Hl. constructor; [by exists d|].
  destruct (8 <=? available + 6); [|by eapply IH].
  destruct (decode_base64_loop digits _ _) eqn:Hr; [|done]. by eapply IH.
Qed.

Lemma digit64_not_pad c : digit64 c → c ≠ pad64.
Proof. intros (d & Hd & ->). by apply base64_position_digit, base64_position_Some in Hd as (_ & _ & ?). Qed.

Lemma encode_full a b c l :
  encode_base64 (a :: b :: c :: l)
  = let n := byte_N a * 65536 + byte_N b * 256 + byte_N c in
    base64_digit (sextet n 0) :: base64_digit (sextet n 1) :: base64_digit (sextet n 2) :: base64_digit (sextet n 3)
    :: encode_base64 l.
Proof. cbn [encode_base64]. by rewrite encode_block_sextets. Qed.
Lemma encode_two a b :
  encode_base64 [a; b]
  = let n := byte_N a * 65536 + byte_N b * 256 in
    [base64_digit (sextet n 0); base64_digit (sextet n 1); base64_digit (sextet n 2); pad64].
Proof. cbn [encode_base64]. rewrite encode_block_sextets. cbn -[sextet base64_digit N.add N.mul]. by rewrite N.add_0_r. Qed.
Lemma encode_one a :
  encode_base64 [a]
  = let n := byte_N a * 65536 in [base64_digit (sextet n 0); base64_digit (sextet n 1); pad64; pad64].
Proof. cbn [encode_base64]. rewrite encode_block_sextets. cbn -[sextet base64_digit N.add N.mul]. by rewrite !N.add_0_r. Qed.

(** Lists in blocks of three and of four. *)
Lemma blocks_ind (k : nat) {A} (P : list A → Prop) :
  (0 < k)%nat → (∀ l, (length l < k)%nat → P l) → (∀ h l, length h = k → P l → P (h ++ l)) → ∀ l, P l.
Proof.
  intros Hk Hshort Hlong l. remember (length l) as n eqn:Hn. revert l Hn. induction (lt_wf n) as [n _ IH].
  intros l ->. destruct (Nat.ltb_spec (length l) k) as [Hl|Hl]; [by apply Hshort|].
  rewrite <-(take_drop k l). apply Hlong; [by rewrite length_take, Nat.min_l|].
  eapply IH; [|reflexivity]. rewrite length_drop. lia.
Qed.

(** What the encoder writes: digits that decode, and the padding. *)
Lemma encode_shape l :
  ∃ digits p, encode_base64 l = digits ++ replicate p pad64 ∧ Forall digit64 digits ∧ (p <= 2)%nat
    ∧ (p = O ∨ digits ≠ []) ∧ ((length digits + p) mod 4 = 0)%nat ∧ ∀ bits, decode_base64_loop digits bits 0 = Some l.
Proof.
  pattern l. apply (blocks_ind 3); [lia|intros [|a [|b [|c s]]] Hs|intros h s]; [| | |cbn in Hs; lia|].
  - exists [], O. split_and!; [done|constructor|lia|by left|done|done].
  - rewrite encode_one. set (n := byte_N a * 65536). exists [base64_digit (sextet n 0); base64_digit (sextet n 1)], 2%nat.
    pose proof (sextet_lt n). split_and!; [done|repeat constructor; eexists; by split|lia|by right|done|].
    intros bits. rewrite decode_two by done.
    destruct (block_bytes a Byte.x00 Byte.x00) as (Ha & Hb & _). change (byte_N Byte.x00) with 0 in *.
    rewrite N.mul_0_l, !N.add_0_r in Ha, Hb. fold n in Ha, Hb. rewrite Ha.
    assert (Hz : sextet n 1 mod 16 = 0); [|by rewrite Hz].
    unfold sextet, n. change (2 ^ (18 - 1 * 6)) with 4096. divmod.
  - rewrite encode_two. set (n := byte_N a * 65536 + byte_N b * 256).
    exists [base64_digit (sextet n 0); base64_digit (sextet n 1); base64_digit (sextet n 2)], 1%nat.
    pose proof (sextet_lt n). split_and!; [done|repeat constructor; eexists; by split|lia|by right|done|].
    intros bits. rewrite decode_three by done.
    destruct (block_bytes a b Byte.x00) as (Ha & Hb & _). change (byte_N Byte.x00) with 0 in *.
    rewrite !N.add_0_r in Ha, Hb. fold n in Ha, Hb. rewrite Ha, Hb.
    assert (Hz : sextet n 2 mod 4 = 0); [|by rewrite Hz].
    unfold sextet, n. change (2 ^ (18 - 2 * 6)) with 64. divmod.
  - destruct h as [|a [|b [|c [|]]]]; try done. intros _ (digits & p & He & Hd & Hp & Hz & Hlen & Hdec). cbn [app].
    rewrite encode_full. cbv zeta. rewrite He. set (n := byte_N a * 65536 + byte_N b * 256 + byte_N c).
    pose proof (sextet_lt n).
    exists (base64_digit (sextet n 0) :: base64_digit (sextet n 1) :: base64_digit (sextet n 2) :: base64_digit (sextet n 3) :: digits), p.
    split_and!; [done|repeat (constructor; [eexists; by split|]); done|done|by right| |].
    { cbn [length]. replace (S (S (S (S (length digits)))) + p)%nat with (length digits + p + 1 * 4)%nat by lia.
      by rewrite Nat.Div0.mod_add. }
    intros bits. destruct (decode_four (sextet n 0) (sextet n 1) (sextet n 2) (sextet n 3) digits bits) as [bits' ->]; [done..|].
    rewrite Hdec. cbn. destruct (block_bytes a b c) as (Ha & Hb & Hc). fold n in Ha, Hb, Hc. by rewrite Ha, Hb, Hc.
Qed.

(** What decodes is what the encoder writes. *)
Lemma decode_canonical digits p bits l :
  (p <= 2)%nat → ((length digits + p) mod 4 = 0)%nat → decode_base64_loop digits bits 0 = Some l →
  encode_base64 l = digits ++ replicate p pad64.
Proof.
  intros Hp. revert bits l. pattern digits.
  apply (blocks_ind 4); [lia|intros s Hs|intros h s Hh IH]; intros bits l Hlen Hd; pose proof (decode_digits _ _ _ _ Hd) as Hall.
  - destruct s as [|c0 [|c1 [|c2 [|c3 s]]]]; cbn [length] in Hs, Hlen; [..|lia].
    + cbn in Hd. injection Hd as <-. destruct p as [|[|[|]]]; [done|discriminate Hlen|discriminate Hlen|lia].
    + destruct p as [|[|[|]]]; [discriminate Hlen..|lia].
    + destruct p as [|[|[|]]]; [discriminate Hlen..| |lia].
      apply Forall_cons in Hall as [(d0 & H0 & ->) Hall]. apply Forall_cons in Hall as [(d1 & H1 & ->) _].
      rewrite decode_two in Hd by done. destruct (N.eqb_spec (d1 mod 16) 0) as [Hz|]; [|done]. injection Hd as <-.
      rewrite encode_one. cbv zeta.
      destruct (sextets_inj (byte_N (byte_0 d0 d1) * 65536) d0 d1 0 0) as (-> & -> & _); [done..| |done].
      unfold byte_0. rewrite byte_of_N_small by divmod. divmod.
    + destruct p as [|[|[|]]]; [discriminate Hlen| |discriminate Hlen|lia].
      apply Forall_cons in Hall as [(d0 & H0 & ->) Hall]. apply Forall_cons in Hall as [(d1 & H1 & ->) Hall].
      apply Forall_cons in Hall as [(d2 & H2 & ->) _].
      rewrite decode_three in Hd by done. destruct (N.eqb_spec (d2 mod 4) 0) as [Hz|]; [|done]. injection Hd as <-.
      rewrite encode_two. cbv zeta.
      destruct (sextets_inj (byte_N (byte_0 d0 d1) * 65536 + byte_N (byte_1 d1 d2) * 256) d0 d1 d2 0)
        as (-> & -> & -> & _); [done..| |done].
      unfold byte_0, byte_1. rewrite !byte_of_N_small by divmod. divmod.
  - destruct h as [|c0 [|c1 [|c2 [|c3 [|]]]]]; try done. cbn [app] in *.
    apply Forall_cons in Hall as [(d0 & H0 & ->) Hall]. apply Forall_cons in Hall as [(d1 & H1 & ->) Hall].
    apply Forall_cons in Hall as [(d2 & H2 & ->) Hall]. apply Forall_cons in Hall as [(d3 & H3 & ->) _].
    destruct (decode_four d0 d1 d2 d3 s bits) as [bits' Hfour]; [done..|]. rewrite Hfour in Hd.
    destruct (decode_base64_loop s bits' 0) as [rest|] eqn:Hrest; [|done]. cbn in Hd. injection Hd as <-.
    rewrite encode_full. cbv zeta. rewrite bytes_block by done.
    destruct (sextets_inj (d0 * 262144 + d1 * 4096 + d2 * 64 + d3) d0 d1 d2 d3) as (-> & -> & -> & ->); [done..|].
    do 4 f_equal. apply (IH bits' rest); [|done].
    cbn [length] in Hlen. replace (S (S (S (S (length s)))) + p)%nat with (length s + p + 1 * 4)%nat in Hlen by lia.
    by rewrite Nat.Div0.mod_add in Hlen.
Qed.

Lemma padding_of_app k l :
  match l with c :: _ => c ≠ pad64 | [] => True end → padding_of (replicate k pad64 ++ l) = k.
Proof.
  intros Hl. induction k as [|k IH]; cbn.
  - destruct l as [|c l]; [done|]. cbn. by rewrite bool_decide_eq_false_2.
  - by rewrite IH.
Qed.
Lemma padding_of_spec l : ∃ rest, l = replicate (padding_of l) pad64 ++ rest.
Proof.
  induction l as [|c l [rest IH]]; [by exists []|]. cbn. case_bool_decide as Hc; [|by exists (c :: l)].
  exists rest. cbn. by rewrite Hc, <-IH.
Qed.

(** Base64 in one spelling only: a text decodes to some bytes exactly when there are some and it is what
    the encoder writes of them. *)
Lemma base64_exact value l :
  decode_base64 value = Some l ↔ l ≠ [] ∧ value = encode_base64 l.
Proof.
  unfold decode_base64. split.
  - case_bool_decide as Hv; [done|]. cbn [orb]. destruct (N.eqb_spec (lenN value mod 4) 0) as [H4|]; [|done]. cbn [negb].
    destruct (padding_of_spec (reverse value)) as [rest Hrest]. set (p := padding_of (reverse value)) in *.
    destruct (Nat.ltb_spec 2 p) as [|Hp]; [done|]. intros Hd.
    apply (f_equal reverse) in Hrest. rewrite reverse_involutive, reverse_app, reverse_replicate in Hrest.
    set (digits := reverse rest) in *. rewrite Hrest in Hd. rewrite length_app, length_replicate in Hd.
    replace (length digits + p - p)%nat with (length digits) in Hd by lia. rewrite take_app_length in Hd.
    assert (Hl : encode_base64 l = value).
    { rewrite Hrest. apply (decode_canonical digits p 0 l Hp); [|done].
      rewrite Hrest in H4. unfold lenN in H4. rewrite length_app, length_replicate in H4.
      rewrite <-(Nat2N.inj_iff _ 0), Nat2N.inj_mod. exact H4. }
    split; [|done]. intros ->. apply Hv. by rewrite <-Hl.
  - intros [Hl ->]. destruct (encode_shape l) as (digits & p & He & Hd & Hp & Hz & Hlen & Hdec). rewrite He.
    assert (Hne : digits ++ replicate p pad64 ≠ []).
    { destruct digits; [|done]. cbn. destruct Hz as [->|]; [|done]. cbn. intros _. specialize (Hdec 0). cbn in Hdec. congruence. }
    rewrite bool_decide_eq_false_2 by done. cbn [orb]. unfold lenN. rewrite length_app, length_replicate.
    assert (H4 : N.of_nat (length digits + p) mod 4 = 0).
    { change 4 with (N.of_nat 4). by rewrite <-Nat2N.inj_mod, Hlen. }
    rewrite H4. cbn [negb N.eqb]. rewrite reverse_app, reverse_replicate, padding_of_app.
    + rewrite (proj2 (Nat.ltb_ge _ _)) by done.
      replace (length digits + p - p)%nat with (length digits) by lia. by rewrite take_app_length.
    + destruct (reverse digits) as [|c rest] eqn:Hr; [done|]. apply digit64_not_pad.
      apply Forall_reverse in Hd. rewrite Hr in Hd. by apply Forall_cons in Hd as [? _].
Qed.

(** The characters of a text. *)
Lemma encode_chars l c : c ∈ encode_base64 l → byte_N c < 128 ∧ is_whitespace (byte_N c) = false ∧ c ≠ Byte.x0a.
Proof.
  destruct (encode_shape l) as (digits & p & -> & Hd & _). intros [Hc|Hc]%elem_of_app.
  - rewrite Forall_forall in Hd. destruct (Hd c Hc) as (d & Hlt & ->).
    pose proof (all_below 64 (λ d, (byte_N (base64_digit d) <? 128) && negb (is_whitespace (byte_N (base64_digit d)))
      && negb (bool_decide (base64_digit d = Byte.x0a))) eq_refl d Hlt) as Hb.
    rewrite !andb_true_iff, !negb_true_iff, N.ltb_lt, bool_decide_eq_false in Hb. tauto.
  - apply elem_of_replicate in Hc as [-> _]. by vm_compute.
Qed.
Lemma encode_length l : (length (encode_base64 l) * 3 <= 4 * (length l + 2))%nat.
Proof.
  pattern l. apply (blocks_ind 3); [lia|intros [|a [|b [|c s]]] Hs|intros h s]; [cbn; lia|rewrite encode_one; cbn; lia
    |rewrite encode_two; cbn; lia|cbn in Hs; lia|].
  destruct h as [|a [|b [|c [|]]]]; try done. intros _ IH. cbn [app]. rewrite encode_full. cbn [length]. lia.
Qed.
