(* ===== verification/Profiles.v ===== *)
(** * Display names ([net/profiles.rs])

    The store of names by client id, its file of JSON, and the line protocol that serves it.  The
    file is written as characters and read back with the small reader of the code; [fields] and
    [entries_from] have fuel, one more than the characters left, which is enough since every pass
    reads some ([fields_fuel], [entries_from_fuel]).

    [serve_profiles] is one connection by itself.  The connections of the process share the store
    and are served in turns that end where one waits to read or to write; a request is handled in
    one such turn.  What many connections do to the store is thus [handle] on some sequence of
    their requests, [ProfileClaims.handle_all]. *)
From S2P Require Export Lines Base64 World.
From Stdlib Require Import Lia ZifyN ZifyNat ZifyBool.

Open Scope N_scope.

Definition MAX_PROFILE_LINE : N := 512.
Definition MAX_REQUESTS_PER_CONNECTION : nat := 8.
Definition MAX_PROFILES : N := 10000.
Definition MAX_NAME_CHARS : N := 64.

Record Profile := mkProfile { pf_name : list N; pf_updated_ms : u64 }.

Definition is_client_id (value : list N) : bool :=
  let l := utf8 value in
  (lenN l =? 32) && forallb (λ byte, in_range 48 57 byte || in_range 97 102 byte) l.

Definition normalize_name (value : list N) : option (list N) :=
  let trimmed := trim value in
  if (lenN trimmed =? 0) || (MAX_NAME_CHARS <? lenN trimmed) || existsb is_control trimmed then None
  else Some trimmed.

(** ** The file *)

Definition quote : N := 34.
Definition backslash : N := 92.

Definition escape (value : list N) : list N :=
  mbind (λ c, if c =? quote then [backslash; quote] else if c =? backslash then [backslash; backslash] else [c]) value.

Definition encode_entry (entry : list N * Profile) : list N :=
  let '(client_id, profile) := entry in
  quote :: client_id ++ quote :: str ":{" ++ quote :: str "name" ++ quote :: str ":" ++ quote :: escape (pf_name profile)
  ++ quote :: str "," ++ quote :: str "updatedMs" ++ quote :: str ":" ++ decimal (pf_updated_ms profile) ++ str "}".

Fixpoint encode_list (l : list (list N * Profile)) : list N :=
  match l with
  | [] => []
  | [entry] => encode_entry entry
  | entry :: l => encode_entry entry ++ str "," ++ encode_list l
  end.
Definition encode_profiles (entries : gmap (list N) Profile) : list N :=
  str "{" ++ encode_list (sorted_entries entries) ++ str "}".

(** [Cursor]: the characters from its index on. *)
Definition Cursor : Type := list N.

Fixpoint skip_whitespace (c : Cursor) : Cursor :=
  match c with
  | character :: c' => if is_ascii_whitespace character then skip_whitespace c' else c
  | [] => []
  end.
Definition eat (expected : N) (c : Cursor) : bool * Cursor :=
  let c := skip_whitespace c in
  match c with
  | character :: c' => if character =? expected then (true, c') else (false, c)
  | [] => (false, [])
  end.
Definition expect (expected : N) (c : Cursor) : option Cursor :=
  let '(found, c) := eat expected c in if found : bool then Some c else None.

(** [char::to_digit(16)] *)
Definition to_digit_16 (c : N) : option N :=
  if (48 <=? c) && (c <=? 57) then Some (c - 48)
  else if (97 <=? c) && (c <=? 102) then Some (c - 97 + 10)
  else if (65 <=? c) && (c <=? 70) then Some (c - 65 + 10)
  else None.
Definition unicode (h0 h1 h2 h3 : N) : option N :=
  d0 ← to_digit_16 h0; d1 ← to_digit_16 h1; d2 ← to_digit_16 h2; d3 ← to_digit_16 h3;
  let code := ((d0 * 16 + d1) * 16 + d2) * 16 + d3 in
  if scalar code then Some code else None.

Definition unescape (escaped : N) : option N :=
  if escaped =? quote then Some quote
  else if escaped =? backslash then Some backslash
  else if escaped =? 47 then Some 47
  else if escaped =? 110 then Some 10
  else if escaped =? 114 then Some 13
  else if escaped =? 116 then Some 9
  else if escaped =? 98 then Some 8
  else if escaped =? 102 then Some 12
  else None.

(** The rest of a string, after its opening quote. *)
Fixpoint string_from (c : Cursor) : option (list N * Cursor) :=
  match c with
  | [] => None
  | character :: c =>
      if character =? quote then Some ([], c)
      else if character =? backslash then
        match c with
        | [] => None
        | escaped :: c =>
            if escaped =? 117 then
              match c with
              | h0 :: h1 :: h2 :: h3 :: c =>
                  x ← unicode h0 h1 h2 h3;
                  '(value, c) ← string_from c;
                  Some (x :: value, c)
              | _ => None
              end
            else
              x ← unescape escaped;
              '(value, c) ← string_from c;
              Some (x :: value, c)
        end
      else
        '(value, c) ← string_from c;
        Some (character :: value, c)
  end.
Definition cursor_string (c : Cursor) : option (list N * Cursor) :=
  c ← expect quote c; string_from c.

Fixpoint take_digits (c : Cursor) : list N * Cursor :=
  match c with
  | character :: c' =>
      if is_digit character then let '(digits, c) := take_digits c' in (character :: digits, c) else ([], c)
  | [] => ([], [])
  end.
Definition cursor_number (c : Cursor) : option (u64 * Cursor) :=
  let '(digits, c) := take_digits (skip_whitespace c) in
  n ← parse_digits digits;
  Some (n, c).

(** The inner loop: the fields of a profile. *)
Fixpoint fields (fuel : nat) (name : option (list N)) (updated_ms : option u64) (c : Cursor)
    : option (option (list N) * option u64 * Cursor) :=
  match fuel with
  | O => None
  | S fuel =>
      '(key, c) ← cursor_string c;
      '(name, updated_ms, c) ←
        (if bool_decide (key = str "name") then
           c ← expect 58 c; '(value, c) ← cursor_string c; Some (Some value, updated_ms, c)
         else if bool_decide (key = str "updatedMs") then
           c ← expect 58 c; '(value, c) ← cursor_number c; Some (name, Some value, c)
         else None);
      let '(more, c) := eat 44 c in
      if more : bool then fields fuel name updated_ms c else Some (name, updated_ms, c)
  end.

(** The outer loop. *)
Fixpoint entries_from (fuel : nat) (entries : gmap (list N) Profile) (c : Cursor)
    : option (gmap (list N) Profile * Cursor) :=
  match fuel with
  | O => None
  | S fuel =>
      '(client_id, c) ← cursor_string c;
      c ← expect 58 c;
      c ← expect 123 c;
      '(name, updated_ms, c) ← fields (S (length c)) None None c;
      c ← expect 125 c;
      if negb (is_client_id client_id) || (MAX_PROFILES <=? map_len entries) then None else
      name ← name ≫= normalize_name;
      updated_ms ← updated_ms;
      let entries := <[client_id := mkProfile name updated_ms]> entries in
      let '(more, c) := eat 44 c in
      if more : bool then entries_from fuel entries c else Some (entries, c)
  end.

Definition decode_profiles (l : bytes) : option (gmap (list N) Profile) :=
  text ← from_utf8 l;
  c ← expect 123 text;
  let '(empty, c) := eat 125 c in
  '(entries, c) ← (if empty : bool then Some (∅, c)
                   else '(entries, c) ← entries_from (S (length c)) ∅ c; c ← expect 125 c; Some (entries, c));
  if bool_decide (skip_whitespace c = []) then Some entries else None.

(** ** The store *)

Section store.
Context `{Oracle, IoText}.

(** [ProfileStore], its file and the number of oracle calls made. *)
Record ProfileStore := mkProfileStore {
  ps_entries : gmap (list N) Profile;
  ps_file : option bytes;
  ps_tick : nat;
}.

(** [open], of what reading the file gave. *)
Definition ProfileStore_open (read : Result (option bytes)) : gmap (list N) Profile :=
  match read with
  | Ok (Some l) => if bool_decide (l = []) then ∅ else default ∅ (decode_profiles l)
  | Ok None | Err _ => ∅
  end.

Definition ProfileStore_get (client_id : list N) (s : ProfileStore) : option (list N) :=
  pf_name <$> ps_entries s !! client_id.

(** [min_by_key]: the first of the entries with the least time. *)
Fixpoint oldest (l : list (list N * Profile)) : option (list N * Profile) :=
  match l with
  | [] => None
  | entry :: l =>
      match oldest l with
      | Some other => if ltb (pf_updated_ms other.2) (pf_updated_ms entry.2) then Some other else Some entry
      | None => Some entry
      end
  end.
Definition evicted (client_id : list N) (entries : gmap (list N) Profile) : option (list N) :=
  fst <$> oldest (filter (λ entry, entry.1 ≠ client_id) (sorted_entries entries)).

Fixpoint evict (fuel : nat) (client_id : list N) (entries : gmap (list N) Profile) : gmap (list N) Profile :=
  match fuel with
  | O => entries
  | S fuel =>
      if MAX_PROFILES <? map_len entries then
        match evicted client_id entries with
        | Some id => evict fuel client_id (delete id entries)
        | None => entries
        end
      else entries
  end.

Definition store_draw {A} (f : nat → A) : SM ProfileStore A := λ s,
  (Ok (f (ps_tick s)), mkProfileStore (ps_entries s) (ps_file s) (S (ps_tick s))).

Definition write_profiles (io : WriteOutcome) (content : bytes) : SM ProfileStore unit := λ s,
  let '(r, file) := atomic_write MAX_STORE_BYTES "keystore file is too large" io (ps_file s) content in
  (r, mkProfileStore (ps_entries s) file (ps_tick s)).

Definition ProfileStore_put (client_id name : list N) : SM ProfileStore unit :=
  do! s := sm_get in
  do! now := store_draw oc_unix_millis in
  let entries := <[client_id := mkProfile name now]> (ps_entries s) in
  let entries := evict (size entries) client_id entries in
  do! io := store_draw oc_write in
  do! _ := write_profiles io (utf8 (encode_profiles entries)) in
  do! s := sm_get in
  sm_put (mkProfileStore entries (ps_file s) (ps_tick s)).

(** ** Requests *)

Definition put_reply (client_id name_b64 : list N) : SM ProfileStore (list N) :=
  if negb (is_client_id client_id) then sm_ret (str "ERR bad client id") else
  match (decode_base64 (utf8 name_b64) ≫= from_utf8) ≫= normalize_name with
  | None => sm_ret (str "ERR bad name")
  | Some name => λ s,
      match ProfileStore_put client_id name s with
      | (Ok _, s) => (Ok (str "OK"), s)
      | (Err e, s) => (Ok (str "ERR " ++ one_line (Error_to_string e)), s)
      end
  end.

Definition get_reply (client_id : list N) : SM ProfileStore (list N) :=
  if negb (is_client_id client_id) then sm_ret (str "ERR bad client id") else
  do! s := sm_get in
  match ProfileStore_get client_id s with
  | Some name => sm_ret (str "OK " ++ map byte_N (encode_base64 (utf8 name)))
  | None => sm_ret (str "ERR not found")
  end.

Definition handle (line : list N) : SM ProfileStore (list N) :=
  match split_whitespace line with
  | [] => sm_ret (str "ERR unknown command")
  | command :: words =>
      if bool_decide (command = str "PING") then sm_ret (str "OK")
      else if bool_decide (command = str "PROFILE_PUT") then
        match words with
        | client_id :: name :: _ => put_reply client_id name
        | _ => sm_ret (str "ERR bad request")
        end
      else if bool_decide (command = str "PROFILE_GET") then
        match words with
        | client_id :: _ => get_reply client_id
        | [] => sm_ret (str "ERR bad request")
        end
      else sm_ret (str "ERR unknown command")
  end.

(** ** A connection *)

(** The store, the connection's reader, how its writes end and the lines sent. *)
Record ProfileConn := mkProfileConn {
  pc_store : ProfileStore;
  pc_reader : LineReader;
  pc_writes : list (Result unit);
  pc_sent : list (list N);
}.
Definition set_pc_store v c := mkProfileConn v (pc_reader c) (pc_writes c) (pc_sent c).
Definition set_pc_reader v c := mkProfileConn (pc_store c) v (pc_writes c) (pc_sent c).

(** [write_line]; a connection without writes left is closed. *)
Definition write_line (text : list N) : SM ProfileConn unit := λ c,
  match pc_writes c with
  | Ok _ :: writes => (Ok tt, mkProfileConn (pc_store c) (pc_reader c) writes (pc_sent c ++ [text]))
  | Err e :: writes => (Err e, mkProfileConn (pc_store c) (pc_reader c) writes (pc_sent c))
  | [] => (Err (Io OtherIo), c)
  end.

Definition profile_line : SM ProfileConn (option (list N)) :=
  sm_zoom pc_reader set_pc_reader
    (read_line MAX_PROFILE_LINE "profile line is too long" "profile line is not UTF-8").

Fixpoint serve_requests (n : nat) : SM ProfileConn unit :=
  match n with
  | O => sm_ret tt
  | S n =>
      do! line := profile_line in
      match line with
      | None => sm_ret tt
      | Some [] => serve_requests n
      | Some line =>
          do! reply := sm_zoom pc_store set_pc_store (handle line) in
          do! _ := write_line reply in
          serve_requests n
      end
  end.
Definition serve_profiles : SM ProfileConn unit := serve_requests MAX_REQUESTS_PER_CONNECTION.
End store.
