(* ===== verification/ProfileClaims.v ===== *)
(** * What the store of display names guarantees

    [profiles_reopen]: after any requests, of whichever connections, the store serves the last put
    that succeeded and its file opens as the entries of the last put whose write took its place.
    [put_then_get]: what a request to store a name and a later one to read it reply. *)
From S2P Require Export Profiles.
From Stdlib Require Import Lia ZifyN ZifyNat ZifyBool.

Open Scope N_scope.

(** ** The reader ends *)

Lemma skip_length c : (length (skip_whitespace c) <= length c)%nat.
Proof. induction c as [|x c IH]; [done|]. cbn. destruct (is_ascii_whitespace x); cbn; lia. Qed.
Lemma eat_length expected c :
  let '(found, c') := eat expected c in (length c' + (if found : bool then 1 else 0) <= length c)%nat.
Proof.
  unfold eat. pose proof (skip_length c). destruct (skip_whitespace c) as [|x c']; [cbn; lia|].
  destruct (x =? expected); cbn in *; lia.
Qed.
Lemma expect_length expected c c' : expect expected c = Some c' → (length c' < length c)%nat.
Proof.
  unfold expect. pose proof (eat_length expected c) as He. destruct (eat expected c) as [[] d]; [|done].
  intros [= <-]. lia.
Qed.
Lemma string_from_length c value c' : string_from c = Some (value, c') → (length c' < length c)%nat.
Proof.
  remember (length c) as n eqn:Hn. revert c value c' Hn. induction (lt_wf n) as [n _ IH].
  assert (Hrest : ∀ c k value c', string_from c = Some (value, c') → (length c + S k = n)%nat → (length c' < n)%nat).
  { intros c k value c' Hs Hl. pose proof (IH (length c) ltac:(lia) c value c' eq_refl Hs). lia. }
  intros [|x c] value c' -> Hs; [done|]. cbn [string_from] in Hs. destruct (x =? quote); [simplify_eq; cbn; lia|].
  destruct (x =? backslash).
  - destruct c as [|escaped c]; [done|]. destruct (escaped =? 117).
    + destruct c as [|h0 [|h1 [|h2 [|h3 c]]]]; try done. destruct (unicode h0 h1 h2 h3); [|done]. cbn in Hs.
      destruct (string_from c) as [[v d]|] eqn:Hd; [|done]. cbn in Hs. simplify_eq.
      apply (Hrest c 5%nat v c' Hd). cbn. lia.
    + destruct (unescape escaped); [|done]. cbn in Hs.
      destruct (string_from c) as [[v d]|] eqn:Hd; [|done]. cbn in Hs. simplify_eq.
      apply (Hrest c 1%nat v c' Hd). cbn. lia.
  - destruct (string_from c) as [[v d]|] eqn:Hd; [|done]. cbn in Hs. simplify_eq. apply (Hrest c 0%nat v c' Hd). cbn. lia.
Qed.
Lemma cursor_string_length c value c' : cursor_string c = Some (value, c') → (length c' < length c)%nat.
Proof.
  unfold cursor_string. destruct (expect quote c) as [d|] eqn:Hd; [|done]. cbn. intros Hs%string_from_length.
  apply expect_length in Hd. lia.
Qed.
Lemma take_digits_length c : let '(_, c') := take_digits c in (length c' <= length c)%nat.
Proof.
  induction c as [|x c IH]; [cbn; lia|]. cbn. destruct (is_digit x); [|cbn; lia].
  destruct (take_digits c) as [digits d]. cbn. lia.
Qed.
Lemma cursor_number_length c n c' : cursor_number c = Some (n, c') → (length c' <= length c)%nat.
Proof.
  unfold cursor_number. pose proof (take_digits_length (skip_whitespace c)) as Ht. pose proof (skip_length c).
  destruct (take_digits _) as [digits d]. destruct (parse_digits digits); [|done]. cbn. intros [= _ <-]. lia.
Qed.

(** The fields end with less to read, and more fuel changes nothing. *)
Lemma fields_fuel fuel name updated_ms c :
  (length c < fuel)%nat →
  fields fuel name updated_ms c = fields (S (length c)) name updated_ms c
  ∧ ∀ r c', fields fuel name updated_ms c = Some (r, c') → (length c' < length c)%nat.
Proof.
  enough (Hgen : ∀ n fuel name updated_ms c, (length c < n)%nat → (n <= fuel)%nat →
    fields fuel name updated_ms c = fields n name updated_ms c
    ∧ ∀ r c', fields fuel name updated_ms c = Some (r, c') → (length c' < length c)%nat)
    by (intros Hf; apply Hgen; lia).
  clear fuel name updated_ms c. induction n as [|n IH]; intros fuel name updated_ms c Hc Hf; [lia|].
  destruct fuel as [|fuel]; [lia|]. cbn [fields].
  destruct (cursor_string c) as [[key c1]|] eqn:H1; cbn [mbind option_bind]; [|done]. apply cursor_string_length in H1.
  match goal with |- context [if bool_decide (key = str "name") then ?a else ?b] =>
    set (value := if bool_decide (key = str "name") then a else b) end.
  assert (Hvalue : ∀ x c2, value = Some (x, c2) → (length c2 < length c1)%nat).
  { unfold value. intros x c2. case_bool_decide; [|case_bool_decide; [|done]];
      (destruct (expect 58 c1) as [c3|] eqn:H3; cbn [mbind option_bind]; [|done]; apply expect_length in H3).
    - destruct (cursor_string c3) as [[v c4]|] eqn:H4; [|done]. apply cursor_string_length in H4. cbn.
      intros [= _ <-]. lia.
    - destruct (cursor_number c3) as [[v c4]|] eqn:H4; [|done]. apply cursor_number_length in H4. cbn.
      intros [= _ <-]. lia. }
  destruct value as [[[name' updated'] c2]|]; cbn [mbind option_bind]; [|done]. specialize (Hvalue _ _ eq_refl).
  pose proof (eat_length 44 c2) as H4. destruct (eat 44 c2) as [[] c5].
  - destruct (IH fuel name' updated' c5) as [-> Hr]; [lia..|]. split; [done|]. intros r c' Hc'.
    pose proof (IH n name' updated' c5 ltac:(lia) ltac:(lia)) as [_ Hr']. apply Hr' in Hc'. lia.
  - split; [done|]. intros r c' [= _ <-]. lia.
Qed.

Lemma entries_from_fuel fuel entries c :
  (length c < fuel)%nat → entries_from fuel entries c = entries_from (S (length c)) entries c.
Proof.
  enough (Hgen : ∀ n fuel entries c, (length c < n)%nat → (n <= fuel)%nat →
    entries_from fuel entries c = entries_from n entries c) by (intros Hf; apply Hgen; lia).
  clear fuel entries c. induction n as [|n IH]; intros fuel entries c Hc Hf; [lia|].
  destruct fuel as [|fuel]; [lia|]. cbn [entries_from].
  destruct (cursor_string c) as [[id c1]|] eqn:H1; cbn [mbind option_bind]; [|done]. apply cursor_string_length in H1.
  destruct (expect 58 c1) as [c2|] eqn:H2; cbn [mbind option_bind]; [|done]. apply expect_length in H2.
  destruct (expect 123 c2) as [c3|] eqn:H3; cbn [mbind option_bind]; [|done]. apply expect_length in H3.
  destruct (fields _ None None c3) as [[[name updated] c4]|] eqn:H4; cbn [mbind option_bind]; [|done].
  apply fields_fuel in H4; [|lia].
  destruct (expect 125 c4) as [c5|] eqn:H5; cbn [mbind option_bind]; [|done]. apply expect_length in H5.
  destruct (_ || _); [done|]. destruct (name ≫= normalize_name); cbn [mbind option_bind]; [|done].
  destruct updated; cbn [mbind option_bind]; [|done].
  pose proof (eat_length 44 c5) as H6. destruct (eat 44 c5) as [[] c6]; [|done]. apply IH; lia.
Qed.

(** ** Reading what was written *)






(** ** Well-formed stores *)

Definition client_id_ok (id : list N) : Prop := string_ok id ∧ is_client_id id = true.
Definition profile_ok (p : Profile) : Prop := string_ok (pf_name p) ∧ normalize_name (pf_name p) = Some (pf_name p).
Definition entries_ok (entries : gmap (list N) Profile) : Prop :=
  map_len entries <= MAX_PROFILES ∧ ∀ id p, entries !! id = Some p → client_id_ok id ∧ profile_ok p.


Lemma client_id_chars id : client_id_ok id → Forall (λ x, x < 128 ∧ x ≠ quote ∧ x ≠ backslash) id.
Proof.
  intros [Hs [_ Hall]%andb_true_iff]. rewrite forallb_forall in Hall. rewrite Forall_forall. intros x Hx.
  assert (Hin : ∀ b, b ∈ utf8_char x → in_range 48 57 b || in_range 97 102 b = true).
  { intros b Hb. apply Hall, list_elem_of_In. unfold utf8. apply list_elem_of_bind. by exists x. }
  assert (Hlt : x < 128).
  { destruct (N.ltb_spec x 128); [done|]. exfalso. unfold string_ok in Hs. rewrite Forall_forall in Hs.
    pose proof (Hs x Hx) as Hx'. unfold scalar in Hx'. revert Hin. unfold utf8_char.
    rewrite (proj2 (N.ltb_ge x 128)) by done. intros Hin.
    destruct (x <? 2048) eqn:?; [specialize (Hin (byte_of_N (192 + x / 64)) ltac:(by left))|
      destruct (x <? 65536) eqn:?; [specialize (Hin (byte_of_N (224 + x / 4096)) ltac:(by left))|
        specialize (Hin (byte_of_N (240 + x / 262144)) ltac:(by left))]];
      unfold in_range in Hin; rewrite byte_of_N_small in Hin by divmod; lia. }
  specialize (Hin (byte_of_N x)). unfold utf8_char in Hin. rewrite (proj2 (N.ltb_lt x 128)) in Hin by done.
  specialize (Hin ltac:(by left)). unfold in_range in Hin. rewrite byte_of_N_small in Hin by lia.
  unfold quote, backslash. lia.
Qed.





(** ** The file is characters *)

Lemma ascii_ok s : Forall (λ c, c < 128) s → string_ok s.
Proof. intros Hs. eapply Forall_impl; [exact Hs|]. cbn. unfold scalar. lia. Qed.


(** ** Sizes *)

Lemma utf8_char_length c : (length (utf8_char c) <= 4)%nat.
Proof. unfold utf8_char. repeat case_match; cbn; lia. Qed.
Lemma utf8_app a b : utf8 (a ++ b) = utf8 a ++ utf8 b.
Proof. apply bind_app. Qed.
Lemma utf8_cons c s : utf8 (c :: s) = utf8_char c ++ utf8 s.
Proof. done. Qed.
Lemma utf8_length s : (length (utf8 s) <= 4 * length s)%nat.
Proof.
  induction s as [|c s IH]; [done|]. rewrite utf8_cons, length_app. pose proof (utf8_char_length c). cbn [length]. lia.
Qed.
Lemma escape_length s : (length (escape s) <= 2 * length s)%nat.
Proof.
  unfold escape. induction s as [|c s IH]; [done|]. cbn [mbind list_bind]. rewrite length_app. cbn [length].
  destruct (c =? quote); [cbn; lia|]. destruct (c =? backslash); cbn; lia.
Qed.
Lemma decimal_length n : (length (decimal n) <= 20)%nat.
Proof.
  unfold decimal. generalize 20%nat. intros fuel. revert n. induction fuel as [|fuel IH]; intros n; [done|].
  cbn [decimal_fuel]. destruct (n <? 10); [cbn; lia|]. rewrite length_app. specialize (IH (n / 10)). cbn. lia.
Qed.
Lemma normal_length name : normalize_name name = Some name → (length name <= 64)%nat.
Proof.
  unfold normalize_name. destruct (_ || _) eqn:Hb; [done|]. intros [= Hn]. rewrite !orb_false_iff in Hb.
  destruct Hb as [[_ Hl%N.ltb_ge] _]. rewrite Hn in Hl. unfold lenN, MAX_NAME_CHARS in Hl. lia.
Qed.
Lemma utf8_ascii_length s : Forall (λ c, c < 128) s → length (utf8 s) = length s.
Proof. intros Hs. by rewrite utf8_ascii, length_map. Qed.
Lemma client_id_length id : client_id_ok id → length id = 32%nat.
Proof.
  intros Hid. pose proof (client_id_chars id Hid) as Hc. destruct Hid as [_ [Hl%N.eqb_eq _]%andb_true_iff].
  unfold lenN in Hl. rewrite utf8_ascii_length in Hl; [lia|]. eapply Forall_impl; [exact Hc|]. by intros x [? _].
Qed.
Lemma encode_entry_length id p : client_id_ok id → profile_ok p → (length (encode_entry (id, p)) <= 210)%nat.
Proof.
  intros Hid [_ Hn]. pose proof (client_id_length id Hid). pose proof (escape_length (pf_name p)).
  pose proof (normal_length _ Hn). pose proof (decimal_length (pf_updated_ms p)).
  unfold encode_entry. repeat (rewrite length_app || cbn [length]).
  repeat match goal with |- context [length (str ?s)] =>
    let n := eval vm_compute in (length (str s)) in change (length (str s)) with n end. lia.
Qed.
Lemma encode_list_bound l :
  Forall (λ e, client_id_ok e.1 ∧ profile_ok e.2) l → (length (encode_list l) <= 211 * length l)%nat.
Proof.
  induction 1 as [|[id p] l [Hid Hp] Hl IH]; [done|]. pose proof (encode_entry_length id p Hid Hp).
  destruct l as [|e l]; [cbn [encode_list length]; lia|].
  change (encode_list ((id, p) :: e :: l)) with (encode_entry (id, p) ++ 44 :: encode_list (e :: l)).
  rewrite length_app. change (length (44 :: ?x)) with (S (length x)).
  change (length ((id, p) :: e :: l)) with (S (length (e :: l))). lia.
Qed.

Lemma entries_list_ok entries : entries_ok entries → Forall (λ e, client_id_ok e.1 ∧ profile_ok e.2) (sorted_entries entries).
Proof. intros [_ Hall]. apply Forall_forall. intros [id p] Hin%elem_of_sorted_entries. by apply Hall. Qed.

(** A full store's file is far below the limit on files. *)
Lemma encode_profiles_fits entries : entries_ok entries → lenN (utf8 (encode_profiles entries)) <= MAX_STORE_BYTES.
Proof.
  intros Hok. pose proof (encode_list_bound _ (entries_list_ok _ Hok)) as Hl. destruct Hok as [Hlen _].
  rewrite length_sorted_entries in Hl. pose proof (utf8_length (encode_profiles entries)) as Hu.
  unfold encode_profiles in Hu at 2. change (str "{" ++ ?x ++ str "}") with (123 :: x ++ [125]) in Hu.
  cbn [length] in Hu. rewrite length_app in Hu. cbn [length] in Hu.
  unfold map_len, MAX_PROFILES, lenN, MAX_STORE_BYTES in *. lia.
Qed.

(** ** Storing a name *)

Section put.
Context `{Oracle, IoText}.

Lemma oldest_least l e : oldest l = Some e → e ∈ l ∧ ∀ e', e' ∈ l → u64_N (pf_updated_ms e.2) <= u64_N (pf_updated_ms e'.2).
Proof.
  revert e. induction l as [|x l IH]; intros e; [done|]. cbn [oldest]. destruct (oldest l) as [y|] eqn:Ho.
  - destruct (IH y eq_refl) as [Hy Hall]. destruct (ltb (pf_updated_ms y.2) (pf_updated_ms x.2)) eqn:Hlt; intros [= <-];
      unfold ltb, u64_ord in Hlt.
    + split; [by right|]. intros e' [->|He']%elem_of_cons; [lia|by apply Hall].
    + split; [by left|]. intros e' [->|He']%elem_of_cons; [lia|]. specialize (Hall e' He'). lia.
  - intros [= <-]. split; [by left|]. destruct l as [|z l].
    + by intros e' ->%list_elem_of_singleton.
    + exfalso. cbn in Ho. by destruct (oldest l) as [w|]; [destruct (ltb _ _)|].
Qed.
Lemma oldest_None l : oldest l = None → l = [].
Proof. destruct l as [|x l]; [done|]. cbn. by destruct (oldest l) as [w|]; [destruct (ltb _ _)|]. Qed.

(** What making room does: at most one entry goes, another client's with the least time. *)
Definition made_room (client_id : list N) (entries entries' : gmap (list N) Profile) : Prop :=
  entries' = entries
  ∨ ∃ id p, MAX_PROFILES < map_len entries ∧ id ≠ client_id ∧ entries !! id = Some p ∧ entries' = delete id entries
      ∧ ∀ id' p', entries !! id' = Some p' → id' ≠ client_id →
          u64_N (pf_updated_ms p) <= u64_N (pf_updated_ms p').

Lemma map_len_delete {A} (m : gmap (list N) A) k v : m !! k = Some v → map_len m = map_len (delete k m) + 1.
Proof.
  intros Hk. unfold map_len. rewrite map_size_delete_Some by by exists v.
  assert (size m ≠ 0)%nat; [|lia]. intros Hz%map_size_empty_inv. by rewrite Hz, lookup_empty in Hk.
Qed.

Lemma evict_exact fuel client_id entries :
  map_len entries <= MAX_PROFILES + 1 → (map_len entries <= N.of_nat fuel) →
  map_len (evict fuel client_id entries) <= MAX_PROFILES ∧ made_room client_id entries (evict fuel client_id entries).
Proof.
  intros Hlen Hf. destruct (N.ltb_spec MAX_PROFILES (map_len entries)) as [Hfull|Hroom].
  2: { assert (He : evict fuel client_id entries = entries); [|rewrite He; split; [done|by left]].
       destruct fuel as [|fuel]; [done|]. cbn. by rewrite (proj2 (N.ltb_ge _ _) Hroom). }
  destruct fuel as [|fuel]; [unfold MAX_PROFILES in *; lia|]. cbn [evict]. rewrite (proj2 (N.ltb_lt _ _) Hfull).
  unfold evicted. destruct (oldest _) as [[id p]|] eqn:Ho; cbn [fmap option_fmap option_map fst].
  - apply oldest_least in Ho as [Hin Hleast]. apply list_elem_of_filter in Hin as [Hid Hin%elem_of_sorted_entries].
    cbn [fst snd] in *. pose proof (map_len_delete entries id p Hin) as Hdel.
    assert (He : evict fuel client_id (delete id entries) = delete id entries).
    { destruct fuel as [|fuel]; [done|]. cbn. by rewrite (proj2 (N.ltb_ge _ _)) by lia. }
    rewrite He. split; [lia|]. right. exists id, p. split_and!; [done|done|done|done|].
    intros id' p' Hp' Hne. apply (Hleast (id', p')). apply list_elem_of_filter. split; [done|]. by apply elem_of_sorted_entries.
  - apply oldest_None in Ho. exfalso.
    assert (Hnone : delete client_id entries = ∅).
    { apply map_eq. intros k. rewrite lookup_empty. destruct (decide (k = client_id)) as [->|Hne]; [by simplify_map_eq|].
      rewrite lookup_delete_ne by done. destruct (entries !! k) as [v|] eqn:Hk; [|done].
      assert (Hin : (k, v) ∈ []); [|by apply not_elem_of_nil in Hin].
      rewrite <-Ho. apply list_elem_of_filter. split; [done|]. by apply elem_of_sorted_entries. }
    destruct (entries !! client_id) as [v|] eqn:Hk.
    + apply map_len_delete in Hk. rewrite Hnone in Hk. unfold map_len, MAX_PROFILES in *. rewrite map_size_empty in *. lia.
    + rewrite delete_id in Hnone by done. subst entries. by vm_compute in Hfull.
Qed.

Lemma entries_ok_insert (client_id : list N) (p : Profile) (entries : gmap (list N) Profile) :
  (∀ id p, entries !! id = Some p → client_id_ok id ∧ profile_ok p) → client_id_ok client_id → profile_ok p →
  ∀ id q, <[client_id := p]> entries !! id = Some q → client_id_ok id ∧ profile_ok q.
Proof. intros Hall Hid Hp id q [[<- <-]|[_ Hq]]%lookup_insert_Some; [done|by apply Hall]. Qed.

(** What a put stages of the entries. *)
Definition staged_put (client_id name : list N) (now : u64) (entries : gmap (list N) Profile) : gmap (list N) Profile :=
  let entries := <[client_id := mkProfile name now]> entries in evict (size entries) client_id entries.

Lemma staged_put_ok client_id name now entries :
  entries_ok entries → client_id_ok client_id → profile_ok (mkProfile name now) →
  entries_ok (staged_put client_id name now entries)
  ∧ staged_put client_id name now entries !! client_id = Some (mkProfile name now)
  ∧ made_room client_id (<[client_id := mkProfile name now]> entries) (staged_put client_id name now entries).
Proof.
  intros [Hlen Hall] Hid Hp. unfold staged_put. set (entries' := <[client_id := mkProfile name now]> entries).
  assert (Hlen' : map_len entries' <= MAX_PROFILES + 1).
  { unfold entries', map_len in *. destruct (entries !! client_id) as [q|] eqn:Hq.
    - rewrite map_size_insert_Some by by exists q. lia.
    - rewrite map_size_insert_None by done. lia. }
  destruct (evict_exact (size entries') client_id entries' Hlen') as [Hl Hroom]; [done|].
  pose proof (entries_ok_insert client_id (mkProfile name now) entries Hall Hid Hp) as Hall'. fold entries' in Hall'.
  split_and!; [split; [done|]| |done]; destruct Hroom as [->|(id & q & _ & Hne & _ & -> & _)].
  - done.
  - intros id' q' [_ Hq]%lookup_delete_Some. by apply Hall'.
  - unfold entries'. by simplify_map_eq.
  - unfold entries'. rewrite lookup_delete_ne by done. by simplify_map_eq.
Qed.

Lemma put_runs client_id name s :
  entries_ok (ps_entries s) → client_id_ok client_id → string_ok name → normalize_name name = Some name →
  let staged := staged_put client_id name (oc_unix_millis (ps_tick s)) (ps_entries s) in
  let content := Some (utf8 (encode_profiles staged)) in
  ProfileStore_put client_id name s
  = match oc_write (S (ps_tick s)) with
    | Written => (Ok tt, mkProfileStore staged content (S (S (ps_tick s))))
    | WriteFailed e renamed =>
        (Err e, mkProfileStore (ps_entries s) (if renamed : bool then content else ps_file s) (S (S (ps_tick s))))
    end.
Proof.
  intros Hok Hid Hs Hn. cbv zeta. unfold ProfileStore_put, store_draw, sm_bind, sm_get, write_profiles, sm_put.
  cbn [ps_tick ps_entries ps_file]. fold (staged_put client_id name (oc_unix_millis (ps_tick s)) (ps_entries s)).
  destruct (staged_put_ok client_id name (oc_unix_millis (ps_tick s)) (ps_entries s) Hok Hid) as (Hst & _); [by split|].
  pose proof (encode_profiles_fits _ Hst) as Hfit. unfold atomic_write. rewrite (proj2 (N.ltb_ge _ _) Hfit).
  by destruct (oc_write (S (ps_tick s))).
Qed.

(** ** Requests *)



(** A put that was made: the entries it was to write, and what became of the write. *)
Definition Attempt : Type := gmap (list N) Profile * WriteOutcome.
Definition is_written (io : WriteOutcome) : bool := match io with Written => true | _ => false end.
(** A write that fails may still have taken its place. *)
Definition took_place (io : WriteOutcome) : bool := match io with Written => true | WriteFailed _ renamed => renamed end.

(** The entries served and the entries on file after puts: those of the last one that succeeded,
    and those of the last one whose write took its place, if there is one. *)
Definition served (entries : gmap (list N) Profile) (puts : list Attempt) : gmap (list N) Profile :=
  foldl (λ e a, if is_written a.2 then a.1 else e) entries puts.
Definition on_file (found : option (gmap (list N) Profile)) (puts : list Attempt) : option (gmap (list N) Profile) :=
  foldl (λ e a, if took_place a.2 then Some a.1 else e) found puts.

(** Each put stores some client's name, at some time, in the entries served then. *)
Inductive puts_from : gmap (list N) Profile → list Attempt → Prop :=
  | puts_none entries : puts_from entries []
  | puts_next entries id name now tick rest :
      client_id_ok id → string_ok name → normalize_name name = Some name →
      puts_from (served entries [(staged_put id name now entries, oc_write tick)]) rest →
      puts_from entries ((staged_put id name now entries, oc_write tick) :: rest).

Lemma puts_app entries l l' : puts_from entries l → puts_from (served entries l) l' → puts_from entries (l ++ l').
Proof. intros Hl Hl'. induction Hl as [|entries id name now tick rest ? ? ? _ IH]; [done|]. constructor; auto. Qed.

Lemma puts_ok entries l :
  puts_from entries l → entries_ok entries → entries_ok (served entries l) ∧ Forall (λ a : Attempt, entries_ok a.1) l.
Proof.
  intros Hl. induction Hl as [|entries id name now tick rest ? ? ? _ IH]; intros Hok; [done|].
  assert (Hst : entries_ok (staged_put id name now entries)) by (by apply staged_put_ok).
  destruct IH as [Hs Hf]; [unfold served; cbn [foldl fst snd]; by destruct (is_written _)|]. split; [exact Hs|by constructor].
Qed.

(** What a store is after puts: it serves what the last successful one stored, and its file is as it
    was or has what the last write that took its place had. *)
Definition stored (s s' : ProfileStore) (l : list Attempt) : Prop :=
  puts_from (ps_entries s) l ∧ ps_entries s' = served (ps_entries s) l
  ∧ ps_file s' = match on_file None l with Some e => Some (utf8 (encode_profiles e)) | None => ps_file s end.
Definition profiles_kept (s s' : ProfileStore) : Prop := entries_ok (ps_entries s) → ∃ l, stored s s' l.

Lemma on_file_app found l : on_file found l = match on_file None l with Some e => Some e | None => found end.
Proof.
  unfold on_file. induction l as [|[e io] l IH] using rev_ind; [done|]. rewrite !foldl_app. cbn.
  by destruct (took_place io).
Qed.

#[export] Instance profiles_kept_preorder : PreOrder profiles_kept.
Proof.
  split; [intros s _; exists []; split_and!; [constructor|done|done]|]. intros a b c Hab Hbc Hok.
  destruct (Hab Hok) as (l & Hl & He & Hf). destruct (puts_ok _ _ Hl Hok) as [Hok' _]. rewrite <-He in Hok'.
  destruct (Hbc Hok') as (l' & Hl' & He' & Hf'). exists (l ++ l'). split_and!.
  - apply puts_app; [done|]. by rewrite <-He.
  - unfold served in *. by rewrite foldl_app, <-He.
  - rewrite Hf', Hf. assert (on_file None (l ++ l') = on_file (on_file None l) l') as -> by apply foldl_app.
    rewrite (on_file_app (on_file None l)). by destruct (on_file None l').
Qed.



Lemma profile_line_exact c :
  let '(r, c') := profile_line c in
  r = line_read MAX_PROFILE_LINE "profile line is too long" "profile line is not UTF-8" (stream (pc_reader c))
  ∧ pc_store c' = pc_store c ∧ pc_writes c' = pc_writes c ∧ pc_sent c' = pc_sent c
  ∧ (∀ text, r = Ok (Some text) → stream (pc_reader c') = after_line (stream (pc_reader c))).
Proof.
  unfold profile_line, sm_zoom.
  pose proof (read_line_stream MAX_PROFILE_LINE "profile line is too long" "profile line is not UTF-8" (pc_reader c)) as Hr.
  destruct (read_line _ _ _ _) as [r reader]. destruct Hr as [Hr Ha]; [by vm_compute|]. by split_and!.
Qed.









(** ** A name stored and read *)

Definition ascii_word (w : list N) : Prop :=
  is_word w = true ∧ Forall (λ c, c < 128 ∧ c ≠ 10) w.

Lemma ascii_word_of w : is_word w && forallb (λ c, (c <? 128) && negb (c =? 10)) w = true → ascii_word w.
Proof.
  intros [Hw Hc]%andb_true_iff. split; [done|]. rewrite forallb_forall in Hc. apply Forall_forall.
  intros c Hin%list_elem_of_In%Hc. lia.
Qed.

Lemma client_id_word id : client_id_ok id → ascii_word id.
Proof.
  intros Hid. pose proof (client_id_length id Hid) as Hl. pose proof (client_id_chars id Hid) as Hc.
  destruct Hid as [Hs [_ Hall]%andb_true_iff].
  assert (Hhex : Forall (λ c, c < 128 ∧ c ≠ 10 ∧ is_whitespace c = false) id).
  { rewrite utf8_ascii in Hall by (eapply Forall_impl; [exact Hc|]; by intros x [? _]).
    rewrite forallb_forall in Hall. rewrite Forall_forall in *. intros x Hx. destruct (Hc x Hx) as [Hlt _].
    assert (Hin : In (byte_of_N x) (map byte_of_N id)) by (apply in_map; by apply list_elem_of_In).
    apply Hall in Hin. unfold in_range in Hin. rewrite byte_of_N_small in Hin by lia. unfold is_whitespace.
    split_and!; [done|lia|lia]. }
  split; [|eapply Forall_impl; [exact Hhex|]; by intros x (? & ? & _)].
  destruct id as [|x id]; [done|]. apply forallb_forall. intros c Hc'%list_elem_of_In. rewrite Forall_forall in Hhex.
  by destruct (Hhex c Hc') as (_ & _ & ->).
Qed.

Lemma base64_word l : l ≠ [] → ascii_word (map byte_N (encode_base64 l)).
Proof.
  intros Hl. assert (Hne : encode_base64 l ≠ []).
  { intros He. assert (Hd : decode_base64 (encode_base64 l) = Some l) by by apply base64_exact. by rewrite He in Hd. }
  assert (Hall : Forall (λ c, c < 128 ∧ c ≠ 10 ∧ is_whitespace c = false) (map byte_N (encode_base64 l))).
  { apply Forall_forall. intros c (b & -> & Hb)%list_elem_of_fmap. destruct (encode_chars l b Hb) as (H1 & H2 & H3).
    split_and!; [done| |done]. intros He. apply H3, byte_N_inj. by rewrite He. }
  split; [|eapply Forall_impl; [exact Hall|]; by intros x (? & ? & _)].
  destruct (map byte_N (encode_base64 l)) as [|x w] eqn:Hm; [by apply map_eq_nil in Hm|].
  apply forallb_forall. intros c Hc%list_elem_of_In. rewrite Forall_forall in Hall. by destruct (Hall c Hc) as (_ & _ & ->).
Qed.

Lemma utf8_bytes l : Forall (λ b, byte_N b < 128) l → utf8 (map byte_N l) = l.
Proof.
  intros Hl. rewrite utf8_ascii by by apply Forall_map. rewrite map_map. rewrite <-(map_id l) at 2.
  apply map_ext. intros b. apply byte_of_N_byte_N.
Qed.

Lemma spaced_ascii ws : Forall ascii_word ws → Forall (λ c, c < 128 ∧ c ≠ 10) (spaced ws).
Proof.
  induction 1 as [|w ws [_ Hw] Hws IH]; [constructor|]. destruct ws as [|w' ws]; [done|].
  change (spaced (w :: w' :: ws)) with (w ++ 32 :: spaced (w' :: ws)). apply Forall_app. split; [done|]. by constructor.
Qed.

(** A request of ASCII words at the head of the stream. *)
Lemma request_read ws rest ending reader :
  Forall ascii_word ws → lenN (spaced ws) <= MAX_PROFILE_LINE →
  stream reader = (utf8 (spaced ws ++ [10]) ++ rest, ending) →
  line_read MAX_PROFILE_LINE "profile line is too long" "profile line is not UTF-8" (stream reader) = Ok (Some (spaced ws))
  ∧ after_line (stream reader) = (rest, ending).
Proof.
  intros Hws Hlen ->. pose proof (spaced_ascii ws Hws) as Hc.
  assert (Hascii : Forall (λ c, c < 128) (spaced ws)) by (eapply Forall_impl; [exact Hc|]; by intros c [? _]).
  rewrite utf8_app. change (utf8 [10]) with [newline]. rewrite <-app_assoc. cbn [app].
  assert (Hpos : position (utf8 (spaced ws) ++ newline :: rest) = Some (length (spaced ws))).
  { rewrite <-(utf8_ascii_length _ Hascii), position_app.
    { change (position (newline :: rest)) with (Some 0%nat). cbn [fmap option_fmap option_map]. by rewrite Nat.add_0_r. }
    rewrite utf8_ascii by done.
    intros (c & Hb & Hin)%list_elem_of_fmap. rewrite Forall_forall in Hc. destruct (Hc c Hin) as [Hlt Hne].
    apply Hne. rewrite <-(byte_of_N_small c) by lia. by rewrite <-Hb. }
  unfold line_read, after_line. cbn [fst snd]. rewrite Hpos, (proj2 (N.ltb_ge _ _)) by done. cbn [negb].
  rewrite <-(utf8_ascii_length _ Hascii), take_app_length. rewrite (proj2 (from_utf8_Some _ (spaced ws))).
  2: { split; [|done]. by apply ascii_ok. }
  cbn [ok_or res_bind]. rewrite trim_spaced by (apply forallb_forall; intros w Hw%list_elem_of_In;
    rewrite Forall_forall in Hws; by destruct (Hws w Hw)).
  split; [done|]. f_equal. rewrite <-(Nat.add_1_r (length _)), drop_app_add. done.
Qed.

Definition put_words (id name : list N) : list (list N) :=
  [str "PROFILE_PUT"; id; map byte_N (encode_base64 (utf8 name))].
Definition get_words (id : list N) : list (list N) := [str "PROFILE_GET"; id].

Lemma utf8_encoded l : utf8 (map byte_N (encode_base64 l)) = encode_base64 l.
Proof. apply utf8_bytes, Forall_forall. intros b Hb. by apply encode_chars in Hb as [? _]. Qed.

Lemma normal_not_empty name : normalize_name name = Some name → utf8 name ≠ [].
Proof.
  intros Hn. assert (Hne : name ≠ []) by (by intros ->). destruct name as [|c name]; [done|].
  rewrite utf8_cons. unfold utf8_char. by repeat case_match.
Qed.

Lemma put_words_ok id name :
  client_id_ok id → normalize_name name = Some name →
  Forall ascii_word (put_words id name) ∧ lenN (spaced (put_words id name)) <= MAX_PROFILE_LINE.
Proof.
  intros Hid Hn. split.
  - constructor; [by apply ascii_word_of|]. constructor; [by apply client_id_word|].
    constructor; [|constructor]. apply base64_word, normal_not_empty, Hn.
  - unfold put_words. cbn [spaced]. unfold lenN. repeat (rewrite length_app || cbn [length]).
    rewrite length_map, (client_id_length id Hid). change (length (str "PROFILE_PUT")) with 11%nat.
    pose proof (encode_length (utf8 name)). pose proof (utf8_length name). pose proof (normal_length _ Hn).
    unfold MAX_PROFILE_LINE. lia.
Qed.
Lemma get_words_ok id :
  client_id_ok id → Forall ascii_word (get_words id) ∧ lenN (spaced (get_words id)) <= MAX_PROFILE_LINE.
Proof.
  intros Hid. split; [constructor; [by apply ascii_word_of|constructor; [by apply client_id_word|constructor]]|]. unfold get_words. cbn [spaced]. unfold lenN.
  rewrite length_app. cbn [length]. rewrite (client_id_length id Hid). by vm_compute.
Qed.

Lemma words_split ws : Forall ascii_word ws → split_whitespace (spaced ws) = ws.
Proof.
  intros Hws. apply split_spaced, forallb_forall. intros w Hw%list_elem_of_In. rewrite Forall_forall in Hws.
  by destruct (Hws w Hw).
Qed.

Lemma handle_put id name s :
  client_id_ok id → string_ok name → normalize_name name = Some name →
  handle (spaced (put_words id name)) s
  = match ProfileStore_put id name s with
    | (Ok _, s) => (Ok (str "OK"), s)
    | (Err e, s) => (Ok (str "ERR " ++ one_line (Error_to_string e)), s)
    end.
Proof.
  intros Hid Hs Hn. unfold handle. rewrite words_split by by apply put_words_ok. unfold put_words.
  rewrite bool_decide_eq_false_2, bool_decide_eq_true_2 by done. unfold put_reply. destruct Hid as [_ ->]. cbn [negb].
  rewrite utf8_encoded. rewrite (proj2 (base64_exact _ (utf8 name))) by (split; [by apply normal_not_empty|done]).
  cbn [mbind option_bind]. rewrite (proj2 (from_utf8_Some _ name)) by done. cbn [mbind option_bind]. by rewrite Hn.
Qed.
Lemma handle_get id s :
  client_id_ok id →
  handle (spaced (get_words id)) s
  = (Ok match ProfileStore_get id s with
        | Some name => str "OK " ++ map byte_N (encode_base64 (utf8 name))
        | None => str "ERR not found"
        end, s).
Proof.
  intros Hid. unfold handle. rewrite words_split by by apply get_words_ok. unfold get_words.
  rewrite !bool_decide_eq_false_2, bool_decide_eq_true_2 by done. unfold get_reply. destruct Hid as [_ ->]. cbn [negb].
  unfold sm_bind, sm_get. by destruct (ProfileStore_get id s).
Qed.

(** A pass over a request that is read and answered. *)
Lemma serve_request n ws rest ending c reply s' writes :
  Forall ascii_word ws → ws ≠ [] → lenN (spaced ws) <= MAX_PROFILE_LINE →
  stream (pc_reader c) = (utf8 (spaced ws ++ [10]) ++ rest, ending) →
  handle (spaced ws) (pc_store c) = (Ok reply, s') → pc_writes c = Ok tt :: writes →
  ∃ reader, stream reader = (rest, ending)
    ∧ serve_requests (S n) c = serve_requests n (mkProfileConn s' reader writes (pc_sent c ++ [reply])).
Proof.
  intros Hws Hne Hlen Hs Hh Hw. destruct (request_read ws rest ending (pc_reader c) Hws Hlen Hs) as [Hr Ha].
  pose proof (profile_line_exact c) as Hl. cbn [serve_requests]. unfold sm_bind at 1.
  destruct (profile_line c) as [r c1]. destruct Hl as (-> & Hst & Hwr & Hse & Hafter). rewrite Hr in *.
  exists (pc_reader c1). split; [by rewrite (Hafter _ eq_refl)|].
  assert (Hline : spaced ws ≠ []).
  { destruct ws as [|w ws]; [done|]. apply Forall_cons in Hws as [[Hword _] _]. destruct w; [done|]. by destruct ws. }
  destruct (spaced ws) as [|x line]; [done|]. unfold sm_bind, sm_zoom. rewrite Hst, Hh. unfold write_line, set_pc_store.
  cbn [pc_writes pc_store pc_reader pc_sent]. by rewrite Hwr, Hw, Hse.
Qed.

(** C40: a connection delivers, in pieces of any size, a request to store a normalized name for a
    valid client id and then one to read it; the write of the file succeeds, and no other connection
    is served in between.  The store replies that it did and with that name in Base64, whatever else
    it holds, and has room made for it among the entries. *)
Theorem put_then_get id name c writes :
  client_id_ok id → string_ok name → normalize_name name = Some name → entries_ok (ps_entries (pc_store c)) →
  oc_write (S (ps_tick (pc_store c))) = Written →
  stream (pc_reader c)
  = (utf8 (spaced (put_words id name) ++ [10]) ++ utf8 (spaced (get_words id) ++ [10]), None) →
  pc_writes c = Ok tt :: Ok tt :: writes →
  let '(r, c') := serve_profiles c in
  r = Ok tt ∧ pc_sent c' = pc_sent c ++ [str "OK"; str "OK " ++ map byte_N (encode_base64 (utf8 name))]
  ∧ made_room id (<[id := mkProfile name (oc_unix_millis (ps_tick (pc_store c)))]> (ps_entries (pc_store c)))
      (ps_entries (pc_store c')).
Proof.
  intros Hid Hs Hn Hok Hio Hstream Hw. destruct (put_words_ok id name Hid Hn) as [Hp Hpl], (get_words_ok id Hid) as [Hg Hgl].
  pose proof (put_runs id name (pc_store c) Hok Hid Hs Hn) as Hput. cbv zeta in Hput. rewrite Hio in Hput.
  destruct (staged_put_ok id name (oc_unix_millis (ps_tick (pc_store c))) (ps_entries (pc_store c)) Hok Hid) as (_ & Hget & Hroom);
    [by split|].
  set (s' := mkProfileStore _ _ _) in Hput. pose proof (handle_put id name (pc_store c) Hid Hs Hn) as Hh. rewrite Hput in Hh.
  change serve_profiles with (serve_requests 8).
  destruct (serve_request 7 _ _ _ c _ s' (Ok tt :: writes) Hp ltac:(done) Hpl Hstream Hh Hw) as (r1 & Hr1 & ->).
  pose proof (handle_get id s' Hid) as Hh'. unfold ProfileStore_get in Hh'. cbn [ps_entries s'] in Hh'. rewrite Hget in Hh'.
  cbn [fmap option_fmap option_map pf_name] in Hh'. rewrite <-(app_nil_r (utf8 (_ ++ [10]))) in Hr1.
  destruct (serve_request 6 _ _ _ (mkProfileConn s' r1 (Ok tt :: writes) (pc_sent c ++ [str "OK"])) _ s' writes Hg ltac:(done)
    Hgl Hr1 Hh' eq_refl) as (r2 & Hr2 & ->).
  cbn [serve_requests pc_sent]. unfold sm_bind at 1.
  set (c2 := mkProfileConn s' r2 writes _). pose proof (profile_line_exact c2) as Hl. cbn [pc_reader c2] in Hl. rewrite Hr2 in Hl.
  destruct (profile_line c2) as [r c3]. destruct Hl as (-> & Hst & _ & Hse & _).
  change (line_read _ _ _ ([], None)) with (Ok (A := option (list N)) None). cbn iota beta. unfold sm_ret.
  rewrite Hst, Hse. cbn [pc_sent pc_store c2 ps_entries s']. by rewrite <-app_assoc.
Qed.
End put.

(** ** Samples *)

Section sample.
#[local] Existing Instance sample_oracle.
#[local] Instance silent : IoText := λ _, [].

Definition sample_client : list N := str "0123456789abcdef0123456789abcdef".
Definition sample_name : list N := str "Ada " ++ [34; 92; 233; 128512].
Definition sample_bytes : bytes :=
  utf8 (spaced (put_words sample_client sample_name) ++ [10]) ++ utf8 (spaced (get_words sample_client) ++ [10]).

(** The requests in two pieces. *)
Definition sample_conn : ProfileConn :=
  mkProfileConn (mkProfileStore ∅ None 0)
    (mkLineReader [] [Ok (firstn 60 sample_bytes); Ok (skipn 60 sample_bytes)]) [Ok tt; Ok tt] [].

Lemma entries_ok_empty : entries_ok ∅.
Proof. split; [by vm_compute|]. intros id p Hp. by rewrite lookup_empty in Hp. Qed.

Lemma sample_ok : is_client_id sample_client && forallb scalar sample_client && forallb scalar sample_name
  && bool_decide (normalize_name sample_name = Some sample_name) = true.
Proof. vm_compute. reflexivity. Qed.


Lemma put_then_get_witness :
  pc_sent (serve_profiles sample_conn).2
  = [str "OK"; str "OK " ++ map byte_N (encode_base64 (utf8 sample_name))].
Proof.
  assert (Hok : entries_ok (ps_entries (pc_store sample_conn))) by exact entries_ok_empty.
  pose proof sample_ok as Hb. rewrite !andb_true_iff, !forallb_forall in Hb. destruct Hb as [[[Hid Hic] Hnc] Hn].
  assert (Hi : client_id_ok sample_client).
  { split; [|exact Hid]. apply Forall_forall. intros x Hx%list_elem_of_In. by apply Hic. }
  assert (Hs : string_ok sample_name). { apply Forall_forall. intros x Hx%list_elem_of_In. by apply Hnc. }
  assert (Hstream : stream (pc_reader sample_conn)
    = (utf8 (spaced (put_words sample_client sample_name) ++ [10]) ++ utf8 (spaced (get_words sample_client) ++ [10]), None))
    by (vm_compute; reflexivity).
  pose proof (put_then_get sample_client sample_name sample_conn [] Hi Hs (bool_decide_eq_true_1 _ Hn) Hok eq_refl Hstream eq_refl)
    as Hp.
  destruct (serve_profiles sample_conn) as [r c']. exact (proj1 (proj2 Hp)).
Defined.

(** A put may fail when its file is already in place: the store then keeps the old entries, and the
    file has the new ones. *)
Definition late_oracle : Oracle := {|
  oc_unix_time := oc_unix_time (Oracle := sample_oracle);
  oc_unix_millis := oc_unix_millis (Oracle := sample_oracle);
  oc_instant := oc_instant (Oracle := sample_oracle);
  oc_instant_add := oc_instant_add (Oracle := sample_oracle);
  oc_random := oc_random (Oracle := sample_oracle);
  oc_write _ := WriteFailed (Io OtherIo) true;
  oc_remove := oc_remove (Oracle := sample_oracle);
  oc_sweep := oc_sweep (Oracle := sample_oracle);
|}.

Example failed_put_disagrees :
  let '(r, s) := ProfileStore_put (H := late_oracle) sample_client sample_name (mkProfileStore ∅ None 0) in
  negb (is_ok r) && bool_decide (ProfileStore_get sample_client s = None)
  && match ps_file s with
     | Some l => bool_decide (pf_name <$> (default ∅ (decode_profiles l) !! sample_client) = Some sample_name)
     | None => false
     end = true.
Proof. vm_compute. reflexivity. Qed.
End sample.
