(* ===== verification/VaultDirs.v ===== *)
(** * The directories of hosted vaults ([store/vaults.rs])

    A data directory: the vault it may hold itself, in the older layout, the marker of a migration
    to the newer one, and [vaults/] with a directory per vault.  Every step on the disk may fail
    before or after it took effect.  Creating a vault's directory, migrating the older layout and
    listing what to host.

    Symbolic links are not modelled: a link named [vaults/] that leads nowhere, which listing takes
    for absent, is no [Node] here. *)
From S2P Require Export Chars Hosting.
From Stdlib Require Import Lia ZifyN ZifyNat.

Open Scope N_scope.

(** ** The data directory *)

(** A directory that holds a vault: its files, and whether [chunks/] is there. *)
Record Place := mkPlace { pl_disk : Disk; pl_chunks : bool }.
Definition empty_place : Place := mkPlace (mkDisk None None None ∅) false.

(** What a name may stand for. *)
Inductive Node (A : Type) := NAbsent | NOther | NDirectory (content : A).
Arguments NAbsent {A}.
Arguments NOther {A}.
Arguments NDirectory {A} content.

Record DataDir := mkDataDir {
  dd_marker : option bytes;
  dd_here : Place;
  dd_vaults : Node (gmap bytes (Node Place));
}.

(** [data_dir] itself, or [vault_directory(data_dir, id)]. *)
Inductive Location := Here | In (vault_id : VaultId).
#[export] Instance Location_eq_dec : EqDecision Location.
Proof. solve_decision. Defined.

Definition vault_name (vault_id : VaultId) : bytes := hex (array_bytes vault_id).

Definition entry_of (vault_id : VaultId) (d : DataDir) : Node Place :=
  match dd_vaults d with
  | NDirectory entries => default NAbsent (entries !! vault_name vault_id)
  | _ => NAbsent
  end.
Definition place_of (l : Location) (d : DataDir) : option Place :=
  match l with
  | Here => Some (dd_here d)
  | In vault_id => match entry_of vault_id d with NDirectory p => Some p | _ => None end
  end.

Definition set_dd_marker v d := mkDataDir v (dd_here d) (dd_vaults d).
Definition set_dd_here v d := mkDataDir (dd_marker d) v (dd_vaults d).
Definition set_dd_vaults v d := mkDataDir (dd_marker d) (dd_here d) v.
Definition set_entry (vault_id : VaultId) (p : Place) (d : DataDir) : DataDir :=
  match dd_vaults d with
  | NDirectory entries => set_dd_vaults (NDirectory (<[vault_name vault_id := NDirectory p]> entries)) d
  | _ => d
  end.
Definition set_place (l : Location) (p : Place) (d : DataDir) : DataDir :=
  match l with Here => set_dd_here p d | In vault_id => set_entry vault_id p d end.

(** What a migration moves. *)
Inductive Item := IReplica | IChunks | IVault.

Definition item_exists (item : Item) (p : Place) : bool :=
  match item with
  | IReplica => bool_decide (is_Some (dk_replica (pl_disk p)))
  | IChunks => pl_chunks p
  | IVault => bool_decide (is_Some (dk_admission (pl_disk p)))
  end.
(** [target] with the item of [source]. *)
Definition put_item (item : Item) (source target : Place) : Place :=
  match item with
  | IReplica => mkPlace (set_file FReplica (dk_replica (pl_disk source)) (pl_disk target)) (pl_chunks target)
  | IChunks => mkPlace (set_dk_chunks (dk_chunks (pl_disk source)) (pl_disk target)) (pl_chunks source)
  | IVault => mkPlace (set_file FAdmission (dk_admission (pl_disk source)) (pl_disk target)) (pl_chunks target)
  end.
Definition moved_item (item : Item) (vault_id : VaultId) (d : DataDir) : DataDir :=
  match entry_of vault_id d with
  | NDirectory target =>
      set_dd_here (put_item item empty_place (dd_here d))
        (set_entry vault_id (put_item item (dd_here d) target) d)
  | _ => d
  end.

(** The entries of a directory come in no particular order. *)
Class ReadDir := {
  listing : gmap bytes (Node Place) → list (bytes * Node Place);
  listing_perm entries : listing entries ≡ₚ map_to_list entries;
}.

Section dirs.
Context `{Sha256, MlDsa65, XWing, AesGcm, HkdfSha256, Oracle, SocketAddrs, ReadDir}.

(** The process, its data directory and the number of oracle calls made. *)
Record Data := mkData { da_keys : StoreInner; da_dir : DataDir; da_tick : nat }.
Definition set_da_dir v s := mkData (da_keys s) v (da_tick s).

Definition data_draw {A} (f : nat → A) : SM Data A := λ s,
  (Ok (f (da_tick s)), mkData (da_keys s) (da_dir s) (S (da_tick s))).
Definition data_random (n : nat) : SM Data (array n) := do! r := data_draw (oc_random n) in sm_lift r.
Definition data_dir : SM Data DataDir := λ s, (Ok (da_dir s), s).
Definition data_keys {A} (m : SM StoreInner A) : SM Data A := λ s,
  let '(r, k) := m (da_keys s) in (r, mkData k (da_dir s) (da_tick s)).

(** A step on the disk that may fail, before or after it took effect. *)
Definition io_step (f : DataDir → DataDir) : SM Data unit :=
  do! io := data_draw oc_write in
  λ s, match io with
       | Written => (Ok tt, set_da_dir (f (da_dir s)) s)
       | WriteFailed e took => (Err e, if took : bool then set_da_dir (f (da_dir s)) s else s)
       end.

(** A call on the files of a directory. *)
Definition idle_durable : DurableInner := mkDurableInner u64_zero (array_fill 32 Byte.x00) None false false.
Definition on_place {A} (l : Location) (m : SM World A) : SM Data A := λ s,
  match place_of l (da_dir s) with
  | None => (Err (Io NotFound), s)
  | Some p =>
      let '(r, w) := m (mkWorld (da_keys s) (pl_disk p) idle_durable (da_tick s)) in
      (r, mkData (w_keys w) (set_place l (mkPlace (w_disk w) (pl_chunks p)) (da_dir s)) (w_tick w))
  end.

Definition read_vault (l : Location) (file : Disk → option bytes) : SM Data (option bytes) :=
  do! d := data_dir in
  match place_of l d with
  | Some p => sm_lift (read_private (file (pl_disk p)))
  | None => sm_ret None
  end.

(** ** Steps *)

(** [ensure_private_directory] of [vaults/] and of a vault's directory *)
Definition not_real : Error := InvalidInput "vault path must be a real directory".
Definition ensure_root : SM Data unit :=
  do! d := data_dir in
  match dd_vaults d with
  | NDirectory _ => io_step id
  | NOther => sm_err not_real
  | NAbsent => io_step (set_dd_vaults (NDirectory ∅))
  end.
Definition ensure_vault (vault_id : VaultId) : SM Data unit :=
  do! d := data_dir in
  match entry_of vault_id d with
  | NDirectory _ => io_step id
  | NOther => sm_err not_real
  | NAbsent => io_step (set_entry vault_id empty_place)
  end.
Definition prepare_vault_directory (vault_id : VaultId) : SM Data unit :=
  do! _ := ensure_root in ensure_vault vault_id.

(** [VaultMetadata] of a vault that starts, written to its directory. *)
Definition create_vault_dir_with_code (code : JoinCode) : SM Data VaultId :=
  do! vault_id := data_random 32 in
  do! local := data_keys ks_peer in
  let metadata := mkVaultMetadata vault_id code u64_zero [local] ∅ in
  do! _ := prepare_vault_directory vault_id in
  do! d := data_dir in
  match place_of (In vault_id) d with
  | None => sm_err (Io NotFound)
  | Some p =>
      check! negb (item_exists IVault p || item_exists IReplica p) else State "generated vault already exists" in
      do! content := sm_lift (encode_vault_metadata metadata) in
      do! _ := on_place (In vault_id) (World.atomic_private_write FAdmission content) in
      sm_ret vault_id
  end.
Definition create_vault_dir : SM Data (VaultId * JoinCode) :=
  do! join_code := data_random 16 in
  do! vault_id := create_vault_dir_with_code join_code in
  sm_ret (vault_id, join_code).

Definition verify_replica (l : Location) (vault_id : VaultId) : SM Data unit :=
  do! content := read_vault l dk_replica in
  do! content := sm_lift (ok_or content (State "vault replica is missing")) in
  do! _ := sm_lift (decode_replica content vault_id) in
  sm_ret tt.

Definition recover_at (l : Location) : SM Data unit := on_place l recover_admission_transaction.

(** ** Migration *)

Definition move_once (item : Item) (vault_id : VaultId) : SM Data unit :=
  do! d := data_dir in
  let source_exists := item_exists item (dd_here d) in
  let target_exists := match place_of (In vault_id) d with Some p => item_exists item p | None => false end in
  match source_exists, target_exists with
  | true, false => io_step (moved_item item vault_id)
  | false, true => io_step id
  | true, true => sm_err (State "vault migration source and destination both exist")
  | false, false => sm_err (State "vault migration source and destination are missing")
  end.

Definition write_marker (vault_id : VaultId) (phase : N) : SM Data unit :=
  do! content := sm_lift (encode_vault_migration vault_id (byte_of_N phase)) in
  do! io := data_draw oc_write in
  λ s,
    let '(r, file) := atomic_write MAX_STORE_BYTES "keystore file is too large" io (dd_marker (da_dir s)) content in
    (r, set_da_dir (set_dd_marker file (da_dir s)) s).
(** [remove_and_sync] *)
Definition remove_marker : SM Data unit :=
  do! io := data_draw oc_remove in
  λ s,
    let '(r, file) := remove_synced io (dd_marker (da_dir s)) in
    (r, set_da_dir (set_dd_marker file (da_dir s)) s).

Definition item_of (phase : N) : Item := if phase =? 0 then IReplica else if phase =? 1 then IChunks else IVault.

(** [while phase < 3]: at most three passes. *)
Fixpoint move_phases (passes : nat) (vault_id : VaultId) (phase : N) : SM Data unit :=
  match passes with
  | O => sm_ret tt
  | S passes =>
      if phase <? 3 then
        do! _ := move_once (item_of phase) vault_id in
        do! _ := write_marker vault_id (phase + 1) in
        move_phases passes vault_id (phase + 1)
      else sm_ret tt
  end.

Definition resume_migration : SM Data unit :=
  do! _ := recover_at Here in
  do! d := data_dir in
  do! marker := sm_lift (read_private (dd_marker d)) in
  match marker with
  | None => sm_ret tt
  | Some marker =>
      do! (vault_id, phase) := sm_lift (decode_vault_migration marker) in
      do! _ := prepare_vault_directory vault_id in
      do! _ := recover_at (In vault_id) in
      do! d := data_dir in
      do! _ := verify_replica (if item_exists IReplica (dd_here d) then Here else In vault_id) vault_id in
      do! _ := move_phases 3 vault_id (byte_N phase) in
      remove_marker
  end.

Definition migrate_legacy : SM Data unit :=
  do! _ := recover_at Here in
  do! d := data_dir in
  if bool_decide (is_Some (dd_marker d)) then resume_migration
  else
    do! admission := read_vault Here dk_admission in
    match admission with
    | None => sm_ret tt
    | Some admission =>
        do! metadata := sm_lift (decode_vault_metadata admission) in
        let vault_id := vm_vault_id metadata in
        do! _ := verify_replica Here vault_id in
        do! _ := prepare_vault_directory vault_id in
        do! _ := write_marker vault_id 0 in
        resume_migration
    end.

(** ** Listing *)

Definition parse_hex_vault_id (name : bytes) : Result VaultId :=
  parse_hex "invalid vault directory name" "invalid vault directory name" name.

(** What was found of the older layout. *)
Definition discover_here (found : list (VaultId * Location)) : SM Data (list (VaultId * Location)) :=
  do! admission := read_vault Here dk_admission in
  match admission with
  | None => sm_ret found
  | Some admission =>
      do! metadata := sm_lift (decode_vault_metadata admission) in
      do! _ := verify_replica Here (vm_vault_id metadata) in
      sm_ret (found ++ [(vm_vault_id metadata, Here)])
  end.

(** An entry of [vaults/]. *)
Definition discover_entry (found : list (VaultId * Location)) (entry : bytes * Node Place)
    : SM Data (list (VaultId * Location)) :=
  let '(name, node) := entry in
  check! match node with NDirectory _ => true | _ => false end
    else InvalidInput "vaults contains a non-directory entry" in
  check! utf8_valid name else InvalidInput "invalid vault directory name" in
  if bool_decide (head name = Some Byte.x2e) then sm_ret found
  else
    do! id := sm_lift (parse_hex_vault_id name) in
    do! _ := recover_at (In id) in
    do! content := read_vault (In id) dk_admission in
    do! content := sm_lift (ok_or content (State "vault admission file is missing")) in
    do! metadata := sm_lift (decode_vault_metadata content) in
    check! bool_decide (vm_vault_id metadata = id) else State "vault directory id differs from admission file" in
    check! negb (bool_decide (id ∈ found.*1)) else State "duplicate vault id on disk" in
    do! _ := verify_replica (In id) id in
    sm_ret (found ++ [(id, In id)]).

Definition discover_vaults : SM Data (list (VaultId * Location)) :=
  do! _ := recover_at Here in
  do! _ := resume_migration in
  do! found := discover_here [] in
  do! d := data_dir in
  do! found :=
    match dd_vaults d with
    | NAbsent => sm_ret found
    | NOther => sm_err not_real
    | NDirectory entries => sm_fold discover_entry (listing entries) found
    end in
  sm_ret (merge_sort entry_le found).
End dirs.

Definition sample_listing : ReadDir := {| listing := map_to_list; listing_perm _ := reflexivity _ |}.
