(* ===== verification/VaultDirClaims.v ===== *)
(** * What the directories of vaults guarantee

    [migration_safe]: a migration that is interrupted anywhere, any number of times, loses nothing
    and completes; [interrupted_creation]: a vault whose creation is interrupted keeps every vault
    of the data directory from being hosted. *)
From S2P Require Export VaultDirs.
From Stdlib Require Import Lia ZifyN ZifyNat.

Open Scope N_scope.

Section claims.
Context `{Sha256, MlDsa65, XWing, AesGcm, HkdfSha256, SocketAddrs, ReadDir}.

(** ** A migration under way *)

Section migration.
Context (vault_id : VaultId) (replica admission : bytes) (chunks : gmap ChunkId bytes).
Context (others : gmap bytes (Node Place)).

(** What is to be moved: an admission file and a replica of the same vault. *)
Record legacy_ok : Prop := {
  lo_admission : lenN admission <= MAX_STORE_BYTES;
  lo_metadata : ∃ m, decode_vault_metadata admission = Ok m ∧ vm_vault_id m = vault_id;
  lo_replica : lenN replica <= MAX_STORE_BYTES;
  lo_snapshot : is_ok (decode_replica replica vault_id) = true;
  lo_others : others !! vault_name vault_id = None;
}.

(** The two directories when the first [k] of the three items have moved. *)
Definition here_at (k : N) : Place :=
  mkPlace (mkDisk (if k <=? 2 then Some admission else None) (if k =? 0 then Some replica else None) None
             (if k <=? 1 then chunks else ∅)) (k <=? 1).
Definition there_at (k : N) : Place :=
  mkPlace (mkDisk (if k <=? 2 then None else Some admission) (if k =? 0 then None else Some replica) None
             (if k <=? 1 then ∅ else chunks)) (negb (k <=? 1)).

Definition marker_bytes (phase : N) : bytes := array_bytes vault_id ++ [byte_of_N phase].

(** With the vault's directory in place. *)
Definition ready_at (marker : option bytes) (k : N) : DataDir :=
  mkDataDir marker (here_at k) (NDirectory (<[vault_name vault_id := NDirectory (there_at k)]> others)).

(** Before the marker is written the directory may be missing; the marker is at most one behind. *)
Definition stage (k : N) (d : DataDir) : Prop :=
  (∃ phase, phase <= k ∧ k <= phase + 1 ∧ k <= 3 ∧ d = ready_at (Some (marker_bytes phase)) k)
  ∨ (k = 0 ∧ dd_marker d = None ∧ dd_here d = here_at 0
     ∧ (dd_vaults d = NDirectory (<[vault_name vault_id := NDirectory empty_place]> others)
        ∨ dd_vaults d = NDirectory others ∨ (dd_vaults d = NAbsent ∧ others = ∅)))
  ∨ (k = 3 ∧ d = ready_at None 3).
Definition migrating (d : DataDir) : Prop := ∃ k, stage k d.
Definition migrated (d : DataDir) : Prop := d = ready_at None 3.

Context (Hok : legacy_ok).

Section attempt.
Context `{Oracle}.

Definition reliable : Prop := (∀ tick, oc_write tick = Written) ∧ (∀ tick, oc_remove tick = Removed).
(** Where a failed step leaves the data directory. *)
Definition failed (s : Data) : Prop := migrating (da_dir s) ∧ ¬ reliable.

Lemma io_step_wp f (Q : unit → Data → Prop) s :
  (∀ k t, Q tt (mkData k (f (da_dir s)) t)) → migrating (da_dir s) → migrating (f (da_dir s)) →
  wp (io_step f) Q failed s.
Proof.
  intros HQ Hd Hf. unfold wp, io_step, sm_bind, data_draw. cbn [da_dir da_keys da_tick].
  destruct (oc_write (da_tick s)) as [|e took] eqn:Hio; [apply HQ|].
  assert (Hr : ¬ reliable) by (intros [Hw _]; by rewrite Hw in Hio). split; [|done]. by destruct took.
Qed.

Lemma wp_data_dir (Q : DataDir → Data → Prop) E s : Q (da_dir s) s → wp data_dir Q E s.
Proof. done. Qed.
Lemma wp_lift_ok {A} (x : A) (Q : A → Data → Prop) E s : Q x s → wp (sm_lift (Ok x)) Q E s.
Proof. done. Qed.

Lemma vault_name_entries (p : Node Place) m here :
  entry_of vault_id (mkDataDir m here (NDirectory (<[vault_name vault_id := p]> others))) = p.
Proof. unfold entry_of. cbn. by rewrite lookup_insert_eq. Qed.

Lemma set_entry_ready p q m here :
  set_entry vault_id p (mkDataDir m here (NDirectory (<[vault_name vault_id := q]> others)))
  = mkDataDir m here (NDirectory (<[vault_name vault_id := NDirectory p]> others)).
Proof. unfold set_entry, set_dd_vaults. cbn. by rewrite insert_insert_eq. Qed.

Lemma ready_stage phase k :
  phase <= k → k <= phase + 1 → k <= 3 → migrating (ready_at (Some (marker_bytes phase)) k).
Proof. intros. exists k. left. by exists phase. Qed.

(** The directory of the vault, when [vaults/] is there. *)
Lemma ensure_vault_wp k m v (Q : unit → Data → Prop) keys t :
  v = NDirectory (<[vault_name vault_id := NDirectory (there_at k)]> others) ∨ (k = 0 ∧ v = NDirectory others) →
  migrating (mkDataDir m (here_at k) v) → migrating (ready_at m k) →
  (∀ keys t, Q tt (mkData keys (ready_at m k) t)) →
  wp (ensure_vault vault_id) Q failed (mkData keys (mkDataDir m (here_at k) v) t).
Proof.
  intros Hv Hd Hr HQ. unfold ensure_vault. apply wp_bind. apply wp_data_dir. cbn [da_dir].
  destruct Hv as [->|[-> ->]].
  - rewrite vault_name_entries. apply io_step_wp; [intros; apply HQ|done|done].
  - unfold entry_of. cbn [dd_vaults]. rewrite (lo_others Hok). cbn [default from_option].
    apply io_step_wp; [intros; apply HQ|done|done].
Qed.

Lemma migration_prepares k (Q : unit → Data → Prop) s :
  stage k (da_dir s) → (∀ keys t, Q tt (mkData keys (ready_at (dd_marker (da_dir s)) k) t)) →
  wp (prepare_vault_directory vault_id) Q failed s.
Proof.
  intros Hs HQ. destruct s as [keys [m here v] t]. cbn [da_dir dd_marker] in *.
  assert (Hm : migrating (mkDataDir m here v)) by by exists k.
  assert (Hcases : here = here_at k ∧ migrating (ready_at m k)
    ∧ (v = NDirectory (<[vault_name vault_id := NDirectory (there_at k)]> others)
       ∨ (k = 0 ∧ (v = NDirectory others ∨ (v = NAbsent ∧ others = ∅ ∧ migrating (mkDataDir m here (NDirectory others))))))).
  { destruct Hs as [(phase & Ha & Hb & Hc & Hd)|[(-> & Hmark & Hhere & Hv)|[-> Hd]]].
    - injection Hd as -> -> ->. split_and!; [done|by apply ready_stage|by left].
    - cbn in Hmark, Hhere, Hv. subst m here. split_and!; [done| |].
      + exists 0. right. left. split_and!; [done..|]. by left.
      + destruct Hv as [->|[->|[-> Hempty]]]; [by left|right; auto|]. right. split; [done|]. right.
        split_and!; [done..|]. exists 0. right. left. split_and!; [done..|]. by right; left.
    - injection Hd as -> -> ->. split_and!; [done|exists 3; by right; right|by left]. }
  destruct Hcases as (-> & Hr & Hv). unfold prepare_vault_directory. apply wp_bind. unfold ensure_root. apply wp_bind.
  apply wp_data_dir. cbn [da_dir dd_vaults].
  destruct Hv as [->|[-> [->|(-> & Hempty & Hroot)]]].
  - apply io_step_wp; [|done|done]. intros k' t'. apply ensure_vault_wp; auto.
  - apply io_step_wp; [|done|done]. intros k' t'. apply ensure_vault_wp; auto.
  - rewrite Hempty in Hroot. apply io_step_wp; [|done|done]. intros k' t'. cbn [set_dd_vaults dd_marker dd_here].
    apply ensure_vault_wp; [right; by rewrite Hempty|done|done|done].
Qed.

Lemma recover_here_wp m k v (Q : unit → Data → Prop) keys t :
  (∀ keys t, Q tt (mkData keys (mkDataDir m (here_at k) v) t)) →
  wp (recover_at Here) Q failed (mkData keys (mkDataDir m (here_at k) v) t).
Proof.
  intros HQ. unfold recover_at, on_place, wp. cbn [da_dir place_of dd_here]. rewrite recover_without_journal by done.
  cbn [w_disk w_keys w_tick da_keys da_tick]. apply HQ.
Qed.
Lemma recover_there_wp m k (Q : unit → Data → Prop) keys t :
  (∀ keys t, Q tt (mkData keys (ready_at m k) t)) →
  wp (recover_at (In vault_id)) Q failed (mkData keys (ready_at m k) t).
Proof.
  intros HQ. unfold recover_at, on_place, wp. cbn [da_dir place_of]. unfold ready_at at 1. rewrite vault_name_entries.
  rewrite recover_without_journal by done. cbn [w_disk w_keys w_tick da_keys da_tick set_place].
  unfold ready_at. rewrite set_entry_ready. apply HQ.
Qed.

Lemma read_replica : read_private (Some replica) = Ok (Some replica).
Proof. unfold read_private. by rewrite (proj2 (N.ltb_ge _ _) (lo_replica Hok)). Qed.
Lemma read_admission : read_private (Some admission) = Ok (Some admission).
Proof. unfold read_private. by rewrite (proj2 (N.ltb_ge _ _) (lo_admission Hok)). Qed.

Lemma verify_wp l (Q : unit → Data → Prop) s :
  (∃ p, place_of l (da_dir s) = Some p ∧ dk_replica (pl_disk p) = Some replica) → Q tt s →
  wp (verify_replica l vault_id) Q failed s.
Proof.
  intros (p & Hp & Hr) HQ. unfold verify_replica. apply wp_bind. unfold read_vault. apply wp_bind.
  apply wp_data_dir. rewrite Hp, Hr, read_replica. apply wp_lift_ok. apply wp_bind. apply wp_lift_ok.
  cbn [ok_or]. apply wp_bind. pose proof (lo_snapshot Hok) as Hs.
  destruct (decode_replica replica vault_id) as [x|]; [|done]. by apply wp_lift_ok.
Qed.

Lemma marker_ok phase : phase <= 3 → encode_vault_migration vault_id (byte_of_N phase) = Ok (marker_bytes phase).
Proof. intros Hp. unfold encode_vault_migration. rewrite byte_of_N_small by lia. by rewrite (proj2 (N.ltb_ge _ _)). Qed.
Lemma marker_fits phase : lenN (marker_bytes phase) <= MAX_STORE_BYTES.
Proof. unfold marker_bytes, lenN. rewrite length_app, length_array. cbn. unfold MAX_STORE_BYTES. lia. Qed.

Lemma write_marker_wp phase k m (Q : unit → Data → Prop) keys t :
  phase <= 3 → migrating (ready_at m k) → migrating (ready_at (Some (marker_bytes phase)) k) →
  (∀ keys t, Q tt (mkData keys (ready_at (Some (marker_bytes phase)) k) t)) →
  wp (write_marker vault_id phase) Q failed (mkData keys (ready_at m k) t).
Proof.
  intros Hp Hd Hd' HQ. unfold write_marker. apply wp_bind. rewrite marker_ok by done. apply wp_lift_ok.
  unfold wp, sm_bind, data_draw. cbn [da_dir da_keys da_tick]. unfold atomic_write.
  rewrite (proj2 (N.ltb_ge _ _) (marker_fits phase)). destruct (oc_write t) as [|e took] eqn:Hio; [apply HQ|].
  assert (Hr : ¬ reliable) by (intros [Hw _]; by rewrite Hw in Hio). split; [|done]. cbn. by destruct took.
Qed.

(** One item: it is moved, or was when the marker was about to be written. *)
Lemma move_once_wp phase k (Q : unit → Data → Prop) keys t :
  phase < 3 → phase <= k → k <= phase + 1 →
  (∀ keys t, Q tt (mkData keys (ready_at (Some (marker_bytes phase)) (phase + 1)) t)) →
  wp (move_once (item_of phase) vault_id) Q failed (mkData keys (ready_at (Some (marker_bytes phase)) k) t).
Proof.
  intros Hle Hlo Hhi HQ. unfold move_once. apply wp_bind. apply wp_data_dir. cbn [da_dir place_of].
  unfold ready_at at 2 3. rewrite vault_name_entries. cbn [dd_here ready_at].
  assert (Hmoved : k = phase → moved_item (item_of phase) vault_id (ready_at (Some (marker_bytes phase)) k)
    = ready_at (Some (marker_bytes phase)) (phase + 1)).
  { intros ->. unfold moved_item, ready_at. rewrite vault_name_entries, set_entry_ready. unfold set_dd_here. cbn [dd_marker dd_here dd_vaults].
    assert (Hph : phase = 0 ∨ phase = 1 ∨ phase = 2) by lia. by destruct Hph as [->|[->| ->]]. }
  assert (Hk : k = phase ∨ k = phase + 1) by lia. assert (Hph : phase = 0 ∨ phase = 1 ∨ phase = 2) by lia.
  assert (Hex : item_exists (item_of phase) (here_at k) = bool_decide (k = phase)
    ∧ item_exists (item_of phase) (there_at k) = bool_decide (k = phase + 1)).
  { by destruct Hph as [->|[->| ->]]; destruct Hk as [->| ->]; vm_compute. }
  destruct Hex as [-> ->]. destruct Hk as [->| ->].
  - rewrite bool_decide_eq_true_2, bool_decide_eq_false_2 by lia. apply io_step_wp; [|by apply ready_stage; lia|].
    + intros keys' t'. cbn [da_dir]. rewrite Hmoved by done. apply HQ.
    + cbn [da_dir]. rewrite Hmoved by done. apply ready_stage; lia.
  - rewrite bool_decide_eq_false_2, bool_decide_eq_true_2 by lia.
    apply io_step_wp; [intros; apply HQ|apply ready_stage; lia|apply ready_stage; lia].
Qed.

Lemma move_phases_wp passes phase k (Q : unit → Data → Prop) keys t :
  phase <= 3 → 3 - phase <= N.of_nat passes → phase <= k → k <= phase + 1 → k <= 3 →
  (∀ keys t, Q tt (mkData keys (ready_at (Some (marker_bytes 3)) 3) t)) →
  wp (move_phases passes vault_id phase) Q failed (mkData keys (ready_at (Some (marker_bytes phase)) k) t).
Proof.
  revert phase k keys t. induction passes as [|passes IH]; intros phase k keys t Hle Hp Hlo Hhi Hk HQ; cbn [move_phases].
  { assert (phase = 3) as -> by lia. assert (k = 3) as -> by lia. apply HQ. }
  destruct (N.ltb_spec phase 3) as [Hlt|Hge].
  2: { assert (phase = 3) as -> by lia. assert (k = 3) as -> by lia. apply HQ. }
  apply wp_bind, move_once_wp; [done|done|done|]. intros keys1 t1. apply wp_bind, write_marker_wp; [lia|apply ready_stage; lia|apply ready_stage; lia|].
  intros keys2 t2. apply IH; auto; lia.
Qed.

Lemma remove_marker_wp (Q : unit → Data → Prop) keys t :
  (∀ keys t, Q tt (mkData keys (ready_at None 3) t)) →
  wp remove_marker Q failed (mkData keys (ready_at (Some (marker_bytes 3)) 3) t).
Proof.
  intros HQ. unfold remove_marker, wp, sm_bind, data_draw. cbn [da_dir da_keys da_tick dd_marker ready_at remove_synced].
  destruct (oc_remove t) as [|e took] eqn:Hio; [apply HQ|].
  assert (Hr : ¬ reliable) by (intros [_ Hw]; by rewrite Hw in Hio). split; [|done].
  destruct took; [exists 3; by right; right|]. exists 3. left. exists 3. split_and!; [done..|]. done.
Qed.

(** A resumed migration is finished, or none was under way. *)
Lemma migration_resumes k s :
  stage k (da_dir s) →
  wp resume_migration
    (λ _ s', migrating (da_dir s') ∧ (migrated (da_dir s') ∨ dd_marker (da_dir s) = None ∧ da_dir s' = da_dir s)) failed s.
Proof.
  intros Hs. destruct s as [keys [m here v] t]. cbn [da_dir dd_marker] in *. unfold resume_migration. apply wp_bind.
  assert (Hhere : here = here_at k ∧ ((m = None ∧ (k = 0 ∨ k = 3 ∧ migrated (mkDataDir m here v)))
    ∨ ∃ phase, phase <= k ∧ k <= phase + 1 ∧ k <= 3 ∧ m = Some (marker_bytes phase) ∧ mkDataDir m here v = ready_at m k)).
  { destruct Hs as [(phase & Ha & Hb & Hc & Hd)|[(-> & Hm & Hh & _)|[-> Hd]]].
    - injection Hd as -> -> ->. split; [done|]. right. by exists phase.
    - cbn in Hm, Hh. subst m here. split; [done|]. left. auto.
    - split; [by injection Hd|]. left. split; [by injection Hd|]. right. done. }
  destruct Hhere as [-> Hm]. apply recover_here_wp. intros keys1 t1. apply wp_bind. apply wp_data_dir. cbn [da_dir dd_marker].
  destruct Hm as [[-> Hk]|(phase & Ha & Hb & Hc & -> & Hd)].
  { cbn [read_private]. apply wp_bind. apply wp_lift_ok. apply wp_ret. cbn [da_dir]. split; [by exists k|].
    by right. }
  apply wp_bind. unfold read_private. rewrite (proj2 (N.ltb_ge _ _) (marker_fits phase)). apply wp_lift_ok.
  rewrite (proj2 (decode_vault_migration_iff (marker_bytes phase) vault_id (byte_of_N phase)) (marker_ok phase ltac:(lia))).
  apply wp_bind. apply wp_lift_ok. apply wp_bind. apply (migration_prepares k); [exact Hs|].
  intros keys2 t2. cbn [da_dir dd_marker]. apply wp_bind, recover_there_wp. intros keys3 t3. apply wp_bind.
  apply wp_data_dir. apply wp_bind.
  assert (Hex : item_exists IReplica (dd_here (ready_at (Some (marker_bytes phase)) k)) = bool_decide (k = 0)).
  { assert (Hcases : k = 0 ∨ k = 1 ∨ k = 2 ∨ k = 3) by lia. by destruct Hcases as [->|[->|[->| ->]]]. }
  cbn [da_dir]. rewrite Hex. apply verify_wp.
  { case_bool_decide as Hk; cbn [da_dir place_of].
    - subst k. by eexists.
    - unfold ready_at. rewrite vault_name_entries. eexists. split; [done|]. cbn. by rewrite (proj2 (N.eqb_neq _ _)). }
  apply wp_bind. rewrite byte_of_N_small by lia. apply move_phases_wp; [lia|lia|done|done|done|].
  intros keys4 t4. apply remove_marker_wp. intros keys5 t5. cbn [da_dir]. split; [exists 3; by right; right|by left].
Qed.

Lemma migrate_wp s :
  migrating (da_dir s) → wp migrate_legacy (λ _ s', migrated (da_dir s')) failed s.
Proof.
  intros [k Hs]. destruct s as [keys [m here v] t]. cbn [da_dir] in *. unfold migrate_legacy. apply wp_bind.
  assert (Hhere : here = here_at k).
  { destruct Hs as [(phase & _ & _ & _ & Hd)|[(-> & _ & Hh & _)|[-> Hd]]]; [by injection Hd|exact Hh|by injection Hd]. }
  subst here. apply recover_here_wp. intros keys1 t1. apply wp_bind. apply wp_data_dir. cbn [da_dir dd_marker].
  case_bool_decide as Hm.
  { eapply wp_mono; [by apply (migration_resumes k)|cbn [da_dir dd_marker]|done]. intros _ s' [_ [Hd|[Hnone _]]]; [done|].
    by rewrite Hnone in Hm; destruct Hm. }
  destruct Hs as [(phase & _ & _ & _ & Hd)|[(-> & Hmark & _ & Hv)|[-> Hd]]].
  - injection Hd as -> _. by destruct Hm.
  - cbn in Hmark, Hv. subst m. unfold read_vault at 1. apply wp_bind, wp_bind. apply wp_data_dir.
    cbn [da_dir place_of dd_here here_at pl_disk dk_admission]. change (0 <=? 2) with true. cbv iota. rewrite read_admission.
    apply wp_lift_ok. destruct (lo_metadata Hok) as (metadata & Hmeta & Hid). rewrite Hmeta.
    apply wp_bind. apply wp_lift_ok. rewrite Hid. apply wp_bind, verify_wp; [by eexists|].
    apply wp_bind. apply (migration_prepares 0). { right. left. split_and!; [done|done|done|exact Hv]. }
    intros keys2 t2. cbn [da_dir dd_marker]. apply wp_bind, write_marker_wp; [lia| |apply ready_stage; lia|].
    { exists 0. right. left. split_and!; [done..|]. by left. }
    intros keys3 t3. eapply wp_mono; [apply (migration_resumes 0); left; exists 0; split_and!; [lia..|done]|cbn [da_dir dd_marker ready_at]|done].
    intros _ s' [_ [Hd|[Hnone _]]]; [done|discriminate Hnone].
  - injection Hd as -> ->. unfold read_vault at 1. apply wp_bind, wp_bind. apply wp_data_dir.
    cbn [da_dir place_of dd_here here_at pl_disk dk_admission]. change (3 <=? 2) with false. cbv iota.
    cbn [read_private]. apply wp_lift_ok. by apply wp_ret.
Qed.
End attempt.

(** Attempts that may each be interrupted, under their own oracles. *)
Inductive Attempt := Migrate (o : Oracle) | Resume (o : Oracle).
Definition attempt (a : Attempt) (s : Data) : Data :=
  match a with
  | Migrate o => (migrate_legacy (H4 := o) s).2
  | Resume o => (resume_migration (H4 := o) s).2
  end.

Lemma attempt_migrating a s : migrating (da_dir s) → migrating (da_dir (attempt a s)).
Proof.
  intros Hs. destruct a as [o|o]; cbn [attempt].
  - pose proof (migrate_wp (H6 := o) s Hs) as Hm. unfold wp in Hm. destruct (migrate_legacy (H4 := o) s) as [[u|e] s'].
    + exists 3. by right; right.
    + by destruct Hm as [Hm _].
  - destruct Hs as [k Hs]. pose proof (migration_resumes (H6 := o) k s Hs) as Hm. unfold wp in Hm.
    destruct (resume_migration (H4 := o) s) as [[u|e] s']; by destruct Hm as [Hm _].
Qed.
Definition attempts (l : list Attempt) (s : Data) : Data := foldl (λ s a, attempt a s) s l.
Lemma attempts_migrating l s : migrating (da_dir s) → migrating (da_dir (attempts l s)).
Proof. revert s. induction l as [|a l IH]; intros s Hs; [done|]. by apply IH, attempt_migrating. Qed.

(** What is in one of two places and not in the other. *)
Definition in_one {A} (x : A) (a b : option A) : Prop := (a = Some x ∧ b = None) ∨ (a = None ∧ b = Some x).
Definition chunks_of (p : Place) : option (gmap ChunkId bytes) := if pl_chunks p then Some (dk_chunks (pl_disk p)) else None.
Definition held (d : DataDir) : Prop :=
  let here := dd_here d in
  let there := default empty_place (place_of (In vault_id) d) in
  in_one replica (dk_replica (pl_disk here)) (dk_replica (pl_disk there))
  ∧ in_one admission (dk_admission (pl_disk here)) (dk_admission (pl_disk there))
  ∧ in_one chunks (chunks_of here) (chunks_of there).

Lemma held_at k :
  k <= 3 → in_one replica (dk_replica (pl_disk (here_at k))) (dk_replica (pl_disk (there_at k)))
    ∧ in_one admission (dk_admission (pl_disk (here_at k))) (dk_admission (pl_disk (there_at k)))
    ∧ in_one chunks (chunks_of (here_at k)) (chunks_of (there_at k)).
Proof.
  intros Hk. assert (Hcases : k = 0 ∨ k = 1 ∨ k = 2 ∨ k = 3) by lia. unfold in_one.
  destruct Hcases as [->|[->|[->| ->]]]; cbn; split_and!; auto.
Qed.
Lemma migrating_held d : migrating d → held d.
Proof.
  intros [k Hs]. unfold held. cbv zeta.
  destruct Hs as [(phase & _ & _ & Hk & ->)|[(-> & Hm & Hh & Hv)|[-> ->]]].
  - cbn [dd_here ready_at place_of]. unfold ready_at. rewrite vault_name_entries. by apply held_at.
  - rewrite Hh. assert (Hp : default empty_place (place_of (In vault_id) d) = there_at 0).
    { cbn [place_of]. unfold entry_of. pose proof (lo_others Hok) as Hn.
      destruct Hv as [->|[->|[-> _]]]; [by rewrite lookup_insert_eq|by rewrite Hn|done]. }
    rewrite Hp. by apply held_at.
  - cbn [dd_here ready_at place_of]. unfold ready_at. rewrite vault_name_entries. by apply held_at.
Qed.
End migration.

(** C33: a migration of a vault to its own directory, interrupted anywhere and resumed any number of
    times, each time to be interrupted again, has at every moment the vault's replica, chunks and
    admission file each in exactly one of the two places and as they were; and an attempt in which
    no step fails ends it, with all three moved, the marker gone and the other vaults untouched. *)
Theorem migration_safe vault_id replica admission chunks others l (s : Data) (last : Oracle) :
  legacy_ok vault_id replica admission others →
  da_dir s = mkDataDir None (mkPlace (mkDisk (Some admission) (Some replica) None chunks) true) (NDirectory others)
  ∨ others = ∅ ∧ da_dir s = mkDataDir None (mkPlace (mkDisk (Some admission) (Some replica) None chunks) true) NAbsent →
  (∀ tick, oc_write tick = Written) → (∀ tick, oc_remove tick = Removed) →
  let s' := attempts l s in
  held vault_id replica admission chunks (da_dir s')
  ∧ let '(r, s2) := migrate_legacy s' in
    r = Ok tt
    ∧ da_dir s2 = mkDataDir None empty_place
        (NDirectory (<[vault_name vault_id := NDirectory (mkPlace (mkDisk (Some admission) (Some replica) None chunks) true)]> others)).
Proof.
  intros Hok Hs Hw Hr. cbv zeta.
  assert (Hm : migrating vault_id replica admission chunks others (da_dir s)).
  { exists 0. right. left. destruct Hs as [->|[Hempty ->]]; split_and!; [done..|by right; left|done|done|done|by right; right]. }
  pose proof (attempts_migrating vault_id replica admission chunks others Hok l s Hm) as Hm'.
  split; [by eapply migrating_held|].
  pose proof (migrate_wp vault_id replica admission chunks others Hok _ Hm') as Hlast. unfold wp in Hlast.
  destruct (migrate_legacy (attempts l s)) as [[[]|e] s2]; [by split|]. by destruct Hlast as [_ []].
Qed.

(** ** Listing *)

Lemma vault_name_inj a b : vault_name a = vault_name b → a = b.
Proof.
  intros Hn. unfold vault_name in Hn. pose proof (hex_pairs_hex "" (array_bytes a)) as Hp.
  rewrite Hn, hex_pairs_hex in Hp. injection Hp as Hp. by apply array_eq.
Qed.
Lemma vault_name_visible id : head (vault_name id) ≠ Some Byte.x2e.
Proof.
  unfold vault_name. pose proof (length_array id) as Hl. destruct (array_bytes id) as [|b l]; [discriminate Hl|].
  rewrite hex_cons. intros [= Hh]. destruct (nibbles (byte_N b) (byte_N_bound b)) as (Hn & _ & _).
  pose proof (hex_char_digit "" _ Hn) as Hd. rewrite Hh in Hd. discriminate Hd.
Qed.

(** The names in [vaults/]. *)
Definition names (d : DataDir) : gset bytes :=
  match dd_vaults d with NDirectory entries => dom entries | _ => ∅ end.

(** Only what is in [l] changed. *)
Definition only_at (l : Location) (d d' : DataDir) : Prop :=
  (∀ l', l' ≠ l → place_of l' d' = place_of l' d) ∧ names d' = names d.

Lemma set_place_only l p d : is_Some (place_of l d) → only_at l d (set_place l p d).
Proof.
  intros Hp. destruct d as [m here v]. destruct l as [|id]; cbn in Hp |- *.
  { split; [|done]. by intros [|id']. }
  unfold only_at, set_entry, place_of, entry_of, names in *. destruct v as [| |entries]; cbn in Hp |- *; [done..|]. split.
  - intros [|id'] Hne; [done|]. cbn. rewrite lookup_insert_ne; [done|]. intros Hn%vault_name_inj. by subst.
  - rewrite dom_insert_L. destruct (entries !! vault_name id) eqn:He; [|by destruct Hp].
    apply elem_of_dom_2 in He. set_solver.
Qed.
Lemma on_place_only {A} l (m : SM World A) s : only_at l (da_dir s) (da_dir (on_place l m s).2).
Proof.
  unfold on_place. destruct (place_of l (da_dir s)) eqn:Hp; [|done]. destruct (m _) as [r w]. cbn [da_dir snd].
  apply set_place_only. by rewrite Hp.
Qed.

Lemma read_vault_wp l file (Q : option bytes → Data → Prop) (E : Data → Prop) s :
  (∀ content, (content = match place_of l (da_dir s) with Some p => file (pl_disk p) | None => None end) → Q content s) →
  E s → wp (read_vault l file) Q E s.
Proof.
  intros HQ HE. unfold read_vault, wp, sm_bind, data_dir. destruct (place_of l (da_dir s)); [|by apply HQ].
  unfold sm_lift, read_private. destruct (file (pl_disk p)) as [content|] eqn:Hf; [|by apply HQ].
  destruct (MAX_STORE_BYTES <? lenN content); [done|by apply HQ].
Qed.

(** What is hosted: an admission file and a replica of the vault. *)
Definition verified (d : DataDir) (v : VaultId * Location) : Prop :=
  (v.2 = Here ∨ v.2 = In v.1)
  ∧ ∃ p admission m replica, place_of v.2 d = Some p
  ∧ dk_admission (pl_disk p) = Some admission ∧ decode_vault_metadata admission = Ok m ∧ vm_vault_id m = v.1
  ∧ dk_replica (pl_disk p) = Some replica ∧ is_ok (decode_replica replica v.1) = true.

Lemma verify_replica_wp l id (Q : unit → Data → Prop) (E : Data → Prop) s :
  ((∃ p replica, place_of l (da_dir s) = Some p ∧ dk_replica (pl_disk p) = Some replica
     ∧ is_ok (decode_replica replica id) = true) → Q tt s) → E s →
  wp (verify_replica l id) Q E s.
Proof.
  intros HQ HE. unfold verify_replica. apply wp_bind, read_vault_wp; [|done]. intros content Hc.
  apply wp_bind, wp_lift; [|done]. intros replica Hr. destruct content as [?|]; [|done]. injection Hr as ->.
  apply wp_bind, wp_lift; [|done]. intros x Hx. apply wp_ret, HQ. destruct (place_of l (da_dir s)) as [p|]; [|done].
  exists p, replica. by rewrite Hx.
Qed.

Section listing.
Context `{Oracle}.

Lemma discover_entry_wp found name node s :
  wp (discover_entry found (name, node)) (λ found' s',
    (head name = Some Byte.x2e ∧ found' = found ∧ s' = s)
    ∨ ∃ id, name = vault_name id ∧ found' = (found ++ [(id, In id)]) ∧ (id ∉ found.*1)
        ∧ verified (da_dir s') (id, In id) ∧ only_at (In id) (da_dir s) (da_dir s')) (λ _, True) s.
Proof.
  unfold discover_entry. apply wp_if; intros _; [|done]. apply wp_if; intros _; [|done].
  case_bool_decide as Hdot; [by apply wp_ret; left|].
  apply wp_bind, wp_lift; [|done]. intros id Hid%parse_hex_exact. apply wp_bind.
  pose proof (on_place_only (In id) recover_admission_transaction s) as Honly.
  unfold recover_at, wp at 1. destruct (on_place _ _ s) as [[[]|e] s1]; [|done]. cbn in Honly.
  apply wp_bind, read_vault_wp; [|done]. intros admission Ha. apply wp_bind, wp_lift; [|done]. intros content Hc.
  apply wp_bind, wp_lift; [|done]. intros m Hm. apply wp_if; [|done]. intros Heq%bool_decide_eq_true.
  apply wp_if; [|done]. intros Hnew%negb_true_iff%bool_decide_eq_false.
  apply wp_bind, verify_replica_wp; [|done]. intros (p & replica & Hp & Hr & Hd). apply wp_ret. right. exists id.
  split_and!; [done..| |done]. split; [by right|]. exists p, content, m, replica. destruct admission as [?|]; [|done]. injection Hc as ->.
  rewrite Hp in Ha. by split_and!.
Qed.

Lemma verified_only id d d' v : only_at (In id) d d' → v.1 ≠ id → verified d v → verified d' v.
Proof.
  intros Honly Hne (Hl & p & a & m & r & Hp & Hrest). split; [done|]. exists p, a, m, r. split; [|done].
  rewrite <-Hp. apply Honly. destruct Hl as [->| ->]; congruence.
Qed.

(** Every entry: those that are listed, and those that are not to be hosted. *)
Lemma discover_fold_wp l found s :
  NoDup found.*1 → Forall (verified (da_dir s)) found →
  wp (sm_fold discover_entry l found) (λ found' s',
    NoDup found'.*1 ∧ Forall (verified (da_dir s')) found' ∧ names (da_dir s') = names (da_dir s)
    ∧ dd_here (da_dir s') = dd_here (da_dir s) ∧ found ⊆ found'
    ∧ ∀ name, name ∈ l.*1 → head name ≠ Some Byte.x2e → ∃ id, name = vault_name id ∧ (id, In id) ∈ found')
    (λ _, True) s.
Proof.
  revert found s. induction l as [|[name node] l IH]; intros found s Hn Hv; cbn [sm_fold].
  { apply wp_ret. split_and!; [done..|]. intros name Hin. by apply not_elem_of_nil in Hin. }
  apply wp_bind. eapply wp_mono; [apply discover_entry_wp| |done]. cbn beta.
  intros found1 s1 [(Hdot & -> & ->)|(id & Hid & -> & Hnew & Hver & Honly)].
  - eapply wp_mono; [by apply IH| |done]. cbn beta. intros found' s' (Ha & Hb & Hc & Hh & Hd & He). split_and!; [done..|].
    intros name' Hin Hvis. cbn in Hin. apply elem_of_cons in Hin as [->|Hin]; [done|]. by apply He.
  - eapply wp_mono; [apply IH| |done].
    + rewrite fmap_app. apply NoDup_app. split_and!; [done| |apply NoDup_singleton].
      intros x Hx Hx'. apply list_elem_of_singleton in Hx'. cbn in Hx'. by subst x.
    + apply Forall_app. split; [|by constructor]. rewrite Forall_forall in Hv |- *. intros v Hin.
      eapply verified_only; [done| |by apply Hv]. intros <-. apply Hnew. by apply list_elem_of_fmap_2.
    + cbn beta. intros found' s' (Ha & Hb & Hc & Hh & Hd & He). split_and!; [done..| | | |].
      * rewrite Hc. apply Honly.
      * rewrite Hh. pose proof (proj1 Honly Here ltac:(done)) as Hp. by injection Hp.
      * intros v Hin. apply Hd. apply elem_of_app. by left.
      * intros name' Hin Hvis. cbn in Hin. apply elem_of_cons in Hin as [->|Hin]; [|by apply He].
        exists id. split; [done|]. apply Hd. apply elem_of_app. right. by left.
Qed.

Lemma discover_here_wp s :
  wp (discover_here []) (λ found s', s' = s ∧ NoDup found.*1 ∧ Forall (verified (da_dir s')) found
    ∧ (is_Some (dk_admission (pl_disk (dd_here (da_dir s)))) → ∃ id, (id, Here) ∈ found)) (λ _, True) s.
Proof.
  unfold discover_here. apply wp_bind, read_vault_wp; [|done]. intros admission Ha.
  cbn [place_of] in Ha. destruct admission as [content|].
  - apply wp_bind, wp_lift; [|done]. intros m Hm. apply wp_bind, verify_replica_wp; [|done].
    intros (p & replica & Hp & Hr & Hd). apply wp_ret. cbn [app]. split_and!; [done|apply NoDup_singleton| |].
    + constructor; [|done]. split; [by left|]. exists p, content, m, replica. injection Hp as <-. by split_and!.
    + intros _. exists (vm_vault_id m). by left.
  - apply wp_ret. split_and!; [done|constructor|constructor|]. rewrite <-Ha. by intros [].
Qed.

(** What is listed, in order: the vault of the older layout, and one per visible name. *)
Definition listed (d : DataDir) (found : list (VaultId * Location)) : Prop :=
  NoDup found.*1 ∧ StronglySorted entry_le found ∧ Forall (verified d) found
  ∧ (is_Some (dk_admission (pl_disk (dd_here d))) → ∃ id, (id, Here) ∈ found)
  ∧ ∀ name, name ∈ names d → head name ≠ Some Byte.x2e → ∃ id, name = vault_name id ∧ (id, In id) ∈ found.

Lemma discover_vaults_wp s : wp discover_vaults (λ found s', listed (da_dir s') found) (λ _, True) s.
Proof.
  unfold discover_vaults. apply wp_bind. eapply wp_mono; [apply wp_any| |done]. intros _ s1 _.
  apply wp_bind. eapply wp_mono; [apply wp_any| |done]. intros _ s2 _. apply wp_bind.
  eapply wp_mono; [apply discover_here_wp| |done]. cbn beta. intros found s3 (-> & Hn & Hv & Hhere).
  apply wp_bind. unfold wp at 1, data_dir. cbv iota.
  apply wp_bind. eapply (wp_mono _ (λ found' s', NoDup found'.*1 ∧ Forall (verified (da_dir s')) found'
    ∧ (is_Some (dk_admission (pl_disk (dd_here (da_dir s')))) → ∃ id, (id, Here) ∈ found')
    ∧ ∀ name, name ∈ names (da_dir s') → head name ≠ Some Byte.x2e → ∃ id, name = vault_name id ∧ (id, In id) ∈ found')
    _ (λ _, True)); [| |done].
  - destruct (dd_vaults (da_dir s2)) as [| |entries] eqn:Hd; [|done|].
    + apply wp_ret. split_and!; [done..|]. unfold names. rewrite Hd. set_solver.
    + eapply wp_mono; [by apply discover_fold_wp| |done]. cbn beta. intros found' s' (Ha & Hb & Hc & Hh & Hsub & He).
      split_and!; [done|done| |].
      * rewrite Hh. intros Hs. destruct (Hhere Hs) as [id Hin]. exists id. by apply Hsub.
      * intros name Hname. apply He. rewrite listing_perm. rewrite Hc in Hname. unfold names in Hname. rewrite Hd in Hname.
        apply elem_of_dom in Hname as [node Hnode]. apply list_elem_of_fmap. exists (name, node).
        split; [done|]. by apply elem_of_map_to_list.
  - cbn beta. intros found' s' (Ha & Hb & Hc & Hd). apply wp_ret. pose proof (merge_sort_Permutation entry_le found') as Hp.
    split_and!.
    + by rewrite Hp.
    + apply (StronglySorted_merge_sort entry_le).
    + by rewrite Hp.
    + intros Hs. destruct (Hc Hs) as [id Hin]. exists id. by rewrite Hp.
    + intros name Hname Hvis. destruct (Hd name Hname Hvis) as (id & -> & Hin). exists id. by rewrite Hp.
Qed.

(** ** A vault whose creation did not finish *)

Section unfinished.
Context (id : VaultId) (p : Place) (Hj : dk_journal (pl_disk p) = None).

(** The directory of the vault as it was left, and no migration under way. *)
Definition left_at (s : Data) : Prop := entry_of id (da_dir s) = NDirectory p ∧ dd_marker (da_dir s) = None.

Lemma recover_at_left l s : left_at s → left_at (recover_at l s).2.
Proof.
  intros [He Hm]. split.
  - destruct (decide (l = In id)) as [->|Hl].
    + unfold recover_at, on_place. cbn [place_of]. rewrite He, recover_without_journal by done. cbn [w_disk w_keys w_tick snd da_dir set_place].
      unfold set_entry, entry_of in *. destruct (dd_vaults (da_dir s)) as [| |entries]; [done..|]. cbn in He |- *.
      rewrite lookup_insert_eq. by destruct p.
    + destruct (on_place_only l recover_admission_transaction s) as [Ho Hn]. specialize (Ho (In id) ltac:(done)).
      set (d' := da_dir (on_place l recover_admission_transaction s).2) in *. cbn [place_of] in Ho. rewrite He in Ho.
      change (da_dir (recover_at l s).2) with d'. destruct (entry_of id d') as [| |p']; [done..|]. by injection Ho as ->.
  - unfold recover_at, on_place. destruct (place_of l (da_dir s)) as [q|]; [|done]. destruct (recover_admission_transaction _) as [r w].
    cbn [snd da_dir]. destruct l as [|id']; [done|]. cbn [set_place]. unfold set_entry. by destruct (dd_vaults (da_dir s)).
Qed.

Lemma read_vault_left l file s : left_at s → wp (read_vault l file) (λ _, left_at) (λ _, True) s.
Proof. intros Hs. by apply read_vault_wp. Qed.
Lemma verify_replica_left l id' s : left_at s → wp (verify_replica l id') (λ _, left_at) (λ _, True) s.
Proof. intros Hs. by apply verify_replica_wp. Qed.
Lemma recover_left l s : left_at s → wp (recover_at l) (λ _, left_at) (λ _, True) s.
Proof. intros Hs. pose proof (recover_at_left l s Hs) as Hr. unfold wp. by destruct (recover_at l s) as [[x|e] s']. Qed.

Lemma discover_entry_left found entry s :
  left_at s → wp (discover_entry found entry) (λ _, left_at) (λ _, True) s.
Proof.
  intros Hs. destruct entry as [name node]. unfold discover_entry. apply wp_if; [intros _|done]. apply wp_if; [intros _|done].
  case_bool_decide; [done|]. apply wp_bind, wp_lift; [intros id' _|done].
  apply wp_bind. eapply wp_mono; [by apply recover_left| |done]. intros [] s1 Hs1.
  apply wp_bind. eapply wp_mono; [by apply read_vault_left| |done]. intros content s2 Hs2.
  apply wp_bind, wp_lift; [intros admission _|done]. apply wp_bind, wp_lift; [intros m _|done].
  apply wp_if; [intros _|done]. apply wp_if; [intros _|done].
  apply wp_bind. by eapply wp_mono; [apply verify_replica_left|..].
Qed.

Lemma discover_vaults_left s : left_at s → wp discover_vaults (λ _, left_at) (λ _, True) s.
Proof.
  intros Hs. unfold discover_vaults. apply wp_bind. eapply wp_mono; [by apply recover_left| |done]. intros [] s1 Hs1.
  apply wp_bind. unfold resume_migration at 1. apply wp_bind. eapply wp_mono; [by apply recover_left| |done].
  intros [] s2 Hs2. apply wp_bind, wp_data_dir. rewrite (proj2 Hs2). apply wp_bind, wp_lift_ok, wp_ret.
  apply wp_bind. eapply (wp_mono _ (λ _, left_at) _ (λ _, True)); [|intros found s3 Hs3|done].
  { unfold discover_here. apply wp_bind. eapply wp_mono; [by apply read_vault_left| |done]. intros [admission|] s3 Hs3; [|done].
    apply wp_bind, wp_lift; [intros m _|done]. apply wp_bind. by eapply wp_mono; [apply verify_replica_left|..]. }
  apply wp_bind, wp_data_dir, wp_bind. eapply (wp_mono _ (λ _, left_at) _ (λ _, True)); [|intros ? s4 Hs4; exact Hs4|done].
  cbn beta in Hs3. destruct (dd_vaults (da_dir s3)) as [| |entries]; [exact Hs3|by apply wp_err|]. revert found s3 Hs3.
  induction (listing entries) as [|entry l IH]; intros found s3 Hs3; [exact Hs3|]. cbn [sm_fold]. apply wp_bind.
  eapply wp_mono; [by apply discover_entry_left| |done]. intros found' s4 Hs4. by apply IH.
Qed.

(** Nothing is hosted. *)
Lemma unfinished_stops s :
  left_at s → dk_replica (pl_disk p) = None → is_ok (discover_vaults s).1 = false.
Proof.
  intros Hs Hr. pose proof (discover_vaults_left s Hs) as Hl. pose proof (discover_vaults_wp s) as Hw. unfold wp in *.
  destruct (discover_vaults s) as [[found|e] s']; [|done]. destruct Hl as [He _]. destruct Hw as (_ & _ & Hv & _ & Hn).
  destruct (Hn (vault_name id)) as (id' & Hid & Hin).
  - unfold names, entry_of in *. destruct (dd_vaults (da_dir s')) as [| |entries]; [done..|].
    apply elem_of_dom. by destruct (entries !! vault_name id).
  - apply vault_name_visible.
  - apply vault_name_inj in Hid as <-. rewrite Forall_forall in Hv.
    destruct (Hv _ Hin) as (_ & q & a & m & r & Hq & _ & _ & _ & Hqr & _). cbn in Hq. rewrite He in Hq.
    injection Hq as <-. by rewrite Hr in Hqr.
Qed.
End unfinished.

Lemma io_step_only f s : wp (io_step f) (λ _ s', da_dir s' = f (da_dir s)) (λ _, True) s.
Proof. unfold wp, io_step, sm_bind, data_draw. cbn. by destruct (oc_write (da_tick s)). Qed.

Lemma prepare_new_wp id s :
  wp (prepare_vault_directory id) (λ _ s', dd_marker (da_dir s') = dd_marker (da_dir s)
    ∧ (entry_of id (da_dir s) = NAbsent → entry_of id (da_dir s') = NDirectory empty_place)) (λ _, True) s.
Proof.
  unfold prepare_vault_directory. apply wp_bind.
  eapply (wp_mono _ (λ _ s1, (∃ entries, dd_vaults (da_dir s1) = NDirectory entries)
    ∧ entry_of id (da_dir s1) = entry_of id (da_dir s) ∧ dd_marker (da_dir s1) = dd_marker (da_dir s)) _ (λ _, True)); [| |done].
  - unfold ensure_root. apply wp_bind, wp_data_dir.
    destruct (dd_vaults (da_dir s)) as [| |entries] eqn:Hv; [|done|]; (eapply wp_mono; [apply io_step_only| |done]).
    + intros [] s1 ->. cbn. split_and!; [by eexists| |done]. unfold entry_of. cbn. by rewrite Hv, lookup_empty.
    + intros [] s1 ->. split_and!; [by eexists|done|done].
  - intros [] s1 ((entries & Hv) & He1 & Hm). unfold ensure_vault. apply wp_bind, wp_data_dir.
    destruct (entry_of id (da_dir s1)) as [| |q] eqn:He; [|done|]; (eapply wp_mono; [apply io_step_only| |done]).
    + intros [] s2 ->. unfold set_entry. rewrite Hv. cbn. split; [done|]. intros _.
      unfold entry_of. cbn. by rewrite lookup_insert_eq.
    + intros [] s2 ->. split; [done|]. by rewrite <-He1.
Qed.

Lemma ks_peer_Ok k id k' : ks_peer k = (Ok id, k') → id = local_id k.
Proof. unfold ks_peer, query, lock, sm_bind. destruct (si_failed k); [done|]. by intros [= <- _]. Qed.

(** A new vault's directory holds the admission file and nothing else. *)
Lemma create_wp code s :
  wp (create_vault_dir_with_code code) (λ id s', entry_of id (da_dir s) = NAbsent →
    dd_marker (da_dir s') = dd_marker (da_dir s)
    ∧ ∃ content, encode_vault_metadata (mkVaultMetadata id code u64_zero [local_id (da_keys s)] ∅) = Ok content
        ∧ lenN content <= MAX_STORE_BYTES ∧ entry_of id (da_dir s') = NDirectory (mkPlace (mkDisk (Some content) None None ∅) false)) (λ _, True) s.
Proof.
  unfold create_vault_dir_with_code. apply wp_bind. unfold data_random. apply wp_bind. unfold wp at 1, data_draw. cbv iota.
  apply wp_lift; [intros id _|done]. cbn [da_keys da_dir].
  apply wp_bind. unfold wp at 1, data_keys. cbn [da_keys da_dir da_tick].
  destruct (ks_peer (da_keys s)) as [[local|e] k] eqn:Hk; [|done]. assert (local = local_id (da_keys s)) as -> by exact (ks_peer_Ok _ _ _ Hk).
  apply wp_bind. eapply wp_mono; [apply prepare_new_wp| |done]. cbn [da_dir]. intros [] s1 [Hm1 He1].
  apply wp_bind, wp_data_dir. destruct (place_of (In id) (da_dir s1)) as [p|] eqn:Hp; [|done].
  apply wp_if; [intros _|done]. apply wp_bind, wp_lift; [intros content Hc|done].
  apply wp_bind. unfold on_place, wp at 1. rewrite Hp.
  destruct (World.atomic_private_write _ _ _) as [[u|e] w] eqn:Hw; [|done]. apply wp_ret. intros He. cbn [da_dir].
  specialize (He1 He). cbn [place_of] in Hp. rewrite He1 in Hp. injection Hp as <-.
  assert (Hdisk : lenN content <= MAX_STORE_BYTES ∧ w_disk w = mkDisk (Some content) None None ∅).
  { eapply (wp_Ok _ (λ _ w, _ ∧ w_disk w = mkDisk (Some content) None None ∅) (λ _, True)) in Hw; [done|].
    by apply write_wp. }
  destruct Hdisk as [Hlen ->]. cbn [set_place]. split.
  - unfold set_entry. by destruct (dd_vaults (da_dir s1)).
  - exists content. split_and!; [done..|]. unfold set_entry, entry_of in *. destruct (dd_vaults (da_dir s1)) as [| |entries]; [done..|].
    cbn. by rewrite lookup_insert_eq.
Qed.
End listing.

(** C34: the vaults that are listed to be hosted are exactly those there are: every visible entry of
    [vaults/] and the vault of the older layout, each once, in the order of their ids, and each with
    an admission file and a replica of that very vault. *)
Theorem discover_exact (o : Oracle) (s s' : Data) found :
  discover_vaults (H4 := o) s = (Ok found, s') → listed (da_dir s') found.
Proof. apply (wp_Ok _ _ _ _ _ _ (discover_vaults_wp (H6 := o) s)). Qed.

(** C35: creating a vault writes its admission file, with this member and the code that was drawn,
    and nothing else; until its first replica is written, listing what to host fails, and with it
    the hosting of every other vault of the data directory. *)
Theorem interrupted_creation (o later : Oracle) code (s s' : Data) vault_id :
  dd_marker (da_dir s) = None → entry_of vault_id (da_dir s) = NAbsent →
  create_vault_dir_with_code (H4 := o) code s = (Ok vault_id, s') →
  (∃ admission, place_of (In vault_id) (da_dir s') = Some (mkPlace (mkDisk (Some admission) None None ∅) false)
     ∧ decode_vault_metadata admission = Ok (mkVaultMetadata vault_id code u64_zero [local_id (da_keys s)] ∅))
  ∧ is_ok (discover_vaults (H4 := later) s').1 = false.
Proof.
  intros Hm Hn Hc. pose proof (wp_Ok _ _ _ _ _ _ (create_wp (H6 := o) code s) Hc Hn) as (Hm' & admission & Ha & Hlen & He).
  split.
  - exists admission. cbn [place_of]. rewrite He. split; [done|]. apply decode_vault_metadata_spec.
    { unfold fits, usize_limit, u64_limit, MAX_STORE_BYTES in *. lia. }
    split; [by left|]. by repeat constructor; apply not_elem_of_nil.
  - eapply (unfinished_stops (H6 := later)); [|split; [exact He|by rewrite Hm']|done]. done.
Qed.
End claims.

(** ** A data directory of the older layout *)

Section sample.
#[local] Existing Instances sample_sha256 sample_mldsa sample_xwing sample_gcm sample_hkdf sample_oracle.

Definition sample_metadata_file : bytes :=
  match encode_vault_metadata (mkVaultMetadata (array_N 32 7) (array_N 16 3) u64_zero [array_N 32 5] ∅) with
  | Ok l => l
  | Err _ => []
  end.
Definition sample_replica_file : bytes :=
  match encode_replica (ReplicaMetadata_new (array_N 32 7)) (u64! 1) with Ok l => l | Err _ => [] end.
Definition sample_place : Place :=
  mkPlace (mkDisk (Some sample_metadata_file) (Some sample_replica_file) None {[ array_N 32 1 := [Byte.x2a] ]}) true.
#[local] Existing Instance sample_listing.

Definition older_layout : Data := mkData bare_store (mkDataDir None sample_place NAbsent) 0.

(** Two attempts that die on the way. *)
Definition sample_attempts : list Attempt := [Migrate (dying_oracle 4); Resume (dying_oracle 9)].

Lemma sample_legacy : legacy_ok (array_N 32 7) sample_replica_file sample_metadata_file ∅.
Proof.
  split.
  - vm_compute. discriminate.
  - assert (Hm : match decode_vault_metadata sample_metadata_file with
      | Ok m => bool_decide (vm_vault_id m = array_N 32 7) | Err _ => false end = true) by (vm_compute; reflexivity).
    destruct (decode_vault_metadata sample_metadata_file) as [m|]; [|done]. exists m. by apply bool_decide_eq_true in Hm.
  - vm_compute. discriminate.
  - vm_compute. reflexivity.
  - apply lookup_empty.
Qed.

Lemma migration_safe_witness :
  bool_decide (is_Some (dd_marker (da_dir (attempts sample_attempts older_layout)))) = true
  ∧ dd_here (da_dir (migrate_legacy (attempts sample_attempts older_layout)).2) = empty_place.
Proof.
  pose proof (migration_safe (array_N 32 7) sample_replica_file sample_metadata_file {[ array_N 32 1 := [Byte.x2a] ]} ∅
    sample_attempts older_layout sample_oracle sample_legacy (or_intror (conj eq_refl eq_refl))
    (λ _, eq_refl) (λ _, eq_refl)) as Hm.
  cbv zeta in Hm. destruct (migrate_legacy (attempts sample_attempts older_layout)) as [r s2] eqn:He.
  split; [vm_compute; reflexivity|]. destruct Hm as (_ & _ & Hd). cbn [snd]. rewrite Hd. reflexivity.
Defined.

(** What is left when the creation of a vault was the last thing the process did. *)
Definition created := create_vault_dir_with_code (array_N 16 9) older_layout.
Definition created_id : VaultId := match created.1 with Ok id => id | Err _ => sample_id end.

Lemma created_Ok : created = (Ok created_id, created.2).
Proof.
  assert (Hok : is_ok created.1 = true) by (vm_compute; reflexivity).
  unfold created_id. by destruct created as [[id|e] s'].
Qed.

Lemma interrupted_creation_witness :
  is_ok (discover_vaults older_layout).1 = true ∧ is_ok (discover_vaults created.2).1 = false.
Proof.
  split; [vm_compute; reflexivity|].
  exact (proj2 (interrupted_creation sample_oracle sample_oracle (array_N 16 9) older_layout created.2 created_id
    eq_refl eq_refl created_Ok)).
Defined.

(** Both layouts at once. *)
Definition both_layouts : Data := set_da_dir
  (mkDataDir None sample_place (NDirectory {[ bstr ".removed" := NDirectory empty_place ]})) older_layout.

Lemma discover_exact_witness :
  let '(r, s') := discover_vaults both_layouts in is_ok r = true ∧ listed (da_dir s') (match r with Ok l => l | Err _ => [] end).
Proof.
  assert (Hok : is_ok (discover_vaults both_layouts).1 = true) by (vm_compute; reflexivity).
  destruct (discover_vaults both_layouts) as [[found|e] s'] eqn:Hd; [|discriminate Hok].
  exact (conj eq_refl (discover_exact sample_oracle both_layouts s' found Hd)).
Defined.
End sample.
