(* ===== verification/Admin.v ===== *)
(** * The administration port ([net/admin.rs])

    The line protocol of the desktop application on the host's machine: listing what is hosted,
    creating and forgetting vaults, removing members and rotating join codes.  The vaults in memory
    are those of [Hosting], the directories those of [VaultDirs]; next to a vault's files is
    [app-meta], which only this port reads.  While a call to the directory server or the next line
    is awaited other tasks run: what they do to the process is a parameter.

    A vault's files belong to its host while it is hosted; what [VaultDirs] keeps of them is
    brought up to date when its directory is renamed. *)
From S2P Require Export Lines VaultDirs.
From Stdlib Require Import Lia ZifyN ZifyNat ZifyBool.

Open Scope N_scope.

Definition MAX_ADMIN_LINE : N := 4096.

(** ** Text *)

Definition word (s : list N) (w : list (list N)) : list N := s ++ 32 :: spaced w.
Definition hex_text (l : array 32) : list N := map byte_N (hex (array_bytes l)).

Fixpoint joined (sep : N) (ls : list (list N)) : list N :=
  match ls with [] => [] | [l] => l | l :: ls => l ++ sep :: joined sep ls end.

(** [str::lines] *)
Definition strip_return (line : list N) : list N :=
  match last line with Some 13 => removelast line | _ => line end.
Fixpoint lines_from (line s : list N) : list (list N) :=
  match s with
  | [] => match line with [] => [] | _ => [line] end
  | c :: s => if c =? 10 then strip_return line :: lines_from [] s else lines_from (line ++ [c]) s
  end.
Definition lines (s : list N) : list (list N) := lines_from [] s.

(** [split_once] *)
Fixpoint split_once (sep : N) (s : list N) : option (list N * list N) :=
  match s with
  | [] => None
  | c :: s => if c =? sep then Some ([], s) else '(key, value) ← split_once sep s; Some (c :: key, value)
  end.

Fixpoint strip_prefix (prefix s : list N) : option (list N) :=
  match prefix, s with
  | [], _ => Some s
  | p :: prefix, c :: s => if p =? c then strip_prefix prefix s else None
  | _ :: _, [] => None
  end.

(** The fold goes over the bytes both have; the lengths are compared at the end. *)
Fixpoint differences (diff : N) (l r : bytes) : N :=
  match l, r with
  | a :: l, b :: r => differences (N.lor diff (N.lxor (byte_N a) (byte_N b))) l r
  | _, _ => diff
  end.
Definition constant_time_eq (l r : bytes) : bool := (lenN l =? lenN r) && (differences 0 l r =? 0).

(** ** [app-meta] *)

Record AppMeta := mkAppMeta { am_quota : u64; am_created_ms : u64; am_creator : list N; am_short : list N }.
Definition set_am_short v m := mkAppMeta (am_quota m) (am_created_ms m) (am_creator m) v.

Definition no_meta : AppMeta := mkAppMeta u64_zero u64_zero (str "-") [].
Definition meta_set (meta : AppMeta) (key value : list N) : AppMeta :=
  if bool_decide (key = str "quota") then
    mkAppMeta (default u64_zero (parse_u64 value)) (am_created_ms meta) (am_creator meta) (am_short meta)
  else if bool_decide (key = str "created_ms") then
    mkAppMeta (am_quota meta) (default u64_zero (parse_u64 value)) (am_creator meta) (am_short meta)
  else if bool_decide (key = str "creator") then
    mkAppMeta (am_quota meta) (am_created_ms meta) (one_line value) (am_short meta)
  else if bool_decide (key = str "short") then
    set_am_short (map byte_N (default [] (normalize_chars value))) meta
  else meta.
Definition meta_line (meta : AppMeta) (line : list N) : AppMeta :=
  match split_once 61 line with
  | None => meta
  | Some (key, value) => meta_set meta key (trim value)
  end.
(** [AppMeta::read], of the file's content. *)
Definition AppMeta_read (content : option bytes) : AppMeta :=
  match content ≫= from_utf8 with
  | None => no_meta
  | Some text => foldl meta_line no_meta (lines text)
  end.
(** The text that [AppMeta::write] writes. *)
Definition meta_text (meta : AppMeta) : list N :=
  str "quota=" ++ decimal (u64_N (am_quota meta)) ++ 10 ::
  str "created_ms=" ++ decimal (u64_N (am_created_ms meta)) ++ 10 ::
  str "creator=" ++ am_creator meta ++ 10 ::
  str "short=" ++ am_short meta ++ [10].

Section admin.
Context `{Sha256, MlDsa65, XWing, AesGcm, HkdfSha256, Oracle, SocketAddrs, ReadDir, IoText}.

(** [AdminContext], without what changes *)
Record AdminContext := mkAdminContext {
  cx_token : list N;
  (** Whether there is a directory server. *)
  cx_directory : bool;
  cx_directory_addr : option SocketAddr;
  cx_advertise_addr : SocketAddr;
  cx_capacity_bytes : u64;
}.

(** The process, the data directory and the [app-meta] files by the name of their directory. *)
Record Admin := mkAdmin { ad_hosting : Hosting; ad_dir : DataDir; ad_meta : gmap bytes bytes }.
Definition set_ad_hosting v a := mkAdmin v (ad_dir a) (ad_meta a).
Definition set_ad_dir v a := mkAdmin (ad_hosting a) v (ad_meta a).
Definition set_ad_meta v a := mkAdmin (ad_hosting a) (ad_dir a) v.
Definition ad_tick (a : Admin) : nat := ho_tick (ad_hosting a).
Definition set_ad_tick (t : nat) (a : Admin) : Admin := set_ad_hosting (set_ho_tick t (ad_hosting a)) a.

(** What becomes of the call to the directory server that is made at a tick, and what the other
    tasks do until then. *)
Class Remote := { rm_reply : nat → Result unit; rm_meanwhile : nat → Admin → Admin }.
Context `{Remote} (ctx : AdminContext).

Definition admin_draw {A} (f : nat → A) : SM Admin A := λ a, (Ok (f (ad_tick a)), set_ad_tick (S (ad_tick a)) a).
Definition admin_draw_ok {A} (f : nat → Result A) : SM Admin A := do! r := admin_draw f in sm_lift r.
Definition on_hosting {A} (m : SM Hosting A) : SM Admin A := sm_zoom ad_hosting set_ad_hosting m.
Definition on_data {A} (m : SM Data A) : SM Admin A := λ a,
  let h := ad_hosting a in
  let '(r, s) := m (mkData (ho_keys h) (ad_dir a) (ho_tick h)) in
  (r, mkAdmin (set_ho_tick (da_tick s) (set_ho_keys (da_keys s) h)) (da_dir s) (ad_meta a)).

(** A call on a host that changes nothing of it. *)
Definition peek {A} (address : N) (m : SM HostService A) : SM Hosting (Result A) := λ h,
  match ho_cells h !! address with
  | None => (Err (State "vault host is gone"), h)
  | Some v =>
      let '(r, s) := m (vh_host (load_vault (ho_keys h) (ho_tick h) v)) in
      (Ok r, set_ho_tick (w_tick (hs_world s)) h)
  end.
(** A call to the directory server. *)
Definition await_directory : SM Admin unit := λ a,
  let t := ad_tick a in (rm_reply t, rm_meanwhile t (set_ad_tick (S t) a)).

(** ** Helpers *)

Definition parse_hex32 (value : list N) : Result (array 32) :=
  parse_hex "identifier must be 64 hex characters" "identifier must be lowercase hex" (utf8 value).

Definition hosted_vault (vault_id : VaultId) : SM Admin N :=
  do! found := on_hosting (get_vault vault_id) in
  sm_lift (ok_or found (InvalidInput "unknown vault")).
Definition require_directory : SM Admin unit :=
  check! cx_directory ctx else InvalidInput "host has no directory address" in sm_ret tt.

Definition read_meta (vault_id : VaultId) : SM Admin AppMeta :=
  do! a := sm_get in sm_ret (AppMeta_read (ad_meta a !! vault_name vault_id)).
(** [AppMeta::write] to the directory of a vault. *)
Definition write_meta (vault_id : VaultId) (meta : AppMeta) : SM Admin unit :=
  do! io := admin_draw oc_write in
  λ a,
    match entry_of vault_id (ad_dir a) with
    | NDirectory _ =>
        let name := vault_name vault_id in
        let '(r, file) := atomic_write MAX_STORE_BYTES "keystore file is too large" io (ad_meta a !! name)
                            (utf8 (meta_text meta)) in
        (r, set_ad_meta (partial_alter (λ _, file) name (ad_meta a)) a)
    | _ => (Err (Io NotFound), a)
    end.

Definition mint : SM Admin (list N) :=
  do! random := admin_draw_ok (oc_random 6) in sm_ret (map byte_N (Codes.generate random)).

Definition store_short (vault_id : VaultId) (short : list N) : SM Admin unit :=
  do! a := sm_get in
  match entry_of vault_id (ad_dir a) with
  | NAbsent => sm_ret tt
  | _ => do! meta := read_meta vault_id in write_meta vault_id (set_am_short short meta)
  end.

Definition vault_code (meta : AppMeta) (code : JoinCode) (authorized : bool) : list N :=
  if negb authorized then str "-"
  else match am_short meta with [] => map byte_N (JoinCode_to_string code) | short => short end.

(** ** Commands *)

(** A member's line, and whether it is online. *)
Definition is_online (host_id : PeerId) (address : N) (peer : PeerId) : SM Admin bool :=
  if bool_decide (peer = host_id) then sm_ret true
  else
    do! r := on_hosting (peek address (presence peer)) in
    sm_ret (match r with Ok (Some _) => true | _ => false end).
Definition member_line (label : list N) (h : HostService) (member : PeerId * bool) : list N :=
  let '(peer, live) := member in
  word (str "MEMBER") [label; hex_text peer; decimal (if live : bool then 1 else 0);
                       decimal (u64_N (default u64_zero (last_seen h peer))); decimal (queued_ops h peer)].

Definition peek_host (address : N) : SM Admin HostService :=
  do! r := on_hosting (peek address sm_get) in sm_lift r.

Definition vault_lines (authorized : bool) (host_id : PeerId) (address : N) : SM Admin (list (list N)) :=
  do! h := peek_host address in
  do! metadata := sm_lift (ok_or (st_admission (hs_state h)) (State "VaultHost always attaches admission metadata")) in
  let vault_id := vm_vault_id metadata in
  let label := hex_text vault_id in
  do! meta := read_meta vault_id in
  let members := sorted_elements (st_members (hs_state h)) in
  do! online := sm_map (is_online host_id address) members in
  sm_ret (word (str "VAULT") [label; vault_code meta (vm_join_code metadata) authorized; decimal (u64_N (am_quota meta));
                              decimal (u64_N (used_bytes h)); decimal (lenN members);
                              decimal (lenN (filter (λ live, live = true) online));
                              decimal (u64_N (am_created_ms meta)); am_creator meta]
          :: (member_line label h <$> zip members online)).

Definition VERSION : list N := str "0.1.0".
Definition status (authorized : bool) : SM Admin (list N) :=
  do! host_id := on_hosting (hosting_keys ks_peer) in
  let server := word (str "SERVER")
    [hex_text host_id; match cx_directory_addr ctx with Some addr => chars (addr_to_string addr) | None => str "-" end;
     chars (addr_to_string (cx_advertise_addr ctx)); decimal (u64_N (cx_capacity_bytes ctx)); VERSION] in
  do! addresses := on_hosting vaults in
  do! ls := sm_map (vault_lines authorized host_id) addresses in
  sm_ret (joined 10 (server :: concat ls ++ [str "END"])).

(** [vault.publish], on a host that is not in the vault set yet. *)
Definition publish_new (v : VaultHost) : SM Admin VaultHost := λ a,
  let h := ad_hosting a in
  let '(r, v) := publish (cx_advertise_addr ctx) (rm_reply (ho_tick h)) (load_vault (ho_keys h) (ho_tick h) v) in
  let w := hs_world (vh_host v) in
  let a := set_ad_hosting (set_ho_tick (S (w_tick w)) (set_ho_keys (w_keys w) h)) a in
  (match r with Ok _ => Ok v | Err e => Err e end, rm_meanwhile (ho_tick h) a).

Definition create_vault (quota creator : list N) : SM Admin (list N) :=
  do! quota := sm_lift (ok_or (parse_u64 quota) (InvalidInput "quota must be a byte count")) in
  do! creator := (if bool_decide (creator = str "-") then sm_ret (str "-")
                  else do! peer := sm_lift (parse_hex32 creator) in sm_ret (hex_text peer)) in
  do! minted := mint in
  do! code := sm_lift (derive_chars minted) in
  do! vault_id := on_data (create_vault_dir_with_code code) in
  do! v := on_data (on_place (In vault_id) vault_open) in
  do! v := (if cx_directory ctx then publish_new v else sm_ret v) in
  do! now := admin_draw oc_unix_millis in
  do! _ := write_meta vault_id (mkAppMeta quota now creator minted) in
  do! address := on_hosting (new_cell v) in
  do! _ := on_hosting (vaultset_insert address) in
  sm_ret (word (str "OK") [hex_text vault_id; minted]).

(** [VaultHost::kick_with_code] and [VaultHost::rotate_code_with]: the advertisement is put and the
    old code forgotten after the vault changed. *)
Definition tell_directory : SM Admin unit := do! _ := await_directory in await_directory.
Definition kick_with_code_at (address : N) (target : PeerId) (code : JoinCode) : SM Admin PeerId :=
  do! (kicked, _, _, _) := on_hosting (on_cell address (kick_local (cx_advertise_addr ctx) target code)) in
  do! _ := tell_directory in
  sm_ret kicked.
Definition rotate_code_with (address : N) (code : JoinCode) : SM Admin JoinCode :=
  do! (code, _, _) := on_hosting (on_cell address (rotate_local (cx_advertise_addr ctx) code)) in
  do! _ := tell_directory in
  sm_ret code.

Definition kick (vault peer : list N) : SM Admin (list N) :=
  do! vault_id := sm_lift (parse_hex32 vault) in
  do! target := sm_lift (parse_hex32 peer) in
  do! address := hosted_vault vault_id in
  do! _ := require_directory in
  do! minted := mint in
  do! code := sm_lift (derive_chars minted) in
  do! _ := kick_with_code_at address target code in
  do! _ := store_short vault_id minted in
  sm_ret (word (str "OK") [minted]).

Definition rotate_code (vault : list N) : SM Admin (list N) :=
  do! vault_id := sm_lift (parse_hex32 vault) in
  do! address := hosted_vault vault_id in
  do! _ := require_directory in
  do! rotated := mint in
  do! code := sm_lift (derive_chars rotated) in
  do! _ := rotate_code_with address code in
  do! _ := store_short vault_id rotated in
  sm_ret (word (str "OK") [rotated]).

(** The directory of a vault, under the name of one that was removed. *)
Definition removed_name (vault_id : VaultId) (now : u64) : bytes :=
  bstr ".removed-" ++ vault_name vault_id ++ bstr "-" ++ utf8 (decimal (u64_N now)).
Definition renamed (from to : bytes) (disk : Disk) (a : Admin) : Admin :=
  match dd_vaults (ad_dir a) with
  | NDirectory entries =>
      match entries !! from with
      | Some node =>
          let node := match node with NDirectory p => NDirectory (mkPlace disk (pl_chunks p)) | other => other end in
          mkAdmin (ad_hosting a) (set_dd_vaults (NDirectory (<[to := node]> (delete from entries))) (ad_dir a))
            (partial_alter (λ _, ad_meta a !! from) to (delete from (ad_meta a)))
      | None => a
      end
  | _ => a
  end.
(** What is there under the new name stands in the way: a vault's directory is not empty. *)
Definition is_free (name : bytes) (d : DataDir) : bool :=
  match dd_vaults d with NDirectory entries => bool_decide (entries !! name = None) | _ => true end.
Definition rename_step (from to : bytes) (disk : Disk) : SM Admin unit :=
  do! a := sm_get in
  check! is_free to (ad_dir a) else Io OtherIo in
  do! io := admin_draw oc_write in
  λ a, match io with
       | Written => (Ok tt, renamed from to disk a)
       | WriteFailed e took => (Err e, if took : bool then renamed from to disk a else a)
       end.

(** What [forget_vault] does to the vault's host: the code it had, and from when it is forgotten. *)
Definition stop_host : SM VaultHost (JoinCode * u64) :=
  do! metadata := admission in
  do! now := in_service (on_world unix_time) in
  let forgotten_at := u64_max now (Host.u64_saturating_add (vm_issued_at metadata) (u64! 1)) in
  do! _ := in_service (update (set_hs_running false)) in
  sm_ret (vm_join_code metadata, forgotten_at).

Definition forget_vault (vault : list N) : SM Admin (list N) :=
  do! vault_id := sm_lift (parse_hex32 vault) in
  do! address := hosted_vault vault_id in
  do! (code, forgotten_at) := on_hosting (on_cell address stop_host) in
  do! _ := (if cx_directory ctx then
              λ a, match on_hosting (hosting_keys (DirForget_sign vault_id code forgotten_at)) a with
                   | (Ok _, a) => (Ok tt, (await_directory a).2)
                   | (Err _, a) => (Ok tt, a)
                   end
            else sm_ret tt) in
  do! _ := on_hosting (vaultset_remove vault_id) in
  do! a := sm_get in
  do! _ := match entry_of vault_id (ad_dir a) with
           | NAbsent => sm_ret tt
           | _ =>
               do! now := admin_draw_ok oc_unix_time in
               do! h := peek_host address in
               rename_step (vault_name vault_id) (removed_name vault_id now) (w_disk (hs_world h))
           end in
  sm_ret (str "OK").

Definition ops (vault since : list N) : SM Admin (list N) :=
  do! vault_id := sm_lift (parse_hex32 vault) in
  do! since := sm_lift (ok_or (parse_u64 since) (InvalidInput "since must be a record id")) in
  do! address := hosted_vault vault_id in
  do! h := peek_host address in
  let op '(id, actor, at_) := word (str "OP") [decimal (u64_N id); hex_text actor; decimal (u64_N at_)] in
  sm_ret (joined 10 ((op <$> recent_ops h since) ++ [str "END"])).

Definition is_read_only (command : list N) : bool :=
  bool_decide (command = str "PING") || bool_decide (command = str "STATUS") || bool_decide (command = str "OPS").

Definition missing : Error := InvalidInput "missing argument".
Definition one_argument (words : list (list N)) (f : list N → SM Admin (list N)) : SM Admin (list N) :=
  match words with argument :: _ => f argument | [] => sm_err missing end.
Definition two_arguments (words : list (list N)) (f : list N → list N → SM Admin (list N)) : SM Admin (list N) :=
  match words with first :: second :: _ => f first second | _ => sm_err missing end.

Definition dispatch (line : list N) (authorized : bool) : SM Admin (list N) :=
  let words := split_whitespace line in
  let command := default [] (head words) in
  let words := tail words in
  if negb authorized && negb (is_read_only command) then sm_ret (str "ERR unauthorized")
  else if bool_decide (command = str "PING") then sm_ret (str "OK")
  else if bool_decide (command = str "STATUS") then status authorized
  else if bool_decide (command = str "CREATE_VAULT") then two_arguments words create_vault
  else if bool_decide (command = str "KICK") then two_arguments words kick
  else if bool_decide (command = str "ROTATE_CODE") then one_argument words rotate_code
  else if bool_decide (command = str "FORGET_VAULT") then one_argument words forget_vault
  else if bool_decide (command = str "OPS") then two_arguments words ops
  else sm_ret (str "ERR unknown command").

(** ** A connection *)

(** The process, the connection's reader, how its writes end and the lines sent. *)
Record AdminConn := mkAdminConn {
  cn_admin : Admin;
  cn_reader : LineReader;
  cn_writes : list (Result unit);
  cn_sent : list (list N);
}.
Definition set_cn_admin v c := mkAdminConn v (cn_reader c) (cn_writes c) (cn_sent c).
Definition set_cn_reader v c := mkAdminConn (cn_admin c) v (cn_writes c) (cn_sent c).

(** Other tasks run while a line is awaited. *)
Definition admin_line : SM AdminConn (option (list N)) :=
  do! _ := sm_zoom cn_admin set_cn_admin
             (λ a, let t := ad_tick a in (Ok tt, rm_meanwhile t (set_ad_tick (S t) a))) in
  sm_zoom cn_reader set_cn_reader (read_line MAX_ADMIN_LINE "admin line is too long" "admin line is not UTF-8").

Definition write_admin_line (text : list N) : SM AdminConn unit := λ c,
  match cn_writes c with
  | Ok _ :: writes => (Ok tt, mkAdminConn (cn_admin c) (cn_reader c) writes (cn_sent c ++ [text]))
  | Err e :: writes => (Err e, mkAdminConn (cn_admin c) (cn_reader c) writes (cn_sent c))
  | [] => (Err (Io OtherIo), c)
  end.

(** The reply to a line that is not an [AUTH]. *)
Definition reply_to (line : list N) (authorized : bool) : SM AdminConn (list N) :=
  sm_zoom cn_admin set_cn_admin (λ a,
    match dispatch line authorized a with
    | (Ok reply, a) => (Ok reply, a)
    | (Err e, a) => (Ok (str "ERR " ++ one_line (Error_to_string e)), a)
    end).

(** The rest of the connection after a line: whether it is authorized, or nothing when it ends. *)
Definition admin_turn (line : list N) (authorized : bool) : SM AdminConn (option bool) :=
  if bool_decide (line = []) then sm_ret (Some authorized)
  else
    match strip_prefix (str "AUTH ") line with
    | Some token =>
        if negb (constant_time_eq (utf8 token) (utf8 (cx_token ctx))) then
          do! _ := write_admin_line (str "ERR unauthorized") in sm_ret None
        else
          do! _ := write_admin_line (str "OK") in sm_ret (Some true)
    | None =>
        do! reply := reply_to line authorized in
        do! _ := write_admin_line reply in
        sm_ret (Some authorized)
    end.

Fixpoint serve_lines (fuel : nat) (authorized : bool) : SM AdminConn unit :=
  match fuel with
  | O => sm_err (State "out of fuel")
  | S fuel =>
      do! line := admin_line in
      match line with
      | None => sm_ret tt
      | Some line =>
          do! next := admin_turn line authorized in
          match next with Some authorized => serve_lines fuel authorized | None => sm_ret tt end
      end
  end.
(** Every line takes at least its line feed, so one more pass than bytes is enough. *)
Definition serve_admin : SM AdminConn unit := λ c,
  serve_lines (S (length (stream (cn_reader c)).1)) false c.
End admin.
