(* ===== verification/AdminMeta.v ===== *)
(** * The fields next to a vault's files

    The text of [app-meta]: what is written is read back, and what is read is always of a form that
    can be written. *)
From S2P Require Export Admin.
From Stdlib Require Import Lia ZifyN ZifyNat ZifyBool.

Open Scope N_scope.

(** ** The file of a vault's fields *)

Lemma lines_from_line line l s :
  (10 ∉ l) → lines_from line (l ++ 10 :: s) = strip_return (line ++ l) :: lines_from [] s.
Proof.
  revert line. induction l as [|c l IH]; intros line Hl; cbn [app lines_from].
  { by rewrite app_nil_r. }
  apply not_elem_of_cons in Hl as [Hc Hl]. rewrite (proj2 (N.eqb_neq _ _)) by done.
  rewrite IH by done. by rewrite <-app_assoc.
Qed.
Lemma strip_return_same l : (13 ∉ l) → strip_return l = l.
Proof.
  intros Hl. unfold strip_return. destruct (last l) as [c|] eqn:Hc; [|done].
  assert (c ≠ 13) by (intros ->; apply Hl; apply last_Some in Hc as [l' ->]; apply elem_of_app; right; by left).
  destruct (N.eq_dec c 13); [done|]. destruct c as [|p]; [done|].
  repeat (destruct p as [p|p|]; try done).
Qed.
(** Text without line ends. *)
Definition plain (l : list N) : Prop := (10 ∉ l) ∧ (13 ∉ l).
Lemma lines_cons l s : plain l → lines (l ++ 10 :: s) = l :: lines s.
Proof. intros [Hn Hr]. unfold lines. rewrite lines_from_line by done. cbn [app]. by rewrite strip_return_same. Qed.
Lemma one_line_plain l : plain l → one_line l = l.
Proof.
  intros [Hn Hr]. unfold one_line. induction l as [|c l IH]; [done|]. cbn [map].
  apply not_elem_of_cons in Hn as [? Hn], Hr as [? Hr]. rewrite IH by done.
  rewrite !(proj2 (N.eqb_neq _ _)) by done. done.
Qed.

Lemma split_once_app sep key value : (sep ∉ key) → split_once sep (key ++ sep :: value) = Some (key, value).
Proof.
  induction key as [|c key IH]; intros Hk; cbn [app split_once]; [by rewrite N.eqb_refl|].
  apply not_elem_of_cons in Hk as [Hc Hk]. rewrite (proj2 (N.eqb_neq _ _)) by done. by rewrite IH.
Qed.

(** Words of text: no character of theirs is whitespace. *)
Lemma word_plain l : is_word l = true → plain l ∧ trim l = l.
Proof.
  intros Hl. split.
  - assert (Hall : forallb (λ c, negb (is_whitespace c)) l = true) by (by destruct l).
    rewrite forallb_forall in Hall. split; intros Hin%list_elem_of_In%Hall; discriminate Hin.
  - apply (trim_spaced [l]). cbn. by rewrite Hl.
Qed.
Lemma digits_word l : forallb is_digit l = true → l ≠ [] → is_word l = true ∧ parse_u64 l = parse_digits l.
Proof.
  intros Hd Hne. destruct l as [|c l]; [done|]. split.
  - unfold is_word. rewrite forallb_forall in Hd |- *. intros x Hx%Hd. unfold is_digit in Hx. unfold is_whitespace. lia.
  - cbn in Hd. apply andb_true_iff in Hd as [Hc _]. unfold is_digit in Hc. unfold parse_u64.
    destruct c as [|p]; [done|]. repeat (destruct p as [p|p|]; try done).
Qed.
Lemma decimal_word (n : u64) : is_word (decimal (u64_N n)) = true ∧ parse_u64 (decimal (u64_N n)) = Some n.
Proof.
  destruct (decimal_digits (u64_N n) (u64_bound n)) as [Hd Hne]. destruct (digits_word _ Hd Hne) as [Hw Hp].
  split; [done|]. rewrite Hp. apply parse_decimal.
Qed.

(** What the port writes: a creator on one line, and a short code that was minted, or none. *)
Record meta_ok (m : AppMeta) : Prop := {
  mo_creator : (plain (am_creator m) ∧ trim (am_creator m) = am_creator m) ∧ string_ok (am_creator m);
  mo_short : ∃ short, am_short m = map byte_N short
    ∧ (short = [] ∨ lenN short = SHORT_LEN ∧ Forall (λ c, c ∈ ALPHABET) short);
}.

Lemma no_meta_ok : meta_ok no_meta.
Proof. split; [|exists []; by split; [|left]]. split; [by apply word_plain|]. by repeat constructor. Qed.

Lemma alphabet_word short :
  Forall (λ c, c ∈ ALPHABET) short → plain (map byte_N short) ∧ string_ok (map byte_N short).
Proof.
  intros Hs. assert (Hc : ∀ c, c ∈ map byte_N short → 48 <= c ∧ c < 128).
  { intros c Hin%list_elem_of_In%in_map_iff. destruct Hin as (b & <- & Hb%list_elem_of_In).
    rewrite Forall_forall in Hs. apply Hs in Hb.
    assert (Hall : forallb (λ c, (48 <=? byte_N c) && (byte_N c <? 128)) ALPHABET = true) by (vm_compute; reflexivity).
    rewrite forallb_forall in Hall. apply list_elem_of_In, Hall in Hb. lia. }
  split; [split; intros Hin%Hc; lia|]. apply Forall_forall. intros c [_ Hin]%Hc. unfold scalar. lia.
Qed.

Lemma digits_ok l : forallb is_digit l = true → string_ok l.
Proof.
  intros Hl. rewrite forallb_forall in Hl. apply Forall_forall. intros c Hc%list_elem_of_In%Hl. unfold is_digit in Hc.
  unfold scalar. lia.
Qed.
Lemma meta_text_ok m : meta_ok m → string_ok (meta_text m).
Proof.
  intros [[_ Hc] (short & Hs & Hshort)]. unfold meta_text.
  assert (Hd : ∀ n : u64, string_ok (decimal (u64_N n))).
  { intros n. apply digits_ok, (decimal_digits _ (u64_bound n)). }
  assert (Hm : string_ok (am_short m)).
  { rewrite Hs. destruct Hshort as [->|[_ Ha]]; [by constructor|]. by apply alphabet_word. }
  assert (Hk : ∀ name, forallb scalar (str name) = true → string_ok (str name)).
  { intros name Hn. apply Forall_forall. rewrite forallb_forall in Hn. intros c Hin%list_elem_of_In. by apply Hn. }
  unfold string_ok in *. repeat rewrite ?Forall_app, ?Forall_cons.
  split_and!; try reflexivity; try (apply Hk; reflexivity); try apply Hd; done.
Qed.

(** A line of the file. *)
Definition key_ok (key : list N) : bool := forallb (λ c, negb (c =? 10) && negb (c =? 13) && negb (c =? 61)) key.
Lemma meta_field meta key value rest :
  key_ok key = true → plain value →
  foldl meta_line meta (lines (key ++ 61 :: value ++ 10 :: rest)) = foldl meta_line (meta_set meta key (trim value)) (lines rest).
Proof.
  unfold key_ok. intros Hk [Hv Hv']. rewrite forallb_forall in Hk.
  assert (Hn : ∀ c, c ∈ key → c ≠ 10 ∧ c ≠ 13 ∧ c ≠ 61) by (intros c Hin%list_elem_of_In%Hk; lia).
  replace (key ++ 61 :: value ++ 10 :: rest) with ((key ++ 61 :: value) ++ 10 :: rest) by by rewrite <-app_assoc.
  rewrite lines_cons.
  - cbn [foldl]. unfold meta_line at 2. rewrite split_once_app; [done|]. intros [_ [_ Hc]]%Hn. done.
  - split; rewrite elem_of_app, elem_of_cons; intros [Hin%Hn|[Hin|Hin]]; tauto || lia.
Qed.

(** Reading what was written. *)
Lemma app_meta_reads m : meta_ok m → AppMeta_read (Some (utf8 (meta_text m))) = m.
Proof.
  intros Hm. pose proof (meta_text_ok m Hm) as Hok. unfold AppMeta_read. cbn [mbind option_bind].
  rewrite (proj2 (from_utf8_Some _ _) (conj Hok eq_refl)). clear Hok.
  destruct Hm as [[[Hcp Hct] _] (short & Hs & Hshort)]. destruct m as [quota created creator sh]. cbn [am_creator am_short] in Hcp, Hct, Hs. subst sh.
  destruct (decimal_word quota) as [Hqw Hq]. destruct (decimal_word created) as [Htw Ht].
  destruct (word_plain _ Hqw) as [Hqp Hqt]. destruct (word_plain _ Htw) as [Htp Htt].
  assert (Hsp : plain (map byte_N short)).
  { destruct Hshort as [->|[_ Ha]]; [by split; apply not_elem_of_nil|by apply alphabet_word]. }
  etransitivity; [exact (meta_field _ (str "quota") _ _ eq_refl Hqp)|]. rewrite Hqt.
  etransitivity; [exact (meta_field _ (str "created_ms") _ _ eq_refl Htp)|]. rewrite Htt.
  etransitivity; [exact (meta_field _ (str "creator") _ _ eq_refl Hcp)|]. rewrite Hct.
  etransitivity; [exact (meta_field _ (str "short") _ [] eq_refl Hsp)|].
  cbn [foldl lines lines_from]. unfold meta_set.
  repeat lazymatch goal with
  | |- context [bool_decide (?a = ?b)] => let x := eval vm_compute in (bool_decide (a = b)) in
      change (bool_decide (a = b)) with x; cbv iota
  end.
  cbn [am_quota am_created_ms am_creator am_short set_am_short no_meta]. rewrite Hq, Ht, one_line_plain by done.
  unfold set_am_short. cbn. f_equal.
  destruct Hshort as [->|[Hl Ha]]; [reflexivity|].
  assert (Htrim : trim (map byte_N short) = map byte_N short).
  { unfold trim. change (map byte_N short) with (byte_N <$> short).
    by rewrite trim_start_alphabet, <-fmap_reverse, trim_start_alphabet, <-fmap_reverse, reverse_involutive
      by (done || by apply Forall_reverse). }
  rewrite Htrim. change (map byte_N short) with (byte_N <$> short) at 1. by rewrite (normalize_chars_alphabet short Hl Ha).
Qed.

(** What is read is always in that form. *)
Lemma one_line_trim l : trim (one_line (trim l)) = one_line (trim l).
Proof.
  set (f := λ c : N, if (c =? 10) || (c =? 13) then 32 else c).
  assert (Hf : ∀ c, is_whitespace (f c) = is_whitespace c).
  { intros c. unfold f. destruct (N.eqb_spec c 10) as [->|]; [done|]. by destruct (N.eqb_spec c 13) as [->|]. }
  assert (Hs : ∀ l, trim_start (map f l) = map f (trim_start l)).
  { clear l. induction l as [|c l IH]; [done|]. cbn [map trim_start]. rewrite Hf. by destruct (is_whitespace c). }
  assert (Ht : ∀ l, trim (map f l) = map f (trim l)).
  { intros k. unfold trim. change (map f) with (fmap (M := list) f) in *. by rewrite Hs, <-fmap_reverse, Hs, <-fmap_reverse. }
  unfold one_line. fold f. by rewrite Ht, trim_idemp.
Qed.
Lemma one_line_ok l : string_ok l → plain (one_line l) ∧ string_ok (one_line l).
Proof.
  intros Hl. unfold one_line. split.
  - split; intros Hin%list_elem_of_In%in_map_iff; destruct Hin as (c & Hc & _); destruct (N.eqb_spec c 10), (N.eqb_spec c 13); cbn in Hc; congruence.
  - induction Hl as [|c l Hc _ IH]; [by constructor|]. constructor; [|done]. by destruct ((c =? 10) || (c =? 13)).
Qed.
Lemma split_once_value sep l key value c : split_once sep l = Some (key, value) → c ∈ value → c ∈ l.
Proof.
  revert key. induction l as [|x l IH]; intros key; cbn; [done|]. destruct (x =? sep).
  - intros [= <- <-]. by right.
  - destruct (split_once sep l) as [[k v]|]; [|done]. intros [= <- <-] Hc. right. by eapply IH.
Qed.
Lemma lines_from_elem line s l c : l ∈ lines_from line s → c ∈ l → c ∈ line ∨ c ∈ s.
Proof.
  revert line. induction s as [|x s IH]; intros line; cbn [lines_from].
  { destruct line; intros Hl Hc; [by apply not_elem_of_nil in Hl|]. apply list_elem_of_singleton in Hl as ->. by left. }
  destruct (x =? 10).
  - intros [->|Hl]%elem_of_cons Hc.
    + left. unfold strip_return in Hc. destruct (last line) as [y|] eqn:Hy; [|done].
      assert (Hrem : c ∈ removelast line → c ∈ line).
      { intros Hin. apply last_Some in Hy as [l' ->]. rewrite removelast_last in Hin. apply elem_of_app. by left. }
      destruct y as [|p]; [done|]. repeat (destruct p as [p|p|]; try done); by apply Hrem.
    + right. right. destruct (IH [] Hl Hc) as [Hin|]; [by apply not_elem_of_nil in Hin|done].
  - intros Hl Hc. destruct (IH _ Hl Hc) as [Hin|]; [|right; by right].
    apply elem_of_app in Hin as [|Hin]; [by left|]. apply list_elem_of_singleton in Hin as ->. right. by left.
Qed.

Lemma meta_set_ok meta key value : meta_ok meta → string_ok value → meta_ok (meta_set meta key (trim value)).
Proof.
  intros [Hc Hs] Hv. unfold meta_set. repeat (case_bool_decide; [by split|]) || idtac.
  repeat (case_bool_decide; [split; cbn; try done|]); [| |done].
  - split; [split; [by apply one_line_ok, trim_ok|apply one_line_trim]|by apply one_line_ok, trim_ok].
  - destruct (normalize_chars (trim value)) as [short|] eqn:Hn; [|exists []; split; [done|by left]].
    exists short. split; [done|]. right. by apply normalize_chars_Some in Hn.
Qed.
Lemma app_meta_read_ok content : meta_ok (AppMeta_read content).
Proof.
  unfold AppMeta_read. destruct (content ≫= from_utf8) as [text|] eqn:Ht; [|apply no_meta_ok].
  assert (Htext : string_ok text).
  { destruct content as [l|]; [|done]. cbn in Ht. by apply from_utf8_Some in Ht as [Ht _]. }
  assert (Hl : Forall string_ok (lines text)).
  { apply Forall_forall. intros l Hin. apply Forall_forall. intros c Hc. unfold string_ok in Htext. rewrite Forall_forall in Htext.
    destruct (lines_from_elem [] text l c Hin Hc) as [Hn|]; [by apply not_elem_of_nil in Hn|by apply Htext]. }
  assert (Hgen : ∀ meta, meta_ok meta → meta_ok (foldl meta_line meta (lines text))); [|apply Hgen, no_meta_ok].
  induction Hl as [|l ls Hl _ IH]; intros meta Hm; [done|]. cbn [foldl]. apply IH. unfold meta_line.
  destruct (split_once 61 l) as [[key value]|] eqn:Hs; [|done]. apply meta_set_ok; [done|].
  unfold string_ok in *. rewrite Forall_forall in Hl |- *. intros c Hc. apply Hl. by eapply split_once_value.
Qed.
