(* ===== verification/AdminClaims.v ===== *)
(** * What the administration port guarantees

    [unauthorized_harmless], [codes_concealed]: without the token nothing changes and no join code
    is told; [rotation_exact]: what a rotation of the join code leaves in force and what is shown of
    it, with [refused_rotation_shows_old], where the code that is shown is not in force. *)
From S2P Require Export AdminMeta HostFrame KeyCalls SessionClaims.
From Stdlib Require Import Lia ZifyN ZifyNat ZifyBool.

Open Scope N_scope.

(** ** The token *)

Lemma differences_zero d l r :
  length l = length r → differences d l r = 0 ↔ d = 0 ∧ l = r.
Proof.
  revert d r. induction l as [|a l IH]; intros d [|b r] Hl; try done; cbn [differences].
  { naive_solver. }
  rewrite IH by (cbn in Hl; lia). rewrite N.lor_eq_0_iff, N.lxor_eq_0_iff. split.
  - intros [[-> Hb] ->]. split; [done|]. f_equal. rewrite <-(byte_of_N_byte_N a), Hb. apply byte_of_N_byte_N.
  - intros [-> [= -> ->]]. done.
Qed.
Lemma constant_time_eq_iff l r : constant_time_eq l r = true ↔ l = r.
Proof.
  unfold constant_time_eq. rewrite andb_true_iff, !N.eqb_eq. unfold lenN. split.
  - intros [Hl Hd]. apply differences_zero in Hd; [by destruct Hd|lia].
  - intros ->. split; [done|]. by apply differences_zero.
Qed.

Section claims.
Context `{Sha256, MlDsa65, XWing, AesGcm, HkdfSha256, Oracle, SocketAddrs, ReadDir, IoText}.

(** ** Without the token *)

(** What is told without it: of a vault neither its join code nor its keys or files. *)
Definition public_host (v : VaultHost) :=
  let h := vh_host v in
  (hs_running h, st_members (hs_state h), hs_presence h, vm_vault_id <$> st_admission (hs_state h), used_bytes h,
   hs_last_seen h, st_mailboxes (hs_state h), hs_recent_ops h).

Record same_public (a b : Admin) : Prop := {
  sp_tick : ad_tick a = ad_tick b;
  sp_peer : (ks_peer (ho_keys (ad_hosting a))).1 = (ks_peer (ho_keys (ad_hosting b))).1;
  sp_vaults : ho_vaults (ad_hosting a) = ho_vaults (ad_hosting b);
  sp_hosts address : public_host <$> (ho_cells (ad_hosting a) !! address) = public_host <$> (ho_cells (ad_hosting b) !! address);
  sp_meta vault_id : set_am_short [] (AppMeta_read (ad_meta a !! vault_name vault_id))
    = set_am_short [] (AppMeta_read (ad_meta b !! vault_name vault_id));
}.

(** Only what was drawn from the clock. *)
Definition ticked (a a' : Admin) : Prop := ∃ t, a' = set_ad_tick t a.

#[export] Instance ticked_preorder : PreOrder ticked.
Proof.
  split.
  - intros a. exists (ad_tick a). by destruct a as [[] ? ?].
  - intros a b c [t ->] [u ->]. by exists u.
Qed.
Lemma same_public_tick t a b : same_public a b → same_public (set_ad_tick t a) (set_ad_tick t b).
Proof. intros Hs. by split; destruct Hs. Qed.

(** The same answer of two processes that differ in what is concealed, which both stay as they are. *)
Definition alike {A} (m m' : SM Admin A) : Prop := ∀ a b, same_public a b →
  (m a).1 = (m' b).1 ∧ same_public (m a).2 (m' b).2 ∧ ticked a (m a).2.

Lemma alike_bind {A B} (m m' : SM Admin A) (k k' : A → SM Admin B) :
  alike m m' → (∀ x, alike (k x) (k' x)) → alike (sm_bind m k) (sm_bind m' k').
Proof.
  intros Hm Hk a b Hs. unfold sm_bind. destruct (Hm a b Hs) as (Hr & Hs' & Ht).
  destruct (m a) as [[x|e] a1], (m' b) as [[x'|e'] b1]; cbn in Hr; simplify_eq; [|done].
  destruct (Hk x' a1 b1 Hs') as (Hr & Hs'' & Ht'). split_and!; [done..|]. by etransitivity.
Qed.
Lemma alike_ret {A} (x : A) : alike (sm_ret x) (sm_ret x).
Proof. by intros a b Hs. Qed.
Lemma alike_err {A} e : alike (sm_err (A := A) e) (sm_err e).
Proof. by intros a b Hs. Qed.
Lemma alike_lift {A} (r : Result A) : alike (sm_lift r) (sm_lift r).
Proof. by intros a b Hs. Qed.
Lemma alike_Ok {A A' B} (x : A) (x' : A') (k : A → SM Admin B) (k' : A' → SM Admin B) :
  alike (k x) (k' x') → alike (sm_bind (sm_lift (Ok x)) k) (sm_bind (sm_lift (Ok x')) k').
Proof. done. Qed.
Lemma alike_map {A B} (f f' : A → SM Admin B) l : (∀ x, alike (f x) (f' x)) → alike (sm_map f l) (sm_map f' l).
Proof.
  intros Hf. induction l as [|x l IH]; [apply alike_ret|]. cbn [sm_map].
  apply alike_bind; [done|]. intros y. apply alike_bind; [done|]. intros ys. apply alike_ret.
Qed.

Lemma alike_peer : alike (on_hosting (hosting_keys ks_peer)) (on_hosting (hosting_keys ks_peer)).
Proof.
  assert (Hk : ∀ k, (ks_peer k).2 = k) by (intros k; unfold ks_peer, query, lock, sm_bind; by destruct (si_failed k)).
  intros a b Hs. pose proof (sp_peer _ _ Hs) as Hp. unfold on_hosting, hosting_keys, sm_zoom.
  pose proof (Hk (ho_keys (ad_hosting a))) as Ha. pose proof (Hk (ho_keys (ad_hosting b))) as Hb.
  destruct (ks_peer (ho_keys (ad_hosting a))) as [r k], (ks_peer (ho_keys (ad_hosting b))) as [r' k'].
  cbn in Hp, Ha, Hb |- *. subst r' k k'. destruct a as [[] ? ?], b as [[] ? ?]. cbn. by split_and!.
Qed.
Lemma alike_vaults : alike (on_hosting vaults) (on_hosting vaults).
Proof.
  intros a b Hs. unfold on_hosting, sm_zoom, vaults, sm_bind, sm_get, sm_ret. cbn. rewrite (sp_vaults _ _ Hs).
  by destruct a as [[] ? ?], b as [[] ? ?].
Qed.
Lemma alike_hosted vault_id : alike (hosted_vault vault_id) (hosted_vault vault_id).
Proof.
  unfold hosted_vault. apply alike_bind; [|intros; apply alike_lift].
  intros a b Hs. unfold on_hosting, sm_zoom, get_vault, sm_bind, sm_get, sm_ret. cbn. rewrite (sp_vaults _ _ Hs).
  by destruct a as [[] ? ?], b as [[] ? ?].
Qed.

(** A call on a host whose answer depends on what is public of it. *)
Lemma alike_peek {A} address (m m' : SM HostService A) :
  (∀ v v', public_host v = public_host v' → w_tick (hs_world (vh_host v)) = w_tick (hs_world (vh_host v')) →
     (m (vh_host v)).1 = (m' (vh_host v')).1
     ∧ w_tick (hs_world (m (vh_host v)).2) = w_tick (hs_world (m' (vh_host v')).2)) →
  alike (on_hosting (peek address m)) (on_hosting (peek address m')).
Proof.
  intros Hm a b Hs. pose proof (sp_hosts _ _ Hs address) as Hh. pose proof (sp_tick _ _ Hs) as Ht.
  unfold on_hosting, peek, sm_zoom. unfold ad_tick in Ht.
  destruct (ho_cells (ad_hosting a) !! address) as [v|], (ho_cells (ad_hosting b) !! address) as [v'|];
    cbn in Hh; try done.
  2: { destruct a as [[] ? ?], b as [[] ? ?]. cbn. by split_and!. }
  apply (inj Some) in Hh. destruct (Hm (load_vault (ho_keys (ad_hosting a)) (ho_tick (ad_hosting a)) v)
    (load_vault (ho_keys (ad_hosting b)) (ho_tick (ad_hosting b)) v')) as [Hr Hw].
  { destruct v as [[] ?], v' as [[] ?]. exact Hh. }
  { destruct v as [[] ?], v' as [[] ?]. exact Ht. }
  destruct (m _) as [r h], (m' _) as [r' h']. cbn in Hr, Hw |- *. subst r'. rewrite Hw.
  split_and!; [done| |by eexists]. by apply (same_public_tick (w_tick (hs_world h'))).
Qed.

Lemma alike_online host_id address peer : alike (is_online host_id address peer) (is_online host_id address peer).
Proof.
  unfold is_online. case_bool_decide; [apply alike_ret|]. apply alike_bind; [|intros; apply alike_ret].
  apply alike_peek. intros [h act] [h' act'] Hv Ht. unfold presence, require_running, require_member, sm_bind, sm_get.
  unfold public_host in Hv. cbn [vh_host] in *. injection Hv as Hr Hm Hp _ _ _ _ _. rewrite Hr. destruct (hs_running h'); [|done].
  cbn. rewrite Hm. case_bool_decide; [|done]. cbn. rewrite Hp. destruct (hs_presence h' !! peer); [|done].
  cbn. unfold on_world, draw, sm_zoom. cbn. rewrite Ht. done.
Qed.

(** A host's fields, as far as they are public. *)
Lemma alike_host {A} address (k k' : HostService → SM Admin A) :
  (∀ v v', public_host v = public_host v' → alike (k (vh_host v)) (k' (vh_host v'))) →
  alike (sm_bind (peek_host address) k) (sm_bind (peek_host address) k').
Proof.
  intros Hk a b Hs. pose proof (sp_hosts _ _ Hs address) as Hh. pose proof (sp_tick _ _ Hs) as Ht. unfold ad_tick in Ht.
  unfold peek_host, on_hosting, peek, sm_zoom, sm_bind.
  destruct (ho_cells (ad_hosting a) !! address) as [v|], (ho_cells (ad_hosting b) !! address) as [v'|];
    cbn in Hh; try done.
  2: { destruct a as [[] ? ?], b as [[] ? ?]. cbn. by split_and!. }
  apply (inj Some) in Hh. cbn [sm_get sm_lift].
  set (w := load_vault _ _ v). set (w' := load_vault _ _ v').
  assert (Hw : public_host w = public_host w') by (destruct v as [[] ?], v' as [[] ?]; exact Hh).
  assert (Ha : set_ad_hosting (set_ho_tick (w_tick (hs_world (vh_host w))) (ad_hosting a)) a = a).
  { destruct v as [[] ?], a as [[] ? ?]. done. }
  assert (Hb : set_ad_hosting (set_ho_tick (w_tick (hs_world (vh_host w'))) (ad_hosting b)) b = b).
  { destruct v' as [[] ?], b as [[] ? ?]. done. }
  unfold sm_get. cbv beta iota delta [sm_lift fst snd]. rewrite Ha, Hb. by apply Hk.
Qed.

Lemma alike_meta {A} vault_id (k k' : AppMeta → SM Admin A) :
  (∀ m m', set_am_short [] m = set_am_short [] m' → alike (k m) (k' m')) →
  alike (sm_bind (read_meta vault_id) k) (sm_bind (read_meta vault_id) k').
Proof. intros Hk a b Hs. apply Hk; [|done]. apply (sp_meta _ _ Hs). Qed.

Lemma alike_vault_lines host_id address : alike (vault_lines false host_id address) (vault_lines false host_id address).
Proof.
  unfold vault_lines. apply alike_host. intros [h act] [h' act'] Hv. unfold public_host in Hv. cbn [vh_host] in *.
  injection Hv as Hr Hm Hp Ha Hu Hl Hq Ho.
  destruct (st_admission (hs_state h)) as [metadata|], (st_admission (hs_state h')) as [metadata'|]; try done.
  injection Ha as Ha. cbn [ok_or]. apply alike_Ok. rewrite Ha, Hm, Hu. apply alike_meta. intros m m' Hmeta.
  apply alike_bind; [apply alike_map; intros; apply alike_online|]. intros online.
  unfold set_am_short in Hmeta. injection Hmeta as Hq1 Hq2 Hq3. unfold vault_code. cbn [negb]. rewrite Hq1, Hq2, Hq3.
  assert (Hmember : member_line (hex_text (vm_vault_id metadata')) h = member_line (hex_text (vm_vault_id metadata')) h').
  { unfold member_line, last_seen, queued_ops. by rewrite Hl, Hq. }
  rewrite Hmember. apply alike_ret.
Qed.

Context `{Remote} (ctx : AdminContext).

Lemma alike_status : alike (status ctx false) (status ctx false).
Proof.
  unfold status. apply alike_bind; [apply alike_peer|]. intros host_id. apply alike_bind; [apply alike_vaults|]. intros addresses.
  apply alike_bind; [apply alike_map; intros; apply alike_vault_lines|]. intros. apply alike_ret.
Qed.
Lemma alike_ops vault since : alike (ops vault since) (ops vault since).
Proof.
  unfold ops. apply alike_bind; [apply alike_lift|]. intros vault_id. apply alike_bind; [apply alike_lift|]. intros id.
  apply alike_bind; [apply alike_hosted|]. intros address. apply alike_host. intros [h act] [h' act'] Hv.
  unfold public_host in Hv. cbn [vh_host] in *. injection Hv as _ _ _ _ _ _ _ Ho. unfold recent_ops. rewrite Ho. apply alike_ret.
Qed.

Lemma alike_dispatch line : alike (dispatch ctx line false) (dispatch ctx line false).
Proof.
  unfold dispatch. cbv zeta. cbn [negb andb]. destruct (is_read_only _) eqn:Hr; cbn [negb]; [|apply alike_ret].
  set (command := default [] (head (split_whitespace line))) in *. clearbody command.
  unfold is_read_only in Hr. rewrite !orb_true_iff, !bool_decide_eq_true in Hr.
  destruct Hr as [[-> | ->]| ->].
  - apply alike_ret.
  - apply alike_status.
  - destruct (tail (split_whitespace line)) as [|v [|s ?]]; [apply alike_err..|apply alike_ops].
Qed.

(** *** A connection *)

Definition admin_stream (c : AdminConn) : bytes * option Error := stream (cn_reader c).
Definition next_line (s : bytes * option Error) : Result (option (list N)) :=
  line_read MAX_ADMIN_LINE "admin line is too long" "admin line is not UTF-8" s.

Lemma admin_line_eq c :
  let a := cn_admin c in
  let r := read_line MAX_ADMIN_LINE "admin line is too long" "admin line is not UTF-8" (cn_reader c) in
  admin_line c = (r.1, mkAdminConn (rm_meanwhile (ad_tick a) (set_ad_tick (S (ad_tick a)) a)) r.2 (cn_writes c) (cn_sent c)).
Proof. destruct c as [a rd ws sent]. unfold admin_line, sm_bind, sm_zoom, set_cn_admin, set_cn_reader. cbn [cn_admin cn_reader cn_writes cn_sent]. by destruct (read_line MAX_ADMIN_LINE "admin line is too long" "admin line is not UTF-8" rd). Qed.

Lemma admin_line_read c :
  (admin_line c).1 = next_line (admin_stream c)
  ∧ (∀ text, (admin_line c).1 = Ok (Some text) → admin_stream (admin_line c).2 = after_line (admin_stream c)).
Proof.
  rewrite admin_line_eq. cbv zeta. cbn [fst snd]. unfold admin_stream. cbn [cn_reader].
  pose proof (read_line_stream MAX_ADMIN_LINE "admin line is too long" "admin line is not UTF-8" (cn_reader c) ltac:(by vm_compute)) as Hr.
  destruct (read_line MAX_ADMIN_LINE "admin line is too long" "admin line is not UTF-8" (cn_reader c)) as [r rd]. exact Hr.
Qed.

(** A line that does not authorize. *)
Definition no_token (line : list N) : Prop :=
  ∀ token, Admin.strip_prefix (str "AUTH ") line = Some token → utf8 token ≠ utf8 (cx_token ctx).
(** None of the lines of a stream does. *)
Definition tokenless (s : bytes * option Error) : Prop :=
  ∀ n line, next_line (Nat.iter n after_line s) = Ok (Some line) → no_token line.

Lemma tokenless_after s : tokenless s → tokenless (after_line s).
Proof. intros Hs n line Hl. apply (Hs (S n)). by rewrite Nat.iter_succ_r. Qed.

(** The lines that are sent and how writing ends depend on nothing but the text. *)
Lemma write_admin_line_eq text c :
  (write_admin_line text c).1 = (write_admin_line text (mkAdminConn (cn_admin c) (cn_reader c) (cn_writes c) [])).1
  ∧ cn_admin (write_admin_line text c).2 = cn_admin c ∧ cn_reader (write_admin_line text c).2 = cn_reader c.
Proof. destruct c as [a rd ws sent]. unfold write_admin_line. cbn. by destruct ws as [|[]]. Qed.

Lemma admin_turn_state line c :
  no_token line →
  wp (admin_turn ctx line false) (λ next c', next ≠ Some true ∧ ticked (cn_admin c) (cn_admin c') ∧ cn_reader c' = cn_reader c)
    (λ c', ticked (cn_admin c) (cn_admin c')) c.
Proof.
  intros Ht. unfold admin_turn. case_bool_decide; [apply wp_ret; by split_and!|].
  assert (Hw : ∀ text next c1, next ≠ Some true → ticked (cn_admin c) (cn_admin c1) → cn_reader c1 = cn_reader c →
    wp (do! _ := write_admin_line text in sm_ret next)
      (λ next c', next ≠ Some true ∧ ticked (cn_admin c) (cn_admin c') ∧ cn_reader c' = cn_reader c)
      (λ c', ticked (cn_admin c) (cn_admin c')) c1).
  { intros text next c1 Hn Hc Hr. destruct (write_admin_line_eq text c1) as (_ & Ha & Hr'). apply wp_bind.
    unfold wp at 1. destruct (write_admin_line text c1) as [[[]|e] c2]; cbn in Ha, Hr'; rewrite ?Ha; [|done].
    apply wp_ret. split_and!; [done|by rewrite Ha|congruence]. }
  destruct (Admin.strip_prefix _ line) as [token|] eqn:Hs.
  - destruct (constant_time_eq _ _) eqn:He; cbn [negb]; [|by apply Hw].
    apply constant_time_eq_iff in He. by destruct (Ht token Hs).
  - apply wp_bind. unfold reply_to, wp at 1, sm_zoom.
    pose proof (alike_dispatch line (cn_admin c) (cn_admin c)) as Hd.
    destruct Hd as (_ & _ & Htick); [by split|].
    destruct (dispatch ctx line false (cn_admin c)) as [[reply|e] a]; by apply Hw.
Qed.

Lemma serve_lines_keeps (P : Admin → Prop) fuel c :
  (∀ t a, P a → P (set_ad_tick t a)) → (∀ t a, P a → P (rm_meanwhile t a)) →
  tokenless (admin_stream c) → P (cn_admin c) → P (cn_admin (serve_lines ctx fuel false c).2).
Proof.
  intros Htick Hmean. revert c. induction fuel as [|fuel IH]; intros c Ht Hc; [done|]. cbn [serve_lines].
  destruct (admin_line_read c) as [Hl Ha]. unfold sm_bind at 1. rewrite admin_line_eq in *. cbv zeta in *.
  cbn [fst snd] in *. set (r := read_line MAX_ADMIN_LINE "admin line is too long" "admin line is not UTF-8" (cn_reader c)) in *.
  set (c1 := mkAdminConn _ r.2 (cn_writes c) (cn_sent c)) in *.
  assert (Hc1 : P (cn_admin c1)) by by apply Hmean, Htick.
  destruct r.1 as [[line|]|e]; [|done..]. specialize (Ha line eq_refl).
  assert (Hno : no_token line) by by apply (Ht 0%nat).
  pose proof (admin_turn_state line c1 Hno) as Hturn. unfold sm_bind. unfold wp in Hturn.
  destruct (admin_turn ctx line false c1) as [[next|e] c2].
  - destruct Hturn as (Hn & [t Htk] & Hr). assert (P (cn_admin c2)) by (rewrite Htk; by apply Htick).
    destruct next as [[]|]; [done| |done]. apply IH; [|done]. unfold admin_stream in *. rewrite Hr, Ha.
    by apply tokenless_after.
  - destruct Hturn as [t Htk]. cbn [snd]. rewrite Htk. by apply Htick.
Qed.

(** Whether the first [n] lines are tokenless and nothing comes after them. *)
Definition quiet (line : list N) : bool :=
  match Admin.strip_prefix (str "AUTH ") line with
  | Some token => negb (bool_decide (utf8 token = utf8 (cx_token ctx)))
  | None => true
  end.
Fixpoint quiet_lines (n : nat) (s : bytes * option Error) : bool :=
  match n with
  | O => bool_decide (s.1 = [])
  | S n => match next_line s with Ok (Some line) => quiet line | _ => true end && quiet_lines n (after_line s)
  end.
Lemma quiet_tokenless n s : quiet_lines n s = true → tokenless s.
Proof.
  revert s. induction n as [|n IH]; intros s Hs.
  - cbn in Hs. apply bool_decide_eq_true in Hs. destruct s as [l ending]. cbn in Hs. subst l.
    assert (Hend : ∀ k, Nat.iter k after_line ([], ending) = ([], ending)).
    { induction k as [|k IHk]; [done|]. rewrite Nat.iter_succ. by rewrite IHk. }
    intros k line. rewrite Hend. by destruct ending.
  - cbn [quiet_lines] in Hs. apply andb_true_iff in Hs as [Hq Hs]. intros [|k] line Hl.
    + cbn in Hl. rewrite Hl in Hq. intros token Ht Heq. unfold quiet in Hq. rewrite Ht in Hq.
      by rewrite bool_decide_eq_true_2 in Hq.
    + apply (IH _ Hs k). by rewrite <-Nat.iter_succ_r.
Qed.

(** *** Its end *)

Lemma admin_turn_reader line authorized c : cn_reader (admin_turn ctx line authorized c).2 = cn_reader c.
Proof.
  assert (Hw : ∀ text (next : option bool) c1, cn_reader c1 = cn_reader c →
    cn_reader ((do! _ := write_admin_line text in sm_ret next) c1).2 = cn_reader c).
  { intros text next c1 <-. destruct (write_admin_line_eq text c1) as (_ & _ & Hr). unfold sm_bind.
    by destruct (write_admin_line text c1) as [[[]|e] c2]. }
  unfold admin_turn. case_bool_decide; [done|]. destruct (Admin.strip_prefix _ line) as [token|].
  - destruct (negb _); by apply Hw.
  - unfold reply_to, sm_zoom. unfold sm_bind at 1. destruct (dispatch ctx line authorized (cn_admin c)) as [[reply|e] a]; by apply Hw.
Qed.

Lemma serve_lines_enough fuel authorized c :
  (length (admin_stream c).1 < fuel)%nat →
  serve_lines ctx fuel authorized c = serve_lines ctx (S (length (admin_stream c).1)) authorized c.
Proof.
  remember (S (length (admin_stream c).1)) as enough eqn:He. assert (Hlt : (length (admin_stream c).1 < enough)%nat) by lia.
  clear He. revert enough authorized c Hlt. induction fuel as [|fuel IH]; intros [|enough] authorized c Hlt Hf; [lia..|].
  cbn [serve_lines]. unfold sm_bind at 1 3. destruct (admin_line_read c) as [Hl Ha].
  destruct (admin_line c) as [[[line|]|e] c1]; [|done..]. cbn [fst snd] in *. specialize (Ha line eq_refl).
  unfold sm_bind. pose proof (admin_turn_reader line authorized c1) as Hr.
  destruct (admin_turn ctx line authorized c1) as [[[next|]|e] c2]; [|done..]. cbn [snd] in Hr.
  assert (Hc2 : admin_stream c2 = after_line (admin_stream c)) by (unfold admin_stream in *; by rewrite Hr).
  assert (Hlen : (length (admin_stream c2).1 < length (admin_stream c).1)%nat).
  { rewrite Hc2. symmetry in Hl. unfold next_line, line_read in Hl. unfold after_line.
    destruct (position (admin_stream c).1) as [i|] eqn:Hi.
    - apply position_Some in Hi as [Hi%lookup_lt_Some _]. cbn [fst]. rewrite length_drop. lia.
    - destruct (negb _); [|done]. by destruct (admin_stream c).2. }
  apply IH; lia.
Qed.

(** *** Two processes that differ in what is concealed *)

Record same_view (c c' : AdminConn) : Prop := {
  sv_admin : same_public (cn_admin c) (cn_admin c');
  sv_reader : cn_reader c = cn_reader c';
  sv_writes : cn_writes c = cn_writes c';
  sv_sent : cn_sent c = cn_sent c';
}.

Lemma write_view text c c' :
  same_view c c' →
  (write_admin_line text c).1 = (write_admin_line text c').1
  ∧ same_view (write_admin_line text c).2 (write_admin_line text c').2.
Proof.
  destruct c as [a rd ws sent], c' as [a' rd' ws' sent']. intros [Ha Hr Hw Hs]. cbn in *. subst rd' ws' sent'.
  unfold write_admin_line. cbn. destruct ws as [|[] ws]; by split.
Qed.

Lemma admin_turn_view line c c' :
  no_token line → same_view c c' →
  (admin_turn ctx line false c).1 = (admin_turn ctx line false c').1
  ∧ same_view (admin_turn ctx line false c).2 (admin_turn ctx line false c').2.
Proof.
  intros Ht Hc.
  assert (Hw : ∀ text (next : option bool) c1 c1', same_view c1 c1' →
    ((do! _ := write_admin_line text in sm_ret next) c1).1 = ((do! _ := write_admin_line text in sm_ret next) c1').1
    ∧ same_view ((do! _ := write_admin_line text in sm_ret next) c1).2 ((do! _ := write_admin_line text in sm_ret next) c1').2).
  { intros text next c1 c1' Hc1. destruct (write_view text c1 c1' Hc1) as [Hr Hv]. unfold sm_bind.
    destruct (write_admin_line text c1) as [[[]|e] c2], (write_admin_line text c1') as [[[]|e'] c2']; cbn in Hr; by simplify_eq. }
  unfold admin_turn. case_bool_decide; [done|]. destruct (Admin.strip_prefix _ line) as [token|] eqn:Hs.
  - destruct (constant_time_eq _ _) eqn:He; cbn [negb]; [|by apply Hw].
    apply constant_time_eq_iff in He. by destruct (Ht token Hs).
  - unfold reply_to, sm_zoom. unfold sm_bind at 1 3 5 7.
    destruct (alike_dispatch line _ _ (sv_admin _ _ Hc)) as (Hr & Hp & _).
    assert (Hset : ∀ a a', same_public a a' → same_view (set_cn_admin a c) (set_cn_admin a' c')) by (intros; by split; destruct Hc).
    destruct (dispatch ctx line false (cn_admin c)) as [[reply|e] a], (dispatch ctx line false (cn_admin c')) as [[reply'|e'] a'];
      cbn in Hr; simplify_eq; by apply Hw, Hset.
Qed.

Lemma serve_lines_view fuel c c' :
  (∀ t a b, same_public a b → same_public (rm_meanwhile t a) (rm_meanwhile t b)) →
  tokenless (admin_stream c) → same_view c c' →
  (serve_lines ctx fuel false c).1 = (serve_lines ctx fuel false c').1
  ∧ same_view (serve_lines ctx fuel false c).2 (serve_lines ctx fuel false c').2.
Proof.
  intros Hmean. revert c c'. induction fuel as [|fuel IH]; intros c c' Ht Hc; [done|]. cbn [serve_lines].
  destruct (admin_line_read c) as [Hl Ha].
  assert (Hline : (admin_line c).1 = (admin_line c').1 ∧ same_view (admin_line c).2 (admin_line c').2).
  { rewrite !admin_line_eq. cbv zeta. cbn [fst snd]. rewrite (sv_reader _ _ Hc). split; [done|]. split; cbn; [|done|..].
    - rewrite (sp_tick _ _ (sv_admin _ _ Hc)). apply Hmean, same_public_tick, (sv_admin _ _ Hc).
    - apply (sv_writes _ _ Hc).
    - apply (sv_sent _ _ Hc). }
  unfold sm_bind at 1 3 5 7. destruct (admin_line c) as [r c1], (admin_line c') as [r' c1']. cbn [fst snd] in *.
  destruct Hline as [<- Hv]. destruct r as [[line|]|e]; [|done..]. specialize (Ha line eq_refl).
  destruct (admin_turn_view line c1 c1') as [Hr Hv2]; [by apply (Ht 0%nat)|done|].
  pose proof (admin_turn_reader line false c1) as Hread.
  pose proof (admin_turn_state line c1 (Ht 0%nat line (eq_sym Hl))) as Hturn. unfold wp in Hturn. unfold sm_bind.
  destruct (admin_turn ctx line false c1) as [r2 c2], (admin_turn ctx line false c1') as [r2' c2']. cbn [fst snd] in *.
  subst r2'. destruct r2 as [[next|]|e]; [|done..]. destruct Hturn as (Hn & _). destruct next; [done|].
  apply IH; [|done]. unfold admin_stream in *. rewrite Hread, Ha. by apply tokenless_after.
Qed.

(** ** A rotation of the join code *)

(** The code that admits members to the vault hosted at an address. *)
Definition code_of (v : VaultHost) : option JoinCode := vm_join_code <$> st_admission (hs_state (vh_host v)).
Definition code_at (address : N) (a : Admin) : option JoinCode := ho_cells (ad_hosting a) !! address ≫= code_of.
(** The short code that is shown of a vault, if it has one. *)
Definition shown (vault_id : VaultId) (a : Admin) : list N := am_short (AppMeta_read (ad_meta a !! vault_name vault_id)).

(** The host's replicated state is as it was. *)
Definition same_state (v v' : VaultHost) : Prop := hs_state (vh_host v') = hs_state (vh_host v).
#[local] Instance same_state_preorder : PreOrder same_state.
Proof. split; [done|]. intros a b c. unfold same_state. congruence. Qed.
Lemma same_state_code v v' : same_state v v' → code_of v' = code_of v.
Proof. unfold same_state, code_of. by intros ->. Qed.

Lemma vault_keys_state {A} (m : SM StoreInner A) : preserves same_state (vault_keys m).
Proof.
  intros v. apply wp_state. unfold vault_keys, in_service, on_keys, on_world, keys, sm_zoom, same_state.
  by destruct (m _).
Qed.
Lemma admission_state : preserves same_state admission.
Proof. unfold admission. apply (preserves_bind same_state); [apply preserves_get, _|]. intros v. apply preserves_lift, _. Qed.
Lemma unix_time_state : preserves same_state (in_service (on_world unix_time)).
Proof.
  intros v. apply wp_state. unfold in_service, on_world, unix_time, draw_ok, draw, sm_zoom, sm_bind, same_state. cbn.
  by destruct (oc_unix_time (w_tick (hs_world (vh_host v)))).
Qed.
Lemma next_issued_at_state : preserves same_state next_issued_at.
Proof.
  unfold next_issued_at. apply (preserves_bind same_state); [apply unix_time_state|]. intros now.
  apply (preserves_bind same_state); [apply admission_state|]. intros metadata.
  apply (preserves_bind same_state); [apply preserves_lift, _|]. intros next. apply preserves_ret, _.
Qed.

Lemma set_admission_code metadata v :
  wp (in_service (set_admission metadata)) (λ _ v', code_of v' = Some (vm_join_code metadata)) (same_state v) v.
Proof.
  unfold in_service. apply wp_zoom. set (h := vh_host v).
  assert (Hx : wp (set_admission metadata) (λ _ h', vm_join_code <$> st_admission (hs_state h') = Some (vm_join_code metadata))
    (λ h', hs_state h' = hs_state h) h).
  { unfold set_admission, require_running, sm_get. apply wp_bind. apply wp_bind. unfold wp at 1. apply wp_if; [intros _|done].
    apply wp_ret. apply wp_bind. unfold wp at 1. apply wp_if; [intros _|done]. apply wp_bind. unfold stage_state. apply wp_bind.
    unfold wp at 1, sm_get. apply wp_ret. eapply wp_mono; [apply publish_wp| |].
    - intros [] h' (w & documents & chunks & -> & _). cbn. unfold published. by destruct (hs_state h).
    - by intros h' [w ->]. }
  eapply wp_mono; [exact Hx| |]; cbn beta; intros; done.
Qed.

Lemma rotate_local_code addr code v :
  wp (rotate_local addr code) (λ r v', r.1.1 = code ∧ code_of v' = Some code) (λ v', code_of v' = code_of v) v.
Proof.
  unfold rotate_local.
  assert (Hs : wp (rotate_local addr code) (λ r v', r.1.1 = code ∧ code_of v' = Some code) (same_state v) v).
  { unfold rotate_local. apply wp_bind, (preserves_after same_state _ _ _ v); [apply admission_state|done| |done]. intros old v1 S1.
    apply wp_bind, (preserves_after same_state _ _ _ v); [apply next_issued_at_state|done| |done]. intros issued_at v2 S2.
    apply wp_bind, wp_lift; [|done]. intros forgotten_at _.
    apply wp_bind, (preserves_after same_state _ _ _ v); [apply admission_state|done| |done]. intros metadata v3 S3.
    apply wp_bind, (preserves_after same_state _ _ _ v); [apply vault_keys_state|done| |done]. intros ad v4 S4.
    apply wp_bind, (preserves_after same_state _ _ _ v); [apply vault_keys_state|done| |done]. intros forget v5 S5.
    apply wp_bind. eapply wp_mono; [apply set_admission_code| |].
    - intros [] v6 Hc. by apply wp_ret.
    - cbn beta. intros v6 S6. by transitivity v5. }
  eapply wp_mono; [exact Hs|done|]. apply same_state_code.
Qed.

Lemma on_cell_wp {A} address (m : SM VaultHost A) (Q : A → Admin → Prop) (E : Admin → Prop) a :
  (ho_cells (ad_hosting a) !! address = None → E a) →
  (∀ v, code_of v = code_at address a →
     wp m (λ x v', ∀ a', ad_dir a' = ad_dir a → ad_meta a' = ad_meta a → code_at address a' = code_of v' → Q x a')
       (λ v', ∀ a', ad_dir a' = ad_dir a → ad_meta a' = ad_meta a → code_at address a' = code_of v' → E a') v) →
  wp (on_hosting (on_cell address m)) Q E a.
Proof.
  intros Hnone Hsome. unfold on_hosting, on_cell, sm_zoom, wp. destruct (ho_cells (ad_hosting a) !! address) as [v|] eqn:Hv.
  - specialize (Hsome (load_vault (ho_keys (ad_hosting a)) (ho_tick (ad_hosting a)) v)).
    unfold wp, code_at in Hsome. rewrite Hv in Hsome. specialize (Hsome eq_refl). destruct (m _) as [[x|e] v'];
      (apply Hsome; [done|done|]; cbn; by rewrite lookup_insert_eq).
  - replace (set_ad_hosting (ad_hosting a) a) with a by by destruct a. by apply Hnone.
Qed.

Lemma mint_wp (Q : list N → Admin → Prop) (E : Admin → Prop) a :
  (∀ t random, Q (map byte_N (Codes.generate random)) (set_ad_tick t a)) → (∀ t, E (set_ad_tick t a)) → wp mint Q E a.
Proof.
  intros HQ HE. unfold mint. apply wp_bind. unfold admin_draw_ok. apply wp_bind. unfold wp at 1, admin_draw.
  apply wp_lift; [intros random _|by intros _]. by apply wp_ret.
Qed.

Lemma hosted_vault_wp vault_id (Q : N → Admin → Prop) (E : Admin → Prop) a :
  (∀ address, ho_vaults (ad_hosting a) !! vault_id = Some address → Q address a) → E a → wp (hosted_vault vault_id) Q E a.
Proof.
  intros HQ HE. unfold hosted_vault. apply wp_bind. unfold on_hosting, sm_zoom, get_vault, sm_bind, sm_get, sm_ret, wp at 1.
  replace (set_ad_hosting (ad_hosting a) a) with a by by destruct a.
  destruct (ho_vaults (ad_hosting a) !! vault_id) as [address|]; cbn [ok_or]; [by apply HQ|done].
Qed.

Lemma read_meta_wp vault_id (Q : AppMeta → Admin → Prop) (E : Admin → Prop) a :
  Q (AppMeta_read (ad_meta a !! vault_name vault_id)) a → wp (read_meta vault_id) Q E a.
Proof. done. Qed.

(** The file of a vault is replaced, or is as it was. *)
Lemma write_meta_wp vault_id meta (Q : unit → Admin → Prop) (E : Admin → Prop) a :
  meta_ok meta →
  (∀ a', ad_hosting a' = set_ho_tick (ad_tick a') (ad_hosting a) → ad_dir a' = ad_dir a →
     AppMeta_read (ad_meta a' !! vault_name vault_id) = meta → Q tt a') →
  (∀ a', ad_hosting a' = set_ho_tick (ad_tick a') (ad_hosting a) → ad_dir a' = ad_dir a →
     ad_meta a' = ad_meta a ∨ AppMeta_read (ad_meta a' !! vault_name vault_id) = meta → E a') →
  wp (write_meta vault_id meta) Q E a.
Proof.
  intros Hm HQ HE. unfold write_meta. apply wp_bind. unfold wp at 1, admin_draw. unfold wp. cbn [ad_dir set_ad_tick set_ad_hosting].
  destruct (entry_of vault_id (ad_dir a)) as [| |p]; [by apply HE; [..|left]|by apply HE; [..|left]|].
  assert (Hnew : AppMeta_read (partial_alter (λ _, Some (utf8 (meta_text meta))) (vault_name vault_id) (ad_meta a) !! vault_name vault_id)
    = meta) by (rewrite lookup_partial_alter_eq; by apply app_meta_reads).
  assert (Hold : partial_alter (λ _, ad_meta a !! vault_name vault_id) (vault_name vault_id) (ad_meta a) = ad_meta a).
  { apply map_eq. intros i. destruct (decide (i = vault_name vault_id)) as [->|Hi]; [by rewrite lookup_partial_alter_eq|].
    by rewrite lookup_partial_alter_ne. }
  unfold atomic_write. destruct (_ <? _); [apply HE; [done|done|by left]|].
  destruct (oc_write (ad_tick a)) as [|e took]; [by apply HQ|]. apply HE; [done|done|].
  destruct took; [by right|by left].
Qed.

(** What a rotation depends on while it runs: the code in force, the file of the vault's fields,
    and whether the vault has a directory of its own. *)
Record leaves_vault (vault_id : VaultId) (address : N) (a a' : Admin) : Prop := {
  lv_code : code_at address a' = code_at address a;
  lv_meta : ad_meta a' !! vault_name vault_id = ad_meta a !! vault_name vault_id;
  lv_entry : entry_of vault_id (ad_dir a') = NAbsent ↔ entry_of vault_id (ad_dir a) = NAbsent;
}.
#[export] Instance leaves_vault_preorder vault_id address : PreOrder (leaves_vault vault_id address).
Proof. split; [done|]. intros a b c [] []. split; [congruence|congruence|]. by etransitivity. Qed.

Section apart.
Context (vault_id : VaultId) (address : N).
(** While the directory server is awaited the other tasks leave this vault alone. *)
Context (Hapart : ∀ t a, leaves_vault vault_id address a (rm_meanwhile t a)).

Lemma await_leaves a : leaves_vault vault_id address a (await_directory a).2.
Proof. etransitivity; [|apply Hapart]. by split. Qed.

Lemma tell_directory_wp (Q : unit → Admin → Prop) (E : Admin → Prop) a :
  (∀ a', leaves_vault vault_id address a a' → Q tt a') → (∀ a', leaves_vault vault_id address a a' → E a') →
  wp tell_directory Q E a.
Proof.
  intros HQ HE. unfold tell_directory. apply wp_bind. pose proof (await_leaves a) as H1'. unfold wp.
  destruct (await_directory a) as [[[]|e] a1]; cbn [snd] in H1'; [|by apply HE].
  pose proof (await_leaves a1) as H2'.
  destruct (await_directory a1) as [[[]|e] a2]; cbn [snd] in H2'; [apply HQ|apply HE]; by etransitivity.
Qed.

(** What a rotation of this vault's code leaves. *)
Definition rotated (a : Admin) (r : Result (list N)) (a' : Admin) : Prop :=
  match r with
  | Ok reply =>
      ∃ short code, reply = Admin.word (str "OK") [short] ∧ derive_chars short = Ok code ∧ code_at address a' = Some code
        ∧ (entry_of vault_id (ad_dir a) ≠ NAbsent → shown vault_id a' = short)
  | Err _ =>
      code_at address a' = code_at address a ∧ ad_meta a' !! vault_name vault_id = ad_meta a !! vault_name vault_id
      ∨ ∃ short code, derive_chars short = Ok code ∧ code_at address a' = Some code
          ∧ (ad_meta a' !! vault_name vault_id = ad_meta a !! vault_name vault_id ∨ shown vault_id a' = short)
  end.

Lemma rotate_code_wp vault a :
  parse_hex32 vault = Ok vault_id → ho_vaults (ad_hosting a) !! vault_id = Some address →
  wp (rotate_code ctx vault) (λ reply a', rotated a (Ok reply) a')
    (λ a', rotated a (Err AuthenticationFailed) a') a.
Proof.
  intros Hv Ha. unfold rotate_code. rewrite Hv. apply wp_bind, wp_lift; [intros ? [= <-]|by intros [e He]].
  apply wp_bind, hosted_vault_wp; [|by left]. intros address' Ha'. rewrite Ha in Ha'. injection Ha' as <-.
  apply wp_bind. unfold require_directory. apply wp_if; [intros _; apply wp_ret|intros _; by left].
  apply wp_bind, mint_wp; [|by left]. intros t random. set (short := map byte_N _). set (a1 := set_ad_tick t a).
  apply wp_bind, wp_lift; [intros code Hcode|by left].
  apply wp_bind. unfold rotate_code_with. apply wp_bind, on_cell_wp; [by left|]. intros v Hcv.
  eapply wp_mono; [apply rotate_local_code| |].
  2: { cbn beta. intros v' Hc a2 _ Hm Hca. left. rewrite Hm. split; [|done]. rewrite Hca, Hc, Hcv. done. }
  intros [[code' ad] forget] v' [Hc Hcv'] a2 Hd Hm Hca. cbn in Hc. subst code'. rewrite Hcv' in Hca.
  apply wp_bind, tell_directory_wp.
  2: { intros a3 [Hc3 Hm3 _]. right. exists short, code. rewrite Hm3, Hm, Hc3. split_and!; [done|exact Hca|by left]. }
  intros a3 [Hc3 Hm3 He3]. rewrite <-Hc3 in Hca. rewrite Hm in Hm3. rewrite Hd in He3. apply wp_ret. unfold store_short.
  assert (Hok : meta_ok (set_am_short short (AppMeta_read (ad_meta a3 !! vault_name vault_id)))).
  { destruct (app_meta_read_ok (ad_meta a3 !! vault_name vault_id)) as [Hcr _]. split; [done|].
    exists (Codes.generate random). split; [done|]. right. apply generate_canonical. }
  apply wp_bind. apply wp_bind. unfold wp at 1, sm_get.
  assert (Hwrite : wp (do! meta := read_meta vault_id in write_meta vault_id (set_am_short short meta))
    (λ _ a', code_at address a' = Some code ∧ shown vault_id a' = short)
    (λ a', rotated a (Err AuthenticationFailed) a') a3).
  { apply wp_bind, read_meta_wp, write_meta_wp; [done| |].
    - intros a4 Hh _ Hr. unfold code_at. rewrite Hh. split; [exact Hca|]. unfold shown. by rewrite Hr.
    - intros a4 Hh _ Hr. right. exists short, code. split; [done|]. unfold code_at at 1. rewrite Hh. split; [exact Hca|].
      destruct Hr as [Hr|Hr]; [left; by rewrite Hr, Hm3|right; unfold shown; by rewrite Hr]. }
  destruct (entry_of vault_id (ad_dir a3)) eqn:Hentry.
  1: { apply wp_ret, wp_ret. exists short, code. split_and!; [done..|]. intros Hne. by destruct (Hne (proj1 He3 eq_refl)). }
  all: eapply wp_mono; [exact Hwrite| |done]; cbn beta; intros [] a4 [Hc4 Hs4]; apply wp_ret; exists short, code; by split_and!.
Qed.
End apart.
End claims.

(** ** The claims *)

Section theorems.
Context `{Sha256, MlDsa65, XWing, AesGcm, HkdfSha256, Oracle, SocketAddrs, ReadDir, IoText, Remote}.
Context (ctx : AdminContext).

(** C36: a connection that never sends the token changes nothing.  Whatever it sends and however it
    arrives, a property of the process that the other tasks keep, and that does not speak of how
    often the clock was read, holds when the connection ends if it held when it began; and the
    connection ends within one pass more than it has bytes: further passes make no difference. *)
Theorem unauthorized_harmless (P : Admin → Prop) (c : AdminConn) :
  (∀ t a, P a → P (set_ad_tick t a)) → (∀ t a, P a → P (rm_meanwhile t a)) →
  tokenless ctx (admin_stream c) → P (cn_admin c) →
  P (cn_admin (serve_admin ctx c).2)
  ∧ ∀ fuel, (length (admin_stream c).1 < fuel)%nat → serve_lines ctx fuel false c = serve_admin ctx c.
Proof.
  intros Htick Hmean Ht Hc. split; [unfold serve_admin; by apply serve_lines_keeps|]. intros fuel Hf. by apply serve_lines_enough.
Qed.

(** C37: a connection that never sends the token learns no join code.  It is sent the same lines by
    two processes that differ in the join codes of their vaults, long or short, in their keys and
    in their files, as long as what other tasks do does not tell them apart either. *)
Theorem codes_concealed (a b : Admin) (reader : LineReader) (writes : list (Result unit)) :
  (∀ t a b, same_public a b → same_public (rm_meanwhile t a) (rm_meanwhile t b)) →
  tokenless ctx (stream reader) → same_public a b →
  let from a := serve_admin ctx (mkAdminConn a reader writes []) in
  (from a).1 = (from b).1 ∧ cn_sent (from a).2 = cn_sent (from b).2.
Proof.
  intros Hmean Ht Hab. cbv zeta. unfold serve_admin. cbn [cn_reader].
  destruct (serve_lines_view ctx (S (length (stream reader).1)) (mkAdminConn a reader writes []) (mkAdminConn b reader writes [])
    Hmean Ht ltac:(by split)) as [Hr Hv]. split; [done|]. apply (sv_sent _ _ Hv).
Qed.

(** C38: a rotation of the join code of a vault that the other tasks leave alone meanwhile - the
    code in force, the file of its fields and its having a directory - whatever else they do.  One
    that succeeds answers with a short code; the code it stands for is the one that then admits
    members, and it is the one that is shown of the vault if the vault has a directory of its own.
    One that fails has changed nothing of the vault, or has put a new code in force: what is then
    shown of the vault is the short code of before, or the new one.  The condition is needed: a
    second rotation while the first awaits the directory server makes the first answer with a code
    that is not in force ([crossed_rotations] below). *)
Theorem rotation_exact vault vault_id address (a : Admin) :
  (∀ t a, leaves_vault vault_id address a (rm_meanwhile t a)) →
  parse_hex32 vault = Ok vault_id → ho_vaults (ad_hosting a) !! vault_id = Some address →
  let '(r, a') := rotate_code ctx vault a in rotated vault_id address a r a'.
Proof.
  intros Hapart Hv Ha. pose proof (rotate_code_wp ctx vault_id address Hapart vault a Hv Ha) as Hr. unfold wp in Hr.
  by destruct (rotate_code ctx vault a) as [[reply|e] a'].
Qed.
End theorems.

(** ** A host and its desktop application *)

Section sample.
(** A hash that tells the sample's codes apart: of a short code the last bytes first. *)
#[local] Instance code_sha256 : Sha256 := λ l,
  if bool_decide (firstn (length SHORT_CODE_DOMAIN) l = SHORT_CODE_DOMAIN)
  then default (array_fill 32 Byte.x00) (array_of_bytes 32 (firstn 32 (reverse l ++ replicate 32 Byte.x00)))
  else sample_sha256 l.
#[local] Existing Instances sample_mldsa sample_xwing sample_gcm sample_hkdf sample_oracle sample_addrs sample_listing.
#[local] Instance sample_io_text : IoText := λ _, str "other".

(** A directory server that takes everything, and one that refuses everything. *)
Definition taking : Remote := {| rm_reply _ := Ok tt; rm_meanwhile _ a := a |}.
Definition refusing : Remote := {| rm_reply _ := Err (Io OtherIo); rm_meanwhile _ a := a |}.

Definition sample_ctx : AdminContext :=
  mkAdminContext (str "secret") true None sample_address (u64! 1000).
Definition bare_admin : Admin :=
  mkAdmin (mkHosting sample_small.1 3 ∅ ∅ ∅ ∅ 0 0) (mkDataDir None empty_place NAbsent) ∅.

(** A vault is created; its code is rotated when the directory server refuses, and when it does not. *)
Definition created_vault : Result (list N) * Admin := create_vault (H8 := taking) sample_ctx (str "500") (str "-") bare_admin.
Definition hosted : Admin := created_vault.2.
Definition hosted_id : VaultId :=
  match map_to_list (ho_vaults (ad_hosting hosted)) with (id, _) :: _ => id | [] => sample_id end.
Definition rotation (remote : Remote) : Result (list N) * Admin := rotate_code (H8 := remote) sample_ctx (hex_text hosted_id) hosted.

Lemma rotation_exact_witness :
  rotated hosted_id 0 hosted (rotation taking).1 (rotation taking).2 ∧ is_ok (rotation taking).1 = true
  ∧ rotated hosted_id 0 hosted (rotation refusing).1 (rotation refusing).2 ∧ is_ok (rotation refusing).1 = false.
Proof.
  assert (Hid : parse_hex32 (hex_text hosted_id) = Ok hosted_id) by (vm_compute; reflexivity).
  assert (Hhosted : ho_vaults (ad_hosting hosted) !! hosted_id = Some 0) by (vm_compute; reflexivity).
  pose proof (rotation_exact (H8 := taking) sample_ctx (hex_text hosted_id) hosted_id 0 hosted (λ _ _, reflexivity _) Hid Hhosted) as Ht.
  pose proof (rotation_exact (H8 := refusing) sample_ctx (hex_text hosted_id) hosted_id 0 hosted (λ _ _, reflexivity _) Hid Hhosted) as Hr.
  assert (Hok : is_ok (rotation taking).1 && negb (is_ok (rotation refusing).1) = true) by (vm_compute; reflexivity).
  apply andb_true_iff in Hok as [Hok Hko]. apply negb_true_iff in Hko.
  unfold rotation in *.
  destruct (rotate_code (H8 := taking) sample_ctx (hex_text hosted_id) hosted) as [r a].
  destruct (rotate_code (H8 := refusing) sample_ctx (hex_text hosted_id) hosted) as [r' a'].
  exact (conj Ht (conj Hok (conj Hr Hko))).
Defined.

(** A connection that has no token: it lists what is hosted, tries one, and tries to rotate. *)
Definition prying : LineReader := mkLineReader []
  [Ok (utf8 (str "STATUS" ++ [10])); Ok (utf8 (Admin.word (str "ROTATE_CODE") [hex_text hosted_id] ++ [10]));
   Ok (utf8 (str "AUTH guess" ++ [10])); Ok []].
Definition prying_sent (a : Admin) : list (list N) :=
  cn_sent (serve_admin (H8 := taking) sample_ctx (mkAdminConn a prying (replicate 5 (Ok tt)) [])).2.

Lemma prying_tokenless : tokenless sample_ctx (stream prying).
Proof. apply (quiet_tokenless sample_ctx 3). vm_compute. reflexivity. Qed.

Lemma unauthorized_harmless_witness :
  let c := serve_admin (H8 := taking) sample_ctx (mkAdminConn hosted prying (replicate 5 (Ok tt)) []) in
  ad_meta (cn_admin c.2) = ad_meta hosted ∧ code_at 0 (cn_admin c.2) = code_at 0 hosted.
Proof.
  exact (proj1 (unauthorized_harmless (H8 := taking) sample_ctx
    (λ a, ad_meta a = ad_meta hosted ∧ code_at 0 a = code_at 0 hosted)
    (mkAdminConn hosted prying (replicate 5 (Ok tt)) [])
    (λ _ _ Ha, Ha) (λ _ _ Ha, Ha) prying_tokenless (conj eq_refl eq_refl))).
Defined.

(** The same host without a short code, and with another long one. *)
Definition without_codes (a : Admin) : Admin :=
  let forget v := set_vh_host (set_hs_state (set_st_admission
    ((λ m, set_vm_join_code (array_N 16 1) m) <$> st_admission (hs_state (vh_host v))) (hs_state (vh_host v))) (vh_host v)) v in
  mkAdmin (set_ho_cells (forget <$> ho_cells (ad_hosting a)) (ad_hosting a)) (ad_dir a)
    ((λ content, utf8 (meta_text (set_am_short [] (AppMeta_read (Some content))))) <$> ad_meta a).

Lemma without_codes_public a : same_public a (without_codes a).
Proof.
  split; [done|done|done| |].
  - intros address. cbn. rewrite lookup_fmap. destruct (ho_cells (ad_hosting a) !! address) as [v|]; [|done].
    cbn. destruct v as [[w st ? ? ? ? ? ? ? ?] ?]. unfold public_host. cbn. destruct st as [].
    cbn. by destruct st_admission.
  - intros id. cbn [without_codes ad_meta]. rewrite lookup_fmap. destruct (ad_meta a !! vault_name id) as [content|]; [|done].
    cbn [fmap option_fmap option_map]. rewrite app_meta_reads; [done|].
    destruct (app_meta_read_ok (Some content)) as [Hc _]. split; [done|]. exists []. by split; [|left].
Qed.

Lemma codes_concealed_witness :
  prying_sent hosted = prying_sent (without_codes hosted)
  ∧ (length (prying_sent hosted) =? 3)%nat && negb (bool_decide (code_at 0 hosted = code_at 0 (without_codes hosted))) = true.
Proof.
  pose proof (codes_concealed (H8 := taking) sample_ctx hosted (without_codes hosted) prying (replicate 5 (Ok tt))
    (λ _ _ _ Hab, Hab) prying_tokenless (without_codes_public hosted)) as Hc.
  cbv zeta in Hc. destruct Hc as [_ Hc]. unfold prying_sent at 1 2. rewrite Hc.
  split; [reflexivity|vm_compute; reflexivity].
Defined.

(** The short code that is shown after a rotation that was refused is the one of before, which
    stands for a code that is no longer in force. *)
Example refused_rotation_shows_old :
  let a' := (rotation refusing).2 in
  bool_decide (shown hosted_id a' = shown hosted_id hosted)
  && match derive_chars (shown hosted_id a'), code_at 0 a' with
     | Ok old, Some code => negb (bool_decide (old = code))
     | _, _ => false
     end = true.
Proof. vm_compute. reflexivity. Qed.

(** A second rotation of the same vault runs while the first awaits the directory server.  Both
    answer OK; the code the first answers with, which is the one then shown, is not in force. *)
Definition crossing : Remote := {|
  rm_reply _ := Ok tt;
  rm_meanwhile t a :=
    if bool_decide (t = ad_tick hosted + 7)%nat
    then (rotate_code (H8 := taking) sample_ctx (hex_text hosted_id) a).2 else a |}.
Example crossed_rotations :
  let '(r, a') := rotation crossing in
  (match r with
   | Ok reply => bool_decide (reply = Admin.word (str "OK") [shown hosted_id a'])
   | Err _ => false
   end)
  && match derive_chars (shown hosted_id a'), code_at 0 a' with
     | Ok answered, Some code => negb (bool_decide (answered = code))
     | _, _ => false
     end = true.
Proof. vm_compute. reflexivity. Qed.
End sample.
